(* ===== verification/_CoqProject ===== *)
-Q . S2P
Prelude.v
Utf8.v
Text.v
Buf.v
Num.v
Dates.v
Protocol.v
Framing.v
Messages.v
Parse.v
CopyPump.v
Errors.v
Temporal.v
Value.v
Encode.v
EncodeProofs.v
Jit.v
CopyText.v
ArrayText.v
NumText.v
Faults.v
Auth.v
Json.v
JsonBig.v
JsonBuffer.v
ExtTypes.v
JsonSpec.v
JsonScan.v
JsonScanProofs.v
Decode.v
Mapper.v
MapperProofs.v
BinTuple.v
Spec.v
PgOutput.v
PgOutputProofs.v
Replication.v
ReplicationProofs.v
ReplStart.v
ReplScram.v
Cdc.v
CdcProofs.v
Pool.v
PoolProofs.v
PoolSize.v
Plans.v
Rest.v
Http.v
HttpProofs.v
Url.v
NeonHttp.v
UrlProofs.v
NeonProofs.v
Connection.v
ConnDemo.v
ConnProofs.v
ConnLive.v
ConnOnce.v
ConnCancel.v
Bulk.v
BulkProofs.v
Aurora.v
AuroraProofs.v
Sigv4.v
Geometry.v
ConnFaults.v
ConnCaches.v
Cursor.v
CursorProofs.v
Streams.v
StreamsProofs.v
PoolQueries.v
MiniBuffer.v
Settings.v
Sockets.v
EffectClient.v
NodeTransport.v
