(* ===== verification/Prelude.v ===== *)
(** * minipg: a verification development for the PostgreSQL driver

    minipg (src/src/*.ts; below, X.ts is src/src/X.ts) is a PostgreSQL driver without dependencies: the wire protocol over
    sockets, web streams and WebSockets, connections and pools, cursors, COPY, logical replication, and three
    clients that reach a database over HTTP. The development is a shallow embedding: a pure function of the source
    is a Rocq function, code that mutates and may throw is a computation in [M] (below), and a class whose methods
    run between events is a state with one handler per method and a step function over events. Definitions keep the
    names of the source and are executable; the examples and the witnesses evaluate them.

    ** The parts, from the bytes up

    - The language and its platform. Utf8 (encoder and decoder), Text (trim, toLowerCase, endsWith), Buf (the
      methods of Node's Buffer), Num (IEEE doubles and the one rounding behind Number, literals and arithmetic),
      Dates (the calendar of Date), Value (JavaScript values, String, JSON.stringify), Json (JSON.parse).
      MiniBuffer is buffer-polyfill.ts, compared with Buf.
    - The wire protocol (protocol.ts). Protocol has the builders [W], the growable [Writer] with back-patched
      lengths and the incremental [Parser]; Framing and Messages prove that what is written through the Writer is
      the builders' bytes, Parse that the parser's messages do not depend on how the stream is cut.
    - Values out (encode.ts). Encode (two-pass, write-through and planned encoders), EncodeProofs, Jit (the compiled
      Bind encoder), CopyText (COPY rows), CopyPump (pumpCopy and writeRaw of connection.ts), BinTuple.
    - Values in (decode.ts, temporal.ts, jsonparse.ts, json.ts, spec.ts, geo.ts, registry.ts, geometry.ts, mapper.ts). Temporal,
      NumText, ArrayText, JsonBig with JsonBuffer, ExtTypes, Geometry; JsonSpec, JsonScan and JsonScanProofs
      for declared JSON; Decode for the dispatchers; Spec for the shapes that become column plans; Mapper and MapperProofs for
      the two engines that turn a DataRow into a value; Plans for what all clients share of it.
    - Errors and identity. Errors (errors.ts), Faults (what is fatal and what is retried), Auth (auth.ts), Url
      and UrlProofs (url.ts), Settings (the constructors of Connection and ReplicationConnection).
    - A connection (connection.ts). Connection is its state and every handler, composed in [step]; tasks are shared by
      reference between callers, queue and pipeline, so they are kept in a store by number. ConnProofs has the invariant,
      ConnLive, ConnCancel and ConnOnce the theorems, ConnDemo a server for the examples, ConnFaults the runs behind
      the findings, ConnCaches the caches of mappers and encoders, Streams and StreamsProofs the iterators of
      stream() and copyTo().
    - Programs over a connection. Bulk (begin, snapshot queries, bulkInsert, bulkUpdate, copyMany) is written against
      the class [Session] - commands are executed in the order they are submitted and each is answered - which is what
      ConnLive and ConnOnce show of a connection; BulkProofs proves it against any server with the documented
      transaction rules ([Transactional]). Cursor and CursorProofs are cursor.ts.
    - A pool (pool.ts). Pool is its state and handlers, as turns of the event loop; PoolProofs and PoolSize prove who
      holds what; PoolQueries has batch() and pipeline() over [Session].
    - Replication (replication.ts, cdc.ts). PgOutput and PgOutputProofs decode the stream; Replication and
      ReplicationProofs are the connection with its queue, commands, start() and acknowledgements; ReplStart is its
      connect(), ReplScram composes that with Auth; Cdc and CdcProofs are the managed sessions on top, for which the
      connection is a source of events.
    - Clients over HTTP. Rest (outcomes), Http and HttpProofs (http.ts), NeonHttp and NeonProofs (neon-http.ts),
      Aurora and AuroraProofs (aurora.ts), Sigv4 (sigv4.ts). All decode with Mapper, as the socket driver does.
    - Transports. NodeTransport (transport-node.ts), Sockets (webstream.ts, neon-ws.ts), EffectClient (the driver's own
      part of effect/MinipgClient.ts).

    ** What the theorems show

    - Nobody is lost or answered twice: [ConnLive.no_caller_lost], [ConnOnce.answered_once],
      [PoolSize.acquire_accounted], [StartupProofs.startup_sound], [RowsProofs.rows_delivered], [HttpProofs.replies_attributed].
    - Nothing is sent where it must not be: [ConnCancel.no_stray_cancel], [CdcProofs.acked_after_handled],
      [CdcProofs.stop_is_final], [CdcProofs.window_kept], [ReplicationProofs.unacked_not_confirmed], [AuroraProofs.transaction_threaded].
    - Resources are held once and within bounds: [PoolProofs.checkout_exclusive], [PoolSize.size_le_max],
      [CursorProofs.released_once].
    - Writes are all or nothing: [BulkProofs.begin_all_or_nothing], [BulkProofs.bulkInsert_all_or_nothing],
      [BulkProofs.bulkInsert_keeps_prefix], [PoolQueries.batch_all_or_nothing].
    - An optimised routine equals its plain definition: [Messages.write_batch_refines_build],
      [Jit.compileBindEncoder_eq_generic], [MapperProofs.mappers_agree], [Temporal.instant_parsers_agree],
      [NumText.text_numbers_exact], [JsonBuffer.parseJsonBuffer_exact], [NeonProofs.neon_rows_as_wire], [HttpProofs.elision_invisible].
    - What is written reads back: [CopyText.copyRowsText_reads_back], [ArrayText.parseArrayLiteral_arrayLiteral],
      [BinTuple.binary_array_roundtrip], [UrlProofs.connString_roundtrip], [Geometry.ewkb_roundtrip], [PgOutputProofs.decode_render].
    - The other side accepts it: [ReplScram.scram_startup] (a server of RFC 5802), [Sigv4.signature_verifies].
    - Code ends: [CopyPump.copy_ended], [Geometry.parseWkb_ends], the finish lemmas of JsonScanProofs; results have the
      declared form: [Spec.shape_compiles].
    Examples named after a misbehaviour ([unbound_despite_require], [required_binding_skipped], [mapper_key_shared],
    ...) are runs of the model in which the program does something other than it means to.

    ** How things are represented, and the bounds

    - A string is its UTF-16 code units, a Buffer its bytes, an object its own properties in order; row keys are
      other than __proto__, and type names other than the properties of Object.prototype. A Float32Array is an
      array. toLowerCase maps ASCII and the Kelvin sign, the only characters that can meet the texts it is compared with.
    - Some fields of a state are ghosts, written and never read by the code: [wire] and [log] of Connection, the [log] and
      [trace] of Cdc, [out] and [results] of Replication, [c_log] of Cursor, [p_out] of CopyPump.
    - [hung] of Connection, [Hung] of Replication and [HungUp] of ReplStart are the program in an endless loop of its own: a
      state like any other. A connection in one answers nobody, and the theorem about its callers
      excludes it by hypothesis.
    - Fuel bounds the loops whose recursion is not structural, and a theorem shows it to be enough: parsers take the length
      of their input (JSON.parse 2 n + 2, arrays n, (E)WKB n + 2, COPY reading n); [array_of] of Aurora nests 64 deep (PostgreSQL: 6);
      [call_fuel] is 12 awaits per call of a cursor; [run] of ReplStart is one round per queued message ([exchange_rests]).
    - Time is an event: a timer that fires, in any order that its arming allows. Delays of Cdc are quarters of a
      millisecond, so that 0.75 of an integer is exact, and retryDelayMs is a pure function.
    - Simplifications. A replication connection runs one command at a time; end() drops the socket at once; a
      second reconnect loop of a connection overwrites the first; in Bulk a batch submitted together is executed to its end even
      when one of its promises has been rejected; one program at a time uses a Data API client; a response whose body
      is not of the type that the code asserts ends in [HUntyped]; a network [[]] of CopyPump takes every write.

    ** What is a parameter

    The hash and MAC functions and normalize() ([Crypto]; its laws are hypotheses with a concrete instance), what
    Buffer.allocUnsafe returns ([Alloc]), user-defined decoders and the system catalog ([Env]), the WHATWG URL, the environment,
    the presence of eval, randomness, and whatever a server, a service, a socket or a callback answers.

    ** What is not modelled

    fetch() and its abort signals, the evaluation of token functions, timers of HTTP clients, and the sockets of the platforms:
    input and output of the platform. Metrics, plugins, spans and debug texts (telemetry.ts, plugin.ts): they observe, and no
    result depends on them. The source text of generated functions, which is represented by its meaning. The entries (api.ts,
    core.ts, index.ts, node.ts), the constructor's defaults and the delegating methods of Pool, the Cloudflare and
    Deno transports and compat/vercel.ts: glue between modelled parts. The wiring of the driver into the Effect library
    (effect/*.ts but for the parts in EffectClient): layers, scopes, streams and spans of that library. shape.ts
    composes Spec with Mapper; its types are TypeScript's. Benchmarks, playgrounds, examples, scripts and tests are not part of
    the driver. *)

From stdpp Require Export base list gmap strings.
From Stdlib Require Export ZArith Lia.

#[global] Open Scope Z_scope.
#[global] Arguments Z.add : simpl never.
#[global] Arguments Z.sub : simpl never.
#[global] Arguments Z.mul : simpl never.
#[global] Arguments Z.pow : simpl never.
#[global] Arguments Z.div : simpl never.
#[global] Arguments Z.modulo : simpl never.
#[global] Arguments Z.opp : simpl never.

(** ** Outcomes of JavaScript code

    A piece of code returns a value, throws, or (for a loop that the model bounds
    by fuel) has not finished within its fuel. *)

(** A JavaScript string is the list of its UTF-16 code units; a Buffer is the
    list of its bytes. *)
Abbreviation jstr := (list Z).
Abbreviation bytes := (list Z).

Inductive exn : Type :=
| RangeError
| TypeError (msg : jstr)
| Error (msg : jstr)
| SyntaxError.

Inductive res (A : Type) : Type :=
| Ok (a : A)
| Throw (e : exn)
| NoFuel.
Arguments Ok {A} a.
Arguments Throw {A} e.
Arguments NoFuel {A}.

#[global] Instance exn_eq_dec : EqDecision exn.
Proof. solve_decision. Defined.
#[global] Instance res_eq_dec {A} `{EqDecision A} : EqDecision (res A).
Proof. solve_decision. Defined.

#[global] Instance res_ret : MRet res := fun A a => Ok a.
#[global] Instance res_bind : MBind res := fun A B f m =>
  match m with
  | Ok a => f a
  | Throw e => Throw e
  | NoFuel => NoFuel
  end.
#[global] Instance res_fmap : FMap res := fun A B f m =>
  match m with
  | Ok a => Ok (f a)
  | Throw e => Throw e
  | NoFuel => NoFuel
  end.

Definition is_ok {A} (m : res A) : bool :=
  match m with Ok _ => true | _ => false end.

(** Stateful code that may throw. The state reached at the throw is kept, since
    the callers of the driver look at it afterwards (a partly written buffer is
    rolled back by its owner, not by the exception). *)
Definition M (S A : Type) : Type := S -> S * res A.

#[global] Instance M_ret {S} : MRet (M S) := fun A a s => (s, Ok a).
#[global] Instance M_bind {S} : MBind (M S) := fun A B f m s =>
  match m s with
  | (s', Ok a) => f a s'
  | (s', Throw e) => (s', Throw e)
  | (s', NoFuel) => (s', NoFuel)
  end.

Definition get {S} : M S S := fun s => (s, Ok s).
Definition gets {S A} (f : S -> A) : M S A := fun s => (s, Ok (f s)).
Definition modify {S} (f : S -> S) : M S unit := fun s => (f s, Ok tt).
Definition throw {S A} (e : exn) : M S A := fun s => (s, Throw e).
Definition lift {S A} (m : res A) : M S A := fun s => (s, m).

(** Run a list of statements, one after the other. *)
Fixpoint forM {S A} (l : list A) (f : A -> M S unit) : M S unit :=
  match l with
  | [] => mret tt
  | a :: t => f a ≫= fun _ => forM t f
  end.

Lemma bind_Ok {S A B} (m : M S A) (f : A -> M S B) s s' a :
  m s = (s', Ok a) -> (m ≫= f) s = f a s'.
Proof. intros E. unfold mbind, M_bind. by rewrite E. Qed.

Lemma bind_Throw {S A B} (m : M S A) (f : A -> M S B) s s' e :
  m s = (s', Throw e) -> (m ≫= f) s = (s', Throw e).
Proof. intros E. unfold mbind, M_bind. by rewrite E. Qed.

Lemma bind_res_Ok_inv {A B} (m : res A) (f : A -> res B) b :
  m ≫= f = Ok b -> exists a, m = Ok a /\ f a = Ok b.
Proof. destruct m; simpl; intros H; try discriminate. eauto. Qed.

(** ** Literals *)

(** The code units of an ASCII literal of the source. *)
#[global] Arguments concat {A} l.

Definition js (s : string) : jstr := (fun a => Z.of_nat (Ascii.nat_of_ascii a)) <$> String.list_ascii_of_string s.

(** ** Bytes *)

Definition byte_ok (b : Z) : Prop := 0 <= b < 256.
Abbreviation bytes_ok := (Forall byte_ok).

#[global] Instance byte_ok_dec b : Decision (byte_ok b).
Proof. unfold byte_ok. apply _. Defined.

Lemma byte_ok_mod z : byte_ok (z mod 256).
Proof. unfold byte_ok. apply Z.mod_pos_bound. lia. Qed.

(** Big-endian split of the low [n] bytes of an integer, and its inverse. *)
Fixpoint be (n : nat) (z : Z) : bytes :=
  match n with
  | O => []
  | S n' => (z / 256 ^ Z.of_nat n') mod 256 :: be n' z
  end.

Definition unbe (l : bytes) : Z := foldl (fun acc b => acc * 256 + b) 0 l.

(** Reinterpret an unsigned [w]-bit value as a two's complement one. *)
Definition to_signed (w : Z) (z : Z) : Z := if 2 ^ (w - 1) <=? z then z - 2 ^ w else z.

Lemma length_be n z : length (be n z) = n.
Proof. induction n; simpl; auto. Qed.

Lemma be_ok n z : bytes_ok (be n z).
Proof. induction n; simpl; constructor; auto using byte_ok_mod. Qed.

Lemma foldl_be_acc l acc :
  foldl (fun acc b => acc * 256 + b) acc l = acc * 256 ^ Z.of_nat (length l) + unbe l.
Proof.
  unfold unbe. revert acc. induction l as [|b l IH]; intros acc; simpl; [lia|].
  rewrite IH, (IH (0 * 256 + b)). rewrite Nat2Z.inj_succ, Z.pow_succ_r by lia. lia.
Qed.

Lemma unbe_cons b l : unbe (b :: l) = b * 256 ^ Z.of_nat (length l) + unbe l.
Proof. unfold unbe at 1. simpl. apply foldl_be_acc. Qed.

Lemma unbe_app l k : unbe (l ++ k) = unbe l * 256 ^ Z.of_nat (length k) + unbe k.
Proof. unfold unbe at 1. rewrite foldl_app. rewrite foldl_be_acc. done. Qed.

Lemma unbe_bound l : bytes_ok l -> 0 <= unbe l < 256 ^ Z.of_nat (length l).
Proof.
  induction 1 as [|b l Hb _ IH]; [done|].
  rewrite unbe_cons. simpl length. rewrite Nat2Z.inj_succ, Z.pow_succ_r by lia.
  unfold byte_ok in Hb. nia.
Qed.

Lemma unbe_be n z : unbe (be n z) = z mod 256 ^ Z.of_nat n.
Proof.
  induction n as [|n IH]; simpl be.
  - by rewrite Z.mod_1_r.
  - rewrite unbe_cons, IH, length_be, Nat2Z.inj_succ, Z.pow_succ_r by lia.
    set (p := 256 ^ Z.of_nat n). assert (0 < p) by (apply Z.pow_pos_nonneg; lia).
    rewrite (Z.mul_comm 256 p), Z.rem_mul_r by lia. lia.
Qed.

Lemma be_mod n z : be n (z mod 256 ^ Z.of_nat n) = be n z.
Proof.
  assert (forall k m, (k <= m)%nat -> be k (z mod 256 ^ Z.of_nat m) = be k z) as G; [|by apply G].
  induction k as [|k IH]; intros m Hk; simpl; [done|].
  rewrite IH by lia. f_equal.
  replace (256 ^ Z.of_nat m) with (256 ^ Z.of_nat k * (256 * 256 ^ Z.of_nat (m - S k))).
  2:{ rewrite <- Z.pow_succ_r, <- Z.pow_add_r by lia. f_equal. lia. }
  set (p := 256 ^ Z.of_nat k). set (q := 256 ^ Z.of_nat (m - S k)).
  assert (0 < p) by (apply Z.pow_pos_nonneg; lia). assert (0 < q) by (apply Z.pow_pos_nonneg; lia).
  rewrite (Z.rem_mul_r z p) by nia. rewrite (Z.mul_comm p (_ mod _)), Z.div_add by lia.
  rewrite (Z.div_small (z mod p)) by (apply Z.mod_pos_bound; lia). rewrite Z.add_0_l.
  rewrite Z.rem_mul_r by lia. rewrite (Z.mul_comm 256), Z.mod_add by lia. apply Z.mod_mod. lia.
Qed.

Lemma be_unbe l : bytes_ok l -> be (length l) (unbe l) = l.
Proof.
  induction 1 as [|b l Hb Hl IH]; simpl; [done|].
  pose proof (unbe_bound l Hl) as Hu. rewrite unbe_cons. f_equal.
  - rewrite Z.div_add_l, (Z.div_small (unbe l)) by lia. unfold byte_ok in Hb.
    rewrite Z.add_0_r. apply Z.mod_small. lia.
  - rewrite <- be_mod, Z.add_comm, Z.mod_add, Z.mod_small by lia. done.
Qed.

Lemma to_signed_mod w z :
  0 < w -> - 2 ^ (w - 1) <= z < 2 ^ (w - 1) -> to_signed w (z mod 2 ^ w) = z.
Proof.
  intros Hw Hz. unfold to_signed.
  assert (2 ^ w = 2 * 2 ^ (w - 1)) as E by (rewrite <- Z.pow_succ_r by lia; f_equal; lia).
  destruct (Z.leb_spec 0 z).
  - rewrite Z.mod_small by lia. destruct (Z.leb_spec (2 ^ (w - 1)) z); lia.
  - replace (z mod 2 ^ w) with (z + 2 ^ w).
    2:{ rewrite <- (Z.mod_add z 1) by lia. rewrite Z.mul_1_l. symmetry. apply Z.mod_small. lia. }
    destruct (Z.leb_spec (2 ^ (w - 1)) (z + 2 ^ w)); lia.
Qed.

Lemma to_signed_range w z :
  0 < w -> 0 <= z < 2 ^ w -> - 2 ^ (w - 1) <= to_signed w z < 2 ^ (w - 1).
Proof.
  intros Hw Hz. unfold to_signed.
  assert (2 ^ w = 2 * 2 ^ (w - 1)) as E by (rewrite <- Z.pow_succ_r by lia; f_equal; lia).
  destruct (Z.leb_spec (2 ^ (w - 1)) z); lia.
Qed.

(** ** Decimal digits *)

(** [String(n)] of a non-negative integer, most significant digit first. *)
Fixpoint digits_fuel (fuel : nat) (n : Z) (acc : jstr) : jstr :=
  match fuel with
  | O => acc
  | S f => if n <? 10 then 48 + n :: acc else digits_fuel f (n / 10) (48 + n mod 10 :: acc)
  end.
Definition digits (n : Z) : jstr := digits_fuel (S (Z.to_nat (Z.log2 n))) n [].

(** [String(z)] of an integer. *)
Definition show_Z (z : Z) : jstr := if z <? 0 then 45 :: digits (- z) else digits z.

(** The value of a run of digits, as the accumulating loops of the source compute it. *)
Definition digits_val (l : jstr) : Z := foldl (fun acc c => acc * 10 + (c - 48)) 0 l.

Definition is_digit (c : Z) : bool := (48 <=? c) && (c <=? 57).

Lemma digits_val_app l k : digits_val (l ++ k) = digits_val l * 10 ^ Z.of_nat (length k) + digits_val k.
Proof.
  assert (forall k acc, foldl (fun acc c => acc * 10 + (c - 48)) acc k
                        = acc * 10 ^ Z.of_nat (length k) + digits_val k) as G.
  { unfold digits_val. clear. induction k as [|c k IH]; intros acc; simpl; [lia|].
    rewrite (IH (acc * 10 + _)), (IH (0 * 10 + _)), Nat2Z.inj_succ, Z.pow_succ_r by lia. lia. }
  unfold digits_val at 1. by rewrite foldl_app, G.
Qed.

Lemma digits_fuel_spec f n acc :
  0 <= n < 10 ^ Z.of_nat f -> (0 < f)%nat ->
  exists ds, digits_fuel f n acc = ds ++ acc /\ digits_val ds = n
             /\ Forall (fun c => 48 <= c <= 57) ds /\ ds <> []
             /\ (hd 0 ds = 48 -> n = 0 /\ ds = [48]).
Proof.
  revert n acc. induction f as [|f IH]; intros n acc Hn Hf; [lia|]. simpl.
  destruct (Z.ltb_spec n 10).
  - exists [48 + n]. unfold digits_val; simpl.
    split; [done|]. split; [lia|]. split; [repeat constructor; lia|]. split; [done|].
    intros H0. split; [lia|]. do 2 f_equal. lia.
  - rewrite Nat2Z.inj_succ, Z.pow_succ_r in Hn by lia.
    assert (1 <= n / 10 < 10 ^ Z.of_nat f) as Hq
      by (split; [apply Z.div_le_lower_bound; lia | apply Z.div_lt_upper_bound; lia]).
    assert (0 < f)%nat as Hf' by (destruct f; [simpl in Hq; lia | lia]).
    destruct (IH (n / 10) (48 + n mod 10 :: acc)) as (ds & E & V & D & NE & H0); [lia|done|].
    pose proof (Z.mod_pos_bound n 10). pose proof (Z.div_mod n 10).
    exists (ds ++ [48 + n mod 10]). rewrite E, <- app_assoc. split; [done|].
    rewrite digits_val_app, V. change (digits_val [48 + n mod 10]) with (0 * 10 + (48 + n mod 10 - 48)).
    change (10 ^ Z.of_nat (length [48 + n mod 10])) with 10.
    split; [lia|]. split; [apply Forall_app; split; [done|]; repeat constructor; lia|].
    split; [by destruct ds|]. destruct ds as [|d ds]; [done|]. simpl. intros ->.
    destruct (H0 eq_refl). lia.
Qed.

(** What the callers need of [String(n)]: its value, its alphabet, no leading zero. *)
Lemma digits_spec n : 0 <= n ->
  digits_val (digits n) = n /\ Forall (fun c => 48 <= c <= 57) (digits n) /\ digits n <> []
  /\ (hd 0 (digits n) = 48 -> n = 0).
Proof.
  intros Hn. unfold digits.
  destruct (digits_fuel_spec (S (Z.to_nat (Z.log2 n))) n []) as (ds & E & V & D & NE & H0).
  - split; [done|]. rewrite Nat2Z.inj_succ, Z2Nat.id by apply Z.log2_nonneg.
    destruct (Z.eq_dec n 0) as [->|]; [done|].
    apply Z.lt_le_trans with (2 ^ Z.succ (Z.log2 n)); [apply Z.log2_spec; lia|].
    apply Z.pow_le_mono_l. lia.
  - lia.
  - rewrite app_nil_r in E. rewrite E. split; [done|]. split; [done|]. split; [done|]. intros Hh. by destruct (H0 Hh).
Qed.

(** ** Lists *)

Lemma take_app_exact {A} (l k : list A) n : n = length l -> take n (l ++ k) = l.
Proof. intros ->. apply take_app_length. Qed.

Lemma drop_app_exact {A} (l k : list A) n : n = length l -> drop n (l ++ k) = k.
Proof. intros ->. apply drop_app_length. Qed.

(** Position of the first element satisfying a test. *)
Fixpoint find_from {A} (f : A -> bool) (l : list A) (i : nat) : option nat :=
  match l with
  | [] => None
  | a :: t => if f a then Some i else find_from f t (S i)
  end.

Lemma find_from_app {A} (f : A -> bool) l k a i :
  Forall (fun x => f x = false) l -> f a = true ->
  find_from f (l ++ a :: k) i = Some (i + length l)%nat.
Proof.
  intros Hl Ha. revert i. induction Hl as [|x l Hx _ IH]; intros i; simpl.
  - rewrite Ha. f_equal. lia.
  - rewrite Hx, IH. f_equal. lia.
Qed.

(** ** Automation *)

Create HintDb minipg.
Create Rewrite HintDb minipg.
#[export] Hint Rewrite @length_app @length_take @length_drop @length_insert length_be @length_fmap
  @length_replicate : minipg.
#[export] Hint Resolve be_ok byte_ok_mod Forall_app_2 : minipg.

(** Normalise lengths, then decide. *)
Ltac len := repeat (autorewrite with minipg in *; simpl length in * ); try lia.

(** Turn boolean tests into propositions, in the goal or everywhere. *)
Ltac b2p := repeat (rewrite ?andb_true_iff, ?andb_false_iff, ?orb_true_iff, ?orb_false_iff,
  ?negb_true_iff, ?negb_false_iff, ?Z.leb_le, ?Z.leb_gt, ?Z.ltb_lt, ?Z.ltb_ge, ?Z.eqb_eq, ?Z.eqb_neq,
  ?Nat.leb_le, ?Nat.leb_gt, ?Nat.ltb_lt, ?Nat.ltb_ge, ?Nat.eqb_eq, ?Nat.eqb_neq).
Ltac b2p_all := repeat (rewrite ?andb_true_iff, ?andb_false_iff, ?orb_true_iff, ?orb_false_iff,
  ?negb_true_iff, ?negb_false_iff, ?Z.leb_le, ?Z.leb_gt, ?Z.ltb_lt, ?Z.ltb_ge, ?Z.eqb_eq, ?Z.eqb_neq,
  ?Nat.leb_le, ?Nat.leb_gt, ?Nat.ltb_lt, ?Nat.ltb_ge, ?Nat.eqb_eq, ?Nat.eqb_neq in * ).
Ltac blia := first [ lia | b2p; lia ].

(** Decide the first conditional of the goal by arithmetic ([lia] reads boolean
    comparisons and connectives), after unfolding its test with [u]. *)
Ltac zif_with u :=
  match goal with
  | |- context [if ?b then _ else _] =>
    first [ replace b with true by (u; symmetry; blia) | replace b with false by (u; symmetry; blia) ]; cbv iota
  end.
Tactic Notation "zif" := zif_with idtac.
Tactic Notation "zif" "unfolding" reference(a) := zif_with ltac:(unfold a).
Tactic Notation "zif" "unfolding" reference(a) reference(b) := zif_with ltac:(unfold a, b).

(** Split the boolean tests of the goal and the hypotheses, then decide. *)
Ltac ztest :=
  repeat match goal with
  | |- context [Z.ltb ?a ?b] => destruct (Z.ltb_spec a b)
  | |- context [Z.leb ?a ?b] => destruct (Z.leb_spec a b)
  | |- context [Z.eqb ?a ?b] => destruct (Z.eqb_spec a b)
  | |- context [Nat.ltb ?a ?b] => destruct (Nat.ltb_spec a b)
  | |- context [Nat.leb ?a ?b] => destruct (Nat.leb_spec a b)
  | |- context [Nat.eqb ?a ?b] => destruct (Nat.eqb_spec a b)
  end; simpl; try lia.
