(* ===== verification/Utf8.v ===== *)
(** * UTF-8, as [Buffer.from(s, 'utf8')] and [buf.toString('utf8')] use it

    The WHATWG encoder (a lone surrogate becomes U+FFFD) and the WHATWG decoder
    (each maximal ill-formed subpart becomes U+FFFD), over UTF-16 code units. *)

From S2P Require Import Prelude.

Definition is_hi (c : Z) : bool := (55296 <=? c) && (c <=? 56319).
Definition is_lo (c : Z) : bool := (56320 <=? c) && (c <=? 57343).
Definition cont (b : Z) : bool := (128 <=? b) && (b <=? 191).
Definition between (lo hi b : Z) : bool := (lo <=? b) && (b <=? hi).

Definition fffd_bytes : bytes := [239; 191; 189].

(** Bytes of one code unit outside the surrogate range, and of one pair. *)
Definition enc1 (c : Z) : bytes :=
  if c <? 128 then [c]
  else if c <? 2048 then [192 + c / 64; 128 + c mod 64]
  else [224 + c / 4096; 128 + c / 64 mod 64; 128 + c mod 64].

Definition pair_cp (h l : Z) : Z := 65536 + (h - 55296) * 1024 + (l - 56320).

Definition enc2 (h l : Z) : bytes :=
  let c := pair_cp h l in
  [240 + c / 262144; 128 + c / 4096 mod 64; 128 + c / 64 mod 64; 128 + c mod 64].

Fixpoint utf8 (s : jstr) : bytes :=
  match s with
  | [] => []
  | c :: t =>
    if is_hi c then
      match t with
      | d :: t' => if is_lo d then enc2 c d ++ utf8 t' else fffd_bytes ++ utf8 t
      | [] => fffd_bytes
      end
    else if is_lo c then fffd_bytes ++ utf8 t
    else enc1 c ++ utf8 t
  end.

(** Lower and upper bound of the second byte after a given lead byte. *)
Definition second_lo (b0 : Z) : Z := if b0 =? 224 then 160 else if b0 =? 240 then 144 else 128.
Definition second_hi (b0 : Z) : Z := if b0 =? 237 then 159 else if b0 =? 244 then 143 else 191.

Definition of_cp (c : Z) : jstr :=
  if c <? 65536 then [c] else [55296 + (c - 65536) / 1024; 56320 + (c - 65536) mod 1024].

Fixpoint utf8_decode (b : bytes) : jstr :=
  match b with
  | [] => []
  | b0 :: t =>
    if b0 <? 128 then b0 :: utf8_decode t
    else if between 194 223 b0 then
      match t with
      | b1 :: t1 => if cont b1 then ((b0 - 192) * 64 + (b1 - 128)) :: utf8_decode t1 else 65533 :: utf8_decode t
      | [] => [65533]
      end
    else if between 224 239 b0 then
      match t with
      | b1 :: t1 =>
        if between (second_lo b0) (second_hi b0) b1 then
          match t1 with
          | b2 :: t2 =>
            if cont b2 then ((b0 - 224) * 4096 + (b1 - 128) * 64 + (b2 - 128)) :: utf8_decode t2
            else 65533 :: utf8_decode t1
          | [] => [65533]
          end
        else 65533 :: utf8_decode t
      | [] => [65533]
      end
    else if between 240 244 b0 then
      match t with
      | b1 :: t1 =>
        if between (second_lo b0) (second_hi b0) b1 then
          match t1 with
          | b2 :: t2 =>
            if cont b2 then
              match t2 with
              | b3 :: t3 =>
                if cont b3 then
                  of_cp ((b0 - 240) * 262144 + (b1 - 128) * 4096 + (b2 - 128) * 64 + (b3 - 128)) ++ utf8_decode t3
                else 65533 :: utf8_decode t2
              | [] => [65533]
              end
            else 65533 :: utf8_decode t1
          | [] => [65533]
          end
        else 65533 :: utf8_decode t
      | [] => [65533]
      end
    else 65533 :: utf8_decode t
  end.

Definition latin1 (s : jstr) : bytes := (fun c => c mod 256) <$> s.

(** A well-formed UTF-16 string: code units in range, surrogates in pairs. *)
Fixpoint usv (s : jstr) : bool :=
  match s with
  | [] => true
  | c :: t =>
    between 0 65535 c &&
    (if is_hi c then match t with d :: t' => is_lo d && usv t' | [] => false end
     else negb (is_lo c) && usv t)
  end.

Definition ascii (s : jstr) : Prop := Forall (fun c => 0 <= c < 128) s.

(** Induction on strings as the encoder walks them. *)
Lemma jstr_pair_ind (P : jstr -> Prop) :
  P [] -> (forall c t, P t -> (forall d t', t = d :: t' -> P t') -> P (c :: t)) -> forall s, P s.
Proof.
  intros H0 H1 s. enough (P s /\ forall d t, s = d :: t -> P t) by tauto.
  induction s as [|c t [IH1 IH2]]; split; try done.
  - apply H1; [done|]. intros d t' ->. eauto.
  - intros d t' [= -> ->]. done.
Qed.

Lemma length_enc1 c : (length (enc1 c) <= 3)%nat.
Proof. unfold enc1. repeat case_match; simpl; lia. Qed.

(** The bound the Writer reserves by: at most three bytes per code unit. *)
Lemma utf8_length_le s : (length (utf8 s) <= 3 * length s)%nat.
Proof.
  induction s as [|c t IH IH2] using jstr_pair_ind; simpl; [lia|].
  pose proof (length_enc1 c). repeat case_match; subst; rewrite ?length_app; simpl in *; try lia.
  specialize (IH2 _ _ eq_refl). lia.
Qed.

Lemma utf8_ascii s : ascii s -> utf8 s = s.
Proof.
  induction 1 as [|c t Hc _ IH]; [done|]. simpl. unfold is_hi, is_lo, enc1.
  destruct (Z.leb_spec 55296 c), (Z.leb_spec 56320 c), (Z.ltb_spec c 128); simpl; try lia. by rewrite IH.
Qed.

Lemma utf8_app_ascii s t : ascii s -> utf8 (s ++ t) = s ++ utf8 t.
Proof.
  induction 1 as [|c s Hc _ IH]; [done|]. simpl. unfold is_hi, is_lo, enc1.
  destruct (Z.leb_spec 55296 c), (Z.leb_spec 56320 c), (Z.ltb_spec c 128); simpl; try lia. by rewrite IH.
Qed.

(** Name the quotient and remainder by 64, so that the rest is linear. *)
Lemma split64 c : 0 <= c ->
  exists q r, c / 64 = q /\ c mod 64 = r /\ c = q * 64 + r /\ 0 <= r < 64 /\ 0 <= q.
Proof.
  intros. exists (c / 64), (c mod 64). pose proof (Z.div_mod c 64). pose proof (Z.mod_pos_bound c 64).
  pose proof (Z.div_pos c 64). lia.
Qed.

Lemma div4096 c : c / 4096 = c / 64 / 64.
Proof. rewrite Z.div_div by lia. done. Qed.
Lemma div262144 c : c / 262144 = c / 64 / 64 / 64.
Proof. rewrite !Z.div_div by lia. done. Qed.

Ltac name64 c :=
  let q := fresh "q" in let r := fresh "r" in let Eq := fresh in let Er := fresh in
  destruct (split64 c) as (q & r & Eq & Er & ? & ? & ?); [lia|]; rewrite ?Eq, ?Er; clear Eq Er.

Ltac ztu := zif_with ltac:(unfold between, cont, second_lo, second_hi, is_hi, is_lo in *; repeat case_match).

Lemma utf8_decode_enc1 c t :
  0 <= c < 65536 -> is_hi c = false -> is_lo c = false -> utf8_decode (enc1 c ++ t) = c :: utf8_decode t.
Proof.
  intros Hc Hh Hl. unfold enc1. rewrite div4096.
  destruct (Z.ltb_spec c 128) as [H1|H1]; [|destruct (Z.ltb_spec c 2048) as [H2|H2]].
  - simpl. by ztu.
  - name64 c. cbn [app utf8_decode]. do 3 ztu. f_equal. lia.
  - name64 c. name64 q. cbn [app utf8_decode]. ztu. ztu. ztu. ztu. ztu. f_equal. lia.
Qed.

Lemma pair_cp_range h l : is_hi h = true -> is_lo l = true -> 65536 <= pair_cp h l <= 1114111.
Proof. unfold is_hi, is_lo, pair_cp. lia. Qed.

Lemma of_cp_pair h l : is_hi h = true -> is_lo l = true -> of_cp (pair_cp h l) = [h; l].
Proof.
  intros Hh Hl. pose proof (pair_cp_range h l Hh Hl). unfold of_cp. zif.
  unfold is_hi, is_lo in *.
  replace (pair_cp h l - 65536) with ((l - 56320) + (h - 55296) * 1024) by (unfold pair_cp; lia).
  rewrite Z.div_add, Z.mod_add, Z.div_small, Z.mod_small by lia. f_equal; [lia|f_equal; lia].
Qed.

Lemma utf8_decode_enc2 h l t :
  is_hi h = true -> is_lo l = true -> utf8_decode (enc2 h l ++ t) = h :: l :: utf8_decode t.
Proof.
  intros Hh Hl. rewrite <- (app_assoc [h] [l]) || idtac.
  pose proof (of_cp_pair h l Hh Hl) as Hcp. pose proof (pair_cp_range h l Hh Hl) as Hc.
  unfold enc2. cbv zeta. generalize dependent (pair_cp h l). intros c Hcp Hc.
  rewrite div262144, div4096. name64 c. name64 q. name64 q0.
  cbn [app utf8_decode]. do 7 ztu.
  match goal with |- of_cp ?x ++ _ = _ => replace x with c by lia end. by rewrite Hcp.
Qed.

(** Decoding an encoded well-formed string gives it back. *)
Lemma utf8_roundtrip s : usv s = true -> utf8_decode (utf8 s) = s.
Proof.
  induction s as [|c t IH IH2] using jstr_pair_ind; [done|]. cbn [usv utf8].
  unfold between. rewrite !andb_true_iff, !Z.leb_le. intros [Hc H].
  destruct (is_hi c) eqn:Eh.
  - destruct t as [|d t']; [done|]. apply andb_true_iff in H as [Hd H]. rewrite Hd.
    rewrite utf8_decode_enc2 by done. f_equal. f_equal. eauto.
  - apply andb_true_iff in H as [Hl H]. apply negb_true_iff in Hl. rewrite Hl.
    rewrite utf8_decode_enc1 by (done || lia). f_equal. auto.
Qed.

Lemma utf8_decode_ascii s t : ascii s -> utf8_decode (s ++ t) = s ++ utf8_decode t.
Proof.
  induction 1 as [|c s Hc _ IH]; [done|]. simpl. destruct (Z.ltb_spec c 128); [|lia]. by rewrite IH.
Qed.

(** Encoded text is made of bytes, and has no NUL unless the string has one. *)
Lemma enc1_range c : 0 <= c < 65536 -> bytes_ok (enc1 c) /\ (0 < c -> Forall (fun b => b <> 0) (enc1 c)).
Proof.
  intros Hc. unfold enc1, byte_ok. rewrite div4096. name64 c. name64 q.
  ztest; split; repeat constructor; lia.
Qed.

Lemma enc2_range h l :
  is_hi h = true -> is_lo l = true -> bytes_ok (enc2 h l) /\ Forall (fun b => b <> 0) (enc2 h l).
Proof.
  intros Hh Hl. pose proof (pair_cp_range h l Hh Hl) as Hc.
  unfold enc2, byte_ok. cbv zeta. generalize dependent (pair_cp h l). intros c Hc.
  rewrite div262144, div4096. name64 c. name64 q. name64 q0.
  split; repeat constructor; lia.
Qed.

Lemma utf8_range (P : Z -> Prop) s :
  (forall c, is_hi c = false -> is_lo c = false -> c ∈ s -> Forall P (enc1 c)) ->
  (forall h l, is_hi h = true -> is_lo l = true -> Forall P (enc2 h l)) ->
  Forall P fffd_bytes -> Forall P (utf8 s).
Proof.
  intros H1 H2 H3. induction s as [|c t IH IH2] using jstr_pair_ind; [done|]. cbn [utf8].
  assert (forall d, d ∈ t -> d ∈ c :: t) as Hin by (intros; by right).
  assert (Forall P (utf8 t)) by (apply IH; naive_solver).
  destruct (is_hi c) eqn:Eh; [destruct t as [|d t']; [done|]; destruct (is_lo d) eqn:El|destruct (is_lo c) eqn:El];
    apply Forall_app; split; auto.
  - eapply IH2; [done|]. intros. apply H1; try done. by do 2 right.
  - apply H1; try done. by left.
Qed.

Lemma utf8_bytes_ok s : Forall (fun c => 0 <= c < 65536) s -> bytes_ok (utf8 s).
Proof.
  intros Hs. apply utf8_range.
  - intros c _ _ Hc. apply enc1_range. by eapply Forall_forall in Hs.
  - intros h l. apply enc2_range.
  - unfold byte_ok. repeat constructor; lia.
Qed.

Lemma utf8_no_nul s : Forall (fun c => 0 < c < 65536) s -> Forall (fun b => b <> 0) (utf8 s).
Proof.
  intros Hs. apply utf8_range.
  - intros c _ _ Hc. eapply Forall_forall in Hs; [|done]. apply enc1_range; lia.
  - intros h l. apply enc2_range.
  - repeat constructor; lia.
Qed.

(** ** UTF-8 of pieces *)

Lemma utf8_cons2 c d t : utf8 (c :: d :: t) =
  if is_hi c then (if is_lo d then enc2 c d ++ utf8 t else fffd_bytes ++ utf8 (d :: t))
  else if is_lo c then fffd_bytes ++ utf8 (d :: t) else enc1 c ++ utf8 (d :: t).
Proof. done. Qed.

Lemma utf8_break s d t : is_lo d = false -> utf8 (s ++ d :: t) = utf8 s ++ utf8 (d :: t).
Proof.
  intros Hd. induction s as [|c s IH IH2] using jstr_pair_ind; [done|].
  destruct s as [|e s]; cbn [app].
  - rewrite utf8_cons2, Hd. change (utf8 [c]) with (if is_hi c then fffd_bytes else if is_lo c then fffd_bytes ++ [] else enc1 c ++ []).
    destruct (is_hi c), (is_lo c); by rewrite ?app_nil_r.
  - cbn [app] in IH. rewrite !utf8_cons2, IH, (IH2 e s eq_refl). repeat case_match; by rewrite app_assoc.
Qed.

Lemma utf8_ascii_cons c t : 0 <= c < 128 -> utf8 (c :: t) = c :: utf8 t.
Proof. intros H. change (c :: t) with ([c] ++ t). rewrite utf8_app_ascii; [done|]. by constructor. Qed.
Lemma is_lo_ascii c : 0 <= c < 128 -> is_lo c = false.
Proof. unfold is_lo. lia. Qed.
Lemma utf8_break_ascii s c t : 0 <= c < 128 -> utf8 (s ++ c :: t) = utf8 s ++ c :: utf8 t.
Proof. intros H. by rewrite utf8_break, utf8_ascii_cons by (done || by apply is_lo_ascii). Qed.

(** Well-formed strings a character at a time. *)
Lemma usv_cases c t : usv (c :: t) = true ->
  (is_hi c = false /\ is_lo c = false /\ 0 <= c <= 65535 /\ usv t = true /\ utf8 (c :: t) = enc1 c ++ utf8 t)
  \/ exists d t', t = d :: t' /\ is_hi c = true /\ is_lo d = true /\ usv t' = true /\ utf8 (c :: t) = enc2 c d ++ utf8 t'.
Proof.
  cbn [usv utf8]. unfold between. rewrite !andb_true_iff, !Z.leb_le. intros [Hc H]. destruct (is_hi c) eqn:Eh.
  - right. destruct t as [|d t']; [done|]. apply andb_true_iff in H as [Hd H]. exists d, t'. by rewrite Hd.
  - left. apply andb_true_iff in H as [Hl H]. apply negb_true_iff in Hl. by rewrite Hl.
Qed.

Lemma usv_app_ascii p t : ascii p -> usv (p ++ t) = usv t.
Proof.
  induction 1 as [|c p Hc _ IH]; [done|]. cbn [app usv]. replace (between 0 65535 c) with true by (unfold between; lia).
  unfold is_hi. rewrite is_lo_ascii by done. destruct (Z.leb_spec 55296 c); [lia|]. simpl. exact IH.
Qed.

(** The bytes of a character outside ASCII are outside ASCII. *)
Lemma enc1_high c : 128 <= c <= 65535 -> Forall (fun b => 128 <= b) (enc1 c).
Proof.
  intros Hc. unfold enc1. rewrite div4096. name64 c. name64 q. ztest; repeat constructor; lia.
Qed.
Lemma enc1_ascii c : 0 <= c < 128 -> enc1 c = [c].
Proof. intros H. unfold enc1. by destruct (Z.ltb_spec c 128); [|lia]. Qed.
Lemma enc2_high h l : is_hi h = true -> is_lo l = true -> Forall (fun b => 128 <= b) (enc2 h l).
Proof.
  intros Hh Hl. pose proof (pair_cp_range h l Hh Hl) as Hc. unfold enc2. cbv zeta. generalize dependent (pair_cp h l). intros c Hc.
  rewrite div262144, div4096. name64 c. name64 q. name64 q0. repeat constructor; lia.
Qed.

Lemma utf8_length_ge s : usv s = true -> (length s <= length (utf8 s))%nat.
Proof.
  induction s as [|c t IH IH2] using jstr_pair_ind; [done|]. intros H. destruct (usv_cases _ _ H) as [(_ & _ & Hc & Ht & ->)|(d & t' & -> & Hh & Hl & Ht & ->)].
  - rewrite length_app. specialize (IH Ht). assert (1 <= length (enc1 c))%nat by (unfold enc1; repeat case_match; simpl; lia). simpl. lia.
  - rewrite length_app. specialize (IH2 d t' eq_refl Ht). unfold enc2. simpl. lia.
Qed.

Lemma usv_app p s : usv p = true -> usv (p ++ s) = usv s.
Proof.
  induction p as [|c p IH IH2] using jstr_pair_ind; [done|]. intros Hc.
  destruct (usv_cases _ _ Hc) as [(Hh & Hl & Hc2 & Hp & _)|(d & p' & -> & Hh & Hl & Hp & _)]; cbn [app usv] in *; rewrite Hh, Hl in *.
  - rewrite IH by done. apply andb_true_iff in Hc as [-> _]. done.
  - apply andb_true_iff in Hc as [-> _]. by rewrite (IH2 d p' eq_refl).
Qed.
Lemma usv_snoc p c : usv p = true -> 0 <= c < 128 -> usv (p ++ [c]) = true.
Proof. intros Hp Hc. rewrite usv_app by done. rewrite <- (app_nil_r [c]), usv_app_ascii by (by constructor). done. Qed.
