(* ===== verification/Text.v ===== *)
(** * Text operations of the language: trim(), toLowerCase(), endsWith()

    The driver applies them to type names and to numbers in text form. *)

From S2P Require Import Prelude Utf8.

(** White space and line terminators. *)
Definition StrWhiteSpace (c : Z) : bool :=
  between 9 13 c || between 8192 8202 c || bool_decide (c ∈ [32; 160; 5760; 8232; 8233; 8239; 8287; 12288; 65279]).
Fixpoint skip_spaces (s : jstr) : jstr :=
  match s with
  | c :: t => if StrWhiteSpace c then skip_spaces t else s
  | [] => []
  end.
Definition trim (s : jstr) : jstr := rev (skip_spaces (rev (skip_spaces s))).

(** The letters that matter to names made of ASCII: A-Z and the Kelvin sign. Other letters are
    kept, which no comparison with an ASCII name can notice. *)
Definition lower (c : Z) : Z := if (65 <=? c) && (c <=? 90) then c + 32 else if c =? 8490 then 107 else c.
Definition toLowerCase (s : jstr) : jstr := lower <$> s.

Definition endsWith (s suffix : jstr) : bool := bool_decide (drop (length s - length suffix) s = suffix).
(** s.slice(0, -n) *)
Definition drop_end (n : nat) (s : jstr) : jstr := take (length s - n) s.

(** s.split(d) of a one-character separator; [acc]: what the current part has so far. *)
Fixpoint split (d : Z) (s acc : jstr) : list jstr :=
  match s with [] => [acc] | c :: t => if c =? d then acc :: split d t [] else split d t (acc ++ [c]) end.

Lemma split_app d s t acc : Forall (fun c => c <> d) s -> split d (s ++ t) acc = split d t (acc ++ s).
Proof.
  intros Hs. revert acc. induction Hs as [|c s Hc _ IH]; intros acc; [by rewrite app_nil_r|].
  cbn [app split]. destruct (Z.eqb_spec c d); [done|]. by rewrite IH, <- app_assoc.
Qed.
Lemma split_sep d s t : Forall (fun c => c <> d) s -> split d (s ++ d :: t) [] = s :: split d t [].
Proof. intros Hs. rewrite split_app by done. simpl. by rewrite Z.eqb_refl. Qed.

Lemma split_nonempty d s acc : split d s acc <> [].
Proof. revert acc. induction s as [|c s IH]; intros acc; simpl; [done|]. by destruct (c =? d). Qed.
