(* ===== verification/Buf.v ===== *)
(** * The Buffer methods the driver calls

    Reads and writes of fixed-width integers with their range and bounds checks
    (both raise RangeError), [subarray], [indexOf], [copy] and [write]. Offsets
    come from the wire in places, so they are integers, not naturals. *)

From S2P Require Import Prelude Utf8.

Definition blen (b : bytes) : Z := Z.of_nat (length b).

(** [n] bytes at [off], when they exist. *)
Definition window (n : nat) (b : bytes) (off : Z) : res bytes :=
  if (0 <=? off) && (off + Z.of_nat n <=? blen b)
  then Ok (take n (drop (Z.to_nat off) b)) else Throw RangeError.

Definition readUIntBE (n : nat) (b : bytes) (off : Z) : res Z := unbe <$> window n b off.
Definition readIntBE (n : nat) (b : bytes) (off : Z) : res Z :=
  to_signed (8 * Z.of_nat n) <$> readUIntBE n b off.
Definition readUIntLE (n : nat) (b : bytes) (off : Z) : res Z := (fun l => unbe (rev l)) <$> window n b off.

Definition readUInt8 := readUIntBE 1.
Definition readInt16BE := readIntBE 2.
Definition readInt32BE := readIntBE 4.
Definition readUInt32BE := readUIntBE 4.
Definition readBigInt64BE := readIntBE 8.
Definition readBigUInt64BE := readUIntBE 8.
Definition readUInt32LE := readUIntLE 4.

(** [b[i]]: [None] is JavaScript's undefined. *)
Definition at_ (b : bytes) (i : Z) : option Z := if i <? 0 then None else b !! Z.to_nat i.

(** Relative index of [subarray] and of [String.prototype.slice]. *)
Definition rel_index (len i : Z) : Z := if i <? 0 then Z.max 0 (len + i) else Z.min i len.

Definition subarray (b : bytes) (start stop : Z) : bytes :=
  let s := rel_index (blen b) start in
  let e := rel_index (blen b) stop in
  take (Z.to_nat (e - s)) (drop (Z.to_nat s) b).

(** [String.prototype.slice], the same clamping on code units. *)
Definition slice : jstr -> Z -> Z -> jstr := subarray.
Definition slice_from (s : jstr) (start : Z) : jstr := subarray s start (blen s).

(** [indexOf(c, from)], -1 when absent. *)
Definition indexOf (s : list Z) (c : Z) (from : Z) : Z :=
  match find_from (fun x => x =? c) (drop (Z.to_nat from) s) (Z.to_nat from) with
  | Some i => Z.of_nat i
  | None => -1
  end.

(** Encoded integers: [writeInt32BE] and friends check the value first. *)
Definition int_be (n : nat) (lo hi v : Z) : res bytes :=
  if (lo <=? v) && (v <=? hi) then Ok (be n v) else Throw RangeError.
Definition uint16_be := int_be 2 0 65535.
Definition int32_be := int_be 4 (-2147483648) 2147483647.
Definition uint32_be := int_be 4 0 4294967295.
Definition int64_be := int_be 8 (-9223372036854775808) 9223372036854775807.

(** ** Lemmas *)

Lemma window_app n pre x post :
  length x = n -> window n (pre ++ x ++ post) (blen pre) = Ok x.
Proof.
  intros Hx. unfold window, blen. rewrite !length_app. zif.
  rewrite Nat2Z.id, drop_app_length. f_equal. by apply take_app_exact.
Qed.

Lemma window_range n b off x : window n b off = Ok x -> 0 <= off /\ off + Z.of_nat n <= blen b /\ length x = n.
Proof.
  unfold window. destruct (_ && _) eqn:E; [|done]. apply andb_true_iff in E as [?%Z.leb_le ?%Z.leb_le].
  intros [= <-]. unfold blen in *. rewrite length_take, length_drop. lia.
Qed.

Lemma readUIntBE_app n pre v post :
  0 <= v < 256 ^ Z.of_nat n -> readUIntBE n (pre ++ be n v ++ post) (blen pre) = Ok v.
Proof.
  intros Hv. unfold readUIntBE. rewrite window_app by apply length_be. simpl.
  by rewrite unbe_be, Z.mod_small.
Qed.

Lemma readIntBE_app n pre v post : (0 < n)%nat ->
  - 2 ^ (8 * Z.of_nat n - 1) <= v < 2 ^ (8 * Z.of_nat n - 1) ->
  readIntBE n (pre ++ be n v ++ post) (blen pre) = Ok v.
Proof.
  intros Hn Hv. unfold readIntBE, readUIntBE. rewrite window_app by apply length_be. simpl.
  rewrite unbe_be. replace (256 ^ Z.of_nat n) with (2 ^ (8 * Z.of_nat n)) by (rewrite Z.pow_mul_r by lia; done).
  rewrite to_signed_mod by lia. done.
Qed.

Lemma readInt32BE_app pre v post :
  -2147483648 <= v <= 2147483647 -> readInt32BE (pre ++ be 4 v ++ post) (blen pre) = Ok v.
Proof. intros. apply readIntBE_app; [lia|]. change (2 ^ _) with 2147483648. lia. Qed.

Lemma readInt16BE_app pre v post :
  -32768 <= v <= 32767 -> readInt16BE (pre ++ be 2 v ++ post) (blen pre) = Ok v.
Proof. intros. apply readIntBE_app; [lia|]. change (2 ^ _) with 32768. lia. Qed.

Lemma readInt32BE_range b off v : bytes_ok b -> readInt32BE b off = Ok v -> -2147483648 <= v <= 2147483647.
Proof.
  intros Hb. unfold readInt32BE, readIntBE, readUIntBE. destruct (window 4 b off) as [x| |] eqn:E; [|done..].
  simpl. intros [= <-]. pose proof (window_range _ _ _ _ E) as (_ & _ & Hl).
  assert (bytes_ok x) as Hx.
  { unfold window in E. destruct (_ && _); [|done]. injection E as <-. by apply Forall_take, Forall_drop. }
  apply unbe_bound in Hx. rewrite Hl in Hx.
  pose proof (to_signed_range 32 (unbe x)) as R.
  change (2 ^ 32) with 4294967296 in R. change (256 ^ Z.of_nat 4) with 4294967296 in Hx.
  change (2 ^ (32 - 1)) with 2147483648 in R. change (8 * Z.of_nat 4) with 32. lia.
Qed.

Lemma subarray_app pre x post : subarray (pre ++ x ++ post) (blen pre) (blen pre + blen x) = x.
Proof.
  unfold subarray, rel_index, blen. rewrite !length_app. zif. zif.
  rewrite !Z.min_l, Nat2Z.id, drop_app_length by lia.
  apply take_app_exact. lia.
Qed.

Lemma blen_app l k : blen (l ++ k) = blen l + blen k.
Proof. unfold blen. rewrite length_app. lia. Qed.
Lemma blen_cons c l : blen (c :: l) = 1 + blen l.
Proof. unfold blen. simpl length. lia. Qed.
Lemma blen_be n v : blen (be n v) = Z.of_nat n.
Proof. unfold blen. by rewrite length_be. Qed.
Lemma blen_nil : blen [] = 0.
Proof. done. Qed.
Lemma blen_nonneg l : 0 <= blen l.
Proof. unfold blen. lia. Qed.
#[export] Hint Rewrite blen_nil blen_app blen_cons blen_be : minipg.

Lemma at_app_r pre x post : at_ (pre ++ x :: post) (blen pre) = Some x.
Proof.
  unfold at_, blen. zif. rewrite Nat2Z.id, lookup_app_r, Nat.sub_diag by lia. done.
Qed.

(** [list_inserts] is how a write lands in a buffer: bytes past its end are dropped. *)
Lemma inserts_app pos bs (buf : bytes) :
  (pos + length bs <= length buf)%nat ->
  list_inserts pos bs buf = take pos buf ++ bs ++ drop (pos + length bs) buf.
Proof.
  revert pos. induction bs as [|x bs IH]; intros pos H; simpl in *.
  - rewrite Nat.add_0_r. by rewrite take_drop.
  - rewrite IH by lia. rewrite insert_app_l by (rewrite length_take; lia).
    rewrite <- (take_drop pos (take (S pos) buf)) at 1.
    rewrite insert_app_r_alt by (rewrite !length_take; lia).
    rewrite take_take, Nat.min_l by lia. rewrite length_take, Nat.min_l, Nat.sub_diag by lia.
    rewrite <- app_assoc. f_equal.
    assert (exists y, drop pos (take (S pos) buf) = [y]) as [y ->].
    { assert (length (drop pos (take (S pos) buf)) = 1%nat) as L by (rewrite length_drop, length_take; lia).
      destruct (drop pos (take (S pos) buf)) as [|y [|]]; simpl in L; try lia. eauto. }
    simpl. do 2 f_equal. f_equal. lia.
Qed.

(** ** Reading along a buffer

    [rest_at b o r]: the bytes of [b] from offset [o] on are [r]. A decoder that
    reads left to right is followed by splitting [r]. *)
Definition rest_at (b : bytes) (o : Z) (r : bytes) : Prop :=
  0 <= o /\ o <= blen b /\ drop (Z.to_nat o) b = r.

Definition i32_range (z : Z) : Prop := -2147483648 <= z <= 2147483647.
Definition i16_range (z : Z) : Prop := -32768 <= z <= 32767.
Definition u32_range (z : Z) : Prop := 0 <= z <= 4294967295.
Definition u8_range (z : Z) : Prop := 0 <= z <= 255.

Lemma rest_at_0 b : rest_at b 0 b.
Proof. split; [lia|]. split; [apply blen_nonneg|done]. Qed.

Lemma rest_at_app b o x r : rest_at b o (x ++ r) -> rest_at b (o + blen x) r.
Proof.
  intros (Ho & Hb & Hd). assert (length (drop (Z.to_nat o) b) = length x + length r)%nat as L by (rewrite Hd, length_app; done).
  rewrite length_drop in L. unfold rest_at, blen in *. split; [lia|]. split; [lia|].
  replace (Z.to_nat (o + Z.of_nat (length x))) with (Z.to_nat o + length x)%nat by lia.
  rewrite <- drop_drop, Hd. apply drop_app_length.
Qed.

Lemma rest_at_window b o x r : rest_at b o (x ++ r) -> window (length x) b o = Ok x.
Proof.
  intros (Ho & Hb & Hd). assert (length (drop (Z.to_nat o) b) = length x + length r)%nat as L by (rewrite Hd, length_app; done).
  rewrite length_drop in L. unfold window, blen in *. zif. rewrite Hd. f_equal. apply take_app_length.
Qed.

Lemma rest_at_sub b o x r : rest_at b o (x ++ r) -> subarray b o (o + blen x) = x.
Proof.
  intros (Ho & Hb & Hd). assert (length (drop (Z.to_nat o) b) = length x + length r)%nat as L by (rewrite Hd, length_app; done).
  rewrite length_drop in L. unfold subarray, rel_index, blen in *. zif. zif. rewrite !Z.min_l, Hd by lia.
  apply take_app_exact. lia.
Qed.

Lemma rest_at_uint n b o v r : rest_at b o (be n v ++ r) -> 0 <= v < 256 ^ Z.of_nat n -> readUIntBE n b o = Ok v.
Proof.
  intros H Hv. apply rest_at_window in H. rewrite length_be in H. unfold readUIntBE. rewrite H. simpl.
  by rewrite unbe_be, Z.mod_small.
Qed.

Lemma rest_at_int n b o v r : rest_at b o (be n v ++ r) -> (0 < n)%nat ->
  - 2 ^ (8 * Z.of_nat n - 1) <= v < 2 ^ (8 * Z.of_nat n - 1) -> readIntBE n b o = Ok v.
Proof.
  intros H Hn Hv. apply rest_at_window in H. rewrite length_be in H. unfold readIntBE, readUIntBE. rewrite H. simpl.
  rewrite unbe_be. replace (256 ^ Z.of_nat n) with (2 ^ (8 * Z.of_nat n)) by (rewrite Z.pow_mul_r by lia; done).
  rewrite to_signed_mod by lia. done.
Qed.

Lemma rest_at_i32 b o v r : rest_at b o (be 4 v ++ r) -> i32_range v -> readInt32BE b o = Ok v /\ rest_at b (o + 4) r.
Proof.
  intros H Hv. split.
  - apply (rest_at_int 4 b o v r H); [lia|]. change (2 ^ _) with 2147483648. unfold i32_range in Hv. lia.
  - apply rest_at_app in H. by rewrite blen_be in H.
Qed.

Lemma rest_at_i16 b o v r : rest_at b o (be 2 v ++ r) -> i16_range v -> readInt16BE b o = Ok v /\ rest_at b (o + 2) r.
Proof.
  intros H Hv. split.
  - apply (rest_at_int 2 b o v r H); [lia|]. change (2 ^ _) with 32768. unfold i16_range in Hv. lia.
  - apply rest_at_app in H. by rewrite blen_be in H.
Qed.

Lemma rest_at_u32 b o v r : rest_at b o (be 4 v ++ r) -> u32_range v -> readUInt32BE b o = Ok v /\ rest_at b (o + 4) r.
Proof.
  intros H Hv. split.
  - apply (rest_at_uint 4 b o v r H). change (256 ^ _) with 4294967296. unfold u32_range in Hv. lia.
  - apply rest_at_app in H. by rewrite blen_be in H.
Qed.

Lemma rest_at_i64 b o v r : rest_at b o (be 8 v ++ r) -> -9223372036854775808 <= v <= 9223372036854775807 ->
  readBigInt64BE b o = Ok v /\ rest_at b (o + 8) r.
Proof.
  intros H Hv. split.
  - apply (rest_at_int 8 b o v r H); [lia|]. change (2 ^ _) with 9223372036854775808. lia.
  - apply rest_at_app in H. by rewrite blen_be in H.
Qed.

Lemma rest_at_u64 b o v r : rest_at b o (be 8 v ++ r) -> 0 <= v < 2 ^ 64 ->
  readBigUInt64BE b o = Ok v /\ rest_at b (o + 8) r.
Proof.
  intros H Hv. split.
  - apply (rest_at_uint 8 b o v r H). change (256 ^ _) with (2 ^ 64). lia.
  - apply rest_at_app in H. by rewrite blen_be in H.
Qed.

Lemma rest_at_byte b o v r : rest_at b o (v :: r) -> at_ b o = Some v /\ rest_at b (o + 1) r.
Proof.
  intros H. pose proof (rest_at_app b o [v] r H) as H'. split; [|done].
  destruct H as (Ho & Hb & Hd). unfold at_. destruct (Z.ltb_spec o 0); [lia|].
  rewrite <- (Nat.add_0_r (Z.to_nat o)), <- lookup_drop, Hd. done.
Qed.

Lemma rest_at_nul b o s r : rest_at b o (s ++ 0 :: r) -> Forall (fun x => x <> 0) s ->
  indexOf b 0 o = o + blen s /\ rest_at b (o + blen s + 1) r.
Proof.
  intros H Hs. pose proof (rest_at_app _ _ _ _ H) as H2. destruct (rest_at_byte _ _ _ _ H2) as [_ H3].
  split; [|done]. destruct H as (Ho & Hb & Hd). unfold indexOf. rewrite Hd, find_from_app.
  - unfold blen. lia.
  - eapply Forall_impl; [exact Hs|]. intros x Hx. by apply Z.eqb_neq.
  - done.
Qed.

(** ** Shifts *)

Lemma lor_disjoint x y n : 0 <= n -> 0 <= y < 2 ^ n -> Z.lor (x * 2 ^ n) y = x * 2 ^ n + y.
Proof.
  intros Hn Hy. symmetry. apply Z.add_nocarry_lor. apply Z.bits_inj'. intros m Hm. rewrite Z.land_spec, Z.bits_0.
  destruct (Z.lt_ge_cases m n); [by rewrite Z.mul_pow2_bits_low|].
  rewrite <- (Z.mod_small y (2 ^ n)), Z.mod_pow2_bits_high, andb_false_r by lia. done.
Qed.

(** The bytes of a 32-bit value assembled with shifts. *)
Lemma shift_bytes z :
  Z.lor (Z.lor (Z.lor (Z.shiftl (z / 256 ^ 3 mod 256) 24) (Z.shiftl (z / 256 ^ 2 mod 256) 16))
          (Z.shiftl (z / 256 ^ 1 mod 256) 8)) (z / 256 ^ 0 mod 256) = z mod 2 ^ 32.
Proof.
  rewrite !Z.shiftl_mul_pow2 by lia. change (256 ^ 3) with (2 ^ 24). change (256 ^ 2) with (2 ^ 16).
  change (256 ^ 1) with (2 ^ 8). change (256 ^ 0) with 1. rewrite Z.div_1_r.
  change (2 ^ 24) with 16777216. change (2 ^ 16) with 65536. change (2 ^ 8) with 256. change (2 ^ 32) with 4294967296.
  pose proof (Z.mod_pos_bound (z / 16777216) 256). pose proof (Z.mod_pos_bound (z / 65536) 256).
  pose proof (Z.mod_pos_bound (z / 256) 256). pose proof (Z.mod_pos_bound z 256).
  rewrite (lor_disjoint _ _ 24) by lia.
  replace (z / 16777216 mod 256 * 2 ^ 24 + z / 65536 mod 256 * 65536)
    with ((z / 16777216 mod 256 * 256 + z / 65536 mod 256) * 2 ^ 16) by (change (2 ^ 24) with 16777216; change (2 ^ 16) with 65536; lia).
  rewrite (lor_disjoint _ _ 16) by lia.
  replace ((z / 16777216 mod 256 * 256 + z / 65536 mod 256) * 2 ^ 16 + z / 256 mod 256 * 256)
    with (((z / 16777216 mod 256 * 256 + z / 65536 mod 256) * 256 + z / 256 mod 256) * 2 ^ 8)
    by (change (2 ^ 16) with 65536; change (2 ^ 8) with 256; lia).
  rewrite (lor_disjoint _ _ 8) by lia. change (2 ^ 8) with 256. Z.to_euclidean_division_equations. lia.
Qed.

(** The int32 assembled from the four bytes at [o] ([b[i] << 24 | ...]). *)
Definition rd32 (b : bytes) (o : Z) : Z :=
  let at0 i := default 0 (at_ b i) in
  to_signed 32 (Z.lor (Z.lor (Z.lor (Z.shiftl (at0 o) 24) (Z.shiftl (at0 (o + 1)) 16)) (Z.shiftl (at0 (o + 2)) 8))
                  (at0 (o + 3)) mod 2 ^ 32).

Lemma rd32_spec b o z r : rest_at b o (be 4 z ++ r) -> rd32 b o = to_signed 32 (z mod 2 ^ 32) /\ rest_at b (o + 4) r.
Proof.
  intros HR. split; [|apply rest_at_app in HR; by rewrite blen_be in HR].
  change (be 4 z ++ r) with (z / 256 ^ 3 mod 256 :: z / 256 ^ 2 mod 256 :: z / 256 ^ 1 mod 256 :: z / 256 ^ 0 mod 256 :: r) in HR.
  apply rest_at_byte in HR as [E0 HR]. apply rest_at_byte in HR as [E1 HR]. apply rest_at_byte in HR as [E2 HR].
  apply rest_at_byte in HR as [E3 _]. replace (o + 1 + 1) with (o + 2) in * by lia. replace (o + 2 + 1) with (o + 3) in * by lia.
  unfold rd32. rewrite E0, E1, E2, E3. cbn [default from_option id]. by rewrite shift_bytes, Z.mod_mod by lia.
Qed.
