(* ===== verification/Num.v ===== *)
(** * JavaScript numbers

    An IEEE double is a value: NaN, an infinity, or a sign with a significand and
    an exponent in the unique normal form of the format. [rnd] is the one rounding
    (to nearest, ties to even) of an exact quotient that the language's arithmetic,
    [Number(text)] and the literals share; [fl] is its restriction to integers,
    for the integer arithmetic of the driver that may pass 2^53. *)

From S2P Require Import Prelude.

Inductive num : Type :=
| NaN
| Inf (neg : bool)
| Fin (neg : bool) (m e : Z).

#[global] Instance num_eq_dec : EqDecision num.
Proof. solve_decision. Defined.

(** Nearest integer of p/q, ties to even. *)
Definition rne (p q : Z) : Z :=
  let d := p / q in
  let r := p mod q in
  if 2 * r <? q then d else if q <? 2 * r then d + 1 else if Z.even d then d else d + 1.

(** p/q scaled by 2^(-e), as a fraction. *)
Definition scale (p q e : Z) : Z * Z := if 0 <=? e then (p, q * 2 ^ e) else (p * 2 ^ (- e), q).

(** floor (log2 (p/q)) of a positive fraction. *)
Definition flog2 (p q : Z) : Z :=
  let k := Z.log2 p - Z.log2 q in
  let '(a, b) := scale p q k in
  if a <? b then k - 1 else k.

Definition rnd (neg : bool) (p q : Z) : num :=
  if p =? 0 then Fin neg 0 (-1074)
  else
    let e := Z.max (-1074) (flog2 p q - 52) in
    let '(a, b) := scale p q e in
    let m := rne a b in
    let '(m, e) := if m =? 2 ^ 53 then (2 ^ 52, e + 1) else (m, e) in
    if 971 <? e then Inf neg else Fin neg m e.

(** The double of an integer (exact below 2^53). *)
Definition of_Z (z : Z) : num := rnd (z <? 0) (Z.abs z) 1.

Definition nneg (x : num) : num :=
  match x with NaN => NaN | Inf s => Inf (negb s) | Fin s m e => Fin (negb s) m e end.

(** The integer a double holds, when it holds one ([Number.isInteger]). *)
Definition int_of (x : num) : option Z :=
  match x with
  | Fin s m e =>
    if 0 <=? e then Some ((if s then -1 else 1) * (m * 2 ^ e))
    else if m mod 2 ^ (- e) =? 0 then Some ((if s then -1 else 1) * (m / 2 ^ (- e))) else None
  | _ => None
  end.
Definition MAX_SAFE : Z := 9007199254740991.
Definition safe_int (x : num) : option Z :=
  match int_of x with
  | Some z => if Z.abs z <=? MAX_SAFE then Some z else None
  | None => None
  end.

(** Rounding of an integer result to the doubles, value only (no overflow: the
    driver's integers stay far below 2^1024). *)
Definition fl (z : Z) : Z :=
  let k := Z.log2 (Z.abs z) in
  if k <=? 52 then z else Z.sgn z * (rne (Z.abs z) (2 ^ (k - 52)) * 2 ^ (k - 52)).

(** ** Facts *)

Lemma rne_exact d q : 0 < q -> rne (d * q) q = d.
Proof. intros Hq. unfold rne. rewrite Z.div_mul, Z.mod_mul by lia. by zif. Qed.

Lemma rne_between p q a : 0 < q -> a * q <= p -> a <= rne p q.
Proof.
  intros Hq H. unfold rne. assert (a <= p / q) by (apply Z.div_le_lower_bound; lia). repeat case_match; lia.
Qed.
Lemma rne_upper p q a : 0 < q -> p <= a * q -> rne p q <= a.
Proof.
  intros Hq H. unfold rne. pose proof (Z.div_mod p q ltac:(lia)). pose proof (Z.mod_pos_bound p q Hq).
  assert (p / q <= a) by nia.
  destruct (Z.ltb_spec (2 * (p mod q)) q); [lia|].
  destruct (Z.eq_dec (p / q) a); [|repeat case_match; lia]. nia.
Qed.

Lemma fl_small z : Z.abs z <= 2 ^ 53 -> fl z = z.
Proof.
  intros H. unfold fl. destruct (Z.leb_spec (Z.log2 (Z.abs z)) 52) as [|Hk]; [done|].
  assert (2 ^ 53 <= Z.abs z) as Hz.
  { apply Z.le_trans with (2 ^ Z.log2 (Z.abs z)); [apply Z.pow_le_mono_r; lia|].
    apply Z.log2_spec. destruct (Z.eq_dec (Z.abs z) 0) as [E|]; [rewrite E in Hk; simpl in Hk; lia|lia]. }
  assert (Z.abs z = 2 ^ 53) as E by lia. rewrite E.
  change (rne (2 ^ 53) (2 ^ (Z.log2 (2 ^ 53) - 52)) * 2 ^ (Z.log2 (2 ^ 53) - 52)) with (2 ^ 53). lia.
Qed.

(** Rounding does not cross 2^53. *)
Lemma fl_large z : 2 ^ 53 <= Z.abs z -> 2 ^ 53 <= Z.abs (fl z) /\ Z.sgn (fl z) = Z.sgn z.
Proof.
  intros H. unfold fl. set (k := Z.log2 (Z.abs z)).
  assert (53 <= k) as Hk by (unfold k; change 53 with (Z.log2 (2 ^ 53)); apply Z.log2_le_mono; lia).
  zif. assert (2 ^ 52 <= rne (Z.abs z) (2 ^ (k - 52))) as Hr.
  { apply rne_between; [apply Z.pow_pos_nonneg; lia|]. rewrite <- Z.pow_add_r by lia.
    replace (52 + (k - 52)) with k by lia. apply Z.log2_spec. lia. }
  assert (2 <= 2 ^ (k - 52)) by (change 2 with (2 ^ 1) at 1; apply Z.pow_le_mono_r; lia).
  destruct (Z.sgn_spec z) as [[? ->]|[[? ?]|[? ->]]]; [|lia|]; change (2 ^ 52) with 4503599627370496 in *;
    change (2 ^ 53) with 9007199254740992 in *; split; try nia.
Qed.

(** Rounding keeps a number on its side of a bound up to 2^53. *)
Lemma fl_ge a z : 0 <= a <= 9007199254740992 -> a <= z -> a <= fl z.
Proof.
  change 9007199254740992 with (2 ^ 53). intros Ha Hz. destruct (Z.le_gt_cases (Z.abs z) (2 ^ 53)); [by rewrite fl_small|].
  destruct (fl_large z) as [G S]; lia.
Qed.
Lemma fl_le a z : 0 <= a <= 9007199254740992 -> z <= - a -> fl z <= - a.
Proof.
  change 9007199254740992 with (2 ^ 53). intros Ha Hz. destruct (Z.le_gt_cases (Z.abs z) (2 ^ 53)); [by rewrite fl_small|].
  destruct (fl_large z) as [G S]; lia.
Qed.

Lemma fl_side2 a z : 0 < a <= 9007199254740992 -> a <= Z.abs z -> (0 < z /\ a <= fl z) \/ (z < 0 /\ fl z <= - a).
Proof. intros Ha Hz. destruct (Z.le_gt_cases 0 z); [left; split; [lia|apply fl_ge]; lia|right; split; [lia|apply fl_le]; lia]. Qed.
Lemma fl_side a z : 0 < a <= 9007199254740992 -> a <= Z.abs z -> a <= Z.abs (fl z).
Proof. intros Ha Hz. destruct (fl_side2 a z Ha Hz); lia. Qed.

(** ** The 64-bit and 32-bit formats *)

(** The double in its unique form. *)
Definition num_ok (x : num) : Prop :=
  match x with
  | Fin _ m e => 0 <= m < 2 ^ 53 /\ -1074 <= e <= 971 /\ (2 ^ 52 <= m \/ e = -1074)
  | _ => True
  end.

Definition sign_bit (w : Z) (neg : bool) : Z := if neg then 2 ^ w else 0.
Definition f64_bits (x : num) : Z :=
  match x with
  | NaN => 2047 * 2 ^ 52 + 2 ^ 51
  | Inf s => sign_bit 63 s + 2047 * 2 ^ 52
  | Fin s m e => sign_bit 63 s + (if m <? 2 ^ 52 then m else (e + 1075) * 2 ^ 52 + (m - 2 ^ 52))
  end.
Definition f64_of_bits (b : Z) : num :=
  let s := 2 ^ 63 <=? b in
  let r := b mod 2 ^ 63 in
  let ex := r / 2 ^ 52 in
  let fr := r mod 2 ^ 52 in
  if ex =? 2047 then (if fr =? 0 then Inf s else NaN)
  else if ex =? 0 then Fin s fr (-1074) else Fin s (2 ^ 52 + fr) (ex - 1075).

Definition f64_be (x : num) : bytes := be 8 (f64_bits x).

(** A 32-bit float read as a double is exact. *)
Definition f32_of_bits (b : Z) : num :=
  let s := 2 ^ 31 <=? b in
  let r := b mod 2 ^ 31 in
  let ex := r / 2 ^ 23 in
  let fr := r mod 2 ^ 23 in
  if ex =? 255 then (if fr =? 0 then Inf s else NaN)
  else
    let '(m, e) := if ex =? 0 then (fr, -149) else (2 ^ 23 + fr, ex - 150) in
    if 0 <=? e then rnd s (m * 2 ^ e) 1 else rnd s m (2 ^ (- e)).

(** Math.fround: rounding to the 24-bit format, as a double. *)
Definition fround (x : num) : num :=
  match x with
  | Fin s m e =>
    if m =? 0 then x
    else
      let '(p, q) := if 0 <=? e then (m * 2 ^ e, 1) else (m, 2 ^ (- e)) in
      let e' := Z.max (-149) (flog2 p q - 23) in
      let '(a, b) := scale p q e' in
      let r := rne a b in
      let '(r, e') := if r =? 2 ^ 24 then (2 ^ 23, e' + 1) else (r, e') in
      if 104 <? e' then Inf s
      else if 0 <=? e' then rnd s (r * 2 ^ e') 1 else rnd s r (2 ^ (- e'))
  | _ => x
  end.

Lemma f64_roundtrip x : num_ok x -> f64_of_bits (f64_bits x) = x /\ 0 <= f64_bits x < 2 ^ 64.
Proof.
  intros H. destruct x as [|s|s m e]; [by vm_compute|by destruct s; vm_compute|].
  destruct H as (Hm & He & Hn). unfold f64_bits, f64_of_bits, sign_bit.
  change (2 ^ 64) with 18446744073709551616. change (2 ^ 63) with 9223372036854775808 in *.
  change (2 ^ 53) with 9007199254740992 in *. change (2 ^ 52) with 4503599627370496 in *.
  set (body := if m <? 4503599627370496 then m else (e + 1075) * 4503599627370496 + (m - 4503599627370496)).
  assert (0 <= body < 9223372036854775808 /\ body <> 9223372036854775807) as [Hb _] by (unfold body; destruct (Z.ltb_spec m 4503599627370496); lia).
  set (sb := if s then 9223372036854775808 else 0).
  assert ((9223372036854775808 <=? sb + body) = s) as -> by (unfold sb; destruct s; [apply Z.leb_le|apply Z.leb_gt]; lia).
  assert ((sb + body) mod 9223372036854775808 = body) as ->.
  { unfold sb. destruct s; [|by rewrite Z.mod_small by lia].
    replace (9223372036854775808 + body) with (body + 1 * 9223372036854775808) by lia. rewrite Z.mod_add by lia. apply Z.mod_small. lia. }
  split; [|unfold sb; destruct s; lia]. unfold body. destruct (Z.ltb_spec m 4503599627370496).
  - rewrite Z.div_small, Z.mod_small by lia. simpl. destruct Hn; [lia|]. by subst.
  - rewrite Z.div_add_l, (Z.div_small (m - 4503599627370496)) by lia.
    replace ((e + 1075) * 4503599627370496 + (m - 4503599627370496)) with (m - 4503599627370496 + (e + 1075) * 4503599627370496) by lia.
    rewrite Z.mod_add, Z.mod_small by lia. destruct (Z.eqb_spec (e + 1075 + 0) 2047); [lia|]. destruct (Z.eqb_spec (e + 1075 + 0) 0); [lia|].
    f_equal; lia.
Qed.
