(* ===== verification/Dates.v ===== *)
(** * Dates of ECMAScript

    The calendar arithmetic of the language (Date.UTC, the UTC getters and
    toISOString), which the temporal parsers and writers of the driver use. Times
    are milliseconds since 1970 as exact integers (the range of a Date is far below
    2^53); an Invalid Date, or a NaN number, is [None]. *)

From S2P Require Import Prelude.

Definition leap (y : Z) : bool := ((y mod 4 =? 0) && negb (y mod 100 =? 0)) || (y mod 400 =? 0).
Definition DayFromYear (y : Z) : Z :=
  365 * (y - 1970) + (y - 1969) / 4 - (y - 1901) / 100 + (y - 1601) / 400.

(** Days before month [m] (0 to 11) in the year. *)
Definition month_start (lp : bool) (m : Z) : Z :=
  let l := if lp then 1 else 0 in
  if m <=? 0 then 0 else if m =? 1 then 31 else if m =? 2 then 59 + l else if m =? 3 then 90 + l
  else if m =? 4 then 120 + l else if m =? 5 then 151 + l else if m =? 6 then 181 + l
  else if m =? 7 then 212 + l else if m =? 8 then 243 + l else if m =? 9 then 273 + l
  else if m =? 10 then 304 + l else 334 + l.

Definition MakeDay (year month date : Z) : Z :=
  let ym := year + month / 12 in
  DayFromYear ym + month_start (leap ym) (month mod 12) + date - 1.
Definition MakeTime (h m s ms : Z) : Z := h * 3600000 + m * 60000 + s * 1000 + ms.
Definition msPerDay : Z := 86400000.
Definition MakeDate (day time : Z) : Z := day * msPerDay + time.

Definition MAX_TIME : Z := 8640000000000000.
Definition TimeClip (t : Z) : option Z := if Z.abs t <=? MAX_TIME then Some t else None.

(** The instant of calendar fields, for any astronomical year. *)
Definition utc_ms (y mo d h mi s ms : Z) : Z := MakeDate (MakeDay y mo d) (MakeTime h mi s ms).

(** Date.UTC: years 0 to 99 mean 1900 to 1999. *)
Definition Date_UTC (y mo d h mi s ms : Z) : option Z :=
  let y := if (0 <=? y) && (y <=? 99) then 1900 + y else y in
  TimeClip (utc_ms y mo d h mi s ms).

(** The UTC getters. *)
Definition Day (t : Z) : Z := t / msPerDay.
Definition year_of_day (d : Z) : Z :=
  let y := 1970 + 400 * d / 146097 in
  if d <? DayFromYear y then y - 1 else if DayFromYear (y + 1) <=? d then y + 1 else y.
Definition YearFromTime (t : Z) : Z := year_of_day (Day t).
Definition month_of (lp : bool) (d : Z) : Z :=
  if d <? month_start lp 1 then 0 else if d <? month_start lp 2 then 1 else if d <? month_start lp 3 then 2
  else if d <? month_start lp 4 then 3 else if d <? month_start lp 5 then 4 else if d <? month_start lp 6 then 5
  else if d <? month_start lp 7 then 6 else if d <? month_start lp 8 then 7 else if d <? month_start lp 9 then 8
  else if d <? month_start lp 10 then 9 else if d <? month_start lp 11 then 10 else 11.
Definition DayWithinYear (t : Z) : Z := Day t - DayFromYear (YearFromTime t).
Definition MonthFromTime (t : Z) : Z := month_of (leap (YearFromTime t)) (DayWithinYear t).
Definition DateFromTime (t : Z) : Z :=
  DayWithinYear t - month_start (leap (YearFromTime t)) (MonthFromTime t) + 1.
Definition HourFromTime (t : Z) : Z := t / 3600000 mod 24.
Definition MinFromTime (t : Z) : Z := t / 60000 mod 60.
Definition SecFromTime (t : Z) : Z := t / 1000 mod 60.
Definition msFromTime (t : Z) : Z := t mod 1000.

(** [n] digits of an integer, zero padded. *)
Fixpoint pad (n : nat) (z : Z) : jstr :=
  match n with
  | O => []
  | S n' => (48 + z / 10 ^ Z.of_nat n' mod 10) :: pad n' z
  end.

(** Date.prototype.toISOString *)
Definition iso (t : Z) : jstr :=
  let y := YearFromTime t in
  (if (0 <=? y) && (y <=? 9999) then pad 4 y
   else if y <? 0 then 45 :: pad 6 (- y) else 43 :: pad 6 y)
  ++ [45] ++ pad 2 (MonthFromTime t + 1) ++ [45] ++ pad 2 (DateFromTime t)
  ++ [84] ++ pad 2 (HourFromTime t) ++ [58] ++ pad 2 (MinFromTime t) ++ [58] ++ pad 2 (SecFromTime t)
  ++ [46] ++ pad 3 (msFromTime t) ++ [90].
Definition toISOString (d : option Z) : res jstr :=
  match d with Some t => Ok (iso t) | None => Throw RangeError end.

(** ** Facts *)

Lemma DayFromYear_400 y : DayFromYear (y + 400) = DayFromYear y + 146097.
Proof.
  unfold DayFromYear. replace (y + 400 - 1969) with (y - 1969 + 100 * 4) by lia.
  replace (y + 400 - 1901) with (y - 1901 + 4 * 100) by lia. replace (y + 400 - 1601) with (y - 1601 + 1 * 400) by lia.
  rewrite !Z.div_add by lia. lia.
Qed.
Lemma leap_400 y : leap (y + 400) = leap y.
Proof.
  unfold leap. replace (y + 400) with (y + 100 * 4) at 1 by lia. rewrite Z.mod_add by lia.
  replace (y + 400) with (y + 4 * 100) at 1 by lia. rewrite Z.mod_add by lia.
  replace (y + 400) with (y + 1 * 400) by lia. by rewrite Z.mod_add by lia.
Qed.

(** 400 Gregorian years are a constant number of milliseconds. *)
Lemma utc_ms_400 y mo d h mi s ms : utc_ms (y + 400) mo d h mi s ms = utc_ms y mo d h mi s ms + 12622780800000.
Proof.
  unfold utc_ms, MakeDate, MakeDay, msPerDay.
  replace (y + 400 + mo / 12) with (y + mo / 12 + 400) by lia. rewrite DayFromYear_400, leap_400. lia.
Qed.

Lemma div_pred y k : 0 < k -> y / k - (y - 1) / k = if y mod k =? 0 then 1 else 0.
Proof.
  intros Hk. pose proof (Z.div_mod y k ltac:(lia)). pose proof (Z.mod_pos_bound y k Hk).
  destruct (Z.eqb_spec (y mod k) 0).
  - rewrite <- (Z.div_unique (y - 1) k (y / k - 1) (k - 1)) by lia. lia.
  - rewrite <- (Z.div_unique (y - 1) k (y / k) (y mod k - 1)) by lia. lia.
Qed.

Lemma mod_multiple y a b : 0 < a -> 0 < b -> y mod (a * b) = 0 -> y mod a = 0.
Proof. intros Ha Hb H. apply Z.mod_divide in H; [|nia]. apply Z.mod_divide; [lia|]. destruct H as [c ->]. exists (c * b). lia. Qed.

Lemma DayFromYear_S y : DayFromYear (y + 1) = DayFromYear y + (if leap y then 366 else 365).
Proof.
  unfold DayFromYear, leap.
  replace (y + 1 - 1969) with (y + (-492) * 4) by lia. replace (y + 1 - 1901) with (y + (-19) * 100) by lia.
  replace (y + 1 - 1601) with (y + (-4) * 400) by lia. replace (y - 1969) with (y - 1 + (-492) * 4) by lia.
  replace (y - 1901) with (y - 1 + (-19) * 100) by lia. replace (y - 1601) with (y - 1 + (-4) * 400) by lia.
  rewrite !Z.div_add by lia.
  pose proof (div_pred y 4 ltac:(lia)). pose proof (div_pred y 100 ltac:(lia)). pose proof (div_pred y 400 ltac:(lia)).
  pose proof (mod_multiple y 4 25 ltac:(lia) ltac:(lia)). pose proof (mod_multiple y 100 4 ltac:(lia) ltac:(lia)).
  change (4 * 25) with 100 in *. change (100 * 4) with 400 in *.
  destruct (Z.eqb_spec (y mod 4) 0), (Z.eqb_spec (y mod 100) 0), (Z.eqb_spec (y mod 400) 0); cbn [andb orb negb]; lia.
Qed.

Lemma year_of_day_spec d : DayFromYear (year_of_day d) <= d < DayFromYear (year_of_day d + 1).
Proof.
  unfold year_of_day. set (y := 1970 + 400 * d / 146097).
  assert (DayFromYear (y - 1) <= d /\ d < DayFromYear (y + 1 + 1)) as [H1 H2]
    by (unfold DayFromYear, y; clear y; Z.to_euclidean_division_equations; lia).
  destruct (Z.ltb_spec d (DayFromYear y)); [replace (y - 1 + 1) with y by lia; lia|].
  destruct (Z.leb_spec (DayFromYear (y + 1)) d); lia.
Qed.

Lemma leap_len lp m : 0 <= m <= 11 -> 0 <= month_start lp m <= 335.
Proof. intros. unfold month_start. destruct lp; ztest. Qed.

Lemma month_of_spec (lp : bool) d : 0 <= d < (if lp then 366 else 365) ->
  0 <= month_of lp d <= 11 /\ 0 <= d - month_start lp (month_of lp d) <= 30.
Proof. intros. unfold month_of, month_start. destruct lp; simpl; ztest. Qed.

Lemma date_fields t :
  0 <= MonthFromTime t <= 11 /\ 1 <= DateFromTime t <= 31
  /\ 0 <= HourFromTime t <= 23 /\ 0 <= MinFromTime t <= 59 /\ 0 <= SecFromTime t <= 59 /\ 0 <= msFromTime t <= 999.
Proof.
  assert (0 <= DayWithinYear t < if leap (YearFromTime t) then 366 else 365) as H.
  { unfold DayWithinYear. pose proof (year_of_day_spec (Day t)). rewrite DayFromYear_S in *.
    unfold YearFromTime. destruct (leap _); lia. }
  apply month_of_spec in H. unfold DateFromTime, MonthFromTime, HourFromTime, MinFromTime, SecFromTime, msFromTime.
  pose proof (Z.mod_pos_bound (t / 3600000) 24). pose proof (Z.mod_pos_bound (t / 60000) 60).
  pose proof (Z.mod_pos_bound (t / 1000) 60). pose proof (Z.mod_pos_bound t 1000). lia.
Qed.

(** The fields of an instant give the instant back. *)
Lemma utc_ms_fields t :
  utc_ms (YearFromTime t) (MonthFromTime t) (DateFromTime t) (HourFromTime t) (MinFromTime t) (SecFromTime t)
    (msFromTime t) = t.
Proof.
  pose proof (date_fields t) as (Hm & _). unfold utc_ms, MakeDate, MakeDay, MakeTime.
  rewrite (Z.div_small (MonthFromTime t)), (Z.mod_small (MonthFromTime t)), Z.add_0_r by lia.
  unfold DateFromTime, DayWithinYear, HourFromTime, MinFromTime, SecFromTime, msFromTime, Day, msPerDay.
  generalize (DayFromYear (YearFromTime t)) (month_start (leap (YearFromTime t)) (MonthFromTime t)). intros a b.
  Z.to_euclidean_division_equations. lia.
Qed.

Lemma length_pad n z : length (pad n z) = n.
Proof. induction n; simpl; auto. Qed.
#[export] Hint Rewrite length_pad : minipg.

Lemma pad_digits n z : Forall (fun c => 48 <= c <= 57) (pad n z).
Proof. induction n; simpl; constructor; [|done]. pose proof (Z.mod_pos_bound (z / 10 ^ Z.of_nat n) 10). lia. Qed.

Lemma digits_val_pad n z : digits_val (pad n z) = z mod 10 ^ Z.of_nat n.
Proof.
  induction n as [|n IH]; [cbn; by rewrite Z.mod_1_r|]. cbn [pad].
  change (?a :: ?l) with ([a] ++ l). rewrite digits_val_app, IH, length_pad, Nat2Z.inj_succ, Z.pow_succ_r by lia.
  unfold digits_val; simpl. set (p := 10 ^ Z.of_nat n). assert (0 < p) by (apply Z.pow_pos_nonneg; lia).
  rewrite (Z.mul_comm 10 p), Z.rem_mul_r by lia. lia.
Qed.

Lemma pad2 z : pad 2 z = [48 + z / 10 mod 10; 48 + z mod 10].
Proof. simpl. change (10 ^ Z.of_nat 1) with 10. change (10 ^ Z.of_nat 0) with 1. by rewrite Z.div_1_r. Qed.
