(* ===== verification/Protocol.v ===== *)
(** * Wire protocol framing (src/protocol.ts)

    [Module W]: the allocating message builders. [Module Writer]: the growable
    write buffer with back-patched lengths and the [write*] functions over it.
    [Module Parser]: the incremental message parser and the body decoders. *)

From S2P Require Import Prelude Utf8 Buf.

Definition PROTOCOL_VERSION : Z := 196608.

Definition i16 (n : Z) : res bytes := uint16_be n.
Definition i32 (n : Z) : res bytes := int32_be n.
Definition cstr (s : jstr) : bytes := utf8 s ++ [0].

Definition has_nul (s : jstr) : bool := negb (indexOf s 0 0 =? -1).
Definition guardNul (s what : jstr) : res unit :=
  if has_nul s then Throw (Error (what ++ js " contains NUL byte (0x00)")) else Ok tt.

Definition msg (type : jstr) (payload : bytes) : res bytes :=
  l ← i32 (blen payload + 4); Ok (latin1 type ++ l ++ payload).

Record EncodedParam := { format : Z; pbytes : option bytes }.

Definition too_many (n : Z) : exn :=
  Error (js "too many bind parameters: " ++ show_Z n ++ js " (max 65535)").

(** Run a builder over a list and concatenate, as [parts.push] in a loop. *)
Definition concatM {A} (f : A -> res bytes) (l : list A) : res bytes :=
  concat <$> mapM f l.

(** One Bind value as the wire carries it: length and bytes, or -1 for NULL. *)
Definition param_value (v : option bytes) : res bytes :=
  match v with
  | None => i32 (-1)
  | Some b => l ← i32 (blen b); Ok (l ++ b)
  end.

Module W.

Definition startup_param (kv : jstr * option jstr) : res bytes :=
  match kv.2 with
  | None => Ok []
  | Some v => _ ← guardNul v (js "startup parameter " ++ kv.1); Ok (cstr kv.1 ++ cstr v)
  end.

Definition startup (params : list (jstr * option jstr)) : res bytes :=
  v ← i32 PROTOCOL_VERSION;
  ps ← concatM startup_param params;
  let payload := v ++ ps ++ [0] in
  l ← i32 (blen payload + 4); Ok (l ++ payload).

Definition password (s : jstr) : res bytes := msg (js "p") (cstr s).
Definition saslInitial (mechanism clientFirst : jstr) : res bytes :=
  let cf := utf8 clientFirst in
  l ← i32 (blen cf); msg (js "p") (cstr mechanism ++ l ++ cf).
Definition saslResponse (clientFinal : jstr) : res bytes := msg (js "p") (utf8 clientFinal).

Definition parse (name sql : jstr) : res bytes :=
  _ ← guardNul sql (js "query text");
  z ← i16 0; msg (js "P") (cstr name ++ cstr sql ++ z).

Definition bind (portal statement : jstr) (params : list EncodedParam) (resultFormat : Z) : res bytes :=
  if 65535 <? Z.of_nat (length params) then Throw (too_many (Z.of_nat (length params)))
  else
    n ← i16 (Z.of_nat (length params));
    fs ← concatM (fun p => i16 (format p)) params;
    vs ← concatM (fun p => param_value (pbytes p)) params;
    one ← i16 1; rf ← i16 resultFormat;
    msg (js "B") (cstr portal ++ cstr statement ++ n ++ fs ++ n ++ vs ++ one ++ rf).

Definition describe (kind name : jstr) : res bytes := msg (js "D") (latin1 kind ++ cstr name).
Definition execute (portal : jstr) (maxRows : Z) : res bytes :=
  m ← i32 maxRows; msg (js "E") (cstr portal ++ m).
Definition close (kind name : jstr) : res bytes := msg (js "C") (latin1 kind ++ cstr name).
Definition sync : res bytes := msg (js "S") [].
Definition flush : res bytes := msg (js "H") [].
Definition terminate : res bytes := msg (js "X") [].
Definition copyFail (reason : jstr) : res bytes := msg (js "f") (cstr reason).
Definition sslRequest : res bytes := a ← i32 8; b ← i32 80877103; Ok (a ++ b).
Definition cancelRequest (pid secret : Z) : res bytes :=
  a ← i32 16; b ← i32 80877102; p ← i32 pid; s ← i32 secret; Ok (a ++ b ++ p ++ s).

End W.

(** What [Buffer.allocUnsafe(n)] holds before it is written: anything, of the
    right length. The theorems hold for every such choice. *)
Class Alloc := {
  allocUnsafe : nat -> bytes;
  length_allocUnsafe n : length (allocUnsafe n) = n;
}.
#[export] Hint Rewrite @length_allocUnsafe : minipg.

Record writer := mkWriter { buf : bytes; off : nat; msgStart : nat }.

(** The bytes written so far. *)
Definition contents (w : writer) : bytes := take (off w) (buf w).

Module Writer.
Section Ops.
Context `{Alloc}.

Definition new (size : nat) : writer := mkWriter (allocUnsafe size) 0 0.
Definition reset : M writer unit := modify (fun w => mkWriter (buf w) 0 (msgStart w)).

(** The doubling loop of [ensure]; [need] rounds are enough from any capacity
  of at least one byte ([grow_cap_enough]). *)
Fixpoint grow_cap (fuel cap need : nat) : option nat :=
if (cap <? need)%nat then
  match fuel with O => None | S f => grow_cap f (cap * 2) need end
else Some cap.

Definition ensure (n : nat) : M writer unit := fun w =>
let need := (off w + n)%nat in
if (need <=? length (buf w))%nat then (w, Ok tt)
else match grow_cap need (length (buf w) * 2) need with
     | None => (w, NoFuel)
     | Some cap => (mkWriter (list_inserts 0 (take (off w) (buf w)) (allocUnsafe cap)) (off w) (msgStart w), Ok tt)
     end.

(** Store bytes at [off] and advance. *)
Definition put (bs : bytes) : M writer unit :=
modify (fun w => mkWriter (list_inserts (off w) bs (buf w)) (off w + length bs) (msgStart w)).

(** [writeInt32BE] and friends at an absolute position: range check, then bounds check. *)
Definition write_at (pos : nat) (enc : res bytes) : M writer unit := fun w =>
match enc with
| Ok bs => if (pos + length bs <=? length (buf w))%nat
           then (mkWriter (list_inserts pos bs (buf w)) (off w) (msgStart w), Ok tt)
           else (w, Throw RangeError)
| Throw e => (w, Throw e)
| NoFuel => (w, NoFuel)
end.
Definition advance (n : nat) : M writer unit :=
modify (fun w => mkWriter (buf w) (off w + n) (msgStart w)).

(** [buf.write(s, pos)]: whole characters only, as many as fit; returns the count. *)
Fixpoint char_boundary (bs : bytes) (k : nat) : nat :=
match k with
| O => O
| S k' => match bs !! k with
          | Some b => if cont b then char_boundary bs k' else k
          | None => k
          end
end.
Definition fit (bs : bytes) (avail : nat) : bytes :=
if (length bs <=? avail)%nat then bs else take (char_boundary bs avail) bs.
Definition buf_write (bs : bytes) (pos : nat) : M writer nat := fun w =>
let out := fit bs (length (buf w) - pos) in
(mkWriter (list_inserts pos out (buf w)) (off w) (msgStart w), Ok (length out)).

Definition byte (n : Z) : M writer unit := _ ← ensure 1; put [n mod 256].
Definition int16 (n : Z) : M writer unit :=
_ ← ensure 2; o ← gets off; _ ← write_at o (uint16_be n); advance 2.
Definition int32 (n : Z) : M writer unit :=
_ ← ensure 4; o ← gets off; _ ← write_at o (int32_be n); advance 4.
Definition cstr (s : jstr) : M writer unit :=
let len := length (utf8 s) in
_ ← ensure (len + 1); o ← gets off; _ ← buf_write (utf8 s) o;
_ ← advance len; put [0].
Definition bytes_ (b : bytes) : M writer unit :=
_ ← ensure (length b);
_ ← modify (fun w => mkWriter (list_inserts (off w) b (buf w)) (off w) (msgStart w));
advance (length b).
Definition str (s : jstr) : M writer unit :=
_ ← ensure (length s * 3); o ← gets off; n ← buf_write (utf8 s) o; advance n.
Definition asc (s : jstr) : M writer unit :=
_ ← ensure (length s); o ← gets off; n ← buf_write (latin1 s) o; advance n.
Definition patch16 (pos : nat) (n : Z) : M writer unit := write_at pos (uint16_be n).
Definition patch32 (pos : nat) (n : Z) : M writer unit := write_at pos (int32_be n).

Definition lpBytes (b : bytes) : M writer unit := _ ← int32 (blen b); bytes_ b.
Definition lpStr (s : jstr) : M writer unit :=
_ ← ensure (4 + length s * 3);
o ← gets off; n ← buf_write (utf8 s) (o + 4);
_ ← write_at o (int32_be (Z.of_nat n)); advance (4 + n).
Definition lpAsc (s : jstr) : M writer unit :=
_ ← ensure (4 + length s);
o ← gets off; n ← buf_write (latin1 s) (o + 4);
_ ← write_at o (int32_be (Z.of_nat n)); advance (4 + n).

(** [let d = 1; for (t = n; t >= 10; t = floor(t / 10)) d++]. *)
Fixpoint count_digits (fuel : nat) (t : Z) (d : nat) : nat :=
match fuel with
| O => d
| S f => if 10 <=? t then count_digits f (t / 10) (S d) else d
end.
(** [for (i = 0; i < d; i++) { buf[p--] = 48 + n % 10; n = floor(n / 10) }]. *)
Fixpoint put_digits (d : nat) (p : nat) (n : Z) (b : bytes) : bytes :=
match d with
| O => b
| S d' => put_digits d' (p - 1) (n / 10) (<[p := 48 + n mod 10]> b)
end.
Definition lpAsciiInt (v : Z) : M writer unit :=
_ ← ensure 25;
let neg := v <? 0 in
let n := if neg then - v else v in
let d := count_digits 25 n 1 in
let len := (d + (if neg then 1 else 0))%nat in
o ← gets off;
_ ← write_at o (int32_be (Z.of_nat len));
let p := (o + 4 + len - 1)%nat in
_ ← modify (fun w => mkWriter (put_digits d p n (buf w)) (off w) (msgStart w));
_ ← (if neg then modify (fun w => mkWriter (<[(p - d)%nat := 45]> (buf w)) (off w) (msgStart w)) else mret tt);
advance (4 + len).

Definition lpI64 (v : Z) : M writer unit :=
_ ← ensure 12; o ← gets off;
_ ← write_at o (int32_be 8);
_ ← write_at (o + 4) (int32_be (v / 4294967296));
_ ← write_at (o + 8) (uint32_be (v mod 4294967296));
advance 12.
Definition lpI64Big (v : Z) : M writer unit :=
_ ← ensure 12; o ← gets off;
_ ← write_at o (int32_be 8); _ ← write_at (o + 4) (int64_be v); advance 12.
(** [f8] is the eight bytes of the IEEE double. *)
Definition lpF8 (f8 : bytes) : M writer unit :=
_ ← ensure 12; o ← gets off;
_ ← write_at o (int32_be 8); _ ← write_at (o + 4) (Ok f8); advance 12.

Definition start (type : jstr) : M writer unit :=
_ ← byte (nth 0 type 0);
_ ← modify (fun w => mkWriter (buf w) (off w) (off w));
_ ← ensure 4; advance 4.
Definition end_ : M writer unit := fun w =>
write_at (msgStart w) (int32_be (Z.of_nat (off w) - Z.of_nat (msgStart w))) w.
Definition mark : M writer nat := gets off.
Definition rewind (o : nat) : M writer unit := modify (fun w => mkWriter (buf w) o (msgStart w)).

End Ops.
End Writer.
#[global] Arguments Writer.write_at : simpl never.
#[global] Arguments Writer.buf_write : simpl never.
#[global] Arguments list_inserts : simpl never.
#[global] Arguments be : simpl never.

(** ** The write functions of the extended protocol *)

Section Write.
Context `{Alloc}.
Import Writer.

Definition w_int16s (l : list Z) : M writer unit := forM l int16.

(** [resultFormat: number | number[]]. *)
Inductive result_format := OneFormat (f : Z) | PerColumn (fs : list Z).
Definition write_result_format (rf : result_format) : M writer unit :=
  match rf with
  | PerColumn fs => _ ← int16 (Z.of_nat (length fs)); w_int16s fs
  | OneFormat f => _ ← int16 1; int16 f
  end.

Definition writeParse (name sql : jstr) (paramOids : list Z) : M writer unit :=
  _ ← lift (guardNul sql (js "query text"));
  _ ← start (js "P"); _ ← cstr name; _ ← cstr sql;
  _ ← (match paramOids with
       | [] => int16 0
       | _ => _ ← int16 (Z.of_nat (length paramOids)); forM paramOids int32
       end);
  end_.

Definition writeDescribe (kind name : jstr) : M writer unit :=
  _ ← start (js "D"); _ ← byte (nth 0 kind 0); _ ← cstr name; end_.

Definition write_value (v : option bytes) : M writer unit :=
  match v with
  | None => int32 (-1)
  | Some b => _ ← int32 (blen b); bytes_ b
  end.

Definition writeBind (portal statement : jstr) (params : list EncodedParam) (rf : result_format) : M writer unit :=
  if 65535 <? Z.of_nat (length params) then throw (too_many (Z.of_nat (length params)))
  else
    _ ← start (js "B"); _ ← cstr portal; _ ← cstr statement;
    _ ← int16 (Z.of_nat (length params));
    _ ← forM params (fun p => int16 (format p));
    _ ← int16 (Z.of_nat (length params));
    _ ← forM params (fun p => write_value (pbytes p));
    _ ← write_result_format rf;
    end_.

(** [ParamsEncoder]: writes one value, returns the format code it used. *)
Definition ParamsEncoder (V : Type) := V -> nat -> M writer Z.

(** The loop [for i: f = enc(w, params[i], i); if (f !== 0) w.patch16(fmtPos + i*2, f)]. *)
Fixpoint encode_params {V} (enc : ParamsEncoder V) (fmtPos : nat) (params : list V) (i : nat) : M writer unit :=
  match params with
  | [] => mret tt
  | v :: t =>
    f ← enc v i;
    _ ← (if f =? 0 then mret tt else patch16 (fmtPos + i * 2) f);
    encode_params enc fmtPos t (S i)
  end.

Definition writeBindWith {V} (portal statement : jstr) (params : list V) (enc : ParamsEncoder V)
    (rf : result_format) : M writer unit :=
  if 65535 <? Z.of_nat (length params) then throw (too_many (Z.of_nat (length params)))
  else
    _ ← start (js "B"); _ ← cstr portal; _ ← cstr statement;
    _ ← int16 (Z.of_nat (length params));
    fmtPos ← mark;
    _ ← forM params (fun _ => int16 0);
    _ ← int16 (Z.of_nat (length params));
    _ ← encode_params enc fmtPos params 0;
    _ ← write_result_format rf;
    end_.

Definition writeBindRaw (portal statement : jstr) (formats : list Z) (values : list (option bytes))
    (rf : result_format) : M writer unit :=
  if 65535 <? Z.of_nat (length values) then throw (too_many (Z.of_nat (length values)))
  else
    _ ← start (js "B"); _ ← cstr portal; _ ← cstr statement;
    _ ← int16 (Z.of_nat (length formats)); _ ← w_int16s formats;
    _ ← int16 (Z.of_nat (length values)); _ ← forM values write_value;
    _ ← write_result_format rf;
    end_.

Definition writeExecute (portal : jstr) (maxRows : Z) : M writer unit :=
  _ ← start (js "E"); _ ← cstr portal; _ ← int32 maxRows; end_.
Definition writeClose (kind name : jstr) : M writer unit :=
  _ ← start (js "C"); _ ← byte (nth 0 kind 0); _ ← cstr name; end_.
Definition writeSync : M writer unit := _ ← start (js "S"); end_.
Definition writeQuery (sql : jstr) : M writer unit :=
  _ ← lift (guardNul sql (js "query text"));
  _ ← start (js "Q"); _ ← cstr sql; end_.

End Write.

(** ** Reading messages *)

Record RawMessage := mkMsg { mtype : Z; mbody : bytes }.
Record Field := mkField {
  fname : jstr; tableOid : Z; columnId : Z; dataTypeOid : Z;
  dataTypeSize : Z; typeModifier : Z; fformat : Z }.

Module Parser.

Definition invalid_length (len : Z) : exn := Error (js "invalid backend message length: " ++ show_Z len).

(** The loop of [push]: complete messages from [b] on, then the unread rest.
    Every round consumes at least five bytes, so [length b] rounds are enough
    ([push_loop_total]). *)
Fixpoint push_loop (fuel : nat) (b : bytes) (out : list RawMessage) : res (list RawMessage * bytes) :=
  if blen b <? 5 then Ok (out, b)
  else
    match fuel with
    | O => NoFuel
    | S fuel' =>
      len ← readInt32BE b 1;
      if len <? 4 then Throw (invalid_length len)
      else
        let total := len + 1 in
        if blen b <? total then Ok (out, b)
        else push_loop fuel' (subarray b total (blen b))
               (out ++ [mkMsg (nth 0 b 0) (subarray b 5 total)])
    end.

(** The parser's state is its unread bytes; on a throw they stay where the
    concatenation left them. *)
Definition push (chunk : bytes) : M bytes (list RawMessage) := fun b =>
  let b' := b ++ chunk in
  match push_loop (length b') b' [] with
  | Ok (out, rest) => (rest, Ok out)
  | Throw e => (b', Throw e)
  | NoFuel => (b', NoFuel)
  end.

(** Bytes up to the next NUL at or after [off]. The loop of the source tests
    [body[end] !== 0], which stays true past the end of the body: without a NUL
    it does not terminate ([None]). *)
Definition cstr_end (body : bytes) (off : Z) : option Z :=
  let i := indexOf body 0 off in if i =? -1 then None else Some i.

Fixpoint fields_loop (n : nat) (body : bytes) (off : Z) : res (list Field) :=
  match n with
  | O => Ok []
  | S n' =>
    match cstr_end body off with
    | None => NoFuel
    | Some stop =>
      let name := utf8_decode (subarray body off stop) in
      let off := stop + 1 in
      t ← readInt32BE body off;
      c ← readInt16BE body (off + 4);
      d ← readInt32BE body (off + 6);
      s ← readInt16BE body (off + 10);
      m ← readInt32BE body (off + 12);
      f ← readInt16BE body (off + 16);
      rest ← fields_loop n' body (off + 18);
      Ok (mkField name t c d s m f :: rest)
    end
  end.
Definition parseRowDescription (body : bytes) : res (list Field) :=
  n ← readInt16BE body 0; fields_loop (Z.to_nat n) body 2.

(** [new Array(n)] raises RangeError on a negative count. *)
Definition new_array (n : Z) : res nat := if n <? 0 then Throw RangeError else Ok (Z.to_nat n).

Definition parseParameterDescription (body : bytes) : res (list Z) :=
  n ← readInt16BE body 0;
  k ← new_array n;
  mapM (fun i => readInt32BE body (2 + Z.of_nat i * 4)) (seq 0 k).

Fixpoint cells_loop (n : nat) (body : bytes) (off : Z) : res (list (option bytes)) :=
  match n with
  | O => Ok []
  | S n' =>
    len ← readInt32BE body off;
    let off := off + 4 in
    if len =? -1 then rest ← cells_loop n' body off; Ok (None :: rest)
    else rest ← cells_loop n' body (off + len); Ok (Some (subarray body off (off + len)) :: rest)
  end.
Definition parseDataRow (body : bytes) : res (list (option bytes)) :=
  n ← readInt16BE body 0; k ← new_array n; cells_loop k body 2.

End Parser.
