(* ===== verification/Framing.v ===== *)
(** * The write side: the Writer appends exactly the bytes of the builders

    [writes m bs] is the contract of a Writer operation: from any well-formed
    buffer it finishes, keeps the bytes already there and appends [bs]. The
    contracts compose, so that each [write*] function is compared with the
    allocating builder of [Module W] it replaces on the hot path. *)

From S2P Require Import Prelude Utf8 Buf Protocol.
Import Writer.

Definition wf (w : writer) : Prop := (0 < length (buf w))%nat /\ (off w <= length (buf w))%nat.

Section Facts.
Context `{Alloc}.

(** [m], from [w], appends [bs] and returns [a]. *)
Definition appends {A} (m : M writer A) (w : writer) (a : A) (bs : bytes) (start' : nat) : Prop :=
  exists w', m w = (w', Ok a) /\ wf w' /\ contents w' = contents w ++ bs /\ msgStart w' = start'.

Definition writes (m : M writer unit) (bs : bytes) : Prop :=
  forall w, wf w -> appends m w tt bs (msgStart w).

Lemma length_contents w : wf w -> length (contents w) = off w.
Proof. intros [_ ?]. unfold contents. rewrite length_take. lia. Qed.

Lemma off_after w w' bs : wf w -> wf w' -> contents w' = contents w ++ bs -> off w' = (off w + length bs)%nat.
Proof. intros Hw Hw' E. rewrite <- (length_contents w'), E, length_app, length_contents by done. lia. Qed.

Lemma appends_bind {A B} (m : M writer A) (f : A -> M writer B) w a b b1 b2 s1 s2 :
  appends m w a b1 s1 ->
  (forall w', wf w' -> contents w' = contents w ++ b1 -> msgStart w' = s1 -> appends (f a) w' b b2 s2) ->
  appends (m ≫= f) w b (b1 ++ b2) s2.
Proof.
  intros (w1 & E1 & Hw1 & C1 & S1) H2. destruct (H2 w1) as (w2 & E2 & Hw2 & C2 & S2); [done..|].
  exists w2. rewrite (bind_Ok _ _ _ _ _ E1), C2, C1, app_assoc. eauto.
Qed.

Lemma writes_bind m1 (f : unit -> M writer unit) b1 b2 :
  writes m1 b1 -> writes (f tt) b2 -> writes (m1 ≫= f) (b1 ++ b2).
Proof.
  intros H1 H2 w Hw. eapply appends_bind; [by apply H1|]. intros w' Hw' _ <-. by apply H2.
Qed.

Lemma writes_ret : writes (mret tt) [].
Proof. intros w Hw. exists w. by rewrite app_nil_r. Qed.

Lemma writes_forM {A} (f : A -> M writer unit) (g : A -> bytes) l :
  (forall a, a ∈ l -> writes (f a) (g a)) -> writes (forM l f) (concat (g <$> l)).
Proof.
  induction l as [|a l IH]; intros Hf; simpl; [apply writes_ret|].
  apply writes_bind; [apply Hf; by left|apply IH; intros; apply Hf; by right].
Qed.

Lemma grow_cap_enough fuel cap need :
  (0 < cap)%nat -> (need <= cap + fuel)%nat -> exists c, grow_cap fuel cap need = Some c /\ (need <= c)%nat.
Proof.
  revert cap. induction fuel as [|f IH]; intros cap Hc Hn; simpl; destruct (Nat.ltb_spec cap need);
    try lia; eauto. apply IH; lia.
Qed.

(** [ensure] always finishes with room for [n] bytes, whatever the capacity,
    and the bytes already written survive the move. *)
Lemma ensure_spec n w : wf w -> exists w', ensure n w = (w', Ok tt) /\ wf w' /\
  contents w' = contents w /\ off w' = off w /\ msgStart w' = msgStart w /\ (off w + n <= length (buf w'))%nat.
Proof.
  intros [Hb Ho]. unfold ensure. destruct (Nat.leb_spec (off w + n) (length (buf w))).
  { exists w. repeat split; auto. }
  destruct (grow_cap_enough (off w + n) (length (buf w) * 2) (off w + n)) as (c & -> & Hc); [lia..|].
  eexists. split; [done|]. unfold wf, contents. simpl. rewrite length_inserts, length_allocUnsafe.
  rewrite inserts_app by (rewrite length_take, length_allocUnsafe; lia). simpl.
  rewrite take_app_le by (rewrite length_take; lia). rewrite take_take, Nat.min_id.
  repeat split; lia.
Qed.

(** Storing bytes where [ensure] made room, then advancing over them. *)
Lemma store_spec w b' bs : wf w -> (off w + length bs <= length (buf w))%nat ->
  b' = list_inserts (off w) bs (buf w) ->
  let w' := mkWriter b' (off w + length bs) (msgStart w) in
  wf w' /\ contents w' = contents w ++ bs.
Proof.
  intros [Hb Ho] Hr ->. unfold wf, contents; simpl. rewrite length_inserts. split; [lia|].
  rewrite inserts_app by done. rewrite app_assoc. apply take_app_exact.
  rewrite length_app, length_take. lia.
Qed.

Lemma write_at_Ok w pos bs : (pos + length bs <= length (buf w))%nat ->
  write_at pos (Ok bs) w = (mkWriter (list_inserts pos bs (buf w)) (off w) (msgStart w), Ok tt).
Proof. intros ?. unfold write_at. by zif. Qed.

Lemma fit_all bs avail : (length bs <= avail)%nat -> fit bs avail = bs.
Proof. intros. unfold fit. by zif. Qed.

(** The shape every fixed-size operation has: ensure, then a step that stores
    [bs] at [off] and advances. *)
Lemma writes_store (n : nat) (m : M writer unit) bs :
  (length bs <= n)%nat ->
  (forall w, wf w -> (off w + n <= length (buf w))%nat ->
     m w = (mkWriter (list_inserts (off w) bs (buf w)) (off w + length bs) (msgStart w), Ok tt)) ->
  writes (_ ← ensure n; m) bs.
Proof.
  intros Hn Hm w Hw. destruct (ensure_spec n w Hw) as (w1 & E1 & Hw1 & C1 & O1 & S1 & R1).
  destruct (store_spec w1 _ bs Hw1 ltac:(lia) eq_refl) as [Hw' C'].
  eexists. rewrite (bind_Ok _ _ _ _ _ E1), Hm by (done || lia). split; [done|]. simpl.
  rewrite C1 in C'. auto.
Qed.

Lemma wr_eq b1 b2 o1 o2 m (r : res unit) : b1 = b2 -> o1 = o2 -> (mkWriter b1 o1 m, r) = (mkWriter b2 o2 m, r).
Proof. by intros -> ->. Qed.

Lemma byte_writes n : writes (byte n) [n mod 256].
Proof. apply writes_store; [done|]. intros w Hw _. done. Qed.

Ltac store := intros w Hw Hr; cbv [mbind M_bind gets modify put advance]; cbn [buf off msgStart].

(** A value in range, stored at [off]. *)
Lemma int_writes k enc bs :
  enc = Ok bs -> length bs = k ->
  writes (_ ← ensure k; o ← gets off; _ ← write_at o enc; advance k) bs.
Proof.
  intros -> <-. apply writes_store; [done|]. store. rewrite write_at_Ok by lia. done.
Qed.

Lemma int_be_Ok k lo hi v : lo <= v <= hi -> int_be k lo hi v = Ok (be k v).
Proof. intros. unfold int_be. by zif. Qed.

Lemma int16_writes n : 0 <= n <= 65535 -> writes (int16 n) (be 2 n).
Proof. intros. apply int_writes; [by apply int_be_Ok|done]. Qed.
Lemma int32_writes n : -2147483648 <= n <= 2147483647 -> writes (int32 n) (be 4 n).
Proof. intros. apply int_writes; [by apply int_be_Ok|done]. Qed.

Lemma cstr_writes s : writes (cstr s) (Protocol.cstr s).
Proof.
  apply writes_store; unfold Protocol.cstr; [len|]. store.
  unfold buf_write. rewrite fit_all by lia. simpl. rewrite list_inserts_app_l. simpl.
  apply wr_eq; [f_equal; lia|len].
Qed.

Lemma bytes_writes b : writes (bytes_ b) b.
Proof. apply writes_store; [done|]. by store. Qed.

Lemma str_writes s : writes (str s) (utf8 s).
Proof.
  pose proof (utf8_length_le s). apply writes_store; [lia|]. store.
  unfold buf_write. rewrite fit_all by lia. done.
Qed.

Lemma asc_writes s : writes (asc s) (latin1 s).
Proof.
  apply writes_store; [unfold latin1; len|]. store.
  unfold buf_write. rewrite fit_all by (unfold latin1; len). done.
Qed.

Lemma lpBytes_writes b : blen b <= 2147483647 -> writes (lpBytes b) (be 4 (blen b) ++ b).
Proof.
  intros. apply writes_bind; [apply int32_writes; pose proof (blen_nonneg b); lia|apply bytes_writes].
Qed.

(** Payload first, then its length in front of it: the same as both in order. *)
Lemma inserts_len_payload o (l bs b : bytes) :
  (o + length l + length bs <= length b)%nat ->
  list_inserts o l (list_inserts (o + length l) bs b) = list_inserts o (l ++ bs) b.
Proof.
  intros Hl. rewrite list_inserts_app_l, (Nat.add_comm (length l)).
  apply list_eq. intros i.
  destruct (decide (i < length b)%nat) as [Hi|Hi].
  2:{ rewrite !lookup_ge_None_2; rewrite ?length_inserts; try done; lia. }
  destruct (decide (i < o)%nat); [by rewrite !list_lookup_inserts_lt by lia|].
  destruct (decide (i < o + length l)%nat).
  - rewrite list_lookup_inserts by (rewrite ?length_inserts; lia).
    rewrite list_lookup_inserts_lt by lia. by rewrite list_lookup_inserts by lia.
  - rewrite list_lookup_inserts_ge by lia.
    destruct (decide (i < o + length l + length bs)%nat).
    + rewrite !list_lookup_inserts by (rewrite ?length_inserts; lia). done.
    + rewrite !list_lookup_inserts_ge by lia. done.
Qed.

Lemma lp_writes n bs : (length bs <= n)%nat -> Z.of_nat n <= 2147483647 ->
  writes (_ ← ensure (4 + n); o ← gets off; k ← buf_write bs (o + 4);
          _ ← write_at o (int32_be (Z.of_nat k)); advance (4 + k)) (be 4 (blen bs) ++ bs).
Proof.
  intros Hn Hm. apply writes_store; [len|]. store.
  unfold buf_write. rewrite fit_all by lia. unfold int32_be. rewrite int_be_Ok by lia.
  rewrite write_at_Ok by (simpl; rewrite length_inserts; len).
  apply wr_eq; [|simpl; len]. apply (inserts_len_payload (off w) (be 4 (Z.of_nat (length bs)))). len.
Qed.

Lemma lpStr_writes s : Z.of_nat (length s * 3) <= 2147483647 ->
  writes (lpStr s) (be 4 (blen (utf8 s)) ++ utf8 s).
Proof. intros. apply lp_writes; [|done]. pose proof (utf8_length_le s). lia. Qed.

Lemma lpAsc_writes s : Z.of_nat (length s) <= 2147483647 ->
  writes (lpAsc s) (be 4 (blen s) ++ latin1 s).
Proof.
  intros. replace (blen s) with (blen (latin1 s)) by (unfold blen, latin1; len).
  apply lp_writes; unfold latin1; len.
Qed.

Lemma lpI64_writes v : -9223372036854775808 <= v <= 9223372036854775807 ->
  writes (lpI64 v) (be 4 8 ++ be 8 v).
Proof.
  intros Hv. replace (be 8 v) with (be 4 (v / 4294967296) ++ be 4 (v mod 4294967296)).
  2:{ change (be 8 v) with (be 4 (v / 4294967296) ++ be 4 v) || idtac.
      assert (be 4 (v mod 256 ^ Z.of_nat 4) = be 4 v) as E by apply be_mod.
      change (256 ^ Z.of_nat 4) with 4294967296 in E. rewrite E. simpl.
      rewrite !Z.div_div by lia. done. }
  apply writes_store; [done|]. store.
  unfold int32_be, uint32_be. rewrite (int_be_Ok _ _ _ 8), (int_be_Ok _ _ _ (v / _)), (int_be_Ok _ _ _ (v mod _)).
  - rewrite write_at_Ok by len. cbn [buf off msgStart].
    rewrite write_at_Ok by (cbn [buf]; rewrite length_inserts; len). cbn [buf off msgStart].
    rewrite write_at_Ok by (cbn [buf]; rewrite !length_inserts; len).
    apply wr_eq; cbn [buf off]; [|len].
    rewrite !list_inserts_app_l, !length_be. f_equal; [lia|]. f_equal; lia.
  - pose proof (Z.mod_pos_bound v 4294967296). lia.
  - split; [apply Z.div_le_lower_bound; lia|apply Z.lt_succ_r, Z.div_lt_upper_bound; lia].
  - lia.
Qed.

(** ** [lpAsciiInt]: the digits of [String(v)] without the string *)

Fixpoint dec (d : nat) (n : Z) : jstr :=
  match d with O => [] | S d' => dec d' (n / 10) ++ [48 + n mod 10] end.

Lemma length_dec d n : length (dec d n) = d.
Proof. revert n. induction d; intros; simpl; rewrite ?length_app, ?IHd; simpl; lia. Qed.

Lemma count_digits_shift f t d : count_digits f t d = (count_digits f t 0 + d)%nat.
Proof.
  revert t d. induction f as [|f IH]; intros t d; simpl; [done|].
  destruct (10 <=? t); [|done]. rewrite IH, (IH _ 1%nat). lia.
Qed.

Lemma count_digits_le f t d : (count_digits f t d <= f + d)%nat.
Proof. revert t d. induction f as [|f IH]; intros t d; simpl; [lia|]. case_match; [|lia]. specialize (IH (t / 10) (S d)). lia. Qed.

Lemma digits_fuel_dec f n acc : 0 <= n < 10 ^ Z.of_nat (S f) ->
  digits_fuel (S f) n acc = dec (count_digits f n 1) n ++ acc.
Proof.
  revert n acc. induction f as [|f IH]; intros n acc Hn.
  { simpl. change (10 ^ Z.of_nat 1) with 10 in Hn. rewrite Z.mod_small by lia. by zif. }
  change (digits_fuel (S (S f)) n acc) with
    (if n <? 10 then 48 + n :: acc else digits_fuel (S f) (n / 10) (48 + n mod 10 :: acc)).
  cbn [count_digits]. destruct (Z.ltb_spec n 10).
  - zif. simpl. by rewrite Z.mod_small by lia.
  - zif. rewrite Nat2Z.inj_succ, Z.pow_succ_r in Hn by lia.
    rewrite IH by (split; [apply Z.div_pos; lia|apply Z.div_lt_upper_bound; lia]).
    rewrite (count_digits_shift _ _ 2), (count_digits_shift _ _ 1), !Nat.add_succ_r, !Nat.add_0_r. simpl.
    by rewrite <- !app_assoc.
Qed.

(** Any fuel that covers the number of digits computes the same string. *)
Lemma digits_fuel_irrel f g n acc : 0 <= n < 10 ^ Z.of_nat (S f) -> (f <= g)%nat ->
  digits_fuel (S f) n acc = digits_fuel (S g) n acc.
Proof.
  revert g n acc. induction f as [|f IH]; intros g n acc Hn Hg.
  - change (10 ^ Z.of_nat 1) with 10 in Hn. cbn [digits_fuel]. by zif.
  - destruct g as [|g]; [lia|]. cbn [digits_fuel] in IH |- *. destruct (Z.ltb_spec n 10); [done|].
    rewrite Nat2Z.inj_succ, Z.pow_succ_r in Hn by lia. apply IH; [|lia].
    split; [apply Z.div_pos; lia|apply Z.div_lt_upper_bound; lia].
Qed.

Lemma digits_dec n : 0 <= n < 10 ^ 25 -> digits n = dec (count_digits 25 n 1) n.
Proof.
  intros Hn. rewrite <- (app_nil_r (dec _ _)), <- digits_fuel_dec.
  2:{ change (10 ^ Z.of_nat 26) with (10 * 10 ^ 25). lia. }
  unfold digits. set (l := Z.to_nat (Z.log2 n)).
  assert (0 <= n < 10 ^ Z.of_nat (S l)) as Hl.
  { split; [lia|]. unfold l. rewrite Nat2Z.inj_succ, Z2Nat.id by apply Z.log2_nonneg.
    destruct (Z.eq_dec n 0) as [->|]; [done|].
    apply Z.lt_le_trans with (2 ^ Z.succ (Z.log2 n)); [apply Z.log2_spec; lia|apply Z.pow_le_mono_l; lia]. }
  destruct (decide (l <= 25)%nat); [by apply digits_fuel_irrel|].
  symmetry. apply digits_fuel_irrel; [|lia]. change (10 ^ Z.of_nat 26) with (10 * 10 ^ 25). lia.
Qed.

Lemma put_digits_inserts d p n b : (d <= S p)%nat ->
  put_digits d p n b = list_inserts (S p - d) (dec d n) b.
Proof.
  revert p n b. induction d as [|d IH]; intros p n b Hd; simpl; [by unfold list_inserts|].
  rewrite list_inserts_app_l, length_dec. destruct p as [|p].
  - assert (d = 0)%nat as -> by lia. done.
  - rewrite IH by lia. simpl. rewrite Nat.sub_0_r.
    replace (S p - d)%nat with (S (S p) - S d)%nat by lia.
    rewrite <- list_insert_inserts_comm || idtac.
    apply list_eq. intros i.
    destruct (decide (i = S p)) as [->|Hne].
    + rewrite list_lookup_inserts_ge by (rewrite length_dec; lia).
      replace (d + (S (S p) - S d))%nat with (S p) by lia.
      destruct (decide (S p < length b)%nat).
      * rewrite list_lookup_insert_eq by done. unfold list_inserts at 1.
        rewrite list_lookup_insert_eq by (rewrite length_inserts; done). done.
      * rewrite !lookup_ge_None_2; rewrite ?length_insert, ?length_inserts; try done; lia.
    + replace (d + (S (S p) - S d))%nat with (S p) by lia.
      unfold list_inserts at 2. rewrite list_lookup_insert_ne by done.
      destruct (decide (S (S p) - S d <= i < S p)%nat) as [Hi|Hi].
      * destruct (decide (i < length b)%nat).
        -- rewrite !list_lookup_inserts; rewrite ?length_dec, ?length_insert; try done; lia.
        -- rewrite !lookup_ge_None_2; rewrite ?length_inserts, ?length_insert; try done; lia.
      * destruct (decide (i < S (S p) - S d)%nat).
        -- rewrite !list_lookup_inserts_lt by lia. by rewrite list_lookup_insert_ne by done.
        -- rewrite !list_lookup_inserts_ge by (rewrite length_dec; lia). by rewrite list_lookup_insert_ne by done.
Qed.

Lemma count_digits_bound f k t : 0 <= t < 10 ^ Z.of_nat k -> (0 < k)%nat -> (count_digits f t 1 <= k)%nat.
Proof.
  rewrite count_digits_shift. revert k t. induction f as [|f IH]; intros k t Ht Hk; simpl; [lia|].
  destruct (Z.leb_spec 10 t); [|lia].
  destruct k as [|k]; [lia|]. rewrite Nat2Z.inj_succ, Z.pow_succ_r in Ht by lia.
  rewrite count_digits_shift.
  assert (0 < k)%nat by (destruct k; [change (10 ^ Z.of_nat 0) with 1 in Ht; lia|lia]).
  specialize (IH k (t / 10)).
  assert (0 <= t / 10 < 10 ^ Z.of_nat k) by (split; [apply Z.div_pos; lia|apply Z.div_lt_upper_bound; lia]).
  specialize (IH ltac:(done) ltac:(done)). lia.
Qed.

(** The loops leave the sign and the digits right after the length slot. *)
Lemma ascii_int_bytes (neg : bool) d n o (b : bytes) :
  (o + 4 + d + 1 <= length b)%nat ->
  let s := if neg then 1%nat else 0%nat in
  let p := (o + 4 + (d + s) - 1)%nat in
  (0 < d)%nat ->
  (if neg then list_inserts (p - d) [45] (put_digits d p n b) else put_digits d p n b)
  = list_inserts (o + 4) ((if neg then [45] else []) ++ dec d n) b.
Proof.
  intros Hb s p Hd. rewrite put_digits_inserts by (unfold p; lia). unfold p, s. destruct neg.
  - replace (o + 4 + (d + 1) - 1 - d)%nat with (o + 4)%nat by lia.
    replace (S (o + 4 + (d + 1) - 1) - d)%nat with (o + 4 + length [45])%nat by (simpl; lia).
    by rewrite inserts_len_payload by (simpl; rewrite length_dec; lia).
  - f_equal. lia.
Qed.

Lemma show_Z_dec v : - 10 ^ 16 < v < 10 ^ 16 ->
  let n := if v <? 0 then - v else v in
  show_Z v = (if v <? 0 then [45] else []) ++ dec (count_digits 25 n 1) n.
Proof. intros Hv n. unfold show_Z, n. destruct (Z.ltb_spec v 0); by rewrite digits_dec by lia. Qed.

(** A safe integer goes out as [String(v)] with its length in front. *)
Lemma lpAsciiInt_writes v : - 9007199254740991 <= v <= 9007199254740991 ->
  writes (lpAsciiInt v) (be 4 (blen (show_Z v)) ++ show_Z v).
Proof.
  intros Hv. unfold lpAsciiInt. pose proof (show_Z_dec v ltac:(lia)) as Es. cbv zeta in Es.
  set (n := if v <? 0 then - v else v) in *. assert (0 <= n < 10 ^ Z.of_nat 17) as Hn.
  { change (10 ^ Z.of_nat 17) with (10 ^ 17). unfold n; case_match; lia. }
  pose proof (count_digits_bound 25 17 n Hn ltac:(lia)) as Hd.
  assert (0 < count_digits 25 n 1)%nat as Hd0 by (rewrite count_digits_shift; lia).
  set (d := count_digits 25 n 1) in *.
  assert (length (show_Z v) = d + (if (v <? 0)%Z then 1 else 0))%nat as Ll
    by (rewrite Es, length_app, length_dec; destruct (v <? 0); simpl; lia).
  apply writes_store; [rewrite length_app, length_be, Ll; case_match; lia|].
  store. unfold int32_be. rewrite int_be_Ok by (case_match; lia).
  rewrite write_at_Ok by len. cbn [buf off msgStart].
  set (b1 := list_inserts (off w) _ (buf w)).
  pose proof (ascii_int_bytes (v <? 0) d n (off w) b1) as Eb. unfold b1 in Eb at 1.
  rewrite length_inserts in Eb. specialize (Eb ltac:(lia) Hd0). rewrite <- Es in Eb.
  rewrite list_inserts_app_l, length_be. replace (4 + off w)%nat with (off w + 4)%nat by lia.
  unfold blen. rewrite length_app, length_be, Ll. fold b1. rewrite <- Eb.
  destruct (v <? 0); apply wr_eq; cbn [buf off]; try lia; done.
Qed.

End Facts.
