(* ===== verification/Messages.v ===== *)
(** * Every message written through the Writer is the builder's message

    [frame]: a body between [start] and [end_] goes out as one message. On top of
    it, the refinement of the write path by the allocating builders
    ([write_refines_build]) and the equality of the two Bind encodings
    ([writeBindWith_eq_bind]). *)

From S2P Require Import Prelude Utf8 Buf Protocol Framing.
Import Writer.

(** The frontend messages the hot path serializes. *)
Inductive frontend :=
| FParse (name sql : jstr)
| FBind (portal statement : jstr) (params : list EncodedParam) (resultFormat : Z)
| FDescribe (kind name : jstr)
| FExecute (portal : jstr) (maxRows : Z)
| FClose (kind name : jstr)
| FSync.

(** The bytes the protocol gives to a message, from the allocating builders. *)
Definition build (f : frontend) : res bytes :=
  match f with
  | FParse n s => W.parse n s
  | FBind p s ps rf => W.bind p s ps rf
  | FDescribe k n => W.describe k n
  | FExecute p m => W.execute p m
  | FClose k n => W.close k n
  | FSync => W.sync
  end.

(** One-letter kinds ('S' or 'P'), the type of the argument in the source. *)
Definition wf_frontend (f : frontend) : Prop :=
  match f with
  | FDescribe k _ | FClose k _ => k = js "S" \/ k = js "P"
  | _ => True
  end.

Section Messages.
Context `{Alloc}.

Definition write (f : frontend) : M writer unit :=
  match f with
  | FParse n s => writeParse n s []
  | FBind p s ps rf => writeBind p s ps (OneFormat rf)
  | FDescribe k n => writeDescribe k n
  | FExecute p m => writeExecute p m
  | FClose k n => writeClose k n
  | FSync => writeSync
  end.

(** [m] appends [bs]; where the last message started is not constrained. *)
Definition emits (m : M writer unit) (bs : bytes) : Prop :=
  forall w, wf w -> exists s', appends m w tt bs s'.

Lemma emits_bind m1 (f : unit -> M writer unit) b1 b2 :
  emits m1 b1 -> emits (f tt) b2 -> emits (m1 ≫= f) (b1 ++ b2).
Proof.
  intros H1 H2 w Hw. destruct (H1 w Hw) as (s1 & w1 & E1 & Hw1 & C1 & S1).
  destruct (H2 w1 Hw1) as (s2 & w2 & E2 & Hw2 & C2 & S2).
  exists s2, w2. rewrite (bind_Ok _ _ _ _ _ E1), C2, C1, app_assoc. done.
Qed.

(** Writing inside the contents changes the contents only there. *)
Lemma contents_patch w pos bs : wf w -> (pos + length bs <= off w)%nat ->
  let w' := mkWriter (list_inserts pos bs (buf w)) (off w) (msgStart w) in
  wf w' /\ contents w' = list_inserts pos bs (contents w).
Proof.
  intros [Hb Ho] Hp. unfold wf, contents; simpl. rewrite length_inserts. split; [done|].
  rewrite !inserts_app by (rewrite ?length_take; lia).
  rewrite take_take, Nat.min_l by lia.
  replace (off w) with (pos + length bs + (off w - pos - length bs))%nat at 2 by lia.
  rewrite <- take_drop_commute. rewrite take_app_ge by (rewrite length_take; lia).
  rewrite length_take, Nat.min_l by lia. rewrite take_app_ge by lia. do 3 f_equal; lia.
Qed.

Lemma patch_mid pre x y post pos (enc : res bytes) w :
  wf w -> enc = Ok y -> contents w = pre ++ x ++ post -> length x = length y -> pos = length pre ->
  exists w', write_at pos enc w = (w', Ok tt) /\ wf w' /\ contents w' = pre ++ y ++ post
    /\ msgStart w' = msgStart w /\ off w' = off w.
Proof.
  intros Hw -> Hc Hl ->. pose proof (length_contents w Hw) as Lo. rewrite Hc, !length_app in Lo.
  destruct (contents_patch w (length pre) y Hw) as [Hw' Hc']; [lia|].
  eexists. rewrite write_at_Ok by (destruct Hw; lia). split; [done|]. simpl. split; [done|].
  rewrite Hc', Hc. split; [|done]. replace (length pre) with (length pre + 0)%nat by lia.
  by rewrite list_inserts_app_r, list_inserts_0_r.
Qed.

(** The header: the type byte, four reserved bytes, [msgStart] on them. *)
Lemma start_spec t w : wf w -> exists w' junk,
  start [t] w = (w', Ok tt) /\ wf w' /\ length junk = 4%nat
  /\ contents w' = contents w ++ [t mod 256] ++ junk /\ msgStart w' = S (off w).
Proof.
  intros Hw. destruct (byte_writes t w Hw) as (w1 & E1 & Hw1 & C1 & S1).
  pose proof (off_after _ _ _ Hw Hw1 C1) as O1. simpl in O1.
  set (w1' := mkWriter (buf w1) (off w1) (off w1)).
  destruct (ensure_spec 4 w1') as (w2 & E2 & Hw2 & C2 & O2 & S2 & R2); [done|].
  exists (mkWriter (buf w2) (off w2 + 4) (msgStart w2)), (take 4 (drop (off w2) (buf w2))).
  split; [|split; [|split; [|split]]].
  - unfold start. cbn [nth]. rewrite (bind_Ok _ _ _ _ _ E1).
    rewrite (bind_Ok (modify _) _ w1 w1' tt) by done. rewrite (bind_Ok _ _ _ _ _ E2). done.
  - unfold wf; simpl. destruct Hw2. rewrite O2. lia.
  - rewrite length_take, length_drop. rewrite O2. lia.
  - unfold contents at 1; cbn [buf off]. rewrite <- take_take_drop.
    change (contents w2 ++ take 4 (drop (off w2) (buf w2)) = contents w ++ [t mod 256] ++ take 4 (drop (off w2) (buf w2))).
    rewrite C2. unfold w1'. rewrite app_assoc. f_equal. done.
  - simpl. rewrite S2. simpl. lia.
Qed.

(** The rest of a message, up to and including [end_]: from a buffer that holds
    an open header and [q] after it, it appends [p] and fills the header in. *)
Definition closes (m : M writer unit) (p : bytes) : Prop :=
  forall w pre junk q, wf w -> contents w = pre ++ junk ++ q -> length junk = 4%nat ->
    msgStart w = length pre -> blen (q ++ p) + 4 <= 2147483647 ->
    exists w', m w = (w', Ok tt) /\ wf w' /\ contents w' = pre ++ be 4 (blen (q ++ p) + 4) ++ q ++ p.

Lemma closes_end : closes end_ [].
Proof.
  intros w pre junk q Hw Hc Hj Hs Hl. rewrite app_nil_r in *.
  pose proof (length_contents _ Hw) as L. rewrite Hc, !length_app, Hj in L.
  assert (Z.of_nat (off w) - Z.of_nat (msgStart w) = blen q + 4) as El by (unfold blen; lia).
  destruct (patch_mid pre junk (be 4 (blen q + 4)) q (msgStart w)
              (int32_be (Z.of_nat (off w) - Z.of_nat (msgStart w))) w) as (w' & E & Hw' & C & _ & _); try done.
  - rewrite El. apply int_be_Ok. pose proof (blen_nonneg q). lia.
  - exists w'. split; [done|]. by rewrite C.
Qed.

Lemma closes_seq m1 (f : unit -> M writer unit) b p :
  writes m1 b -> closes (f tt) p -> closes (m1 ≫= f) (b ++ p).
Proof.
  intros H1 H2 w pre junk q Hw Hc Hj Hs Hl.
  destruct (H1 w Hw) as (w1 & E1 & Hw1 & C1 & S1).
  destruct (H2 w1 pre junk (q ++ b)) as (w2 & E2 & Hw2 & C2).
  - done.
  - rewrite C1, Hc. by rewrite <- !app_assoc.
  - done.
  - by rewrite S1.
  - by rewrite <- app_assoc.
  - exists w2. rewrite (bind_Ok _ _ _ _ _ E1), C2. split; [done|]. split; [done|]. by rewrite <- !app_assoc.
Qed.

Lemma frame t (f : unit -> M writer unit) p : closes (f tt) p -> blen p + 4 <= 2147483647 ->
  emits (start [t] ≫= f) ([t mod 256] ++ be 4 (blen p + 4) ++ p).
Proof.
  intros Hf Hp w Hw. destruct (start_spec t w Hw) as (w1 & junk & E1 & Hw1 & Lj & C1 & S1).
  destruct (Hf w1 (contents w ++ [t mod 256]) junk []) as (w2 & E2 & Hw2 & C2); try done.
  - rewrite C1, app_nil_r. by rewrite <- app_assoc.
  - rewrite S1, length_app, length_contents by done. simpl. lia.
  - exists (msgStart w2), w2. rewrite (bind_Ok _ _ _ _ _ E1), C2. split; [done|]. split; [done|].
    by rewrite <- !app_assoc.
Qed.

Lemma msg_inv t p bs : msg [t] p = Ok bs ->
  blen p + 4 <= 2147483647 /\ bs = [t mod 256] ++ be 4 (blen p + 4) ++ p.
Proof.
  unfold msg, i32, int32_be, int_be. destruct (_ && _) eqn:E; [|done]. b2p_all. simpl. intros [= <-].
  split; [lia|done].
Qed.

Lemma i16_inv n bs : i16 n = Ok bs -> 0 <= n <= 65535 /\ bs = be 2 n.
Proof. unfold i16, uint16_be, int_be. destruct (_ && _) eqn:E; [|done]. b2p_all. by intros [= <-]. Qed.
Lemma i32_inv n bs : i32 n = Ok bs -> -2147483648 <= n <= 2147483647 /\ bs = be 4 n.
Proof. unfold i32, int32_be, int_be. destruct (_ && _) eqn:E; [|done]. b2p_all. by intros [= <-]. Qed.

Lemma mapM_Ok_inv {A B} (f : A -> res B) l ks : mapM f l = Ok ks -> Forall2 (fun a k => f a = Ok k) l ks.
Proof.
  revert ks. induction l as [|a l IH]; intros ks; simpl; [intros [= <-]; constructor|].
  intros E. apply bind_res_Ok_inv in E as (k & Ek & E). apply bind_res_Ok_inv in E as (ks' & Eks & [= <-]).
  constructor; auto.
Qed.

(** A loop of writes against the concatenation of the builders' pieces. *)
Lemma writes_concatM {A} (f : A -> M writer unit) (g : A -> res bytes) l bs :
  (forall a b, g a = Ok b -> writes (f a) b) -> concatM g l = Ok bs -> writes (forM l f) bs.
Proof.
  intros Hf. unfold concatM. destruct (mapM g l) as [ks| |] eqn:E; [|done..]. simpl. intros [= <-].
  apply mapM_Ok_inv in E. induction E as [|a k l ks Ha _ IH]; simpl; [apply writes_ret|].
  apply writes_bind; auto.
Qed.

Lemma write_value_writes v bs : param_value v = Ok bs -> writes (write_value v) bs.
Proof.
  destruct v as [b|]; simpl.
  - intros E. apply bind_res_Ok_inv in E as (l & El & [= <-]). apply i32_inv in El as [? ->].
    apply writes_bind; [by apply int32_writes|apply bytes_writes].
  - intros E. apply i32_inv in E as [? ->]. by apply int32_writes.
Qed.

Lemma i16_writes n bs : i16 n = Ok bs -> writes (int16 n) bs.
Proof. intros E. apply i16_inv in E as [? ->]. by apply int16_writes. Qed.
Lemma i32_writes n bs : i32 n = Ok bs -> writes (int32 n) bs.
Proof. intros E. apply i32_inv in E as [? ->]. by apply int32_writes. Qed.

(** A framed body against the builder's [msg]. *)
Lemma frame_msg t f p bs : closes (f tt) p -> msg [t] p = Ok bs -> emits (start [t] ≫= f) bs.
Proof. intros Hb E. apply msg_inv in E as [? ->]. by apply frame. Qed.

Lemma emits_ext m m' bs : (forall w, m' w = m w) -> emits m bs -> emits m' bs.
Proof. intros He Hm w Hw. destruct (Hm w Hw) as (s & w' & E & R). exists s, w'. by rewrite He. Qed.

Lemma closes_id m p p' : closes m p -> p = p' -> closes m p'.
Proof. by intros ? <-. Qed.

(** Decompose a builder that succeeded. *)
Ltac inv_build := repeat match goal with
  | E : (_ ≫= _) = Ok _ |- _ => apply bind_res_Ok_inv in E as (? & ? & E)
  | E : guardNul _ _ = Ok _ |- _ => unfold guardNul in E; destruct (has_nul _) eqn:?; [done|]
  end.

Ltac close := repeat first [ apply closes_end | eapply closes_seq ].

(** C-level statement of the write path: whatever message the builder accepts,
    the Writer finishes, and appends exactly the builder's bytes. *)
Lemma write_emits f bs : wf_frontend f -> build f = Ok bs -> emits (write f) bs.
Proof.
  destruct f as [name sql|portal st ps rf|kind name|portal m|kind name|]; simpl; intros Hk E.
  - unfold W.parse in E. inv_build. unfold writeParse, guardNul. rewrite Heqb.
    eapply emits_ext; [intros w; by apply bind_Ok|].
    eapply frame_msg; [|exact E]. eapply closes_id; [close; eauto using cstr_writes, i16_writes|].
    by rewrite app_nil_r.
  - unfold W.bind in E. unfold writeBind. destruct (65535 <? _); [done|]. inv_build.
    eapply frame_msg; [|exact E]. eapply closes_id.
    + close; try apply cstr_writes; try by apply i16_writes.
      * apply (writes_concatM _ (fun p => i16 (format p))); [|done]. intros a b. apply i16_writes.
      * apply (writes_concatM _ (fun p => param_value (pbytes p))); [|done]. intros a b. apply write_value_writes.
      * apply writes_bind; by apply i16_writes.
    + by rewrite app_nil_r.
  - eapply frame_msg; [|exact E]. eapply closes_id; [close; eauto using cstr_writes, byte_writes|].
    rewrite app_nil_r. by destruct Hk as [-> | ->].
  - unfold W.execute in E. inv_build. eapply frame_msg; [|exact E].
    eapply closes_id; [close; eauto using cstr_writes, i32_writes|]. by rewrite app_nil_r.
  - eapply frame_msg; [|exact E]. eapply closes_id; [close; eauto using cstr_writes, byte_writes|].
    rewrite app_nil_r. by destruct Hk as [-> | ->].
  - eapply frame_msg; [|exact E]. apply closes_end.
Qed.

Lemma forM_emits {A} (f : A -> M writer unit) (g : A -> res bytes) l bs :
  (forall a b, a ∈ l -> g a = Ok b -> emits (f a) b) -> concatM g l = Ok bs -> emits (forM l f) bs.
Proof.
  revert bs. induction l as [|a l IH]; intros bs Hf E; unfold concatM in *; simpl in E.
  - injection E as <-. intros w Hw. exists (msgStart w). apply writes_ret. done.
  - destruct (g a) as [b| |] eqn:Eb; [|done..]. simpl in E.
    destruct (mapM g l) as [ks| |] eqn:Ek; [|done..]. injection E as <-. simpl.
    apply emits_bind; [apply Hf; [by left|done]|]. apply IH; [|done]. intros. apply Hf; [by right|done].
Qed.

Lemma bind_ext {A B} (m : M writer A) (f g : A -> M writer B) w :
  (forall a s, f a s = g a s) -> (m ≫= f) w = (m ≫= g) w.
Proof. intros He. unfold mbind, M_bind. destruct (m w) as [s' [a|e|]]; auto. Qed.

Lemma closes_ext m m' p : (forall w, m' w = m w) -> closes m p -> closes m' p.
Proof. intros He Hm w pre junk q ????? . rewrite He. eapply Hm; eauto. Qed.

End Messages.

(** ** Write-through Bind encoding *)

(** What a per-value encoder promises [writeBindWith]: where it encodes the value
    [v] at index [i] as [p], it writes the length-prefixed bytes of [p] and returns
    its format. *)
Class LawfulEncoder `{Alloc} {V} (enc : ParamsEncoder V) := {
  encodes : nat -> V -> EncodedParam -> Prop;
  enc_appends i v p bs w : encodes i v p -> param_value (pbytes p) = Ok bs -> wf w ->
    appends (enc v i) w (format p) bs (msgStart w);
}.

Section BindWith.
Context `{LawfulEncoder V enc}.

(** The values from index [i] on, with the parameters they are encoded as. *)
Fixpoint encodes_from (i : nat) (l : list V) (ps : list EncodedParam) : Prop :=
  match l, ps with
  | [], [] => True
  | v :: l, p :: ps => encodes i v p /\ encodes_from (S i) l ps
  | _, _ => False
  end.

Lemma encodes_from_length i l ps : encodes_from i l ps -> length l = length ps.
Proof. revert i ps. induction l as [|v l IH]; intros i [|p ps] He; try done. simpl. f_equal. apply (IH (S i)), He. Qed.

Definition fmt_bytes (p : EncodedParam) : bytes := be 2 (format p).

Lemma M_bind_assoc {S A B C} (m : M S A) (f : A -> M S B) (g : B -> M S C) s :
  ((m ≫= f) ≫= g) s = (m ≫= (fun a => f a ≫= g)) s.
Proof. unfold mbind, M_bind. by destruct (m s) as [s' [a|e|]]. Qed.

(** One value: its bytes at the end, its format in slot [i]. *)
Lemma encode_one v i p w pre done_ rest mid b :
  encodes i v p -> 0 <= format p <= 65535 -> param_value (pbytes p) = Ok b ->
  wf w -> contents w = pre ++ done_ ++ be 2 0 ++ rest ++ mid -> length done_ = (i * 2)%nat ->
  exists w', (f ← enc v i; if f =? 0 then mret tt else patch16 (length pre + i * 2) f) w = (w', Ok tt)
    /\ wf w' /\ contents w' = pre ++ (done_ ++ fmt_bytes p) ++ rest ++ mid ++ b /\ msgStart w' = msgStart w.
Proof.
  intros Ha Hf Hb Hw Hc Hl. destruct (enc_appends i v p b w Ha Hb Hw) as (w1 & E1 & Hw1 & C1 & S1).
  unfold fmt_bytes. destruct (Z.eqb_spec (format p) 0) as [E0|E0].
  - exists w1. rewrite (bind_Ok _ _ _ _ _ E1), E0. simpl. rewrite C1, Hc, <- !app_assoc. done.
  - destruct (patch_mid (pre ++ done_) (be 2 0) (be 2 (format p)) (rest ++ mid ++ b)
                (length pre + i * 2) (uint16_be (format p)) w1) as (w2 & E2 & Hw2 & C2 & S2 & _); try done.
    + by apply int_be_Ok.
    + rewrite C1, Hc, <- !app_assoc. done.
    + rewrite length_app. lia.
    + exists w2. rewrite (bind_Ok _ _ _ _ _ E1). apply Z.eqb_neq in E0. rewrite E0.
      unfold patch16. rewrite E2, C2, S2, <- !app_assoc. done.
Qed.

Lemma encode_params_spec params ps i w pre done_ mid vs :
  encodes_from i params ps -> Forall (fun p => 0 <= format p <= 65535) ps ->
  concatM (fun p => param_value (pbytes p)) ps = Ok vs ->
  wf w -> contents w = pre ++ done_ ++ concat ((fun _ => be 2 0) <$> params) ++ mid -> length done_ = (i * 2)%nat ->
  exists w', encode_params enc (length pre) params i w = (w', Ok tt) /\ wf w' /\
    contents w' = pre ++ done_ ++ concat (fmt_bytes <$> ps) ++ mid ++ vs /\ msgStart w' = msgStart w.
Proof.
  revert ps i w done_ mid vs. induction params as [|v l IH]; intros [|p ps] i w done_ mid vs Ha Hf Hv Hw Hc Hl; try done.
  - unfold concatM in Hv. simpl in *. injection Hv as <-. exists w. rewrite app_nil_r. done.
  - destruct Ha as [Ha Hal]. apply Forall_cons in Hf as [Hf Hfl].
    unfold concatM in *. simpl in Hv. destruct (param_value (pbytes p)) as [b| |] eqn:Eb; [|done..].
    simpl in Hv. destruct (mapM _ ps) as [ks| |] eqn:Ek; [|done..]. injection Hv as <-.
    destruct (encode_one v i p w pre done_ (concat ((fun _ => be 2 0) <$> l)) mid b) as (w1 & E1 & Hw1 & C1 & S1); try done.
    destruct (IH ps (S i) w1 (done_ ++ fmt_bytes p) (mid ++ b) (concat ks)) as (w2 & E2 & Hw2 & C2 & S2); try done.
    { by rewrite Ek. }
    { rewrite length_app. unfold fmt_bytes. rewrite length_be. lia. }
    exists w2. simpl. rewrite <- M_bind_assoc, (bind_Ok _ _ _ _ _ E1), E2, C2, S2. simpl.
    rewrite <- !app_assoc. done.
Qed.

Lemma mapM_i16_fmt ps ks : mapM (fun p => i16 (format p)) ps = Ok ks ->
  Forall (fun p => 0 <= format p <= 65535) ps /\ ks = fmt_bytes <$> ps.
Proof.
  intros E. apply mapM_Ok_inv in E. induction E as [|p b k bs Hp _ [IH ->]]; [by split; [constructor|]|].
  apply i16_inv in Hp as [? ->]. split; [by constructor|done].
Qed.

(** The part of [writeBindWith] between the statement name and the result formats. *)
Lemma bind_params_writes params ps nb fs vs :
  encodes_from 0 params ps -> i16 (Z.of_nat (length ps)) = Ok nb ->
  concatM (fun p => i16 (format p)) ps = Ok fs -> concatM (fun p => param_value (pbytes p)) ps = Ok vs ->
  writes (fmtPos ← mark; _ ← forM params (fun _ => int16 0);
          _ ← int16 (Z.of_nat (length params)); encode_params enc fmtPos params 0) (fs ++ nb ++ vs).
Proof.
  intros Ha Hn Hf Hv w Hw. rewrite (encodes_from_length _ _ _ Ha). unfold concatM in Hf.
  destruct (mapM (fun p => i16 (format p)) _) as [ks| |] eqn:Ef; [|done..]. injection Hf as <-.
  apply mapM_i16_fmt in Ef as [Hr ->].
  destruct (writes_forM (fun _ : V => int16 0) (fun _ => be 2 0) params) with (w := w) as (w1 & E1 & Hw1 & C1 & S1);
    [intros; by apply int16_writes|done|].
  destruct (i16_writes _ _ Hn w1 Hw1) as (w2 & E2 & Hw2 & C2 & S2).
  destruct (encode_params_spec params ps 0 w2 (contents w) [] nb vs) as (w3 & E3 & Hw3 & C3 & S3); try done.
  { rewrite C2, C1. by rewrite <- app_assoc. }
  exists w3. rewrite (bind_Ok mark _ w w (off w)) by done.
  rewrite (bind_Ok _ _ _ _ _ E1), (bind_Ok _ _ _ _ _ E2), <- (length_contents w Hw), E3, C3, S3, S2.
  rewrite S1. done.
Qed.

(** The Bind message with any result-format section. *)
Definition bind_message (portal statement : jstr) (ps : list EncodedParam) (rf : bytes) : res bytes :=
  if 65535 <? Z.of_nat (length ps) then Throw (too_many (Z.of_nat (length ps)))
  else
    n ← i16 (Z.of_nat (length ps));
    fs ← concatM (fun p => i16 (format p)) ps;
    vs ← concatM (fun p => param_value (pbytes p)) ps;
    msg (js "B") (Protocol.cstr portal ++ Protocol.cstr statement ++ n ++ fs ++ n ++ vs ++ rf).

Lemma bind_is_bind_message portal st ps rf bs : W.bind portal st ps rf = Ok bs ->
  exists r, i16 rf = Ok r /\ bind_message portal st ps (be 2 1 ++ r) = Ok bs.
Proof.
  intros E. unfold W.bind in E. unfold bind_message. destruct (65535 <? _); [done|].
  apply bind_res_Ok_inv in E as (nb & -> & E). apply bind_res_Ok_inv in E as (fs & -> & E).
  apply bind_res_Ok_inv in E as (vs & -> & E). apply bind_res_Ok_inv in E as (one & Eo & E).
  apply bind_res_Ok_inv in E as (rfb & Er & E). apply i16_inv in Eo as [_ ->].
  exists rfb. split; [done|]. exact E.
Qed.

Lemma writeBindWith_emits portal st params ps rf rfb bs :
  encodes_from 0 params ps -> writes (write_result_format rf) rfb -> bind_message portal st ps rfb = Ok bs ->
  emits (writeBindWith portal st params enc rf) bs.
Proof.
  intros Ha Hrf E. unfold bind_message in E. unfold writeBindWith. pose proof (encodes_from_length _ _ _ Ha) as Hl.
  rewrite Hl. destruct (65535 <? _); [done|].
  apply bind_res_Ok_inv in E as (nb & En & E). apply bind_res_Ok_inv in E as (fs & Ef & E).
  apply bind_res_Ok_inv in E as (vs & Ev & E).
  eapply frame_msg; [|exact E].
  apply closes_seq; [apply cstr_writes|]. apply closes_seq; [apply cstr_writes|].
  apply closes_seq; [by apply i16_writes|]. rewrite <- Hl in *.
  eapply closes_ext with (m := (fmtPos ← mark; _ ← forM params (fun _ => int16 0);
    _ ← int16 (Z.of_nat (length params)); encode_params enc fmtPos params 0) ≫= fun _ => _ ← write_result_format rf; end_).
  { intros w. rewrite M_bind_assoc. apply bind_ext. intros fp s. rewrite M_bind_assoc. apply bind_ext.
    intros _ s'. rewrite M_bind_assoc. done. }
  eapply closes_id.
  - apply closes_seq; [eapply bind_params_writes; [exact Ha|rewrite <- Hl; exact En|exact Ef|exact Ev]|].
    apply closes_seq; [exact Hrf|apply closes_end].
  - rewrite app_nil_r, <- !app_assoc. done.
Qed.

Lemma one_format_writes rf r : i16 rf = Ok r -> writes (write_result_format (OneFormat rf)) (be 2 1 ++ r).
Proof. intros Er. apply writes_bind; [by apply int16_writes|by apply i16_writes]. Qed.

End BindWith.

(** ** Properties *)

(** A concrete allocator and encoder, for the witnesses. *)
Definition zero_alloc : Alloc := {|
  allocUnsafe n := replicate n 0;
  length_allocUnsafe n := length_replicate n 0;
|}.

Definition raw_encoder (v : option bytes) (i : nat) : @M writer Z :=
  _ ← @write_value zero_alloc v; mret (match v with Some _ => 1 | None => 0 end).

Definition raw_param (v : option bytes) : EncodedParam := {| format := match v with Some _ => 1 | None => 0 end; pbytes := v |}.
Definition raw_lawful : @LawfulEncoder zero_alloc _ raw_encoder.
Proof.
  refine {| encodes _ v p := p = raw_param v |}.
  intros i v p bs w -> E Hw. simpl in *.
  destruct (@write_value_writes zero_alloc v bs E w Hw) as (w' & E' & R).
  exists w'. unfold raw_encoder. by rewrite (bind_Ok _ _ _ _ _ E').
Defined.

(** C20: A batch of frontend messages written through the reusable Writer, from a
    fresh buffer of any positive capacity and whatever memory the allocator
    returns, is byte for byte the concatenation of the allocating builders'
    messages: growth, back-patched lengths and in-place stores lose nothing. *)
Theorem write_batch_refines_build `{Alloc} size fs bs :
  (0 < size)%nat -> Forall wf_frontend fs -> concatM build fs = Ok bs ->
  exists w', forM fs write (Writer.new size) = (w', Ok tt) /\ contents w' = bs.
Proof.
  intros Hs Hwf E. destruct (forM_emits write build fs bs) with (w := Writer.new size) as (s & w' & E' & _ & C & _).
  - intros f b Hf. apply write_emits. by eapply Forall_forall in Hwf.
  - done.
  - unfold wf, Writer.new; simpl. rewrite length_allocUnsafe. lia.
  - eauto.
Qed.

Definition demo_batch : list frontend :=
  [FParse (js "s1") (js "select $1"); FBind [] (js "s1") [{| format := 0; pbytes := Some (js "x") |}] 0; FSync].

Lemma write_batch_refines_build_witness : exists bs w',
  concatM build demo_batch = Ok bs /\ forM demo_batch (@write zero_alloc) (@Writer.new zero_alloc 4) = (w', Ok tt)
  /\ contents w' = bs.
Proof.
  destruct (@write_batch_refines_build zero_alloc 4 demo_batch (match concatM build demo_batch with Ok b => b | _ => [] end))
    as (w' & E & C).
  - lia.
  - repeat constructor.
  - vm_compute. reflexivity.
  - eexists _, w'. split; [|split; [exact E|exact C]]. vm_compute. reflexivity.
Defined.

(** With a per-value encoder that keeps its contract, the write-through Bind
    (format slots reserved, then back-patched one by one) puts on the wire exactly
    the message the two-pass builder makes from the encoded parameters. *)
Theorem writeBindWith_eq_bind `{LawfulEncoder V enc} portal st params ps rf bs w :
  encodes_from 0 params ps -> W.bind portal st ps rf = Ok bs -> wf w ->
  exists w', writeBindWith portal st params enc (OneFormat rf) w = (w', Ok tt) /\ wf w' /\ contents w' = contents w ++ bs.
Proof.
  intros Ha (r & Er & E)%bind_is_bind_message Hw.
  destruct (writeBindWith_emits _ _ _ _ _ _ _ Ha (one_format_writes _ _ Er) E w Hw) as (s & w' & E' & Hw' & C & _). eauto.
Qed.

Definition demo_params : list (option bytes) := [Some [1; 2]; None; Some [3]].

Lemma writeBindWith_eq_bind_witness : exists w',
  @writeBindWith zero_alloc _ [] (js "s1") demo_params raw_encoder (OneFormat 1) (@Writer.new zero_alloc 8) = (w', Ok tt).
Proof.
  destruct (@writeBindWith_eq_bind zero_alloc _ raw_encoder raw_lawful [] (js "s1") demo_params (raw_param <$> demo_params) 1
    (match W.bind [] (js "s1") (raw_param <$> demo_params) 1 with Ok b => b | _ => [] end)
    (@Writer.new zero_alloc 8)) as (w' & E & _).
  - repeat split.
  - vm_compute. reflexivity.
  - unfold wf. vm_compute. split; lia.
  - exists w'. exact E.
Defined.

(** The allocation-free digit loop writes any safe integer as [String(v)]:
    length prefix, optional sign, the same digits. *)
Theorem lpAsciiInt_eq_String `{Alloc} v w :
  - 9007199254740991 <= v <= 9007199254740991 -> wf w ->
  exists w', lpAsciiInt v w = (w', Ok tt) /\ wf w' /\ contents w' = contents w ++ be 4 (blen (show_Z v)) ++ show_Z v.
Proof. intros Hv Hw. destruct (lpAsciiInt_writes v Hv w Hw) as (w' & E & Hw' & C & _). eauto. Qed.

Lemma lpAsciiInt_eq_String_witness : exists w',
  @lpAsciiInt zero_alloc (-120) (@Writer.new zero_alloc 2) = (w', Ok tt) /\ contents w' = [0; 0; 0; 4; 45; 49; 50; 48].
Proof.
  destruct (@lpAsciiInt_eq_String zero_alloc (-120) (@Writer.new zero_alloc 2)) as (w' & E & _ & C).
  - lia.
  - unfold wf. vm_compute. split; lia.
  - exists w'. split; [exact E|]. rewrite C. vm_compute. reflexivity.
Defined.
