(* ===== verification/Parse.v ===== *)
(** * The read side: the incremental parser and the body decoders *)

From S2P Require Import Prelude Utf8 Buf Protocol.
Import Parser.

(** ** Slices of a buffer that may have more bytes after it *)

Lemma window_app_l n b c off : 0 <= off -> off + Z.of_nat n <= blen b -> window n (b ++ c) off = window n b off.
Proof.
  intros Ho Hb. unfold window. rewrite blen_app. pose proof (blen_nonneg c). zif. zif.
  unfold blen in *. rewrite drop_app_le by lia. rewrite take_app_le by (rewrite length_drop; lia). done.
Qed.

Lemma readInt32BE_app_l b c off : 0 <= off -> off + 4 <= blen b -> readInt32BE (b ++ c) off = readInt32BE b off.
Proof. intros. unfold readInt32BE, readIntBE, readUIntBE. by rewrite window_app_l by lia. Qed.

Lemma subarray_in b start stop : 0 <= start <= stop -> stop <= blen b ->
  subarray b start stop = take (Z.to_nat (stop - start)) (drop (Z.to_nat start) b).
Proof. intros. unfold subarray, rel_index. zif. zif. rewrite !Z.min_l by lia. done. Qed.

Lemma subarray_to_end b start : 0 <= start <= blen b -> subarray b start (blen b) = drop (Z.to_nat start) b.
Proof. intros. rewrite subarray_in by lia. apply take_ge. rewrite length_drop. unfold blen in *. lia. Qed.

Lemma subarray_app_l b c start stop : 0 <= start <= stop -> stop <= blen b ->
  subarray (b ++ c) start stop = subarray b start stop.
Proof.
  intros. rewrite !subarray_in; rewrite ?blen_app; pose proof (blen_nonneg c); try lia.
  unfold blen in *. rewrite drop_app_le by lia. rewrite take_app_le by (rewrite length_drop; lia). done.
Qed.

Lemma subarray_app_to_end b c start : 0 <= start <= blen b ->
  subarray (b ++ c) start (blen (b ++ c)) = subarray b start (blen b) ++ c.
Proof.
  intros. rewrite !subarray_to_end by (rewrite ?blen_app; pose proof (blen_nonneg c); lia).
  apply drop_app_le. unfold blen in *. lia.
Qed.

(** ** [push] *)

Lemma push_loop_step f b out : 5 <= blen b -> push_loop (S f) b out =
  (len ← readInt32BE b 1;
   if len <? 4 then Throw (invalid_length len)
   else if blen b <? len + 1 then Ok (out, b)
   else push_loop f (subarray b (len + 1) (blen b)) (out ++ [mkMsg (nth 0 b 0) (subarray b 5 (len + 1))])).
Proof. intros. cbn [push_loop]. by zif. Qed.

Lemma push_loop_short f b out : blen b < 5 -> push_loop f b out = Ok (out, b).
Proof. intros. destruct f; cbn [push_loop]; by zif. Qed.

Lemma read_header b : 5 <= blen b -> exists len, readInt32BE b 1 = Ok len.
Proof. intros. unfold readInt32BE, readIntBE, readUIntBE, window. zif. simpl. eauto. Qed.

(** Enough rounds: one per byte, since each consumes at least five. *)
Lemma push_loop_total f b out : (length b <= f)%nat -> push_loop f b out <> NoFuel.
Proof.
  revert b out. induction f as [|f IH]; intros b out Hf.
  { rewrite push_loop_short by (unfold blen; lia). done. }
  destruct (Z.ltb_spec (blen b) 5); [by rewrite push_loop_short|].
  rewrite push_loop_step by done. destruct (read_header b) as [len ->]; [done|]. simpl.
  destruct (Z.ltb_spec len 4); [done|]. destruct (Z.ltb_spec (blen b) (len + 1)); [done|].
  apply IH. rewrite subarray_to_end by lia. rewrite length_drop. unfold blen in *. lia.
Qed.

Lemma push_loop_fuel f g b out : (length b <= f)%nat -> (length b <= g)%nat -> push_loop f b out = push_loop g b out.
Proof.
  revert g b out. induction f as [|f IH]; intros g b out Hf Hg.
  { rewrite !push_loop_short by (unfold blen; lia). done. }
  destruct (Z.ltb_spec (blen b) 5); [by rewrite !push_loop_short|].
  destruct g as [|g]; [unfold blen in *; lia|]. rewrite !push_loop_step by done.
  destruct (read_header b) as [len ->]; [done|]. simpl.
  destruct (Z.ltb_spec len 4); [done|]. destruct (Z.ltb_spec (blen b) (len + 1)); [done|].
  apply IH; rewrite subarray_to_end, length_drop by lia; unfold blen in *; lia.
Qed.

Lemma push_loop_rest f b out out' rest : push_loop f b out = Ok (out', rest) -> (length rest <= length b)%nat.
Proof.
  revert b out. induction f as [|f IH]; intros b out.
  { cbn [push_loop]. destruct (blen b <? 5); [|done]. by intros [= _ <-]. }
  destruct (Z.ltb_spec (blen b) 5); [rewrite push_loop_short by done; by intros [= _ <-]|].
  rewrite push_loop_step by done. destruct (read_header b) as [len ->]; [done|]. simpl.
  destruct (Z.ltb_spec len 4); [done|]. destruct (Z.ltb_spec (blen b) (len + 1)); [by intros [= _ <-]|].
  intros E%IH. rewrite subarray_to_end, length_drop in E by lia. lia.
Qed.

(** More bytes after [b] do not change what the rounds on [b] did. *)
Lemma push_loop_app f g b c out r :
  (length (b ++ c) <= g)%nat -> push_loop f b out = r ->
  match r with
  | Ok (out', rest) => push_loop g (b ++ c) out = push_loop g (rest ++ c) out'
  | Throw e => push_loop g (b ++ c) out = Throw e
  | NoFuel => True
  end.
Proof.
  intros Hg <-. revert g b out Hg. induction f as [|f IH]; intros g b out Hg.
  { cbn [push_loop]. by destruct (blen b <? 5). }
  destruct (Z.ltb_spec (blen b) 5); [by rewrite push_loop_short|].
  rewrite push_loop_step by done. destruct (read_header b) as [len E]; [done|]. rewrite E. simpl.
  destruct g as [|g]; [rewrite length_app in Hg; unfold blen in *; lia|].
  assert (5 <= blen (b ++ c)) by (rewrite blen_app; pose proof (blen_nonneg c); lia).
  assert (readInt32BE (b ++ c) 1 = Ok len) as E' by (rewrite readInt32BE_app_l by lia; done).
  destruct (Z.ltb_spec len 4).
  { rewrite push_loop_step, E' by done. simpl. by zif. }
  destruct (Z.ltb_spec (blen b) (len + 1)); [done|].
  set (b' := subarray b (len + 1) (blen b)). set (out' := out ++ _).
  assert (length b' = length b - Z.to_nat (len + 1))%nat as Lb.
  { unfold b'. rewrite subarray_to_end, length_drop by lia. done. }
  assert (push_loop (S g) (b ++ c) out = push_loop g (b' ++ c) out') as Estep.
  { rewrite push_loop_step, E' by done. simpl. zif.
    replace (blen (b ++ c) <? len + 1) with false by (symmetry; rewrite blen_app; pose proof (blen_nonneg c); lia).
    rewrite subarray_app_to_end, subarray_app_l by lia. unfold b', out'. do 4 f_equal. by destruct b. }
  specialize (IH g b' out'). rewrite length_app in Hg, IH.
  specialize (IH ltac:(unfold blen in *; lia)). rewrite Estep.
  destruct (push_loop f b' out') as [[out2 rest]|e|] eqn:Er; try done. rewrite IH.
  apply push_loop_rest in Er. apply push_loop_fuel; rewrite length_app; unfold blen in *; lia.
Qed.

Lemma push_loop_out f b out :
  push_loop f b out = (fun '(ms, r) => (out ++ ms, r)) <$> push_loop f b [].
Proof.
  revert b out. induction f as [|f IH]; intros b out; destruct (Z.ltb_spec (blen b) 5).
  1,3: rewrite !push_loop_short by done; simpl; by rewrite app_nil_r.
  { cbn [push_loop]. by zif. }
  rewrite !push_loop_step by done. destruct (read_header b) as [len ->]; [done|]. simpl.
  destruct (len <? 4); [done|]. destruct (blen b <? len + 1); [simpl; by rewrite app_nil_r|].
  rewrite IH, (IH _ [_]). destruct (push_loop f _ []) as [[ms r]|e|]; simpl; [|done..].
  by rewrite <- app_assoc.
Qed.

(** Successive socket chunks, as the connection feeds them. *)
Fixpoint feed (chunks : list bytes) : M bytes (list RawMessage) :=
  match chunks with
  | [] => mret []
  | c :: t => a ← push c; b ← feed t; mret (a ++ b)
  end.

(** The outcome of [push] without the buffer left by a throw. *)
Definition outcome {S A} (r : S * res A) : res (S * A) :=
  match r.2 with Ok a => Ok (r.1, a) | Throw e => Throw e | NoFuel => NoFuel end.

Lemma outcome_push chunk b : outcome (push chunk b) =
  (fun '(ms, r) => (r, ms)) <$> push_loop (length (b ++ chunk)) (b ++ chunk) [].
Proof. unfold push, outcome. by destruct (push_loop _ _ []) as [[]| |]. Qed.

Lemma feed_push c cs b : outcome (feed (c :: cs) b) = outcome (push (c ++ concat cs) b).
Proof.
  revert c b. induction cs as [|c' cs IH]; intros c b.
  - rewrite outcome_push. simpl. rewrite app_nil_r. unfold mbind, M_bind, push.
    destruct (push_loop _ _ []) as [[ms r]| |]; simpl; [|done..]. unfold outcome; simpl. by rewrite app_nil_r.
  - rewrite outcome_push. cbn [feed concat]. unfold mbind at 1, M_bind at 1, push at 1.
    set (b1 := b ++ c). set (rest := c' ++ concat cs).
    pose proof (push_loop_app (length b1) (length (b1 ++ rest)) b1 rest [] _ (le_n _) eq_refl) as P.
    replace (b ++ c ++ rest) with (b1 ++ rest) by (unfold b1; by rewrite <- app_assoc).
    destruct (push_loop (length b1) b1 []) as [[ms1 r1]|e|] eqn:E1.
    + rewrite P, push_loop_out. apply push_loop_rest in E1.
      rewrite (push_loop_fuel _ (length (r1 ++ rest))) by (rewrite !length_app; lia).
      specialize (IH c' r1). rewrite outcome_push in IH. fold rest in IH.
      change (outcome (mbind (fun k => mret (ms1 ++ k)) (feed (c' :: cs)) r1) =
        (fun '(ms, r) => (r, ms)) <$> ((fun '(ms, r) => (ms1 ++ ms, r)) <$> push_loop (length (r1 ++ rest)) (r1 ++ rest) [])).
      unfold outcome, mbind, M_bind in *. destruct (feed (c' :: cs) r1) as [s [k|e|]]; simpl in *;
        destruct (push_loop _ (r1 ++ rest) []) as [[]| |]; simpl in *; try done; congruence.
    + by rewrite P.
    + by apply push_loop_total in E1.
Qed.

(** ** Frames *)

Definition frame_bytes (m : RawMessage) : bytes := mtype m :: be 4 (blen (mbody m) + 4) ++ mbody m.
#[global] Arguments frame_bytes : simpl never.
Definition wf_msg (m : RawMessage) : Prop := blen (mbody m) + 4 <= 2147483647.

(** Not a whole message: no header yet, or a body still on its way. *)
Definition incomplete (b : bytes) : Prop :=
  blen b < 5 \/ exists len, readInt32BE b 1 = Ok len /\ 4 <= len /\ blen b < len + 1.

Lemma push_loop_incomplete f b out : incomplete b -> (length b <= f)%nat -> push_loop f b out = Ok (out, b).
Proof.
  intros Hi Hf. destruct (Z.ltb_spec (blen b) 5); [by apply push_loop_short|].
  destruct Hi as [?|(len & E & ? & ?)]; [lia|]. destruct f as [|f]; [unfold blen in *; lia|].
  rewrite push_loop_step, E by done. simpl. zif. by zif.
Qed.

Lemma push_loop_frame f m rest out : wf_msg m -> (length (frame_bytes m ++ rest) <= S f)%nat ->
  push_loop (S f) (frame_bytes m ++ rest) out = push_loop f rest (out ++ [m]).
Proof.
  intros Hm Hf. unfold wf_msg in Hm. pose proof (blen_nonneg (mbody m)). pose proof (blen_nonneg rest).
  assert (blen (frame_bytes m ++ rest) = 5 + blen (mbody m) + blen rest) as Lb
    by (unfold frame_bytes; autorewrite with minipg; lia).
  rewrite push_loop_step by lia.
  assert (readInt32BE (frame_bytes m ++ rest) 1 = Ok (blen (mbody m) + 4)) as ->.
  { unfold frame_bytes. change 1 with (blen [mtype m]). cbn [app]. rewrite <- ?app_assoc.
    apply (readInt32BE_app [mtype m]). lia. }
  cbn [mbind res_bind]. zif. replace (blen (frame_bytes m ++ rest) <? blen (mbody m) + 4 + 1) with false by (symmetry; lia).
  assert (frame_bytes m ++ rest = (mtype m :: be 4 (blen (mbody m) + 4)) ++ mbody m ++ rest) as Es
    by (unfold frame_bytes; simpl; by rewrite <- ?app_assoc).
  assert (subarray (frame_bytes m ++ rest) (blen (mbody m) + 4 + 1) (blen (frame_bytes m ++ rest)) = rest) as ->.
  { rewrite subarray_to_end by lia. apply drop_app_exact. unfold frame_bytes. len. unfold blen. lia. }
  assert (subarray (frame_bytes m ++ rest) 5 (blen (mbody m) + 4 + 1) = mbody m) as ->.
  { rewrite Es. replace 5 with (blen (mtype m :: be 4 (blen (mbody m) + 4))) by (autorewrite with minipg; lia).
    replace (blen (mbody m) + 4 + 1) with (blen (mtype m :: be 4 (blen (mbody m) + 4)) + blen (mbody m))
      by (autorewrite with minipg; lia).
    apply subarray_app. }
  by destruct m.
Qed.

Lemma push_loop_frames f ms rest out :
  Forall wf_msg ms -> incomplete rest -> (length (concat (frame_bytes <$> ms) ++ rest) <= f)%nat ->
  push_loop f (concat (frame_bytes <$> ms) ++ rest) out = Ok (out ++ ms, rest).
Proof.
  intros Hms Hr. revert f out. induction Hms as [|m ms Hm _ IH]; intros f out Hf.
  - cbn [concat fmap list_fmap app] in *. rewrite app_nil_r. by apply push_loop_incomplete.
  - rewrite fmap_cons in *. cbn [concat] in *. rewrite <- app_assoc in *.
    destruct f as [|f]; [unfold frame_bytes in Hf; simpl in Hf; lia|].
    rewrite push_loop_frame by done. rewrite IH; [by rewrite <- app_assoc|].
    assert (0 < length (frame_bytes m))%nat by (unfold frame_bytes; simpl; lia).
    rewrite length_app in Hf. lia.
Qed.

(** ** Message bodies, as the server lays them out *)

Definition field_bytes (f : Field) : bytes :=
  utf8 (fname f) ++ [0] ++ be 4 (tableOid f) ++ be 2 (columnId f) ++ be 4 (dataTypeOid f)
  ++ be 2 (dataTypeSize f) ++ be 4 (typeModifier f) ++ be 2 (fformat f).

Definition wf_field (f : Field) : Prop :=
  usv (fname f) = true /\ Forall (fun c => 0 < c < 65536) (fname f) /\
  i32_range (tableOid f) /\ i16_range (columnId f) /\ i32_range (dataTypeOid f) /\
  i16_range (dataTypeSize f) /\ i32_range (typeModifier f) /\ i16_range (fformat f).

Definition row_description (fs : list Field) : bytes :=
  be 2 (Z.of_nat (length fs)) ++ concat (field_bytes <$> fs).

Definition cell_bytes (c : option bytes) : bytes :=
  match c with None => be 4 (-1) | Some b => be 4 (blen b) ++ b end.
Definition wf_cell (c : option bytes) : Prop :=
  match c with None => True | Some b => blen b <= 2147483647 end.
Definition data_row (cs : list (option bytes)) : bytes :=
  be 2 (Z.of_nat (length cs)) ++ concat (cell_bytes <$> cs).

Lemma cells_loop_spec cs b o post : Forall wf_cell cs ->
  rest_at b o (concat (cell_bytes <$> cs) ++ post) -> cells_loop (length cs) b o = Ok cs.
Proof.
  intros Hcs. revert o. induction Hcs as [|c cs Hc _ IH]; intros o Hb; [done|].
  rewrite fmap_cons in Hb. cbn [concat] in Hb. cbn [length cells_loop].
  rewrite <- app_assoc in Hb. destruct c as [x|]; cbn [cell_bytes wf_cell] in Hc, Hb.
  - rewrite <- app_assoc in Hb. pose proof (blen_nonneg x).
    apply rest_at_i32 in Hb as [-> Hb]; [|unfold i32_range; lia]. cbn [mbind res_bind]. zif.
    rewrite (rest_at_sub _ _ _ _ Hb). apply rest_at_app in Hb. by rewrite (IH _ Hb).
  - apply rest_at_i32 in Hb as [-> Hb]; [|unfold i32_range; lia]. cbn [mbind res_bind]. by rewrite (IH _ Hb).
Qed.

Lemma rest_at_cstr b o s r : rest_at b o (s ++ 0 :: r) -> Forall (fun x => x <> 0) s ->
  cstr_end b o = Some (o + blen s) /\ rest_at b (o + blen s + 1) r.
Proof.
  intros H Hs. destruct (rest_at_nul _ _ _ _ H Hs) as [E R]. split; [|done]. unfold cstr_end. rewrite E.
  destruct H as (Ho & _). pose proof (blen_nonneg s). by zif.
Qed.

(** Consume the next integer of a [rest_at] hypothesis. *)
Ltac next_int H :=
  first [ apply rest_at_i32 in H as [-> H]; [|assumption] | apply rest_at_i16 in H as [-> H]; [|assumption] ]; cbn [mbind res_bind].

Lemma fields_loop_spec fs b o post : Forall wf_field fs ->
  rest_at b o (concat (field_bytes <$> fs) ++ post) -> fields_loop (length fs) b o = Ok fs.
Proof.
  intros Hfs. revert o. induction Hfs as [|f fs Hf _ IH]; intros o Hb; [done|].
  rewrite fmap_cons in Hb. cbn [concat] in Hb. cbn [length fields_loop].
  destruct Hf as (Hu & Hn & H1 & H2 & H3 & H4 & H5 & H6). pose proof (utf8_no_nul _ Hn) as Hnul.
  unfold field_bytes at 1 in Hb. rewrite <- !app_assoc in Hb. cbn [app] in Hb.
  pose proof (rest_at_sub _ _ _ _ Hb) as Hs.
  apply rest_at_cstr in Hb as [-> Hb]; [|done]. rewrite Hs, utf8_roundtrip by done.
  set (p := o + blen (utf8 (fname f)) + 1) in *. clearbody p. clear Hs.
  next_int Hb. next_int Hb.
  replace (p + 4 + 2) with (p + 6) in Hb by lia. next_int Hb.
  replace (p + 6 + 4) with (p + 10) in Hb by lia. next_int Hb.
  replace (p + 10 + 2) with (p + 12) in Hb by lia. next_int Hb.
  replace (p + 12 + 4) with (p + 16) in Hb by lia. next_int Hb.
  replace (p + 16 + 2) with (p + 18) in Hb by lia. rewrite (IH _ Hb). by destruct f.
Qed.

(** ** Properties *)


(** From an empty parser, a stream of whole messages cut anywhere comes back
    as those messages in order, and an unfinished message at its end stays
    buffered. *)
Theorem push_frames c cs ms rest :
  Forall wf_msg ms -> incomplete rest -> concat (c :: cs) = concat (frame_bytes <$> ms) ++ rest ->
  feed (c :: cs) [] = (rest, Ok ms).
Proof.
  intros Hms Hr E. pose proof (feed_push c cs []) as P. change (c ++ concat cs) with (concat (c :: cs)) in P.
  rewrite E, outcome_push, app_nil_l, push_loop_frames in P by done.
  cbn [fmap res_fmap app] in P.
  unfold outcome in P.
  destruct (feed (c :: cs) []) as [s [k|e|]]; cbn [fst snd] in P; congruence.
Qed.

Lemma push_frames_witness :
  feed [[90; 0; 0]; [0; 5; 73; 67; 0; 0; 0]; [4; 68; 0]] []
  = ([68; 0], Ok [mkMsg 90 [73]; mkMsg 67 []]).
Proof.
  apply (push_frames _ _ [mkMsg 90 [73]; mkMsg 67 []] [68; 0]).
  - repeat constructor; vm_compute; discriminate.
  - left. vm_compute. reflexivity.
  - vm_compute. reflexivity.
Defined.

(** A DataRow body gives back its cells: NULL as null, any other cell as its
    exact bytes, empty ones included. *)
Theorem parseDataRow_data_row cs :
  Z.of_nat (length cs) <= 32767 -> Forall wf_cell cs -> parseDataRow (data_row cs) = Ok cs.
Proof.
  intros Hn Hcs. unfold parseDataRow, data_row.
  destruct (rest_at_i16 (data_row cs) 0 (Z.of_nat (length cs)) _ (rest_at_0 _)) as [E R]; [unfold i16_range; lia|].
  unfold data_row in *. rewrite E. cbn [mbind res_bind]. unfold new_array. zif. cbn [mbind res_bind].
  rewrite Nat2Z.id. apply (cells_loop_spec _ _ _ []); [done|]. by rewrite app_nil_r.
Qed.

Lemma parseDataRow_data_row_witness :
  parseDataRow (data_row [Some [52; 50]; None; Some []]) = Ok [Some [52; 50]; None; Some []].
Proof. apply parseDataRow_data_row; [vm_compute; discriminate|repeat constructor; vm_compute; discriminate]. Defined.

(** A RowDescription body gives back its field descriptors: names through
    UTF-8, signed 16- and 32-bit numbers at their offsets. *)
Theorem parseRowDescription_row_description fs :
  Z.of_nat (length fs) <= 32767 -> Forall wf_field fs -> parseRowDescription (row_description fs) = Ok fs.
Proof.
  intros Hn Hfs. unfold parseRowDescription.
  destruct (rest_at_i16 (row_description fs) 0 (Z.of_nat (length fs)) _ (rest_at_0 _)) as [E R]; [unfold i16_range; lia|].
  rewrite E. cbn [mbind res_bind]. rewrite Nat2Z.id. apply (fields_loop_spec _ _ _ []); [done|]. by rewrite app_nil_r.
Qed.

Definition demo_field : Field := mkField [105; 100; 233] 16384 1 23 4 (-1) 0.

Lemma parseRowDescription_row_description_witness :
  parseRowDescription (row_description [demo_field]) = Ok [demo_field].
Proof.
  apply parseRowDescription_row_description; [vm_compute; discriminate|].
  repeat constructor; vm_compute; discriminate.
Defined.
