(* ===== verification/CopyPump.v ===== *)
(** * COPY FROM STDIN: the pump (src/connection.ts, pumpCopy and writeRaw)

    The source's chunks go out as CopyData frames, small chunks coalesced through the Writer into frames of at
    least [CHUNK] bytes, with the socket's backpressure between them; then CopyDone, or CopyFail when the task
    ended first or the source threw. What each await gives is an argument: [pull] for the race of the source's
    next chunk against stopCopy(), [net] for a write to the socket. *)

From S2P Require Import Prelude Utf8 Buf Num Protocol Framing Messages.
Import Writer.

Inductive chunk := CString (s : jstr) | CBuffer (b : bytes).
Definition chunk_bytes (c : chunk) : bytes := match c with CString s => utf8 s | CBuffer b => b end.
(** What the race gives, with [down]: whether the task is settled, in error or cancelled when it is looked at.
    [Stopped]: stopCopy(), or the task is settled before the source is asked; [Throws]: the source rejects with
    an error of this message. *)
Inductive pull := Stopped | Chunk (c : chunk) (down : bool) | Done (down : bool) | Throws (message : jstr).
(** A write to the socket: taken (at once or after 'drain'); taken, and the socket closed before 'drain' (the
    message of the rejection); no socket. *)
Inductive net := Taken | Lost (message : jstr) | NoSocket.

(** [p_out]: the writes to the socket. [p_returned]: the source's return() was called. *)
Record pump := mkPump { p_w : writer; p_open : bool; p_net : list net; p_out : list bytes; p_returned : bool }.
Definition with_w (w : writer) (p : pump) : pump := mkPump w (p_open p) (p_net p) (p_out p) (p_returned p).
Definition with_open (o : bool) (p : pump) : pump := mkPump (p_w p) o (p_net p) (p_out p) (p_returned p).
Definition with_returned (p : pump) : pump := mkPump (p_w p) (p_open p) (p_net p) (p_out p) true.

Definition CHUNK : Z := Z.shiftl 1 18.

Section Pump.
Context `{Alloc}.

Definition wr (m : M writer unit) : M pump unit := fun p => let '(w, r) := m (p_w p) in (with_w w p, r).
Definition setOpen (o : bool) : M pump unit := modify (with_open o).

Definition writeRaw (bs : bytes) : M pump unit := fun p =>
  let n := match p_net p with [] => Taken | n :: _ => n end in
  let p' l := mkPump (p_w p) (p_open p) (tail (p_net p)) l (p_returned p) in
  match n with
  | Taken => (p' (p_out p ++ [bs]), Ok tt)
  | Lost m => (p' (p_out p ++ [bs]), Throw (Error m))
  | NoSocket => (p' (p_out p), Throw (Error (js "connection is closed")))
  end.
(** if (open) { w.end(); open = false } *)
Definition close_frame : M pump unit := o ← gets p_open; if o : bool then _ ← wr end_; setOpen false else mret tt.
Definition flush : M pump unit :=
  _ ← close_frame;
  w ← gets p_w;
  if (off w =? 0)%nat then mret tt
  else _ ← wr Writer.reset; writeRaw (contents w).
(** w.start('d'), unless a frame is open; w.bytes(buf); flush() once there is enough *)
Definition add (b : bytes) : M pump unit :=
  o ← gets p_open;
  _ ← (if o : bool then mret tt else _ ← wr (start (js "d")); setOpen true);
  _ ← wr (bytes_ b);
  w ← gets p_w;
  if CHUNK <=? Z.of_nat (off w) then flush else mret tt.
(** The loop: whether it was left because the task is over. *)
Fixpoint pump_loop (pulls : list pull) : M pump bool :=
  match pulls with
  | [] => lift NoFuel
  | Stopped :: _ | Chunk _ true :: _ | Done true :: _ => _ ← modify with_returned; mret true
  | Done false :: _ => mret false
  | Throws m :: _ => throw (Error m)
  | Chunk c false :: pulls =>
    match chunk_bytes c with
    | [] => pump_loop pulls
    | b => _ ← add b; pump_loop pulls
    end
  end.
Definition finish (over : bool) : M pump unit :=
  _ ← (if over then
         _ ← wr Writer.reset; _ ← setOpen false;
         wr (_ ← start (js "f"); _ ← cstr (js "COPY aborted by client"); end_)
       else _ ← close_frame; wr (_ ← start (js "c"); end_));
  flush.
(** this.socket?.write(W.copyFail(...)), whose failure is dropped *)
Definition copy_failed (reason : jstr) : M pump unit := fun p =>
  match W.copyFail (js "COPY aborted: " ++ reason) with
  | Ok bs => ((writeRaw bs (with_returned p)).1, Ok tt)
  | _ => (with_returned p, Ok tt)
  end.
(** e instanceof Error ? e.message : String(e); [described]: the runtime's messages of its own errors. *)
Context (described : exn -> jstr).
Definition message_of (e : exn) : jstr := match e with Error m | TypeError m => m | e => described e end.
Definition pumpCopy (pulls : list pull) : M pump unit := fun p =>
  match (over ← pump_loop pulls; finish over) p with
  | (p, Throw e) => copy_failed (message_of e) p
  | r => r
  end.
Definition new_pump (network : list net) : pump := mkPump (Writer.new (Z.to_nat (CHUNK + 4096))) false network [] false.
End Pump.

(** ** What reaches the server *)

Definition cframe (t : Z) (payload : bytes) : bytes := [t] ++ be 4 (blen payload + 4) ++ payload.
Definition frames (ps : list bytes) : bytes := concat (cframe 100 <$> ps).
Definition aborted : bytes := cframe 102 (Protocol.cstr (js "COPY aborted by client")).
(** How the COPY ends for each way its source ends. *)
Definition terminator (last : pull) : res bytes :=
  match last with
  | Done false => Ok (cframe 99 [])
  | Throws m => W.copyFail (js "COPY aborted: " ++ m)
  | Chunk _ false => NoFuel
  | _ => Ok aborted
  end.

Section Correct.
Context `{Alloc}.

Lemma CHUNK_Z : CHUNK = 262144.
Proof. done. Qed.

(** [ps] sent as frames, [q] in the open frame, below the limit [L]. *)
Definition holds (L : Z) (ps : list bytes) (q : bytes) (p : pump) : Prop :=
  wf (p_w p) /\ concat (p_out p) = frames ps /\ p_returned p = false /\ Forall (fun x => x <> []) ps /\
  if p_open p then (exists junk, contents (p_w p) = [100] ++ junk ++ q /\ length junk = 4%nat) /\ msgStart (p_w p) = 1%nat /\ q <> [] /\ blen q < L
  else contents (p_w p) = [] /\ q = [].
(** [m] succeeds in such a state, or fails because of the network. *)
Definition ends (m : M pump unit) (p : pump) (P : pump -> Prop) : Prop :=
  exists p', (p_net p = [] -> p_net p' = []) /\ ((m p = (p', Ok tt) /\ P p') \/ (p_net p <> [] /\ exists e, m p = (p', Throw (Error e)))).
Lemma ends_bind m (f : unit -> M pump unit) p P Q : ends m p P -> (forall p', P p' -> ends (f tt) p' Q) -> ends (m ≫= f) p Q.
Proof.
  intros (p1 & N1 & [[E1 H1]|[Hn [e E1]]]) Hf.
  - destruct (Hf p1 H1) as (p2 & N2 & [[E2 H2]|[Hn [e E2]]]); exists p2; (split; [auto|]); rewrite (bind_Ok _ _ _ _ _ E1); [by left|].
    right. split; [|by exists e]. intros Hp. apply Hn. auto.
  - exists p1. split; [done|]. right. split; [done|]. exists e. cbn. unfold mbind, M_bind. by rewrite E1.
Qed.
Lemma ends_wr m p w P : m (p_w p) = (w, Ok tt) -> P (with_w w p) -> ends (wr m) p P.
Proof. intros E HP. exists (with_w w p). split; [done|]. left. unfold wr. by rewrite E. Qed.
Lemma ends_write bs p P : P (mkPump (p_w p) (p_open p) (tail (p_net p)) (p_out p ++ [bs]) (p_returned p)) -> ends (writeRaw bs) p P.
Proof.
  intros HP. unfold ends, writeRaw. destruct (p_net p) as [|[|m|] l] eqn:E; cbn [tail] in *; eexists; (split; [|first [by left|right; split; [done|by eexists]]]); done.
Qed.
Lemma ends_ret p (P : pump -> Prop) : P p -> ends (mret tt) p P.
Proof. intros HP. exists p. split; [done|by left]. Qed.
Lemma ends_gets {A} (f : pump -> A) (k : A -> M pump unit) p P : ends (k (f p)) p P -> ends (gets f ≫= k) p P.
Proof. done. Qed.
Lemma ends_weaken m p P Q : ends m p P -> (forall p', P p' -> Q p') -> ends m p Q.
Proof. intros (p' & N & [[E HP]|HE]) HQ; exists p'; (split; [done|]); [left; auto|by right]. Qed.
Lemma ends_writes m b p P : writes m b -> wf (p_w p) ->
  (forall w, wf w -> contents w = contents (p_w p) ++ b -> msgStart w = msgStart (p_w p) -> P (with_w w p)) -> ends (wr m) p P.
Proof. intros Hm Hw HP. destruct (Hm _ Hw) as (w & E & Hw' & C & S). apply (ends_wr m p w); auto. Qed.
Lemma ends_emits m b p P : emits m b -> wf (p_w p) -> (forall w, wf w -> contents w = contents (p_w p) ++ b -> P (with_w w p)) -> ends (wr m) p P.
Proof. intros Hm Hw HP. destruct (Hm _ Hw) as (s & w & E & Hw' & C & S). apply (ends_wr m p w); auto. Qed.

(** The Writer holds [x], and no frame is open. *)
Definition shut (x : bytes) (out : bytes) (ret : bool) (p : pump) : Prop :=
  wf (p_w p) /\ p_open p = false /\ contents (p_w p) = x /\ concat (p_out p) = out /\ p_returned p = ret.
Definition whole (q : bytes) : bytes := match q with [] => [] | _ => cframe 100 q end.
Lemma frames_snoc ps q : frames ps ++ whole q = frames (ps ++ match q with [] => [] | _ => [q] end).
Proof. unfold frames, whole. destruct q; [by rewrite !app_nil_r|]. rewrite fmap_app, concat_app. cbn [fmap list_fmap concat]. by rewrite app_nil_r. Qed.

Lemma close_frame_ends L ps q p : L <= 2 ^ 30 + 262145 -> holds L ps q p -> ends close_frame p (shut (whole q) (frames ps) false).
Proof.
  intros HL (Hw & Ho & Hr & _ & Hq). apply ends_gets. destruct (p_open p) eqn:E; [|by destruct Hq as [Hc ->]; apply ends_ret].
  destruct Hq as ((junk & Hc & Hj) & Hs & Hn & Hl). pose proof CHUNK_Z.
  destruct (closes_end (p_w p) [100] junk q) as (w & Ew & Hw' & C); [done|by rewrite Hc|done|done|rewrite app_nil_r; lia|].
  apply (ends_bind _ _ _ (fun p' => p' = with_w w p)); [by apply (ends_wr _ _ w)|]. intros p' ->.
  exists (with_open false (with_w w p)). split; [done|left]. split; [done|]. rewrite app_nil_r in C. clear Hl. unfold shut, whole. by destruct q.
Qed.
Lemma flush_shut x out ret p : shut x out ret p ->
  ends (w ← gets p_w; if (off w =? 0)%nat then mret tt else _ ← wr Writer.reset; writeRaw (contents w)) p (shut [] (out ++ x) ret).
Proof.
  intros (Hw & Ho & Hc & Hu & Hr). apply ends_gets. pose proof (length_contents _ Hw) as Hl. rewrite Hc in Hl.
  destruct (Nat.eqb_spec (off (p_w p)) 0) as [E|E].
  - apply ends_ret. destruct x; [|cbn in Hl; lia]. by rewrite app_nil_r.
  - set (w := mkWriter (buf (p_w p)) 0 (msgStart (p_w p))). apply (ends_bind _ _ _ (fun p' => p' = with_w w p)); [by apply (ends_wr _ _ w)|].
    intros p' ->. apply ends_write. repeat split; cbn; try done; [apply Hw|lia|]. rewrite concat_app, Hu. cbn [concat]. by rewrite Hc, app_nil_r.
Qed.
Lemma flush_holds L ps q p : L <= 2 ^ 30 + 262145 -> holds L ps q p -> ends flush p (shut [] (frames ps ++ whole q) false).
Proof. intros HL Hh. eapply ends_bind; [by eapply close_frame_ends|]. intros p'. apply flush_shut. Qed.
Lemma flush_closed x out ret p : shut x out ret p -> ends flush p (shut [] (out ++ x) ret).
Proof.
  intros Hs. apply (ends_bind _ _ _ (shut x out ret)); [|intros p'; apply flush_shut]. apply ends_gets. pose proof Hs as (_ & -> & _). by apply ends_ret.
Qed.
Lemma shut_holds ps p : Forall (fun x => x <> []) ps -> shut [] (frames ps) false p -> holds CHUNK ps [] p.
Proof. intros Hf (Hw & Ho & Hc & Hu & Hr). unfold holds. by rewrite Ho. Qed.

(** A chunk is added: what is framed and what is pending grow by it. *)
Definition adds (d : bytes) (p : pump) : Prop := exists ps q, holds CHUNK ps q p /\ concat ps ++ q = d.
Lemma add_ends d b p : adds d p -> b <> [] -> blen b <= 2 ^ 30 -> ends (add b) p (adds (d ++ b)).
Proof.
  intros (ps & q & (Hw & Ho & Hr & Hf & Hq) & Hd) Hb Hl. pose proof CHUNK_Z. apply ends_gets.
  apply (ends_bind _ _ _ (fun p' => wf (p_w p') /\ concat (p_out p') = frames ps /\ p_returned p' = false /\ p_open p' = true
    /\ (exists junk, contents (p_w p') = [100] ++ junk ++ q /\ length junk = 4%nat) /\ msgStart (p_w p') = 1%nat /\ blen q < CHUNK)).
  { destruct (p_open p) eqn:E; [apply ends_ret; by destruct Hq as (? & ? & ? & ?)|]. destruct Hq as [Hc ->].
    destruct (start_spec 100 _ Hw) as (w & junk & E' & Hw' & Hj & C & S). rewrite Hc in C.
    apply (ends_bind _ _ _ (fun p' => p' = with_w w p)); [by apply (ends_wr _ _ w)|]. intros p' ->.
    exists (with_open true (with_w w p)). split; [done|left]. split; [done|]. cbn. split; [done|]. split; [done|]. split; [done|]. split; [done|].
    split; [exists junk; rewrite C, app_nil_r; by split; [rewrite Z.mod_small by lia|]|]. split; [|by rewrite CHUNK_Z]. rewrite S, <- (length_contents _ Hw), Hc. done. }
  clear p Hw Ho Hr Hq. intros p (Hw & Ho & Hr & Hp & (junk & Hc & Hj) & Hs & Hq).
  apply (ends_bind _ _ _ (fun p' => wf (p_w p') /\ concat (p_out p') = frames ps /\ p_returned p' = false /\ p_open p' = true
    /\ contents (p_w p') = [100] ++ junk ++ (q ++ b) /\ msgStart (p_w p') = 1%nat)).
  { apply (ends_writes _ b); [apply bytes_writes|done|]. intros w Hw' C S. cbn. split; [done|]. split; [done|]. split; [done|]. split; [done|].
    split; [by rewrite C, Hc, <- !app_assoc|by rewrite S]. }
  intros p' (Hw' & Ho' & Hr' & Hp' & Hc' & Hs'). assert (q ++ b <> []) as Hn by (by destruct q). clear p Hw Ho Hr Hp Hc Hs.
  assert (forall L, blen (q ++ b) < L -> holds L ps (q ++ b) p') as Hh by (intros L HL; unfold holds; rewrite Hp'; eauto 10).
  assert (Z.of_nat (off (p_w p')) = blen (q ++ b) + 5) as Eo.
  { rewrite <- (length_contents _ Hw'), Hc', !length_app, Hj. unfold blen. rewrite length_app. cbn [length]. lia. }
  apply ends_gets. destruct (Z.leb_spec CHUNK (Z.of_nat (off (p_w p')))).
  - apply (ends_weaken _ _ (shut [] (frames ps ++ whole (q ++ b)) false)).
    { apply (flush_holds (2 ^ 30 + 262145)); [lia|]. apply Hh. rewrite blen_app. lia. }
    intros p2 H2. exists (ps ++ [q ++ b]), []. rewrite frames_snoc in H2. destruct (q ++ b) as [|x l] eqn:Eb; [done|]. rewrite <- Eb in *.
    split; [apply shut_holds; [apply Forall_app; by repeat constructor|done]|]. rewrite concat_app. cbn [concat]. by rewrite !app_nil_r, app_assoc, Hd.
  - apply ends_ret. exists ps, (q ++ b). split; [apply Hh; lia|]. by rewrite app_assoc, Hd.
Qed.

(** ** The end of the copy *)

#[local] Opaque aborted.

Lemma finish_over ps p : wf (p_w p) -> concat (p_out p) = frames ps ->
  ends (finish true) p (fun p' => concat (p_out p') = frames ps ++ aborted /\ p_returned p' = p_returned p).
Proof.
  intros Hw Ho. set (w := mkWriter (buf (p_w p)) 0 (msgStart (p_w p))). set (r := p_returned p).
  apply (ends_bind _ _ _ (shut aborted (frames ps) r)); [|intros p' Hp; eapply ends_weaken; [by apply flush_closed|by intros ? (_ & _ & _ & ? & ?)]].
  apply (ends_bind _ _ _ (fun p' => p' = with_w w p)); [by apply (ends_wr _ _ w)|]. intros p' ->.
  apply (ends_bind _ _ _ (fun p' => p' = with_open false (with_w w p))); [by exists (with_open false (with_w w p)); split; [done|left]|]. intros p' ->.
  apply (ends_emits _ aborted).
  - apply (frame 102 (fun _ => _ ← cstr (js "COPY aborted by client"); end_) (Protocol.cstr (js "COPY aborted by client"))); [|done].
    rewrite <- (app_nil_r (Protocol.cstr _)). apply (closes_seq _ (fun _ => end_)); [apply cstr_writes|apply closes_end].
  - split; cbn; [apply Hw|lia].
  - intros w' Hw' C. split; [done|]. split; [done|]. split; [exact C|]. exact (conj Ho eq_refl).
Qed.
Lemma finish_done d p : adds d p ->
  ends (finish false) p (fun p' => exists ps, Forall (fun x => x <> []) ps /\ concat ps = d /\ concat (p_out p') = frames ps ++ cframe 99 [] /\ p_returned p' = false).
Proof.
  intros (ps & q & Hh & Hd). pose proof Hh as (_ & _ & _ & Hf & _). pose proof CHUNK_Z.
  apply (ends_bind _ _ _ (shut (whole q ++ cframe 99 []) (frames ps) false)).
  - apply (ends_bind _ _ _ (shut (whole q) (frames ps) false)); [by eapply close_frame_ends; [|done]; lia|].
    intros p' (Hw & Ho & Hc & Hu & Hr). apply (ends_emits _ (cframe 99 [])); [|done|].
    + apply (frame 99 (fun _ => end_) []); [apply closes_end|done].
    + intros w Hw' C. split; [done|]. split; [done|]. split; [|exact (conj Hu Hr)]. rewrite <- Hc. exact C.
  - intros p' Hp. eapply ends_weaken; [by apply flush_closed|]. intros p2 (_ & _ & _ & Hu & Hr).
    rewrite app_assoc, frames_snoc in Hu. exists (ps ++ match q with [] => [] | _ => [q] end). split; [|split; [|done]].
    + apply Forall_app. split; [done|]. destruct q; by repeat constructor.
    + rewrite concat_app, <- Hd. destruct q; [done|]. cbn [concat]. by rewrite app_nil_r.
Qed.

(** The pump from the top of its loop, with [d] read before: what the copy ends with, or a failure of the network. *)
Definition outcome (last : pull) (d : bytes) (p : pump) (r : res unit) : Prop :=
  match last with
  | Throws m => r = Throw (Error m) /\ exists d', adds d' p /\ d' `prefix_of` d
  | Done false => r = Ok tt /\ exists ps, Forall (fun x => x <> []) ps /\ concat ps = d /\ concat (p_out p) = frames ps ++ cframe 99 [] /\ p_returned p = false
  | _ => r = Ok tt /\ exists ps, Forall (fun x => x <> []) ps /\ concat ps `prefix_of` d /\ concat (p_out p) = frames ps ++ aborted /\ p_returned p = true
  end.
Definition small (c : chunk) : Prop := blen (chunk_bytes c) <= 2 ^ 30.
Lemma loop_outcome cs last rest : forall d p, Forall small cs -> is_ok (terminator last) -> adds d p ->
  exists p' r, (over ← pump_loop (map (fun c => Chunk c false) cs ++ last :: rest); finish over) p = (p', r)
    /\ (p_net p = [] -> p_net p' = [])
    /\ (outcome last (d ++ concat (chunk_bytes <$> cs)) p' r \/ (p_net p <> [] /\ exists e, r = Throw (Error e))).
Proof.
  induction cs as [|c cs IH]; intros d p Hs Ht Hp.
  - cbn [map app fmap list_fmap concat]. rewrite app_nil_r.
    assert (forall over q, pump_loop (last :: rest) p = (q, Ok over) -> p_net q = p_net p ->
      (exists p', (p_net q = [] -> p_net p' = []) /\ ((finish over q = (p', Ok tt) /\ outcome last d p' (Ok tt)) \/ (p_net q <> [] /\ exists e, finish over q = (p', Throw (Error e))))) ->
      exists p' r, (over ← pump_loop (last :: rest); finish over) p = (p', r) /\ (p_net p = [] -> p_net p' = [])
        /\ (outcome last d p' r \/ (p_net p <> [] /\ exists e, r = Throw (Error e)))) as G.
    { intros over q E En (p' & N & HE). rewrite (bind_Ok _ _ _ _ _ E). rewrite En in N, HE. exists p'.
      destruct HE as [[-> Ho]|(Hn & e & ->)]; eexists; (split; [done|]); (split; [done|]); [by left|right; split; [done|by exists e]]. }
    assert (last <> Done false -> (forall m, last <> Throws m) -> pump_loop (last :: rest) p = (with_returned p, Ok true) ->
      exists p' r, (over ← pump_loop (last :: rest); finish over) p = (p', r) /\ (p_net p = [] -> p_net p' = [])
        /\ (outcome last d p' r \/ (p_net p <> [] /\ exists e, r = Throw (Error e)))) as Go.
    { intros H1 H2 E. apply (G true (with_returned p) E eq_refl). destruct Hp as (ps & q & (Hw & Ho & _ & Hf & _) & Hd).
      destruct (finish_over ps (with_returned p) Hw Ho) as (p' & N & [[E' [Hu Hr]]|HE]); exists p'; (split; [exact N|]); [left; split; [exact E'|]|right; exact HE].
      assert (Ok tt = Ok tt /\ exists ps, Forall (fun x => x <> []) ps /\ concat ps `prefix_of` d /\ concat (p_out p') = frames ps ++ aborted /\ p_returned p' = true) as K
        by (split; [done|]; exists ps; split; [done|]; split; [rewrite <- Hd; by apply prefix_app_r|done]).
      clear Hu Hr. destruct last as [|c []|[]|m]; try exact K; [by destruct H1|by destruct (H2 m)]. }
    clear Hs. destruct last as [|c []|[]|m].
    1,2,4: apply Go; [discriminate|intros ?; discriminate|reflexivity].
    + destruct Ht.
    + apply (G false p eq_refl eq_refl).
      destruct (finish_done d p Hp) as (p' & N & HE). exists p'. split; [exact N|]. destruct HE as [[E Ho]|HE]; [left; exact (conj E (conj eq_refl Ho))|right; exact HE].
    + exists p, (Throw (Error m)). split; [reflexivity|]. split; [exact id|]. left. split; [reflexivity|]. exists d. split; [exact Hp|reflexivity].
  - apply Forall_cons in Hs as [Hc Hs]. cbn [map app fmap list_fmap concat]. cbn [pump_loop]. unfold small in Hc.
    destruct (chunk_bytes c) as [|x b] eqn:Eb; [by apply IH|]. rewrite <- Eb in *.
    destruct (add_ends d (chunk_bytes c) p Hp) as (p1 & N1 & [[E1 H1]|(Hn & e & E1)]); [by rewrite Eb|done| |].
    + destruct (IH _ p1 Hs Ht H1) as (p' & r & E & N & HE). exists p', r. rewrite M_bind_assoc, (bind_Ok _ _ _ _ _ E1).
      split; [exact E|]. split; [exact (fun K => N (N1 K))|]. rewrite app_assoc. destruct HE as [Ho|[Hn He]]; [left; exact Ho|right; split; [|exact He]]. exact (fun K => Hn (N1 K)).
    + exists p1, (Throw (Error e)). rewrite M_bind_assoc. unfold mbind at 1, M_bind at 1. rewrite E1. split; [reflexivity|]. split; [exact N1|]. right. split; [exact Hn|]. by exists e.
Qed.

Lemma adds_new network : adds [] (new_pump network).
Proof.
  exists [], []. split; [|reflexivity]. split; [|split; [reflexivity|split; [reflexivity|split; [constructor|]]]].
  - unfold wf, new_pump, Writer.new. cbn [p_w buf off]. rewrite length_allocUnsafe. rewrite CHUNK_Z. lia.
  - split; reflexivity.
Qed.
Lemma copy_failed_sends m t p : W.copyFail (js "COPY aborted: " ++ m) = Ok t -> p_net p = [] ->
  exists p', copy_failed m p = (p', Ok tt) /\ concat (p_out p') = concat (p_out p) ++ t /\ p_returned p' = true.
Proof.
  intros Et Hn. unfold copy_failed. rewrite Et. unfold writeRaw. cbn [with_returned p_net p_out]. rewrite Hn. eexists. split; [reflexivity|].
  cbn [fst p_out p_returned]. split; [|reflexivity]. rewrite concat_app. cbn [concat]. by rewrite app_nil_r.
Qed.
Lemma copy_failed_ends m p : exists p', copy_failed m p = (p', Ok tt).
Proof. unfold copy_failed. destruct (W.copyFail _); by eexists. Qed.

#[local] Opaque W.copyFail Writer.new pump_loop finish.
(** C12: However its source ends and whatever the network does, the pump finishes without rejecting. While the
    network takes what it writes, the server receives whole CopyData frames, none empty, that carry a prefix of
    the source's bytes in order, and then exactly one message that ends the copy: CopyDone after all of them when
    the source ended, CopyFail (with the source's error) when it threw, CopyFail when the task was over - and in
    these two cases the source's return() is called. *)
Theorem copy_ended described cs last rest t network : Forall small cs -> terminator last = Ok t ->
  exists p', pumpCopy described (map (fun c => Chunk c false) cs ++ last :: rest) (new_pump network) = (p', Ok tt) /\
    (network = [] -> exists ps, Forall (fun x => x <> []) ps /\ concat (p_out p') = frames ps ++ t
      /\ concat ps `prefix_of` concat (chunk_bytes <$> cs)
      /\ match last with Done false => concat ps = concat (chunk_bytes <$> cs) /\ p_returned p' = false | _ => p_returned p' = true end).
Proof.
  intros Hs Ht. destruct (loop_outcome cs last rest [] (new_pump network) Hs) as (p' & r & E & N & HE); [by rewrite Ht|apply adds_new|].
  unfold pumpCopy. rewrite E. clear E. cbn [new_pump p_net] in *. rewrite app_nil_l in HE. destruct HE as [Ho|(Hn & e & ->)].
  - assert (outcome last (concat (chunk_bytes <$> cs)) p' r -> match last with Throws _ => True | _ => r = Ok tt /\
      exists ps, Forall (fun x => x <> []) ps /\ concat (p_out p') = frames ps ++ t /\ concat ps `prefix_of` concat (chunk_bytes <$> cs)
      /\ match last with Done false => concat ps = concat (chunk_bytes <$> cs) /\ p_returned p' = false | _ => p_returned p' = true end end) as G.
    { destruct last as [|c []|[]|m]; try discriminate Ht; try (injection Ht as <-); intros Hx; try exact I;
        destruct Hx as (Hr & ps & H1 & H2 & H3 & H4); (split; [exact Hr|]); exists ps; (split; [exact H1|]); (split; [exact H3|]).
      1,2,3: exact (conj H2 H4). rewrite H2. split; [reflexivity|]. split; [reflexivity|exact H4]. }
    destruct last as [|c o|o|m]; try (destruct (G Ho) as [-> Hx]; exists p'; split; [reflexivity|intros _; exact Hx]).
    destruct Ho as [-> (d' & (ps & q & (_ & Hu & _ & Hf & _) & Hd) & Hp)]. cbn [message_of].
    destruct (copy_failed_ends m p') as (p2 & E2). exists p2. split; [exact E2|]. intros Hnet.
    cbn [terminator] in Ht. destruct (copy_failed_sends m t p' Ht (N Hnet)) as (p3 & E3 & H3 & H4). rewrite E2 in E3. pose proof (f_equal fst E3) as E4. cbn [fst] in E4. subst p3.
    exists ps. split; [exact Hf|]. split; [by rewrite H3, Hu|]. split; [|exact H4]. etransitivity; [|exact Hp]. rewrite <- Hd. by apply prefix_app_r.
  - cbn [message_of]. destruct (copy_failed_ends e p') as (p2 & E2). exists p2. split; [exact E2|]. intros K. by destruct Hn.
Qed.
End Correct.
Lemma copy_ended_witness :
  terminator (Throws (js "bad row")) = Ok (cframe 102 (Protocol.cstr (js "COPY aborted: bad row"))) /\
  exists p', @pumpCopy zero_alloc (fun _ => []) [Chunk (CString (js "1")) false; Throws (js "bad row")] (@new_pump zero_alloc []) = (p', Ok tt)
    /\ exists ps, concat (p_out p') = frames ps ++ cframe 102 (Protocol.cstr (js "COPY aborted: bad row")).
Proof.
  split; [vm_compute; reflexivity|].
  destruct (@copy_ended zero_alloc (fun _ => []) [CString (js "1")] (Throws (js "bad row")) []
    (cframe 102 (Protocol.cstr (js "COPY aborted: bad row"))) []) as (p' & E & H); [repeat constructor; vm_compute; discriminate|vm_compute; reflexivity|].
  exists p'. split; [exact E|]. destruct (H eq_refl) as (ps & _ & Hp & _). exists ps. exact Hp.
Defined.
