(* ===== verification/Errors.v ===== *)
(** * Server errors (src/errors.ts)

    The ErrorResponse / NoticeResponse body parser and the [PgError] object built
    from its fields. A plain object used as a map is a [gmap] keyed by strings. *)

From S2P Require Import Prelude Utf8 Buf.

Definition FIELD : gmap jstr jstr := list_to_map [
  (js "S", js "severityLocal"); (js "V", js "severity"); (js "C", js "code"); (js "M", js "message");
  (js "D", js "detail"); (js "H", js "hint"); (js "P", js "position"); (js "p", js "internalPosition");
  (js "q", js "internalQuery"); (js "W", js "where"); (js "s", js "schema"); (js "t", js "table");
  (js "c", js "column"); (js "d", js "dataType"); (js "n", js "constraint"); (js "F", js "file");
  (js "L", js "line"); (js "R", js "routine")].

Definition PgErrorFields : Type := gmap jstr jstr.

(** The instance fields of a [PgError]: the fields assigned over the message and
    the name the constructor sets. *)
Definition PgError (fields : PgErrorFields) : gmap jstr jstr :=
  fields ∪ <[js "name" := js "PgError"]>
             {[js "message" := default (js "PostgreSQL error") (fields !! js "message")]}.

(** [FIELD[code] ?? code] *)
Definition field_name (b : Z) : jstr := default [b] (FIELD !! [b]).

(** The inner loop: first index at or after [e] that holds a NUL or is past the
    end, over the bytes from [e] on. *)
Fixpoint field_end (rest : bytes) (e : Z) : Z :=
  match rest with
  | [] => e
  | b :: t => if b =? 0 then e else field_end t (e + 1)
  end.

Fixpoint error_loop (fuel : nat) (body : bytes) (i : Z) (out : PgErrorFields) : res PgErrorFields :=
  match at_ body i with
  | None => Ok out
  | Some b =>
    if b =? 0 then Ok out
    else match fuel with
         | O => NoFuel
         | S fuel' =>
           let stop := field_end (drop (Z.to_nat (i + 1)) body) (i + 1) in
           error_loop fuel' body (stop + 1)
             (<[field_name b := utf8_decode (subarray body (i + 1) stop)]> out)
         end
  end.
Definition parseErrorFields (body : bytes) : res PgErrorFields := error_loop (length body) body 0 ∅.

(** ** What a server sends *)

Definition error_body (fs : list (Z * jstr)) : bytes :=
  concat ((fun '(c, s) => c :: utf8 s ++ [0]) <$> fs) ++ [0].
Definition field_ok (f : Z * jstr) : Prop :=
  0 < f.1 < 256 /\ usv f.2 = true /\ Forall (fun c => 0 < c < 65536) f.2.
Definition fields_of (fs : list (Z * jstr)) : PgErrorFields :=
  foldl (fun out '(c, s) => <[field_name c := s]> out) ∅ fs.

Lemma field_end_nul s r e : Forall (fun x => x <> 0) s -> field_end (s ++ 0 :: r) e = e + blen s.
Proof.
  intros H. revert e. induction H as [|x s Hx _ IH]; intros e; simpl.
  - rewrite blen_nil. lia.
  - destruct (Z.eqb_spec x 0); [done|]. rewrite IH, blen_cons. lia.
Qed.

Lemma field_end_ge rest e : e <= field_end rest e <= e + blen rest.
Proof.
  revert e. induction rest as [|b t IH]; intros e; simpl.
  - rewrite blen_nil. lia.
  - rewrite blen_cons. pose proof (blen_nonneg t). destruct (b =? 0); [lia|]. specialize (IH (e + 1)). lia.
Qed.

Lemma at_None b i : 0 <= i -> at_ b i = None <-> blen b <= i.
Proof. intros. unfold at_, blen. zif. rewrite lookup_ge_None. lia. Qed.

(** Every round moves past at least one byte of the body. *)
Lemma error_loop_total fuel body i out : 0 <= i -> blen body - i <= Z.of_nat fuel ->
  exists fs, error_loop fuel body i out = Ok fs.
Proof.
  revert i out. induction fuel as [|f IH]; intros i out Hi Hf; cbn [error_loop].
  - destruct (at_ body i) eqn:E; [|eauto]. assert (at_ body i = None) as E' by (apply at_None; lia). congruence.
  - destruct (at_ body i) as [b|]; [|eauto]. destruct (b =? 0); [eauto|].
    pose proof (field_end_ge (drop (Z.to_nat (i + 1)) body) (i + 1)). apply IH; lia.
Qed.

Lemma error_loop_fields fuel body i out fs r : (length fs <= fuel)%nat -> Forall field_ok fs ->
  rest_at body i (concat ((fun '(c, s) => c :: utf8 s ++ [0]) <$> fs) ++ 0 :: r) ->
  error_loop fuel body i out = Ok (foldl (fun out '(c, s) => <[field_name c := s]> out) out fs).
Proof.
  intros Hf H. revert fuel i out Hf. induction H as [|[c s] fs (Hc & Hu & Hs) _ IH]; intros fuel i out Hf HR.
  - apply rest_at_byte in HR as [E _]. destruct fuel; cbn [error_loop]; by rewrite E.
  - simpl in Hc, Hu, Hs. cbn [fmap list_fmap concat app] in HR. rewrite <- !app_assoc in HR.
    apply rest_at_byte in HR as [E HR]. cbn [app] in HR.
    destruct fuel as [|fuel]; [simpl in Hf; lia|].
    cbn [error_loop foldl]. rewrite E. destruct (Z.eqb_spec c 0); [lia|].
    pose proof (utf8_no_nul s Hs) as Hn. pose proof (rest_at_nul _ _ _ _ HR Hn) as [_ HR'].
    replace (drop (Z.to_nat (i + 1)) body) with (utf8 s ++ 0 :: (concat ((fun '(c, s) => c :: utf8 s ++ [0]) <$> fs) ++ 0 :: r))
      by (destruct HR as (_ & _ & <-); done).
    rewrite field_end_nul by done. rewrite (rest_at_sub _ _ _ _ HR), utf8_roundtrip by done.
    apply IH; [simpl in Hf; lia|done].
Qed.

(** Parsing an ErrorResponse body gives back every field the server sent under
    its documented name (the last one winning when a code repeats), whatever
    follows the terminator; and on any bytes at all, truncated or not, the parser
    ends with a set of fields. *)
Theorem parseErrorFields_error_body fs r :
  Forall field_ok fs ->
  parseErrorFields (error_body fs ++ r) = Ok (fields_of fs)
  /\ forall body, exists out, parseErrorFields body = Ok out.
Proof.
  intros H. split.
  - unfold parseErrorFields, error_body. apply error_loop_fields with r; [|done|].
    + apply Nat.le_trans with (length (concat ((fun '(c, s) => c :: utf8 s ++ [0]) <$> fs))); [|rewrite !length_app; lia].
      clear. induction fs as [|[c s] fs IH]; [done|]. cbn [fmap list_fmap concat]. rewrite length_app. simpl in *. lia.
    + rewrite <- app_assoc. apply rest_at_0.
  - intros body. apply error_loop_total; unfold blen; lia.
Qed.

Lemma parseErrorFields_error_body_witness :
  parseErrorFields (error_body [(67, js "23505"); (77, js "dup"); (77, js "duplicate key")] ++ [9])
  = Ok (fields_of [(67, js "23505"); (77, js "dup"); (77, js "duplicate key")]).
Proof.
  apply (parseErrorFields_error_body _ [9]).
  repeat constructor; simpl; try reflexivity; try lia.
Defined.
