(* ===== verification/Temporal.v ===== *)
(** * Temporal values (src/temporal.ts)

    The text parsers of date / timestamp / timestamptz and the binary timestamp
    read. The Buffer version, the string version and the code snippet spliced into
    generated mappers run the same steps over different readers; [rd p] is [b[p]],
    respectively [s.charCodeAt(p)], with [None] for undefined / NaN, and NaN
    arithmetic is [option] arithmetic. A result is [None] for undefined, [Some None]
    for NaN and [Some (Some ms)] for an instant. *)

From S2P Require Import Prelude Buf Num Dates.

Definition PG_EPOCH_MS : Z := 946684800000.
Definition Y400_MS : Z := 12622780800000.

Section Reader.
Context (rd : Z -> option Z).

Definition is_at (p c : Z) : bool := bool_decide (rd p = Some c).
Definition not_digit (o : option Z) : bool :=
  match o with Some c => (c <? 48) || (57 <? c) | None => false end.
Definition nan2 (f : Z -> Z -> Z) (x y : option Z) : option Z :=
  match x, y with Some a, Some b => Some (f a b) | _, _ => None end.

(** (b[p] - 48) * 10 + (b[p + 1] - 48) *)
Definition two (p : Z) : option Z := nan2 (fun a b => (a - 48) * 10 + (b - 48)) (rd p) (rd (p + 1)).

(** The accumulating digit loops, at most [k] rounds: position, value, count. *)
Fixpoint digit_run (k : nat) (p e : Z) (acc : option Z) (n : Z) : Z * option Z * Z :=
  match k with
  | O => (p, acc, n)
  | S k' =>
    if p <? e then
      if not_digit (rd p) then (p, acc, n)
      else digit_run k' (p + 1) e (nan2 (fun a c => a * 10 + (c - 48)) acc (rd p)) (n + 1)
    else (p, acc, n)
  end.

Fixpoint skip_digits (fuel : nat) (p e : Z) : Z :=
  match fuel with
  | O => p
  | S f => if p <? e then if not_digit (rd p) then p else skip_digits f (p + 1) e else p
  end.

(** The fraction: the milliseconds of its first three digits, the rest skipped. *)
Definition fraction (p e : Z) : Z * option Z :=
  if (p <? e) && is_at p 46 then
    let '(p, f, k) := digit_run 3 (p + 1) e (Some 0) 0 in
    (skip_digits (Z.to_nat (e - p)) p e, (fun f => f * 10 ^ (3 - k)) <$> f)
  else (p, Some 0).

Definition zone (p e : Z) : Z * option Z :=
  if (p <? e) && (is_at p 43 || is_at p 45) then
    let sg := if is_at p 45 then -1 else 1 in
    let p := p + 1 in
    let th := two p in
    let p := p + 2 in
    let '(p, tm, tsc) :=
      if (p <? e) && is_at p 58 then
        let p := p + 1 in
        let tm := two p in
        let p := p + 2 in
        if (p <? e) && is_at p 58 then (p + 3, tm, two (p + 1)) else (p, tm, Some 0)
      else (p, Some 0, Some 0) in
    (p, nan2 (fun h s => sg * (h * 60 + s)) (nan2 (fun a b => a * 60 + b) th tm) tsc)
  else if (p <? e) && is_at p 90 then (p + 1, Some 0)
  else (p, Some 0).

(** Date.UTC on numbers that may be NaN. *)
Definition utc (y mo d h mi s ms : option Z) : option Z :=
  y ← y; mo ← mo; d ← d; h ← h; mi ← mi; s ← s; ms ← ms; Date_UTC y mo d h mi s ms.

(** The last lines: the year of the era, and the shift out of years 0 to 99. *)
Definition finish (bc : bool) (Y mo d h mi s ms off : option Z) : option Z :=
  let yy := if bc then (fun y => 1 - y) <$> Y else Y in
  let sh := match yy with Some y => if (0 <=? y) && (y <=? 99) then 400 else 0 | None => 0 end in
  let ems := utc ((fun y => y + sh) <$> yy) ((fun m => m - 1) <$> mo) d h mi (nan2 Z.sub s off) ms in
  if sh =? 0 then ems else (fun t => t - Y400_MS) <$> ems.

Definition bc_suffix (p e : Z) : bool := (3 <=? e - p) && is_at (e - 1) 67 && is_at (e - 2) 66 && is_at (e - 3) 32.

(** From the era suffix on, with the early returns of the functions. *)
Definition instant_body (p e : Z) : option (option Z) :=
  let bc := bc_suffix p e in
  let e := if bc then e - 3 else e in
  let '(p, Y, n) := digit_run (Z.to_nat (e - p)) p e (Some 0) 0 in
  if (n <? 4) || negb (is_at p 45) || negb (is_at (p + 3) 45) || (e - p <? 6) then None
  else
    let p := p + 1 in
    let mo := two p in
    let p := p + 3 in
    let d := two p in
    let p := p + 2 in
    if (p <? e) && (is_at p 32 || is_at p 84) then
      let p := p + 1 in
      if (e - p <? 8) || negb (is_at (p + 2) 58) || negb (is_at (p + 5) 58) then None
      else
        let h := two p in
        let p := p + 3 in
        let mi := two p in
        let p := p + 3 in
        let s := two p in
        let p := p + 2 in
        let '(p, ms) := fraction p e in
        let '(p, off) := zone p e in
        if negb (p =? e) then None else Some (finish bc Y mo d h mi s ms off)
    else if negb (p =? e) then None
    else Some (finish bc Y mo d (Some 0) (Some 0) (Some 0) (Some 0) (Some 0)).

(** The generated snippet has no early return: a mismatch clears [ok] and the
    rest of the block still runs. Result: ([out], [ok]). *)
Definition snippet_body (p e : Z) : option Z * bool :=
  let bc := bc_suffix p e in
  let e := if bc then e - 3 else e in
  let '(p, Y, n) := digit_run (Z.to_nat (e - p)) p e (Some 0) 0 in
  let ok := negb ((n <? 4) || negb (is_at p 45) || negb (is_at (p + 3) 45) || (e - p <? 6)) in
  let p := p + 1 in
  let mo := two p in
  let p := p + 3 in
  let d := two p in
  let p := p + 2 in
  let '(p, ok, h, mi, s, ms, off) :=
    if (p <? e) && (is_at p 32 || is_at p 84) then
      let p := p + 1 in
      let ok := if (e - p <? 8) || negb (is_at (p + 2) 58) || negb (is_at (p + 5) 58) then false else ok in
      let h := two p in
      let p := p + 3 in
      let mi := two p in
      let p := p + 3 in
      let s := two p in
      let p := p + 2 in
      let '(p, ms) := fraction p e in
      let '(p, off) := zone p e in
      (p, ok, h, mi, s, ms, off)
    else (p, ok, Some 0, Some 0, Some 0, Some 0, Some 0) in
  let ok := if negb (p =? e) then false else ok in
  (finish bc Y mo d h mi s ms off, ok).

(** An 'i', or a '-i', at the start. *)
Definition starts_inf (p : Z) : bool := is_at p 105 || (is_at p 45 && is_at (p + 1) 105).
Definition inf_len (p : Z) : Z := if is_at p 45 then 9 else 8.
End Reader.

Definition instantFromBytes (b : bytes) (o l : Z) : option (option Z) :=
  if starts_inf (at_ b) o then if l =? inf_len (at_ b) o then Some None else None
  else instant_body (at_ b) o (o + l).

Definition instantFromString (s : jstr) : option (option Z) :=
  if starts_inf (at_ s) 0
  then if bool_decide (s = js "infinity") || bool_decide (s = js "-infinity") then Some None else None
  else instant_body (at_ s) 0 (blen s).

(** What the code of [instantTemplate] computes at [b[o..o+l)]: [out] and [ok]. *)
Definition instantTemplate (b : bytes) (o l : Z) : option Z * bool :=
  if starts_inf (at_ b) o then (None, l =? inf_len (at_ b) o)
  else snippet_body (at_ b) o (o + l).

(** int64 microseconds since 2000 to epoch ms, on doubles: every product and sum is
    rounded. The quotient is below 2^31 with a remainder of at least a thousandth,
    so a double division never reaches the next integer before [Math.floor]. *)
Definition u32 (z : Z) : Z := z mod 2 ^ 32.
Definition binTimestampMs (b : bytes) (o : Z) : Z :=
  let hi := rd32 b o in
  let lo := u32 (rd32 b (o + 4)) in
  fl (fl (fl (hi * 4294967) + fl (fl (hi * 296) + lo) / 1000) + PG_EPOCH_MS).

(** ** The parsers read only their text *)

Section Agree.
Context (f g : Z -> option Z) (lo hi : Z).
Hypothesis Hfg : forall p, lo <= p < hi -> f p = g p.

Lemma is_at_agree p c : lo <= p < hi -> is_at f p c = is_at g p c.
Proof. intros H. unfold is_at. by rewrite Hfg. Qed.
Lemma two_agree p : lo <= p -> p + 1 < hi -> two f p = two g p.
Proof. intros. unfold two. by rewrite !Hfg by lia. Qed.

Lemma guard_agree p e c : lo <= p -> e <= hi -> (p <? e) && is_at f p c = (p <? e) && is_at g p c.
Proof. intros. destruct (Z.ltb_spec p e); [|done]. cbn [andb]. apply is_at_agree. lia. Qed.

Lemma digit_run_agree k p e acc n : lo <= p -> e <= hi ->
  digit_run f k p e acc n = digit_run g k p e acc n
  /\ p <= (digit_run g k p e acc n).1.1 <= Z.max p e.
Proof.
  revert p acc n. induction k as [|k IH]; intros p acc n Hp He; [simpl; split; [done|lia]|]. cbn [digit_run].
  destruct (Z.ltb_spec p e); [|simpl; split; [done|lia]]. rewrite Hfg by lia.
  destruct (not_digit (g p)); [simpl; split; [done|lia]|].
  edestruct IH with (p := p + 1) as [-> ?]; [lia|done|]. split; [done|]. lia.
Qed.

Lemma skip_digits_agree k p e : lo <= p -> e <= hi ->
  skip_digits f k p e = skip_digits g k p e /\ p <= skip_digits g k p e <= Z.max p e.
Proof.
  revert p. induction k as [|k IH]; intros p Hp He; [simpl; split; [done|lia]|]. cbn [skip_digits].
  destruct (Z.ltb_spec p e); [|simpl; split; [done|lia]]. rewrite Hfg by lia.
  destruct (not_digit (g p)); [simpl; split; [done|lia]|].
  edestruct IH with (p := p + 1) as [-> ?]; [lia|done|]. split; [done|]. lia.
Qed.

Lemma fraction_agree p e : lo <= p <= e -> e <= hi ->
  fraction f p e = fraction g p e /\ p <= (fraction g p e).1 <= e.
Proof.
  intros Hp He. unfold fraction. rewrite guard_agree by lia. destruct ((p <? e) && is_at g p 46) eqn:E; [|simpl; split; [done|lia]].
  apply andb_true_iff in E as [?%Z.ltb_lt _].
  destruct (digit_run_agree 3 (p + 1) e (Some 0) 0) as [-> Hq]; [lia|done|].
  destruct (digit_run g 3 (p + 1) e (Some 0) 0) as [[q v] k]. simpl in Hq |- *.
  destruct (skip_digits_agree (Z.to_nat (e - q)) q e) as [-> ?]; [lia|done|]. split; [done|lia].
Qed.

Lemma zone_agree p e : lo <= p <= e -> e <= hi ->
  zone f p e = zone g p e \/ (e < (zone f p e).1 /\ e < (zone g p e).1).
Proof.
  intros Hp He. unfold zone. destruct (Z.ltb_spec p e) as [Hlt|Hlt]; [|left; done]. cbn [andb].
  rewrite !(is_at_agree p) by lia. destruct (is_at g p 43 || is_at g p 45); [|left; done].
  cbv zeta. destruct (Z.ltb_spec e (p + 1 + 2)) as [Hs|Hs].
  { right. replace (p + 1 + 2 <? e) with false by (symmetry; lia). cbn [andb fst]. lia. }
  rewrite (two_agree (p + 1)) by lia. rewrite guard_agree by lia.
  destruct ((p + 1 + 2 <? e) && is_at g (p + 1 + 2) 58) eqn:E1; [|left; done].
  apply andb_true_iff in E1 as [?%Z.ltb_lt _]. destruct (Z.ltb_spec e (p + 1 + 2 + 1 + 2)) as [Hs2|Hs2].
  { right. replace (p + 1 + 2 + 1 + 2 <? e) with false by (symmetry; lia). cbn [andb fst]. lia. }
  rewrite (two_agree (p + 1 + 2 + 1)) by lia. rewrite guard_agree by lia.
  destruct ((p + 1 + 2 + 1 + 2 <? e) && is_at g (p + 1 + 2 + 1 + 2) 58) eqn:E2; [|left; done].
  apply andb_true_iff in E2 as [?%Z.ltb_lt _]. destruct (Z.ltb_spec e (p + 1 + 2 + 1 + 2 + 3)); [right; simpl; lia|].
  rewrite two_agree by lia. by left.
Qed.

Lemma bc_suffix_agree p e : lo <= p -> e <= hi -> bc_suffix f p e = bc_suffix g p e.
Proof.
  intros. unfold bc_suffix. destruct (Z.leb_spec 3 (e - p)); [|done]. cbn [andb]. by rewrite !is_at_agree by lia.
Qed.

Lemma instant_body_agree p e : lo <= p <= e -> e <= hi -> instant_body f p e = instant_body g p e.
Proof.
  intros Hp He. unfold instant_body. rewrite bc_suffix_agree by lia. cbv zeta.
  set (e' := if bc_suffix g p e then e - 3 else e).
  assert (p <= e' <= e) as He'.
  { unfold e', bc_suffix. destruct (Z.leb_spec 3 (e - p)); cbn [andb]; [destruct (_ && _)|]; lia. }
  clearbody e'. destruct (digit_run_agree (Z.to_nat (e' - p)) p e' (Some 0) 0) as [-> Hq]; [lia..|].
  destruct (digit_run g _ p e' (Some 0) 0) as [[q Y] n]. simpl in Hq.
  destruct (Z.ltb_spec (e' - q) 6) as [|H6]; [by rewrite !orb_true_r|].
  rewrite !(is_at_agree q), !(is_at_agree (q + 3)) by lia. destruct ((n <? 4) || _ || _ || _); [done|].
  rewrite (two_agree (q + 1)), (two_agree (q + 1 + 3)) by lia.
  destruct (Z.ltb_spec (q + 1 + 3 + 2) e') as [Hlt|Hlt]; [|done]. cbn [andb].
  rewrite !(is_at_agree (q + 1 + 3 + 2)) by lia. destruct (is_at g _ 32 || is_at g _ 84); [|by zif].
  set (t := q + 1 + 3 + 2 + 1). destruct (Z.ltb_spec (e' - t) 8) as [|H8]; [done|].
  rewrite !(is_at_agree (t + 2)), !(is_at_agree (t + 5)) by lia. destruct (false || _ || _); [done|].
  rewrite (two_agree t), (two_agree (t + 3)), (two_agree (t + 3 + 3)) by lia.
  destruct (fraction_agree (t + 3 + 3 + 2) e') as [-> Hr]; [lia..|].
  destruct (fraction g _ e') as [r ms]. simpl in Hr.
  destruct (zone_agree r e') as [->|[Hf Hg]]; [lia..|done|].
  destruct (zone f r e') as [z1 o1], (zone g r e') as [z2 o2]. simpl in Hf, Hg. by do 2 zif.
Qed.
End Agree.

Lemma snippet_body_spec rd p e :
  instant_body rd p e = (let '(out, ok) := snippet_body rd p e in if ok then Some out else None).
Proof.
  unfold instant_body, snippet_body. cbv zeta.
  destruct (digit_run rd _ p _ (Some 0) 0) as [[q Y] n].
  set (e' := if bc_suffix rd p e then e - 3 else e).
  destruct ((n <? 4) || _ || _ || _); cbn [negb];
    repeat (case_match; simplify_eq; try done).
Qed.

(** ** What PostgreSQL prints *)

Inductive pgzone := ZNone | ZUtc | ZOff (neg : bool) (h : Z) (rest : option (Z * option Z)).
Record pgtime := mkTime { tsep : Z; thh : Z; tmi : Z; tss : Z; tfrac : option jstr; tzone : pgzone }.
Record pgts := mkTs { tyear : Z; tbc : bool; tmon : Z; tday : Z; ttime : option pgtime }.

Definition zone_text (z : pgzone) : jstr :=
  match z with
  | ZNone => []
  | ZUtc => [90]
  | ZOff neg h rest =>
    (if neg then 45 else 43) :: pad 2 h ++
    match rest with
    | None => []
    | Some (m, s) => 58 :: pad 2 m ++ match s with None => [] | Some s => 58 :: pad 2 s end
    end
  end.
Definition frac_text (f : option jstr) : jstr := match f with None => [] | Some ds => 46 :: ds end.
Definition time_text (t : pgtime) : jstr :=
  tsep t :: pad 2 (thh t) ++ 58 :: pad 2 (tmi t) ++ 58 :: pad 2 (tss t) ++ frac_text (tfrac t) ++ zone_text (tzone t).
Definition year_text (y : Z) : jstr := if y <? 10000 then pad 4 y else digits y.
Definition core_text (t : pgts) : jstr :=
  year_text (tyear t) ++ 45 :: pad 2 (tmon t) ++ 45 :: pad 2 (tday t)
  ++ match ttime t with None => [] | Some tm => time_text tm end.
Definition ts_text (t : pgts) : jstr := core_text t ++ (if tbc t then js " BC" else []).

Definition two_range (z : Z) : Prop := 0 <= z <= 99.
Definition digit_char (c : Z) : Prop := 48 <= c <= 57.
Definition zone_ok (z : pgzone) : Prop :=
  match z with
  | ZOff _ h rest => two_range h /\ match rest with
                                    | None => True
                                    | Some (m, s) => two_range m /\ match s with None => True | Some s => two_range s end
                                    end
  | _ => True
  end.
Definition time_ok (t : pgtime) : Prop :=
  (tsep t = 32 \/ tsep t = 84) /\ two_range (thh t) /\ two_range (tmi t) /\ two_range (tss t)
  /\ match tfrac t with None => True | Some ds => Forall digit_char ds end /\ zone_ok (tzone t).
Definition ts_ok (t : pgts) : Prop :=
  0 <= tyear t /\ two_range (tmon t) /\ two_range (tday t) /\ match ttime t with None => True | Some tm => time_ok tm end.

(** The instant the text denotes: proleptic Gregorian, N BC being the year 1 - N. *)
Definition zone_secs (z : pgzone) : Z :=
  match z with
  | ZOff neg h rest =>
    (if neg then -1 else 1) *
    (h * 3600 + match rest with None => 0 | Some (m, s) => m * 60 + default 0 s end)
  | _ => 0
  end.
Definition frac_ms (f : option jstr) : Z :=
  match f with None => 0 | Some ds => digits_val (take 3 (ds ++ [48; 48; 48])) end.
Definition ts_ms (t : pgts) : Z :=
  let y := if tbc t then 1 - tyear t else tyear t in
  match ttime t with
  | None => utc_ms y (tmon t - 1) (tday t) 0 0 0 0
  | Some m => utc_ms y (tmon t - 1) (tday t) (thh m) (tmi m) (tss m - zone_secs (tzone m)) (frac_ms (tfrac m))
  end.

Lemma blen_pad n z : blen (pad n z) = Z.of_nat n.
Proof. unfold blen. by rewrite length_pad. Qed.

Section Print.
Context (s : jstr).

Lemma at_is p c r : rest_at s p (c :: r) -> at_ s p = Some c /\ (forall d, is_at (at_ s) p d = bool_decide (c = d)).
Proof.
  intros H. apply rest_at_byte in H as [E _]. split; [done|]. intros d. unfold is_at. rewrite E.
  apply bool_decide_ext. split; congruence.
Qed.

Lemma two_pad p z r : rest_at s p (pad 2 z ++ r) -> two_range z ->
  two (at_ s) p = Some z /\ rest_at s (p + 2) r.
Proof.
  unfold two_range. rewrite pad2. cbn [app]. intros H Hz. apply rest_at_byte in H as [E1 H].
  apply rest_at_byte in H as [E2 H]. replace (p + 1 + 1) with (p + 2) in H by lia. split; [|done].
  unfold two. rewrite E1, E2. simpl. f_equal. Z.to_euclidean_division_equations. lia.
Qed.

Lemma digit_run_spec k ds r p e acc n :
  rest_at s p (ds ++ r) -> Forall digit_char ds -> p + blen ds <= e ->
  (length ds = k \/ ((length ds <= k)%nat /\ (p + blen ds = e \/ not_digit (at_ s (p + blen ds)) = true))) ->
  digit_run (at_ s) k p e (Some acc) n = (p + blen ds, Some (acc * 10 ^ blen ds + digits_val ds), n + blen ds).
Proof.
  intros HR HD. revert k p acc n HR. induction HD as [|d ds Hd _ IH]; intros k p acc n HR He Hk.
  - rewrite blen_nil, !Z.add_0_r in *. change (10 ^ 0) with 1. rewrite Z.mul_1_r.
    destruct k as [|k]; [done|]. cbn [digit_run]. destruct Hk as [?|[_ [->|Hn]]]; [simpl in *; lia|by rewrite Z.ltb_irrefl|].
    rewrite Hn. by destruct (p <? e).
  - rewrite blen_cons in *. cbn [app] in HR. pose proof (blen_nonneg ds). apply rest_at_byte in HR as [E HR].
    destruct k as [|k]; [simpl in Hk; lia|]. cbn [digit_run]. zif. rewrite E. unfold digit_char in Hd.
    unfold not_digit at 1. zif. cbn [nan2]. rewrite IH; [|done|lia|].
    + rewrite (Z.add_comm 1 (blen ds)), Z.pow_add_r by lia. change (d :: ds) with ([d] ++ ds).
      rewrite digits_val_app. unfold blen. f_equal; [f_equal; [lia|]|lia]. f_equal. unfold digits_val at 2. simpl. lia.
    + simpl in Hk. replace (p + 1 + blen ds) with (p + (1 + blen ds)) by lia. destruct Hk as [?|[? ?]]; [left; lia|right].
      split; [lia|]. destruct H1; [left; lia|by right].
Qed.

Lemma skip_digits_spec k ds r p e :
  rest_at s p (ds ++ r) -> Forall digit_char ds -> p + blen ds <= e -> (length ds <= k)%nat ->
  p + blen ds = e \/ not_digit (at_ s (p + blen ds)) = true ->
  skip_digits (at_ s) k p e = p + blen ds.
Proof.
  intros HR HD. revert k p HR. induction HD as [|d ds Hd _ IH]; intros k p HR He Hk Hn.
  - rewrite blen_nil, Z.add_0_r in *. destruct k as [|k]; [done|]. cbn [skip_digits].
    destruct Hn as [->|Hn]; [by rewrite Z.ltb_irrefl|]. rewrite Hn. by destruct (p <? e).
  - rewrite blen_cons in *. cbn [app] in HR. pose proof (blen_nonneg ds). apply rest_at_byte in HR as [E HR].
    destruct k as [|k]; [simpl in Hk; lia|]. cbn [skip_digits]. zif. rewrite E. unfold digit_char in Hd.
    unfold not_digit at 1. zif. rewrite IH; [lia|done|lia|simpl in Hk; lia|].
    replace (p + 1 + blen ds) with (p + (1 + blen ds)) by lia. destruct Hn; [left; lia|by right].
Qed.

Lemma zone_head z sfx q e : rest_at s q (zone_text z ++ sfx) -> q + blen (zone_text z) = e ->
  (q = e /\ z = ZNone) \/
  (q < e /\ exists c, (c = 43 \/ c = 45 \/ c = 90) /\ at_ s q = Some c /\ forall d, is_at (at_ s) q d = bool_decide (c = d)).
Proof.
  intros HR He. destruct z as [| |neg h rest]; cbn [zone_text app] in HR, He.
  - left. rewrite blen_nil in He. split; [lia|done].
  - right. rewrite blen_cons, blen_nil in He. split; [lia|]. exists 90. split; [tauto|]. by apply at_is in HR.
  - right. rewrite blen_cons in He. pose proof (blen_nonneg (pad 2 h ++
      match rest with None => [] | Some (m, s) => 58 :: pad 2 m ++ match s with None => [] | Some s => 58 :: pad 2 s end end)).
    split; [lia|]. eexists. split; [|by apply at_is in HR]. destruct neg; tauto.
Qed.

Lemma zone_end z sfx q e : rest_at s q (zone_text z ++ sfx) -> q + blen (zone_text z) = e ->
  q = e \/ not_digit (at_ s q) = true.
Proof.
  intros HR He. destruct (zone_head _ _ _ _ HR He) as [[-> _]|(_ & c & Hc & -> & _)]; [by left|].
  right. destruct Hc as [->|[->| ->]]; done.
Qed.

Lemma zone_spec z sfx p e : rest_at s p (zone_text z ++ sfx) -> p + blen (zone_text z) = e -> zone_ok z ->
  zone (at_ s) p e = (e, Some (zone_secs z)).
Proof.
  intros HR He Hz. destruct (zone_head _ _ _ _ HR He) as [[-> ->]|(Hlt & c & Hc & Ec & Hat)].
  { unfold zone. by rewrite Z.ltb_irrefl. }
  unfold zone. rewrite !Hat. replace (p <? e) with true by (symmetry; lia). destruct z as [| |neg h rest]; cbn [zone_text app] in HR, He.
  { rewrite blen_nil in He. lia. }
  { apply rest_at_byte in HR as [E _]. assert (c = 90) as -> by congruence. simpl. rewrite blen_cons, blen_nil in He.
    f_equal. lia. }
  destruct Hz as [Hh Hrest]. apply rest_at_byte in HR as [E HR]. rewrite <- !app_assoc in HR.
  assert (c = if neg then 45 else 43) as -> by congruence. clear Hc.
  destruct (two_pad _ _ _ HR Hh) as [-> HR2]. clear HR.
  replace (bool_decide ((if neg then 45 else 43) = 43) || bool_decide ((if neg then 45 else 43) = 45)) with true by (by destruct neg).
  replace (if bool_decide ((if neg then 45 else 43) = 45) then -1 else 1) with (if neg then -1 else 1) by (by destruct neg).
  cbn [andb]. cbv zeta. rewrite blen_cons, blen_app in He. unfold blen at 1 in He. rewrite length_pad in He.
  destruct rest as [[m so]|].
  2:{ rewrite blen_nil in He. replace (p + 1 + 2 <? e) with false by (symmetry; lia). cbn [andb nan2 zone_secs]. f_equal; [lia|]. f_equal. destruct neg; lia. }
  destruct Hrest as [Hm Hs]. cbn [app] in HR2. rewrite blen_cons, blen_app in He. unfold blen at 1 in He. rewrite length_pad in He.
  destruct (at_is _ _ _ HR2) as [_ Hat2]. rewrite Hat2. apply rest_at_byte in HR2 as [_ HR2]. rewrite <- !app_assoc in HR2.
  destruct (two_pad _ _ _ HR2 Hm) as [-> HR3].
  replace (p + 1 + 2 <? e) with true by (pose proof (blen_nonneg (match so with None => [] | Some s => 58 :: pad 2 s end)); symmetry; lia).
  replace (bool_decide (58 = 58)) with true by done. cbn [andb].
  destruct so as [sc|].
  2:{ rewrite blen_nil in He. replace (p + 1 + 2 + 1 + 2 <? e) with false by (symmetry; lia). cbn [andb nan2 zone_secs default].
      f_equal; [lia|]. f_equal. destruct neg; simpl; lia. }
  cbn [app] in HR3. rewrite blen_cons in He. unfold blen in He. rewrite length_pad in He.
  destruct (at_is _ _ _ HR3) as [_ Hat3]. rewrite Hat3. apply rest_at_byte in HR3 as [_ HR3].
  destruct (two_pad _ _ _ HR3 Hs) as [-> _]. replace (p + 1 + 2 + 1 + 2 <? e) with true by (symmetry; lia).
  cbn [andb nan2 zone_secs default]. replace (bool_decide (58 = 58)) with true by done. cbn [nan2].
  f_equal; [lia|]. f_equal. destruct neg; simpl; lia.
Qed.

Lemma frac_ms_take ds : digits_val (take 3 ds) * 10 ^ (3 - blen (take 3 ds)) = frac_ms (Some ds).
Proof.
  unfold frac_ms, blen, digits_val. destruct ds as [|a [|b [|c ds]]]; cbn [take length app foldl];
    match goal with |- context [10 ^ ?x] => let v := eval vm_compute in (10 ^ x) in change (10 ^ x) with v end;
    rewrite ?firstn_O; cbn [foldl]; lia.
Qed.

Lemma fraction_spec f z sfx p e : rest_at s p (frac_text f ++ zone_text z ++ sfx) ->
  p + blen (frac_text f ++ zone_text z) = e -> match f with None => True | Some ds => Forall digit_char ds end ->
  fraction (at_ s) p e = (p + blen (frac_text f), Some (frac_ms f)).
Proof.
  intros HR He Hf. rewrite blen_app in He. pose proof (blen_nonneg (zone_text z)) as Hz. unfold fraction. destruct f as [ds|]; cbn [frac_text app] in *.
  2:{ rewrite blen_nil, Z.add_0_r in *. assert (p + blen (zone_text z) = e) as Hp by lia.
      destruct (zone_head _ _ _ _ HR Hp) as [[-> _]|(_ & c & Hc & _ & ->)].
      - by rewrite Z.ltb_irrefl.
      - replace (bool_decide (c = 46)) with false by (symmetry; apply bool_decide_false; lia). by rewrite andb_false_r. }
  rewrite blen_cons in He. pose proof (blen_nonneg ds). destruct (at_is _ _ _ HR) as [_ ->]. replace (p <? e) with true by (symmetry; lia).
  replace (bool_decide (46 = 46)) with true by done. cbn [andb].
  apply rest_at_byte in HR as [_ HR]. pose proof HR as HR3. rewrite <- (take_drop 3 ds), <- app_assoc in HR3.
  pose proof (rest_at_app _ _ _ _ HR) as HRz. pose proof (zone_end _ _ _ e HRz ltac:(lia)) as Hend.
  assert (blen (take 3 ds) + blen (drop 3 ds) = blen ds) as Lds by (rewrite <- blen_app, take_drop; done).
  pose proof (blen_nonneg (drop 3 ds)).
  rewrite (digit_run_spec _ _ _ _ _ _ _ HR3); [|by apply Forall_take|lia|].
  - rewrite (skip_digits_spec _ (drop 3 ds) (zone_text z ++ sfx)); rewrite ?(rest_at_app _ _ _ _ HR3); [| |by apply Forall_drop|lia| |].
    + rewrite blen_cons. f_equal; [lia|]. simpl. rewrite !Z.add_0_l. by rewrite frac_ms_take.
    + by apply rest_at_app in HR3.
    + unfold blen in *. lia.
    + replace (p + 1 + blen (take 3 ds) + blen (drop 3 ds)) with (p + 1 + blen ds) by lia. done.
  - destruct (Nat.le_gt_cases 3 (length ds)); [left; rewrite length_take; lia|right].
    rewrite length_take. split; [lia|]. rewrite take_ge by lia. done.
Qed.
End Print.

Lemma finish_spec bc y mo d h mi s ms off :
  two_range mo -> two_range d -> two_range h -> two_range mi -> -1000000 <= s - off <= 1000000 -> 0 <= ms <= 999 ->
  finish bc (Some y) (Some mo) (Some d) (Some h) (Some mi) (Some s) (Some ms) (Some off)
  = TimeClip (utc_ms (if bc then 1 - y else y) (mo - 1) d h mi (s - off) ms).
Proof.
  unfold two_range. intros Hmo Hd Hh Hmi Hs Hms. unfold finish.
  replace (if bc then (fun y => 1 - y) <$> Some y else Some y) with (Some (if bc then 1 - y else y)) by (by destruct bc).
  set (yy := if bc then 1 - y else y). clearbody yy. cbn [fmap option_fmap option_map utc mbind option_bind nan2].
  unfold Date_UTC. destruct ((0 <=? yy) && (yy <=? 99)) eqn:E.
  - b2p_all. simpl (400 =? 0). cbv iota. zif. rewrite utc_ms_400.
    assert (- 100000000000000 <= utc_ms yy (mo - 1) d h mi (s - off) ms <= 100000000000000) as Hb.
    { unfold utc_ms, MakeDate, MakeDay, MakeTime, msPerDay. pose proof (leap_len (leap (yy + (mo - 1) / 12)) ((mo - 1) mod 12)) as Hl.
      pose proof (Z.mod_pos_bound (mo - 1) 12). specialize (Hl ltac:(lia)).
      assert (-1 <= (mo - 1) / 12 <= 9) as Hq by (Z.to_euclidean_division_equations; lia).
      generalize dependent (month_start (leap (yy + (mo - 1) / 12)) ((mo - 1) mod 12)).
      intros w Hw. revert Hq. generalize ((mo - 1) / 12). intros q Hq.
      assert (-800000 <= DayFromYear (yy + q) <= 0) by (unfold DayFromYear; Z.to_euclidean_division_equations; lia). lia. }
    unfold TimeClip, MAX_TIME in *. zif. zif. simpl. f_equal. unfold Y400_MS. lia.
  - simpl (0 =? 0). cbv iota. rewrite Z.add_0_r, E. done.
Qed.

Lemma zone_secs_range z : zone_ok z -> -400000 <= zone_secs z <= 400000.
Proof.
  unfold zone_ok, zone_secs, two_range. destruct z as [| |neg h rest]; [lia..|]. destruct rest as [[m [s|]]|]; destruct neg; cbn [default from_option id]; intros; lia.
Qed.
Lemma frac_ms_range f : match f with None => True | Some ds => Forall digit_char ds end -> 0 <= frac_ms f <= 999.
Proof.
  unfold frac_ms, digits_val. destruct f as [ds|]; [|lia]. unfold digit_char.
  destruct ds as [|a [|b [|c ds]]]; rewrite ?Forall_cons; intros; cbn [app take foldl]; rewrite ?firstn_O; cbn [foldl]; lia.
Qed.

Lemma year_text_spec y : 0 <= y ->
  Forall digit_char (year_text y) /\ digits_val (year_text y) = y /\ 4 <= blen (year_text y).
Proof.
  intros Hy. unfold year_text. destruct (Z.ltb_spec y 10000).
  - split; [apply pad_digits|]. rewrite digits_val_pad. split; [|unfold blen; by rewrite length_pad].
    apply Z.mod_small. change (10 ^ Z.of_nat 4) with 10000. lia.
  - destruct (digits_spec y Hy) as (V & D & NE & H0). split; [done|]. split; [done|].
    assert (digits_val (digits y) < 10 ^ blen (digits y)) as Hlt.
    { revert D. clear. generalize (digits y). intros k. induction k as [|c l IH] using rev_ind; [done|].
      intros [D [Hc _]%Forall_cons]%Forall_app. specialize (IH D). rewrite digits_val_app, blen_app.
      change (blen [c]) with 1. unfold blen in *. rewrite Z.pow_add_r by lia. change (10 ^ Z.of_nat (length [c])) with 10.
      change (digits_val [c]) with (0 * 10 + (c - 48)). change (10 ^ 1) with 10. unfold digit_char in Hc. lia. }
    rewrite V in Hlt. destruct (Z.le_gt_cases 4 (blen (digits y))); [done|].
    assert (10 ^ blen (digits y) <= 10 ^ 3) by (apply Z.pow_le_mono_r; lia). lia.
Qed.

Lemma core_no_C t : ts_ok t -> Forall (fun c => c <> 67) (core_text t).
Proof.
  intros (Hy & _ & _ & Ht). destruct (year_text_spec _ Hy) as (HD & _).
  assert (forall l, Forall digit_char l -> Forall (fun c => c <> 67) l) as G
    by (intros l Hl; eapply Forall_impl; [exact Hl|]; unfold digit_char; intros; lia).
  assert (forall n z, Forall (fun c => c <> 67) (pad n z)) as Gp by (intros; apply G, pad_digits).
  unfold core_text. repeat first [apply Gp | apply (G _ HD) | apply Forall_app; split | apply Forall_cons; split; [lia|]].
  destruct (ttime t) as [m|]; [|done]. destruct Ht as (Hsep & _ & _ & _ & Hf & _).
  unfold time_text. repeat first [apply Gp | apply Forall_app; split | apply Forall_cons; split; [lia|]].
  - destruct (tfrac m); [|done]. apply Forall_cons. split; [done|]. by apply G.
  - destruct (tzone m) as [| |neg h rest]; [| |destruct rest as [[mm [ss|]]|]]; cbn [zone_text];
      repeat first [apply List.Forall_nil | apply Gp | apply Forall_app; split | apply Forall_cons; split; [try destruct neg; lia|]].
Qed.

Lemma bc_suffix_text t : ts_ok t -> bc_suffix (at_ (ts_text t)) 0 (blen (ts_text t)) = tbc t.
Proof.
  intros Ht. pose proof (core_no_C t Ht) as HC. unfold ts_text, bc_suffix. destruct (tbc t).
  - rewrite blen_app. change (blen (js " BC")) with 3. pose proof (blen_nonneg (core_text t)).
    replace (3 <=? blen (core_text t) + 3 - 0) with true by (symmetry; lia). cbn [andb].
    assert (rest_at (core_text t ++ js " BC") (blen (core_text t)) (js " BC")) as HR.
    { pose proof (rest_at_app _ _ _ _ (rest_at_0 (core_text t ++ js " BC"))) as H1. by rewrite Z.add_0_l in H1. }
    change (js " BC") with [32; 66; 67] in *.
    destruct (at_is _ _ _ _ HR) as [_ H1]. apply rest_at_byte in HR as [_ HR].
    destruct (at_is _ _ _ _ HR) as [_ H2]. apply rest_at_byte in HR as [_ HR].
    destruct (at_is _ _ _ _ HR) as [_ H3].
    replace (blen (core_text t) + 3 - 1) with (blen (core_text t) + 1 + 1) by lia.
    replace (blen (core_text t) + 3 - 2) with (blen (core_text t) + 1) by lia.
    replace (blen (core_text t) + 3 - 3) with (blen (core_text t)) by lia. by rewrite H1, H2, H3.
  - rewrite app_nil_r. replace (is_at _ _ 67) with false; [by rewrite andb_false_r|].
    symmetry. unfold is_at. apply bool_decide_false. unfold at_. destruct (_ <? 0); [done|]. intros E.
    eapply Forall_lookup in HC; [|exact E]. done.
Qed.

(** From the date on, once the era suffix is set aside. *)
Lemma instant_body_core t s : ts_ok t ->
  s = ts_text t -> instant_body (at_ s) 0 (blen s) = Some (TimeClip (ts_ms t)).
Proof.
  intros Hok ->. unfold instant_body. rewrite bc_suffix_text by done. cbv zeta.
  replace (if tbc t then blen (ts_text t) - 3 else blen (ts_text t)) with (blen (core_text t))
    by (unfold ts_text; destruct (tbc t); rewrite blen_app; [change (blen (js " BC")) with 3|change (blen []) with 0]; lia).
  pose proof (rest_at_0 (ts_text t)) as HR. unfold ts_text at 2 in HR.
  generalize dependent (ts_text t). intros s HR. generalize dependent (if tbc t then js " BC" else []). intros sfx HR.
  destruct Hok as (Hy & Hmo & Hd & Ht). destruct (year_text_spec _ Hy) as (HD & HV & H4).
  unfold core_text in HR |- *. set (tmt := match ttime t with Some tm => time_text tm | None => [] end) in *.
  repeat (rewrite <- app_assoc in HR; cbn [app] in HR).
  set (e := blen _).
  assert (e = blen (year_text (tyear t)) + 6 + blen tmt) as He.
  { unfold e. rewrite blen_app, blen_cons, blen_app, blen_cons, blen_app, !blen_pad. lia. }
  clearbody e. pose proof (blen_nonneg tmt). pose proof (rest_at_app _ _ _ _ HR) as HR1. rewrite Z.add_0_l in HR1.
  destruct (at_is _ _ _ _ HR1) as [E1 Hq1].
  rewrite (digit_run_spec s _ _ _ _ _ _ _ HR HD); [|lia|].
  2:{ right. split; [unfold blen in *; lia|]. right. rewrite Z.add_0_l, E1. done. }
  rewrite HV, ?Z.mul_0_l, ?Z.add_0_l, Hq1. set (q := blen (year_text (tyear t))) in *.
  apply rest_at_byte in HR1 as [_ HR1]. destruct (two_pad _ _ _ _ HR1 Hmo) as [-> HR2].
  destruct (at_is _ _ _ _ HR2) as [_ Hq2]. replace (q + 1 + 2) with (q + 3) in Hq2, HR2 by lia. rewrite Hq2.
  apply rest_at_byte in HR2 as [_ HR2]. replace (q + 3 + 1) with (q + 1 + 3) in HR2 by lia.
  destruct (two_pad _ _ _ _ HR2 Hd) as [-> HR3].
  replace (q <? 4) with false by (symmetry; lia).
  replace (e - q <? 6) with false by (symmetry; lia). cbn [orb negb]. change (bool_decide (45 = 45)) with true. cbn [orb negb].
  unfold ts_ms. destruct (ttime t) as [m|]; subst tmt.
  2:{ rewrite blen_nil in He. replace (q + 1 + 3 + 2 <? e) with false by (symmetry; lia). cbn [andb].
      replace (q + 1 + 3 + 2 =? e) with true by (symmetry; lia). cbn [negb]. rewrite finish_spec; unfold two_range; try done; lia. }
  destruct Ht as (Hsep & Hh & Hmi & Hs & Hf & Hz). unfold time_text in HR3, He. cbn [app] in HR3.
  repeat (rewrite <- app_assoc in HR3; cbn [app] in HR3).
  rewrite blen_cons, blen_app, blen_cons, blen_app, blen_cons, blen_app in He.
  rewrite !blen_pad in He.
  set (f := frac_text (tfrac m)) in *. set (zt := zone_text (tzone m)) in *. pose proof (blen_nonneg (f ++ zt)).
  destruct (at_is _ _ _ _ HR3) as [_ Hsp]. rewrite !Hsp. apply rest_at_byte in HR3 as [_ HR3].
  replace (q + 1 + 3 + 2 <? e) with true by (symmetry; lia).
  replace (bool_decide (tsep m = 32) || bool_decide (tsep m = 84)) with true by (destruct Hsep as [->| ->]; done). cbn [andb].
  set (u := q + 1 + 3 + 2 + 1) in *.
  destruct (two_pad _ _ _ _ HR3 Hh) as [-> HR4]. destruct (at_is _ _ _ _ HR4) as [_ ->]. apply rest_at_byte in HR4 as [_ HR4].
  replace (u + 2 + 1) with (u + 3) in HR4 by lia.
  destruct (two_pad _ _ _ _ HR4 Hmi) as [-> HR5]. replace (u + 3 + 2) with (u + 5) in HR5 by lia.
  destruct (at_is _ _ _ _ HR5) as [_ ->]. apply rest_at_byte in HR5 as [_ HR5].
  replace (u + 5 + 1) with (u + 3 + 3) in HR5 by lia. destruct (two_pad _ _ _ _ HR5 Hs) as [-> HR6].
  replace (e - u <? 8) with false by (symmetry; lia). change (bool_decide (58 = 58)) with true. cbn [orb negb].
  rewrite (fraction_spec _ _ (tzone m) sfx _ _ HR6); [|fold f zt; lia|done].
  apply rest_at_app in HR6. rewrite blen_app in He. rewrite (zone_spec _ _ _ _ _ HR6); [|fold f zt; lia|done].
  rewrite Z.eqb_refl. cbn [negb]. pose proof (zone_secs_range _ Hz). pose proof (frac_ms_range _ Hf).
  rewrite finish_spec; unfold two_range in *; try done; lia.
Qed.

Lemma digit_run_count rd k p e acc n : (digit_run rd k p e acc n).2 - n = (digit_run rd k p e acc n).1.1 - p.
Proof.
  revert p acc n. induction k as [|k IH]; intros p acc n; cbn [digit_run]; [simpl; lia|].
  destruct (p <? e); [|simpl; lia]. destruct (not_digit (rd p)); [simpl; lia|]. specialize (IH (p + 1) (nan2 (fun a c => a * 10 + (c - 48)) acc (rd p)) (n + 1)). lia.
Qed.

(** A text of less than six characters is no date. *)
Lemma instant_body_short rd p e : e - p < 6 -> instant_body rd p e = None.
Proof.
  intros H. unfold instant_body. cbv zeta. set (e' := if bc_suffix rd p e then e - 3 else e).
  assert (e' - p < 6) by (unfold e'; destruct (bc_suffix _ _ _); lia). clearbody e'.
  assert (p <= (digit_run rd (Z.to_nat (e' - p)) p e' (Some 0) 0).1.1)
    by (apply (digit_run_agree rd rd p e'); [done|lia..]).
  destruct (digit_run rd _ p e' _ _) as [[q Y] n]. simpl in *. replace (e' - q <? 6) with true by (symmetry; lia).
  by rewrite !orb_true_r.
Qed.

Lemma at_mid pre s post i : 0 <= i < blen s -> at_ (pre ++ s ++ post) (blen pre + i) = at_ s i.
Proof.
  intros Hi. unfold at_, blen in *. zif. zif.
  rewrite lookup_app_r by lia. rewrite lookup_app_l by lia. f_equal. lia.
Qed.

Lemma at_mid0 pre s post : 0 < blen s -> at_ (pre ++ s ++ post) (blen pre) = at_ s 0.
Proof. intros. rewrite <- (at_mid pre s post 0) by lia. by rewrite Z.add_0_r. Qed.

(** A reader moved by [k]: the Buffer version indexes from the start of the
    buffer, the string version from the start of the text. *)
Section Shift.
Context (rd : Z -> option Z) (k : Z).
Let sh (i : Z) : option Z := rd (k + i).

Lemma is_at_shift i c : is_at sh i c = is_at rd (k + i) c.
Proof. done. Qed.
Lemma two_shift i : two sh i = two rd (k + i).
Proof. unfold two, sh. by rewrite Z.add_assoc. Qed.
Lemma ltb_shift p e : (k + p <? k + e) = (p <? e).
Proof. lia. Qed.

Lemma digit_run_shift n p e acc c :
  digit_run rd n (k + p) (k + e) acc c
  = (let '(q, v, m) := digit_run sh n p e acc c in (k + q, v, m)).
Proof.
  revert p acc c. induction n as [|n IH]; intros p acc c; [done|]. cbn [digit_run]. rewrite ltb_shift.
  destruct (p <? e); [|done]. change (rd (k + p)) with (sh p). destruct (not_digit (sh p)); [done|].
  by rewrite <- Z.add_assoc, IH.
Qed.

Lemma skip_digits_shift n p e : skip_digits rd n (k + p) (k + e) = k + skip_digits sh n p e.
Proof.
  revert p. induction n as [|n IH]; intros p; [done|]. cbn [skip_digits]. rewrite ltb_shift.
  destruct (p <? e); [|done]. change (rd (k + p)) with (sh p). destruct (not_digit (sh p)); [done|].
  by rewrite <- Z.add_assoc, IH.
Qed.

Lemma fraction_shift p e : fraction rd (k + p) (k + e) = (let '(q, v) := fraction sh p e in (k + q, v)).
Proof.
  unfold fraction. rewrite ltb_shift, is_at_shift. destruct (_ && _); [|done].
  rewrite <- Z.add_assoc, digit_run_shift. destruct (digit_run sh 3 (p + 1) e (Some 0) 0) as [[q f] n].
  rewrite skip_digits_shift. by replace (k + e - (k + q)) with (e - q) by lia.
Qed.

Lemma zone_shift p e : zone rd (k + p) (k + e) = (let '(q, v) := zone sh p e in (k + q, v)).
Proof.
  unfold zone. cbv zeta. rewrite <- !Z.add_assoc, !ltb_shift, !is_at_shift, !two_shift.
  repeat (case_match; simplify_eq; try done).
Qed.

Lemma instant_body_shift p e : instant_body rd (k + p) (k + e) = instant_body sh p e.
Proof.
  unfold instant_body. cbv zeta.
  assert (bc_suffix rd (k + p) (k + e) = bc_suffix sh p e) as ->.
  { unfold bc_suffix. rewrite !is_at_shift. by replace (k + e - (k + p)) with (e - p) by lia;
      replace (k + (e - 1)) with (k + e - 1) by lia; replace (k + (e - 2)) with (k + e - 2) by lia;
      replace (k + (e - 3)) with (k + e - 3) by lia. }
  replace (if bc_suffix sh p e then k + e - 3 else k + e) with (k + (if bc_suffix sh p e then e - 3 else e))
    by (destruct (bc_suffix sh p e); lia).
  set (e' := if bc_suffix sh p e then e - 3 else e). replace (k + e' - (k + p)) with (e' - p) by lia.
  rewrite digit_run_shift. destruct (digit_run sh _ p e' (Some 0) 0) as [[q Y] n].
  rewrite <- !Z.add_assoc, !ltb_shift, !is_at_shift, !two_shift.
  replace (k + e' - (k + q)) with (e' - q) by lia. destruct (_ || _); [done|].
  replace (k + e' - (k + (q + (1 + (3 + (2 + 1)))))) with (e' - (q + (1 + (3 + (2 + 1))))) by lia.
  rewrite fraction_shift. destruct (fraction sh _ e') as [r ms]. rewrite zone_shift. destruct (zone sh r e') as [z off].
  replace (k + z =? k + e') with (z =? e') by lia.
  by replace (k + (q + (1 + (3 + 2))) =? k + e') with (q + (1 + (3 + 2)) =? e') by lia.
Qed.
End Shift.

Lemma instant_bytes_body pre s post : instant_body (at_ (pre ++ s ++ post)) (blen pre) (blen pre + blen s)
  = instant_body (at_ s) 0 (blen s).
Proof.
  pose proof (instant_body_shift (at_ (pre ++ s ++ post)) (blen pre) 0 (blen s)) as H. rewrite Z.add_0_r in H. rewrite H.
  pose proof (blen_nonneg s). apply (instant_body_agree _ _ 0 (blen s)); [|lia..]. intros. by apply at_mid.
Qed.

Lemma starts_inf_mid pre s post : 2 <= blen s -> starts_inf (at_ (pre ++ s ++ post)) (blen pre) = starts_inf (at_ s) 0.
Proof.
  intros H. unfold starts_inf, is_at. rewrite at_mid0, at_mid by lia. done.
Qed.

(** The generated snippet is the Buffer parser, on any buffer. *)
Lemma template_bytes b o l : instantFromBytes b o l = (let '(out, ok) := instantTemplate b o l in if ok then Some out else None).
Proof.
  unfold instantFromBytes, instantTemplate. destruct (starts_inf (at_ b) o); [by destruct (_ =? _)|apply snippet_body_spec].
Qed.

(** C22: The temporal text parsers agree. For any text [s] inside any buffer the
    snippet spliced into generated mappers clears [ok] exactly when the Buffer
    version returns undefined and otherwise computes the same instant; and the
    Buffer version on the cell is the string version on its text, whatever bytes
    surround the cell, for every text that does not start with an 'i' or '-i' other
    than the two infinities. *)
Theorem instant_parsers_agree pre s post :
  (starts_inf (at_ s) 0 = true -> s = js "infinity" \/ s = js "-infinity") ->
  let b := pre ++ s ++ post in
  instantFromBytes b (blen pre) (blen s) = instantFromString s
  /\ instantFromBytes b (blen pre) (blen s)
     = (let '(out, ok) := instantTemplate b (blen pre) (blen s) in if ok then Some out else None).
Proof.
  intros Hinf b. split.
  - unfold instantFromBytes, instantFromString. destruct (Z.ltb_spec (blen s) 2) as [Hs|Hs].
    + assert (instant_body (at_ b) (blen pre) (blen pre + blen s) = None) as -> by (apply instant_body_short; lia).
      assert (starts_inf (at_ s) 0 = false) as ->.
      { destruct (starts_inf (at_ s) 0); [|done]. by destruct (Hinf eq_refl) as [-> | ->]. }
      rewrite instant_body_short by lia. destruct (starts_inf (at_ b) (blen pre)); [|done].
      unfold inf_len. by destruct (is_at _ _ _); zif.
    + unfold b. rewrite starts_inf_mid, instant_bytes_body by done. destruct (starts_inf (at_ s) 0) eqn:E; [|done].
      unfold inf_len, is_at. rewrite at_mid0 by lia.
      by destruct (Hinf eq_refl) as [-> | ->]; vm_compute.
  - apply template_bytes.
Qed.

Lemma instant_parsers_agree_witness :
  let s := js "2024-02-29 23:59:59.5+05:30" in
  instantFromBytes ([1; 2] ++ s ++ [45; 67]) (blen [1; 2]) (blen s) = instantFromString s.
Proof. apply (instant_parsers_agree [1; 2] (js "2024-02-29 23:59:59.5+05:30") [45; 67]). vm_compute. discriminate. Defined.

(** Parsing the text PostgreSQL prints for a date, timestamp or timestamptz
    (any year of four or more digits, BC or AD, with or without a time, a fraction
    of any length, a zone offset with minutes and seconds) gives the instant it
    denotes in the proleptic Gregorian calendar, truncated to milliseconds, and NaN
    exactly when that instant is outside the range of a Date; years 0 to 99, which
    Date.UTC takes for 1900 to 1999, are no exception. *)
Theorem instantFromString_print t : ts_ok t -> instantFromString (ts_text t) = Some (TimeClip (ts_ms t)).
Proof.
  intros Hok. unfold instantFromString.
  assert (starts_inf (at_ (ts_text t)) 0 = false) as ->; [|by apply instant_body_core].
  pose proof (rest_at_0 (ts_text t)) as HR. unfold ts_text at 2, core_text in HR.
  destruct Hok as (Hy & _). destruct (year_text_spec _ Hy) as (HD & _ & H4).
  destruct (year_text (tyear t)) as [|c l]; [rewrite blen_nil in H4; lia|].
  repeat (rewrite <- app_assoc in HR; cbn [app] in HR). destruct (at_is _ _ _ _ HR) as [_ Hat].
  unfold starts_inf. rewrite !Hat. apply Forall_cons in HD as [Hc _]. unfold digit_char in Hc.
  rewrite !bool_decide_false by lia. done.
Qed.

Lemma instantFromString_print_witness :
  instantFromString (js "0044-03-15 12:00:00.123456-00:00:30 BC") = Some (Some (-63517780769877)).
Proof.
  refine (instantFromString_print
    (mkTs 44 true 3 15 (Some (mkTime 32 12 0 0 (Some (js "123456")) (ZOff true 0 (Some (0, Some 30)))))) _).
  repeat split; cbn; try lia. repeat (apply List.Forall_cons; [vm_compute; split; discriminate|]). apply List.Forall_nil.
Defined.

(** The ISO text of a Date of the years 0 to 9999, read back. *)
Definition ts_of_time (t : Z) : pgts :=
  mkTs (YearFromTime t) false (MonthFromTime t + 1) (DateFromTime t)
    (Some (mkTime 84 (HourFromTime t) (MinFromTime t) (SecFromTime t) (Some (pad 3 (msFromTime t))) ZUtc)).

Lemma iso_ts_text t : 0 <= YearFromTime t <= 9999 -> iso t = ts_text (ts_of_time t).
Proof.
  intros Hy. unfold iso, ts_text, core_text, year_text, ts_of_time. cbn [tyear tbc tmon tday ttime tsep thh tmi tss tfrac tzone].
  zif. zif. rewrite app_nil_r. done.
Qed.

(** A Date of the years 0 to 9999 sent to the server as ISO text and read back
    by the text parsers is the same instant. *)
Theorem instantFromString_iso t :
  0 <= YearFromTime t <= 9999 -> instantFromString (iso t) = Some (Some t).
Proof.
  intros Hy. rewrite iso_ts_text by done. pose proof (date_fields t) as (Hm & Hd & Hh & Hmi & Hs & Hms).
  rewrite instantFromString_print.
  - unfold ts_ms, ts_of_time. cbn [tyear tbc tmon tday ttime thh tmi tss tfrac tzone zone_secs].
    assert (frac_ms (Some (pad 3 (msFromTime t))) = msFromTime t) as ->.
    { unfold frac_ms. rewrite take_app_exact by done. rewrite digits_val_pad. apply Z.mod_small. lia. }
    rewrite Z.add_simpl_r, Z.sub_0_r, utc_ms_fields. unfold TimeClip.
    assert (Z.abs t <= MAX_TIME) as Ht; [|by apply Z.leb_le in Ht as ->].
    unfold YearFromTime in Hy. pose proof (year_of_day_spec (Day t)) as H. revert H Hy. generalize (year_of_day (Day t)).
    clear. unfold DayFromYear, Day, msPerDay, MAX_TIME. intros y. Z.to_euclidean_division_equations. lia.
  - unfold ts_of_time, ts_ok, time_ok, two_range. cbn [tyear tbc tmon tday ttime tsep thh tmi tss tfrac tzone].
    repeat split; try lia; try done. apply pad_digits.
Qed.
Lemma instantFromString_iso_witness : instantFromString (iso 951825600123) = Some (Some 951825600123).
Proof. apply instantFromString_iso. vm_compute. split; discriminate. Defined.

Lemma be_app n k z : be (n + k) z = be n (z / 256 ^ Z.of_nat k) ++ be k z.
Proof.
  induction n as [|n IH]; [done|]. cbn [Nat.add be app]. rewrite IH. f_equal. f_equal.
  rewrite Z.div_div by (apply Z.pow_nonzero || apply Z.pow_pos_nonneg; lia). rewrite <- Z.pow_add_r by lia. f_equal. f_equal. lia.
Qed.

(** The two int32 halves of an int64 read as [hi * 2^32 + lo]. *)
Lemma rd64_halves b o v r : rest_at b o (be 8 v ++ r) -> -2 ^ 63 <= v < 2 ^ 63 ->
  rd32 b o = v / 2 ^ 32 /\ u32 (rd32 b (o + 4)) = v mod 2 ^ 32.
Proof.
  intros HR Hv. change (be 8 v) with (be (4 + 4) v) in HR. rewrite be_app, <- app_assoc in HR. destruct (rd32_spec _ _ _ _ HR) as [-> HR2].
  destruct (rd32_spec _ _ _ _ HR2) as [-> _]. change (256 ^ Z.of_nat 4) with (2 ^ 32). split.
  - apply to_signed_mod; [lia|]. change (2 ^ (32 - 1)) with 2147483648. change (2 ^ 63) with (2147483648 * 2 ^ 32) in Hv.
    change (2 ^ 32) with 4294967296 in *. Z.to_euclidean_division_equations. lia.
  - unfold u32, to_signed. destruct (_ <=? _); [|by rewrite Z.mod_mod by done].
    replace (v mod 2 ^ 32 - 2 ^ 32) with (v mod 2 ^ 32 + -1 * 2 ^ 32) by lia. by rewrite Z.mod_add, Z.mod_mod by done.
Qed.

Lemma bin_ts_floor b o v r : rest_at b o (be 8 v ++ r) -> -2 ^ 63 <= v < 2 ^ 63 ->
  let ms := v / 1000 + PG_EPOCH_MS in
  let out := binTimestampMs b o in
  if Z.abs ms <=? MAX_TIME then out = ms else MAX_TIME < Z.abs out.
Proof.
  intros HR Hv ms out.
  destruct (rd64_halves _ _ _ _ HR Hv) as [Ehi Elo]. unfold out, binTimestampMs. rewrite Ehi, Elo. clear HR out Ehi Elo.
  change (2 ^ 63) with 9223372036854775808 in Hv. unfold ms, PG_EPOCH_MS, MAX_TIME. clear ms.
  assert (-2147483648 <= v / 2 ^ 32 <= 2147483647) as Hhi by (change (2 ^ 32) with 4294967296; Z.to_euclidean_division_equations; lia).
  assert (0 <= v mod 2 ^ 32 < 4294967296) as Hlo by (apply Z.mod_pos_bound; lia).
  assert (v = v / 2 ^ 32 * 4294967296 + v mod 2 ^ 32) as Ev by (change (2 ^ 32) with 4294967296; Z.to_euclidean_division_equations; lia).
  set (hi := v / 2 ^ 32) in *. set (lo := v mod 2 ^ 32) in *. clearbody hi lo. subst v.
  change (2 ^ 53) with 9007199254740992 in *. pose proof fl_small as FS. change (2 ^ 53) with 9007199254740992 in FS.
  rewrite (FS (hi * 296)) by lia. rewrite (FS (hi * 296 + lo)) by lia.
  assert ((hi * 4294967296 + lo) / 1000 = hi * 4294967 + (hi * 296 + lo) / 1000) as ->.
  { replace (hi * 4294967296 + lo) with (hi * 296 + lo + hi * 4294967 * 1000) by lia. rewrite Z.div_add by lia. lia. }
  assert (-700000000 <= (hi * 296 + lo) / 1000 <= 700000000) as Hq by (Z.to_euclidean_division_equations; lia).
  set (q := (hi * 296 + lo) / 1000) in *. clearbody q. clear Hv Hlo.
  destruct (Z.le_gt_cases (Z.abs (hi * 4294967)) 9007199254740992) as [H1|H1].
  - rewrite (FS (hi * 4294967)) by done. set (x := hi * 4294967 + q) in *. clearbody x.
    destruct (Z.le_gt_cases (Z.abs x) 9007199254740992) as [H2|H2].
    + rewrite (FS x) by done. destruct (Z.leb_spec (Z.abs (x + 946684800000)) 8640000000000000); [rewrite FS; lia|].
      apply Z.lt_le_trans with 8640000000000001; [done|]. apply fl_side; lia.
    + destruct (Z.leb_spec (Z.abs (x + 946684800000)) 8640000000000000); [lia|].
      apply Z.lt_le_trans with 9000000000000000; [done|]. apply fl_side; [lia|]. destruct (fl_side2 9007199254740992 x) as [[? ?]|[? ?]]; lia.
  - destruct (Z.leb_spec (Z.abs (hi * 4294967 + q + 946684800000)) 8640000000000000); [lia|].
    apply Z.lt_le_trans with 9000000000000000; [done|]. apply fl_side; [lia|]. destruct (fl_side2 9007199254740992 (hi * 4294967)) as [[? ?]|[? ?]]; [lia|lia| |];
      destruct (fl_side2 9007198000000000 (fl (hi * 4294967) + q)) as [[? ?]|[? ?]]; lia.
Qed.

(** The binary timestamp read returns the floor of the microseconds to a
    millisecond of the Unix epoch, exactly, for every int64 whose instant is in the
    range of a Date, although its intermediate products pass 2^53 for other values;
    and every other int64, the two infinities among them, gives a number outside
    the range of a Date. *)
Theorem binTimestampMs_floor pre v post :
  -2 ^ 63 <= v < 2 ^ 63 ->
  let ms := v / 1000 + PG_EPOCH_MS in
  let out := binTimestampMs (pre ++ be 8 v ++ post) (blen pre) in
  if Z.abs ms <=? MAX_TIME then out = ms else MAX_TIME < Z.abs out.
Proof.
  intros Hv. apply (bin_ts_floor _ _ v post); [|exact Hv].
  pose proof (rest_at_app _ _ _ _ (rest_at_0 (pre ++ be 8 v ++ post))) as H. by rewrite Z.add_0_l in H.
Qed.
Lemma binTimestampMs_floor_witness :
  binTimestampMs ([7] ++ be 8 (-1) ++ []) (blen [7]) = -1 / 1000 + PG_EPOCH_MS.
Proof. apply (binTimestampMs_floor [7] (-1) []). split; [discriminate|reflexivity]. Defined.
