(* ===== verification/Value.v ===== *)
(** * JavaScript values

    The values that cross the driver, with the conversions of the language the
    encoders apply to them: [String(v)], [JSON.stringify] and hex. *)

From S2P Require Import Prelude Utf8 Buf Num Dates.

Inductive value : Type :=
| VUndef
| VNull
| VBool (b : bool)
| VNum (n : num)
| VBig (z : Z)
| VStr (s : jstr)
| VBuf (b : bytes)
| VDate (t : option Z)
| VArr (l : list value)
| VObj (fields : list (jstr * value))
(** a symbol or a function, by its [String()] text *)
| VOther (s : jstr).

(** [v == null] *)
Definition nullish (v : value) : bool := match v with VUndef | VNull => true | _ => false end.

(** ** Number to text *)

(** The [k]-digit decimal nearest to p/q, as digits and position: s * 10^(n - k). *)
Definition try_digits (p q n k : Z) : Z :=
  let '(a, b) := if n <=? k then (p * 10 ^ (k - n), q) else (p, q * 10 ^ (n - k)) in rne a b.
(** floor(log10(p/q)) + 1, searched from an estimate. *)
Fixpoint dec_exp (fuel : nat) (p q n : Z) : Z :=
  match fuel with
  | O => n
  | S f =>
    let ge k := if 0 <=? k then q * 10 ^ k <=? p else q <=? p * 10 ^ (- k) in
    if ge n then dec_exp f p q (n + 1) else if ge (n - 1) then n else dec_exp f p q (n - 1)
  end.
Fixpoint shortest (fuel : nat) (p q n k : Z) (x : num) : Z * Z :=
  match fuel with
  | O => (try_digits p q n k, k)
  | S f =>
    let s := try_digits p q n k in
    if (10 ^ (k - 1) <=? s) && (s <? 10 ^ k)
       && bool_decide ((if n <=? k then rnd false s (10 ^ (k - n)) else rnd false (s * 10 ^ (n - k)) 1) = x)
    then (s, k) else shortest f p q n (k + 1) x
  end.

Definition zeros (n : Z) : jstr := replicate (Z.to_nat n) 48.

(** Digits [ds] of value 0.ds * 10^n, laid out as Number::toString does. *)
Definition layout (ds : jstr) (k n : Z) : jstr :=
  if (k <=? n) && (n <=? 21) then ds ++ zeros (n - k)
  else if (0 <? n) && (n <=? 21) then take (Z.to_nat n) ds ++ 46 :: drop (Z.to_nat n) ds
  else if (-6 <? n) && (n <=? 0) then 48 :: 46 :: zeros (- n) ++ ds
  else
    let e := n - 1 in
    let tail := 101 :: (if e <? 0 then 45 else 43) :: digits (Z.abs e) in
    match ds with
    | [d] => d :: tail
    | d :: ds' => d :: 46 :: ds' ++ tail
    | [] => tail
    end.

(** [String(x)]. A safe integer is its decimal digits ("0" for -0). *)
Definition num_str (x : num) : jstr :=
  match safe_int x with
  | Some z => show_Z z
  | None =>
    match x with
    | NaN => js "NaN"
    | Inf neg => (if neg then js "-" else []) ++ js "Infinity"
    | Fin neg m e =>
      let '(p, q) := if 0 <=? e then (m * 2 ^ e, 1) else (m, 2 ^ (- e)) in
      let n := dec_exp 700 p q ((Z.log2 p - Z.log2 q) * 30103 / 100000 + 1) in
      let '(s, k) := shortest 17 p q n 1 (Fin false m e) in
      (if neg then [45] else []) ++ layout (digits (Z.abs s)) k n
    end
  end.

Example num_str_1 : num_str (rnd false 1 10) = js "0.1". Proof. vm_compute. reflexivity. Qed.
Example num_str_2 : num_str (rnd true 5 (10 ^ 324)) = js "-5e-324". Proof. vm_compute. reflexivity. Qed.
Example num_str_3 : num_str (of_Z (10 ^ 21)) = js "1e+21". Proof. vm_compute. reflexivity. Qed.
Example num_str_4 : num_str (of_Z (2 ^ 60)) = js "1152921504606847000". Proof. vm_compute. reflexivity. Qed.

(** ** Hex *)

Definition hex_digit (n : Z) : Z := if n <? 10 then 48 + n else 87 + n.
Definition hex (b : bytes) : jstr := concat ((fun x => [hex_digit (x / 16); hex_digit (x mod 16)]) <$> b).

(** ** JSON.stringify *)

Definition json_escape (c : Z) : jstr :=
  if c =? 34 then [92; 34] else if c =? 92 then [92; 92]
  else if c =? 8 then [92; 98] else if c =? 12 then [92; 102] else if c =? 10 then [92; 110]
  else if c =? 13 then [92; 114] else if c =? 9 then [92; 116]
  else if c <? 32 then [92; 117; 48; 48; hex_digit (c / 16); hex_digit (c mod 16)]
  else [c].
(** An unpaired surrogate is escaped. *)
Definition u_escape (c : Z) : jstr :=
  [92; 117; hex_digit (c / 4096); hex_digit (c / 256 mod 16); hex_digit (c / 16 mod 16); hex_digit (c mod 16)].
Fixpoint quote_body (s : jstr) : jstr :=
  match s with
  | [] => []
  | c :: t =>
    if is_hi c then
      match t with
      | d :: t' => if is_lo d then c :: d :: quote_body t' else u_escape c ++ quote_body t
      | [] => u_escape c
      end
    else if is_lo c then u_escape c ++ quote_body t
    else json_escape c ++ quote_body t
  end.
Definition quote (s : jstr) : jstr := 34 :: quote_body s ++ [34].

Fixpoint join (sep : jstr) (l : list jstr) : jstr :=
  match l with [] => [] | [x] => x | x :: t => x ++ sep ++ join sep t end.

(** [None] is undefined: at the top, a member to leave out, or null in an array. *)
Fixpoint stringify (v : value) : res (option jstr) :=
  match v with
  | VUndef | VOther _ => Ok None
  | VNull => Ok (Some (js "null"))
  | VBool b => Ok (Some (if b then js "true" else js "false"))
  | VNum x => Ok (Some (match x with Fin _ _ _ => num_str x | _ => js "null" end))
  | VBig _ => Throw (TypeError (js "Do not know how to serialize a BigInt"))
  | VStr s => Ok (Some (quote s))
  | VDate (Some t) => Ok (Some (quote (iso t)))
  | VDate None => Ok (Some (js "null"))
  | VBuf b => Ok (Some (js "{" ++ quote (js "type") ++ js ":" ++ quote (js "Buffer") ++ js "," ++ quote (js "data")
                        ++ js ":[" ++ join (js ",") (show_Z <$> b) ++ js "]}"))
  | VArr l =>
    parts ← (fix elems (l : list value) : res (list jstr) :=
      match l with
      | [] => Ok []
      | x :: t => p ← stringify x; ps ← elems t; Ok (default (js "null") p :: ps)
      end) l;
    Ok (Some (js "[" ++ join (js ",") parts ++ js "]"))
  | VObj fs =>
    parts ← (fix members (l : list (jstr * value)) : res (list jstr) :=
      match l with
      | [] => Ok []
      | (k, x) :: t =>
        p ← stringify x; ps ← members t;
        Ok (match p with Some p => (quote k ++ js ":" ++ p) :: ps | None => ps end)
      end) fs;
    Ok (Some (js "{" ++ join (js ",") parts ++ js "}"))
  end.

(** [JSON.stringify] of an object, which always has a text. *)
Definition stringify_text (v : value) : res jstr := o ← stringify v; Ok (default (js "undefined") o).

(** [String(v)] of the values the encoders convert with it. *)
Definition String_ (v : value) : jstr :=
  match v with
  | VNum x => num_str x
  | VBig z => show_Z z
  | VStr s | VOther s => s
  | VBool b => if b then js "true" else js "false"
  | VNull => js "null"
  | VUndef => js "undefined"
  | _ => []
  end.

(** ** Texts of digits need no escaping *)

(** ASCII without NUL, separators, quotes, braces or backslash. *)
Definition plain (c : Z) : Prop := 43 <= c <= 122 /\ c <> 44 /\ c <> 92.

Lemma plain_ascii s : Forall plain s -> ascii s.
Proof. intros H. eapply Forall_impl; [exact H|]. unfold plain. intros; lia. Qed.
Lemma plain_no_nul s : Forall plain s -> Forall (fun c => c <> 0) s.
Proof. intros H. eapply Forall_impl; [exact H|]. unfold plain. intros; lia. Qed.
Lemma latin1_ascii s : ascii s -> latin1 s = s.
Proof. induction 1 as [|c s Hc _ IH]; [done|]. cbn [latin1 fmap list_fmap]. f_equal; [apply Z.mod_small; lia|done]. Qed.

Lemma digits_fuel_plain f n acc : 0 <= n -> Forall plain acc -> Forall plain (digits_fuel f n acc).
Proof.
  revert n acc. induction f as [|f IH]; intros n acc Hn Ha; cbn [digits_fuel]; [done|].
  destruct (Z.ltb_spec n 10).
  - constructor; [unfold plain; lia|done].
  - pose proof (Z.mod_pos_bound n 10). apply IH; [apply Z.div_pos; lia|]. constructor; [unfold plain; lia|done].
Qed.
Lemma digits_plain n : 0 <= n -> Forall plain (digits n).
Proof. intros. apply digits_fuel_plain; [done|constructor]. Qed.
Lemma show_Z_plain z : Forall plain (show_Z z).
Proof.
  unfold show_Z. destruct (Z.ltb_spec z 0); [constructor; [unfold plain; lia|]|]; apply digits_plain; lia.
Qed.

(** Induction that reaches the members of arrays and objects. *)
Section ValueInd.
Context (P : value -> Prop).
Hypothesis Hleaf : forall v, match v with VArr _ | VObj _ => False | _ => True end -> P v.
Hypothesis Harr : forall l, Forall P l -> P (VArr l).
Hypothesis Hobj : forall fs, Forall (fun kv => P kv.2) fs -> P (VObj fs).
Fixpoint value_rec_all (v : value) : P v :=
  match v with
  | VArr l => Harr l ((fix go (l : list value) : Forall P l := match l with
                                   | [] => @List.Forall_nil _ P
                                   | x :: t => @List.Forall_cons _ P x t (value_rec_all x) (go t)
                                   end) l)
  | VObj fs => Hobj fs ((fix go (l : list (jstr * value)) : Forall (fun kv => P kv.2) l := match l with
                                     | [] => @List.Forall_nil _ (fun kv => P kv.2)
                                     | kv :: t => @List.Forall_cons _ (fun kv => P kv.2) kv t (value_rec_all kv.2) (go t)
                                     end) fs)
  | VUndef => Hleaf VUndef I
  | VNull => Hleaf VNull I
  | VBool b => Hleaf (VBool b) I
  | VNum n => Hleaf (VNum n) I
  | VBig z => Hleaf (VBig z) I
  | VStr s => Hleaf (VStr s) I
  | VBuf b => Hleaf (VBuf b) I
  | VDate t => Hleaf (VDate t) I
  | VOther s => Hleaf (VOther s) I
  end.
End ValueInd.

Lemma num_str_plain x : Forall plain (num_str x).
Proof.
  assert (forall ds k n, Forall plain ds -> Forall plain (layout ds k n)) as HL.
  { intros ds k n H. assert (forall m, Forall plain (zeros m)) as Hz by (intros; apply Forall_replicate; unfold plain; lia).
    assert (forall b : bool, Forall plain (101 :: (if b then 45 else 43) :: digits (Z.abs (n - 1)))) as Ht.
    { intros b. constructor; [unfold plain; lia|]. constructor; [destruct b; unfold plain; lia|]. apply digits_plain. lia. }
    unfold layout. case_match; [by apply Forall_app_2|]. case_match.
    { apply Forall_app_2; [by apply Forall_take|]. constructor; [unfold plain; lia|by apply Forall_drop]. }
    case_match; [constructor; [unfold plain; lia|]; constructor; [unfold plain; lia|by apply Forall_app_2]|].
    specialize (Ht (n - 1 <? 0)). destruct ds as [|d [|d' ds]]; [done|by inversion H; constructor|].
    inversion H; subst. constructor; [done|]. constructor; [unfold plain; lia|]. by apply Forall_app_2. }
  unfold num_str. case_match; [apply show_Z_plain|]. destruct x as [|neg|neg m e].
  - repeat (apply List.Forall_cons; [vm_compute; repeat split; discriminate|]). apply List.Forall_nil.
  - destruct neg; simpl; repeat (apply List.Forall_cons; [vm_compute; repeat split; discriminate|]); apply List.Forall_nil.
  - destruct (if 0 <=? e then _ else _) as [p q]. destruct (shortest _ _ _ _ _ _) as [s k].
    apply Forall_app_2; [destruct neg; repeat constructor; unfold plain; lia|]. apply HL, digits_plain. lia.
Qed.
