(* ===== verification/Encode.v ===== *)
(** * Values to wire bytes (src/encode.ts)

    The two-pass parameter encoder, the write-through encoders over the Writer, the
    binary parameter plans with their text fallback, the compiled Bind encoder, the
    COPY row encoders and the array-literal writers. *)

From S2P Require Import Prelude Utf8 Buf Num Dates Value Protocol Framing Messages Temporal.
Import Writer.

Definition NUL_MSG : jstr := js "parameter contains NUL byte (0x00), which PostgreSQL text values cannot represent".

(** Array OID to element OID (shared with decode.ts). *)
Definition ELEM_OID_table : list (Z * Z) := [
  (1000, 16); (1005, 21); (1007, 23); (1028, 26); (1016, 20); (1021, 700); (1022, 701); (1231, 1700); (791, 790);
  (1009, 25); (1015, 1043); (1014, 1042); (1002, 18); (1003, 19); (199, 114); (3807, 3802); (1001, 17); (2951, 2950);
  (1182, 1082); (1183, 1083); (1115, 1114); (1185, 1184); (1187, 1186); (629, 628); (1017, 600)].
Definition ELEM_OID (oid : Z) : option Z := snd <$> List.find (fun p => p.1 =? oid) ELEM_OID_table.

(** ** Array literals *)

(** Backslash-escaping of an element: [replace(/\\/g, '\\\\').replace(/"/g, '\\"')]. *)
Definition esc_char (c : Z) : jstr := if (c =? 92) || (c =? 34) then [92; c] else [c].
Definition esc_quoted (s : jstr) : jstr := concat (esc_char <$> s).

(** The quoted text of an element that is not bare. *)
Definition elem_str (v : value) : res jstr :=
  match v with
  | VDate t => toISOString t
  | VBuf b => Ok (js "\x" ++ hex b)
  | VObj _ => stringify_text v
  | _ => Ok (String_ v)
  end.

Fixpoint arrayLiteral_elem (v : value) : res jstr :=
  match v with
  | VUndef | VNull => Ok (js "NULL")
  | VArr l =>
    parts ← (fix elems (l : list value) : res (list jstr) :=
      match l with [] => Ok [] | x :: t => p ← arrayLiteral_elem x; ps ← elems t; Ok (p :: ps) end) l;
    Ok (js "{" ++ join (js ",") parts ++ js "}")
  | VNum x => Ok (num_str x)
  | VBig z => Ok (show_Z z)
  | VBool b => Ok (if b then js "t" else js "f")
  | _ => s ← elem_str v; Ok (34 :: esc_quoted s ++ [34])
  end.
Definition arrayLiteral (l : list value) : res jstr := arrayLiteral_elem (VArr l).

(** ** encodeParam *)

Definition text_param (s : jstr) : EncodedParam := {| format := 0; pbytes := Some (utf8 s) |}.
Definition encodeParam (v : value) : res EncodedParam :=
  match v with
  | VUndef | VNull => Ok {| format := 0; pbytes := None |}
  | VBuf b => Ok {| format := 1; pbytes := Some b |}
  | VDate t => s ← toISOString t; Ok (text_param s)
  | VBool b => Ok (text_param (if b then js "t" else js "f"))
  | VArr l => s ← arrayLiteral l; Ok (text_param s)
  | VObj _ => s ← stringify_text v; Ok (text_param s)
  | _ => let s := String_ v in if has_nul s then Throw (Error NUL_MSG) else Ok (text_param s)
  end.

(** ** Write-through encoders *)

Section Encode.
Context `{Alloc}.

Definition p2 (n : Z) : M writer unit := _ ← byte (48 + n / 10); byte (48 + n mod 10).
Definition writeIso (d : option Z) : M writer unit :=
  match d with
  | Some t =>
    let y := YearFromTime t in
    if negb ((0 <=? y) && (y <=? 9999)) then s ← lift (toISOString d); asc s
    else
      _ ← byte (48 + y / 1000 mod 10); _ ← byte (48 + y / 100 mod 10); _ ← byte (48 + y / 10 mod 10); _ ← byte (48 + y mod 10);
      _ ← byte 45; _ ← p2 (MonthFromTime t + 1); _ ← byte 45; _ ← p2 (DateFromTime t);
      _ ← byte 84; _ ← p2 (HourFromTime t); _ ← byte 58; _ ← p2 (MinFromTime t); _ ← byte 58; _ ← p2 (SecFromTime t);
      let ms := msFromTime t in
      _ ← byte 46; _ ← byte (48 + ms / 100); _ ← byte (48 + ms / 10 mod 10); _ ← byte (48 + ms mod 10); byte 90
  | None => s ← lift (toISOString d); asc s
  end.

(** The scanning loops of [writeEscQuoted] and [writeEscCopy]: [run] is the slice
    from [start] to the scan position; [esc c] says what breaks the run and whether
    the broken character itself starts the next run. *)
Definition flush_run (run : jstr) : M writer unit := match run with [] => mret tt | _ => str run end.
Fixpoint writeEscQuoted_loop (s run : jstr) : M writer unit :=
  match s with
  | [] => flush_run run
  | c :: t =>
    if (c =? 34) || (c =? 92)
    then _ ← flush_run run; _ ← byte 92; writeEscQuoted_loop t [c]
    else writeEscQuoted_loop t (run ++ [c])
  end.
Definition writeEscQuoted (s : jstr) : M writer unit := writeEscQuoted_loop s [].

Fixpoint writeArrayElem (v : value) : M writer unit :=
  match v with
  | VUndef | VNull => asc (js "NULL")
  | VArr l =>
    _ ← byte 123;
    _ ← (fix elems (l : list value) (first : bool) : M writer unit :=
      match l with
      | [] => mret tt
      | x :: t => _ ← (if first then mret tt else byte 44); _ ← writeArrayElem x; elems t false
      end) l true;
    byte 125
  | VNum x => asc (num_str x)
  | VBig z => asc (show_Z z)
  | VBool b => byte (if b then 116 else 102)
  | VDate t => _ ← byte 34; _ ← writeIso t; byte 34
  | _ => _ ← byte 34; s ← lift (elem_str v); _ ← writeEscQuoted s; byte 34
  end.
Definition writeArrayBody (l : list value) : M writer unit := writeArrayElem (VArr l).

(** [const lp = w.mark(); w.int32(0); const s = w.mark(); ...; w.patch32(lp, w.mark() - s)] *)
Definition with_length (body : M writer unit) : M writer unit :=
  lp ← mark; _ ← int32 0; s ← mark; _ ← body; e ← mark; patch32 lp (Z.of_nat e - Z.of_nat s).
Definition arrayLiteralInto (l : list value) : M writer unit := with_length (writeArrayBody l).

Definition nul_guard (s : jstr) : M writer unit := lift (if has_nul s then Throw (Error NUL_MSG) else Ok tt).

(** Writes one value, text format; the format code used. *)
Definition encodeValueInto (v : value) : M writer Z :=
  match v with
  | VUndef | VNull => _ ← int32 (-1); mret 0
  | VBuf b => _ ← lpBytes b; mret 1
  | VNum x => _ ← (match safe_int x with Some z => lpAsciiInt z | None => lpAsc (num_str x) end); mret 0
  | VStr s => _ ← nul_guard s; _ ← lpStr s; mret 0
  | VBool b => _ ← int32 1; _ ← byte (if b then 116 else 102); mret 0
  | VDate t => _ ← with_length (writeIso t); mret 0
  | VArr l => _ ← arrayLiteralInto l; mret 0
  | VObj _ => s ← lift (stringify_text v); _ ← lpStr s; mret 0
  | VBig z => _ ← nul_guard (show_Z z); _ ← lpAsc (show_Z z); mret 0
  | VOther s => _ ← nul_guard s; _ ← lpStr s; mret 0
  end.

(** ** Binary plans *)

Definition MS_SAFE : Z := 9007199254740.
Definition I64_MIN : Z := -9223372036854775808.
Definition I64_MAX : Z := 9223372036854775807.
Definition MISMATCH : exn := TypeError (js "array element does not fit the declared element type").

(** The binary payload writers shared by the scalar and element encoders:
    [None] when the value does not fit the type. *)
Definition write_ms (t : Z) : M writer unit :=
  let ms := t - PG_EPOCH_MS in
  if (- MS_SAFE <=? ms) && (ms <=? MS_SAFE) then lpI64 (ms * 1000) else lpI64Big (ms * 1000).

(** Number.isInteger and a range test. *)
Definition int_in (lo hi : Z) (v : value) : option Z :=
  match v with
  | VNum x => match int_of x with Some z => if (lo <=? z) && (z <=? hi) then Some z else None | None => None end
  | _ => None
  end.

Definition elemEncoderFor (oid : Z) (v : value) : M writer unit :=
  if oid =? 16 then match v with VBool b => _ ← int32 1; byte (if b then 1 else 0) | _ => throw MISMATCH end
  else if oid =? 21 then
    match int_in (-32768) 32767 v with Some z => _ ← int32 2; int16 (Z.land z 65535) | None => throw MISMATCH end
  else if oid =? 23 then
    match int_in (-2147483648) 2147483647 v with Some z => _ ← int32 4; int32 z | None => throw MISMATCH end
  else if oid =? 20 then
    match v with
    | VNum x => match safe_int x with Some z => lpI64 z | None => throw MISMATCH end
    | VBig z => if (I64_MIN <=? z) && (z <=? I64_MAX) then lpI64Big z else throw MISMATCH
    | _ => throw MISMATCH
    end
  else if oid =? 701 then match v with VNum x => lpF8 (f64_be x) | _ => throw MISMATCH end
  else if (oid =? 25) || (oid =? 1043) then
    match v with VStr s => if has_nul s then throw MISMATCH else lpStr s | _ => throw MISMATCH end
  else if (oid =? 1114) || (oid =? 1184) then
    match v with VDate (Some t) => write_ms t | _ => throw MISMATCH end
  else throw MISMATCH.

(** The body of the binary array: dimensions and elements. *)
Definition array_payload (elemOid : Z) (l : list value) : M writer unit :=
  match l with
  | [] => _ ← int32 0; _ ← int32 0; int32 elemOid
  | _ =>
    let hasNull := if existsb nullish l then 1 else 0 in
    _ ← int32 1; _ ← int32 hasNull; _ ← int32 elemOid;
    _ ← int32 (Z.of_nat (length l)); _ ← int32 1;
    forM l (fun e => if nullish e then int32 (-1) else elemEncoderFor elemOid e)
  end.

(** An element that does not fit rewinds the whole value to a text literal. *)
Definition arrayEnc (elemOid : Z) (v : value) : M writer Z :=
  match v with
  | VArr l => fun w =>
    let m := off w in
    match (_ ← int32 0; _ ← array_payload elemOid l; e ← mark; _ ← patch32 m (Z.of_nat e - Z.of_nat m - 4); mret 1) w with
    | (w', Throw e) => if bool_decide (e = MISMATCH) then (_ ← rewind m; _ ← arrayLiteralInto l; mret 0) w' else (w', Throw e)
    | r => r
    end
  | _ => encodeValueInto v
  end.

(** [s] is a JSON text already when the value is a string. *)
Definition json_text (v : value) : res jstr :=
  match v with VStr s => Ok s | _ => o ← stringify v; match o with Some s => Ok s | None => Throw (TypeError (js "undefined")) end end.

Definition binEncoderFor (oid : Z) : option (value -> M writer Z) :=
  if oid =? 16 then Some (fun v => match v with
    | VBool b => _ ← int32 1; _ ← byte (if b then 1 else 0); mret 1 | _ => encodeValueInto v end)
  else if oid =? 21 then Some (fun v => match int_in (-32768) 32767 v with
    | Some z => _ ← int32 2; _ ← int16 (Z.land z 65535); mret 1 | None => encodeValueInto v end)
  else if oid =? 23 then Some (fun v => match int_in (-2147483648) 2147483647 v with
    | Some z => _ ← int32 4; _ ← int32 z; mret 1 | None => encodeValueInto v end)
  else if oid =? 20 then Some (fun v => match v with
    | VNum x => match safe_int x with Some z => _ ← lpI64 z; mret 1 | None => encodeValueInto v end
    | VBig z => if (I64_MIN <=? z) && (z <=? I64_MAX) then _ ← lpI64Big z; mret 1 else encodeValueInto v
    | _ => encodeValueInto v end)
  else if oid =? 701 then Some (fun v => match v with VNum x => _ ← lpF8 (f64_be x); mret 1 | _ => encodeValueInto v end)
  else if (oid =? 1114) || (oid =? 1184) then Some (fun v => match v with
    | VDate (Some t) => _ ← write_ms t; mret 1 | _ => encodeValueInto v end)
  else if (oid =? 114) || (oid =? 3802) then Some (fun v => s ← lift (json_text v); _ ← lpStr s; mret 0)
  else match ELEM_OID oid with Some elem => Some (arrayEnc elem) | None => None end.

(** Compile the plan of a statement; [None] when no parameter has a binary encoder. *)
Definition compileParamPlan (oids : list Z) : option (ParamsEncoder value) :=
  let encs := binEncoderFor <$> oids in
  if existsb (fun e => match e with Some _ => true | None => false end) encs
  then Some (fun v i => match encs !! i with Some (Some e) => e v | _ => encodeValueInto v end)
  else None.
End Encode.

(** ** The compiled Bind encoder *)

Definition JIT_FAST : list Z := [16; 21; 23; 20; 701; 1114; 1184].
Definition JIT_MAX_PERIOD : nat := 64.

(** Every OID equals the one [p] places before it. *)
Definition repeats (oids : list Z) (p : nat) : bool :=
  forallb (fun i => bool_decide (oids !! i = oids !! (i - p)%nat)) (seq p (length oids - p)).
Definition paramPeriod (oids : list Z) : nat :=
  let n := length oids in
  match List.find (fun p => (n mod p =? 0)%nat && repeats oids p) (seq 1 (n - 1)) with
  | Some p => p
  | None => n
  end.

Section Jit.
Context `{Alloc}.

(** Write by the generic encoder and correct the format slot baked as [baked]. *)
Definition fallback (enc : M writer Z) (baked : Z) (slot : nat) : M writer unit :=
  f ← enc; if f =? baked then mret tt else patch16 slot f.

(** The statements generated for a column of type [oid] and the value [x]. *)
Definition jit_col (oid : Z) (x : value) (slot : nat) : M writer unit :=
  if oid =? 16 then
    match x with VBool b => _ ← int32 1; byte (if b then 1 else 0) | _ => fallback (encodeValueInto x) 1 slot end
  else if oid =? 21 then
    match int_in (-32768) 32767 x with
    | Some z => _ ← int32 2; int16 (Z.land z 65535) | None => fallback (encodeValueInto x) 1 slot end
  else if oid =? 23 then
    match int_in (-2147483648) 2147483647 x with
    | Some z => _ ← int32 4; int32 z | None => fallback (encodeValueInto x) 1 slot end
  else if oid =? 20 then
    match x with
    | VNum n => match safe_int n with Some z => lpI64 z | None => fallback (encodeValueInto x) 1 slot end
    | VBig z => if (I64_MIN <=? z) && (z <=? I64_MAX) then lpI64Big z else fallback (encodeValueInto x) 1 slot
    | _ => fallback (encodeValueInto x) 1 slot
    end
  else if oid =? 701 then match x with VNum n => lpF8 (f64_be n) | _ => fallback (encodeValueInto x) 1 slot end
  else if (oid =? 1114) || (oid =? 1184) then
    match x with VDate (Some t) => write_ms t | _ => fallback (encodeValueInto x) 1 slot end
  else if (oid =? 25) || (oid =? 1043) then
    match x with VStr s => _ ← nul_guard s; lpStr s | _ => fallback (encodeValueInto x) 0 slot end
  else fallback (default encodeValueInto (binEncoderFor oid) x) 0 slot.

(** The generated function: constant framing around [rowCount] rows of [p] columns. *)
Definition jit_rows (oids : list Z) (p rowCount base fmt0 : nat) (v : list value) : M writer unit :=
  forM (seq 0 rowCount) (fun r =>
    forM (seq 0 p) (fun c =>
      jit_col (nth c oids 0) (nth (r * p + c) v VUndef) (base + fmt0 + r * (p * 2) + c * 2))).

Definition jit_result_format (rf : result_format) : res bytes :=
  match rf with
  | PerColumn fs => n ← uint16_be (Z.of_nat (length fs)); bs ← concatM uint16_be fs; Ok (n ++ bs)
  | OneFormat f => one ← uint16_be 1; b ← uint16_be f; Ok (one ++ b)
  end.

Definition compileBindEncoder (name : jstr) (oids : list Z) (rf : result_format) :
    res (option (list value -> M writer unit)) :=
  let n := length oids in
  let p := if (n =? 0)%nat then O else paramPeriod oids in
  if (JIT_MAX_PERIOD <? p)%nat then Ok None
  else
    let rowCount := if (p =? 0)%nat then O else (n / p)%nat in
    fmts ← concatM (fun i => uint16_be (if bool_decide (nth (i mod p) oids 0 ∈ JIT_FAST) then 1 else 0)) (seq 0 n);
    cnt ← uint16_be (Z.of_nat n);
    let PREFIX := [0] ++ utf8 name ++ [0] ++ cnt ++ fmts ++ cnt in
    let FMT0 := (1 + length (utf8 name) + 1 + 2)%nat in
    RESULTFMT ← jit_result_format rf;
    ex ← W.execute [] 0; sy ← W.sync;
    Ok (Some (fun v =>
      _ ← start (js "B"); base ← mark; _ ← bytes_ PREFIX;
      _ ← jit_rows oids p rowCount base FMT0 v;
      _ ← bytes_ RESULTFMT; _ ← end_; bytes_ (ex ++ sy))).

(** ** COPY FROM STDIN *)

Definition copyBinarySupported (oids : list Z) : bool :=
  forallb (fun o => bool_decide (o ∈ [16; 21; 23; 20; 701; 25; 1043; 1114; 1184])) oids.
Definition COPY_SIG : bytes := [80; 71; 67; 79; 80; 89; 10; 255; 13; 10; 0].

(** A row is an array, or an object read by column name. *)
Definition cell (row : value) (names : list jstr) (c : nat) : value :=
  match row with
  | VArr l => nth c l VUndef
  | VObj fs => default VUndef (snd <$> List.find (fun kv => bool_decide (kv.1 = nth c names (js "undefined"))) fs)
  | _ => VUndef
  end.

(** A generator over the Writer: the chunks yielded so far ride along. *)
Definition gen : Type := writer * list bytes.
Definition wr {A} (m : M writer A) : M gen A := fun g => let '(w, r) := m g.1 in ((w, g.2), r).
Definition yield_ : M gen unit := fun g => ((g.1, g.2 ++ [contents g.1]), Ok tt).
(** if (w.mark() >= chunkBytes) { yield Buffer.from(w.slice()); w.reset() } *)
Definition flush_at (chunkBytes : Z) : M gen unit := fun g =>
  if chunkBytes <=? Z.of_nat (off g.1) then (_ ← yield_; wr reset) g else (g, Ok tt).

Definition copy_mismatch (r : nat) (name : jstr) : exn :=
  TypeError (js "copy: row " ++ show_Z (Z.of_nat r) ++ js ", column " ++ [34] ++ name ++ [34; 32; 8212]
             ++ js " value is incompatible with its declared type").

(** One field of a binary tuple. *)
Definition copy_field (oid : Z) (r : nat) (name : jstr) (v : value) : M writer unit :=
  if nullish v then int32 (-1)
  else fun w =>
    match elemEncoderFor oid v w with
    | (w', Throw e) => (w', Throw (if bool_decide (e = MISMATCH) then copy_mismatch r name else e))
    | res => res
    end.

Fixpoint copy_binary_rows (oids : list Z) (names : list jstr) (rows : list value) (r : nat) (chunkBytes : Z) : M gen unit :=
  match rows with
  | [] => mret tt
  | row :: t =>
    _ ← wr (int16 (Z.of_nat (length oids)));
    _ ← wr (forM (seq 0 (length oids)) (fun c =>
         copy_field (nth c oids 0) r (nth c names (js "undefined")) (cell row names c)));
    _ ← flush_at chunkBytes;
    copy_binary_rows oids names t (S r) chunkBytes
  end.
Definition copyRowsBinary (oids : list Z) (names : list jstr) (rows : list value) (chunkBytes : Z) : list bytes * res unit :=
  let '(g, r) := (_ ← wr (bytes_ COPY_SIG); _ ← wr (int32 0); _ ← wr (int32 0);
                  _ ← copy_binary_rows oids names rows 0 chunkBytes;
                  _ ← wr (int16 65535); yield_) (Writer.new (Z.to_nat (chunkBytes + 4096)), []) in
  (g.2, r).

(** The character that stands for a special one after a backslash; 0 for none. *)
Definition copy_esc (c : Z) : Z := if c =? 92 then 92 else if c =? 9 then 116 else if c =? 10 then 110 else if c =? 13 then 114 else 0.
Fixpoint writeEscCopy_loop (s run : jstr) : M writer unit :=
  match s with
  | [] => flush_run run
  | c :: t =>
    if copy_esc c =? 0 then writeEscCopy_loop t (run ++ [c])
    else _ ← flush_run run; _ ← byte 92; _ ← byte (copy_esc c); writeEscCopy_loop t []
  end.
Definition writeEscCopy (s : jstr) : M writer unit := writeEscCopy_loop s [].

Definition copyTextCellInto (v : value) : M writer unit :=
  match v with
  | VStr s => writeEscCopy s
  | VNum x => asc (num_str x)
  | VBig z => asc (show_Z z)
  | VBool b => byte (if b then 116 else 102)
  | VDate t => writeIso t
  | VBuf b => _ ← asc (js "\\x"); asc (hex b)
  | VArr _ | VObj _ => s ← lift (stringify_text v); writeEscCopy s
  | _ => writeEscCopy (String_ v)
  end.

Definition copy_text_row (names : list jstr) (row : value) : M writer unit :=
  _ ← forM (seq 0 (length names)) (fun c =>
        _ ← (if (c =? 0)%nat then mret tt else byte 9);
        let v := cell row names c in
        if nullish v then asc (js "\N") else copyTextCellInto v);
  byte 10.
Fixpoint copy_text_rows (names : list jstr) (rows : list value) (chunkBytes : Z) : M gen unit :=
  match rows with
  | [] => mret tt
  | row :: t => _ ← wr (copy_text_row names row); _ ← flush_at chunkBytes; copy_text_rows names t chunkBytes
  end.
(** if (w.mark() > 0) yield Buffer.from(w.slice()) *)
Definition flush_rest : M gen unit := fun g => if (0 <? off g.1)%nat then yield_ g else (g, Ok tt).
Definition copyRowsText (names : list jstr) (rows : list value) (chunkBytes : Z) : list bytes * res unit :=
  let '(g, r) := (_ ← copy_text_rows names rows chunkBytes; flush_rest)
                 (Writer.new (Z.to_nat (chunkBytes + 1024)), []) in
  (g.2, r).
End Jit.

(** ** Pre-encoded and JSON-transported parameters *)

Record RawParams := mkRaw { rformats : list Z; rvalues : list (option bytes) }.
Definition rawParams (formats : option (list Z)) (values : list (option bytes)) : res RawParams :=
  let f := default [] formats in
  if negb (length f =? 0)%nat && negb (length f =? 1)%nat && negb (length f =? length values)%nat
  then Throw (Error (js "minipg: rawParams formats must have 0, 1, or values.length ("
                     ++ show_Z (Z.of_nat (length values)) ++ js ") entries " ++ [8212] ++ js " got "
                     ++ show_Z (Z.of_nat (length f))))
  else Ok (mkRaw f values).

Definition encodeJsonParam (v : value) (declaredOid : option Z) : res value :=
  if nullish v then Ok VNull
  else if bool_decide (declaredOid = Some 114) || bool_decide (declaredOid = Some 3802) then
    match v with VStr s => Ok (VStr s) | _ => o ← stringify v; Ok (match o with Some s => VStr s | None => VUndef end) end
  else match v with
       | VBuf b => Ok (VStr (js "\x" ++ hex b))
       | VDate t => s ← toISOString t; Ok (VStr s)
       | VBig z => Ok (VStr (show_Z z))
       | VArr l => s ← arrayLiteral l; Ok (VStr s)
       | VObj _ => s ← stringify_text v; Ok (VStr s)
       | VStr s => if has_nul s then Throw (Error NUL_MSG) else Ok (VStr s)
       | _ => Ok v
       end.
Definition encodeJsonParams (params : list value) (oids : list Z) : res (list value) :=
  mapM (fun iv => encodeJsonParam iv.2 (oids !! iv.1)) (imap pair params).
