(* ===== verification/EncodeProofs.v ===== *)
(** * The write-through encoders equal their two-pass specifications *)

From S2P Require Import Prelude Utf8 Buf Num Dates Value Protocol Framing Messages Temporal Encode.
Import Writer.

Lemma iso_plain t : Forall plain (iso t).
Proof.
  assert (forall n z, Forall plain (pad n z)) as Hp.
  { intros. eapply Forall_impl; [apply pad_digits|]. unfold plain. intros; lia. }
  unfold iso. repeat first [apply Hp | apply Forall_app_2 | apply List.Forall_cons; [unfold plain; lia|]
    | apply List.Forall_nil | case_match].
Qed.

Section Writes.
Context `{Alloc}.

Lemma writes_ext m bs bs' : bs = bs' -> writes m bs -> writes m bs'.
Proof. by intros ->. Qed.

Lemma byte_writes_ok c : 0 <= c < 256 -> writes (byte c) [c].
Proof. intros Hc. eapply writes_ext; [|apply byte_writes]. f_equal. by apply Z.mod_small. Qed.

Lemma p2_writes n : 0 <= n <= 99 -> writes (p2 n) (pad 2 n).
Proof.
  intros Hn. rewrite pad2. change [48 + n / 10 mod 10; 48 + n mod 10] with ([48 + n / 10 mod 10] ++ [48 + n mod 10]).
  pose proof (Z.mod_pos_bound n 10). apply writes_bind; [|apply byte_writes_ok; lia].
  rewrite (Z.mod_small (n / 10)) by (Z.to_euclidean_division_equations; lia).
  apply byte_writes_ok. Z.to_euclidean_division_equations; lia.
Qed.

Lemma asc_plain s : Forall plain s -> writes (asc s) s.
Proof. intros Hs. eapply writes_ext; [|apply asc_writes]. by apply latin1_ascii, plain_ascii. Qed.

Lemma lift_bind {A} (r : res A) a (f : A -> M writer unit) bs : r = Ok a -> writes (f a) bs -> writes (lift r ≫= f) bs.
Proof. intros -> Hf w Hw. by apply Hf. Qed.

Lemma writeIso_writes d s : toISOString d = Ok s -> writes (writeIso d) s.
Proof.
  destruct d as [t|]; [|done]. simpl. intros [= <-]. unfold writeIso.
  pose proof (date_fields t) as (Hm & Hd & Hh & Hmi & Hs & Hms).
  destruct ((0 <=? YearFromTime t) && (YearFromTime t <=? 9999)) eqn:Ey; cbn [negb].
  2:{ eapply lift_bind; [reflexivity|]. apply asc_plain, iso_plain. }
  unfold iso. rewrite Ey. b2p_all. set (y := YearFromTime t) in *.
  assert (forall k, 0 <= 48 + y / k mod 10 < 256) as Hk by (intros k; pose proof (Z.mod_pos_bound (y / k) 10); lia).
  change (pad 4 y) with ([48 + y / 1000 mod 10] ++ [48 + y / 100 mod 10] ++ [48 + y / 10 mod 10] ++ [48 + y / 1 mod 10]).
  rewrite Z.div_1_r. pose proof (Z.mod_pos_bound y 10). rewrite <- !app_assoc.
  repeat (apply writes_bind; [first [apply byte_writes_ok; first [apply Hk | lia] | apply p2_writes; lia]|]).
  set (ms := msFromTime t) in *. change (pad 3 ms) with ([48 + ms / 100 mod 10] ++ [48 + ms / 10 mod 10] ++ [48 + ms / 1 mod 10]).
  rewrite Z.div_1_r, <- !app_assoc. pose proof (Z.mod_pos_bound ms 10). pose proof (Z.mod_pos_bound (ms / 10) 10).
  rewrite (Z.mod_small (ms / 100)) by (Z.to_euclidean_division_equations; lia).
  assert (0 <= ms / 100 <= 9) by (Z.to_euclidean_division_equations; lia).
  repeat (apply writes_bind; [apply byte_writes_ok; lia|]). apply byte_writes_ok. lia.
Qed.

Lemma flush_run_writes run : writes (flush_run run) (utf8 run).
Proof. destruct run; [apply writes_ret|apply str_writes]. Qed.

Lemma writeEscQuoted_loop_writes s run : writes (writeEscQuoted_loop s run) (utf8 (run ++ esc_quoted s)).
Proof.
  revert run. induction s as [|c t IH]; intros run; cbn [writeEscQuoted_loop].
  - unfold esc_quoted. simpl. rewrite app_nil_r. apply flush_run_writes.
  - unfold esc_quoted in *. cbn [fmap list_fmap concat]. unfold esc_char at 1. rewrite orb_comm.
    destruct ((c =? 92) || (c =? 34)) eqn:E.
    + cbn [app]. rewrite utf8_break_ascii by lia. apply writes_bind; [apply flush_run_writes|].
      change (92 :: ?x) with ([92] ++ x). apply writes_bind; [by apply byte_writes_ok|]. apply (IH [c]).
    + replace (run ++ [c] ++ concat (esc_char <$> t)) with ((run ++ [c]) ++ concat (esc_char <$> t)) by by rewrite <- app_assoc.
      apply IH.
Qed.

Lemma writeArrayElem_writes v s : arrayLiteral_elem v = Ok s -> writes (writeArrayElem v) (utf8 s).
Proof.
  revert s. induction v as [v Hv|l IH|fs _] using value_rec_all; intros s.
  - assert (forall v s, elem_str v = Ok s ->
      writes (_ ← byte 34; x ← lift (elem_str v); _ ← writeEscQuoted x; byte 34) (34 :: utf8 (esc_quoted s) ++ [34])) as Hq.
    { intros v' s' E. change (34 :: ?x) with ([34] ++ x). apply writes_bind; [by apply byte_writes_ok|].
      eapply lift_bind; [exact E|]. apply writes_bind; [apply (writeEscQuoted_loop_writes s' [])|by apply byte_writes_ok]. }
    assert (forall x, utf8 (34 :: x ++ [34]) = 34 :: utf8 x ++ [34]) as Hu.
    { intros x. rewrite utf8_ascii_cons, utf8_break_ascii by lia. done. }
    assert (forall x, Forall plain x -> writes (asc x) (utf8 x)) as Hasc.
    { intros x Hx. rewrite utf8_ascii by (by apply plain_ascii). by apply asc_plain. }
    destruct v; cbn [arrayLiteral_elem writeArrayElem]; try done.
    + intros [= <-]. apply Hasc. repeat (apply List.Forall_cons; [vm_compute; repeat split; discriminate|]); apply List.Forall_nil.
    + intros [= <-]. apply Hasc. repeat (apply List.Forall_cons; [vm_compute; repeat split; discriminate|]); apply List.Forall_nil.
    + intros [= <-]. destruct b; by apply byte_writes_ok.
    + intros [= <-]. apply Hasc, num_str_plain.
    + intros [= <-]. apply Hasc, show_Z_plain.
    + intros (x & E & [= <-])%bind_res_Ok_inv. rewrite Hu. exact (Hq _ _ E).
    + intros (x & E & [= <-])%bind_res_Ok_inv. rewrite Hu. exact (Hq _ _ E).
    + intros (x & E & [= <-])%bind_res_Ok_inv. rewrite Hu. simpl in E.
      assert (esc_quoted x = x) as ->.
      { destruct t as [t|]; [|done]. injection E as <-. unfold iso.
        assert (forall l, Forall (fun c => c <> 92 /\ c <> 34) l -> esc_quoted l = l) as Hid.
        { intros l Hl. unfold esc_quoted. induction Hl as [|c l [? ?] _ IHl]; [done|]. cbn [fmap list_fmap concat]. rewrite IHl.
          unfold esc_char. by destruct (Z.eqb_spec c 92), (Z.eqb_spec c 34). }
        assert (forall n z, Forall (fun c => c <> 92 /\ c <> 34) (pad n z)) as Hp
          by (intros; eapply Forall_impl; [apply pad_digits|]; simpl; intros; lia).
        apply Hid. repeat first [apply Hp | apply Forall_app_2 | apply List.Forall_cons; [lia|] | apply List.Forall_nil | case_match]. }
      change (34 :: ?x) with ([34] ++ x). apply writes_bind; [by apply byte_writes_ok|].
      apply writes_bind; [|by apply byte_writes_ok]. rewrite utf8_ascii; [by apply writeIso_writes|].
      apply plain_ascii. destruct t as [t|]; [|done]. injection E as <-. apply iso_plain.
    + intros (x & E & [= <-])%bind_res_Ok_inv. rewrite Hu. exact (Hq _ _ E).
  - cbn [arrayLiteral_elem writeArrayElem]. intros (parts & E & [= <-])%bind_res_Ok_inv.
    match goal with |- writes _ (utf8 ?x) => change x with (123 :: join [44] parts ++ [125]) end.
    rewrite utf8_ascii_cons, utf8_break_ascii by lia. change (123 :: ?x) with ([123] ++ x).
    apply writes_bind; [by apply byte_writes_ok|]. apply writes_bind; [|by apply byte_writes_ok].
    set (elems := fix elems (l : list value) : res (list jstr) := _) in E.
    set (go := fix go (l : list value) (first : bool) : M writer unit := _).
    assert (forall l parts, Forall (fun v => forall s, arrayLiteral_elem v = Ok s -> writes (writeArrayElem v) (utf8 s)) l ->
      elems l = Ok parts -> writes (go l false) (concat ((fun p => 44 :: utf8 p) <$> parts))) as Hgo.
    { clear. induction l as [|x t IHt]; intros parts Hl; simpl; [intros [= <-]; apply writes_ret|].
      inversion Hl as [|? ? Hx Ht]; subst. intros (p & Ep & (ps & Eps & [= <-])%bind_res_Ok_inv)%bind_res_Ok_inv.
      cbn [fmap list_fmap concat]. change (44 :: ?x) with ([44] ++ x). rewrite <- !app_assoc.
      apply writes_bind; [by apply byte_writes_ok|]. apply writes_bind; [by apply Hx|]. by apply IHt. }
    assert (forall p ps, utf8 (join [44] (p :: ps)) = utf8 p ++ concat ((fun p => 44 :: utf8 p) <$> ps)) as Hj.
    { clear. intros p ps. revert p. induction ps as [|q ps IHp]; intros p; [by rewrite app_nil_r|].
      change (join [44] (p :: q :: ps)) with (p ++ 44 :: join [44] (q :: ps)). by rewrite utf8_break_ascii, IHp by lia. }
    destruct l as [|x t]; simpl in E; [injection E as <-; apply writes_ret|].
    inversion IH as [|? ? Hx Ht]; subst. apply bind_res_Ok_inv in E as (p & Ep & (ps & Eps & [= <-])%bind_res_Ok_inv).
    rewrite Hj. simpl. apply (writes_bind (mret tt) _ [] _); [apply writes_ret|]. apply writes_bind; [by apply Hx|]. by apply Hgo.
  - cbn [arrayLiteral_elem writeArrayElem]. intros (x & E & [= <-])%bind_res_Ok_inv.
    rewrite utf8_ascii_cons, utf8_break_ascii by lia. change (34 :: ?x) with ([34] ++ x).
    apply writes_bind; [by apply byte_writes_ok|]. eapply lift_bind; [exact E|].
    apply writes_bind; [apply (writeEscQuoted_loop_writes x [])|by apply byte_writes_ok].
Qed.

(** ** The value encoder *)

Lemma appends_ext_bytes {A} (m : M writer A) w a bs bs' st : bs = bs' -> appends m w a bs st -> appends m w a bs' st.
Proof. by intros ->. Qed.
Lemma writes_value {A} (m : M writer unit) bs (a : A) w : writes m bs -> wf w -> appends (_ ← m; mret a) w a bs (msgStart w).
Proof.
  intros Hm Hw. destruct (Hm w Hw) as (w' & E & Hw' & C & S). exists w'. by rewrite (bind_Ok _ _ _ _ _ E).
Qed.
Lemma appends_value {A B} (m : M writer A) (a : A) (b : B) (f : A -> M writer B) w bs st :
  appends m w a bs st -> (forall w', f a w' = (w', Ok b)) -> appends (m ≫= f) w b bs st.
Proof. intros (w' & E & R) Hf. exists w'. by rewrite (bind_Ok _ _ _ _ _ E), Hf. Qed.

Lemma with_length_writes body bs : writes body bs -> blen bs <= 2147483647 -> writes (with_length body) (be 4 (blen bs) ++ bs).
Proof.
  intros Hb Hl w Hw. unfold with_length, mark. pose proof (blen_nonneg bs).
  destruct (int32_writes 0 ltac:(lia) w Hw) as (w1 & E1 & Hw1 & C1 & S1).
  destruct (Hb w1 Hw1) as (w2 & E2 & Hw2 & C2 & S2).
  rewrite C1 in C2. pose proof (off_after w w1 _ Hw Hw1 C1) as O1. rewrite length_be in O1.
  assert (off w2 = (off w1 + length bs)%nat) as O2 by (apply off_after; [done|done|]; rewrite C1; exact C2).
  destruct (patch_mid (contents w) (be 4 0) (be 4 (blen bs)) bs (off w) (int32_be (Z.of_nat (off w2) - Z.of_nat (off w1))) w2)
    as (w3 & E3 & Hw3 & C3 & S3 & _); try done.
  - replace (Z.of_nat (off w2) - Z.of_nat (off w1)) with (blen bs) by (unfold blen; lia). apply int_be_Ok. lia.
  - by rewrite <- app_assoc in C2.
  - by rewrite length_contents.
  - exists w3. rewrite (bind_Ok (gets off) _ w w (off w)) by done. rewrite (bind_Ok _ _ _ _ _ E1).
    rewrite (bind_Ok (gets off) _ w1 w1 (off w1)) by done. rewrite (bind_Ok _ _ _ _ _ E2).
    rewrite (bind_Ok (gets off) _ w2 w2 (off w2)) by done. split; [exact E3|]. split; [done|]. split; [done|]. congruence.
Qed.

Definition small (s : jstr) : Prop := Z.of_nat (length s * 3) <= 2147483647.
(** Texts whose reservation of three bytes per character stays an int32. *)
Definition fits (v : value) : Prop :=
  match v with
  | VStr s | VOther s => small s
  | VObj _ => forall s, stringify_text v = Ok s -> small s
  | _ => True
  end.

Lemma param_value_Some b bs : param_value (Some b) = Ok bs -> bs = be 4 (blen b) ++ b /\ blen b <= 2147483647.
Proof.
  simpl. unfold i32, int32_be, int_be. destruct ((-2147483648 <=? blen b) && (blen b <=? 2147483647)) eqn:E; [|done].
  simpl. intros [= <-]. b2p_all. split; [done|lia].
Qed.

Lemma lpAsc_plain s : Forall plain s -> blen (utf8 s) <= 2147483647 -> writes (lpAsc s) (be 4 (blen (utf8 s)) ++ utf8 s).
Proof.
  intros Hs Hl. pose proof (plain_ascii s Hs) as Ha. rewrite utf8_ascii in * by done.
  eapply writes_ext; [|apply lpAsc_writes; unfold blen in Hl; lia]. by rewrite latin1_ascii.
Qed.

Lemma has_nul_false s : has_nul s = false -> nul_guard s = lift (Ok tt).
Proof. unfold nul_guard. by intros ->. Qed.

Lemma encodeValueInto_spec v p bs w : fits v -> encodeParam v = Ok p -> param_value (pbytes p) = Ok bs -> wf w ->
  appends (encodeValueInto v) w (format p) bs (msgStart w).
Proof.
  intros Hf E Hbs Hw.
  assert (forall s, pbytes p = Some s -> bs = be 4 (blen s) ++ s /\ blen s <= 2147483647) as HS
    by (intros s Es; rewrite Es in Hbs; by apply param_value_Some).
  assert (forall s, small s -> bs = be 4 (blen (utf8 s)) ++ utf8 s -> writes (lpStr s) bs) as HStr
    by (intros s Hs ->; by apply lpStr_writes).
  destruct v; cbn [encodeParam encodeValueInto String_] in *.
  - injection E as <-. simpl in Hbs. injection Hbs as <-. apply writes_value; [by apply int32_writes|done].
  - injection E as <-. simpl in Hbs. injection Hbs as <-. apply writes_value; [by apply int32_writes|done].
  - injection E as <-. destruct (HS _ eq_refl) as [-> _].
    set (c := if b then 116 else 102).
    assert (be 4 (blen (utf8 (if b then js "t" else js "f"))) ++ utf8 (if b then js "t" else js "f") = be 4 1 ++ [c]) as -> by (by destruct b).
    eapply appends_bind; [by apply int32_writes|]. intros w' Hw' _ <-. apply writes_value; [|done].
    apply byte_writes_ok. unfold c. by destruct b.
  - destruct (has_nul (num_str n)); [done|]. injection E as <-. destruct (HS _ eq_refl) as [-> Hl].
    apply writes_value; [|done]. pose proof (num_str_plain n) as Hp.
    destruct (safe_int n) as [z|] eqn:Ez; [|by apply lpAsc_plain].
    assert (num_str n = show_Z z) as En by (unfold num_str; by rewrite Ez).
    rewrite utf8_ascii, En by (by apply plain_ascii). apply lpAsciiInt_writes.
    unfold safe_int in Ez. destruct (int_of n); [|done]. destruct (Z.leb_spec (Z.abs z0) MAX_SAFE); [|done].
    injection Ez as ->. unfold MAX_SAFE in *. lia.
  - destruct (has_nul (show_Z z)) eqn:En; [done|]. injection E as <-. destruct (HS _ eq_refl) as [-> Hl].
    rewrite has_nul_false by done. apply (writes_value (lpAsc (show_Z z))); [|done]. apply lpAsc_plain; [apply show_Z_plain|done].
  - destruct (has_nul s) eqn:En; [done|]. injection E as <-. destruct (HS _ eq_refl) as [-> Hl].
    rewrite has_nul_false by done. apply (writes_value (lpStr s)); [|done]. by apply HStr.
  - injection E as <-. destruct (HS _ eq_refl) as [-> Hl]. apply writes_value; [|done]. by apply lpBytes_writes.
  - apply bind_res_Ok_inv in E as (s & Es & [= <-]). destruct (HS _ eq_refl) as [-> Hl]. apply writes_value; [|done].
    assert (utf8 s = s) as Eu.
    { apply utf8_ascii, plain_ascii. destruct t as [t|]; [|done]. injection Es as <-. apply iso_plain. }
    rewrite Eu in *. apply with_length_writes; [by apply writeIso_writes|done].
  - apply bind_res_Ok_inv in E as (s & Es & [= <-]). destruct (HS _ eq_refl) as [-> Hl]. apply writes_value; [|done].
    apply with_length_writes; [|done]. by apply writeArrayElem_writes.
  - apply bind_res_Ok_inv in E as (s & Es & [= <-]). destruct (HS _ eq_refl) as [-> Hl].
    rewrite Es. apply (writes_value (lpStr s)); [|done]. apply HStr; [by apply Hf|done].
  - destruct (has_nul s) eqn:En; [done|]. injection E as <-. destruct (HS _ eq_refl) as [-> Hl].
    rewrite has_nul_false by done. apply (writes_value (lpStr s)); [|done]. by apply HStr.
Qed.
End Writes.

(** ** Binary plans *)

(** The binary payload of a scalar: what a binary parameter, an array element and a
    COPY field of the type carry; [None] when the value does not fit. *)
Definition elem_payload (oid : Z) (v : value) : option bytes :=
  if oid =? 16 then match v with VBool b => Some [if b then 1 else 0] | _ => None end
  else if oid =? 21 then be 2 <$> int_in (-32768) 32767 v
  else if oid =? 23 then be 4 <$> int_in (-2147483648) 2147483647 v
  else if oid =? 20 then
    match v with
    | VNum x => be 8 <$> safe_int x
    | VBig z => if (I64_MIN <=? z) && (z <=? I64_MAX) then Some (be 8 z) else None
    | _ => None
    end
  else if oid =? 701 then match v with VNum x => Some (f64_be x) | _ => None end
  else if (oid =? 25) || (oid =? 1043) then match v with VStr s => if has_nul s then None else Some (utf8 s) | _ => None end
  else if (oid =? 1114) || (oid =? 1184) then
    match v with VDate (Some t) => Some (be 8 ((t - PG_EPOCH_MS) * 1000)) | _ => None end
  else None.

Definition elem_wire (oid : Z) (v : value) : option bytes :=
  if nullish v then Some (be 4 (-1)) else (fun b => be 4 (blen b) ++ b) <$> elem_payload oid v.
Definition array_header (elem : Z) (l : list value) : bytes :=
  be 4 1 ++ be 4 (if existsb nullish l then 1 else 0) ++ be 4 elem ++ be 4 (Z.of_nat (length l)) ++ be 4 1.
Definition array_bytes (elem : Z) (l : list value) : option bytes :=
  match l with
  | [] => Some (be 4 0 ++ be 4 0 ++ be 4 elem)
  | _ => (fun bs => array_header elem l ++ concat bs) <$> mapM (elem_wire elem) l
  end.

(** What a plan sends for one parameter of type [oid]. *)
Definition plan_param (oid : Z) (v : value) : res EncodedParam :=
  if bool_decide (oid ∈ JIT_FAST) then
    match elem_payload oid v with
    | Some b => Ok {| format := 1; pbytes := Some b |}
    | None => encodeParam v
    end
  else if (oid =? 114) || (oid =? 3802) then s ← json_text v; Ok (text_param s)
  else match ELEM_OID oid, v with
       | Some elem, VArr l =>
         match array_bytes elem l with
         | Some b => Ok {| format := 1; pbytes := Some b |}
         | None => encodeParam v
         end
       | _, _ => encodeParam v
       end.

(** Values whose texts stay within an int32 and whose dates are within PostgreSQL's
    64-bit microseconds (a Date before the year -260308 is not: [lpI64Big] throws). *)
Definition date_ok (v : value) : Prop :=
  match v with VDate (Some t) => I64_MIN <= (t - PG_EPOCH_MS) * 1000 <= I64_MAX | _ => True end.
Definition elem_ok (v : value) : Prop := date_ok v /\ match v with VStr s => small s | _ => True end.
Definition plan_ok (oid : Z) (v : value) : Prop :=
  fits v /\ date_ok v
  /\ match v with VArr l => Forall elem_ok l /\ Z.of_nat (length l) <= 2147483647 | _ => True end
  /\ (oid = 114 \/ oid = 3802 -> forall s, json_text v = Ok s -> small s).

Section Plans.
Context `{Alloc}.

Lemma lp_fixed n enc bs : enc = Ok bs -> length bs = 8%nat -> n = 12%nat ->
  writes (_ ← ensure n; o ← gets off; _ ← write_at o (int32_be 8); _ ← write_at (o + 4) enc; advance 12) (be 4 8 ++ bs).
Proof.
  intros -> Hl ->. apply writes_store; [rewrite length_app, Hl; done|].
  intros w Hw Hr. cbv [mbind M_bind gets modify put advance]. cbn [buf off msgStart].
  unfold int32_be. rewrite int_be_Ok by lia. rewrite write_at_Ok by (rewrite length_be; lia). cbn [buf off msgStart].
  rewrite write_at_Ok by (cbn [buf]; rewrite ?length_inserts; lia). cbn [buf off msgStart].
  apply wr_eq; [|rewrite length_app, Hl, length_be; lia].
  rewrite list_inserts_app_l, length_be. f_equal. lia.
Qed.
Lemma lpF8_writes x : writes (lpF8 (f64_be x)) (be 4 8 ++ f64_be x).
Proof. apply lp_fixed; [done|by unfold f64_be; rewrite length_be|done]. Qed.
Lemma lpI64Big_writes z : I64_MIN <= z <= I64_MAX -> writes (lpI64Big z) (be 4 8 ++ be 8 z).
Proof. intros Hz. apply lp_fixed; [|done|done]. apply int_be_Ok. exact Hz. Qed.

Lemma fixed_writes (n x : Z) (m : M writer unit) k : blen (be k x) = n -> -2147483648 <= n <= 2147483647 ->
  writes m (be k x) -> writes (_ ← int32 n; m) (be 4 (blen (be k x)) ++ be k x).
Proof. intros -> Hn Hm. apply writes_bind; [by apply int32_writes|done]. Qed.


Lemma int_in_range lo hi v z : int_in lo hi v = Some z -> lo <= z <= hi.
Proof.
  destruct v; try done. simpl. destruct (int_of n) as [y|]; [|done].
  destruct ((lo <=? y) && (y <=? hi)) eqn:E; [|done]. intros [= <-]. b2p_all. lia.
Qed.
Lemma safe_int_range x z : safe_int x = Some z -> -9007199254740991 <= z <= 9007199254740991.
Proof.
  unfold safe_int. destruct (int_of x) as [y|]; [|done]. destruct (Z.leb_spec (Z.abs y) MAX_SAFE); [|done].
  intros [= <-]. unfold MAX_SAFE in *. lia.
Qed.

(** An int2 goes out as its low sixteen bits, which are those of the number. *)
Lemma int2_writes z : -32768 <= z <= 32767 -> writes (int16 (Z.land z 65535)) (be 2 z).
Proof.
  intros Hz. change 65535 with (Z.ones 16). rewrite Z.land_ones by lia. change (2 ^ 16) with 65536.
  rewrite <- (be_mod 2 z). change (256 ^ Z.of_nat 2) with 65536.
  apply int16_writes. pose proof (Z.mod_pos_bound z 65536). lia.
Qed.

Lemma write_ms_writes t : I64_MIN <= (t - PG_EPOCH_MS) * 1000 <= I64_MAX ->
  writes (write_ms t) (be 4 8 ++ be 8 ((t - PG_EPOCH_MS) * 1000)).
Proof.
  intros Ht. unfold write_ms. destruct (_ && _); [by apply lpI64_writes|by apply lpI64Big_writes].
Qed.

Lemma bool_writes (b : bool) : writes (_ ← int32 1; byte (if b then 1 else 0)) (be 4 1 ++ [if b then 1 else 0]).
Proof. apply writes_bind; [by apply int32_writes|]. apply byte_writes_ok. by destruct b. Qed.

(** The bytes of the scalar writers shared by parameters, elements and COPY fields. *)
Lemma elem_spec oid v : elem_ok v ->
  match elem_payload oid v with
  | Some b => writes (elemEncoderFor oid v) (be 4 (blen b) ++ b)
  | None => forall w, elemEncoderFor oid v w = (w, Throw MISMATCH)
  end.
Proof.
  intros [Hd Hs]. unfold elem_payload, elemEncoderFor.
  destruct (oid =? 16). { destruct v; try done. apply bool_writes. }
  destruct (oid =? 21).
  { destruct (int_in _ _ v) as [z|] eqn:E; [|done]. apply int_in_range in E. simpl.
    apply (writes_bind _ _ (be 4 2)); [by apply int32_writes|by apply int2_writes]. }
  destruct (oid =? 23).
  { destruct (int_in _ _ v) as [z|] eqn:E; [|done]. apply int_in_range in E. simpl.
    apply (writes_bind _ _ (be 4 4)); [by apply int32_writes|by apply int32_writes]. }
  destruct (oid =? 20).
  { destruct v; try done.
    - destruct (safe_int n) as [z|] eqn:E; [|done]. apply safe_int_range in E. apply (lpI64_writes z). lia.
    - destruct (_ && _) eqn:E; [|done]. b2p_all. apply (lpI64Big_writes z). lia. }
  destruct (oid =? 701). { destruct v; try done. apply (lpF8_writes n). }
  destruct (_ || _).
  { destruct v; try done. destruct (has_nul s); [done|]. by apply lpStr_writes. }
  destruct (_ || _); [|done].
  destruct v; try done. destruct t; [|done]. by apply write_ms_writes.
Qed.

Lemma elem_payload_null oid v : nullish v = true -> elem_payload oid v = None.
Proof. unfold elem_payload. destruct v; try done; intros _; simpl; repeat (case_match; try done). Qed.

(** [m], from any buffer, leaves what was there and throws [MISMATCH]. *)
Definition bails {A} (m : M writer A) : Prop :=
  forall w, wf w -> exists w' junk, m w = (w', Throw MISMATCH) /\ wf w' /\ contents w' = contents w ++ junk /\ msgStart w' = msgStart w.

Lemma bails_bind {A B} (m : M writer A) (f : A -> M writer B) : bails m -> bails (m ≫= f).
Proof. intros Hm w Hw. destruct (Hm w Hw) as (w' & j & E & R). exists w', j. by rewrite (bind_Throw _ _ _ _ _ E). Qed.
Lemma bails_after {B} (m : M writer unit) bs (f : unit -> M writer B) : writes m bs -> bails (f tt) -> bails (m ≫= f).
Proof.
  intros Hm Hf w Hw. destruct (Hm w Hw) as (w1 & E1 & Hw1 & C1 & S1). destruct (Hf w1 Hw1) as (w2 & j & E2 & Hw2 & C2 & S2).
  exists w2, (bs ++ j). rewrite (bind_Ok _ _ _ _ _ E1), C2, C1, app_assoc. split_and!; try done. congruence.
Qed.

Lemma elem_wire_spec oid v : elem_ok v ->
  match elem_wire oid v with
  | Some b => writes (if nullish v then int32 (-1) else elemEncoderFor oid v) b
  | None => bails (if nullish v then int32 (-1) else elemEncoderFor oid v)
  end.
Proof.
  intros Hv. unfold elem_wire. destruct (nullish v); [by apply int32_writes|].
  pose proof (elem_spec oid v Hv) as He. destruct (elem_payload oid v); [exact He|].
  intros w Hw. exists w, []. by rewrite He, app_nil_r.
Qed.

Lemma elems_spec oid l : Forall elem_ok l ->
  match mapM (elem_wire oid) l with
  | Some bs => writes (forM l (fun e => if nullish e then int32 (-1) else elemEncoderFor oid e)) (concat bs)
  | None => bails (forM l (fun e => if nullish e then int32 (-1) else elemEncoderFor oid e))
  end.
Proof.
  induction 1 as [|v l Hv _ IH]; [apply writes_ret|]. cbn [mapM forM].
  pose proof (elem_wire_spec oid v Hv) as He. destruct (elem_wire oid v) as [b|]; [|by apply bails_bind].
  simpl. destruct (mapM _ l) as [bs|]; [|by apply (bails_after _ b)]. by apply writes_bind.
Qed.

Lemma array_payload_spec oid l : Forall elem_ok l -> -2147483648 <= oid <= 2147483647 -> Z.of_nat (length l) <= 2147483647 ->
  match array_bytes oid l with
  | Some bs => writes (array_payload oid l) bs
  | None => bails (array_payload oid l)
  end.
Proof.
  intros Hl Ho Hn. unfold array_bytes, array_payload. destruct l as [|a l].
  { repeat (apply writes_bind; [by apply int32_writes|]). by apply int32_writes. }
  pose proof (elems_spec oid (a :: l) Hl) as He. remember (a :: l) as xs eqn:Exs. clear a l Exs Hl.
  assert (forall {B} (f : unit -> M writer B), bails (f tt) ->
    bails (_ ← int32 1; _ ← int32 (if existsb nullish xs then 1 else 0); _ ← int32 oid; _ ← int32 (Z.of_nat (length xs)); _ ← int32 1; f tt)) as Hb.
  { intros B f Hf. eapply bails_after; [by apply int32_writes|]. eapply bails_after; [apply int32_writes; by destruct (existsb nullish xs)|].
    repeat (eapply bails_after; [by (apply int32_writes; lia)|]). done. }
  destruct (mapM _ xs) as [bs|]; [|by apply (Hb _ (fun _ => _))].
  cbv [fmap option_fmap option_map]. unfold array_header. rewrite <- !app_assoc.
  apply writes_bind; [by apply int32_writes|]. apply writes_bind; [apply int32_writes; by destruct (existsb nullish xs)|].
  repeat (apply writes_bind; [by (apply int32_writes; lia)|]). exact He.
Qed.

Lemma rewind_spec w w' junk : wf w -> wf w' -> contents w' = contents w ++ junk -> msgStart w' = msgStart w ->
  exists w1, rewind (off w) w' = (w1, Ok tt) /\ wf w1 /\ contents w1 = contents w /\ msgStart w1 = msgStart w.
Proof.
  intros Hw Hw' C S. pose proof (off_after _ _ _ Hw Hw' C) as O. eexists. split; [reflexivity|].
  destruct Hw' as [Hb Hl]. split; [split; simpl; lia|]. simpl. split; [|done].
  unfold contents at 1; simpl. rewrite <- (length_contents w Hw).
  transitivity (take (length (contents w)) (contents w')); [|rewrite C; by apply take_app_length].
  change (contents w') with (take (off w') (buf w')). rewrite take_take, Nat.min_l; [done|]. rewrite length_contents by done. lia.
Qed.

Lemma arrayEnc_spec oid l w : Forall elem_ok l -> -2147483648 <= oid <= 2147483647 -> Z.of_nat (length l) <= 2147483647 -> wf w ->
  match array_bytes oid l with
  | Some b => blen b <= 2147483647 -> appends (arrayEnc oid (VArr l)) w 1 (be 4 (blen b) ++ b) (msgStart w)
  | None => forall p bs, encodeParam (VArr l) = Ok p -> param_value (pbytes p) = Ok bs ->
      appends (arrayEnc oid (VArr l)) w (format p) bs (msgStart w)
  end.
Proof.
  intros Hl Ho Hn Hw. pose proof (array_payload_spec oid l Hl Ho Hn) as Hp.
  destruct (array_bytes oid l) as [b|]; cbn [arrayEnc].
  - intros Hb. pose proof (with_length_writes _ _ Hp Hb w Hw) as (w' & E & R). exists w'. split; [|exact R].
    revert E. unfold with_length, mark.
    destruct (int32_writes 0 ltac:(lia) w Hw) as (w1 & E1 & Hw1 & C1 & S1).
    destruct (Hp w1 Hw1) as (w2 & E2 & Hw2 & C2 & S2).
    rewrite (bind_Ok (gets off) _ w w (off w)) by done. rewrite !(bind_Ok _ _ _ _ _ E1).
    rewrite (bind_Ok (gets off) _ w1 w1 (off w1)) by done. rewrite !(bind_Ok _ _ _ _ _ E2).
    rewrite !(bind_Ok (gets off) _ w2 w2 (off w2)) by done.
    pose proof (off_after _ _ _ Hw Hw1 C1) as O1. rewrite length_be in O1. rewrite O1.
    replace (Z.of_nat (off w2) - Z.of_nat (off w + 4)) with (Z.of_nat (off w2) - Z.of_nat (off w) - 4) by lia.
    intros E3. by rewrite (bind_Ok _ _ _ _ _ E3).
  - intros p bs Ep Hbs.
    assert (bails (_ ← int32 0; _ ← array_payload oid l; e ← mark; _ ← patch32 (off w) (Z.of_nat e - Z.of_nat (off w) - 4); (mret 1 : M writer Z))) as Hbail
      by (eapply bails_after; [by apply int32_writes|by apply bails_bind]).
    unfold appends. cbv beta. destruct (Hbail w Hw) as (w1 & junk & -> & Hw1 & C1 & S1). rewrite bool_decide_true by done.
    destruct (rewind_spec w w1 junk Hw Hw1 C1 S1) as (w2 & E2 & Hw2 & C2 & S2).
    pose proof (encodeValueInto_spec (VArr l) p bs w2 I Ep Hbs Hw2) as (w3 & E3 & R3).
    exists w3. rewrite (bind_Ok _ _ _ _ _ E2). rewrite C2, S2 in R3. split; [|exact R3].
    cbn [encodeValueInto] in E3. cbn [encodeParam] in Ep. apply bind_res_Ok_inv in Ep as (s & _ & [= <-]). exact E3.
Qed.

Lemma param_value_be b bs : param_value (Some b) = Ok bs -> bs = be 4 (blen b) ++ b.
Proof. by intros [-> _]%param_value_Some. Qed.

Lemma ELEM_OID_range oid e : ELEM_OID oid = Some e -> -2147483648 <= e <= 2147483647.
Proof.
  unfold ELEM_OID. intros (p & Hp & ->)%fmap_Some. apply List.find_some in Hp as [Hin _].
  assert (Forall (fun p => -2147483648 <= p.2 <= 2147483647) ELEM_OID_table) as Ha
    by (repeat (apply List.Forall_cons; [simpl; lia|]); apply List.Forall_nil).
  rewrite Forall_forall in Ha. apply Ha. by apply list_elem_of_In.
Qed.

Definition plan_encoder (oid : Z) : value -> M writer Z := default encodeValueInto (binEncoderFor oid).

(** A fast scalar: its writer where the value fits, the text encoder otherwise. *)
Lemma fast_spec oid v p bs w (g : M writer Z) : elem_ok v -> fits v ->
  match elem_payload oid v with Some b => Ok {| format := 1; pbytes := Some b |} | None => encodeParam v end = Ok p ->
  param_value (pbytes p) = Ok bs -> wf w ->
  g w = match elem_payload oid v with Some b => (_ ← elemEncoderFor oid v; mret 1) w | None => encodeValueInto v w end ->
  appends g w (format p) bs (msgStart w).
Proof.
  intros He Hf Ep Hbs Hw. pose proof (elem_spec oid v He) as Hs. unfold appends.
  destruct (elem_payload oid v) as [b|]; intros ->.
  - injection Ep as <-. apply param_value_be in Hbs as ->. by apply writes_value.
  - by eapply encodeValueInto_spec.
Qed.

Lemma fast_plan oid v w : oid ∈ JIT_FAST ->
  plan_encoder oid v w =
    match elem_payload oid v with Some b => (_ ← elemEncoderFor oid v; mret 1) w | None => encodeValueInto v w end.
Proof.
  intros EJ. unfold plan_encoder, binEncoderFor, elem_payload, elemEncoderFor.
  repeat (apply elem_of_cons in EJ as [->|EJ]); [..|by apply elem_of_nil in EJ];
    cbn [default Z.eqb Pos.eqb orb id].
  - destruct v; try done. symmetry. apply M_bind_assoc.
  - destruct (int_in _ _ v) as [z|]; [|done]. symmetry. apply M_bind_assoc.
  - destruct (int_in _ _ v) as [z|]; [|done]. symmetry. apply M_bind_assoc.
  - destruct v as [| | |n|z| | | | | |]; try done; [by destruct (safe_int n)|].
    destruct ((I64_MIN <=? z) && (z <=? I64_MAX)); done.
  - by destruct v.
  - destruct v as [| | | | | | |[t|] | | |]; done.
  - destruct v as [| | | | | | |[t|] | | |]; done.
Qed.

Lemma fits_elem_ok oid v : plan_ok oid v -> elem_ok v.
Proof. intros (Hf & Hd & _). split; [done|]. destruct v; try done. Qed.

(** Outside the fast scalars and JSON, [binEncoderFor] only knows arrays. *)
Lemma array_plan oid : oid ∉ JIT_FAST -> oid <> 114 -> oid <> 3802 ->
  binEncoderFor oid = arrayEnc <$> ELEM_OID oid.
Proof.
  intros HJ H1 H2. unfold binEncoderFor.
  assert (forall k, k ∈ JIT_FAST -> (oid =? k) = false) as Hk by (intros k Hk; apply Z.eqb_neq; by intros ->).
  rewrite (Hk 16), (Hk 21), (Hk 23), (Hk 20), (Hk 701), (Hk 1114), (Hk 1184) by (by apply (bool_decide_unpack _)).
  rewrite (proj2 (Z.eqb_neq oid 114)), (proj2 (Z.eqb_neq oid 3802)) by done. simpl.
  by destruct (ELEM_OID oid).
Qed.

(** Every plan writes the parameter it stands for. *)
Lemma plan_spec oid v p bs w : plan_ok oid v -> plan_param oid v = Ok p -> param_value (pbytes p) = Ok bs -> wf w ->
  appends (plan_encoder oid v) w (format p) bs (msgStart w).
Proof.
  intros Hok Ep Hbs Hw. pose proof (fits_elem_ok _ _ Hok) as He. destruct Hok as (Hf & Hd & Ha & Hj).
  unfold plan_param in Ep. destruct (bool_decide (oid ∈ JIT_FAST)) eqn:EJ.
  { apply bool_decide_eq_true in EJ. eapply fast_spec; try done. by apply fast_plan. }
  apply bool_decide_eq_false in EJ. destruct ((oid =? 114) || (oid =? 3802)) eqn:Ejs.
  - assert (plan_encoder oid v = (s ← lift (json_text v); _ ← lpStr s; mret 0)) as ->
      by (b2p_all; destruct Ejs as [-> | ->]; done).
    apply bind_res_Ok_inv in Ep as (s & Es & [= <-]). rewrite Es. apply param_value_be in Hbs as ->.
    apply (writes_value (lpStr s)); [|done]. apply lpStr_writes, Hj; [|done]. b2p_all. lia.
  - b2p_all. unfold plan_encoder. rewrite array_plan by (done || lia).
    destruct (ELEM_OID oid) as [elem|] eqn:Eo; [|by eapply encodeValueInto_spec].
    apply ELEM_OID_range in Eo. cbn [fmap option_fmap option_map default id].
    destruct v as [| | | | | | | |l| |]; try by (eapply encodeValueInto_spec).
    destruct Ha as [Hl Hn]. pose proof (arrayEnc_spec elem l w Hl Eo Hn Hw) as HA.
    destruct (array_bytes elem l) as [b|]; [|by apply HA].
    injection Ep as <-. apply param_value_Some in Hbs as [-> Hb]. by apply HA.
Qed.
End Plans.

(** ** Properties *)

(** The write-through value encoder puts on the wire exactly the length-prefixed
    bytes [encodeParam] allocates for the value, and returns its format: dates
    digit by digit, integers without their string, arrays in place. *)
Theorem encodeValueInto_eq_encodeParam `{Alloc} v p bs w :
  fits v -> encodeParam v = Ok p -> param_value (pbytes p) = Ok bs -> wf w ->
  exists w', encodeValueInto v w = (w', Ok (format p)) /\ wf w' /\ contents w' = contents w ++ bs.
Proof. intros Hf E Hbs Hw. destruct (encodeValueInto_spec v p bs w Hf E Hbs Hw) as (w' & E' & Hw' & C & _). eauto. Qed.

Definition demo_array : value := VArr [VNum (Fin false 3 0); VNull; VStr [34; 97]; VArr [VBool true]].

Lemma encodeValueInto_eq_encodeParam_witness : exists w',
  @encodeValueInto zero_alloc demo_array (@Writer.new zero_alloc 1) = (w', Ok 0)
  /\ contents w' = [0; 0; 0; 18] ++ js "{3,NULL," ++ [34; 92; 34; 97; 34] ++ js ",{t}}".
Proof.
  destruct (@encodeValueInto_eq_encodeParam zero_alloc demo_array
    (match encodeParam demo_array with Ok p => p | _ => text_param [] end)
    (match encodeParam demo_array with Ok p => match param_value (pbytes p) with Ok b => b | _ => [] end | _ => [] end)
    (@Writer.new zero_alloc 1)) as (w' & E & _ & C).
  - exact I.
  - vm_compute. reflexivity.
  - vm_compute. reflexivity.
  - unfold wf. vm_compute. split; lia.
  - exists w'. split; [exact E|]. rewrite C. vm_compute. reflexivity.
Defined.

(** A binary parameter plan sends each value as its type's binary payload when the
    value fits, and otherwise exactly what the text encoder sends. In particular a
    binary array that meets an element out of type after having written part of
    itself is taken back and replaced by the text literal. *)
Theorem plan_sends_param `{Alloc} oid v p bs w :
  plan_ok oid v -> plan_param oid v = Ok p -> param_value (pbytes p) = Ok bs -> wf w ->
  exists w', default encodeValueInto (binEncoderFor oid) v w = (w', Ok (format p)) /\ wf w' /\ contents w' = contents w ++ bs.
Proof. intros Hok E Hbs Hw. destruct (plan_spec oid v p bs w Hok E Hbs Hw) as (w' & E' & Hw' & C & _). eauto. Qed.

(** int4[] with a second element that is not an int4. *)
Definition demo_mixed : value := VArr [VNum (Fin false 7 0); VStr (js "x")].

Lemma plan_sends_param_witness : exists w',
  default (@encodeValueInto zero_alloc) (@binEncoderFor zero_alloc 1007) demo_mixed (@Writer.new zero_alloc 1) = (w', Ok 0)
  /\ contents w' = [0; 0; 0; 7] ++ js "{7," ++ [34; 120; 34] ++ js "}".
Proof.
  destruct (@plan_sends_param zero_alloc 1007 demo_mixed
    (match plan_param 1007 demo_mixed with Ok p => p | _ => text_param [] end)
    (match plan_param 1007 demo_mixed with Ok p => match param_value (pbytes p) with Ok b => b | _ => [] end | _ => [] end)
    (@Writer.new zero_alloc 1)) as (w' & E & _ & C).
  - split; [exact I|]. split; [exact I|]. split; [|lia]. split; [|vm_compute; discriminate].
    repeat (apply List.Forall_cons; [vm_compute; split; try exact I; discriminate|]). apply List.Forall_nil.
  - vm_compute. reflexivity.
  - vm_compute. reflexivity.
  - unfold wf. vm_compute. split; lia.
  - exists w'. split; [exact E|]. rewrite C. vm_compute. reflexivity.
Defined.

(** The declared json plan sends the JSON value null where every other encoder sends
    the SQL NULL. *)
Lemma json_plan_null : plan_param 3802 VNull = Ok (text_param (js "null"))
  /\ encodeParam VNull = Ok {| format := 0; pbytes := None |} /\ encodeJsonParam VNull (Some 3802) = Ok VNull.
Proof. by vm_compute. Qed.
