(* ===== verification/Jit.v ===== *)
(** * The compiled Bind encoder (src/encode.ts, compileParamPlan and compileBindEncoder)

    The generic write-through plan and the generated straight-line encoder put the
    same bytes on the wire: the Bind, Execute and Sync messages of the planned
    parameters. [row_period] justifies looping one compiled row over all of them. *)

From S2P Require Import Prelude Utf8 Buf Num Dates Value Protocol Framing Messages Temporal Encode EncodeProofs.
Import Writer.

(** ** The plan as an encoder of [writeBindWith] *)

Section Plan.
Context `{Alloc}.

Definition planned (oids : list Z) (i : nat) (v : value) (p : EncodedParam) : Prop :=
  match oids !! i with
  | Some oid => plan_ok oid v /\ plan_param oid v = Ok p
  | None => fits v /\ encodeParam v = Ok p
  end.

Definition plan_enc (oids : list Z) : ParamsEncoder value := fun v i =>
  match (binEncoderFor <$> oids) !! i with Some (Some e) => e v | _ => encodeValueInto v end.

Lemma compileParamPlan_Some oids enc : compileParamPlan oids = Some enc -> enc = plan_enc oids.
Proof. unfold compileParamPlan. destruct (existsb _ _); [|done]. by intros [= <-]. Qed.

#[export] Instance plan_lawful oids : LawfulEncoder (plan_enc oids).
Proof.
  refine {| encodes := planned oids |}. intros i v p bs w Hp Hbs Hw. unfold planned in Hp. unfold plan_enc.
  rewrite list_lookup_fmap. destruct (oids !! i) as [oid|]; simpl.
  - destruct Hp as [Hok Ep]. pose proof (plan_spec oid v p bs w Hok Ep Hbs Hw) as Ha. unfold plan_encoder in Ha.
    by destruct (binEncoderFor oid).
  - destruct Hp as [Hf Ep]. by eapply encodeValueInto_spec.
Defined.
End Plan.

(** ** The row width *)

Lemma repeats_spec oids p i : (0 < p)%nat -> repeats oids p = true -> (i < length oids)%nat ->
  nth i oids 0 = nth (i mod p) oids 0.
Proof.
  intros Hp Hr. unfold repeats in Hr. rewrite forallb_forall in Hr.
  induction i as [i IH] using lt_wf_ind. intros Hi.
  destruct (decide (i < p)%nat); [by rewrite Nat.mod_small|].
  specialize (Hr i). rewrite bool_decide_eq_true in Hr.
  assert (nth i oids 0 = nth (i - p) oids 0) as ->.
  { rewrite !nth_lookup, Hr; [done|]. apply in_seq. lia. }
  rewrite IH by lia. f_equal. replace i with ((i - p) + 1 * p)%nat at 2 by lia. by rewrite Nat.Div0.mod_add.
Qed.

(** The compiled row repeats: the width divides the number of parameters, and a
    parameter has the type of its column in the first row. *)
Lemma row_period oids : oids <> [] ->
  (0 < paramPeriod oids)%nat /\ (length oids mod paramPeriod oids = 0)%nat /\
  forall i, (i < length oids)%nat -> nth i oids 0 = nth (i mod paramPeriod oids) oids 0.
Proof.
  intros Hne. assert (0 < length oids)%nat by (destruct oids; [done|simpl; lia]).
  unfold paramPeriod. destruct (List.find _ _) as [p|] eqn:Ef.
  - apply List.find_some in Ef as [Hin Hb]. apply in_seq in Hin. b2p_all. destruct Hb as [Hm Hr].
    split; [lia|]. split; [done|]. intros i Hi. apply repeats_spec; [lia|done|done].
  - split; [done|]. split; [apply Nat.Div0.mod_same|]. intros i Hi. by rewrite Nat.mod_small.
Qed.

(** ** One generated column *)

Section Column.
Context `{Alloc}.

Definition baked (oid : Z) : Z := if bool_decide (oid ∈ JIT_FAST) then 1 else 0.

(** A value appended, its format in the slot that holds the baked one. *)
Definition column_spec (m : M writer unit) (slot : nat) (bk : Z) (p : EncodedParam) (bs : bytes) : Prop :=
  forall w pre post, wf w -> contents w = pre ++ be 2 bk ++ post -> slot = length pre ->
  exists w', m w = (w', Ok tt) /\ wf w' /\ contents w' = pre ++ be 2 (format p) ++ post ++ bs /\ msgStart w' = msgStart w.

Lemma column_baked m slot bk p bs : writes m bs -> format p = bk -> column_spec m slot bk p bs.
Proof.
  intros Hm Hf w pre post Hw C _. destruct (Hm w Hw) as (w' & E & Hw' & C' & S). exists w'.
  rewrite C', C, Hf, <- !app_assoc. done.
Qed.

Lemma column_fallback enc slot bk p bs : 0 <= format p <= 65535 ->
  (forall w, wf w -> appends enc w (format p) bs (msgStart w)) -> column_spec (fallback enc bk slot) slot bk p bs.
Proof.
  intros Hr He w pre post Hw C ->. destruct (He w Hw) as (w1 & E1 & Hw1 & C1 & S1).
  unfold fallback. rewrite (bind_Ok _ _ _ _ _ E1). rewrite C, <- !app_assoc in C1. destruct (Z.eqb_spec (format p) bk) as [->|_].
  - by exists w1.
  - destruct (patch_mid pre (be 2 bk) (be 2 (format p)) (post ++ bs) (length pre) (uint16_be (format p)) w1)
      as (w2 & E2 & Hw2 & C2 & S2 & _); try done.
    + by apply int_be_Ok.
    + exists w2. split; [exact E2|]. split; [done|]. split; [exact C2|congruence].
Qed.

Lemma column_ext m m' slot bk p bs : (forall w, m' w = m w) -> column_spec m slot bk p bs -> column_spec m' slot bk p bs.
Proof. intros He Hm w pre post Hw C Hs. rewrite He. by apply Hm. Qed.

Lemma encodeParam_format v p : encodeParam v = Ok p -> 0 <= format p <= 1.
Proof.
  destruct v; cbn [encodeParam]; try (intros [= <-]; simpl; lia).
  all: try (destruct (has_nul _); [done|]; intros [= <-]; simpl; lia).
  all: intros (s & _ & [= <-])%bind_res_Ok_inv; simpl; lia.
Qed.
Lemma plan_param_format oid v p : plan_param oid v = Ok p -> 0 <= format p <= 1.
Proof.
  unfold plan_param. destruct (bool_decide _).
  { destruct (elem_payload oid v); [intros [= <-]; simpl; lia|apply encodeParam_format]. }
  destruct (_ || _). { intros (s & _ & [= <-])%bind_res_Ok_inv. simpl. lia. }
  destruct (ELEM_OID oid); [|apply encodeParam_format].
  destruct v; try apply encodeParam_format. destruct (array_bytes _ _); [intros [= <-]; simpl; lia|apply encodeParam_format].
Qed.

(** The inlined statements of a fast column. *)
Lemma jit_fast oid v slot w : oid ∈ JIT_FAST ->
  jit_col oid v slot w = match elem_payload oid v with
    | Some _ => elemEncoderFor oid v w | None => fallback (encodeValueInto v) 1 slot w end.
Proof.
  intros EJ. unfold jit_col, elem_payload, elemEncoderFor.
  repeat (apply elem_of_cons in EJ as [->|EJ]); try (by apply elem_of_nil in EJ); cbn [Z.eqb Pos.eqb orb].
  - by destruct v.
  - by destruct (int_in _ _ v).
  - by destruct (int_in _ _ v).
  - destruct v as [| | |n|z| | | | | |]; try done; [by destruct (safe_int n)|].
    destruct ((I64_MIN <=? z) && (z <=? I64_MAX)); done.
  - by destruct v.
  - destruct v as [| | | | | | |[t|] | | |]; done.
  - destruct v as [| | | | | | |[t|] | | |]; done.
Qed.

(** The inlined text column. *)
Lemma jit_text oid v slot w : oid = 25 \/ oid = 1043 ->
  jit_col oid v slot w = match v with VStr s => (_ ← nul_guard s; lpStr s) w | _ => fallback (encodeValueInto v) 0 slot w end.
Proof. intros [-> | ->]; by destruct v. Qed.

Lemma jit_other oid v slot : oid ∉ JIT_FAST -> oid <> 25 -> oid <> 1043 ->
  jit_col oid v slot = fallback (plan_encoder oid v) 0 slot.
Proof.
  intros HJ H1 H2. unfold jit_col.
  assert (forall k, k ∈ JIT_FAST -> (oid =? k) = false) as Hk by (intros k Hk; apply Z.eqb_neq; by intros ->).
  rewrite (Hk 16), (Hk 21), (Hk 23), (Hk 20), (Hk 701), (Hk 1114), (Hk 1184) by (by apply (bool_decide_unpack _)).
  rewrite (proj2 (Z.eqb_neq oid 25)), (proj2 (Z.eqb_neq oid 1043)) by done. done.
Qed.

Lemma jit_col_spec oid v slot p bs : plan_ok oid v -> plan_param oid v = Ok p -> param_value (pbytes p) = Ok bs ->
  column_spec (jit_col oid v slot) slot (baked oid) p bs.
Proof.
  intros Hok Ep Hbs. pose proof (plan_param_format _ _ _ Ep) as Hfm. unfold baked.
  destruct (bool_decide (oid ∈ JIT_FAST)) eqn:EJ.
  - apply bool_decide_eq_true in EJ. pose proof (elem_spec oid v (fits_elem_ok _ _ Hok)) as Hs.
    unfold plan_param in Ep. rewrite bool_decide_true in Ep by done.
    eapply column_ext; [intros w; by apply jit_fast|].
    destruct (elem_payload oid v) as [b|].
    + injection Ep as <-. apply param_value_be in Hbs as ->. by apply column_baked.
    + apply column_fallback; [lia|]. intros w Hw. destruct Hok as [Hf _]. by eapply encodeValueInto_spec.
  - apply bool_decide_eq_false in EJ. destruct (decide (oid = 25 \/ oid = 1043)) as [Ht|Ht].
    + assert (plan_param oid v = encodeParam v) as Epp by (destruct Ht as [-> | ->]; done). rewrite Epp in Ep.
      destruct Hok as [Hf _]. eapply column_ext; [intros w; by apply jit_text|].
      assert (column_spec (fallback (encodeValueInto v) 0 slot) slot 0 p bs) as Hfb
        by (apply column_fallback; [lia|]; intros w Hw; by eapply encodeValueInto_spec).
      destruct v; try exact Hfb. cbn [encodeParam String_] in Ep. destruct (has_nul s) eqn:En; [done|].
      injection Ep as <-. apply param_value_be in Hbs as ->. rewrite has_nul_false by done.
      apply column_baked; [|done]. by apply lpStr_writes.
    + rewrite jit_other by (done || tauto). apply column_fallback; [lia|].
      intros w Hw. by apply plan_spec.
Qed.
End Column.

(** ** The rows *)

Section Rows.
Context `{Alloc}.

Lemma forM_ext {A} (f g : A -> M writer unit) l w : (forall a s, a ∈ l -> f a s = g a s) -> forM l f w = forM l g w.
Proof.
  revert w. induction l as [|a l IH]; intros w Hfg; [done|]. simpl. unfold mbind, M_bind.
  rewrite Hfg by set_solver. destruct (g a w) as [s [x|e|]]; try done. apply IH. intros. apply Hfg. set_solver.
Qed.
Lemma forM_app {A} (f : A -> M writer unit) l1 l2 w : forM (l1 ++ l2) f w = (_ ← forM l1 f; forM l2 f) w.
Proof.
  revert w. induction l1 as [|a l IH]; intros w; [done|]. simpl. rewrite M_bind_assoc. apply bind_ext. intros. apply IH.
Qed.
Lemma forM_fmap {A B} (g : A -> B) (f : B -> M writer unit) l : forM (g <$> l) f = forM l (fun a => f (g a)).
Proof. induction l as [|a l IH]; [done|]. change (forM (g a :: (g <$> l)) f = forM (a :: l) (fun a => f (g a))). simpl. by rewrite IH. Qed.

(** The nested loops visit the parameters in order. *)
Lemma jit_rows_flat oids p rc base fmt0 v w :
  (forall i, (i < rc * p)%nat -> nth i oids 0 = nth (i mod p) oids 0) ->
  jit_rows oids p rc base fmt0 v w
  = forM (seq 0 (rc * p)) (fun i => jit_col (nth i oids 0) (nth i v VUndef) (base + fmt0 + i * 2)) w.
Proof.
  unfold jit_rows. induction rc as [|rc IH] in w |- *; intros Hp; [done|].
  rewrite seq_S, forM_app, Nat.add_0_l. replace (S rc * p)%nat with (rc * p + p)%nat by lia.
  rewrite seq_app, forM_app, Nat.add_0_l.
  unfold mbind, M_bind. rewrite IH by (intros; apply Hp; lia). clear IH.
  destruct (forM (seq 0 (rc * p)) _ w) as [s [x|e|]]; try done.
  replace (seq (rc * p) p) with (Nat.add (rc * p) <$> seq 0 p) by (by rewrite fmap_add_seq, Nat.add_0_r).
  rewrite forM_fmap. cbn [forM].
  unfold mbind, M_bind.
  assert (forall (r : writer * res unit), (let (s', r0) := r in match r0 with Ok _ => (mret tt : M writer unit) s' | Throw e => (s', Throw e) | NoFuel => (s', NoFuel) end) = r) as Hid
    by (intros [s' [[]|e|]]; done).
  rewrite Hid. apply forM_ext. intros c s' Hc. apply elem_of_seq in Hc.
  rewrite (Hp (rc * p + c)%nat) by lia.
  replace ((rc * p + c) mod p)%nat with c by (rewrite (Nat.add_comm (rc * p)), Nat.Div0.mod_add, Nat.mod_small; lia).
  by replace (base + fmt0 + (rc * p + c) * 2)%nat with (base + fmt0 + rc * (p * 2) + c * 2)%nat by lia.
Qed.

Lemma jit_cols_spec oids params ps vB psB i w pre done_ mid vs :
  vB = drop i params -> psB = drop i ps -> length oids = length params -> (i <= length params)%nat ->
  encodes_from (H0 := plan_lawful oids) i vB psB ->
  concatM (fun p => param_value (pbytes p)) psB = Ok vs ->
  wf w -> contents w = pre ++ done_ ++ concat ((fun o => be 2 (baked o)) <$> drop i oids) ++ mid -> length done_ = (i * 2)%nat ->
  exists w', forM (seq i (length vB)) (fun j => jit_col (nth j oids 0) (nth j params VUndef) (length pre + j * 2)) w = (w', Ok tt)
    /\ wf w' /\ contents w' = pre ++ done_ ++ concat (fmt_bytes <$> psB) ++ mid ++ vs /\ msgStart w' = msgStart w.
Proof.
  revert psB i w done_ mid vs. induction vB as [|v vB IH]; intros psB i w done_ mid vs EvB EpB Hlo Hi He Hvs Hw Hc Hl.
  - destruct psB; [|done]. unfold concatM in Hvs. simpl in *. injection Hvs as <-.
    assert (drop i oids = []) as Ed.
    { apply drop_ge. symmetry in EvB. apply (f_equal length) in EvB. rewrite length_drop in EvB. simpl in EvB. lia. }
    rewrite Ed in Hc. simpl in Hc. exists w. rewrite app_nil_r. done.
  - destruct psB as [|p psB]; [done|]. destruct He as [Hp He].
    assert (i < length params)%nat as Hi'.
    { apply (f_equal length) in EvB. rewrite length_drop in EvB. simpl in EvB. lia. }
    destruct (lookup_lt_is_Some_2 oids i) as [o Ho]; [lia|]. rewrite (drop_S _ _ _ Ho) in Hc.
    destruct (lookup_lt_is_Some_2 params i Hi') as [v' Hv]. rewrite (drop_S _ _ _ Hv) in EvB. injection EvB as -> EvB.
    unfold concatM in *. simpl in Hvs. destruct (param_value (pbytes p)) as [b| |] eqn:Eb; [|done..].
    simpl in Hvs. destruct (mapM _ psB) as [ks| |] eqn:Ek; [|done..]. injection Hvs as <-.
    simpl in Hp. unfold planned in Hp. rewrite Ho in Hp. destruct Hp as [Hok Ep].
    destruct (jit_col_spec o v' (length pre + i * 2) p b Hok Ep Eb w (pre ++ done_)
      (concat ((fun o => be 2 (baked o)) <$> drop (S i) oids) ++ mid) Hw) as (w1 & E1 & Hw1 & C1 & S1).
    { rewrite Hc. simpl. by rewrite <- !app_assoc. }
    { rewrite length_app. lia. }
    destruct (IH psB (S i) w1 (done_ ++ fmt_bytes p) (mid ++ b) (concat ks)) as (w2 & E2 & Hw2 & C2 & S2); try done.
    { assert (ps !! i = Some p) as Hps by (rewrite <- (Nat.add_0_r i), <- lookup_drop, <- EpB; done).
      rewrite (drop_S _ _ _ Hps) in EpB. by injection EpB. }
    { by rewrite Ek. }
    { rewrite C1. unfold fmt_bytes. by rewrite <- !app_assoc. }
    { rewrite length_app. unfold fmt_bytes. rewrite length_be. lia. }
    exists w2. cbn [length seq forM]. rewrite (nth_lookup_Some oids i 0 o Ho), (nth_lookup_Some params i VUndef v' Hv).
    rewrite (bind_Ok _ _ _ _ _ E1), E2, C2, S2. simpl. rewrite <- !app_assoc. done.
Qed.
End Rows.

(** ** The whole encoder *)

Section Whole.
Context `{Alloc}.

Lemma result_format_writes rf rfb : jit_result_format rf = Ok rfb -> writes (write_result_format rf) rfb.
Proof.
  destruct rf as [f|fs]; cbn [jit_result_format]; intros E.
  - apply bind_res_Ok_inv in E as (one & Eo & E). apply bind_res_Ok_inv in E as (b & Eb & [= <-]).
    apply writes_bind; by apply i16_writes.
  - apply bind_res_Ok_inv in E as (n & En & E). apply bind_res_Ok_inv in E as (b & Eb & [= <-]).
    apply writes_bind; [by apply i16_writes|]. apply (writes_concatM _ uint16_be); [|exact Eb]. intros a k. apply i16_writes.
Qed.

Lemma baked_fmts oids fmts p : (forall i, (i < length oids)%nat -> nth i oids 0 = nth (i mod p) oids 0) ->
  concatM (fun i => uint16_be (if bool_decide (nth (i mod p) oids 0 ∈ JIT_FAST) then 1 else 0)) (seq 0 (length oids)) = Ok fmts ->
  fmts = concat ((fun o => be 2 (baked o)) <$> oids).
Proof.
  intros Hp E. unfold concatM in E. destruct (mapM _ _) as [ks| |] eqn:Ek; [|done..]. injection E as <-. f_equal. apply mapM_Ok_inv in Ek.
  apply list_eq_same_length with (length oids); [by rewrite length_fmap|by rewrite <- (Forall2_length _ _ _ Ek), length_seq|].
  intros i x y Hi Hx Hy. destruct (Forall2_lookup_r _ _ _ _ _ Ek Hx) as (j & Hj & Ej).
  apply lookup_seq in Hj as [-> _]. apply i16_inv in Ej as [_ ->]. rewrite <- Hp by done.
  rewrite list_lookup_fmap in Hy. apply fmap_Some in Hy as (o & Ho & ->). simpl.
  rewrite (nth_lookup_Some oids i 0 o Ho). done.
Qed.

Definition prefix (name : jstr) (cnt fmts : bytes) : bytes := [0] ++ utf8 name ++ [0] ++ cnt ++ fmts ++ cnt.

(** Framing constant and rows together: the Bind parameters section. *)
Lemma jit_body_writes name oids params ps p rc cnt vs :
  length params = length oids -> (rc * p = length oids)%nat -> length cnt = 2%nat ->
  (forall i, (i < length oids)%nat -> nth i oids 0 = nth (i mod p) oids 0) ->
  encodes_from (H0 := plan_lawful oids) 0 params ps ->
  concatM (fun p => param_value (pbytes p)) ps = Ok vs ->
  writes (base ← mark; _ ← bytes_ (prefix name cnt (concat ((fun o => be 2 (baked o)) <$> oids)));
          jit_rows oids p rc base (1 + length (utf8 name) + 1 + 2) params)
         ([0] ++ utf8 name ++ [0] ++ cnt ++ concat (fmt_bytes <$> ps) ++ cnt ++ vs).
Proof.
  intros Hl Hrc Hcnt Hp He Hvs w Hw. set (F := concat _).
  destruct (bytes_writes (prefix name cnt F) w Hw) as (w1 & E1 & Hw1 & C1 & S1).
  set (pre := contents w ++ [0] ++ utf8 name ++ [0] ++ cnt).
  destruct (jit_cols_spec oids params ps params ps 0 w1 pre [] cnt vs) as (w2 & E2 & Hw2 & C2 & S2); try done.
  { lia. }
  { rewrite C1. unfold prefix, pre, F. rewrite drop_0, <- !app_assoc. done. }
  exists w2. rewrite (bind_Ok mark _ w w (off w)) by done. rewrite (bind_Ok _ _ _ _ _ E1).
  rewrite jit_rows_flat by (rewrite Hrc; exact Hp). rewrite Hrc, <- Hl.
  assert (length pre = (off w + (1 + length (utf8 name) + 1 + 2))%nat) as Hpre.
  { unfold pre. rewrite !length_app, length_contents, Hcnt by done. simpl. lia. }
  rewrite Hpre in E2. split; [exact E2|]. split; [done|]. split; [|congruence].
  rewrite C2. unfold pre. rewrite <- !app_assoc. done.
Qed.

(** What a compiled statement sends, in the builders' terms. *)
Definition statement_bytes (name : jstr) (ps : list EncodedParam) (rf : result_format) : res bytes :=
  r ← jit_result_format rf; b ← bind_message [] name ps r; e ← W.execute [] 0; s ← W.sync; Ok (b ++ e ++ s).

Lemma generic_emits name oids params ps rf bs :
  encodes_from (H0 := plan_lawful oids) 0 params ps -> statement_bytes name ps rf = Ok bs ->
  emits (_ ← writeBindWith [] name params (plan_enc oids) rf; _ ← writeExecute [] 0; writeSync) bs.
Proof.
  intros He E. apply bind_res_Ok_inv in E as (r & Er & E). apply bind_res_Ok_inv in E as (b & Eb & E).
  apply bind_res_Ok_inv in E as (e & Ee & E). apply bind_res_Ok_inv in E as (sy & Es & [= <-]).
  apply emits_bind; [by eapply writeBindWith_emits; [|apply result_format_writes|]|].
  apply emits_bind; [by apply (write_emits (FExecute [] 0))|by apply (write_emits FSync)].
Qed.

Lemma compiled_emits name oids rf f params ps bs :
  compileBindEncoder name oids rf = Ok (Some f) -> length params = length oids ->
  encodes_from (H0 := plan_lawful oids) 0 params ps -> statement_bytes name ps rf = Ok bs -> emits (f params) bs.
Proof.
  intros Ec Hl He E. apply bind_res_Ok_inv in E as (r & Er & E). apply bind_res_Ok_inv in E as (b & Eb & E).
  apply bind_res_Ok_inv in E as (e & Ee & E). apply bind_res_Ok_inv in E as (sy & Es & [= <-]).
  pose proof (encodes_from_length _ _ _ He) as Hlp. unfold bind_message in Eb. destruct (65535 <? _); [done|].
  apply bind_res_Ok_inv in Eb as (nb & En & Eb). apply bind_res_Ok_inv in Eb as (fs & Ef & Eb).
  apply bind_res_Ok_inv in Eb as (vs & Ev & Eb). rewrite <- Hlp, Hl in En.
  unfold compileBindEncoder in Ec. set (p := if (length oids =? 0)%nat then O else paramPeriod oids) in Ec.
  destruct (JIT_MAX_PERIOD <? p)%nat; [done|].
  apply bind_res_Ok_inv in Ec as (fmts & Efm & Ec). change (uint16_be (Z.of_nat (length oids))) with (i16 (Z.of_nat (length oids))) in Ec.
  rewrite En in Ec. cbn [mbind res_bind] in Ec. rewrite Er, Ee, Es in Ec. cbn [mbind res_bind] in Ec.
  set (rc := if (p =? 0)%nat then O else (length oids / p)%nat) in Ec. injection Ec as <-.
  assert ((rc * p = length oids)%nat /\ forall i, (i < length oids)%nat -> nth i oids 0 = nth (i mod p) oids 0) as [Hrc Hp].
  { unfold rc, p. destruct oids as [|o oids']; [split; [done|simpl; lia]|]. set (os := o :: oids').
    destruct (row_period os) as (Hp0 & Hm & Hi); [done|]. change ((length os =? 0)%nat) with false. cbv iota.
    destruct (Nat.eqb_spec (paramPeriod os) 0); [lia|]. split; [|exact Hi].
    rewrite (Nat.div_mod_eq (length os) (paramPeriod os)) at 2. rewrite Hm. lia. }
  apply (baked_fmts _ _ _ Hp) in Efm as ->.
  assert (length nb = 2%nat) as Hnb by (apply i16_inv in En as [_ ->]; done).
  unfold concatM in Ef. destruct (mapM (fun p => i16 (format p)) _) as [ks| |] eqn:Ek; [|done..]. injection Ef as <-.
  apply mapM_i16_fmt in Ek as [_ ->].
  pose proof (jit_body_writes name oids params ps p rc nb vs Hl Hrc Hnb Hp He Ev) as Hbody.
  eapply emits_ext with (m := (start (js "B") ≫= fun _ =>
     (base ← mark; _ ← bytes_ (prefix name nb (concat ((fun o => be 2 (baked o)) <$> oids)));
      jit_rows oids p rc base (1 + length (utf8 name) + 1 + 2) params) ≫= fun _ => bytes_ r ≫= fun _ => end_) ≫= fun _ => bytes_ (e ++ sy)).
  { intros w. rewrite M_bind_assoc. apply bind_ext. intros _ s1. rewrite !M_bind_assoc. apply bind_ext. intros base s2.
    rewrite !M_bind_assoc. apply bind_ext. intros _ s3. apply bind_ext. intros _ s4. by rewrite M_bind_assoc. }
  apply emits_bind.
  - eapply frame_msg; [|exact Eb]. eapply closes_id; [apply closes_seq; [exact Hbody|apply closes_seq; [apply bytes_writes|apply closes_end]]|].
    rewrite app_nil_r. unfold Protocol.cstr. change (utf8 []) with (@nil Z). rewrite <- !app_assoc. done.
  - intros w Hw. eexists. by apply bytes_writes.
Qed.
End Whole.

(** ** Property *)

(** C26: A compiled Bind encoder is byte-identical to the generic path: for parameters
    of the statement's plan, the constant framing with the inlined columns, looped
    over the repeating row, writes what [writeBindWith] with the plan,
    [writeExecute] and [writeSync] write, and both are the builders' messages. *)
Theorem compileBindEncoder_eq_generic `{Alloc} name oids rf f params ps bs w :
  compileBindEncoder name oids rf = Ok (Some f) -> length params = length oids ->
  encodes_from (H0 := plan_lawful oids) 0 params ps -> statement_bytes name ps rf = Ok bs -> wf w ->
  exists w1 w2, f params w = (w1, Ok tt)
    /\ (_ ← writeBindWith [] name params (plan_enc oids) rf; _ ← writeExecute [] 0; writeSync) w = (w2, Ok tt)
    /\ contents w1 = contents w ++ bs /\ contents w2 = contents w ++ bs.
Proof.
  intros Ec Hl He E Hw. destruct (compiled_emits name oids rf f params ps bs Ec Hl He E w Hw) as (s1 & w1 & E1 & _ & C1 & _).
  destruct (generic_emits name oids params ps rf bs He E w Hw) as (s2 & w2 & E2 & _ & C2 & _). exists w1, w2. auto.
Qed.

(** Two rows of (int4, text, int4[]): the row width is 3 of 6 parameters. *)
Definition demo_oids : list Z := [23; 25; 1007; 23; 25; 1007].
Definition demo_values : list value :=
  [VNum (Fin false 5 0); VStr (js "a"); VArr [VNum (Fin false 1 0)]; VStr (js "6"); VNum (Fin false 2 0); VArr [VBool true]].
Definition demo_encoded : list EncodedParam :=
  Eval vm_compute in match mapM (fun ov => plan_param ov.1 ov.2) (zip demo_oids demo_values) with Ok ps => ps | _ => [] end.

Definition demo_encoder : list value -> @M writer unit :=
  match @compileBindEncoder zero_alloc (js "s1") demo_oids (OneFormat 1) with Ok (Some f) => f | _ => fun _ => mret tt end.

(** Evaluates the conditions of a concrete plan. *)
Ltac planned_ok := lazymatch goal with
  | |- _ /\ _ => split; planned_ok
  | |- encodes ?i ?v ?p => change (planned demo_oids i v p); unfold planned; cbn [lookup list_lookup demo_oids]; planned_ok
  | |- plan_ok _ _ => unfold plan_ok; planned_ok
  | |- elem_ok _ => unfold elem_ok; planned_ok
  | |- _ = _ => vm_compute; reflexivity
  | |- Forall _ _ => apply List.Forall_nil || (apply List.Forall_cons; planned_ok)
  | |- _ \/ _ -> _ => intros [?|?]; discriminate
  | |- _ <= _ => vm_compute; discriminate
  | |- _ => first [exact I | vm_compute; discriminate]
  end.

Lemma compileBindEncoder_eq_generic_witness : exists w1 w2,
  demo_encoder demo_values (@Writer.new zero_alloc 1) = (w1, Ok tt) /\ paramPeriod demo_oids = 3%nat
  /\ (_ ← @writeBindWith zero_alloc _ [] (js "s1") demo_values (@plan_enc zero_alloc demo_oids) (OneFormat 1);
       _ ← @writeExecute zero_alloc [] 0; @writeSync zero_alloc) (@Writer.new zero_alloc 1) = (w2, Ok tt)
  /\ contents w1 = contents w2.
Proof.
  destruct (@compileBindEncoder_eq_generic zero_alloc (js "s1") demo_oids (OneFormat 1) demo_encoder demo_values demo_encoded
    (match statement_bytes (js "s1") demo_encoded (OneFormat 1) with Ok b => b | _ => [] end) (@Writer.new zero_alloc 1))
    as (w1 & w2 & E1 & E2 & C1 & C2).
  - reflexivity.
  - reflexivity.
  - cbn [encodes_from demo_values demo_encoded]. planned_ok.
  - vm_compute. reflexivity.
  - unfold wf. vm_compute. split; lia.
  - exists w1, w2. split; [exact E1|]. split; [reflexivity|]. split; [exact E2|]. by rewrite C1, C2.
Defined.
