(* ===== verification/CopyText.v ===== *)
(** * COPY FROM STDIN rows (src/encode.ts, copyRowsText and copyRowsBinary)

    The chunks the generators yield, concatenated, are the COPY stream of the rows
    whatever the chunk size; a text stream reads back, by PostgreSQL's COPY text
    rules ([read_copy]), as the texts of the cells. *)

From S2P Require Import Prelude Utf8 Text Buf Num Dates Value Protocol Framing Messages Temporal Encode EncodeProofs.
Import Writer.

(** ** The text format *)

(** The text of a cell, before escaping. *)
Definition cell_text (v : value) : res jstr :=
  match v with
  | VStr s => Ok s
  | VNum x => Ok (num_str x)
  | VBig z => Ok (show_Z z)
  | VBool b => Ok (if b then js "t" else js "f")
  | VDate t => toISOString t
  | VBuf b => Ok (js "\x" ++ hex b)
  | VArr _ | VObj _ => stringify_text v
  | _ => Ok (String_ v)
  end.
Definition esc_copy_char (c : Z) : jstr := if copy_esc c =? 0 then [c] else [92; copy_esc c].
Definition esc_copy (s : jstr) : jstr := concat (esc_copy_char <$> s).
Definition copy_null : jstr := js "\N".
Definition copy_cell (v : value) : res jstr := if nullish v then Ok copy_null else s ← cell_text v; Ok (esc_copy s).

(** One line: the cells separated by tabs. *)
Definition copy_line (names : list jstr) (row : value) : res jstr :=
  cells ← mapM (fun c => copy_cell (cell row names c)) (seq 0 (length names));
  Ok (join [9] cells ++ [10]).
Definition copy_stream (names : list jstr) (rows : list value) : res jstr := concat <$> mapM (copy_line names) rows.

(** PostgreSQL's reader: lines end at a line feed, columns are separated by tabs, [\N]
    is NULL, and a backslash stands for the character after it. *)
Definition unesc_char (c : Z) : Z := if c =? 116 then 9 else if c =? 110 then 10 else if c =? 114 then 13 else c.
Fixpoint unesc_copy (s : jstr) : jstr :=
  match s with
  | [] => []
  | c :: t => if c =? 92 then match t with d :: t' => unesc_char d :: unesc_copy t' | [] => [c] end else c :: unesc_copy t
  end.
Definition read_field (s : jstr) : option jstr := if bool_decide (s = copy_null) then None else Some (unesc_copy s).
(** What follows the last line feed is not a line. *)
Definition read_copy (s : jstr) : list (list (option jstr)) :=
  (fun l => read_field <$> split 9 l []) <$> removelast (split 10 s []).

(** ** Escaping round-trips *)

Lemma copy_esc_cases c : (copy_esc c = 0 /\ c <> 92 /\ c <> 9 /\ c <> 10 /\ c <> 13)
  \/ (unesc_char (copy_esc c) = c /\ (copy_esc c = 92 \/ copy_esc c = 116 \/ copy_esc c = 110 \/ copy_esc c = 114)).
Proof.
  unfold copy_esc. destruct (Z.eqb_spec c 92) as [->|]; [by right; auto|]. destruct (Z.eqb_spec c 9) as [->|]; [by right; auto|].
  destruct (Z.eqb_spec c 10) as [->|]; [by right; auto|]. destruct (Z.eqb_spec c 13) as [->|]; [by right; auto|]. left. lia.
Qed.

Lemma unesc_esc s : unesc_copy (esc_copy s) = s.
Proof.
  unfold esc_copy. induction s as [|c s IH]; [done|]. cbn [fmap list_fmap concat]. unfold esc_copy_char at 1.
  destruct (copy_esc_cases c) as [(-> & Hc & _)|(Hu & He)]; simpl.
  - destruct (Z.eqb_spec c 92); [done|]. by f_equal.
  - destruct (Z.eqb_spec (copy_esc c) 0) as [E|_]; [lia|]. cbn [app unesc_copy]. simpl. by rewrite Hu, IH.
Qed.

Lemma esc_copy_clean s : Forall (fun c => c <> 9 /\ c <> 10) (esc_copy s).
Proof.
  unfold esc_copy. induction s as [|c s IH]; [constructor|]. cbn [fmap list_fmap concat]. apply Forall_app_2; [|exact IH].
  unfold esc_copy_char. destruct (copy_esc_cases c) as [(-> & Hc)|(_ & He)]; simpl; [repeat constructor; lia|].
  destruct (Z.eqb_spec (copy_esc c) 0); repeat constructor; lia.
Qed.

Lemma esc_copy_not_null s : esc_copy s <> copy_null.
Proof.
  change copy_null with [92; 78]. destruct s as [|c s]; [done|]. unfold esc_copy. cbn [fmap list_fmap concat]. unfold esc_copy_char at 1.
  destruct (copy_esc_cases c) as [(-> & Hc & _)|(_ & He)]; simpl; [congruence|].
  destruct (Z.eqb_spec (copy_esc c) 0); [lia|]. intros [= E _]. lia.
Qed.

Lemma read_field_esc s : read_field (esc_copy s) = Some s.
Proof. unfold read_field. rewrite bool_decide_false by apply esc_copy_not_null. by rewrite unesc_esc. Qed.

(** ** Splitting *)

Lemma split_join d cells : cells <> [] -> Forall (Forall (fun c => c <> d)) cells -> split d (join [d] cells) [] = cells.
Proof.
  intros Hne Hc. induction Hc as [|s [|s' cells] Hs Hc IH]; [done| |].
  - simpl. rewrite <- (app_nil_r s) at 1. rewrite split_app by done. done.
  - change (join [d] (s :: s' :: cells)) with (s ++ d :: join [d] (s' :: cells)). rewrite split_sep by done. by rewrite IH.
Qed.
Lemma removelast_split d ls : Forall (Forall (fun c => c <> d)) ls ->
  removelast (split d (concat ((fun l => l ++ [d]) <$> ls)) []) = ls.
Proof.
  intros Hl. induction Hl as [|s ls Hs _ IH]; [done|]. cbn [fmap list_fmap concat]. rewrite <- app_assoc. cbn [app].
  rewrite split_sep by done. simpl in IH |- *. rewrite IH.
  destruct (split d (concat ((fun l => l ++ [d]) <$> ls)) []) eqn:E; [|done].
  by destruct (split_nonempty _ _ _ E).
Qed.

(** A stream of at least one column reads back as the cells' texts. *)
Definition cell_read (v : value) : res (option jstr) := if nullish v then Ok None else Some <$> cell_text v.

Lemma copy_cell_read v s : copy_cell v = Ok s -> cell_read v = Ok (read_field s) /\ Forall (fun c => c <> 9 /\ c <> 10) s.
Proof.
  unfold copy_cell, cell_read. destruct (nullish v).
  - intros [= <-]. split; [done|]. repeat (apply List.Forall_cons; [vm_compute; split; discriminate|]). apply List.Forall_nil.
  - intros (x & -> & [= <-])%bind_res_Ok_inv. rewrite read_field_esc. split; [done|apply esc_copy_clean].
Qed.

Lemma mapM_Ok_intro {A B} (f : A -> res B) l ks : Forall2 (fun a k => f a = Ok k) l ks -> mapM f l = Ok ks.
Proof. induction 1 as [|a k l ks Ha _ IH]; [done|]. cbn [mapM mret mbind res_bind]. rewrite Ha. cbn [mbind res_bind]. by rewrite IH. Qed.

Lemma copy_line_read names row s : names <> [] -> copy_line names row = Ok s ->
  exists line, s = line ++ [10] /\ Forall (fun c => c <> 10) line /\
  mapM (fun c => cell_read (cell row names c)) (seq 0 (length names)) = Ok (read_field <$> split 9 line []).
Proof.
  intros Hne (cells & E & [= <-])%bind_res_Ok_inv. apply mapM_Ok_inv in E.
  assert (cells <> []) as Hc by (intros ->; apply Forall2_length in E; rewrite length_seq in E; by destruct names).
  assert (Forall (Forall (fun c => c <> 9 /\ c <> 10)) cells) as Hcl.
  { clear Hc. induction E as [|c k l ks Hk _ IH]; constructor; [by apply copy_cell_read in Hk as [_ ?]|done]. }
  exists (join [9] cells). split; [done|]. split.
  - clear E Hc. induction Hcl as [|x [|y cells] Hx Hcl IH]; [constructor| |].
    + simpl. eapply Forall_impl; [exact Hx|]. simpl. tauto.
    + change (join [9] (x :: y :: cells)) with (x ++ 9 :: join [9] (y :: cells)). apply Forall_app_2; [|by constructor].
      eapply Forall_impl; [exact Hx|]. simpl. tauto.
  - rewrite split_join; [|done|].
    + apply mapM_Ok_intro. apply Forall2_fmap_r. eapply Forall2_impl; [exact E|]. simpl. intros c k Hk. by apply copy_cell_read in Hk as [? _].
    + eapply Forall_impl; [exact Hcl|]. simpl. intros x Hx. eapply Forall_impl; [exact Hx|]. simpl. tauto.
Qed.

Lemma copy_stream_read names rows s : names <> [] -> copy_stream names rows = Ok s ->
  mapM (fun row => mapM (fun c => cell_read (cell row names c)) (seq 0 (length names))) rows = Ok (read_copy s).
Proof.
  intros Hne E. unfold copy_stream in E. destruct (mapM _ rows) as [ls| |] eqn:El; [|done..]. injection E as <-.
  apply mapM_Ok_inv in El.
  assert (exists lines, ls = (fun l => l ++ [10]) <$> lines /\ Forall (Forall (fun c => c <> 10)) lines /\
    Forall2 (fun row line => mapM (fun c => cell_read (cell row names c)) (seq 0 (length names)) = Ok (read_field <$> split 9 line [])) rows lines)
    as (lines & -> & Hcl & Hr).
  { induction El as [|row l rows ls Hl _ (lines & -> & Hcl & Hr)]; [by exists []|].
    apply copy_line_read in Hl as (line & -> & Hln & Hm); [|done]. exists (line :: lines). split; [done|]. split; by constructor. }
  unfold read_copy. rewrite removelast_split by done. apply mapM_Ok_intro. by apply Forall2_fmap_r.
Qed.

(** ** The chunked generator *)

Section Gen.
Context `{Alloc}.

(** What a generator step has sent or still holds. *)
Definition sent (g : gen) : bytes := concat g.2 ++ contents g.1.
Definition gwrites (m : M gen unit) (bs : bytes) : Prop :=
  forall g, wf g.1 -> exists g', m g = (g', Ok tt) /\ wf g'.1 /\ sent g' = sent g ++ bs.

Lemma gwrites_bind m (f : unit -> M gen unit) b1 b2 : gwrites m b1 -> gwrites (f tt) b2 -> gwrites (m ≫= f) (b1 ++ b2).
Proof.
  intros H1 H2 g Hg. destruct (H1 g Hg) as (g1 & E1 & Hg1 & S1). destruct (H2 g1 Hg1) as (g2 & E2 & Hg2 & S2).
  exists g2. rewrite (bind_Ok _ _ _ _ _ E1), S2, S1, app_assoc. done.
Qed.
Lemma gwrites_wr m bs : writes m bs -> gwrites (wr m) bs.
Proof.
  intros Hm [w cs] Hw. destruct (Hm w Hw) as (w' & E & Hw' & C & _). exists (w', cs). unfold wr. simpl. rewrite E.
  split; [done|]. split; [done|]. unfold sent. simpl. by rewrite C, app_assoc.
Qed.
Lemma gwrites_flush n : gwrites (flush_at n) [].
Proof.
  intros [w cs] Hw. unfold flush_at. simpl. rewrite app_nil_r. destruct (n <=? _); [|by exists (w, cs)].
  eexists. split; [reflexivity|]. unfold sent, wf in *. simpl. split; [split; [apply Hw|lia]|].
  rewrite concat_app. simpl. by rewrite !app_nil_r.
Qed.

Lemma writeEscCopy_loop_writes s run : writes (writeEscCopy_loop s run) (utf8 (run ++ esc_copy s)).
Proof.
  revert run. induction s as [|c t IH]; intros run; cbn [writeEscCopy_loop].
  - unfold esc_copy. simpl. rewrite app_nil_r. apply flush_run_writes.
  - unfold esc_copy in *. cbn [fmap list_fmap concat]. unfold esc_copy_char at 1.
    destruct (copy_esc_cases c) as [(-> & _)|(_ & He)].
    + simpl. replace (run ++ c :: concat (esc_copy_char <$> t)) with ((run ++ [c]) ++ concat (esc_copy_char <$> t)) by by rewrite <- app_assoc.
      apply IH.
    + destruct (Z.eqb_spec (copy_esc c) 0); [lia|]. cbn [app]. rewrite utf8_break_ascii, utf8_ascii_cons by lia.
      apply writes_bind; [apply flush_run_writes|].
      change (92 :: ?x :: ?y) with ([92] ++ [x] ++ y). apply writes_bind; [by apply byte_writes_ok|].
      apply writes_bind; [apply byte_writes_ok; lia|]. apply (IH []).
Qed.

Lemma esc_copy_plain s : Forall plain s -> esc_copy s = s.
Proof.
  unfold esc_copy. induction 1 as [|c s Hc _ IH]; [done|]. cbn [fmap list_fmap concat]. rewrite IH. unfold esc_copy_char.
  replace (copy_esc c) with 0; [done|]. unfold copy_esc, plain in *.
  destruct (Z.eqb_spec c 92); [lia|]. destruct (Z.eqb_spec c 9); [lia|]. destruct (Z.eqb_spec c 10); [lia|].
  destruct (Z.eqb_spec c 13); [lia|done].
Qed.
Lemma hex_digit_plain n : 0 <= n < 16 -> plain (hex_digit n).
Proof. unfold plain, hex_digit. destruct (Z.ltb_spec n 10); lia. Qed.
Lemma hex_plain b : bytes_ok b -> Forall plain (hex b).
Proof.
  unfold hex. induction 1 as [|c b Hc _ IH]; [constructor|]. unfold byte_ok in Hc. cbn [fmap list_fmap concat].
  apply Forall_app_2; [|exact IH]. pose proof (Z.mod_pos_bound c 16).
  constructor; [apply hex_digit_plain; Z.to_euclidean_division_equations; lia|]. constructor; [apply hex_digit_plain; lia|constructor].
Qed.
Lemma esc_copy_app a b : esc_copy (a ++ b) = esc_copy a ++ esc_copy b.
Proof. unfold esc_copy. by rewrite fmap_app, concat_app. Qed.

Lemma asc_copy s : Forall plain s -> writes (asc s) (utf8 (esc_copy s)).
Proof. intros Hs. rewrite esc_copy_plain, utf8_ascii by (done || by apply plain_ascii). by apply asc_plain. Qed.

(** Buffers hold bytes. *)
Definition buf_ok (v : value) : Prop := match v with VBuf b => bytes_ok b | _ => True end.

Lemma copyTextCellInto_writes v s : buf_ok v -> nullish v = false -> cell_text v = Ok s ->
  writes (copyTextCellInto v) (utf8 (esc_copy s)).
Proof.
  intros Hv Hn E. destruct v; cbn [cell_text copyTextCellInto] in *; try done.
  - injection E as <-. destruct b; by apply byte_writes_ok.
  - injection E as <-. apply asc_copy, num_str_plain.
  - injection E as <-. apply asc_copy, show_Z_plain.
  - injection E as <-. apply (writeEscCopy_loop_writes s0 []).
  - assert (s = js "\x" ++ hex b) as -> by congruence. pose proof (hex_plain _ Hv) as Hp. rewrite esc_copy_app, (esc_copy_plain (hex b)) by done.
    change (esc_copy (js "\x")) with [92; 92; 120]. rewrite utf8_ascii.
    + apply (writes_bind (asc _) _ [92; 92; 120]); [apply (asc_writes [92; 92; 120])|by apply asc_plain].
    + apply Forall_app_2; [repeat constructor; lia|by apply plain_ascii].
  - destruct t as [t|]; [|done]. injection E as <-. pose proof (iso_plain t) as Hp.
    rewrite esc_copy_plain, utf8_ascii by (done || by apply plain_ascii). by apply writeIso_writes.
  - eapply lift_bind; [exact E|]. apply (writeEscCopy_loop_writes s []).
  - eapply lift_bind; [exact E|]. apply (writeEscCopy_loop_writes s []).
  - injection E as <-. apply (writeEscCopy_loop_writes _ []).
Qed.

Lemma copy_cell_writes v s : buf_ok v -> copy_cell v = Ok s ->
  writes (if nullish v then asc (js "\N") else copyTextCellInto v) (utf8 s).
Proof.
  unfold copy_cell. intros Hv. destruct (nullish v) eqn:En.
  - intros [= <-]. apply (asc_writes copy_null).
  - intros (x & E & [= <-])%bind_res_Ok_inv. by apply copyTextCellInto_writes.
Qed.

Definition row_ok (names : list jstr) (row : value) : Prop := forall c, buf_ok (cell row names c).

Lemma copy_cells_writes names row cs cells : row_ok names row -> Forall (fun c => c <> 0%nat) cs ->
  mapM (fun c => copy_cell (cell row names c)) cs = Ok cells ->
  writes (forM cs (fun c => _ ← (if (c =? 0)%nat then mret tt else byte 9);
    let v := cell row names c in if nullish v then asc (js "\N") else copyTextCellInto v))
    (concat ((fun s => 9 :: utf8 s) <$> cells)).
Proof.
  intros Hr Hcs E. apply mapM_Ok_inv in E. induction E as [|c s cs cells Hs E IH]; [apply writes_ret|].
  apply Forall_cons in Hcs as [Hc Hcs]. cbn [forM fmap list_fmap concat]. destruct (Nat.eqb_spec c 0); [done|].
  apply writes_bind; [|by apply IH]. change (9 :: ?x) with ([9] ++ x). apply writes_bind; [by apply byte_writes_ok|].
  by apply copy_cell_writes.
Qed.

Lemma utf8_join d p ps : 0 <= d < 128 -> utf8 (join [d] (p :: ps)) = utf8 p ++ concat ((fun p => d :: utf8 p) <$> ps).
Proof.
  intros Hd. revert p. induction ps as [|q ps IHp]; intros p; [by rewrite app_nil_r|].
  change (join [d] (p :: q :: ps)) with (p ++ d :: join [d] (q :: ps)). by rewrite utf8_break_ascii, IHp by lia.
Qed.

Lemma copy_text_row_writes names row s : row_ok names row -> copy_line names row = Ok s ->
  writes (copy_text_row names row) (utf8 s).
Proof.
  intros Hr (cells & E & [= <-])%bind_res_Ok_inv. rewrite utf8_break_ascii by lia. change (10 :: utf8 []) with [10].
  apply writes_bind; [|by apply byte_writes_ok]. destruct (length names) as [|n]; [injection E as <-; apply writes_ret|].
  cbn [seq] in *. cbn [mapM] in E. apply bind_res_Ok_inv in E as (s & Es & E). apply bind_res_Ok_inv in E as (ss & Ess & [= <-]).
  rewrite utf8_join by lia. cbn [forM]. apply writes_bind.
  - apply (writes_bind (mret tt) _ [] _); [apply writes_ret|]. by apply copy_cell_writes.
  - apply copy_cells_writes; try done. apply Forall_forall. intros c Hc%elem_of_seq. lia.
Qed.

Lemma copy_text_rows_writes names rows n s : Forall (row_ok names) rows -> copy_stream names rows = Ok s ->
  gwrites (copy_text_rows names rows n) (utf8 s).
Proof.
  intros Hr E. unfold copy_stream in E. destruct (mapM _ rows) as [ls| |] eqn:El; [|done..]. injection E as <-.
  apply mapM_Ok_inv in El. induction El as [|row l rows ls Hl El IH].
  - intros g Hg. exists g. rewrite app_nil_r. done.
  - apply Forall_cons in Hr as [Hrow Hr]. cbn [copy_text_rows concat].
    assert (utf8 (l ++ concat ls) = utf8 l ++ [] ++ utf8 (concat ls)) as ->.
    { apply bind_res_Ok_inv in Hl as (cells & _ & [= <-]). rewrite <- app_assoc. cbn [app].
      rewrite !utf8_break_ascii by lia. by rewrite <- app_assoc. }
    apply gwrites_bind; [by apply gwrites_wr, copy_text_row_writes|].
    apply gwrites_bind; [apply gwrites_flush|by apply IH].
Qed.

Lemma copyRowsText_spec names rows n s : 0 <= n -> Forall (row_ok names) rows -> copy_stream names rows = Ok s ->
  exists chunks, copyRowsText names rows n = (chunks, Ok tt) /\ concat chunks = utf8 s.
Proof.
  intros Hn Hr E. unfold copyRowsText.
  assert (wf (Writer.new (Z.to_nat (n + 1024)))) as Hw by (split; simpl; rewrite ?length_allocUnsafe; lia).
  destruct (copy_text_rows_writes names rows n s Hr E (Writer.new (Z.to_nat (n + 1024)), []) Hw) as ([w cs] & E1 & Hw1 & S1).
  rewrite (bind_Ok _ _ _ _ _ E1). unfold flush_rest. simpl. unfold sent in S1. simpl in S1.
  destruct (Nat.ltb_spec 0 (off w)).
  - exists (cs ++ [contents w]). split; [done|]. by rewrite concat_app, <- S1, concat_cons, concat_nil, app_nil_r.
  - exists cs. split; [done|]. rewrite <- S1. assert (contents w = []) as -> by (unfold contents; by replace (off w) with O by lia).
    by rewrite app_nil_r.
Qed.
End Gen.

(** C27: Whatever the chunk size, the chunks [copyRowsText] yields are one COPY text
    stream, and PostgreSQL's reading of that stream (lines, tab-separated columns,
    \N, backslash escapes) gives back NULL for each nullish cell and the exact text of
    every other one, tabs, line feeds and backslashes included. *)
Theorem copyRowsText_reads_back `{Alloc} names rows n s : 0 <= n -> names <> [] ->
  Forall (row_ok names) rows -> copy_stream names rows = Ok s ->
  (exists chunks, copyRowsText names rows n = (chunks, Ok tt) /\ concat chunks = utf8 s) /\
  mapM (fun row => mapM (fun c => cell_read (cell row names c)) (seq 0 (length names))) rows = Ok (read_copy s).
Proof. intros Hn Hne Hr E. split; [by apply copyRowsText_spec|by apply copy_stream_read]. Qed.

Definition demo_rows : list value :=
  [VArr [VNum (Fin false 1 0); VStr [97; 9; 92; 10; 98]]; VObj [(js "b", VNull); (js "a", VBuf [255])]].
Definition demo_names : list jstr := [js "a"; js "b"].

Lemma copyRowsText_reads_back_witness : exists chunks,
  @copyRowsText zero_alloc demo_names demo_rows 4 = (chunks, Ok tt)
  /\ concat chunks = [49; 9; 97; 92; 116; 92; 92; 92; 110; 98; 10] ++ [92; 92; 120; 102; 102; 9; 92; 78; 10].
Proof.
  destruct (@copyRowsText_reads_back zero_alloc demo_names demo_rows 4
    (match copy_stream demo_names demo_rows with Ok s => s | _ => [] end)) as [(chunks & E & C) _].
  - lia.
  - done.
  - apply List.Forall_cons; [|apply List.Forall_cons; [|apply List.Forall_nil]]; intros [|[|[|c]]]; vm_compute; try exact I;
      repeat constructor; discriminate.
  - vm_compute. reflexivity.
  - exists chunks. split; [exact E|]. rewrite C. vm_compute. reflexivity.
Defined.
