(* ===== verification/ArrayText.v ===== *)
(** * Array literals read back (src/decode.ts, parseArrayLiteral)

    The parser of PostgreSQL's '{…}' texts, on the text left to read. [arr] is the
    inner recursive function; [fuel] bounds its loop and recursion, and a text of
    [n] characters never needs more than [n] steps ([parse_total]). *)

From S2P Require Import Prelude Utf8 Buf Num Dates Value Protocol Framing Messages Encode EncodeProofs.

Definition Leaf : Type := jstr -> res value.

(** A quoted element, after its opening quote: the text and what follows it. A
    backslash stands for the next character; past the end it reads 'undefined'. *)
Fixpoint quoted (s : jstr) : jstr * jstr :=
  match s with
  | [] => ([], [])
  | c :: t =>
    if c =? 92 then
      match t with
      | d :: t' => let '(x, r) := quoted t' in (d :: x, r)
      | [] => (js "undefined", [])
      end
    else if c =? 34 then ([], t)
    else let '(x, r) := quoted t in (c :: x, r)
  end.

(** An unquoted element: up to the delimiter or a closing brace. *)
Fixpoint bare (delim : Z) (s : jstr) : jstr * jstr :=
  match s with
  | [] => ([], [])
  | c :: t => if (c =? delim) || (c =? 125) then ([], s) else let '(x, r) := bare delim t in (c :: x, r)
  end.

Fixpoint arr (fuel : nat) (leaf : Leaf) (delim : Z) (s : jstr) : res (list value * jstr) :=
  match fuel with
  | O => NoFuel
  | S f =>
    match s with
    | [] => Ok ([], [])
    | c :: t =>
      if c =? 125 then Ok ([], t)
      else if c =? delim then arr f leaf delim t
      else if c =? 123 then
        '(x, r) ← arr f leaf delim t; '(xs, r') ← arr f leaf delim r; Ok (VArr x :: xs, r')
      else if c =? 34 then
        let '(x, r) := quoted t in
        v ← leaf x; '(xs, r') ← arr f leaf delim r; Ok (v :: xs, r')
      else
        let '(x, r) := bare delim s in
        v ← (if bool_decide (x = js "NULL") then Ok VNull else leaf x);
        '(xs, r') ← arr f leaf delim r; Ok (v :: xs, r')
    end
  end.

(** [lb:ub]= before the braces is skipped. *)
Definition skip_dims (text : jstr) : jstr :=
  match text with
  | c :: _ => if c =? 91 then let eq := indexOf text 61 0 in if 0 <=? eq then drop (Z.to_nat (eq + 1)) text else text else text
  | [] => text
  end.
Definition parseArrayLiteral (leaf : Leaf) (delim : Z) (text : jstr) : res (list value) :=
  '(l, _) ← arr (S (length text)) leaf delim (tail (skip_dims text)); Ok l.

(** ** Totality *)

Lemma quoted_length s : (length (quoted s).2 <= length s)%nat.
Proof.
  induction s as [|c t IH IH2] using jstr_pair_ind; [done|]. cbn [quoted]. destruct (c =? 92).
  - destruct t as [|d t]; [simpl; lia|]. specialize (IH2 d t eq_refl). destruct (quoted t). simpl in *. lia.
  - destruct (c =? 34); [simpl; lia|]. destruct (quoted t). simpl in *. lia.
Qed.
Lemma bare_length delim s : (length (bare delim s).2 <= length s)%nat.
Proof. induction s as [|c t IH]; [done|]. cbn [bare]. case_match; [done|]. destruct (bare delim t). simpl in *. lia. Qed.
Lemma bare_progress delim c t : c <> delim -> c <> 125 -> (length (bare delim (c :: t)).2 <= length t)%nat.
Proof.
  intros H1 H2. cbn [bare]. destruct (Z.eqb_spec c delim), (Z.eqb_spec c 125); try done. simpl.
  pose proof (bare_length delim t). by destruct (bare delim t).
Qed.

Lemma arr_total leaf delim : (forall x, leaf x <> NoFuel) -> forall fuel s, (length s < fuel)%nat ->
  match arr fuel leaf delim s with Ok (_, r) => (length r <= length s)%nat | Throw _ => True | NoFuel => False end.
Proof.
  intros Hleaf. induction fuel as [|f IH]; intros s Hs; [lia|]. cbn [arr]. destruct s as [|c t]; [done|].
  simpl in Hs. destruct (Z.eqb_spec c 125) as [|Hc]; [simpl; lia|]. destruct (Z.eqb_spec c delim) as [|Hd].
  { specialize (IH t ltac:(lia)). destruct (arr f leaf delim t) as [[x r]| |]; simpl; try done. lia. }
  destruct (c =? 123).
  { pose proof (IH t ltac:(lia)) as H1. destruct (arr f leaf delim t) as [[x r]| |]; try done. cbn [mbind res_bind].
    pose proof (IH r ltac:(lia)) as H2. destruct (arr f leaf delim r) as [[xs r']| |]; try done. simpl. lia. }
  assert (forall (lx : res value) r, lx <> NoFuel -> (length r <= length t)%nat ->
    match (v ← lx; '(xs, r') ← arr f leaf delim r; Ok (v :: xs, r')) with
    | Ok (_, r') => (length r' <= S (length t))%nat | Throw _ => True | NoFuel => False end) as Hl.
  { intros lx r Hx Hr. destruct lx; try done. cbn [mbind res_bind].
    pose proof (IH r ltac:(lia)) as H2. destruct (arr f leaf delim r) as [[xs r']| |]; try done. simpl. lia. }
  destruct (c =? 34).
  - pose proof (quoted_length t). destruct (quoted t) as [x r]. by apply Hl.
  - pose proof (bare_progress delim c t Hd Hc). destruct (bare delim (c :: t)) as [x r]. apply Hl; [|done].
    case_bool_decide; [done|apply Hleaf].
Qed.

(** More fuel does not change a result. *)
Lemma arr_mono leaf delim f s r : arr f leaf delim s = r -> r <> NoFuel -> forall g, (f <= g)%nat -> arr g leaf delim s = r.
Proof.
  revert s r. induction f as [|f IH]; intros s r E Hr g Hg; [by subst r|]. destruct g as [|g]; [lia|].
  cbn [arr] in *. destruct s as [|c t]; [done|]. destruct (c =? 125); [done|].
  destruct (c =? delim). { apply IH; [done|done|lia]. }
  assert (forall A t (k : list value * jstr -> res A) r, (x ← arr f leaf delim t; k x) = r -> r <> NoFuel ->
    (x ← arr g leaf delim t; k x) = r) as Hb.
  { intros A t' k r' E' Hr'. destruct (arr f leaf delim t') as [x|e|] eqn:Ef; simpl in E'.
    - rewrite (IH _ _ Ef ltac:(done) g) by lia. done.
    - rewrite (IH _ _ Ef ltac:(done) g) by lia. done.
    - by subst r'. }
  destruct (c =? 123).
  { destruct (arr f leaf delim t) as [[x r1]|e|] eqn:Ef; cbn [mbind res_bind] in E; [..|by subst r].
    - rewrite (IH _ _ Ef ltac:(done) g) by lia. cbn [mbind res_bind]. by apply Hb.
    - rewrite (IH _ _ Ef ltac:(done) g) by lia. done. }
  destruct (c =? 34).
  - destruct (quoted t) as [x r1]. destruct (leaf x); cbn [mbind res_bind] in *; try done. by apply Hb.
  - destruct (bare delim (c :: t)) as [x r1]. destruct (if bool_decide _ then _ else _); cbn [mbind res_bind] in *; try done. by apply Hb.
Qed.

(** ** The inverse of arrayLiteral *)

(** What an element of an array literal decodes to: nested arrays keep their shape,
    nullish elements are NULL, and every other element goes through the leaf with
    the text [arrayLiteral] gave it. *)
Fixpoint elem_value (leaf : Leaf) (v : value) : res value :=
  match v with
  | VUndef | VNull => Ok VNull
  | VArr l =>
    xs ← (fix elems (l : list value) : res (list value) :=
      match l with [] => Ok [] | x :: t => y ← elem_value leaf x; ys ← elems t; Ok (y :: ys) end) l;
    Ok (VArr xs)
  | VNum x => leaf (num_str x)
  | VBig z => leaf (show_Z z)
  | VBool b => leaf (if b then js "t" else js "f")
  | _ => s ← elem_str v; leaf s
  end.

Lemma quoted_esc s t : quoted (esc_quoted s ++ 34 :: t) = (s, t).
Proof.
  unfold esc_quoted. induction s as [|c s IH]; [done|]. cbn [fmap list_fmap concat]. unfold esc_char at 1.
  destruct (Z.eqb_spec c 92) as [->|H1]; simpl; [by rewrite IH|].
  destruct (Z.eqb_spec c 34) as [->|H2]; simpl; [by rewrite IH|].
  destruct (Z.eqb_spec c 92); [done|]. destruct (Z.eqb_spec c 34); [done|]. by rewrite IH.
Qed.

(** Where an element ends: at a delimiter, a closing brace or the end. *)
Definition stops (delim : Z) (s : jstr) : Prop := match s with [] => True | c :: _ => c = delim \/ c = 125 end.
Lemma bare_plain s t : Forall plain s -> stops 44 t -> bare 44 (s ++ t) = (s, t).
Proof.
  intros Hs Ht. induction Hs as [|c s Hc _ IH].
  - destruct t as [|c t]; [done|]. cbn [app bare]. destruct Ht as [-> | ->]; done.
  - cbn [app bare]. unfold plain in Hc. destruct (Z.eqb_spec c 44); [lia|]. destruct (Z.eqb_spec c 125); [lia|]. simpl. by rewrite IH.
Qed.

Lemma plain_elem f leaf s t : Forall plain s -> s <> [] -> s <> js "NULL" -> stops 44 t ->
  arr (S f) leaf 44 (s ++ t) = (v ← leaf s; '(xs, r') ← arr f leaf 44 t; Ok (v :: xs, r')).
Proof.
  intros Hs Hne Hn Ht. pose proof (bare_plain s t Hs Ht) as Hb. destruct s as [|c s]; [done|]. inversion Hs as [|? ? Hc _]; subst.
  unfold plain in Hc. cbn [app arr] in *. destruct (Z.eqb_spec c 125); [lia|]. destruct (Z.eqb_spec c 44); [lia|].
  destruct (Z.eqb_spec c 123); [lia|]. destruct (Z.eqb_spec c 34); [lia|]. rewrite Hb. by rewrite bool_decide_false.
Qed.
Lemma null_elem f leaf t : stops 44 t ->
  arr (S f) leaf 44 (js "NULL" ++ t) = ('(xs, r') ← arr f leaf 44 t; Ok (VNull :: xs, r')).
Proof.
  intros Ht. assert (bare 44 (js "NULL" ++ t) = (js "NULL", t)) as Hb.
  { apply bare_plain; [|done]. repeat (apply List.Forall_cons; [vm_compute; repeat split; discriminate|]). apply List.Forall_nil. }
  change (js "NULL" ++ t) with (78 :: js "ULL" ++ t) in *. cbn [arr]. change (78 =? 125) with false. change (78 =? 44) with false.
  change (78 =? 123) with false. change (78 =? 34) with false. cbv iota. rewrite Hb. by rewrite bool_decide_true.
Qed.
Lemma quoted_elem f leaf s t :
  arr (S f) leaf 44 (34 :: esc_quoted s ++ 34 :: t) = (v ← leaf s; '(xs, r') ← arr f leaf 44 t; Ok (v :: xs, r')).
Proof. cbn [arr]. change (34 =? 125) with false. change (34 =? 44) with false. change (34 =? 123) with false. simpl. by rewrite quoted_esc. Qed.

(** ** Bare elements *)

Definition starts_digit (s : jstr) : Prop := match s with c :: _ => 48 <= c <= 57 | [] => False end.
Lemma digits_start n : 0 <= n -> starts_digit (digits n).
Proof. intros Hn. destruct (digits_spec n Hn) as (_ & D & NE & _). destruct (digits n); [done|]. by inversion D. Qed.

Lemma layout_start ds k n : starts_digit ds -> starts_digit (layout ds k n).
Proof.
  intros Hd. destruct ds as [|d ds]; [done|]. unfold layout. case_match; [done|].
  destruct ((0 <? n) && (n <=? 21)) eqn:E.
  { b2p_all. replace (Z.to_nat n) with (S (Z.to_nat (n - 1))) by lia. done. }
  case_match; [simpl; lia|]. by destruct ds.
Qed.

(** A number's text starts with a digit, a sign, or is NaN or Infinity. *)
Lemma num_str_head x : match num_str x with 45 :: _ => True | [] => False | c :: _ => 48 <= c <= 57 \/ num_str x = js "NaN" \/ num_str x = js "Infinity" end.
Proof.
  assert (forall s, starts_digit s -> match s with 45 :: _ => True | [] => False | c :: _ => 48 <= c <= 57 \/ s = js "NaN" \/ s = js "Infinity" end) as Hs.
  { intros [|c s] Hc; [done|]. simpl in Hc. destruct c as [|c|c]; try lia. do 6 (destruct c as [c|c|]; try tauto; try (left; lia)). }
  unfold num_str. destruct (safe_int x) as [z|].
  - unfold show_Z. destruct (z <? 0) eqn:Ez; [done|]. apply Hs, digits_start. lia.
  - destruct x as [|neg|neg m e]; [by right; left|by destruct neg; [|right; right]|].
    destruct (if 0 <=? e then _ else _) as [p q]. destruct (shortest _ _ _ _ _ _) as [d k].
    destruct neg; [done|]. apply Hs, layout_start, digits_start. lia.
Qed.

Lemma num_str_bare x : num_str x <> [] /\ num_str x <> js "NULL".
Proof.
  pose proof (num_str_head x) as H. split; [by intros E; rewrite E in H|]. intros E. rewrite E in H.
  change (js "NULL") with [78; 85; 76; 76] in *. destruct H as [H|[H|H]]; [lia|done|done].
Qed.
Lemma show_Z_bare z : show_Z z <> [] /\ show_Z z <> js "NULL".
Proof.
  unfold show_Z. destruct (Z.ltb_spec z 0); [done|]. pose proof (digits_start z ltac:(lia)) as Hd.
  destruct (digits z) as [|c l]; [done|]. simpl in Hd. split; [done|]. change (js "NULL") with [78; 85; 76; 76]. intros [= -> _]. lia.
Qed.

(** ** Round trip *)

Section RoundTrip.
Context (leaf : Leaf).

(** The text [s] of an element, in front of [t], yields [y] first. *)
Definition yields (s : jstr) (y : value) : Prop :=
  forall f t xs r, stops 44 t -> arr f leaf 44 t = Ok (xs, r) -> exists g, arr g leaf 44 (s ++ t) = Ok (y :: xs, r).

Lemma yields_bare s y : Forall plain s -> s <> [] -> s <> js "NULL" -> leaf s = Ok y -> yields s y.
Proof.
  intros Hp Hne Hn Hy f t xs r Ht E. exists (S f). rewrite plain_elem by done. rewrite Hy. cbn [mbind res_bind]. by rewrite E.
Qed.
Lemma yields_quoted s y : leaf s = Ok y -> yields (34 :: esc_quoted s ++ [34]) y.
Proof.
  intros Hy f t xs r Ht E. exists (S f). cbn [app]. rewrite <- app_assoc. cbn [app]. rewrite quoted_elem, Hy.
  cbn [mbind res_bind]. by rewrite E.
Qed.

Lemma list_yields l : Forall (fun v => forall s y, arrayLiteral_elem v = Ok s -> elem_value leaf v = Ok y -> yields s y) l ->
  forall parts ys t, mapM arrayLiteral_elem l = Ok parts -> mapM (elem_value leaf) l = Ok ys ->
  exists g, arr g leaf 44 (join [44] parts ++ 125 :: t) = Ok (ys, t).
Proof.
  induction 1 as [|v l Hv _ IH]; intros parts ys t Ep Ey.
  - injection Ep as <-. injection Ey as <-. by exists 1%nat.
  - cbn [mapM] in Ep, Ey. apply bind_res_Ok_inv in Ep as (p & Ep & (ps & Eps & [= <-])%bind_res_Ok_inv).
    apply bind_res_Ok_inv in Ey as (y & Ey & (ys' & Eys & [= <-])%bind_res_Ok_inv).
    destruct (IH ps ys' t Eps Eys) as (g & Eg). specialize (Hv p y Ep Ey).
    destruct l as [|v' l].
    + injection Eps as <-. injection Eys as <-. apply (Hv g); [by right|exact Eg].
    + destruct ps as [|p' ps]; [by apply mapM_Ok_inv in Eps; inversion Eps|].
      change (join [44] (p :: p' :: ps)) with (p ++ 44 :: join [44] (p' :: ps)). rewrite <- app_assoc. cbn [app].
      apply (Hv (S g)); [by left|]. exact Eg.
Qed.

Lemma elems_mapM l : (fix elems (l : list value) : res (list jstr) :=
    match l with [] => Ok [] | x :: t => p ← arrayLiteral_elem x; ps ← elems t; Ok (p :: ps) end) l = mapM arrayLiteral_elem l.
Proof. induction l as [|x l IH]; [done|]. rewrite IH. done. Qed.
Lemma values_mapM l : (fix elems (l : list value) : res (list value) :=
    match l with [] => Ok [] | x :: t => y ← elem_value leaf x; ys ← elems t; Ok (y :: ys) end) l = mapM (elem_value leaf) l.
Proof. induction l as [|x l IH]; [done|]. rewrite IH. done. Qed.

Lemma elem_yields v : forall s y, arrayLiteral_elem v = Ok s -> elem_value leaf v = Ok y -> yields s y.
Proof.
  assert (forall v s y, (x ← elem_str v; Ok (34 :: esc_quoted x ++ [34])) = Ok s -> (x ← elem_str v; leaf x) = Ok y -> yields s y) as Hq.
  { intros v' s y (x & Ex & [= <-])%bind_res_Ok_inv Ey. rewrite Ex in Ey. by apply yields_quoted. }
  assert (forall y, Ok VNull = Ok y -> yields (js "NULL") y) as Hnull.
  { intros y [= <-] f t xs r Ht E. exists (S f). rewrite null_elem by done. by rewrite E. }
  induction v as [v Hv|l IH|fs _] using value_rec_all; intros s y.
  - destruct v; try done; try (exact (Hq _ _ _)); cbn [arrayLiteral_elem elem_value]; intros [= <-] Ey.
    + by apply Hnull.
    + by apply Hnull.
    + destruct b; (apply yields_bare; [repeat (apply List.Forall_cons; [vm_compute; repeat split; discriminate|]); apply List.Forall_nil|done..]).
    + destruct (num_str_bare n). apply yields_bare; [apply num_str_plain|done..].
    + destruct (show_Z_bare z). apply yields_bare; [apply show_Z_plain|done..].
  - cbn [arrayLiteral_elem elem_value]. rewrite elems_mapM, values_mapM.
    intros (parts & Ep & [= <-])%bind_res_Ok_inv (ys & Ey & [= <-])%bind_res_Ok_inv f t xs r Ht E.
    destruct (list_yields l IH parts ys t Ep Ey) as (g & Eg). exists (S (Nat.max f g)).
    change (js "{" ++ join (js ",") parts ++ js "}") with (123 :: join [44] parts ++ [125]). cbn [app]. rewrite <- app_assoc.
    cbn [arr]. change (123 =? 125) with false. change (123 =? 44) with false. change (123 =? 123) with true. cbv iota. cbn [app].
    rewrite (arr_mono _ _ _ _ _ Eg) by (done || lia). cbn [mbind res_bind].
    rewrite (arr_mono _ _ _ _ _ E) by (done || lia). done.
  - exact (Hq _ _ _).
Qed.
End RoundTrip.

Lemma parse_body leaf (body : jstr) n g xs r : (forall x, leaf x <> NoFuel) -> (length body <= n)%nat ->
  arr g leaf 44 body = Ok (xs, r) -> arr (S n) leaf 44 body = Ok (xs, r).
Proof.
  intros Hl Hn E. pose proof (arr_total leaf 44 Hl (S n) body ltac:(lia)) as Ht.
  destruct (arr (S n) leaf 44 body) as [p|e|] eqn:Ef; [| |done].
  - rewrite <- (arr_mono _ _ _ _ _ E ltac:(done) (Nat.max g (S n))) by lia.
    symmetry. apply (arr_mono _ _ _ _ _ Ef); [done|lia].
  - pose proof (arr_mono _ _ _ _ _ E ltac:(done) (Nat.max g (S n)) ltac:(lia)) as E1.
    rewrite (arr_mono _ _ _ _ _ Ef ltac:(done) (Nat.max g (S n))) in E1 by lia. done.
Qed.

Lemma indexOf_first c s t : Forall (fun x => x <> c) s -> indexOf (s ++ c :: t) c 0 = blen s.
Proof.
  intros Hs. unfold indexOf. change (Z.to_nat 0) with O. rewrite drop_0. rewrite find_from_app; [unfold blen; lia| |by rewrite Z.eqb_refl].
  eapply Forall_impl; [exact Hs|]. simpl. intros x Hx. by apply Z.eqb_neq.
Qed.

(** C29: [parseArrayLiteral] inverts [arrayLiteral]: it reads back the literal of any
    nested array, NULLs, quotes, backslashes and braces inside elements included, each
    element decoded from exactly the text it was given, and a dimension prefix
    [lb:ub]= changes nothing. *)
Theorem parseArrayLiteral_arrayLiteral leaf l s ys dims :
  (forall x, leaf x <> NoFuel) -> arrayLiteral l = Ok s -> mapM (elem_value leaf) l = Ok ys ->
  Forall (fun c => c <> 61) dims ->
  parseArrayLiteral leaf 44 s = Ok ys /\ parseArrayLiteral leaf 44 (91 :: dims ++ 61 :: s) = Ok ys.
Proof.
  intros Hl E Ey Hd. unfold arrayLiteral in E. cbn [arrayLiteral_elem] in E. rewrite elems_mapM in E.
  apply bind_res_Ok_inv in E as (parts & Ep & E). assert (Ok (123 :: join [44] parts ++ [125]) = Ok s) as E2 by exact E.
  clear E. injection E2 as <-.
  assert (Forall (fun v => forall s y, arrayLiteral_elem v = Ok s -> elem_value leaf v = Ok y -> yields leaf s y) l) as Ha
    by (apply Forall_forall; intros; by eapply elem_yields).
  destruct (list_yields leaf l Ha parts ys [] Ep Ey) as (g & Eg). unfold parseArrayLiteral.
  split.
  - cbn [skip_dims tail]. change (123 =? 91) with false. cbv iota. cbn [tail].
    erewrite parse_body; [reflexivity|exact Hl|simpl; lia|exact Eg].
  - unfold skip_dims. change (91 =? 91) with true. cbv iota zeta.
    change (91 :: dims ++ 61 :: ?x) with ((91 :: dims) ++ 61 :: x).
    rewrite indexOf_first by (constructor; [lia|done]). pose proof (blen_nonneg (91 :: dims)). zif.
    replace (Z.to_nat (blen (91 :: dims) + 1)) with (length (91%Z :: dims) + 1)%nat by (unfold blen; lia).
    rewrite <- drop_drop, drop_app_length. cbn [drop tail].
    erewrite parse_body; [reflexivity|exact Hl|len|exact Eg].
Qed.

Definition text_leaf : Leaf := fun s => Ok (VStr s).
Definition demo_nested : list value := [VArr [VNum (Fin false 1 0); VNull]; VArr [VStr [34; 44; 92; 125]; VBool true]].

Lemma parseArrayLiteral_arrayLiteral_witness :
  parseArrayLiteral text_leaf 44 (js "[0:1]=" ++ match arrayLiteral demo_nested with Ok s => s | _ => [] end)
  = Ok [VArr [VStr (js "1"); VNull]; VArr [VStr [34; 44; 92; 125]; VStr (js "t")]].
Proof.
  apply (parseArrayLiteral_arrayLiteral text_leaf demo_nested (match arrayLiteral demo_nested with Ok s => s | _ => [] end)
    [VArr [VStr (js "1"); VNull]; VArr [VStr [34; 44; 92; 125]; VStr (js "t")]] (js "0:1]")).
  - done.
  - vm_compute. reflexivity.
  - vm_compute. reflexivity.
  - repeat (apply List.Forall_cons; [vm_compute; discriminate|]). apply List.Forall_nil.
Defined.

(** Parsing terminates on every text, well-formed or not: one step per character
    is always enough, for any leaf that finishes. *)
Theorem parseArrayLiteral_total leaf delim text :
  (forall x, leaf x <> NoFuel) -> parseArrayLiteral leaf delim text <> NoFuel.
Proof.
  intros Hl. unfold parseArrayLiteral.
  assert (length (tail (skip_dims text)) < S (length text))%nat as Hlen.
  { assert (length (skip_dims text) <= length text)%nat.
    { unfold skip_dims. destruct text as [|c t]; [done|]. case_match; [|done]. cbv zeta. case_match; [rewrite length_drop; lia|done]. }
    destruct (skip_dims text); simpl in *; lia. }
  pose proof (arr_total leaf delim Hl _ _ Hlen) as H. by destruct (arr _ leaf delim _) as [[x r]|e|].
Qed.

Lemma parseArrayLiteral_total_witness : parseArrayLiteral text_leaf 44 (js "{{a,}") <> NoFuel.
Proof. apply (parseArrayLiteral_total text_leaf 44 (js "{{a,}")). done. Defined.
