(* ===== verification/NumText.v ===== *)
(** * Numbers from text (src/decode.ts, txtF64 and txtInt)

    [Number] is the language's correctly rounded reading of a decimal text. The
    driver's digit loops avoid the string: [txtF64] (Clinger's fast path) and
    [txtInt] return the same double. *)

From S2P Require Import Prelude Utf8 Buf Num.

(** ** Number(text) *)

Definition is_digit (c : Z) : bool := (48 <=? c) && (c <=? 57).
Fixpoint span_digits (s : jstr) : jstr * jstr :=
  match s with
  | c :: t => if is_digit c then let '(d, r) := span_digits t in (c :: d, r) else ([], s)
  | [] => ([], [])
  end.
Definition sign_of (s : jstr) : bool * jstr :=
  match s with
  | c :: t => if c =? 45 then (true, t) else if c =? 43 then (false, t) else (false, s)
  | [] => (false, [])
  end.

(** m * 10^k, rounded once. *)
Definition scaled (neg : bool) (m k : Z) : num := if 0 <=? k then rnd neg (m * 10 ^ k) 1 else rnd neg m (10 ^ (- k)).

(** A decimal literal, Infinity or the empty text (0); anything else is NaN (whitespace and prefixed
    literals do not reach it: PostgreSQL writes neither). *)
Definition Number (s : jstr) : num :=
  let '(neg, s1) := sign_of s in
  if (length s =? 0)%nat then Fin false 0 (-1074)
  else if bool_decide (s1 = js "Infinity") then Inf neg
  else
    let '(ip, r1) := span_digits s1 in
    let '(fp, r2) := match r1 with c :: t => if c =? 46 then span_digits t else ([], r1) | [] => ([], []) end in
    let '(ex, r3) := match r2 with
      | c :: t => if (c =? 101) || (c =? 69) then
                    let '(eneg, t1) := sign_of t in
                    let '(d, r) := span_digits t1 in
                    match d with [] => (0, r2) | _ => ((if eneg then -1 else 1) * digits_val d, r) end
                  else (0, r2)
      | [] => (0, [])
      end in
    match ip ++ fp, r3 with
    | _ :: _, [] => scaled neg (digits_val (ip ++ fp)) (ex - blen fp)
    | _, _ => NaN
    end.

Example Number_1 : Number (js "-12.50") = rnd true 125 10. Proof. vm_compute. reflexivity. Qed.
Example Number_2 : Number (js "1e23") = rnd false (10 ^ 23) 1. Proof. vm_compute. reflexivity. Qed.

(** ** The fast path to a double *)

Definition POW10 (k : Z) : Z := 10 ^ k.

Record sigst := mkSig { sig : Z; nd : Z; fd : Z; dot : bool; hard : bool }.

(** The significand loop over the bytes [p, e); what is left after its break. The
    significand never passes 15 digits ([sig_bound]), so the doubles are exact. *)
Fixpoint sig_loop (w : bytes) (st : sigst) : sigst * bytes :=
  match w with
  | [] => (st, [])
  | c :: t =>
    if c =? 46 then sig_loop t (mkSig (sig st) (nd st) (fd st) true (hard st))
    else if (c <? 48) || (57 <? c) then (st, w)
    else if (sig st =? 0) && (c =? 48) then
      sig_loop t (mkSig (sig st) (nd st) (if dot st then fd st + 1 else fd st) (dot st) (hard st))
    else if nd st <? 15 then
      sig_loop t (mkSig (sig st * 10 + (c - 48)) (nd st + 1) (if dot st then fd st + 1 else fd st) (dot st) (hard st))
    else sig_loop t (mkSig (sig st) (nd st) (fd st) (dot st) true)
  end.
Fixpoint exp_loop (w : bytes) (x : Z) : Z :=
  match w with
  | c :: t => if (c <? 48) || (57 <? c) then x else exp_loop t (x * 10 + (c - 48))
  | [] => x
  end.

Definition is_at (b : bytes) (p : Z) (x y : Z) : bool := bool_decide (at_ b p = Some x) || bool_decide (at_ b p = Some y).
Definition lat1 (b : bytes) (o l : Z) : jstr := subarray b o (o + l).

Definition txtF64 (b : bytes) (o l : Z) : num :=
  let e := o + l in
  let neg := bool_decide (at_ b o = Some 45) in
  let p := if is_at b o 45 43 then o + 1 else o in
  if is_at b p 78 110 then NaN
  else if is_at b p 73 105 then Inf neg
  else
    let '(st, rest) := sig_loop (subarray b p e) (mkSig 0 0 0 false false) in
    let p := e - blen rest in
    let '(es, exp) :=
      if is_at b p 101 69 then
        let p := p + 1 in
        let es := if bool_decide (at_ b p = Some 45) then -1 else 1 in
        let p := if is_at b p 45 43 then p + 1 else p in
        (es, exp_loop (subarray b p e) 0)
      else (1, 0) in
    let eff := es * exp - fd st in
    if hard st || (22 <? eff) || (eff <? -22) then Number (lat1 b o l)
    else
      let r := if 0 <=? eff then rnd false (sig st * POW10 eff) 1 else rnd false (sig st) (POW10 (- eff)) in
      if neg then nneg r else r.

(** ** The integer loop *)

(** Every step rounds to a double. *)
Fixpoint int_loop (w : bytes) (x : Z) : Z :=
  match w with [] => x | c :: t => int_loop t (fl (fl (x * 10) + (c - 48))) end.
Definition txtInt (b : bytes) (o l : Z) : num :=
  if 16 <? l then Number (lat1 b o l)
  else
    let s := bool_decide (at_ b o = Some 45) in
    let x := int_loop (subarray b (if s then o + 1 else o) (o + l)) 0 in
    if s then nneg (rnd false x 1) else rnd false x 1.

(** ** Facts *)

Lemma nneg_rnd p q : nneg (rnd false p q) = rnd true p q.
Proof. unfold rnd. destruct (p =? 0); [done|]. destruct (scale _ _ _). destruct (_ =? _); by case_match. Qed.

(** A decimal text in the shape PostgreSQL prints: digits, an optional fraction, an
    optional exponent with sign. *)
Definition all_digits (s : jstr) : Prop := Forall (fun c => 48 <= c <= 57) s.
Record decimal := mkDec { dneg : bool; ip : jstr; fp : option jstr; ex : option (option bool * jstr) }.
Definition dec_ok (d : decimal) : Prop :=
  all_digits (ip d) /\ ip d <> [] /\ (forall f, fp d = Some f -> all_digits f)
  /\ (forall s x, ex d = Some (s, x) -> all_digits x /\ x <> []).
Definition exp_sign (s : option bool) : jstr := match s with None => [] | Some true => [45] | Some false => [43] end.
Definition exp_text (x : option (option bool * jstr)) : jstr := match x with None => [] | Some (s, d) => 101 :: exp_sign s ++ d end.
Definition frac (d : decimal) : jstr := default [] (fp d).
Definition body_text (d : decimal) : jstr :=
  ip d ++ match fp d with None => [] | Some f => 46 :: f end.
Definition dec_text (d : decimal) : jstr := (if dneg d then [45] else []) ++ body_text d ++ exp_text (ex d).
Definition exp_val (d : decimal) : Z :=
  match ex d with None => 0 | Some (s, x) => (if bool_decide (s = Some true) then -1 else 1) * digits_val x end.
Definition dec_num (d : decimal) : num := scaled (dneg d) (digits_val (ip d ++ frac d)) (exp_val d - blen (frac d)).

Lemma span_digits_app s t : all_digits s -> match t with c :: _ => is_digit c = false | [] => True end ->
  span_digits (s ++ t) = (s, t).
Proof.
  intros Hs Ht. induction Hs as [|c s Hc _ IH].
  - destruct t as [|c t]; [done|]. simpl. by rewrite Ht.
  - cbn [app span_digits]. replace (is_digit c) with true by (symmetry; unfold is_digit; lia). by rewrite IH.
Qed.
Lemma digit_head s : all_digits s -> s <> [] -> exists c t, s = c :: t /\ 48 <= c <= 57.
Proof. intros Hs Hne. destruct s as [|c t]; [done|]. inversion Hs. eauto. Qed.

Lemma sign_of_digit c t : 48 <= c <= 57 -> sign_of (c :: t) = (false, c :: t).
Proof. intros. unfold sign_of. destruct (Z.eqb_spec c 45); [lia|]. by destruct (Z.eqb_spec c 43); [lia|]. Qed.

Lemma Number_dec d : dec_ok d -> Number (dec_text d) = dec_num d.
Proof.
  intros (Hi & Hne & Hf & He). destruct (digit_head _ Hi Hne) as (c & t & Eip & Hc).
  unfold Number, dec_text.
  assert (sign_of ((if dneg d then [45] else []) ++ body_text d ++ exp_text (ex d)) = (dneg d, body_text d ++ exp_text (ex d))) as ->.
  { destruct (dneg d); [done|]. unfold body_text. rewrite Eip. by apply sign_of_digit. }
  match goal with |- context [Nat.eqb (length ?x) O] => destruct (Nat.eqb_spec (length x) O) as [E0|_] end.
  { exfalso. revert E0. unfold body_text. rewrite Eip, !length_app. simpl. lia. }
  rewrite bool_decide_false.
  2:{ unfold body_text. rewrite Eip. cbn [app]. change (js "Infinity") with (73 :: js "nfinity"). intros [= E _]. lia. }
  unfold body_text. rewrite <- app_assoc.
  assert (forall x, match exp_text x with c :: _ => c = 101 | [] => True end) as Hx by (intros [[s x]|]; done).
  rewrite span_digits_app; [|done|].
  2:{ destruct (fp d) as [f|]; [done|]. specialize (Hx (ex d)). cbn [app]. destruct (exp_text (ex d)); [done|]. by subst z. }
  assert (match (match fp d with None => [] | Some f => 46 :: f end) ++ exp_text (ex d) with
          | c :: t => if c =? 46 then span_digits t else ([], c :: t) | [] => ([], []) end = (frac d, exp_text (ex d))) as Efp.
  { unfold frac. destruct (fp d) as [f|]; simpl.
    - apply span_digits_app; [by apply Hf|]. specialize (Hx (ex d)). destruct (exp_text (ex d)); [done|]. by subst z.
    - specialize (Hx (ex d)). destruct (exp_text (ex d)); [done|]. by subst z. }
  destruct ((match fp d with None => [] | Some f => 46 :: f end) ++ exp_text (ex d)) as [|c1 t1] eqn:Er1.
  - destruct (fp d) eqn:Efpd; [done|]. simpl in Er1. destruct (ex d) as [[s x]|] eqn:Eex; [done|].
    unfold dec_num, exp_val, frac. rewrite Eex, Efpd, Eip. done.
  - rewrite Efp. unfold dec_num, exp_val. rewrite Eip. cbn [app].
    destruct (ex d) as [[s x]|] eqn:Eex; [|done]. specialize (He s x eq_refl) as [Hxd Hxne].
    cbn [exp_text]. change (101 =? 101) with true. cbv iota. simpl orb. cbv iota.
    destruct (digit_head _ Hxd Hxne) as (cx & tx & Ex & Hcx).
    assert (sign_of (exp_sign s ++ x) = (bool_decide (s = Some true), x)) as ->.
    { destruct s as [[|]|]; simpl; [done|done|]. rewrite Ex. by apply sign_of_digit. }
    assert (span_digits x = (x, [])) as -> by (rewrite <- (app_nil_r x) at 1; by apply span_digits_app).
    rewrite Ex. done.
Qed.

Lemma sig_digits w t st : all_digits w -> exists st', sig_loop (w ++ t) st = sig_loop t st' /\ dot st' = dot st
  /\ (hard st' = false -> hard st = false /\ sig st' = foldl (fun a c => a * 10 + (c - 48)) (sig st) w
      /\ fd st' = fd st + (if dot st then blen w else 0)).
Proof.
  intros Hw. revert st. induction Hw as [|c w Hc _ IH]; intros st.
  { exists st. split; [done|]. split; [done|]. intros ->. rewrite blen_nil. split; [done|]. split; [done|]. destruct (dot st); lia. }
  assert (forall st1, dot st1 = dot st -> (hard st1 = false -> hard st = false /\ sig st1 = sig st * 10 + (c - 48) /\ fd st1 = fd st + (if dot st then 1 else 0)) ->
    exists st', sig_loop (w ++ t) st1 = sig_loop t st' /\ dot st' = dot st
    /\ (hard st' = false -> hard st = false /\ sig st' = foldl (fun a c => a * 10 + (c - 48)) (sig st) (c :: w)
      /\ fd st' = fd st + (if dot st then blen (c :: w) else 0))) as Hstep.
  { intros st1 Hd H1. destruct (IH st1) as (st' & E & Hd' & H'). exists st'. split; [done|]. split; [congruence|].
    intros Hh. destruct (H' Hh) as (Hh1 & Hs & Hf). destruct (H1 Hh1) as (Hh0 & Hs1 & Hf1). split; [done|].
    cbn [foldl]. rewrite Hs, Hs1, Hf, Hf1, Hd, blen_cons. split; [done|]. destruct (dot st); lia. }
  cbn [app sig_loop]. destruct (Z.eqb_spec c 46); [lia|]. destruct (Z.ltb_spec c 48); [lia|]. destruct (Z.ltb_spec 57 c); [lia|].
  cbn [orb]. destruct (Z.eqb_spec (sig st) 0) as [E0|E0]; destruct (Z.eqb_spec c 48) as [E48|E48]; cbn [andb];
    try destruct (nd st <? 15); apply Hstep; try done; cbn [hard sig fd dot]; intros Hh; try done;
    (split; [done|]); split; try lia; destruct (dot st); lia.
Qed.

Lemma sig_body d : dec_ok d -> exists st, sig_loop (body_text d ++ exp_text (ex d)) (mkSig 0 0 0 false false) = (st, exp_text (ex d))
  /\ (hard st = false -> sig st = digits_val (ip d ++ frac d) /\ fd st = blen (frac d)).
Proof.
  intros (Hi & _ & Hf & _).
  assert (forall st, sig_loop (exp_text (ex d)) st = (st, exp_text (ex d))) as Hstop by (intros st; by destruct (ex d) as [[s x]|]).
  destruct (sig_digits (ip d) ((match fp d with None => [] | Some f => 46 :: f end) ++ exp_text (ex d)) (mkSig 0 0 0 false false) Hi)
    as (st1 & E1 & D1 & H1). cbn [dot hard sig fd] in *.
  unfold body_text, frac in *. rewrite <- app_assoc. destruct (fp d) as [f|].
  - pose proof (sig_digits f (exp_text (ex d)) (mkSig (sig st1) (nd st1) (fd st1) true (hard st1)) (Hf f eq_refl)) as (st2 & E2 & _ & H2).
    exists st2. rewrite E1. cbn [app sig_loop]. change (46 =? 46) with true. cbv iota. rewrite E2, Hstop. split; [done|].
    intros Hh. destruct (H2 Hh) as (Hh1 & S2 & F2). cbn [hard sig fd dot] in *. destruct (H1 Hh1) as (_ & S1 & F1).
    cbn [default]. rewrite S2, S1, F2, F1. unfold digits_val. rewrite foldl_app. split; [done|]. simpl. lia.
  - exists st1. rewrite E1. cbn [app]. rewrite Hstop. split; [done|]. intros Hh. destruct (H1 Hh) as (_ & S1 & F1).
    rewrite S1, F1. cbn [default]. by rewrite app_nil_r.
Qed.

Lemma exp_digits x a : all_digits x -> exp_loop x a = foldl (fun a c => a * 10 + (c - 48)) a x.
Proof.
  intros Hx. revert a. induction Hx as [|c x Hc _ IH]; intros a; [done|]. cbn [exp_loop foldl].
  destruct (Z.ltb_spec c 48); [lia|]. destruct (Z.ltb_spec 57 c); [lia|]. apply IH.
Qed.

Lemma is_at_rest b p c r x y : rest_at b p (c :: r) -> is_at b p x y = (c =? x) || (c =? y).
Proof. intros H. apply rest_at_byte in H as [E _]. unfold is_at. rewrite E.
  assert (forall k, bool_decide (Some c = Some k) = (c =? k)) as Hk by (intros k; destruct (Z.eqb_spec c k); case_bool_decide; congruence).
  by rewrite !Hk. Qed.

Lemma rest_at_next b p r : rest_at b p r -> at_ b p = match r with c :: _ => Some c | [] => None end.
Proof.
  destruct r as [|c r]; intros H; [|by apply rest_at_byte in H as [? _]]. destruct H as (Ho & Hb & Hd).
  unfold at_. destruct (Z.ltb_spec p 0); [lia|]. rewrite <- (Nat.add_0_r (Z.to_nat p)), <- lookup_drop, Hd. done.
Qed.
Lemma is_at_none b p r x y : rest_at b p r -> match r with c :: _ => c <> x /\ c <> y | [] => True end -> is_at b p x y = false.
Proof.
  intros H Hr. unfold is_at. rewrite (rest_at_next _ _ _ H). destruct r as [|c r]; [done|]. destruct Hr.
  rewrite !bool_decide_false by congruence. done.
Qed.
Lemma is_at_some b p r x y : rest_at b p r -> match r with c :: _ => c = x \/ c = y | [] => False end -> is_at b p x y = true.
Proof.
  intros H Hr. destruct r as [|c r]; [done|]. rewrite (is_at_rest _ _ _ _ _ _ H). destruct Hr as [-> | ->]; rewrite Z.eqb_refl; [done|apply orb_true_r].
Qed.

(** The exponent part: its value, whatever the number it follows. *)
Definition exp_part (b : bytes) (p e : Z) : Z * Z :=
  if is_at b p 101 69 then
    let p := p + 1 in
    let es := if bool_decide (at_ b p = Some 45) then -1 else 1 in
    let p := if is_at b p 45 43 then p + 1 else p in
    (es, exp_loop (subarray b p e) 0)
  else (1, 0).
(** No exponent can start at what follows the cell: the next column's length or
    the end of the row. *)
Definition no_exp (r : bytes) : Prop := match r with c :: _ => c <> 101 /\ c <> 69 | [] => True end.

Lemma exp_part_spec b p d r : dec_ok d -> rest_at b p (exp_text (ex d) ++ r) -> no_exp r ->
  let '(es, exp) := exp_part b p (p + blen (exp_text (ex d))) in es * exp = exp_val d.
Proof.
  intros (_ & _ & _ & He) H Hr. unfold exp_part, exp_val. destruct (ex d) as [[s x]|].
  2:{ by rewrite (is_at_none _ _ _ _ _ H) by exact Hr. }
  destruct (He s x eq_refl) as [Hx Hne]. destruct (digit_head _ Hx Hne) as (c & t & Ex & Hc).
  rewrite (is_at_some _ _ _ _ _ H) by (by left). cbn [exp_text app] in H. rewrite <- app_assoc in H.
  pose proof (rest_at_app _ _ [101] _ H) as H1. change (blen [101]) with 1 in H1.
  cbn [exp_text]. rewrite blen_cons, blen_app, (rest_at_next _ _ _ H1).
  pose proof (rest_at_app _ _ _ _ H1) as H2. pose proof (rest_at_sub _ _ _ _ H2) as Hsub.
  destruct s as [[|]|]; cbn [exp_sign] in *; cbn [app] in H1 |- *.
  - rewrite bool_decide_true, (is_at_some _ _ _ _ _ H1), bool_decide_true by (done || by left). change (blen [45]) with 1 in *.
    replace (p + (1 + (1 + blen x))) with (p + 1 + 1 + blen x) by lia. rewrite Hsub, exp_digits by done. done.
  - rewrite bool_decide_false, (is_at_some _ _ _ _ _ H1), bool_decide_false by (done || by right). change (blen [43]) with 1 in *.
    replace (p + (1 + (1 + blen x))) with (p + 1 + 1 + blen x) by lia. rewrite Hsub, exp_digits by done. done.
  - rewrite blen_nil, Z.add_0_r in *. rewrite Ex in *. cbn [app] in *. rewrite !bool_decide_false by (first [discriminate | intros [= E]; lia]).
    rewrite (is_at_none _ _ _ _ _ H1) by (split; lia). replace (p + (1 + (0 + blen (c :: t)))) with (p + 1 + blen (c :: t)) by lia.
    rewrite Hsub, exp_digits by done. done.
Qed.

Lemma txtF64_spec b o d r : dec_ok d -> rest_at b o (dec_text d ++ r) -> no_exp r ->
  txtF64 b o (blen (dec_text d)) = Number (dec_text d).
Proof.
  intros Hd H Hr. pose proof (rest_at_sub _ _ _ _ H) as Hsub. rewrite Number_dec by done.
  assert (Hd' := Hd). destruct Hd' as (Hi & Hne & _). destruct (digit_head _ Hi Hne) as (c & t & Eip & Hc).
  set (p := if dneg d then o + 1 else o).
  assert (rest_at b p (body_text d ++ exp_text (ex d) ++ r)) as Hp.
  { unfold p, dec_text in *. rewrite <- app_assoc in H. destruct (dneg d); [|cbn [app] in H; by rewrite <- app_assoc in H].
    apply rest_at_app in H. by rewrite <- app_assoc in H. }
  assert (exists u, body_text d ++ exp_text (ex d) ++ r = c :: u) as (u & Eu) by (unfold body_text; rewrite Eip; eauto).
  unfold txtF64.
  assert (bool_decide (at_ b o = Some 45) = dneg d /\ (if is_at b o 45 43 then o + 1 else o) = p) as [-> ->].
  { unfold p. destruct (dneg d) eqn:En.
    - assert (rest_at b o (45 :: body_text d ++ exp_text (ex d) ++ r)) as H45 by (unfold dec_text in H; rewrite En in H; rewrite <- !app_assoc in H; exact H).
      rewrite (is_at_some _ _ _ _ _ H45) by (by left). rewrite bool_decide_true; [done|by apply rest_at_byte in H45 as [? _]].
    - unfold p in Hp. rewrite Eu in Hp. rewrite (is_at_none _ _ _ _ _ Hp) by lia.
      apply rest_at_byte in Hp as [E _]. rewrite E. split; [|done]. apply bool_decide_false. intros [= ->]. lia. }
  assert (rest_at b p (c :: u)) as Hpc by (rewrite <- Eu; exact Hp).
  rewrite !(is_at_none _ _ _ _ _ Hpc) by lia.
  assert (o + blen (dec_text d) = p + blen (body_text d ++ exp_text (ex d))) as Ee.
  { unfold p, dec_text. rewrite blen_app. destruct (dneg d); [change (blen [45]) with 1|change (blen []) with 0]; lia. }
  rewrite Ee. rewrite app_assoc in Hp. rewrite (rest_at_sub _ _ _ _ Hp).
  destruct (sig_body d Hd) as (st & Est & Hst). rewrite Est.
  rewrite <- app_assoc in Hp. pose proof (rest_at_app _ _ _ _ Hp) as Hx.
  replace (p + blen (body_text d ++ exp_text (ex d)) - blen (exp_text (ex d))) with (p + blen (body_text d)) by (rewrite blen_app; lia).
  replace (p + blen (body_text d ++ exp_text (ex d))) with (p + blen (body_text d) + blen (exp_text (ex d))) by (rewrite blen_app; lia).
  pose proof (exp_part_spec b _ d r Hd Hx Hr) as Hexp. unfold exp_part in Hexp.
  match type of Hexp with context [let '(es, exp) := ?X in _] => destruct X as [es exp] end. cbv zeta. rewrite Hexp.
  assert (Number (lat1 b o (blen (dec_text d))) = dec_num d) as Hslow by (unfold lat1; by rewrite Hsub, Number_dec).
  rewrite <- Ee || idtac. replace (lat1 b o _) with (lat1 b o (blen (dec_text d))) by (done || (unfold lat1; f_equal; lia)).
  rewrite Hslow. destruct (hard st) eqn:Eh; [done|]. destruct (Hst eq_refl) as [Hsig Hfd]. rewrite Hsig, Hfd.
  set (eff := exp_val d - blen (frac d)). destruct (false || (22 <? eff) || (eff <? -22)); [done|].
  unfold dec_num, scaled, POW10. fold eff. destruct (0 <=? eff); destruct (dneg d); by rewrite ?nneg_rnd.
Qed.

(** ** Integers *)

Lemma log2_lt_pow2 z k : 0 < z -> z < 2 ^ k -> Z.log2 z < k.
Proof. intros Hz Hk. by apply Z.log2_lt_pow2. Qed.

Lemma rnd_int neg z : 0 < z -> Z.log2 z <= 1000 ->
  rnd neg z 1 = let e := Z.log2 z - 52 in
    let m := if 0 <=? e then rne z (2 ^ e) else z * 2 ^ (- e) in
    if m =? 2 ^ 53 then Fin neg (2 ^ 52) (e + 1) else Fin neg m e.
Proof.
  intros Hz Hk. unfold rnd. destruct (Z.eqb_spec z 0); [lia|]. pose proof (Z.log2_nonneg z) as Hl.
  assert (flog2 z 1 = Z.log2 z) as ->.
  { unfold flog2. change (Z.log2 1) with 0. rewrite Z.sub_0_r. unfold scale. destruct (Z.leb_spec 0 (Z.log2 z)); [|lia].
    destruct (Z.ltb_spec z (1 * 2 ^ Z.log2 z)); [|done]. pose proof (Z.log2_spec z Hz). lia. }
  rewrite Z.max_r by lia. set (e := Z.log2 z - 52). unfold scale. destruct (Z.leb_spec 0 e).
  - rewrite Z.mul_1_l. destruct (Z.eqb_spec (rne z (2 ^ e)) (2 ^ 53)).
    + destruct (Z.ltb_spec 971 (e + 1)); [lia|done].
    + destruct (Z.ltb_spec 971 e); [lia|done].
  - assert (rne (z * 2 ^ (- e)) 1 = z * 2 ^ (- e)) as -> by (rewrite <- (Z.mul_1_r (z * _)) at 1; apply rne_exact; lia).
    destruct (Z.eqb_spec (z * 2 ^ (- e)) (2 ^ 53)).
    + destruct (Z.ltb_spec 971 (e + 1)); [lia|done].
    + destruct (Z.ltb_spec 971 e); [lia|done].
Qed.

(** Rounding to a double first changes nothing. *)
Lemma rnd_fl neg z : 0 <= z -> Z.log2 z <= 900 -> rnd neg (fl z) 1 = rnd neg z 1.
Proof.
  intros Hz Hk. unfold fl. rewrite Z.abs_eq by done. destruct (Z.leb_spec (Z.log2 z) 52) as [|Hl]; [done|].
  assert (0 < z) as Hp by (destruct (Z.eq_dec z 0) as [->|]; [simpl in Hl; lia|lia]).
  rewrite Z.sgn_pos, Z.mul_1_l by done. set (e := Z.log2 z - 52). set (m := rne z (2 ^ e)).
  pose proof (Z.log2_spec z Hp) as [Hlo Hhi].
  assert (0 < 2 ^ e) as He by (apply Z.pow_pos_nonneg; unfold e; lia).
  assert (2 ^ 52 <= m <= 2 ^ 53) as Hm.
  { split; [apply rne_between; [done|]; rewrite <- Z.pow_add_r by (unfold e; lia); replace (52 + e) with (Z.log2 z) by (unfold e; lia); done|].
    apply rne_upper; [done|]. rewrite <- Z.pow_add_r by (unfold e; lia). replace (53 + e) with (Z.succ (Z.log2 z)) by (unfold e; lia). lia. }
  assert (0 < m * 2 ^ e) as Hme by nia.
  rewrite (rnd_int _ z), (rnd_int _ (m * 2 ^ e)); try done.
  2:{ apply Z.le_trans with (Z.log2 (2 ^ (53 + e))); [apply Z.log2_le_mono; rewrite Z.pow_add_r by (unfold e; lia); nia|].
      rewrite Z.log2_pow2 by (unfold e; lia). unfold e. lia. }
  2:{ lia. }
  cbv zeta. fold e. destruct (Z.leb_spec 0 e); [|unfold e in *; lia]. fold m.
  destruct (Z.eq_dec m (2 ^ 53)) as [E53|N53].
  - rewrite E53, <- Z.pow_add_r, Z.log2_pow2 by (unfold e; lia). replace (53 + e - 52) with (e + 1) by lia.
    destruct (Z.leb_spec 0 (e + 1)); [|lia]. replace (2 ^ (53 + e)) with (2 ^ 52 * 2 ^ (e + 1)) by (rewrite <- Z.pow_add_r by lia; f_equal; lia).
    rewrite rne_exact by (apply Z.pow_pos_nonneg; lia). done.
  - assert (Z.log2 (m * 2 ^ e) = Z.log2 z) as Elog.
    { apply Z.log2_unique; [apply Z.log2_nonneg|]. replace (Z.log2 z) with (52 + e) by (unfold e; lia).
      rewrite <- Z.add_1_r, <- Z.add_assoc, (Z.add_comm e 1), Z.add_assoc, !Z.pow_add_r by lia. change (2 ^ 52 * 2 ^ 1) with (2 ^ 53). nia. }
    rewrite Elog. fold e. destruct (Z.leb_spec 0 e); [|lia]. by rewrite rne_exact.
Qed.

Lemma digits_val_bound w : all_digits w -> 0 <= digits_val w < 10 ^ blen w.
Proof.
  intros Hw. induction w as [|c w IH] using rev_ind; [by vm_compute|]. apply Forall_app in Hw as [Hw Hc]. inversion Hc; subst.
  rewrite digits_val_app, blen_app. change (blen [c]) with 1. change (digits_val [c]) with (0 * 10 + (c - 48)).
  rewrite Z.pow_add_r by (apply blen_nonneg || lia). specialize (IH Hw). change (10 ^ Z.of_nat (length [c])) with 10. change (10 ^ 1) with 10. lia.
Qed.

(** Up to sixteen digits only the last step can round. *)
Lemma int_loop_spec w : all_digits w -> blen w <= 16 -> int_loop w 0 = fl (digits_val w).
Proof.
  intros Hw Hl. destruct w as [|c w _] using rev_ind; [done|]. apply Forall_app in Hw as [Hw Hc]. inversion Hc as [|? ? Hc' _]; subst.
  rewrite blen_app in Hl. change (blen [c]) with 1 in Hl. pose proof (digits_val_bound w Hw) as Hb.
  assert (10 ^ blen w <= 10 ^ 15) as Hp by (apply Z.pow_le_mono_r; [lia|lia]).
  assert (forall v a, all_digits v -> 0 <= a -> a * 10 ^ blen v + digits_val v < 10 ^ 15 ->
    int_loop (v ++ [c]) a = fl (fl ((a * 10 ^ blen v + digits_val v) * 10) + (c - 48))) as Hgen.
  { clear -Hc'. induction v as [|k v IH]; intros a Hv Ha Hlt.
    - cbn [app int_loop]. change (blen []) with 0. change (digits_val []) with 0. change (10 ^ 0) with 1. by rewrite Z.mul_1_r, Z.add_0_r.
    - inversion Hv as [|? ? Hk Hv']; subst. cbn [app int_loop].
      assert (digits_val (k :: v) = (k - 48) * 10 ^ blen v + digits_val v) as Ed
        by (change (k :: v) with ([k] ++ v); rewrite digits_val_app; change (digits_val [k]) with (0 * 10 + (k - 48)); unfold blen; lia).
      rewrite Ed, blen_cons, Z.pow_add_r in * by (apply blen_nonneg || lia). change (10 ^ 1) with 10 in *.
      pose proof (digits_val_bound v Hv') as Hbv. assert (0 < 10 ^ blen v) by (apply Z.pow_pos_nonneg; [lia|apply blen_nonneg]).
      assert (a * 10 + (k - 48) < 10 ^ 15) by nia. change (10 ^ 15) with 1000000000000000 in *. change (2 ^ 53) with 9007199254740992 in *.
      rewrite (fl_small (a * 10)), (fl_small (a * 10 + (k - 48))) by (change (2 ^ 53) with 9007199254740992; lia).
      rewrite IH; [|done|lia|nia]. do 3 f_equal. ring. }
  rewrite Hgen; [|done|lia|lia]. rewrite Z.mul_0_l, Z.add_0_l, digits_val_app. change (10 ^ Z.of_nat (length [c])) with 10.
  change (digits_val [c]) with (0 * 10 + (c - 48)). rewrite Z.mul_0_l, Z.add_0_l.
  (* a multiple of ten below 2^54 is a double *)
  assert (fl (digits_val w * 10) = digits_val w * 10) as ->; [|done].
  change (10 ^ 15) with 1000000000000000 in *.
  destruct (Z.le_gt_cases (digits_val w * 10) (2 ^ 53)) as [Hs|Hs]; [apply fl_small; lia|].
  unfold fl. rewrite Z.abs_eq by lia. assert (Z.log2 (digits_val w * 10) = 53) as ->.
  { apply Z.log2_unique; [lia|]. change (2 ^ Z.succ 53) with 18014398509481984. lia. }
  change (53 <=? 52) with false. change (53 - 52) with 1. change (2 ^ 1) with 2. cbv iota.
  rewrite Z.sgn_pos by (change (2 ^ 53) with 9007199254740992 in *; lia).
  replace (digits_val w * 10) with (digits_val w * 5 * 2) by lia. rewrite rne_exact by lia. lia.
Qed.

Lemma txtInt_spec b o d r : dec_ok d -> fp d = None -> ex d = None -> rest_at b o (dec_text d ++ r) ->
  txtInt b o (blen (dec_text d)) = Number (dec_text d).
Proof.
  intros Hd Hf He H. pose proof (rest_at_sub _ _ _ _ H) as Hsub. unfold txtInt, lat1. rewrite Hsub.
  destruct (Z.ltb_spec 16 (blen (dec_text d))) as [|Hl]; [done|]. rewrite Number_dec by done.
  assert (dec_text d = (if dneg d then [45] else []) ++ ip d) as Et
    by (unfold dec_text, body_text; rewrite Hf, He; cbn [exp_text]; by rewrite !app_nil_r).
  rewrite Et in *. destruct Hd as (Hi & Hne & _). destruct (digit_head _ Hi Hne) as (c & t & Eip & Hc).
  unfold dec_num, exp_val, frac. rewrite Hf, He. cbn [default]. rewrite app_nil_r. change (0 - blen []) with 0.
  unfold scaled. change (0 <=? 0) with true. cbv iota. rewrite Z.mul_1_r.
  assert (blen (ip d) <= 16) as Hl' by (rewrite blen_app in Hl; pose proof (blen_nonneg (if dneg d then [45] else [])); lia).
  assert (0 <= digits_val (ip d) /\ Z.log2 (digits_val (ip d)) <= 900) as [Hv Hlog].
  { pose proof (digits_val_bound _ Hi). split; [lia|]. transitivity (Z.log2 (10 ^ 16)); [|done]. apply Z.log2_le_mono.
    transitivity (10 ^ blen (ip d)); [lia|]. apply Z.pow_le_mono_r; lia. }
  destruct (dneg d).
  - rewrite <- app_assoc in H. pose proof (rest_at_app _ _ [45] _ H) as H1. change (blen [45]) with 1 in H1.
    apply rest_at_byte in H as [E _]. rewrite E, bool_decide_true by done.
    rewrite blen_app. change (blen [45]) with 1. rewrite Z.add_assoc, (rest_at_sub _ _ _ _ H1), int_loop_spec by done.
    by rewrite nneg_rnd, rnd_fl.
  - cbn [app] in *. rewrite (rest_at_next _ _ _ H), Eip. cbn [app]. rewrite bool_decide_false by (intros [= E]; lia).
    rewrite <- Eip, Hsub, int_loop_spec by done. by rewrite rnd_fl.
Qed.

(** C30: The two allocation-free readers of text numbers are correctly rounded: on every
    decimal text (sign, digits, optional fraction and exponent) [txtF64] returns the
    very double of [Number(text)] — one rounding of an exact significand by an exact
    power of ten, or the slow path — and on an integer text of any length [txtInt]
    does too, although its loop runs in doubles and can pass 2^53. *)
Theorem text_numbers_exact b o d r : dec_ok d -> rest_at b o (dec_text d ++ r) -> no_exp r ->
  txtF64 b o (blen (dec_text d)) = Number (dec_text d) /\
  (fp d = None -> ex d = None -> txtInt b o (blen (dec_text d)) = Number (dec_text d)).
Proof. intros Hd H Hr. split; [by eapply txtF64_spec|]. intros. by eapply txtInt_spec. Qed.

(** -12.5e-3 inside a row body, followed by the next column's length. *)
Definition demo_dec : decimal := mkDec true (js "12") (Some (js "5")) (Some (Some true, js "3")).
Lemma text_numbers_exact_witness :
  txtF64 (js "xx-12.5e-3" ++ [0; 0]) 2 8 = rnd true 125 10000.
Proof.
  destruct (text_numbers_exact (js "xx-12.5e-3" ++ [0; 0]) 2 demo_dec [0; 0]) as [E _].
  - split; [repeat (apply List.Forall_cons; [vm_compute; split; discriminate|]); apply List.Forall_nil|].
    split; [done|]. split.
    + intros f [= <-]. repeat (apply List.Forall_cons; [vm_compute; split; discriminate|]). apply List.Forall_nil.
    + intros s x [= <- <-]. split; [|done]. repeat (apply List.Forall_cons; [vm_compute; split; discriminate|]). apply List.Forall_nil.
  - vm_compute. repeat split; discriminate.
  - vm_compute. split; discriminate.
  - transitivity (Number (dec_text demo_dec)); [exact E|]. vm_compute. reflexivity.
Defined.

(** Nine quadrillion and odd: the loop passes 2^53 and still rounds once. *)
Example txtInt_16 : txtInt (js "9007199254740993") 0 16 = Number (js "9007199254740993"). Proof. vm_compute. reflexivity. Qed.
