(* ===== verification/Faults.v ===== *)
(** * Which failures a retry can fix (src/pool.ts, src/connection.ts)

    The errors a connection attempt can fail with, as the retry loops look at them,
    and the tests that decide whether to keep trying. *)

From S2P Require Import Prelude Buf.

(** An error object: the own fields the driver reads. *)
Record fault := mkFault { fcode : option jstr; fmessage : option jstr; fname_ : option jstr; ffatal : bool }.

#[global] Instance fault_eq_dec : EqDecision fault.
Proof. solve_decision. Defined.

(** [hay.includes(needle)] *)
Fixpoint prefix_of (p l : jstr) : bool :=
  match p, l with
  | [], _ => true
  | _, [] => false
  | a :: p, b :: l => (a =? b) && prefix_of p l
  end.
Fixpoint includes (hay needle : jstr) : bool :=
  prefix_of needle hay || match hay with [] => false | _ :: t => includes t needle end.

(** Case folding of the regex flag [i] on the letters the patterns use. *)
Definition lower_char (c : Z) : Z := if (65 <=? c) && (c <=? 90) then c + 32 else c.
Definition lower (s : jstr) : jstr := lower_char <$> s.

(** What [.] does not match. *)
Definition line_end (c : Z) : bool := (c =? 10) || (c =? 13) || (c =? 8232) || (c =? 8233).
(** [exceeded .*quota]: after the literal, [quota] later on the same line. *)
Fixpoint dot_star (l needle : jstr) : bool :=
  prefix_of needle l || match l with [] => false | c :: t => negb (line_end c) && dot_star t needle end.
Fixpoint seq_dot_star (l first second : jstr) : bool :=
  (prefix_of first l && dot_star (drop (length first) l) second)
  || match l with [] => false | _ :: t => seq_dot_star t first second end.

(** /endpoint (?:is|has been) disabled|disabled endpoint|quota (?:exceeded|exhausted)|exceeded .*quota/i *)
Definition DISABLED_ENDPOINT (m : jstr) : bool :=
  let m := lower m in
  includes m (js "endpoint is disabled") || includes m (js "endpoint has been disabled")
  || includes m (js "disabled endpoint") || includes m (js "quota exceeded")
  || includes m (js "quota exhausted") || seq_dot_star m (js "exceeded ") (js "quota").

Definition has_code (codes : list jstr) (e : fault) : bool :=
  match fcode e with Some c => bool_decide (c ∈ codes) | None => false end.

Definition UNTRUSTED_CERTIFICATE_CODES : list jstr := [
  js "DEPTH_ZERO_SELF_SIGNED_CERT"; js "SELF_SIGNED_CERT_IN_CHAIN"; js "UNABLE_TO_VERIFY_LEAF_SIGNATURE";
  js "UNABLE_TO_GET_ISSUER_CERT"; js "UNABLE_TO_GET_ISSUER_CERT_LOCALLY"; js "CERT_UNTRUSTED"; js "CERT_REVOKED";
  js "ERR_TLS_CERT_ALTNAME_INVALID"].
Definition isUntrustedCertificate (e : fault) : bool :=
  has_code UNTRUSTED_CERTIFICATE_CODES e
  || (let message := default [] (fmessage e) in
      bool_decide (fname_ e = Some (js "InvalidData")) && includes message (js "invalid peer certificate")
      && negb (includes message (js "Expired") || includes message (js "NotValidYet"))).

(** Connection's own reconnect loop. *)
Definition isFatalAuth (e : fault) : bool :=
  has_code [js "28P01"; js "28000"; js "3D000"] e || ffatal e || isUntrustedCertificate e.

Definition FATAL_CODES : list jstr := [js "28P01"; js "28000"; js "3D000"; js "08004"].
Inductive verdict := Fatal | Unavailable.
#[global] Instance verdict_eq_dec : EqDecision verdict.
Proof. solve_decision. Defined.

(** The pool's breaker. *)
Definition classify (e : fault) : verdict :=
  if has_code FATAL_CODES e then Fatal
  else if ffatal e then Fatal
  else if isUntrustedCertificate e then Fatal
  else if match fmessage e with Some m => DISABLED_ENDPOINT m | None => false end then Fatal
  else Unavailable.

(** The breaker gives up on everything the reconnect loop gives up on. *)
Lemma fatal_auth_classify e : isFatalAuth e = true -> classify e = Fatal.
Proof.
  unfold isFatalAuth, classify. intros H. destruct (has_code FATAL_CODES e) eqn:E; [done|].
  destruct (ffatal e); [done|]. destruct (isUntrustedCertificate e); [done|]. rewrite !orb_false_r in H.
  unfold has_code in *. destruct (fcode e) as [c|]; [|done]. apply bool_decide_eq_true in H.
  apply bool_decide_eq_false in E. exfalso. apply E. revert H. unfold FATAL_CODES. rewrite !elem_of_cons. tauto.
Qed.

Example classify_disabled : classify (mkFault (Some (js "XX000")) (Some (js "The ENDPOINT has been Disabled")) None false) = Fatal.
Proof. reflexivity. Qed.
Example classify_refused : classify (mkFault (Some (js "ECONNREFUSED")) (Some (js "connect ECONNREFUSED")) None false) = Unavailable.
Proof. reflexivity. Qed.
