(* ===== verification/Auth.v ===== *)
(** * Authentication (src/auth.ts)

    MD5 and SCRAM-SHA-256, with and without channel binding. The cryptographic primitives
    (node:crypto, String.prototype.normalize) are the class [Crypto]; base64, splitting and number
    parsing are the language's and are written out. *)

From S2P Require Import Prelude Utf8 Text Buf Num Dates Value NumText Faults.

(** ** What is called *)

(** createHash(name).update(b).digest(), createHmac('sha256', key).update(b).digest(),
    pbkdf2Sync(password, salt, iterations, 32, 'sha256') and s.normalize('NFKC'). *)
Class Crypto := {
  createHash : string -> bytes -> bytes;
  createHmac : bytes -> bytes -> bytes;
  pbkdf2Sync : bytes -> bytes -> Z -> bytes;
  NFKC : jstr -> jstr }.

(** Buffer.toString('base64') *)
Definition b64_char (n : Z) : Z :=
  if n <? 26 then 65 + n else if n <? 52 then 71 + n else if n <? 62 then n - 4 else if n =? 62 then 43 else 47.
Fixpoint base64 (b : bytes) : jstr :=
  match b with
  | x :: y :: z :: t =>
    b64_char (x / 4) :: b64_char (x mod 4 * 16 + y / 16) :: b64_char (y mod 16 * 4 + z / 64) :: b64_char (z mod 64) :: base64 t
  | [x; y] => [b64_char (x / 4); b64_char (x mod 4 * 16 + y / 16); b64_char (y mod 16 * 4); 61]
  | [x] => [b64_char (x / 4); b64_char (x mod 4 * 16); 61; 61]
  | [] => []
  end.
(** Buffer.from(s, 'base64'): characters outside both alphabets are skipped. *)
Definition b64_val (c : Z) : option Z :=
  if (65 <=? c) && (c <=? 90) then Some (c - 65)
  else if (97 <=? c) && (c <=? 122) then Some (c - 71)
  else if (48 <=? c) && (c <=? 57) then Some (c + 4)
  else if (c =? 43) || (c =? 45) then Some 62
  else if (c =? 47) || (c =? 95) then Some 63 else None.
Fixpoint sextets (l : list Z) : bytes :=
  match l with
  | a :: b :: c :: d :: t => a * 4 + b / 16 :: b mod 16 * 16 + c / 4 :: c mod 4 * 64 + d :: sextets t
  | [a; b; c] => [a * 4 + b / 16; b mod 16 * 16 + c / 4]
  | [a; b] => [a * 4 + b / 16]
  | _ => []
  end.
Definition base64_decode (s : jstr) : bytes := sextets (omap b64_val s).

(** parseInt(s, 10), None for NaN. *)
Definition parse_int (s : jstr) : option Z :=
  let '(neg, s) := sign_of (skip_spaces s) in
  match (span_digits s).1 with [] => None | ds => Some (if neg then - digits_val ds else digits_val ds) end.

Section Auth.
Context `{Crypto}.

(** ** MD5 *)

Definition md5hex (b : bytes) : jstr := hex (createHash "md5" b).
Definition md5Password (user password : jstr) (salt : bytes) : jstr :=
  let inner := md5hex (utf8 password ++ utf8 user) in
  js "md5" ++ md5hex (utf8 inner ++ salt).

(** ** SCRAM *)

Definition saslprep (s : jstr) : jstr := NFKC s.
(** A missing byte of [b] counts as 0. *)
Definition xor (a b : bytes) : bytes := imap (fun i x => Z.land (Z.lxor x (default 0 (b !! i))) 255) a.
Definition hmac (key : bytes) (str : jstr) : bytes := createHmac key (utf8 str).
Definition sha256 (b : bytes) : bytes := createHash "sha256" b.

(** The closure that scram() returns: what it captured, and the signature it expects. *)
Record Scram := mkScram {
  plus : bool; password_ : jstr; clientNonce : jstr; gs2Header : jstr; cAttr : jstr; serverSignature : option bytes }.
Definition mechanism (s : Scram) : jstr := if plus s then js "SCRAM-SHA-256-PLUS" else js "SCRAM-SHA-256".
Definition clientFirstBare (s : Scram) : jstr := js "n=*,r=" ++ clientNonce s.
Definition clientFirst (s : Scram) : jstr := gs2Header s ++ clientFirstBare s.
(** [rnd]: what randomBytes(18) returned; [gs2]: the flag 'n' or 'y'. *)
Definition scram (rnd : bytes) (password : jstr) (cbData : option bytes) (gs2 : jstr) : Scram :=
  let header := match cbData with Some _ => js "p=tls-server-end-point,," | None => gs2 ++ js ",," end in
  mkScram (match cbData with Some _ => true | None => false end) password (base64 rnd) header
    (base64 (utf8 header ++ default [] cbData)) None.

(** attrs[k]: of the parts that start with [k], the last one, without its first two characters. *)
Definition attr (k : Z) (parts : list jstr) : option jstr :=
  drop 2 <$> last (filter (fun p => head p = Some k) parts).
Definition bad_iterations (i : option jstr) : exn := Error (js "SCRAM: bad iteration count " ++ default (js "undefined") i).
Definition continue_ (serverFirst : jstr) : M Scram jstr := fun s =>
  let parts := split 44 serverFirst [] in
  let r :=
    match attr 114 parts with
    | None => Throw (TypeError (js "Cannot read properties of undefined (reading 'startsWith')"))
    | Some nonce =>
      if negb (prefix_of (clientNonce s) nonce) then Throw (Error (js "SCRAM: server nonce mismatch"))
      else
        match attr 105 parts ≫= parse_int with
        | None => Throw (bad_iterations (attr 105 parts))
        | Some iterations =>
          if negb ((0 <? iterations) && (iterations <=? 100000)) then Throw (bad_iterations (attr 105 parts))
          else match attr 115 parts with
               | None => Throw (TypeError (js "The first argument must be of type string"))
               | Some saltB64 => Ok (nonce, iterations, base64_decode saltB64)
               end
        end
    end in
  match r with
  | Ok (nonce, iterations, salt) =>
    let saltedPassword := pbkdf2Sync (utf8 (saslprep (password_ s))) salt iterations in
    let clientKey := hmac saltedPassword (js "Client Key") in
    let storedKey := sha256 clientKey in
    let clientFinalNoProof := js "c=" ++ cAttr s ++ js ",r=" ++ nonce in
    let authMessage := clientFirstBare s ++ js "," ++ serverFirst ++ js "," ++ clientFinalNoProof in
    let clientProof := xor clientKey (hmac storedKey authMessage) in
    let signature := hmac (hmac saltedPassword (js "Server Key")) authMessage in
    (mkScram (plus s) (password_ s) (clientNonce s) (gs2Header s) (cAttr s) (Some signature),
     Ok (clientFinalNoProof ++ js ",p=" ++ base64 clientProof))
  | Throw e => (s, Throw e)
  | NoFuel => (s, NoFuel)
  end.
Definition server_part (serverFinal : jstr) : option jstr := List.find (prefix_of (js "v=")) (split 44 serverFinal []).
Definition final (s : Scram) (serverFinal : jstr) : res unit :=
  match server_part serverFinal, serverSignature s with
  | Some part, Some signature =>
    if bool_decide (base64_decode (drop 2 part) = signature) then Ok tt
    else Throw (Error (js "SCRAM: server signature verification failed"))
  | _, _ => Throw (Error (js "SCRAM: missing server signature"))
  end.

(** ** Channel binding *)

Definition SIG_OID_HASH : list (string * string) := [
  ("2a864886f70d010104", "sha256"); ("2a864886f70d010105", "sha256"); ("2a864886f70d01010b", "sha256");
  ("2a864886f70d01010c", "sha384"); ("2a864886f70d01010d", "sha512"); ("2a864886f70d01010e", "sha224");
  ("2a8648ce3d0401", "sha256"); ("2a8648ce3d040302", "sha256"); ("2a8648ce3d040303", "sha384"); ("2a8648ce3d040304", "sha512")]%string.
(** A length octet or a run of them. Bytes outside the buffer are undefined, which makes the
    first octet a run of none, and a run NaN: [None]. *)
Definition hdr (der : bytes) (o : Z) : option Z * Z :=
  match at_ der (o + 1) with
  | None => (Some 0, o + 2)
  | Some l =>
    if l <? 128 then (Some l, o + 2)
    else
      let n := Z.land l 127 in
      (foldl (fun acc i => match acc, at_ der (o + 2 + Z.of_nat i) with Some a, Some b => Some (a * 256 + b) | _, _ => None end)
             (Some 0) (seq 0 (Z.to_nat n)), o + 2 + n)
  end.
Definition tlsServerEndPoint (der : bytes) : option bytes :=
  let '(_, body) := hdr der 0 in
  let '(len, body) := hdr der body in
  match len with
  | None => None
  | Some len =>
    let '(_, sig) := hdr der (body + len) in
    if negb (bool_decide (at_ der sig = Some 6)) then None
    else
      let '(len, oid) := hdr der sig in
      let id := hex (match len with Some len => subarray der oid (oid + len) | None => [] end) in
      match List.find (fun p => bool_decide (js p.1 = id)) SIG_OID_HASH with
      | Some (_, algo) => Some (createHash algo der)
      | None => None
      end
  end.
(** [x509], [peer]: the raw certificates of the two accessors; [None] when a method is missing, returns
    none, or throws (after which nothing more is asked). *)
Definition peerCertDer (x509 : res (option bytes)) (peer : res (option bytes)) : option bytes :=
  match x509 with
  | Ok (Some x) => Some x
  | Ok None => match peer with Ok c => c | _ => None end
  | _ => None
  end.
(** AuthenticationSASL: NUL-separated names after the code. *)
Fixpoint mechanisms_loop (fuel : nat) (body : bytes) (o : Z) : list jstr :=
  match fuel with
  | O => []
  | S f =>
    if negb (o <? blen body) then []
    else
      let z := indexOf body 0 o in
      if z <=? o then [] else utf8_decode (subarray body o z) :: mechanisms_loop f body (z + 1)
  end.
Definition parseSaslMechanisms (body : bytes) : list jstr := mechanisms_loop (length body) body 4.

Inductive channelBinding_ := CbDisable | CbPrefer | CbRequire.
Definition no_binding (why : string) : exn := Error (js "minipg: channel_binding=require " ++ [8212] ++ js " " ++ js why).
Definition no_certificate : exn := no_binding
  "this transport does not expose the server certificate, so tls-server-end-point cannot be computed. The built-in node TLS transport does; a custom `socket` must resolve to a stream carrying `getPeerX509Certificate()` or `getPeerCertificate(true)` with a `raw` DER. Use `channel_binding=prefer` to connect unbound.".
Definition no_end_point : exn := no_binding
  "cannot compute tls-server-end-point for this server certificate (unsupported signature algorithm, e.g. Ed25519/RSA-PSS). Use `channel_binding=prefer` to connect unbound.".
Definition no_plus : exn := no_binding "the server did not offer SCRAM-SHA-256-PLUS. Use `channel_binding=prefer` to connect unbound.".
Definition scramForChannel (rnd : bytes) (password : jstr) (mechanisms : list jstr) (mode : channelBinding_) (certDer : option bytes) : res Scram :=
  let plusOffered := bool_decide (js "SCRAM-SHA-256-PLUS" ∈ mechanisms) in
  let cb := match mode with CbDisable => None | _ => certDer ≫= tlsServerEndPoint end in
  let chosen := match cb with
                | Some b => if plusOffered then scram rnd password (Some b) (js "n") else scram rnd password None (js "y")
                | None => scram rnd password None (js "n")
                end in
  match mode with
  | CbRequire =>
    if bool_decide (certDer = None) then Throw no_certificate
    else if bool_decide (cb = None) then Throw no_end_point
    else if negb plusOffered then Throw no_plus else Ok chosen
  | _ => Ok chosen
  end.
End Auth.

(** ** base64 *)

Lemma b64_val_char n : 0 <= n < 64 -> b64_val (b64_char n) = Some n.
Proof.
  intros Hn. unfold b64_char, b64_val. 
  destruct (Z.ltb_spec n 26); [|destruct (Z.ltb_spec n 52); [|destruct (Z.ltb_spec n 62); [|destruct (Z.eqb_spec n 62)]]].
  all: repeat match goal with
    | |- context [?a <=? ?b] => destruct (Z.leb_spec a b); try lia
    | |- context [?a =? ?b] => destruct (Z.eqb_spec a b); try lia
    end; cbn [andb orb]; f_equal; lia.
Qed.
Definition not_comma (c : Z) : Prop := c <> 44.
Lemma b64_char_plain n : 0 <= n < 64 -> not_comma (b64_char n).
Proof. intros Hn. unfold not_comma, b64_char. repeat case_match; lia. Qed.

(** Induction by the groups of three bytes that base64 encodes together. *)
Lemma bytes_ind3 (P : bytes -> Prop) :
  P [] -> (forall x, P [x]) -> (forall x y, P [x; y]) -> (forall x y z t, P t -> P (x :: y :: z :: t)) -> forall b, P b.
Proof.
  intros H0 H1 H2 H3. fix IH 1. intros [|x [|y [|z t]]]; [exact H0|exact (H1 x)|exact (H2 x y)|apply H3, IH].
Qed.
Lemma base64_roundtrip b : bytes_ok b -> base64_decode (base64 b) = b.
Proof.
  unfold base64_decode. induction b as [|x|x y|x y z t IH] using bytes_ind3; intros Hb; [done|..].
  all: apply Forall_cons in Hb as [Hx Hb]; try (apply Forall_cons in Hb as [Hy Hb]); try (apply Forall_cons in Hb as [Hz Hb]).
  all: unfold byte_ok in *; cbn [base64 omap list_omap].
  all: rewrite !b64_val_char by (Z.to_euclidean_division_equations; lia).
  - cbn. f_equal. Z.to_euclidean_division_equations; lia.
  - cbn. f_equal; [|f_equal]; Z.to_euclidean_division_equations; lia.
  - cbn [sextets]. change (list_omap _ _ b64_val (base64 t)) with (omap b64_val (base64 t)). rewrite IH by done.
    f_equal; [|f_equal; [|f_equal]]; Z.to_euclidean_division_equations; lia.
Qed.
Lemma base64_plain b : bytes_ok b -> Forall not_comma (base64 b).
Proof.
  induction b as [|x|x y|x y z t IH] using bytes_ind3; intros Hb; [constructor|..].
  all: apply Forall_cons in Hb as [Hx Hb]; try (apply Forall_cons in Hb as [Hy Hb]); try (apply Forall_cons in Hb as [Hz Hb]).
  all: unfold byte_ok in *; cbn [base64].
  all: repeat (apply List.Forall_cons; [first [apply b64_char_plain; Z.to_euclidean_division_equations; lia|done]|]); auto.
Qed.

(** ** The server of RFC 5802 *)

(** What the server keeps of a password. *)
Record Verifier := mkVerifier { v_salt : bytes; v_iterations : Z; v_stored : bytes; v_server : bytes }.

Section Server.
Context `{Crypto}.

Definition verifier (password : jstr) (salt : bytes) (iterations : Z) : Verifier :=
  let salted := pbkdf2Sync (utf8 (saslprep password)) salt iterations in
  mkVerifier salt iterations (sha256 (hmac salted (js "Client Key"))) (hmac salted (js "Server Key")).
Definition server_first (v : Verifier) (nonce : jstr) : jstr :=
  js "r=" ++ nonce ++ 44 :: (js "s=" ++ base64 (v_salt v)) ++ 44 :: js "i=" ++ show_Z (v_iterations v).
Definition without_proof (header : jstr) (cb : bytes) (nonce : jstr) : jstr :=
  js "c=" ++ base64 (utf8 header ++ cb) ++ js ",r=" ++ nonce.
Definition auth_message (bare serverFirst noProof : jstr) : jstr := bare ++ js "," ++ serverFirst ++ js "," ++ noProof.
(** The answer to client-final, for a server whose own channel binding data is [cb]. *)
Definition server_final (v : Verifier) (header bare : jstr) (cb : bytes) (nonce cf : jstr) : option jstr :=
  let np := without_proof header cb nonce in
  let am := auth_message bare (server_first v nonce) np in
  if prefix_of (np ++ js ",p=") cf then
    let proof := base64_decode (drop (length (np ++ js ",p=")) cf) in
    if bool_decide (sha256 (xor proof (hmac (v_stored v) am)) = v_stored v)
    then Some (js "v=" ++ base64 (hmac (v_server v) am)) else None
  else None.

(** SHA-256 digests are 32 bytes. *)
Definition hmac_sized : Prop := forall k b, length (createHmac k b) = 32%nat /\ bytes_ok (createHmac k b).

Lemma xor_involutive a b : bytes_ok a -> bytes_ok b -> xor (xor a b) b = a.
Proof.
  intros Ha Hb. apply list_eq. intros i. unfold xor. rewrite !list_lookup_imap. destruct (a !! i) as [x|] eqn:E; [|done].
  cbn. f_equal. set (k := default 0 (b !! i)).
  assert (0 <= x < 256) as Hx by (apply (Forall_lookup_1 _ _ _ _ Ha E)).
  change 255 with (Z.ones 8). rewrite !Z.land_ones by lia.
  apply Z.bits_inj'. intros n Hn. destruct (Z.ltb_spec n 8).
  - rewrite Z.mod_pow2_bits_low by lia. rewrite Z.lxor_spec, Z.mod_pow2_bits_low by lia. rewrite Z.lxor_spec.
    by destruct (Z.testbit x n), (Z.testbit k n).
  - rewrite Z.mod_pow2_bits_high by lia. symmetry. destruct (Z.eq_dec x 0) as [->|]; [apply Z.bits_0|].
    apply Z.bits_above_log2; [lia|]. apply Z.lt_le_trans with 8; [|lia]. apply Z.log2_lt_pow2; lia.
Qed.
Lemma xor_ok a b : bytes_ok (xor a b).
Proof.
  apply Forall_lookup_2. intros i y. unfold xor. rewrite list_lookup_imap. destruct (a !! i); [|done]. intros [= <-].
  change 255 with (Z.ones 8). rewrite Z.land_ones by lia. apply (byte_ok_mod (Z.lxor z (default 0 (b !! i)))).
Qed.

Lemma span_digits_all ds : Forall (fun c => 48 <= c <= 57) ds -> span_digits ds = (ds, []).
Proof.
  induction 1 as [|c t Hc _ IH]; [done|]. cbn [span_digits]. assert (is_digit c = true) as -> by (unfold is_digit; blia). by rewrite IH.
Qed.
Lemma parse_int_show i : 0 < i -> parse_int (show_Z i) = Some i.
Proof.
  intros Hi. unfold show_Z. destruct (Z.ltb_spec i 0); [lia|]. destruct (digits_spec i) as (Hv & Hd & Hne & _); [lia|].
  destruct (digits i) as [|c t] eqn:E; [done|]. assert (48 <= c <= 57) as Hc by (by apply Forall_cons in Hd as [? _]).
  unfold parse_int. assert (skip_spaces (c :: t) = c :: t) as ->.
  { cbn [skip_spaces]. assert (StrWhiteSpace c = false) as ->; [|done]. unfold StrWhiteSpace, between.
    rewrite bool_decide_eq_false_2 by (rewrite !elem_of_cons, elem_of_nil; lia).
    destruct (Z.leb_spec 9 c), (Z.leb_spec c 13), (Z.leb_spec 8192 c), (Z.leb_spec c 8202); try lia; done. }
  unfold sign_of. destruct (Z.eqb_spec c 45); [lia|]. destruct (Z.eqb_spec c 43); [lia|].
  rewrite span_digits_all by done. cbn [fst]. by rewrite Hv.
Qed.
Lemma show_plain i : 0 < i -> Forall not_comma (show_Z i).
Proof.
  intros Hi. unfold show_Z. destruct (Z.ltb_spec i 0); [lia|]. destruct (digits_spec i) as (_ & Hd & _); [lia|].
  eapply Forall_impl; [exact Hd|]. unfold not_comma. intros c. cbn. lia.
Qed.

Lemma prefix_app p l : prefix_of p (p ++ l) = true.
Proof. induction p as [|c p IH]; [done|]. cbn. by rewrite Z.eqb_refl. Qed.
Lemma prefix_app_same p a b : prefix_of (p ++ a) (p ++ b) = prefix_of a b.
Proof. induction p as [|c p IH]; [done|]. cbn. by rewrite Z.eqb_refl. Qed.
(** A text without commas, then a comma: no other such text is a prefix of it. *)
Lemma prefix_comma a b x y : Forall not_comma a -> Forall not_comma b ->
  prefix_of (a ++ 44 :: x) (b ++ 44 :: y) = true -> a = b.
Proof.
  intros Ha. revert b. induction Ha as [|c a Hc _ IH]; intros b Hb; destruct Hb as [|d b Hd Hb]; cbn [app prefix_of]; [done|..].
  - intros [E _]%andb_true_iff. apply Z.eqb_eq in E. by symmetry in E.
  - intros [E _]%andb_true_iff. by apply Z.eqb_eq in E.
  - intros [E E']%andb_true_iff. apply Z.eqb_eq in E as ->. f_equal. eapply IH; eauto.
Qed.
Lemma server_first_parts v nonce : Forall not_comma nonce -> bytes_ok (v_salt v) -> 0 < v_iterations v ->
  split 44 (server_first v nonce) [] = [js "r=" ++ nonce; js "s=" ++ base64 (v_salt v); js "i=" ++ show_Z (v_iterations v)].
Proof.
  intros Hn Hs Hi. unfold server_first. rewrite app_assoc, split_sep.
  2:{ apply Forall_app. split; [by repeat constructor|done]. }
  rewrite split_sep by (apply Forall_app; split; [by repeat constructor|by apply base64_plain]).
  rewrite <- (app_nil_r (js "i=" ++ _)) at 1. rewrite split_app by (apply Forall_app; split; [by repeat constructor|by apply show_plain]).
  done.
Qed.
End Server.

Section Exchange.
Context `{Crypto} (rnd : bytes) (pw : jstr) (cb : option bytes) (gs2 : jstr) (salt : bytes) (iterations : Z) (snonce : jstr).
Let v := verifier pw salt iterations.
Let s := scram rnd pw cb gs2.
Let nonce := clientNonce s ++ snonce.
Let am := auth_message (clientFirstBare s) (server_first v nonce) (without_proof (gs2Header s) (default [] cb) nonce).
Let proof := xor (hmac (pbkdf2Sync (utf8 (saslprep pw)) salt iterations) (js "Client Key")) (hmac (v_stored v) am).
Let client_final := without_proof (gs2Header s) (default [] cb) nonce ++ js ",p=" ++ base64 proof.
Let s' := mkScram (plus s) pw (clientNonce s) (gs2Header s) (cAttr s) (Some (hmac (v_server v) am)).

Lemma continue_spec : bytes_ok rnd -> bytes_ok salt -> 0 < iterations <= 100000 -> Forall not_comma snonce ->
  continue_ (server_first v nonce) s = (s', Ok client_final).
Proof using Type.
  intros Hr Hs Hi Hsn. unfold continue_. rewrite server_first_parts; [|apply Forall_app; split; [by apply base64_plain|done]|done|cbn; lia].
  set (parts := [_; _; _]).
  assert (attr 114 parts = Some nonce) as -> by done. assert (attr 105 parts = Some (show_Z iterations)) as -> by done.
  assert (attr 115 parts = Some (base64 salt)) as -> by done. cbn [mbind option_bind]. rewrite parse_int_show by lia.
  assert (prefix_of (clientNonce s) nonce = true) as -> by apply prefix_app. cbn [negb].
  destruct (Z.ltb_spec 0 iterations); [|lia]. destruct (Z.leb_spec iterations 100000); [|lia]. cbn [andb negb].
  rewrite base64_roundtrip by done. unfold s', client_final, proof, am, s, scram. by destruct cb.
Qed.
Lemma header_ok : bytes_ok (utf8 (gs2Header s)) -> bytes_ok (default [] cb) -> bytes_ok (utf8 (gs2Header s) ++ default [] cb).
Proof using Type. intros. by apply Forall_app. Qed.
Lemma other_binding scb : bytes_ok (utf8 (gs2Header s)) -> bytes_ok (default [] cb) -> bytes_ok scb -> scb <> default [] cb ->
  server_final v (gs2Header s) (clientFirstBare s) scb nonce client_final = None.
Proof using Type.
  intros Hh Hc Hsc Hne. unfold server_final. destruct (prefix_of _ _) eqn:E; [|done]. exfalso. apply Hne.
  unfold client_final, without_proof in E. rewrite <- !app_assoc in E. rewrite prefix_app_same in E.
  apply prefix_comma in E; [|apply base64_plain; by apply Forall_app..].
  apply (f_equal base64_decode) in E. rewrite !base64_roundtrip in E by (by apply Forall_app). by apply app_inv_head in E.
Qed.
Lemma same_binding : hmac_sized -> server_final v (gs2Header s) (clientFirstBare s) (default [] cb) nonce client_final
  = Some (js "v=" ++ base64 (hmac (v_server v) am)).
Proof using Type.
  intros Hk. unfold server_final. assert (client_final = (without_proof (gs2Header s) (default [] cb) nonce ++ js ",p=") ++ base64 proof) as ->
    by (unfold client_final; by rewrite app_assoc).
  rewrite prefix_app, drop_app_length, base64_roundtrip by apply xor_ok. rewrite bool_decide_eq_true_2; [done|].
  fold am. unfold proof. rewrite xor_involutive by apply Hk. done.
Qed.
Lemma final_signature : hmac_sized -> forall msg,
  final s' msg = Ok tt <-> exists part, server_part msg = Some part /\ base64_decode (drop 2 part) = hmac (v_server v) am.
Proof using Type.
  intros Hk msg. unfold final, s'. cbn [serverSignature]. destruct (server_part msg) as [part|]; [|naive_solver].
  case_bool_decide; naive_solver.
Qed.
Lemma final_server : hmac_sized -> final s' (js "v=" ++ base64 (hmac (v_server v) am)) = Ok tt.
Proof using Type.
  intros Hk. apply final_signature; [done|]. exists (js "v=" ++ base64 (hmac (v_server v) am)). split.
  - unfold server_part. rewrite <- (app_nil_r (js "v=" ++ _)) at 1.
    rewrite split_app by (apply Forall_app; split; [by repeat constructor|apply base64_plain, Hk]). cbn [app]. by cbn.
  - rewrite drop_app_length' by done. apply base64_roundtrip, Hk.
Qed.
End Exchange.

(** SCRAM-SHA-256 authenticates both ways. Against a server that keeps the password's verifier,
    every exchange ends with the server accepting the client's proof and the client accepting
    the server's signature; a server bound to another channel certificate refuses the proof;
    and the client accepts no answer but one that carries the signature which only a holder of
    the verifier can compute. *)
Theorem scram_mutual `{Crypto} rnd pw cb gs2 salt iterations snonce :
  hmac_sized -> bytes_ok rnd -> bytes_ok salt -> bytes_ok (default [] cb) -> (gs2 = js "n" \/ gs2 = js "y") -> 0 < iterations <= 100000 -> Forall not_comma snonce ->
  let v := verifier pw salt iterations in
  let s := scram rnd pw cb gs2 in
  let nonce := clientNonce s ++ snonce in
  exists s' cf answer,
    continue_ (server_first v nonce) s = (s', Ok cf) /\
    server_final v (gs2Header s) (clientFirstBare s) (default [] cb) nonce cf = Some answer /\
    final s' answer = Ok tt /\
    (forall scb, bytes_ok scb -> scb <> default [] cb -> server_final v (gs2Header s) (clientFirstBare s) scb nonce cf = None) /\
    (forall msg, final s' msg = Ok tt <-> exists part, server_part msg = Some part /\
       base64_decode (drop 2 part) = hmac (v_server v) (auth_message (clientFirstBare s) (server_first v nonce) (without_proof (gs2Header s) (default [] cb) nonce))).
Proof.
  intros Hk Hr Hs Hc Hg Hi Hsn v s nonce.
  assert (bytes_ok (utf8 (gs2Header s))) as Hh.
  { unfold s, scram. destruct cb; cbn [gs2Header]; [|destruct Hg as [-> | ->]]; by apply (bool_decide_unpack _). }
  do 3 eexists. split; [by apply continue_spec|]. split; [by apply same_binding|]. split; [by apply final_server|].
  split; [intros scb Hscb Hne; by apply other_binding|]. by apply final_signature.
Qed.

(** Stand-ins for the digests, of the right size. *)
Definition demo_crypto : Crypto := {|
  createHash := fun _ b => take 32 (b ++ replicate 32 0);
  createHmac := fun k b => take 32 (((fun x => x mod 256) <$> k ++ b) ++ replicate 32 7);
  pbkdf2Sync := fun p s i => p ++ s ++ [i mod 256];
  NFKC := fun s => s |}.
Lemma scram_mutual_witness : exists s' cf answer,
  @continue_ demo_crypto (@server_first (@verifier demo_crypto (js "pencil") [1; 2; 3; 255] 4096) (base64 [9; 8; 7; 6; 5] ++ js "3rfcNHY"))
    (scram [9; 8; 7; 6; 5] (js "pencil") (Some [1; 2]) (js "n")) = (s', Ok cf) /\
  @final s' answer = Ok tt.
Proof.
  destruct (@scram_mutual demo_crypto [9; 8; 7; 6; 5] (js "pencil") (Some [1; 2]) (js "n") [1; 2; 3; 255] 4096 (js "3rfcNHY"))
    as (s' & cf & answer & E1 & _ & E2 & _).
  - intros k b. cbn. split; [rewrite length_take, length_app; cbn [length]; lia|].
    apply Forall_take, Forall_app. split; [|by repeat constructor]. apply Forall_fmap, Forall_true. intros x. apply byte_ok_mod.
  - by apply (bool_decide_unpack _).
  - by apply (bool_decide_unpack _).
  - by apply (bool_decide_unpack _).
  - by left.
  - lia.
  - repeat (apply List.Forall_cons; [done|]). apply List.Forall_nil.
  - exists s', cf, answer. split; [exact E1|exact E2].
Defined.
