(* ===== verification/Json.v ===== *)
(** * JSON.parse

    The language's JSON text parser, which the decoders call on whole values. What
    becomes of a number token is a parameter: its double for plain JSON.parse, and
    what the source-text reviver makes of token and double otherwise. One step of
    [fuel] per value, member or element: a text of [n] characters needs at most
    [2 n + 2]. *)

From S2P Require Import Prelude Utf8 Buf Num Dates Value NumText.

Definition is_ws (c : Z) : bool := (c =? 32) || (c =? 9) || (c =? 10) || (c =? 13).
Fixpoint skip_ws (s : jstr) : jstr := match s with c :: t => if is_ws c then skip_ws t else s | [] => [] end.

Definition hex_val (c : Z) : option Z :=
  if is_digit c then Some (c - 48)
  else if (97 <=? c) && (c <=? 102) then Some (c - 87) else if (65 <=? c) && (c <=? 70) then Some (c - 55) else None.
Definition hex4 (a b c d : Z) : option Z :=
  match hex_val a, hex_val b, hex_val c, hex_val d with
  | Some a, Some b, Some c, Some d => Some (((a * 16 + b) * 16 + c) * 16 + d)
  | _, _, _, _ => None
  end.
Definition simple_escape (c : Z) : option Z :=
  if c =? 34 then Some 34 else if c =? 92 then Some 92 else if c =? 47 then Some 47 else if c =? 98 then Some 8
  else if c =? 102 then Some 12 else if c =? 110 then Some 10 else if c =? 114 then Some 13 else if c =? 116 then Some 9 else None.

(** A string after its opening quote. *)
Fixpoint unquote (s : jstr) : res (jstr * jstr) :=
  match s with
  | [] => Throw SyntaxError
  | c :: t =>
    if c =? 34 then Ok ([], t)
    else if c <? 32 then Throw SyntaxError
    else if c =? 92 then
      match t with
      | e :: t1 =>
        if e =? 117 then
          match t1 with
          | a :: b :: c' :: d :: t2 =>
            match hex4 a b c' d with Some u => '(x, r) ← unquote t2; Ok (u :: x, r) | None => Throw SyntaxError end
          | _ => Throw SyntaxError
          end
        else match simple_escape e with Some u => '(x, r) ← unquote t1; Ok (u :: x, r) | None => Throw SyntaxError end
      | [] => Throw SyntaxError
      end
    else '(x, r) ← unquote t; Ok (c :: x, r)
  end.

(** -? (0 | [1-9][0-9]* ) (. [0-9]+)? ([eE] [+-]? [0-9]+)? *)
Definition json_number (s : jstr) : res (num * jstr) :=
  let '(neg, s1) := match s with c :: t => if c =? 45 then (true, t) else (false, s) | [] => (false, s) end in
  let '(ip, r1) := span_digits s1 in
  match ip with
  | [] => Throw SyntaxError
  | c0 :: ip' =>
    if (c0 =? 48) && negb (length ip' =? 0)%nat then Throw SyntaxError
    else
      '(fp, r2) ← (match r1 with
        | c :: t => if c =? 46 then let '(f, r) := span_digits t in match f with [] => Throw SyntaxError | _ => Ok (f, r) end else Ok ([], r1)
        | [] => Ok ([], []) end);
      '(ex, r3) ← (match r2 with
        | c :: t => if (c =? 101) || (c =? 69) then
                      let '(eneg, t1) := sign_of t in let '(d, r) := span_digits t1 in
                      match d with [] => Throw SyntaxError | _ => Ok ((if eneg then -1 else 1) * digits_val d, r) end
                    else Ok (0, r2)
        | [] => Ok (0, []) end);
      Ok (scaled neg (digits_val (ip ++ fp)) (ex - blen fp), r3)
  end.

(** o[k] = v: a repeated key keeps its place and takes the new value. *)
Fixpoint set_key (k : jstr) (v : value) (fs : list (jstr * value)) : list (jstr * value) :=
  match fs with
  | [] => [(k, v)]
  | (k', v') :: t => if bool_decide (k' = k) then (k, v) :: t else (k', v') :: set_key k v t
  end.

(** o[k]: an own property; [None] is undefined. *)
Definition get_key (k : jstr) (fs : list (jstr * value)) : option value :=
  snd <$> List.find (fun p => bool_decide (p.1 = k)) fs.

Lemma get_set_same k v fs : get_key k (set_key k v fs) = Some v.
Proof.
  induction fs as [|[k' v'] t IH]; cbn [set_key]; [unfold get_key; simpl; by rewrite bool_decide_true|].
  destruct (bool_decide_reflect (k' = k)) as [->|Hn]; unfold get_key in *; cbn [List.find fst].
  - by rewrite bool_decide_true.
  - rewrite bool_decide_false by done. exact IH.
Qed.
Lemma get_set_other k k' v fs : k <> k' -> get_key k (set_key k' v fs) = get_key k fs.
Proof.
  intros Hk. induction fs as [|[k2 v2] t IH]; cbn [set_key].
  - unfold get_key. cbn [List.find fst]. by rewrite bool_decide_false by congruence.
  - destruct (bool_decide_reflect (k2 = k')) as [->|Hn]; unfold get_key in *; cbn [List.find fst].
    + by rewrite bool_decide_false by congruence.
    + destruct (bool_decide (k2 = k)); [done|exact IH].
Qed.

Definition word (w : jstr) (v : value) (s : jstr) : res (value * jstr) :=
  if bool_decide (take (length w) s = w) then Ok (v, drop (length w) s) else Throw SyntaxError.

Section Parse.
(** The value of a number token. *)
Variable onnum : jstr -> num -> value.

Fixpoint jval (fuel : nat) (s : jstr) : res (value * jstr) :=
  match fuel with
  | O => NoFuel
  | S f =>
    match skip_ws s with
    | [] => Throw SyntaxError
    | c :: t =>
      if c =? 123 then
        match skip_ws t with
        | d :: r => if d =? 125 then Ok (VObj [], r) else '(fs, r) ← jmembers f t []; Ok (VObj fs, r)
        | [] => Throw SyntaxError
        end
      else if c =? 91 then
        match skip_ws t with
        | d :: r => if d =? 93 then Ok (VArr [], r) else '(l, r) ← jelems f t; Ok (VArr l, r)
        | [] => Throw SyntaxError
        end
      else if c =? 34 then '(x, r) ← unquote t; Ok (VStr x, r)
      else if c =? 116 then word (js "true") (VBool true) (c :: t)
      else if c =? 102 then word (js "false") (VBool false) (c :: t)
      else if c =? 110 then word (js "null") VNull (c :: t)
      else '(x, r) ← json_number (c :: t); Ok (onnum (take (length (c :: t) - length r) (c :: t)) x, r)
    end
  end
with jelems (fuel : nat) (s : jstr) : res (list value * jstr) :=
  match fuel with
  | O => NoFuel
  | S f =>
    '(v, r) ← jval f s;
    match skip_ws r with
    | c :: t => if c =? 44 then '(l, r') ← jelems f t; Ok (v :: l, r') else if c =? 93 then Ok ([v], t) else Throw SyntaxError
    | [] => Throw SyntaxError
    end
  end
with jmembers (fuel : nat) (s : jstr) (acc : list (jstr * value)) : res (list (jstr * value) * jstr) :=
  match fuel with
  | O => NoFuel
  | S f =>
    match skip_ws s with
    | c :: t =>
      if c =? 34 then
        '(k, r) ← unquote t;
        match skip_ws r with
        | d :: r1 =>
          if d =? 58 then
            '(v, r2) ← jval f r1;
            match skip_ws r2 with
            | e :: r3 => if e =? 44 then jmembers f r3 (set_key k v acc)
                         else if e =? 125 then Ok (set_key k v acc, r3) else Throw SyntaxError
            | [] => Throw SyntaxError
            end
          else Throw SyntaxError
        | [] => Throw SyntaxError
        end
      else Throw SyntaxError
    | [] => Throw SyntaxError
    end
  end.

Definition JSON_parse_with (s : jstr) : res value :=
  '(v, r) ← jval (2 * length s + 2) s;
  match skip_ws r with [] => Ok v | _ => Throw SyntaxError end.
End Parse.

Definition plain_num (tok : jstr) (x : num) : value := VNum x.
Definition JSON_parse : jstr -> res value := JSON_parse_with plain_num.

Example JSON_parse_1 : JSON_parse (js " {'a' : [1, -2.5e1, null, true], 'b':{}} ") = Throw SyntaxError.
Proof. vm_compute. reflexivity. Qed.
Example JSON_parse_2 : JSON_parse ([123; 34; 97; 34; 58; 91; 49; 44; 32] ++ js "-2.5e1,null]}")
  = Ok (VObj [(js "a", VArr [VNum (of_Z 1); VNum (of_Z (-25)); VNull])]).
Proof. vm_compute. reflexivity. Qed.
