(* ===== verification/JsonBig.v ===== *)
(** * Exact integers in JSON (src/jsonparse.ts, the jsonBigints decoders of src/decode.ts)

    Three ways to parse a JSON text with integers beyond 2^53 kept exact: JSON.parse
    with the source-text reviver, the parser over the wire bytes, and the fast path
    that first looks for a long digit run and calls plain JSON.parse when there is
    none. *)

From S2P Require Import Prelude Utf8 Buf Num Value NumText Json.

Inductive JsonBigints := JNumber | JString | JBigint.
#[global] Instance JsonBigints_eq : EqDecision JsonBigints. Proof. solve_decision. Defined.

(** BigInt(text): an optional sign and digits; the empty text is 0n. *)
Definition BigInt_text (s : jstr) : res value :=
  match s with
  | [] => Ok (VBig 0)
  | _ => let '(neg, t) := sign_of s in
         match span_digits t with
         | (d :: ds, []) => Ok (VBig ((if neg then -1 else 1) * digits_val (d :: ds)))
         | _ => Throw SyntaxError
         end
  end.

(** ** The reviver *)

(** /^-?\d+$/ *)
Definition INT_TOKEN (s : jstr) : bool :=
  let t := match s with c :: t => if c =? 45 then t else s | [] => s end in
  match t with [] => false | _ => forallb is_digit t end.
Definition int_tok_val (s : jstr) : Z :=
  match s with c :: t => if c =? 45 then - digits_val t else digits_val s | [] => 0 end.

Definition keep_exact (mode : JsonBigints) (tok : jstr) : value :=
  match mode with JBigint => VBig (int_tok_val tok) | _ => VStr tok end.

Definition bigintReviver (mode : JsonBigints) (tok : jstr) (x : num) : value :=
  match int_of x with
  | Some z => if (MAX_SAFE <? Z.abs z) && INT_TOKEN tok then keep_exact mode tok else VNum x
  | None => VNum x
  end.

(** ** BIG_INT: (?<![\d.eE+-])-?\d{16}(?!\d*[.eE]) *)

Definition numberish (c : Z) : bool := is_digit c || (c =? 46) || (c =? 101) || (c =? 69) || (c =? 43) || (c =? 45).
Definition big_here (s : jstr) : bool :=
  let t := match s with c :: t => if c =? 45 then t else s | [] => s end in
  (length (take 16 t) =? 16)%nat && forallb is_digit (take 16 t)
  && match (span_digits (drop 16 t)).2 with c :: _ => negb ((c =? 46) || (c =? 101) || (c =? 69)) | [] => true end.
(** A match at some position; [behind] tells whether the lookbehind lets one start here. *)
Fixpoint big_scan (behind : bool) (s : jstr) : bool :=
  (behind && big_here s) || match s with c :: t => big_scan (negb (numberish c)) t | [] => false end.
Definition BIG_INT (s : jstr) : bool := big_scan true s.

(** ** The parser over bytes *)

(** The length of a run: a loop [while (p < end && f(b[p])) p++] from [p] adds it to [p]. *)
Fixpoint run (f : Z -> bool) (w : bytes) : Z :=
  match w with c :: t => if f c then 1 + run f t else 0 | [] => 0 end.
(** The string loop: bytes up to the closing quote, and whether a backslash was met. *)
Fixpoint str_scan (w : bytes) (esc : bool) : Z * bool :=
  match w with
  | c :: t =>
    if c =? 92 then match t with _ :: t' => let '(n, e) := str_scan t' true in (2 + n, e) | [] => (2, true) end
    else if c =? 34 then (0, esc)
    else let '(n, e) := str_scan t esc in (1 + n, e)
  | [] => (0, esc)
  end.

Definition mayHaveBigInt_from (run : Z) (w : bytes) : bool :=
  (fix go (run : Z) (w : bytes) : bool :=
     match w with
     | c :: t => if (48 <=? c) && (c <=? 57) then if 16 <=? run + 1 then true else go (run + 1) t else go 0 t
     | [] => false
     end) run w.
Definition mayHaveBigInt (b : bytes) (start stop : Z) : bool := mayHaveBigInt_from 0 (subarray b start stop).

Section Buffer.
Context (b : bytes) (stop : Z) (big : JsonBigints).

Definition ws (p : Z) : Z := p + run is_ws (subarray b p stop).

Definition buf_string (p : Z) : res (value * Z) :=
  let s := p + 1 in
  let '(n, esc) := str_scan (subarray b s stop) false in
  let p := s + n in
  v ← (if esc then JSON_parse (utf8_decode (subarray b (s - 1) (p + 1))) else Ok (VStr (utf8_decode (subarray b s p))));
  Ok (v, p + 1).

Definition num_char (c : Z) : bool := ((48 <=? c) && (c <=? 57)) || (c =? 46) || (c =? 101) || (c =? 69) || (c =? 43) || (c =? 45).
Definition float_char (c : Z) : bool := (c =? 46) || (c =? 101) || (c =? 69) || (c =? 43) || (c =? 45).
Definition neg_num (neg : bool) (x : Z) : num := if neg then nneg (of_Z x) else of_Z x.
Definition buf_number (p : Z) : res (value * Z) :=
  let s := p in
  let neg := bool_decide (at_ b p = Some 45) in
  let p := if neg then p + 1 else p in
  let w := subarray b p stop in
  let e := p + run num_char w in
  let isFloat := existsb float_char (subarray b p e) in
  let raw := utf8_decode (subarray b s e) in
  if isFloat || bool_decide (big = JNumber) then Ok (VNum (Number raw), e)
  else
    let x := int_loop (subarray b p e) 0 in
    if x <=? MAX_SAFE then Ok (VNum (neg_num neg x), e)
    else match big with
         | JBigint => v ← BigInt_text raw; Ok (v, e)
         | _ => Ok (VStr raw, e)
         end.

Definition key_of (v : value) : jstr := match v with VStr s => s | _ => [] end.

Fixpoint buf_value (fuel : nat) (p : Z) : res (value * Z) :=
  match fuel with
  | O => NoFuel
  | S f =>
    let p := ws p in
    let c := at_ b p in
    if bool_decide (c = Some 123) then
      let p := ws (p + 1) in
      if bool_decide (at_ b p = Some 125) then Ok (VObj [], p + 1)
      else '(fs, p) ← buf_members f p []; Ok (VObj fs, p)
    else if bool_decide (c = Some 91) then
      let p := ws (p + 1) in
      if bool_decide (at_ b p = Some 93) then Ok (VArr [], p + 1)
      else '(l, p) ← buf_elems f p; Ok (VArr l, p)
    else if bool_decide (c = Some 34) then buf_string p
    else if bool_decide (c = Some 116) then Ok (VBool true, p + 4)
    else if bool_decide (c = Some 102) then Ok (VBool false, p + 5)
    else if bool_decide (c = Some 110) then Ok (VNull, p + 4)
    else buf_number p
  end
with buf_elems (fuel : nat) (p : Z) : res (list value * Z) :=
  match fuel with
  | O => NoFuel
  | S f =>
    '(v, p) ← buf_value f p;
    let p := ws p in
    if bool_decide (at_ b p = Some 44) then '(l, p) ← buf_elems f (p + 1); Ok (v :: l, p) else Ok ([v], p + 1)
  end
with buf_members (fuel : nat) (p : Z) (acc : list (jstr * value)) : res (list (jstr * value) * Z) :=
  match fuel with
  | O => NoFuel
  | S f =>
    let p := ws p in
    '(k, p) ← buf_string p;
    let p := ws p + 1 in
    '(v, p) ← buf_value f p;
    let acc := set_key (key_of k) v acc in
    let p := ws p in
    if bool_decide (at_ b p = Some 44) then buf_members f (p + 1) acc else Ok (acc, p + 1)
  end.
End Buffer.

Definition parseJsonBuffer (b : bytes) (start stop : Z) (big : JsonBigints) : res value :=
  '(v, _) ← buf_value b stop big (2 * Z.to_nat (stop - start) + 2) start; Ok v.

(** ** The decoder of a column *)

Definition bigintJsonParser (jsonSourceSupported : bool) (mode : JsonBigints) (s : jstr) (b : option bytes) : res value :=
  if jsonSourceSupported then
    if BIG_INT s then JSON_parse_with (bigintReviver mode) s else JSON_parse s
  else if negb (BIG_INT s) then JSON_parse s
       else let buf := default (utf8 s) b in parseJsonBuffer buf 0 (blen buf) mode.
Definition jsonDecoder (jsonSourceSupported : bool) (mode : JsonBigints) (b : bytes) : res value :=
  match mode with
  | JNumber => JSON_parse (utf8_decode b)
  | _ => bigintJsonParser jsonSourceSupported mode (utf8_decode b) (Some b)
  end.

(** ** Number tokens *)

(** The grammar of a JSON number, as a token. *)
Record jtok := mkTok { jneg : bool; jip : jstr; jfp : option jstr; jex : option (Z * jstr * jstr) }.
Definition jsign_ok (s : jstr) : Prop := s = [] \/ s = [43] \/ s = [45].
Definition jtok_text (d : jtok) : jstr :=
  (if jneg d then [45] else []) ++ jip d ++ match jfp d with None => [] | Some f => 46 :: f end
  ++ match jex d with None => [] | Some (c, s, x) => c :: s ++ x end.
Definition jtok_exp (d : jtok) : Z :=
  match jex d with None => 0 | Some (_, s, x) => (if bool_decide (s = [45]) then -1 else 1) * digits_val x end.
Definition jtok_num (d : jtok) : num :=
  scaled (jneg d) (digits_val (jip d ++ default [] (jfp d))) (jtok_exp d - blen (default [] (jfp d))).
Definition jtok_ok (d : jtok) : Prop :=
  all_digits (jip d) /\ jip d <> [] /\ (hd 0 (jip d) = 48 -> jip d = [48])
  /\ (forall f, jfp d = Some f -> all_digits f /\ f <> [])
  /\ (forall c s x, jex d = Some (c, s, x) -> (c = 101 \/ c = 69) /\ jsign_ok s /\ all_digits x /\ x <> []).
(** What cannot follow: the token is maximal. *)
Definition jtok_stop (d : jtok) (r : jstr) : Prop :=
  match r with
  | c :: _ => is_digit c = false /\ (jex d = None -> c <> 101 /\ c <> 69) /\ (jfp d = None -> jex d = None -> c <> 46)
  | [] => True
  end.

Lemma span_digits_inv s d r : span_digits s = (d, r) ->
  s = d ++ r /\ all_digits d /\ match r with c :: _ => is_digit c = false | [] => True end.
Proof.
  revert d r. induction s as [|c t IH]; intros d r E; cbn [span_digits] in E.
  - injection E as <- <-. repeat split; constructor.
  - destruct (is_digit c) eqn:Ec.
    + destruct (span_digits t) as [d' r'] eqn:Et. injection E as <- <-. destruct (IH _ _ eq_refl) as (-> & Hd & Hr).
      split; [done|]. split; [|done]. constructor; [|done]. unfold is_digit in Ec. apply andb_true_iff in Ec as [?%Z.leb_le ?%Z.leb_le]. lia.
    + injection E as <- <-. repeat split; [constructor|done].
Qed.

Lemma sign_of_inv s n t : sign_of s = (n, t) -> exists g, s = g ++ t /\ jsign_ok g /\ n = bool_decide (g = [45]).
Proof.
  unfold sign_of. destruct s as [|c u]; [intros [= <- <-]; exists []; repeat split; by left|].
  destruct (Z.eqb_spec c 45) as [->|]; [intros [= <- <-]; exists [45]; repeat split; right; by right|].
  destruct (Z.eqb_spec c 43) as [->|]; intros [= <- <-]; [exists [43]; repeat split; right; by left|exists []; repeat split; by left].
Qed.

(** The fraction and the exponent of a token. *)
Definition frac_part (r1 : jstr) : res (jstr * jstr) :=
  match r1 with
  | c :: t => if c =? 46 then let '(f, r) := span_digits t in match f with [] => Throw SyntaxError | _ => Ok (f, r) end else Ok ([], r1)
  | [] => Ok ([], [])
  end.
Definition exp_part (r2 : jstr) : res (Z * jstr) :=
  match r2 with
  | c :: t => if (c =? 101) || (c =? 69) then
                let '(eneg, t1) := sign_of t in let '(d, r) := span_digits t1 in
                match d with [] => Throw SyntaxError | _ => Ok ((if eneg then -1 else 1) * digits_val d, r) end
              else Ok (0, r2)
  | [] => Ok (0, [])
  end.

Lemma frac_part_inv r1 fp r2 : frac_part r1 = Ok (fp, r2) ->
  exists jf, fp = default [] jf /\ r1 = match jf with None => [] | Some f => 46 :: f end ++ r2
    /\ (forall f, jf = Some f -> all_digits f /\ f <> [])
    /\ match jf with None => match r2 with c :: _ => c <> 46 | [] => True end
       | Some _ => match r2 with c :: _ => is_digit c = false | [] => True end end.
Proof.
  unfold frac_part. destruct r1 as [|c t]; [intros [= <- <-]; by exists None|].
  destruct (Z.eqb_spec c 46) as [->|Hc]; [|intros [= <- <-]; by exists None].
  destruct (span_digits t) as [f r] eqn:Ef. apply span_digits_inv in Ef as (-> & Hf & Hr).
  destruct f as [|c f]; [done|]. intros [= <- <-]. exists (Some (c :: f)). split; [done|]. split; [done|]. split; [|done].
  intros f' [= <-]. done.
Qed.

Lemma exp_part_inv r2 e r : exp_part r2 = Ok (e, r) ->
  exists jx, e = match jx with None => 0 | Some (_, s, x) => (if bool_decide (s = [45]) then -1 else 1) * digits_val x end
    /\ r2 = match jx with None => [] | Some (c, s, x) => c :: s ++ x end ++ r
    /\ (forall c s x, jx = Some (c, s, x) -> (c = 101 \/ c = 69) /\ jsign_ok s /\ all_digits x /\ x <> [])
    /\ match jx with None => match r with c :: _ => c <> 101 /\ c <> 69 | [] => True end
       | Some _ => match r with c :: _ => is_digit c = false | [] => True end end.
Proof.
  unfold exp_part. destruct r2 as [|c t]; [intros [= <- <-]; by exists None|].
  destruct ((c =? 101) || (c =? 69)) eqn:Ec.
  - destruct (sign_of t) as [n t1] eqn:Es. apply sign_of_inv in Es as (g & -> & Hg & ->).
    destruct (span_digits t1) as [d r'] eqn:Ed. apply span_digits_inv in Ed as (-> & Hd & Hr). destruct d as [|c1 d]; [done|].
    intros [= <- <-]. exists (Some (c, g, c1 :: d)). split; [done|]. split; [cbn [app]; by rewrite <- app_assoc|]. split; [|done].
    intros c' s x [= <- <- <-]. apply orb_true_iff in Ec as [->%Z.eqb_eq| ->%Z.eqb_eq]; repeat split; auto; done.
  - intros [= <- <-]. exists None. apply orb_false_iff in Ec as [?%Z.eqb_neq ?%Z.eqb_neq]. done.
Qed.

Lemma json_number_inv s x r : json_number s = Ok (x, r) ->
  exists d, s = jtok_text d ++ r /\ jtok_ok d /\ jtok_stop d r /\ x = jtok_num d.
Proof.
  intros E. unfold json_number in E.
  assert (exists neg s1, (match s with c :: t => if c =? 45 then (true, t) else (false, s) | [] => (false, s) end) = (neg, s1)
    /\ s = (if neg then [45] else []) ++ s1) as (neg & s1 & Es & ->).
  { destruct s as [|c t]; [by exists false, []|]. destruct (Z.eqb_spec c 45) as [->|]; [by exists true, t|by exists false, (c :: t)]. }
  rewrite Es in E. clear Es. destruct (span_digits s1) as [ip r1] eqn:Eip. apply span_digits_inv in Eip as (-> & Hip & Hr1).
  destruct ip as [|c0 ip']; [done|]. destruct ((c0 =? 48) && negb (length ip' =? 0)%nat) eqn:Ez; [done|].
  assert (hd 0 (c0 :: ip') = 48 -> c0 :: ip' = [48]) as Hz by (cbn [hd]; intros ->; cbn in Ez; by destruct ip').
  assert (c0 :: ip' <> []) as Hne by done. revert E. generalize dependent (c0 :: ip'). clear c0 ip' Ez. intros ip Hip Hz Hne E.
  change (('(fp, r2) ← frac_part r1; '(e, r3) ← exp_part r2; Ok (scaled neg (digits_val (ip ++ fp)) (e - blen fp), r3)) = Ok (x, r)) in E.
  apply bind_res_Ok_inv in E as ([fp r2] & Efp & E). apply bind_res_Ok_inv in E as ([e r3] & Eex & E). injection E as <- <-.
  apply frac_part_inv in Efp as (jf & -> & -> & Hf & Hr2). apply exp_part_inv in Eex as (jx & -> & -> & Hx & Hr3).
  exists (mkTok neg ip jf jx). unfold jtok_text, jtok_num, jtok_exp. cbn [jneg jip jfp jex].
  split; [by rewrite <- !app_assoc|]. split; [done|]. split; [|done].
  unfold jtok_stop. cbn [jfp jex]. destruct r3 as [|c r3]; [done|].
  destruct jx as [[[c' s] y]|].
  - split; [done|]. split; intros; done.
  - cbn [app] in *. split; [|split; [done|by intros ->]]. destruct jf as [f|]; [done|]. exact Hr1.
Qed.

(** A JSON integer token and its double. *)
Lemma int_of_small neg v : 0 <= v < 2 ^ 53 -> exists z, int_of (rnd neg v 1) = Some z /\ Z.abs z = v.
Proof.
  intros Hv. destruct (Z.eq_dec v 0) as [->|Hne]; [destruct neg; eexists; split; vm_compute; reflexivity|].
  assert (Z.log2 v < 53) as Hl by (apply log2_lt_pow2; lia). rewrite rnd_int by lia. cbv zeta.
  set (e := Z.log2 v - 52). pose proof (Z.log2_spec v ltac:(lia)) as [Hlo Hhi]. pose proof (Z.log2_nonneg v).
  assert ((if 0 <=? e then rne v (2 ^ e) else v * 2 ^ (- e)) = v * 2 ^ (- e)) as ->.
  { destruct (Z.leb_spec 0 e); [|done]. assert (e = 0) as -> by (unfold e in *; lia). change (2 ^ 0) with 1. change (2 ^ (-0)) with 1.
    rewrite <- (Z.mul_1_r v) at 1. rewrite rne_exact; lia. }
  assert (0 < 2 ^ (- e)) as Hp by (apply Z.pow_pos_nonneg; unfold e in *; lia).
  destruct (Z.eqb_spec (v * 2 ^ (- e)) (2 ^ 53)) as [E|_].
  { exfalso. assert (2 ^ Z.succ (Z.log2 v) * 2 ^ (- e) = 2 ^ 53) as P by (rewrite <- Z.pow_add_r by (unfold e in *; lia); f_equal; unfold e; lia). nia. }
  unfold int_of. destruct (Z.leb_spec 0 e).
  - assert (e = 0) as -> by (unfold e in *; lia). eexists. split; [reflexivity|]. destruct neg; change (2 ^ 0) with 1; change (2 ^ (-0)) with 1; lia.
  - rewrite Z.mod_mul, Z.div_mul by lia. change (0 =? 0) with true. cbv iota. eexists. split; [reflexivity|]. destruct neg; lia.
Qed.

Lemma digit_char c : 48 <= c <= 57 -> is_digit c = true.
Proof. intros H. unfold is_digit. destruct (Z.leb_spec 48 c), (Z.leb_spec c 57); done || lia. Qed.
Lemma all_digits_forallb w : all_digits w -> forallb is_digit w = true.
Proof. induction 1 as [|c w Hc _ IH]; [done|]. cbn [forallb]. by rewrite digit_char, IH. Qed.

Definition is_int (d : jtok) : Prop := jfp d = None /\ jex d = None.

Lemma strip_minus d r : jtok_ok d ->
  (match jtok_text d ++ r with c :: t => if c =? 45 then t else jtok_text d ++ r | [] => jtok_text d ++ r end)
  = jip d ++ match jfp d with None => [] | Some f => 46 :: f end ++ match jex d with None => [] | Some (c, s, x) => c :: s ++ x end ++ r.
Proof.
  intros (Hd & Hne & _). unfold jtok_text. rewrite <- !app_assoc. destruct (jneg d); [done|]. cbn [app].
  destruct (digit_head _ Hd Hne) as (c & t & -> & Hc). cbn [app]. by destruct (Z.eqb_spec c 45); [lia|].
Qed.

Lemma INT_TOKEN_int d : jtok_ok d -> INT_TOKEN (jtok_text d) = true -> is_int d.
Proof.
  intros Hok. pose proof (strip_minus d [] Hok) as E. rewrite !app_nil_r in E. unfold INT_TOKEN. rewrite E.
  destruct Hok as (Hd & Hne & _ & _ & Hx). intros H. split.
  - destruct (jfp d) as [f|]; [|done]. exfalso. destruct (jip d); [done|]. cbn [app] in H. rewrite app_comm_cons, forallb_app in H. cbn in H.
    by rewrite andb_false_r in H.
  - destruct (jex d) as [[[c s] x]|]; [|done]. exfalso. destruct (Hx _ _ _ eq_refl) as (Hc & _).
    assert (forallb is_digit (jip d ++ match jfp d with None => [] | Some f => 46 :: f end ++ c :: s ++ x) = true) as H'.
    { destruct (jip d); [done|]. exact H. }
    rewrite !forallb_app in H'. cbn [forallb] in H'. replace (is_digit c) with false in H' by (destruct Hc as [-> | ->]; done).
    by rewrite !andb_false_r in H'.
Qed.

Lemma INT_TOKEN_of_int d : jtok_ok d -> is_int d -> INT_TOKEN (jtok_text d) = true
  /\ int_tok_val (jtok_text d) = (if jneg d then - digits_val (jip d) else digits_val (jip d))
  /\ jtok_num d = rnd (jneg d) (digits_val (jip d)) 1.
Proof.
  intros Hok [Ef Ex]. pose proof (strip_minus d [] Hok) as E. rewrite !app_nil_r in E. unfold INT_TOKEN. rewrite E, Ef, Ex. cbn [app].
  rewrite app_nil_r. destruct Hok as (Hd & Hne & _). split; [|split].
  - destruct (jip d); [done|]. by apply all_digits_forallb.
  - unfold int_tok_val, jtok_text. rewrite Ef, Ex. cbn [app]. rewrite app_nil_r. destruct (jneg d); [done|]. cbn [app].
    destruct (digit_head _ Hd Hne) as (c & t & -> & Hc). by destruct (Z.eqb_spec c 45); [lia|].
  - unfold jtok_num, jtok_exp. rewrite Ef, Ex. cbn [default from_option]. rewrite app_nil_r. change (0 - blen []) with 0. unfold scaled. simpl.
    by rewrite Z.mul_1_r.
Qed.

(** ** The fast path *)

(** Handlers that keep the double of every token of fewer than 16 digits. *)
Definition short_plain (h : jstr -> num -> value) : Prop :=
  forall d, jtok_ok d -> (is_int d -> (length (jip d) < 16)%nat) -> h (jtok_text d) (jtok_num d) = VNum (jtok_num d).

Lemma reviver_short mode : short_plain (bigintReviver mode).
Proof.
  intros d Hok Hs. unfold bigintReviver. destruct (int_of (jtok_num d)) as [z|] eqn:Ez; [|done].
  destruct (INT_TOKEN (jtok_text d)) eqn:Et; [|by rewrite andb_false_r]. rewrite andb_true_r.
  pose proof (INT_TOKEN_int _ Hok Et) as Hi. destruct (INT_TOKEN_of_int _ Hok Hi) as (_ & _ & En). specialize (Hs Hi).
  destruct Hok as (Hd & _). pose proof (digits_val_bound _ Hd) as Hb. unfold blen in Hb.
  assert (10 ^ Z.of_nat (length (jip d)) <= 10 ^ 15) as Hp by (apply Z.pow_le_mono_r; lia).
  change (10 ^ 15) with 1000000000000000 in Hp. rewrite En in Ez.
  destruct (int_of_small (jneg d) (digits_val (jip d))) as (z' & E' & Hz); [change (2 ^ 53) with 9007199254740992; lia|].
  assert (z' = z) as -> by congruence. unfold MAX_SAFE. destruct (Z.ltb_spec 9007199254740991 (Z.abs z)); [lia|done].
Qed.

Lemma big_scan_cons bh c t : big_scan bh (c :: t) = false -> big_scan (negb (numberish c)) t = false.
Proof. cbn [big_scan]. by intros [_ ?]%orb_false_iff. Qed.
Lemma big_scan_weak bh s : big_scan bh s = false -> big_scan false s = false.
Proof. destruct s; [done|]. cbn [big_scan]. rewrite andb_false_l. by intros [_ ?]%orb_false_iff. Qed.
Lemma big_scan_app bh p s : big_scan bh (p ++ s) = false -> big_scan false s = false.
Proof.
  revert bh. induction p as [|c p IH]; intros bh E; [by apply big_scan_weak in E|]. cbn [app] in E. apply big_scan_cons in E. by apply IH in E.
Qed.
Lemma big_scan_after bh p c s : big_scan bh (p ++ c :: s) = false -> numberish c = false -> big_scan true s = false.
Proof. intros E Hc. apply big_scan_app in E. apply big_scan_cons in E. by rewrite Hc in E. Qed.

Lemma skip_ws_open s : big_scan true s = false -> big_scan true (skip_ws s) = false.
Proof.
  induction s as [|c t IH]; [done|]. intros E. cbn [skip_ws]. destruct (is_ws c) eqn:Ec; [|done]. apply IH. apply big_scan_cons in E.
  replace (numberish c) with false in E; [done|]. unfold is_ws in Ec. symmetry.
  repeat (apply orb_true_iff in Ec as [Ec|Ec]); apply Z.eqb_eq in Ec; by subst.
Qed.
Lemma skip_ws_quiet s : big_scan false s = false -> big_scan false (skip_ws s) = false.
Proof.
  intros E. assert (exists p, s = p ++ skip_ws s) as (p & Ep).
  { clear E. induction s as [|c t (p & IH)]; [by exists []|]. cbn [skip_ws]. destruct (is_ws c); [|by exists []]. exists (c :: p). cbn [app]. by rewrite <- IH. }
  rewrite Ep in E. by apply big_scan_app in E.
Qed.

Lemma unquote_inv s x r : unquote s = Ok (x, r) -> exists p, s = p ++ 34 :: r.
Proof.
  assert (forall n s x r, (length s <= n)%nat -> unquote s = Ok (x, r) -> exists p, s = p ++ 34 :: r) as G; [|by apply (G (length s))].
  clear. induction n as [|n IH]; intros s x r Hl E; destruct s as [|c t]; cbn [length] in Hl; try lia; try done.
  cbn [unquote] in E. destruct (Z.eqb_spec c 34) as [->|]; [injection E as <- <-; by exists []|].
  destruct (c <? 32); [done|]. destruct (Z.eqb_spec c 92) as [->|].
  - destruct t as [|e t1]; [done|]. cbn [length] in Hl. destruct (e =? 117).
    + destruct t1 as [|a [|b [|c' [|d t2]]]]; try done. cbn [length] in Hl. destruct (hex4 a b c' d); [|done].
      apply bind_res_Ok_inv in E as ([x' r'] & E & E2). injection E2 as <- <-. apply IH in E as (p & ->); [|lia]. by exists (92 :: e :: a :: b :: c' :: d :: p).
    + destruct (simple_escape e); [|done]. apply bind_res_Ok_inv in E as ([x' r'] & E & E2). injection E2 as <- <-.
      apply IH in E as (p & ->); [|lia]. by exists (92 :: e :: p).
  - apply bind_res_Ok_inv in E as ([x' r'] & E & E2). injection E2 as <- <-. apply IH in E as (p & ->); [|lia]. by exists (c :: p).
Qed.

Lemma unquote_open bh s x r : big_scan bh s = false -> unquote s = Ok (x, r) -> big_scan true r = false.
Proof. intros Hs E. apply unquote_inv in E as (p & ->). by apply big_scan_after in Hs. Qed.

Lemma no_big_short d r : jtok_ok d -> jtok_stop d r -> big_scan true (jtok_text d ++ r) = false ->
  is_int d -> (length (jip d) < 16)%nat.
Proof.
  intros Hok Hs E [Ef Ex]. destruct (Nat.lt_ge_cases (length (jip d)) 16) as [|Hl]; [done|exfalso].
  assert (big_here (jtok_text d ++ r) = true) as B.
  { unfold big_here. rewrite (strip_minus d r Hok), Ef, Ex. cbn [app]. destruct Hok as (Hd & _).
    rewrite <- (take_drop 16 (jip d)), <- app_assoc. assert (length (take 16 (jip d)) = 16%nat) as L by (rewrite length_take; lia).
    rewrite take_app_exact, drop_app_exact by done. rewrite L. simpl Nat.eqb.
    rewrite all_digits_forallb by (by apply Forall_take). rewrite span_digits_app; [|by apply Forall_drop|].
    - cbn [snd]. unfold jtok_stop in Hs. destruct r as [|c r]; [done|]. destruct Hs as (_ & H1 & H2). destruct (H1 Ex). pose proof (H2 Ef Ex).
      by destruct (Z.eqb_spec c 46), (Z.eqb_spec c 101), (Z.eqb_spec c 69).
    - unfold jtok_stop in Hs. destruct r; [done|]. apply Hs. }
  destruct (jtok_text d ++ r); cbn [big_scan] in E; rewrite B in E; done.
Qed.

Lemma number_case h s x r : short_plain h -> big_scan true s = false -> json_number s = Ok (x, r) ->
  h (take (length s - length r) s) x = VNum x /\ big_scan false r = false.
Proof.
  intros Hh Ho E. apply json_number_inv in E as (d & -> & Hok & Hs & ->). split; [|by apply big_scan_app in Ho].
  rewrite take_app_exact by (rewrite length_app; lia). apply Hh; [done|]. by apply (no_big_short d r).
Qed.

Section Same.
Context (h : jstr -> num -> value) (Hh : short_plain h).

(** A scan result that two handlers share, with what is left free of long integers. *)
Definition same_scan {A} (quietly : bool) (m1 m2 : res (A * jstr)) : Prop :=
  m1 = m2 /\ forall a r, m2 = Ok (a, r) -> big_scan quietly r = false.

Lemma same_bind {A B} q q' (m1 m2 : res (A * jstr)) (f1 f2 : A * jstr -> res (B * jstr)) :
  same_scan q m1 m2 -> (forall a r, big_scan q r = false -> same_scan q' (f1 (a, r)) (f2 (a, r))) ->
  same_scan q' (m1 ≫= f1) (m2 ≫= f2).
Proof.
  intros [-> Hq] Hf. destruct m2 as [[a r]| |]; [|by split|by split]. apply Hf. by apply (Hq a).
Qed.
Lemma same_Throw {A} q e : @same_scan A q (Throw e) (Throw e). Proof. by split. Qed.
Lemma same_Ok {A} q (a : A) r : big_scan q r = false -> same_scan q (Ok (a, r)) (Ok (a, r)).
Proof. intros E. split; [done|]. by intros a' r' [= _ <-]. Qed.
Lemma same_weak {A} (m1 m2 : res (A * jstr)) : same_scan true m1 m2 -> same_scan false m1 m2.
Proof. intros [E Hq]. split; [done|]. intros a r H. by apply (big_scan_weak true), (Hq a). Qed.
Lemma same_word w v s : big_scan false s = false -> same_scan false (word w v s) (word w v s).
Proof.
  intros E. split; [done|]. intros a r. unfold word. destruct (bool_decide _); [|done]. intros [= _ <-].
  rewrite <- (take_drop (length w) s) in E. by apply big_scan_app in E.
Qed.
Lemma same_unquote s : big_scan false s = false -> same_scan true (unquote s) (unquote s).
Proof. intros E. split; [done|]. intros x r H. by apply (unquote_open false s x). Qed.

Lemma after_sep c t : big_scan false (c :: t) = false -> numberish c = false -> big_scan true t = false.
Proof. intros E Hc. apply big_scan_cons in E. by rewrite Hc in E. Qed.

Lemma parse_same fuel :
  (forall s, big_scan true s = false -> same_scan false (jval h fuel s) (jval plain_num fuel s))
  /\ (forall s, big_scan true s = false -> same_scan false (jelems h fuel s) (jelems plain_num fuel s))
  /\ (forall s acc, big_scan true s = false -> same_scan false (jmembers h fuel s acc) (jmembers plain_num fuel s acc)).
Proof.
  induction fuel as [|f (IHv & IHe & IHm)]; [repeat split; done|]. split; [|split].
  - intros s Ho. cbn [jval]. apply skip_ws_open in Ho. destruct (skip_ws s) as [|c t]; [apply same_Throw|]. pose proof (big_scan_weak _ _ Ho) as Hq.
    destruct (Z.eqb_spec c 123) as [->|].
    { pose proof (after_sep _ _ Hq eq_refl) as Ht. pose proof (skip_ws_open _ Ht) as Hw. destruct (skip_ws t) as [|d r]; [apply same_Throw|].
      destruct (Z.eqb_spec d 125) as [->|]; [apply same_Ok, (big_scan_weak true), (after_sep 125); [by apply (big_scan_weak true)|done]|].
      apply (same_bind false); [by apply IHm|]. intros a r' Hr. by apply same_Ok. }
    destruct (Z.eqb_spec c 91) as [->|].
    { pose proof (after_sep _ _ Hq eq_refl) as Ht. pose proof (skip_ws_open _ Ht) as Hw. destruct (skip_ws t) as [|d r]; [apply same_Throw|].
      destruct (Z.eqb_spec d 93) as [->|]; [apply same_Ok, (big_scan_weak true), (after_sep 93); [by apply (big_scan_weak true)|done]|].
      apply (same_bind false); [by apply IHe|]. intros a r' Hr. by apply same_Ok. }
    destruct (Z.eqb_spec c 34) as [->|].
    { apply (same_bind true); [apply same_unquote; by apply (big_scan_weak true), (after_sep 34)|]. intros a r Hr. apply same_Ok. by apply big_scan_weak in Hr. }
    destruct (c =? 116); [by apply same_word|]. destruct (c =? 102); [by apply same_word|]. destruct (c =? 110); [by apply same_word|].
    destruct (json_number (c :: t)) as [[x r]| |] eqn:En; [|by split|by split]. cbn [mbind res_bind].
    destruct (number_case h _ _ _ Hh Ho En) as [-> Hr]. by apply same_Ok.
  - intros s Ho. cbn [jelems]. apply (same_bind false); [by apply IHv|]. intros v r Hr. apply skip_ws_quiet in Hr.
    destruct (skip_ws r) as [|c t]; [apply same_Throw|]. destruct (Z.eqb_spec c 44) as [->|].
    + apply (same_bind false); [apply IHe; by apply (after_sep 44)|]. intros l r' Hr'. by apply same_Ok.
    + destruct (Z.eqb_spec c 93) as [->|]; [|apply same_Throw]. apply same_Ok. by apply (big_scan_weak true), (after_sep 93).
  - intros s acc Ho. cbn [jmembers]. apply skip_ws_open in Ho. destruct (skip_ws s) as [|c t]; [apply same_Throw|].
    destruct (Z.eqb_spec c 34) as [->|]; [|apply same_Throw]. apply big_scan_weak in Ho.
    apply (same_bind true); [apply same_unquote; by apply (big_scan_weak true), (after_sep 34)|]. intros k r Hr. apply skip_ws_open in Hr.
    destruct (skip_ws r) as [|d r1]; [apply same_Throw|]. destruct (Z.eqb_spec d 58) as [->|]; [|apply same_Throw]. apply big_scan_weak in Hr.
    apply (same_bind false); [apply IHv; by apply (after_sep 58)|]. intros v r2 Hr2. apply skip_ws_quiet in Hr2.
    destruct (skip_ws r2) as [|e r3]; [apply same_Throw|]. destruct (Z.eqb_spec e 44) as [->|]; [apply IHm; by apply (after_sep 44)|].
    destruct (Z.eqb_spec e 125) as [->|]; [|apply same_Throw]. apply same_Ok. by apply (big_scan_weak true), (after_sep 125).
Qed.

Lemma parse_with_same s : BIG_INT s = false -> JSON_parse_with h s = JSON_parse s.
Proof. intros E. unfold JSON_parse, JSON_parse_with. by destruct (proj1 (parse_same (2 * length s + 2)) s E) as [-> _]. Qed.
End Same.

(** The fast path of the jsonBigints decoders loses no integer: looking for a
    16-digit run with the BIG_INT expression never misses a text in which the
    source-text reviver would have changed a number, so the decoder returns what
    JSON.parse with the reviver returns, on every text, well formed or not. *)
Theorem bigintJsonParser_fast_path mode s b :
  bigintJsonParser true mode s b = JSON_parse_with (bigintReviver mode) s.
Proof.
  unfold bigintJsonParser. destruct (BIG_INT s) eqn:E; [done|]. symmetry. apply parse_with_same; [apply reviver_short|done].
Qed.

Example bigintReviver_keeps : JSON_parse_with (bigintReviver JString) (js "[9007199254740993, 1.5, -9007199254740991]")
  = Ok (VArr [VStr (js "9007199254740993"); VNum (rnd false 3 2); VNum (of_Z (-9007199254740991))]).
Proof. vm_compute. reflexivity. Qed.
