(* ===== verification/JsonBuffer.v ===== *)
(** * The byte-level JSON parser reads every JSON text as JSON.parse does *)

From S2P Require Import Prelude Utf8 Buf Num Value NumText Json JsonBig.

(** The reference: JSON.parse, with integers that pass 2^53 kept exact. *)
Definition exact_num (mode : JsonBigints) (tok : jstr) (x : num) : value :=
  if INT_TOKEN tok && (MAX_SAFE <? Z.abs (int_tok_val tok)) && negb (bool_decide (mode = JNumber))
  then keep_exact mode tok else VNum x.

(** ** Runs over encoded text *)

Lemma run_app f x w : Forall (fun c => f c = true) x -> run f (x ++ w) = blen x + run f w.
Proof.
  induction 1 as [|c x Hc _ IH]; [done|]. cbn [app run]. rewrite Hc, IH, blen_cons. lia.
Qed.
Lemma run_stop f w : match w with c :: _ => f c = false | [] => True end -> run f w = 0.
Proof. destruct w as [|c w]; [done|]. cbn [run]. by intros ->. Qed.

(** The first byte of a text is its first character, or no ASCII byte at all. *)
Lemma utf8_head c t : usv (c :: t) = true ->
  exists b0 w, utf8 (c :: t) = b0 :: w /\ ((b0 = c /\ 0 <= c < 128) \/ (128 <= b0 /\ 128 <= c)).
Proof.
  intros H. destruct (usv_cases _ _ H) as [(_ & _ & Hc & _ & ->)|(d & t' & -> & Hh & Hl & _ & ->)].
  - destruct (Z.lt_ge_cases c 128).
    + rewrite enc1_ascii by lia. exists c, (utf8 t). split; [done|]. left. lia.
    + pose proof (enc1_high c ltac:(lia)) as F. destruct (enc1 c) as [|b0 w] eqn:E.
      { exfalso. unfold enc1 in E. repeat case_match; done. }
      apply Forall_inv in F. exists b0, (w ++ utf8 t). split; [done|]. right. lia.
  - pose proof (enc2_high c d Hh Hl) as F. destruct (enc2 c d) as [|b0 w] eqn:E; [done|]. apply Forall_inv in F.
    exists b0, (w ++ utf8 t'). split; [done|]. right. unfold is_hi in Hh. lia.
Qed.

Definition low (f : Z -> bool) : Prop := forall c, 128 <= c -> f c = false.
Lemma utf8_stop f s : usv s = true -> low f -> match s with c :: _ => f c = false | [] => True end -> run f (utf8 s) = 0.
Proof.
  intros Hs Hf Hc. apply run_stop. destruct s as [|c t]; [done|]. destruct (utf8_head _ _ Hs) as (b0 & w & -> & [[-> _]|[Hb _]]); [done|auto].
Qed.

Lemma skip_ws_split s : exists x, s = x ++ skip_ws s /\ Forall (fun c => is_ws c = true) x
  /\ match skip_ws s with c :: _ => is_ws c = false | [] => True end.
Proof.
  induction s as [|c t (x & E & Hx & Hs)]; [by exists []|]. cbn [skip_ws]. destruct (is_ws c) eqn:Ec; [|by exists []].
  exists (c :: x). cbn [app]. split; [by f_equal|]. split; [by constructor|done].
Qed.
Lemma is_ws_ascii c : is_ws c = true -> 0 <= c < 128.
Proof. unfold is_ws. intros H. repeat (apply orb_true_iff in H as [H|H]); apply Z.eqb_eq in H; lia. Qed.
Lemma is_ws_low : low is_ws.
Proof. intros c Hc. unfold is_ws. destruct (Z.eqb_spec c 32), (Z.eqb_spec c 9), (Z.eqb_spec c 10), (Z.eqb_spec c 13); lia || done. Qed.
Lemma num_char_low : low num_char.
Proof.
  intros c Hc. unfold num_char. destruct (Z.leb_spec c 57); [lia|]. rewrite andb_false_r.
  destruct (Z.eqb_spec c 46), (Z.eqb_spec c 101), (Z.eqb_spec c 69), (Z.eqb_spec c 43), (Z.eqb_spec c 45); lia || done.
Qed.

(** ** Positions *)
Section At.
Context (b : bytes) (stop : Z) (post : bytes).

(** From [p] the text to parse is [s]. *)
Definition sees (p : Z) (s : jstr) : Prop :=
  usv s = true /\ p + blen (utf8 s) = stop /\ rest_at b p (utf8 s ++ post).

Lemma sees_window p s : sees p s -> subarray b p stop = utf8 s.
Proof. intros (_ & <- & HR). by apply rest_at_sub in HR. Qed.

Lemma sees_ascii p x s : ascii x -> sees p (x ++ s) -> sees (p + blen x) s.
Proof.
  intros Hx (Hu & Hp & HR). rewrite usv_app_ascii in Hu by done. rewrite utf8_app_ascii in * by done. rewrite blen_app in Hp.
  rewrite <- app_assoc in HR. apply rest_at_app in HR. split; [done|]. split; [lia|done].
Qed.
Lemma sees_char p c s : 0 <= c < 128 -> sees p (c :: s) -> at_ b p = Some c /\ sees (p + 1) s.
Proof.
  intros Hc H. split; [|apply (sees_ascii p [c] s); [by constructor|done]].
  destruct H as (_ & _ & HR). rewrite utf8_ascii_cons in HR by done. apply rest_at_byte in HR. apply HR.
Qed.
Lemma sees_at p c s d : 0 <= d < 128 -> sees p (c :: s) -> bool_decide (at_ b p = Some d) = (c =? d).
Proof.
  intros Hd (Hu & _ & HR). destruct (utf8_head _ _ Hu) as (b0 & w & E & Hb). rewrite E in HR. apply rest_at_byte in HR as [-> _].
  destruct Hb as [[-> _]|[Hb Hc]]; destruct (Z.eqb_spec c d) as [->|Hne].
  - by apply bool_decide_true.
  - apply bool_decide_false. congruence.
  - lia.
  - apply bool_decide_false. intros [= ->]. lia.
Qed.

Lemma sees_ws p s : sees p s -> sees (ws b stop p) (skip_ws s).
Proof.
  intros H. unfold ws. rewrite (sees_window _ _ H). destruct (skip_ws_split s) as (x & E & Hx & Hs). destruct H as (Hu & Hp & HR).
  assert (ascii x) as Ha by (eapply Forall_impl; [exact Hx|]; intros c; apply is_ws_ascii).
  assert (usv (skip_ws s) = true) as Hu' by (rewrite E, usv_app_ascii in Hu; done).
  rewrite E at 1. rewrite utf8_app_ascii, run_app by done. rewrite (utf8_stop _ _ Hu' is_ws_low Hs), Z.add_0_r.
  apply sees_ascii; [done|]. rewrite <- E. done.
Qed.

(** ** Strings *)

Lemma str_scan_plain x w e : Forall (fun c => c <> 34 /\ c <> 92) x ->
  str_scan (x ++ w) e = (blen x + (str_scan w e).1, (str_scan w e).2).
Proof.
  induction 1 as [|c x [H1 H2] _ IH]; [cbn [app]; change (blen []) with 0; rewrite Z.add_0_l; by destruct (str_scan w e)|]. cbn [app str_scan].
  destruct (Z.eqb_spec c 92); [done|]. destruct (Z.eqb_spec c 34); [done|]. rewrite IH, blen_cons. f_equal. lia.
Qed.

Lemma str_scan_esc e w q : str_scan (92 :: e :: w) q = (2 + (str_scan w true).1, (str_scan w true).2).
Proof. cbn [str_scan]. change (92 =? 92) with true. cbv iota. by destruct (str_scan w true). Qed.

Lemma hex4_ascii a b' c d u : hex4 a b' c d = Some u -> Forall (fun c => 0 <= c < 128 /\ c <> 34 /\ c <> 92) [a; b'; c; d].
Proof.
  assert (forall c v, hex_val c = Some v -> 0 <= c < 128 /\ c <> 34 /\ c <> 92) as G.
  { clear. intros c v. unfold hex_val, is_digit. destruct ((48 <=? c) && (c <=? 57)) eqn:E1; [intros _; b2p_all; lia|].
    destruct ((97 <=? c) && (c <=? 102)) eqn:E2; [intros _; b2p_all; lia|]. destruct ((65 <=? c) && (c <=? 70)) eqn:E3; [intros _; b2p_all; lia|done]. }
  unfold hex4. destruct (hex_val a) eqn:Ea; [|done]. destruct (hex_val b') eqn:Eb; [|done]. destruct (hex_val c) eqn:Ec; [|done].
  destruct (hex_val d) eqn:Ed; [|done]. intros _. repeat (apply List.Forall_cons; [eapply G; eassumption|]). apply List.Forall_nil.
Qed.
Lemma escape_ascii e u : simple_escape e = Some u -> 0 <= e < 128.
Proof.
  unfold simple_escape. destruct (Z.eqb_spec e 34), (Z.eqb_spec e 92), (Z.eqb_spec e 47), (Z.eqb_spec e 98), (Z.eqb_spec e 102),
    (Z.eqb_spec e 110), (Z.eqb_spec e 114), (Z.eqb_spec e 116); lia || done.
Qed.

(** The string loop stops at the quote where the string ends; without a backslash
    the text is verbatim, and with one the slice parses to the same string. *)
Definition scanned (t x r : jstr) : Prop :=
  exists p esc, t = p ++ 34 :: r /\ usv p = true /\ usv r = true
    /\ (forall w e, str_scan (utf8 p ++ 34 :: w) e = (blen (utf8 p), e || esc))
    /\ (esc = false -> x = p) /\ unquote (p ++ [34]) = Ok (x, []).

Lemma scanned_step bs (c1 x1 : jstr) t x r esc1 :
  usv c1 = true -> (forall s, usv s = true -> utf8 (c1 ++ s) = bs ++ utf8 s) -> (forall s, usv (c1 ++ s) = usv s) ->
  (forall w e, str_scan (bs ++ w) e = (blen bs + (str_scan w (e || esc1)).1, (str_scan w (e || esc1)).2)) ->
  (esc1 = false -> x1 = c1) ->
  (forall s y, unquote s = Ok (y, []) -> unquote (c1 ++ s) = Ok (x1 ++ y, [])) ->
  scanned t x r -> scanned (c1 ++ t) (x1 ++ x) r.
Proof.
  intros Hu1 Hb Hu Hscan Hx Hq (p & esc & -> & Hp & Hr & Hs & Hv & Hun).
  exists (c1 ++ p), (esc1 || esc). split; [by rewrite app_assoc|]. split; [by rewrite Hu|]. split; [done|]. split; [|split].
  - intros w e. rewrite (Hb p Hp), <- app_assoc, Hscan, Hs. cbn [fst snd]. by rewrite blen_app, orb_assoc.
  - destruct esc1, esc; try done. intros _. by rewrite Hx, Hv.
  - rewrite <- app_assoc. by apply Hq.
Qed.

(** The text of a string, piece by piece: its value and what follows it. *)
Inductive quoted : jstr -> jstr -> jstr -> Prop :=
| q_end r : usv r = true -> quoted (34 :: r) [] r
| q_hex a b' c d u t x r : hex4 a b' c d = Some u -> quoted t x r -> quoted (([92; 117] ++ [a; b'; c; d]) ++ t) (u :: x) r
| q_esc e u t x r : e <> 117 -> simple_escape e = Some u -> quoted t x r -> quoted ([92; e] ++ t) (u :: x) r
| q_one c t x r : 32 <= c <= 65535 -> c <> 34 -> c <> 92 -> is_hi c = false -> is_lo c = false -> quoted t x r -> quoted ([c] ++ t) (c :: x) r
| q_two c d t x r : is_hi c = true -> is_lo d = true -> quoted t x r -> quoted ([c; d] ++ t) (c :: d :: x) r.

Lemma hex_piece_ascii a b' c d u : hex4 a b' c d = Some u -> ascii ([92; 117] ++ [a; b'; c; d]).
Proof. intros E. repeat (constructor; [lia|]). eapply Forall_impl; [by eapply hex4_ascii|]. intros ? [? _]. done. Qed.
Lemma esc_piece_ascii e u : simple_escape e = Some u -> ascii [92; e].
Proof. intros E. constructor; [lia|]. constructor; [by eapply escape_ascii|constructor]. Qed.
Lemma unquote_plain c t : 32 <= c -> c <> 34 -> c <> 92 -> unquote (c :: t) = ('(x, r) ← unquote t; Ok (c :: x, r)).
Proof. intros H1 H2 H3. cbn [unquote]. destruct (Z.eqb_spec c 34); [done|]. destruct (Z.ltb_spec c 32); [lia|]. by destruct (Z.eqb_spec c 92). Qed.
Lemma unquote_esc e u t : e <> 117 -> simple_escape e = Some u -> unquote ([92; e] ++ t) = ('(x, r) ← unquote t; Ok (u :: x, r)).
Proof.
  intros He Eu. cbn [app unquote]. change (92 =? 34) with false. change (92 <? 32) with false. change (92 =? 92) with true. cbv iota.
  destruct (Z.eqb_spec e 117); [done|]. by rewrite Eu.
Qed.
Lemma unquote_hex a b' c d u t : hex4 a b' c d = Some u -> unquote (([92; 117] ++ [a; b'; c; d]) ++ t) = ('(x, r) ← unquote t; Ok (u :: x, r)).
Proof.
  intros Eu. cbn [app unquote]. change (92 =? 34) with false. change (92 <? 32) with false. change (92 =? 92) with true.
  change (117 =? 117) with true. cbv iota. by rewrite Eu.
Qed.
Lemma surrogates_plain c d : is_hi c = true -> is_lo d = true -> (32 <= c /\ c <> 34 /\ c <> 92) /\ (32 <= d /\ d <> 34 /\ d <> 92).
Proof. unfold is_hi, is_lo. lia. Qed.

Lemma unquote_quoted t x r : usv t = true -> unquote t = Ok (x, r) -> quoted t x r.
Proof.
  assert (forall n t x r, (length t <= n)%nat -> usv t = true -> unquote t = Ok (x, r) -> quoted t x r) as G; [|by apply (G (length t))].
  clear t x r. induction n as [|n IH]; intros [|c t] x r Hn Ht E; cbn [length] in Hn; try lia; try done.
  destruct (Z.eqb_spec c 34) as [->|H34].
  { cbn [unquote] in E. injection E as <- <-. apply q_end. change (34 :: t) with ([34] ++ t) in Ht. by rewrite usv_app_ascii in Ht by (by constructor). }
  destruct (Z.eqb_spec c 92) as [->|H92].
  - destruct t as [|e t1]; [done|]. cbn [length] in Hn. destruct (Z.eqb_spec e 117) as [->|He].
    + destruct t1 as [|a [|b' [|c' [|d t2]]]]; try done. cbn [length] in Hn. destruct (hex4 a b' c' d) as [u|] eqn:Eh.
      2:{ cbn in E. by rewrite Eh in E. }
      change (92 :: 117 :: a :: b' :: c' :: d :: t2) with (([92; 117] ++ [a; b'; c'; d]) ++ t2) in *. rewrite (unquote_hex _ _ _ _ u) in E by done.
      apply bind_res_Ok_inv in E as ([y r'] & E & E2). injection E2 as <- <-. apply q_hex; [done|]. apply IH; [lia| |done].
      by rewrite usv_app_ascii in Ht by (by eapply hex_piece_ascii).
    + destruct (simple_escape e) as [u|] eqn:Es.
      2:{ cbn [unquote] in E. change (92 =? 34) with false in E. change (92 <? 32) with false in E. change (92 =? 92) with true in E. cbv iota in E.
          destruct (Z.eqb_spec e 117); [done|]. by rewrite Es in E. }
      change (92 :: e :: t1) with ([92; e] ++ t1) in *. rewrite (unquote_esc _ u) in E by done.
      apply bind_res_Ok_inv in E as ([y r'] & E & E2). injection E2 as <- <-. apply q_esc; [done|done|]. apply IH; [lia| |done].
      by rewrite usv_app_ascii in Ht by (by eapply esc_piece_ascii).
  - assert (32 <= c) as H32 by (cbn [unquote] in E; destruct (Z.eqb_spec c 34); [done|]; by destruct (Z.ltb_spec c 32)).
    rewrite unquote_plain in E by done. apply bind_res_Ok_inv in E as ([y r'] & E & E2). injection E2 as <- <-.
    destruct (usv_cases _ _ Ht) as [(Hh & Hl & Hc & Htt & _)|(d & t' & -> & Hh & Hl & Htt & _)].
    + apply (q_one c); [lia|done..|]. apply IH; [lia|done|done].
    + destruct (surrogates_plain _ _ Hh Hl) as [_ (Hd1 & Hd2 & Hd3)]. rewrite unquote_plain in E by done. cbn [length] in Hn.
      apply bind_res_Ok_inv in E as ([z r2] & E & E2). injection E2 as <- <-. apply (q_two c d); [done|done|]. apply IH; [lia|done|done].
Qed.

(** The bytes of a character that stands for itself. *)
Lemma utf8_one c s : is_hi c = false -> is_lo c = false -> utf8 ([c] ++ s) = enc1 c ++ utf8 s.
Proof. intros Hh Hl. cbn [app utf8]. by rewrite Hh, Hl. Qed.
Lemma utf8_two c d s : is_hi c = true -> is_lo d = true -> utf8 ([c; d] ++ s) = enc2 c d ++ utf8 s.
Proof. intros Hh Hl. cbn [app utf8]. by rewrite Hh, Hl. Qed.
Lemma usv_one c s : 0 <= c <= 65535 -> is_hi c = false -> is_lo c = false -> usv ([c] ++ s) = usv s.
Proof. intros Hc Hh Hl. cbn [app usv]. rewrite Hh, Hl. unfold between. destruct (Z.leb_spec 0 c), (Z.leb_spec c 65535); lia || done. Qed.
Lemma usv_two c d s : is_hi c = true -> is_lo d = true -> usv ([c; d] ++ s) = usv s.
Proof. intros Hh Hl. cbn [app usv]. rewrite Hh, Hl. unfold is_hi in Hh. unfold between. destruct (Z.leb_spec 0 c), (Z.leb_spec c 65535); lia || done. Qed.
Lemma enc1_plain c : 32 <= c <= 65535 -> c <> 34 -> c <> 92 -> Forall (fun b => b <> 34 /\ b <> 92) (enc1 c).
Proof.
  intros Hc H1 H2. destruct (Z.lt_ge_cases c 128); [rewrite enc1_ascii by lia; constructor; [done|constructor]|].
  eapply Forall_impl; [apply enc1_high; lia|]. intros ? ?. simpl in *. lia.
Qed.
Lemma enc2_plain c d : is_hi c = true -> is_lo d = true -> Forall (fun b => b <> 34 /\ b <> 92) (enc2 c d).
Proof. intros Hh Hl. eapply Forall_impl; [by apply enc2_high|]. intros ? ?. simpl in *. lia. Qed.

Lemma quoted_scanned t x r : quoted t x r -> scanned t x r.
Proof.
  induction 1 as [r Hr|a b' c d u t x r Eh _ IH|e u t x r He Es _ IH|c t x r Hc H1 H2 Hh Hl _ IH|c d t x r Hh Hl _ IH].
  - exists [], false. do 3 (split; [done|]). split; [|split; done]. intros w e. by rewrite orb_false_r.
  - pose proof (hex4_ascii _ _ _ _ _ Eh) as Ha. pose proof (hex_piece_ascii _ _ _ _ _ Eh) as Has. refine (scanned_step (([92; 117] ++ [a; b'; c; d])) _ [u] _ _ _ true _ _ _ _ _ _ IH).
    + rewrite <- (app_nil_r (_ ++ _)), usv_app_ascii by done. done.
    + intros s _. by rewrite utf8_app_ascii.
    + intros s. by rewrite usv_app_ascii.
    + intros w e'. rewrite <- app_assoc. change ([92; 117] ++ [a; b'; c; d] ++ w) with (92 :: 117 :: [a; b'; c; d] ++ w).
      rewrite str_scan_esc, str_scan_plain.
      2:{ eapply Forall_impl; [exact Ha|]. by intros ? [_ ?]. }
      rewrite orb_true_r. cbn [fst snd]. change (blen [a; b'; c; d]) with 4. change (blen ([92; 117] ++ [a; b'; c; d])) with 6. f_equal. lia.
    + done.
    + intros s z Hz. rewrite (unquote_hex _ _ _ _ u) by done. by rewrite Hz.
  - pose proof (esc_piece_ascii _ _ Es) as Has. refine (scanned_step [92; e] _ [u] _ _ _ true _ _ _ _ _ _ IH).
    + rewrite <- (app_nil_r [92; e]), usv_app_ascii by done. done.
    + intros s _. by rewrite utf8_app_ascii.
    + intros s. by rewrite usv_app_ascii.
    + intros w e'. change ([92; e] ++ w) with (92 :: e :: w). rewrite str_scan_esc, orb_true_r. done.
    + done.
    + intros s z Hz. rewrite (unquote_esc _ u) by done. by rewrite Hz.
  - refine (scanned_step (enc1 c) [c] [c] _ _ _ false _ _ _ _ _ _ IH).
    + rewrite <- (app_nil_r [c]), usv_one by (done || lia). done.
    + intros s _. by apply utf8_one.
    + intros s. apply usv_one; done || lia.
    + intros w e. rewrite orb_false_r. apply str_scan_plain. by apply enc1_plain.
    + done.
    + intros s z Hz. cbn [app]. rewrite unquote_plain by (done || lia). by rewrite Hz.
  - destruct (surrogates_plain _ _ Hh Hl) as [(Hc1 & Hc2 & Hc3) (Hd1 & Hd2 & Hd3)]. refine (scanned_step (enc2 c d) [c; d] [c; d] _ _ _ false _ _ _ _ _ _ IH).
    + by rewrite <- (app_nil_r [c; d]), usv_two.
    + intros s _. by apply utf8_two.
    + intros s. by apply usv_two.
    + intros w e. rewrite orb_false_r. apply str_scan_plain. by apply enc2_plain.
    + done.
    + intros s z Hz. cbn [app]. rewrite !unquote_plain by done. by rewrite Hz.
Qed.
Lemma unquote_scanned t x r : usv t = true -> unquote t = Ok (x, r) -> scanned t x r.
Proof. intros Hu E. by apply quoted_scanned, unquote_quoted. Qed.

Lemma JSON_parse_string y x : unquote (y ++ [34]) = Ok (x, []) -> JSON_parse (34 :: y ++ [34]) = Ok (VStr x).
Proof.
  intros E. unfold JSON_parse, JSON_parse_with. replace (2 * length (34%Z :: y ++ [34%Z]) + 2)%nat with (S (2 * length (34%Z :: y ++ [34%Z]) + 1)) by lia.
  cbn [jval skip_ws]. change (is_ws 34) with false. cbv iota. change (34 =? 123) with false. change (34 =? 91) with false.
  change (34 =? 34) with true. cbv iota. by rewrite E.
Qed.

Lemma buf_string_spec p t x r : sees p (34 :: t) -> unquote t = Ok (x, r) ->
  exists q, buf_string b stop p = Ok (VStr x, q) /\ sees q r.
Proof.
  intros Hs E. destruct (sees_char p 34 t ltac:(lia) Hs) as [_ Ht]. pose proof Hs as (Hu & _ & HR).
  destruct (unquote_scanned t x r) as (y & esc & -> & Hy & Hr & Hscan & Hv & Hun); [apply Ht|done|].
  unfold buf_string. rewrite (sees_window _ _ Ht), utf8_break_ascii, Hscan by lia. simpl orb.
  pose proof Ht as (_ & Hp & HRt). rewrite utf8_break_ascii in Hp, HRt by lia.
  exists (p + 1 + blen (utf8 y) + 1). split.
  - destruct esc.
    + rewrite utf8_ascii_cons, utf8_break_ascii in HR by lia. 
      replace ((34 :: utf8 y ++ 34 :: utf8 r) ++ post) with ((([34] ++ utf8 y) ++ [34]) ++ utf8 r ++ post) in HR by (cbn [app]; by rewrite <- !app_assoc).
      apply rest_at_sub in HR.
      replace (p + blen (([34] ++ utf8 y) ++ [34])) with (p + 1 + blen (utf8 y) + 1) in HR by (rewrite !blen_app; change (blen [34]) with 1; lia).
      replace (p + 1 - 1) with p by lia. rewrite HR.
      assert (([34] ++ utf8 y) ++ [34] = utf8 (34 :: y ++ [34])) as ->.
      { rewrite utf8_ascii_cons, utf8_break_ascii by lia. done. }
      rewrite utf8_roundtrip; [by rewrite (JSON_parse_string y x Hun)|].
      change (34 :: y ++ [34]) with ([34] ++ y ++ [34]). rewrite usv_app_ascii by (by constructor). apply usv_snoc; [done|lia].
    + rewrite <- app_assoc in HRt. apply rest_at_sub in HRt. rewrite HRt, utf8_roundtrip by done. by rewrite Hv.
  - apply (sees_char _ 34 r); [lia|]. split; [|split].
    + change (34 :: r) with ([34] ++ r). by rewrite usv_app_ascii by (by constructor).
    + rewrite utf8_ascii_cons by lia. rewrite blen_app in Hp. lia.
    + rewrite utf8_ascii_cons by lia. rewrite <- app_assoc in HRt. by apply rest_at_app in HRt.
Qed.

(** ** Numbers *)

Lemma Number_tok d : jtok_ok d -> Number (jtok_text d) = jtok_num d.
Proof.
  intros (Hi & Hne & _ & Hf & Hx). destruct (digit_head _ Hi Hne) as (c & t & Eip & Hc). unfold Number, jtok_text.
  set (ft := match jfp d with None => [] | Some f => 46 :: f end). set (xt := match jex d with None => [] | Some (c, s, x) => c :: s ++ x end).
  assert (sign_of ((if jneg d then [45] else []) ++ jip d ++ ft ++ xt) = (jneg d, jip d ++ ft ++ xt)) as ->.
  { destruct (jneg d); [done|]. rewrite Eip. by apply sign_of_digit. }
  match goal with |- context [Nat.eqb (length ?x) O] => destruct (Nat.eqb_spec (length x) O) as [E0|_] end.
  { exfalso. revert E0. rewrite Eip, !length_app. simpl. lia. }
  rewrite bool_decide_false by (rewrite Eip; cbn [app]; change (js "Infinity") with (73 :: js "nfinity"); intros [= E _]; lia).
  assert (match xt with c :: _ => is_digit c = false /\ c <> 46 | [] => True end) as Hxt.
  { unfold xt. destruct (jex d) as [[[e s] x]|]; [|done]. destruct (Hx _ _ _ eq_refl) as ([-> | ->] & _); done. }
  rewrite span_digits_app; [|done|].
  2:{ unfold ft. destruct (jfp d); [done|]. cbn [app]. by destruct xt; [|apply Hxt]. }
  assert (match ft ++ xt with c :: t => if c =? 46 then span_digits t else ([], ft ++ xt) | [] => ([], []) end = (default [] (jfp d), xt)) as ->.
  { unfold ft. destruct (jfp d) as [f|] eqn:Ef; cbn [app].
    - change (46 =? 46) with true. cbv iota. apply span_digits_app; [by apply (Hf f)|]. by destruct xt; [|apply Hxt].
    - destruct xt as [|e xt']; [done|]. destruct Hxt as [_ Hxt]. by destruct (Z.eqb_spec e 46). }
  unfold jtok_num, jtok_exp, xt. rewrite Eip. cbn [app].
  destruct (jex d) as [[[e s] x]|]; [|done]. destruct (Hx _ _ _ eq_refl) as (He & Hs & Hxd & Hxne).
  replace ((e =? 101) || (e =? 69)) with true by (destruct He as [-> | ->]; done).
  destruct (digit_head _ Hxd Hxne) as (cx & tx & Ex & Hcx).
  assert (sign_of (s ++ x) = (bool_decide (s = [45]), x)) as ->.
  { destruct Hs as [-> |[-> | ->]]; [rewrite Ex; by apply sign_of_digit|done|done]. }
  assert (span_digits x = (x, [])) as -> by (rewrite <- (app_nil_r x) at 1; by apply span_digits_app).
  by rewrite Ex.
Qed.

Lemma int_loop_ge w a : all_digits w -> 9007199254740992 <= a -> 9007199254740992 <= int_loop w a.
Proof.
  intros Hw. revert a. induction Hw as [|c w Hc _ IH]; intros a Ha; [done|]. cbn [int_loop]. apply IH.
  apply fl_ge; [lia|]. pose proof (fl_ge 9007199254740992 (a * 10) ltac:(lia) ltac:(lia)). lia.
Qed.
Lemma int_loop_app u w a : int_loop (u ++ w) a = int_loop w (int_loop u a).
Proof. revert a. induction u as [|c u IH]; intros a; [done|]. cbn [app int_loop]. apply IH. Qed.

(** The digit loop may drift, but tells a safe integer from an unsafe one. *)
Lemma int_loop_safe w : all_digits w -> w <> [] -> (hd 0 w = 48 -> w = [48]) ->
  if digits_val w <=? MAX_SAFE then int_loop w 0 = digits_val w else MAX_SAFE < int_loop w 0.
Proof.
  intros Hw Hne Hz. unfold MAX_SAFE. destruct (Nat.le_gt_cases (length w) 16) as [Hl|Hl].
  - rewrite int_loop_spec by (done || unfold blen; lia). pose proof (digits_val_bound w Hw).
    destruct (Z.leb_spec (digits_val w) 9007199254740991); [apply fl_small; change (2 ^ 53) with 9007199254740992; lia|].
    pose proof (fl_ge 9007199254740992 (digits_val w)). lia.
  - rewrite <- (take_drop 16 w). assert (length (take 16 w) = 16%nat) as L by (rewrite length_take; lia).
    assert (all_digits (take 16 w) /\ all_digits (drop 16 w)) as [Ht Hd] by (split; [by apply Forall_take|by apply Forall_drop]).
    destruct (drop 16 w) as [|c r] eqn:Ed; [apply (f_equal length) in Ed; rewrite length_drop in Ed; simpl in Ed; lia|].
    assert (10 ^ 15 <= digits_val (take 16 w)) as Hv.
    { destruct w as [|c0 w]; [done|]. cbn [take] in *. set (u := take 15 w) in *. inversion Ht as [|? ? Hc0 Hu]; subst.
      assert (length u = 15%nat) as Lu by (simpl in L; lia). change (c0 :: u) with ([c0] ++ u). rewrite digits_val_app, Lu.
      change (digits_val [c0]) with (0 * 10 + (c0 - 48)). pose proof (digits_val_bound u Hu). assert (c0 <> 48) by (intros ->; specialize (Hz eq_refl); injection Hz as ->; done).
      change (10 ^ Z.of_nat 15) with (10 ^ 15). lia. }
    change (10 ^ 15) with 1000000000000000 in Hv. inversion Hd as [|? ? Hc Hr]; subst.
    assert (9007199254740992 <= int_loop (take 16 w ++ c :: r) 0) as G.
    { rewrite int_loop_app. cbn [int_loop]. apply int_loop_ge; [done|]. rewrite int_loop_spec by (done || unfold blen; lia).
      pose proof (fl_ge 1000000000000000 (digits_val (take 16 w)) ltac:(lia) Hv).
      pose proof (fl_ge 9007199254740992 (fl (digits_val (take 16 w)) * 10) ltac:(lia) ltac:(lia)). apply fl_ge; lia. }
    destruct (Z.leb_spec (digits_val (take 16 w ++ c :: r)) 9007199254740991) as [B|]; [exfalso|lia].
    rewrite digits_val_app in B. assert (all_digits (c :: r)) as Hcr by (by constructor). pose proof (digits_val_bound _ Hcr).
    assert (10 <= 10 ^ Z.of_nat (length (c :: r))) by (change 10 with (10 ^ 1) at 1; apply Z.pow_le_mono_r; simpl; lia). nia.
Qed.

Lemma digit_not_float c : 48 <= c <= 57 -> float_char c = false.
Proof.
  intros. unfold float_char. destruct (Z.eqb_spec c 46), (Z.eqb_spec c 101), (Z.eqb_spec c 69), (Z.eqb_spec c 43), (Z.eqb_spec c 45); lia || done.
Qed.
Lemma digits_no_float w : all_digits w -> existsb float_char w = false.
Proof. induction 1 as [|c w Hc _ IH]; [done|]. cbn [existsb]. by rewrite digit_not_float, IH. Qed.
Lemma digits_num_char w : all_digits w -> Forall (fun c => num_char c = true) w.
Proof.
  intros H. eapply Forall_impl; [exact H|]. intros c Hc. cbv beta in Hc. unfold num_char.
  destruct (Z.leb_spec 48 c), (Z.leb_spec c 57); lia || done.
Qed.

(** The token after its sign. *)
Definition tok_body (d : jtok) : jstr :=
  jip d ++ match jfp d with None => [] | Some f => 46 :: f end ++ match jex d with None => [] | Some (c, s, x) => c :: s ++ x end.
Lemma tok_body_chars d : jtok_ok d -> Forall (fun c => num_char c = true) (tok_body d)
  /\ existsb float_char (tok_body d) = negb (bool_decide (is_int d)).
Proof.
  intros (Hi & _ & _ & Hf & Hx). unfold tok_body, is_int. rewrite !existsb_app, (digits_no_float _ Hi). cbn [orb].
  split.
  - apply Forall_app. split; [by apply digits_num_char|]. apply Forall_app. split.
    + destruct (jfp d) as [f|]; [|constructor]. constructor; [done|]. apply digits_num_char. by apply Hf.
    + destruct (jex d) as [[[c s] x]|]; [|constructor]. destruct (Hx _ _ _ eq_refl) as (Hc & Hs & Hxd & _).
      constructor; [destruct Hc as [-> | ->]; done|]. apply Forall_app. split; [|by apply digits_num_char].
      destruct Hs as [-> |[-> | ->]]; repeat constructor.
  - destruct (jfp d) as [f|]; [rewrite bool_decide_false by (by intros [? _]); done|].
    destruct (jex d) as [[[c s] x]|]; [rewrite bool_decide_false by (by intros [_ ?])|done].
    destruct (Hx _ _ _ eq_refl) as ([-> | ->] & _); done.
Qed.
Lemma num_chars_ascii w : Forall (fun c => num_char c = true) w -> ascii w.
Proof.
  intros H. eapply Forall_impl; [exact H|]. intros c Hc. cbv beta in *. destruct (Z.lt_ge_cases c 128) as [|Hge]; [|by rewrite num_char_low in Hc].
  split; [|done]. destruct (Z.le_gt_cases 0 c); [done|]. unfold num_char in Hc.
  destruct (Z.leb_spec 48 c), (Z.eqb_spec c 46), (Z.eqb_spec c 101), (Z.eqb_spec c 69), (Z.eqb_spec c 43), (Z.eqb_spec c 45); lia || done.
Qed.

Definition follow (r : jstr) : Prop := match r with c :: _ => num_char c = false | [] => True end.

Lemma BigInt_tok d : jtok_ok d -> is_int d -> BigInt_text (jtok_text d) = Ok (VBig (int_tok_val (jtok_text d))).
Proof.
  intros Hok Hi. destruct (INT_TOKEN_of_int _ Hok Hi) as (_ & -> & _). destruct Hi as [Ef Ex]. destruct Hok as (Hd & Hne & _).
  unfold jtok_text. rewrite Ef, Ex. cbn [app]. rewrite app_nil_r. destruct (digit_head _ Hd Hne) as (c & t & E & Hc). unfold BigInt_text.
  assert (span_digits (jip d) = (jip d, [])) as Es by (rewrite <- (app_nil_r (jip d)) at 1; by apply span_digits_app).
  destruct (jneg d).
  - cbn [app sign_of]. change (45 =? 45) with true. cbv iota. rewrite Es, E. do 2 f_equal.
  - cbn [app]. rewrite E in *. rewrite sign_of_digit, Es by done. do 2 f_equal. lia.
Qed.

Context (big : JsonBigints).

Lemma buf_number_spec p s x r : sees p s -> json_number s = Ok (x, r) -> follow r ->
  exists q, buf_number b stop big p = Ok (exact_num big (take (length s - length r) s) x, q) /\ sees q r.
Proof.
  intros Hs E Hr. apply json_number_inv in E as (d & -> & Hok & _ & ->). rewrite take_app_exact by (rewrite length_app; lia).
  destruct (tok_body_chars d Hok) as [Hb Hfl]. pose proof (num_chars_ascii _ Hb) as Hba.
  set (sg := if jneg d then [45] else [] : jstr). assert (jtok_text d = sg ++ tok_body d) as Et by done.
  assert (ascii sg) as Hsg by (unfold sg; destruct (jneg d); repeat constructor; lia).
  pose proof Hs as Hs0. rewrite Et, <- app_assoc in Hs. pose proof (sees_ascii _ _ _ Hsg Hs) as Hs1. pose proof (sees_ascii _ _ _ Hba Hs1) as Hs2.
  exists (p + blen sg + blen (tok_body d)). split; [|done].
  assert (bool_decide (at_ b p = Some 45) = jneg d) as Eneg.
  { destruct Hok as (Hi & Hne & _). destruct (digit_head _ Hi Hne) as (c & t & Eip & Hc). unfold sg, tok_body in Hs. rewrite Eip in Hs.
    destruct (jneg d); cbn [app] in Hs; rewrite (sees_at p _ _ 45 ltac:(lia) Hs); [done|]. apply Z.eqb_neq. lia. }
  unfold buf_number. rewrite Eneg. assert ((if jneg d then p + 1 else p) = p + blen sg) as -> by (unfold sg; destruct (jneg d); [done|change (blen []) with 0; lia]).
  rewrite (sees_window _ _ Hs1), utf8_app_ascii, run_app, (utf8_stop _ _ (proj1 Hs2) num_char_low Hr), Z.add_0_r by done.
  assert (subarray b (p + blen sg) (p + blen sg + blen (tok_body d)) = tok_body d) as ->.
  { destruct Hs1 as (_ & _ & HR). rewrite utf8_app_ascii, <- app_assoc in HR by done. by apply rest_at_sub in HR. }
  assert (ascii (jtok_text d)) as Hta by (rewrite Et; by apply Forall_app).
  assert (utf8_decode (subarray b p (p + blen sg + blen (tok_body d))) = jtok_text d) as ->.
  { destruct Hs0 as (_ & _ & HR). rewrite utf8_app_ascii, <- app_assoc in HR by done. apply rest_at_sub in HR.
    replace (p + blen sg + blen (tok_body d)) with (p + blen (jtok_text d)) by (rewrite Et, blen_app; lia).
    rewrite HR, <- (app_nil_r (jtok_text d)) at 1. rewrite utf8_decode_ascii by done. apply app_nil_r. }
  rewrite Hfl, Number_tok by done. destruct (decide (is_int d)) as [Hint|Hint]; [rewrite bool_decide_true by done|rewrite bool_decide_false by done]; cbn [negb orb].
  2:{ unfold exact_num. destruct (INT_TOKEN (jtok_text d)) eqn:Ei; [|done]. by pose proof (INT_TOKEN_int _ Hok Ei). }
  destruct (INT_TOKEN_of_int _ Hok Hint) as (Ei & Ev & En). unfold exact_num. rewrite Ei. cbn [andb].
  destruct (decide (big = JNumber)) as [Hm|Hm]; [rewrite bool_decide_true by done; by rewrite andb_false_r|rewrite bool_decide_false by done].
  cbn [negb]. rewrite andb_true_r, (BigInt_tok _ Hok Hint).
  assert (tok_body d = jip d) as -> by (unfold tok_body; destruct Hint as [-> ->]; cbn [app]; apply app_nil_r).
  pose proof Hok as (Hi & Hne & Hz & _). pose proof (int_loop_safe _ Hi Hne Hz) as Hsafe. pose proof (digits_val_bound _ Hi) as Hv.
  rewrite Ev. assert (Z.abs (if jneg d then - digits_val (jip d) else digits_val (jip d)) = digits_val (jip d)) as -> by (destruct (jneg d); lia).
  destruct (Z.leb_spec (digits_val (jip d)) MAX_SAFE) as [Hle|Hgt].
  - rewrite Hsafe. destruct (Z.leb_spec (digits_val (jip d)) MAX_SAFE); [|lia]. destruct (Z.ltb_spec MAX_SAFE (digits_val (jip d))); [lia|].
    rewrite En. do 3 f_equal. unfold neg_num, of_Z. destruct (Z.ltb_spec (digits_val (jip d)) 0); [lia|]. rewrite Z.abs_eq by lia.
    destruct (jneg d); [apply nneg_rnd|done].
  - destruct (Z.leb_spec (int_loop (jip d) 0) MAX_SAFE); [lia|]. destruct (Z.ltb_spec MAX_SAFE (digits_val (jip d))); [|lia].
    unfold keep_exact. rewrite Ev. by destruct big.
Qed.

(** ** Values *)
Abbreviation h := (exact_num big).

Lemma skip_ws_idem s : skip_ws (skip_ws s) = skip_ws s.
Proof. destruct (skip_ws_split s) as (_ & _ & _ & Hs). destruct (skip_ws s) as [|c t]; [done|]. cbn [skip_ws]. by rewrite Hs. Qed.
Lemma jval_ws f s : jval h f (skip_ws s) = jval h f s.
Proof. destruct f; [done|]. cbn [jval]. by rewrite skip_ws_idem. Qed.
Lemma jelems_ws f s : jelems h f (skip_ws s) = jelems h f s.
Proof. destruct f; [done|]. cbn [jelems]. by rewrite jval_ws. Qed.
Lemma jmembers_ws f s acc : jmembers h f (skip_ws s) acc = jmembers h f s acc.
Proof. destruct f; [done|]. cbn [jmembers]. by rewrite skip_ws_idem. Qed.
Lemma follow_skip r : follow (skip_ws r) -> follow r.
Proof.
  destruct r as [|c t]; [done|]. cbn [skip_ws]. destruct (is_ws c) eqn:E; [|done]. intros _. cbn [follow].
  unfold is_ws in E. repeat (apply orb_true_iff in E as [E|E]); apply Z.eqb_eq in E; by subst.
Qed.

Lemma word_spec p w v s x r : sees p s -> ascii w -> word w v s = Ok (x, r) -> x = v /\ sees (p + blen w) r.
Proof.
  intros Hs Hw. unfold word. destruct (bool_decide_reflect (take (length w) s = w)) as [E|]; [|done]. intros [= <- <-]. split; [done|].
  apply sees_ascii; [done|]. rewrite <- E at 1. by rewrite take_drop.
Qed.

Definition value_spec (f : nat) : Prop := forall g s p v r, (f <= g)%nat -> sees p s -> jval h f s = Ok (v, r) -> follow r ->
  exists q, buf_value b stop big g p = Ok (v, q) /\ sees q r.
Definition elems_spec (f : nat) : Prop := forall g s p l r, (f <= g)%nat -> sees p s -> jelems h f s = Ok (l, r) ->
  exists q, buf_elems b stop big g p = Ok (l, q) /\ sees q r.
Definition members_spec (f : nat) : Prop := forall g s p acc l r, (f <= g)%nat -> sees p s -> jmembers h f s acc = Ok (l, r) ->
  exists q, buf_members b stop big g p acc = Ok (l, q) /\ sees q r.

(** The parser's equations. *)
Lemma buf_value_S g p : buf_value b stop big (S g) p =
  let p := ws b stop p in
  let c := at_ b p in
  if bool_decide (c = Some 123) then
    let p := ws b stop (p + 1) in
    if bool_decide (at_ b p = Some 125) then Ok (VObj [], p + 1)
    else '(fs, p) ← buf_members b stop big g p []; Ok (VObj fs, p)
  else if bool_decide (c = Some 91) then
    let p := ws b stop (p + 1) in
    if bool_decide (at_ b p = Some 93) then Ok (VArr [], p + 1)
    else '(l, p) ← buf_elems b stop big g p; Ok (VArr l, p)
  else if bool_decide (c = Some 34) then buf_string b stop p
  else if bool_decide (c = Some 116) then Ok (VBool true, p + 4)
  else if bool_decide (c = Some 102) then Ok (VBool false, p + 5)
  else if bool_decide (c = Some 110) then Ok (VNull, p + 4)
  else buf_number b stop big p.
Proof. done. Qed.
Lemma buf_elems_S g p : buf_elems b stop big (S g) p =
  '(v, p) ← buf_value b stop big g p;
  let p := ws b stop p in
  if bool_decide (at_ b p = Some 44) then '(l, p) ← buf_elems b stop big g (p + 1); Ok (v :: l, p) else Ok ([v], p + 1).
Proof. done. Qed.
Lemma buf_members_S g p acc : buf_members b stop big (S g) p acc =
  let p := ws b stop p in
  '(k, p) ← buf_string b stop p;
  let p := ws b stop p + 1 in
  '(v, p) ← buf_value b stop big g p;
  let acc := set_key (key_of k) v acc in
  let p := ws b stop p in
  if bool_decide (at_ b p = Some 44) then buf_members b stop big g (p + 1) acc else Ok (acc, p + 1).
Proof. done. Qed.

Lemma value_step f : elems_spec f -> members_spec f -> value_spec (S f).
Proof.
  intros IHe IHm [|g] s p v r Hg Hs E Hr; [lia|]. rewrite buf_value_S. cbn [jval] in E. cbv zeta. pose proof (sees_ws _ _ Hs) as Hw.
  set (q0 := ws b stop p) in *. clearbody q0. destruct (skip_ws s) as [|c t]; [done|].
  rewrite !(sees_at q0 c t) by (done || lia).
  destruct (Z.eqb_spec c 123) as [->|].
  { destruct (sees_char q0 123 t ltac:(lia) Hw) as [_ Ht]. pose proof (sees_ws _ _ Ht) as Hw2. rewrite <- jmembers_ws in E.
    set (q1 := ws b stop (q0 + 1)) in *. clearbody q1. destruct (skip_ws t) as [|d r1]; [done|]. rewrite (sees_at q1 d r1) by (done || lia).
    destruct (Z.eqb_spec d 125) as [->|].
    - injection E as <- <-. eexists. split; [done|]. by apply (sees_char q1 125).
    - apply bind_res_Ok_inv in E as ([fs r2] & E & E2). injection E2 as <- <-.
      destruct (IHm g _ q1 _ _ _ ltac:(lia) Hw2 E) as (q & -> & Hq). by exists q. }
  destruct (Z.eqb_spec c 91) as [->|].
  { destruct (sees_char q0 91 t ltac:(lia) Hw) as [_ Ht]. pose proof (sees_ws _ _ Ht) as Hw2. rewrite <- jelems_ws in E.
    set (q1 := ws b stop (q0 + 1)) in *. clearbody q1. destruct (skip_ws t) as [|d r1]; [done|]. rewrite (sees_at q1 d r1) by (done || lia).
    destruct (Z.eqb_spec d 93) as [->|].
    - injection E as <- <-. eexists. split; [done|]. by apply (sees_char q1 93).
    - apply bind_res_Ok_inv in E as ([l r2] & E & E2). injection E2 as <- <-.
      destruct (IHe g _ q1 _ _ ltac:(lia) Hw2 E) as (q & -> & Hq). by exists q. }
  destruct (Z.eqb_spec c 34) as [->|].
  { apply bind_res_Ok_inv in E as ([x r2] & E & E2). injection E2 as <- <-. by apply (buf_string_spec q0 t). }
  destruct (Z.eqb_spec c 116) as [->|].
  { apply (word_spec q0) in E as [-> Hq]; [by eexists|done|repeat constructor; lia]. }
  destruct (Z.eqb_spec c 102) as [->|].
  { apply (word_spec q0) in E as [-> Hq]; [by eexists|done|repeat constructor; lia]. }
  destruct (Z.eqb_spec c 110) as [->|].
  { apply (word_spec q0) in E as [-> Hq]; [by eexists|done|repeat constructor; lia]. }
  apply bind_res_Ok_inv in E as ([x r2] & E & E2). injection E2 as <- <-. by apply (buf_number_spec q0 (c :: t)).
Qed.

Lemma elems_step f : value_spec f -> elems_spec f -> elems_spec (S f).
Proof.
  intros IHv IHe [|g] s p l r Hg Hs E; [lia|]. rewrite buf_elems_S. cbn [jelems] in E.
  apply bind_res_Ok_inv in E as ([v r1] & Ev & E). cbn beta iota in E.
  assert (follow r1) as Hf.
  { apply follow_skip. destruct (skip_ws r1) as [|c t]; [done|]. cbn [follow]. destruct (Z.eqb_spec c 44) as [->|]; [done|].
    by destruct (Z.eqb_spec c 93) as [->|]. }
  destruct (IHv g _ _ _ _ ltac:(lia) Hs Ev Hf) as (q & -> & Hq). cbn [mbind res_bind]. cbv zeta. pose proof (sees_ws _ _ Hq) as Hw.
  set (q1 := ws b stop q) in *. clearbody q1. destruct (skip_ws r1) as [|c t]; [done|]. rewrite (sees_at q1 c t) by (done || lia).
  destruct (Z.eqb_spec c 44) as [->|].
  - apply bind_res_Ok_inv in E as ([l' r2] & E & E2). injection E2 as <- <-. destruct (sees_char q1 44 t ltac:(lia) Hw) as [_ Ht].
    destruct (IHe g _ _ _ _ ltac:(lia) Ht E) as (q' & -> & Hq'). by exists q'.
  - destruct (Z.eqb_spec c 93) as [->|]; [|done]. injection E as <- <-. eexists. split; [done|]. by apply (sees_char q1 93).
Qed.

Lemma members_step f : value_spec f -> members_spec f -> members_spec (S f).
Proof.
  intros IHv IHm [|g] s p acc l r Hg Hs E; [lia|]. rewrite buf_members_S. cbn [jmembers] in E. cbv zeta. pose proof (sees_ws _ _ Hs) as Hw.
  set (q0 := ws b stop p) in *. clearbody q0. destruct (skip_ws s) as [|c t]; [done|]. destruct (Z.eqb_spec c 34) as [->|]; [|done].
  apply bind_res_Ok_inv in E as ([k r1] & Ek & E). cbn beta iota in E. destruct (buf_string_spec q0 t _ _ Hw Ek) as (q & -> & Hq).
  cbn [mbind res_bind]. pose proof (sees_ws _ _ Hq) as Hw2. set (q1 := ws b stop q) in *. clearbody q1.
  destruct (skip_ws r1) as [|d r2]; [done|]. destruct (Z.eqb_spec d 58) as [->|]; [|done]. destruct (sees_char q1 58 r2 ltac:(lia) Hw2) as [_ Hv].
  apply bind_res_Ok_inv in E as ([v r3] & Ev & E). cbn beta iota in E.
  assert (follow r3) as Hf.
  { apply follow_skip. destruct (skip_ws r3) as [|e t']; [done|]. cbn [follow]. destruct (Z.eqb_spec e 44) as [->|]; [done|].
    by destruct (Z.eqb_spec e 125) as [->|]. }
  destruct (IHv g _ _ _ _ ltac:(lia) Hv Ev Hf) as (q2 & -> & Hq2). cbn [mbind res_bind key_of]. pose proof (sees_ws _ _ Hq2) as Hw3.
  set (q3 := ws b stop q2) in *. clearbody q3. destruct (skip_ws r3) as [|e t']; [done|]. rewrite (sees_at q3 e t') by (done || lia).
  destruct (Z.eqb_spec e 44) as [->|].
  - destruct (sees_char q3 44 t' ltac:(lia) Hw3) as [_ Ht]. apply (IHm g t'); [lia|done|exact E].
  - destruct (Z.eqb_spec e 125) as [->|]; [|done]. injection E as <- <-. eexists. split; [done|]. by apply (sees_char q3 125).
Qed.

Lemma buf_spec f : value_spec f /\ elems_spec f /\ members_spec f.
Proof.
  induction f as [|f (IHv & IHe & IHm)]; [repeat split; by intros g s p|].
  split; [by apply value_step|]. split; [by apply elems_step|by apply members_step].
Qed.
End At.

(** C32: The byte-level JSON parser is JSON.parse with exact integers: on every JSON
    text, wherever it lies in a larger buffer, parseJsonBuffer returns the value
    JSON.parse returns, except that an integer token beyond 2^53 is kept as its digit
    string or as a BigInt, as the mode says. The two routes of the fallback decoder,
    for texts with and without a long digit run, agree on it. *)
Theorem parseJsonBuffer_exact mode pre s post v :
  usv s = true -> JSON_parse_with (exact_num mode) s = Ok v ->
  parseJsonBuffer (pre ++ utf8 s ++ post) (blen pre) (blen pre + blen (utf8 s)) mode = Ok v
  /\ bigintJsonParser false mode s (Some (utf8 s)) = Ok v.
Proof.
  intros Hu E.
  assert (forall pre post, parseJsonBuffer (pre ++ utf8 s ++ post) (blen pre) (blen pre + blen (utf8 s)) mode = Ok v) as G.
  { clear pre post. intros pre post. unfold JSON_parse_with in E. apply bind_res_Ok_inv in E as ([v' r] & E & E2). cbn beta iota in E2.
    assert (v' = v /\ skip_ws r = []) as [-> Er] by (destruct (skip_ws r); [injection E2 as <-; done|done]).
    pose proof (rest_at_app _ _ _ _ (rest_at_0 (pre ++ utf8 s ++ post))) as HR. rewrite Z.add_0_l in HR.
    assert (follow r) as Hf by (apply follow_skip; by rewrite Er).
    unfold parseJsonBuffer. replace (blen pre + blen (utf8 s) - blen pre) with (blen (utf8 s)) by lia.
    assert (Z.to_nat (blen (utf8 s)) = length (utf8 s)) as -> by (unfold blen; lia).
    pose proof (utf8_length_ge s Hu) as Hl.
    destruct (proj1 (buf_spec (pre ++ utf8 s ++ post) (blen pre + blen (utf8 s)) post mode (2 * length s + 2))
      (2 * length (utf8 s) + 2)%nat s (blen pre) v r) as (q & -> & _); [lia|done|done|done|done]. }
  split; [apply G|]. unfold bigintJsonParser. destruct (BIG_INT s) eqn:B; cbn [negb default from_option id].
  - specialize (G [] []). rewrite app_nil_r in G. exact G.
  - rewrite <- (parse_with_same (exact_num mode)); [done| |done]. intros d Hok Hshort. unfold exact_num.
    destruct (INT_TOKEN (jtok_text d)) eqn:Et; [|done]. pose proof (INT_TOKEN_int _ Hok Et) as Hi.
    destruct (INT_TOKEN_of_int _ Hok Hi) as (_ & -> & _). specialize (Hshort Hi). destruct Hok as (Hd & _).
    pose proof (digits_val_bound _ Hd) as Hb. unfold blen in Hb. assert (10 ^ Z.of_nat (length (jip d)) <= 10 ^ 15) by (apply Z.pow_le_mono_r; lia).
    change (10 ^ 15) with 1000000000000000 in *. unfold MAX_SAFE.
    destruct (Z.ltb_spec 9007199254740991 (Z.abs (if jneg d then - digits_val (jip d) else digits_val (jip d)))); [destruct (jneg d); lia|done].
Qed.

Definition demo_json : jstr := [123; 34; 105; 92; 110; 34] ++ js ": [9007199254740993, -1.5e1, true]}".
Lemma parseJsonBuffer_exact_witness : exists v,
  JSON_parse_with (exact_num JBigint) demo_json = Ok v
  /\ parseJsonBuffer ([9] ++ utf8 demo_json ++ [8]) 1 (blen [9] + blen (utf8 demo_json)) JBigint = Ok v.
Proof.
  eexists. split; [vm_compute; reflexivity|].
  refine (proj1 (parseJsonBuffer_exact JBigint [9] demo_json [8] _ _ _)); vm_compute; reflexivity.
Defined.
