(* ===== verification/ExtTypes.v ===== *)
(** * Extension types (src/geo.ts and src/registry.ts)

    The parsers of point, line and pgvector texts, and the registry of
    user-defined types: both answer "is there a decoder for this column?" to the
    dispatchers of Decode.v. *)

From S2P Require Import Prelude Utf8 Text Buf Num Dates Value NumText Json.

(** A column's declared JS target. *)
Abbreviation Target := (option string).
Definition tgt (js : Target) (s : string) : bool := bool_decide (js = Some s).
Definition CellDecoder : Type := bytes -> Z -> Z -> res value.
Definition Leaf : Type := jstr -> res value.

Definition utf8_at (b : bytes) (o l : Z) : jstr := utf8_decode (subarray b o (o + l)).
Definition lat1_at : bytes -> Z -> Z -> jstr := lat1.

(** ** geo.ts *)
Module Geo.

Definition OID_POINT : Z := 600.
Definition OID_LINE : Z := 628.
Definition EXT_VECTOR : Z := -1000.
Definition EXT_HALFVEC : Z := -1002.
Definition EXT_SPARSEVEC : Z := -1003.

Definition num_of (s : jstr) : value := VNum (Number s).
Definition COMMA : Z := 44.

Definition parsePoint (s : jstr) : value :=
  let c := indexOf s COMMA 0 in
  VObj [(js "x", num_of (slice s 1 c)); (js "y", num_of (slice s (c + 1) (-1)))].
Definition parsePointTuple (s : jstr) : value :=
  let c := indexOf s COMMA 0 in
  VArr [num_of (slice s 1 c); num_of (slice s (c + 1) (-1))].
Definition line_parts (s : jstr) : list value :=
  let c1 := indexOf s COMMA 0 in
  let c2 := indexOf s COMMA (c1 + 1) in
  [num_of (slice s 1 c1); num_of (slice s (c1 + 1) c2); num_of (slice s (c2 + 1) (-1))].
Definition parseLineAbc (s : jstr) : value := VObj (zip [js "a"; js "b"; js "c"] (line_parts s)).
Definition parseLineTuple (s : jstr) : value := VArr (line_parts s).

Definition parseVector (s : jstr) : res value := JSON_parse s.
(** Float32Array.from(JSON.parse(s)): the numbers, rounded to single precision. *)
Definition to_f32 (v : value) : value := match v with VNum x => VNum (fround x) | _ => v end.
Definition parseF32 (s : jstr) : res value :=
  v ← JSON_parse s; match v with VArr l => Ok (VArr (to_f32 <$> l)) | _ => Ok (VArr []) end.

Record SparseVec := mkSparse { dim : num; indices : list num; values : list num }.
Definition lastIndexOf (s : jstr) (c : Z) : Z :=
  match find_from (fun x => x =? c) (rev s) 0 with Some i => blen s - 1 - Z.of_nat i | None => -1 end.
Definition parseSparsevec (s : jstr) : SparseVec :=
  let slash := lastIndexOf s 47 in
  let dim := Number (slice_from s (slash + 1)) in
  let body := slice s 1 (slash - 1) in
  let pairs := if (length body =? 0)%nat then [] else split COMMA body [] in
  let at_colon (p : jstr) := let c := indexOf p 58 0 in (Number (slice p 0 c), Number (slice_from p (c + 1))) in
  mkSparse dim (fst ∘ at_colon <$> pairs) (snd ∘ at_colon <$> pairs).
Definition sparse_value (v : SparseVec) : value :=
  VObj [(js "dim", VNum (dim v)); (js "indices", VArr (VNum <$> indices v)); (js "values", VArr (VNum <$> values v))].

(** out[i] = x: an index past the end extends the array with holes, and one that is
    not a natural number only names a property. *)
Definition set_at (out : list value) (i : num) (x : value) : list value :=
  match int_of i with
  | Some z => if z <? 0 then out
              else let k := Z.to_nat z in
                   if (k <? length out)%nat then <[k := x]> out else out ++ replicate (k - length out) VUndef ++ [x]
  | None => out
  end.
Definition minus1 (x : num) : num := match int_of x with Some z => of_Z (z - 1) | None => NaN end.
(** new Array(dim) wants a uint32. *)
Definition sparseToDense (v : SparseVec) : res value :=
  match int_of (dim v) with
  | Some d =>
    if (0 <=? d) && (d <=? 4294967295) then
      Ok (VArr (foldl (fun out p => set_at out (minus1 p.1) (VNum p.2)) (replicate (Z.to_nat d) (VNum (of_Z 0)))
                      (zip (indices v) (values v))))
    else Throw RangeError
  | None => Throw RangeError
  end.

(** The parse targets; bare declarations are raw text, for the string machinery. *)
Definition extLeafFor (elem : Z) (j : Target) : option Leaf :=
  if elem =? OID_POINT then
    if tgt j "xy" then Some (fun s => Ok (parsePoint s)) else if tgt j "tuple" then Some (fun s => Ok (parsePointTuple s)) else None
  else if elem =? OID_LINE then
    if tgt j "abc" then Some (fun s => Ok (parseLineAbc s)) else if tgt j "tuple" then Some (fun s => Ok (parseLineTuple s)) else None
  else if (elem =? EXT_VECTOR) || (elem =? EXT_HALFVEC) then
    if tgt j "array" then Some parseVector else if tgt j "f32" then Some parseF32 else None
  else if elem =? EXT_SPARSEVEC then
    if tgt j "sparse" then Some (fun s => Ok (sparse_value (parseSparsevec s)))
    else if tgt j "array" then Some (fun s => sparseToDense (parseSparsevec s)) else None
  else None.

Definition on_text (f : Leaf) : CellDecoder := fun b o l => f (utf8_at b o l).
Definition extAt (oid : Z) (j : Target) : option CellDecoder :=
  if oid =? OID_POINT then
    if tgt j "xy" then Some (on_text (fun s => Ok (parsePoint s)))
    else if tgt j "tuple" then Some (on_text (fun s => Ok (parsePointTuple s))) else None
  else if oid =? OID_LINE then
    if tgt j "abc" then Some (on_text (fun s => Ok (parseLineAbc s)))
    else if tgt j "tuple" then Some (on_text (fun s => Ok (parseLineTuple s))) else None
  else if oid =? EXT_VECTOR then
    if tgt j "array" then Some (on_text parseVector) else if tgt j "f32" then Some (on_text parseF32) else None
  else if oid =? EXT_HALFVEC then
    if tgt j "array" then Some (on_text parseVector) else if tgt j "f32" then Some (on_text parseF32) else None
  else if oid =? EXT_SPARSEVEC then
    if tgt j "sparse" then Some (on_text (fun s => Ok (sparse_value (parseSparsevec s))))
    else if tgt j "array" then Some (on_text (fun s => sparseToDense (parseSparsevec s))) else None
  else None.

(** A column and an array element of the same type and target decode alike. *)
Lemma extAt_leaf oid j : extAt oid j = on_text <$> extLeafFor oid j.
Proof.
  unfold extAt, extLeafFor. destruct (oid =? OID_POINT); [by repeat case_match|]. destruct (oid =? OID_LINE); [by repeat case_match|].
  destruct (oid =? EXT_VECTOR); [by repeat case_match|]. destruct (oid =? EXT_HALFVEC); [by repeat case_match|].
  destruct (oid =? EXT_SPARSEVEC); by repeat case_match.
Qed.
End Geo.

(** ** registry.ts *)
Module Registry.

Record CustomTypeDef := mkDef {
  dname : jstr; doid : Z; dascii : bool; ddelim : Z;
  targets : list (string * Leaf);
  rawTargets : list (string * CellDecoder) }.
Definition assoc {A} (k : string) (l : list (string * A)) : option A :=
  snd <$> List.find (fun p => bool_decide (p.1 = k)) l.

(** nextCustomOid and DEFS. *)
Record registry := mkReg { nextCustomOid : Z; DEFS : gmap Z CustomTypeDef }.
Definition init : registry := mkReg (-2000) ∅.

Record spec := mkSpec { s_ascii : option bool; s_delim : option jstr; s_targets : list (string * Leaf); s_raw : list (string * CellDecoder) }.

Definition defineType (name : jstr) (s : spec) : M registry CustomTypeDef := fun r =>
  match s_delim s with
  | Some d =>
    if negb (length d =? 1)%nat then (r, Throw (Error (js "minipg: type " ++ quote name ++ js " delim must be a single character, got " ++ quote d)))
    else
      let def := mkDef name (nextCustomOid r) (default false (s_ascii s)) (nth 0 d 0) (s_targets s) (s_raw s) in
      (mkReg (nextCustomOid r - 1) (<[doid def := def]> (DEFS r)), Ok def)
  | None =>
    let def := mkDef name (nextCustomOid r) (default false (s_ascii s)) 44 (s_targets s) (s_raw s) in
    (mkReg (nextCustomOid r - 1) (<[doid def := def]> (DEFS r)), Ok def)
  end.

(** handle(target) and handle.array(target): both check the target first. *)
Definition known_target (def : CustomTypeDef) (t : Target) : bool :=
  match t with
  | None => true
  | Some k => match assoc k (targets def), assoc k (rawTargets def) with None, None => false | _, _ => true end
  end.

Definition slice_cell (def : CustomTypeDef) (b : bytes) (o l : Z) : jstr :=
  if dascii def then lat1_at b o l else utf8_at b o l.
Definition customAt (r : registry) (oid : Z) (j : Target) (is_array : bool) : option CellDecoder :=
  if is_array then None
  else
    match DEFS r !! oid with
    | None => None
    | Some def =>
      let bare : CellDecoder := fun b o l => Ok (VStr (slice_cell def b o l)) in
      match j with
      | None => Some bare
      | Some t =>
        match assoc t (rawTargets def) with
        | Some raw => Some raw
        | None => match assoc t (targets def) with
                  | Some f => Some (fun b o l => f (slice_cell def b o l))
                  | None => Some bare
                  end
        end
      end
    end.
Definition customDelimFor (r : registry) (elem : Z) : option Z := ddelim <$> DEFS r !! elem.
Definition customLeafFor (r : registry) (elem : Z) (j : Target) : option Leaf :=
  match DEFS r !! elem with
  | None => None
  | Some def =>
    match j with
    | None => Some (fun s => Ok (VStr s))
    | Some t =>
      match assoc t (targets def) with
      | Some f => Some f
      | None =>
        match assoc t (rawTargets def) with
        | Some raw => Some (fun s => let b := if dascii def then latin1 s else utf8 s in raw b 0 (blen b))
        | None => Some (fun s => Ok (VStr s))
        end
      end
    end
  end.

(** Sentinels go down from -2000, each to one definition. *)
Definition reg_ok (r : registry) : Prop :=
  nextCustomOid r <= -2000 /\ forall oid def, DEFS r !! oid = Some def -> nextCustomOid r < oid <= -2000 /\ doid def = oid.

Lemma init_ok : reg_ok init.
Proof. split; [done|]. intros oid def. unfold init; cbn [DEFS]. by rewrite lookup_empty. Qed.
Lemma insert_ok r def : reg_ok r -> doid def = nextCustomOid r -> reg_ok (mkReg (nextCustomOid r - 1) (<[doid def := def]> (DEFS r))).
Proof.
  intros [Hn Hd] E. split; simpl; [lia|]. intros oid def'. rewrite lookup_insert_Some. intros [[<- <-]|[Hne Hl]].
  - split; [lia|done].
  - destruct (Hd _ _ Hl) as [? ?]. split; [lia|done].
Qed.
Lemma defineType_ok name s r r' def : reg_ok r -> defineType name s r = (r', Ok def) ->
  reg_ok r' /\ DEFS r !! doid def = None /\ DEFS r' !! doid def = Some def
  /\ forall oid, oid <> doid def -> DEFS r' !! oid = DEFS r !! oid.
Proof.
  intros Hr. assert (DEFS r !! nextCustomOid r = None) as Hf.
  { destruct (DEFS r !! nextCustomOid r) as [d|] eqn:E; [|done]. destruct Hr as [_ Hd]. destruct (Hd _ _ E). lia. }
  assert (forall def, doid def = nextCustomOid r -> (mkReg (nextCustomOid r - 1) (<[doid def := def]> (DEFS r)), Ok def) = (r', Ok def) ->
    reg_ok r' /\ DEFS r !! doid def = None /\ DEFS r' !! doid def = Some def /\ forall oid, oid <> doid def -> DEFS r' !! oid = DEFS r !! oid) as G.
  { intros d Ed [= <-]. split; [by apply insert_ok|]. rewrite Ed. split; [done|]. simpl. split; [by rewrite lookup_insert_eq|].
    intros oid Hne. by rewrite lookup_insert_ne. }
  unfold defineType. destruct (s_delim s) as [d|].
  - destruct (negb _); [done|]. intros E. assert (Hd := E). injection Hd as _ <-. by apply G.
  - intros E. assert (Hd := E). injection Hd as _ <-. by apply G.
Qed.
End Registry.
