(* ===== verification/JsonSpec.v ===== *)
(** * Declared JSON shapes (src/json.ts)

    Json()/Jsonb() markers, the classification of their fields, and the walks that the
    interpreted engine applies to what JSON.parse returned. *)

From Stdlib Require Import Sorted.
From S2P Require Import Prelude Utf8 Text Buf Num Dates Value NumText Json JsonBig ExtTypes Temporal.

(** ** Markers *)

(** A field of a JsonSpec: a type text, Transform(type, fn), a nested marker or a
    defineType() marker. A marker keeps its spec as the list of its entries, with the form it was
    written in; an object literal's entries are in the order Object.entries gives them. *)
Inductive jfield :=
| FType (t : jstr)
| FTransform (t : jstr) (fn : value -> res value)
| FCustom
| FJson (isArray isJsonb entries_form : bool) (spec : list (jstr * jfield)).

Record JsonMarker := mkMarker { m_array : bool; m_jsonb : bool; m_entries : bool; m_spec : list (jstr * jfield) }.
Definition Json (spec : list (jstr * jfield)) : JsonMarker := mkMarker false false false spec.
Definition JsonArray (spec : list (jstr * jfield)) : JsonMarker := mkMarker true false false spec.
Definition Jsonb (spec : list (jstr * jfield)) : JsonMarker := mkMarker false true false spec.
Definition JsonbArray (spec : list (jstr * jfield)) : JsonMarker := mkMarker true true false spec.

(** ** Entries *)

(** INDEX_KEY and below 2^32 - 1: decimal digits without a leading zero, the keys JavaScript moves
    to the front. *)
Definition index_key (k : jstr) : bool :=
  match k with
  | [] => false
  | c :: t => forallb is_digit k && (negb (c =? 48) || bool_decide (t = [])) && (digits_val k <? 4294967295)
  end.
Definition moved_key (k : jstr) : exn :=
  Error (js "minipg: shape key " ++ quote k ++ js " is an integer string " ++ [8212]
         ++ js " JS enumerates integer keys first (in numeric order), so its written position in an object literal is already lost; use the entries form [["
         ++ quote k ++ js ", " ++ [8230] ++ js "], " ++ [8230] ++ js "] or alias the column").
Definition duplicate_key (k : jstr) : exn :=
  Error (js "minipg: duplicate shape key " ++ quote k ++ js " in entries form").
Fixpoint first_dup (seen : list jstr) (ks : list jstr) : option jstr :=
  match ks with
  | [] => None
  | k :: t => if bool_decide (k ∈ seen) then Some k else first_dup (k :: seen) t
  end.
Definition specEntries {V} (entries_form : bool) (s : list (jstr * V)) : res (list (jstr * V)) :=
  if entries_form then
    match first_dup [] (fst <$> s) with Some k => Throw (duplicate_key k) | None => Ok s end
  else
    match List.find index_key (fst <$> s) with Some k => Throw (moved_key k) | None => Ok s end.

(** ** Types *)

Definition JS_TARGETS : list string :=
  ["number"; "string"; "latin1"; "date"; "ms"; "bigint"; "precise"; "pretty"; "tuple"; "xy"; "abc"; "array"; "f32";
   "sparse"; "hex"; "wkb"; "geojson"]%string.
Definition unknown_target (j s : jstr) : exn :=
  Error (js "unknown JS target " ++ quote j ++ js " in " ++ quote s
         ++ js " (use ':number', ':string', ':latin1', ':date', ':ms', ':bigint', ':precise', ':pretty', ':tuple', ':xy', ':abc', ':array', ':f32', ':sparse', ':hex', ':wkb' or ':geojson')").
Definition splitType (s : jstr) : res (jstr * Target) :=
  let i := indexOf s 58 0 in
  if i =? -1 then Ok (trim s, None)
  else
    let j := toLowerCase (trim (slice_from s (i + 1))) in
    match List.find (fun t => bool_decide (js t = j)) JS_TARGETS with
    | None => Throw (unknown_target j s)
    | Some t => Ok (trim (slice s 0 i), Some t)
    end.

(** Membership in a Set of type aliases. *)
Definition among (l : list string) (t : jstr) : bool := existsb (fun x => bool_decide (js x = t)) l.
Definition NUMBER := among ["int2"; "smallint"; "int4"; "int"; "integer"; "serial"; "oid"; "float4"; "real"; "float8"; "double precision"]%string.
Definition PRECISION := among ["int8"; "bigint"; "numeric"; "decimal"; "money"]%string.
Definition BOOL := among ["bool"; "boolean"]%string.
Definition RAWJSON := among ["json"; "jsonb"; "unknown"]%string.
Definition TEMPORAL := among ["date"; "timestamp"; "timestamptz"]%string.
Definition BIGINT_PG := among ["int8"; "bigint"]%string.
Definition FLOAT4_PG := among ["float4"; "real"]%string.
Definition alias_of (pg : jstr) : jstr := trim (toLowerCase pg).

Inductive category_ := CNumber | CPrecision | CBool | CJson | CString.
#[global] Instance category_eq_dec : EqDecision category_.
Proof. solve_decision. Defined.
Definition category (alias : jstr) : category_ :=
  let t := alias_of alias in
  if NUMBER t then CNumber else if PRECISION t then CPrecision else if BOOL t then CBool else if RAWJSON t then CJson else CString.
Definition effJs (cat : category_) (j : Target) : category_ :=
  match j with
  | Some t => if (t =? "number")%string then CNumber else CString
  | None => match cat with CNumber => CNumber | CBool => CBool | CJson => CJson | _ => CString end
  end.

Inductive temporal := TDate | TMs.
Definition temporalTarget (pg : jstr) (j : Target) : option temporal :=
  if tgt j "date" then Some TDate else if tgt j "ms" then Some TMs
  else if bool_decide (j = None) && TEMPORAL (alias_of pg) then Some TDate else None.
Definition bigintField (pg : jstr) (j : Target) : bool :=
  if tgt j "bigint" then true else bool_decide (j = None) && BIGINT_PG (alias_of pg).
Inductive float4 := FPrecise | FPretty.
Definition float4Target (pg : jstr) (j : Target) : option float4 :=
  if tgt j "string" then None
  else if negb (FLOAT4_PG (alias_of pg)) then None
  else Some (if tgt j "precise" then FPrecise else FPretty).
(** A precision type that stays text. *)
Definition exact_text (pg : jstr) (j : Target) : bool :=
  PRECISION (alias_of pg) && (tgt j "string" || (bool_decide (j = None) && negb (BIGINT_PG (alias_of pg)))).

Fixpoint core_loop (fuel : nat) (c : jstr) : jstr :=
  match fuel with
  | O => c
  | S f => if endsWith c (js "[]") then core_loop f (drop_end 2 c) else c
  end.
Definition arrayCore (pg : jstr) : jstr := core_loop (length pg) pg.

(** ** Questions about a spec *)

(** [any f entries]: does a field answer true, in order, an error stopping the search. *)
Section Any.
Context {V : Type} (f : V -> res bool).
Fixpoint any (es : list (jstr * V)) : res bool :=
  match es with
  | [] => Ok false
  | (_, v) :: t => b ← f v; if (b : bool) then Ok true else any t
  end.
End Any.

Definition type_precision (t : jstr) : res bool :=
  p ← splitType t;
  let '(pg, j) := (p : jstr * Target) in
  let core := arrayCore pg in
  Ok (match temporalTarget core j with Some _ => true | None => PRECISION (alias_of core) && negb (tgt j "number") end).
(** splitType of a marker object: it has no indexOf. *)
Definition not_a_string : exn := TypeError (js "s.indexOf is not a function").
Fixpoint field_precision (f : jfield) : res bool :=
  match f with
  | FType t | FTransform t _ => type_precision t
  | FCustom => Throw not_a_string
  | FJson _ _ form spec => _ ← specEntries form spec; any field_precision spec
  end.
Definition specHasPrecision (m : JsonMarker) : res bool := field_precision (FJson (m_array m) (m_jsonb m) (m_entries m) (m_spec m)).

Fixpoint field_transform (f : jfield) : res bool :=
  match f with
  | FTransform _ _ => Ok true
  | FJson _ _ form spec => _ ← specEntries form spec; any field_transform spec
  | _ => Ok false
  end.
Definition specHasTransform (m : JsonMarker) : res bool := field_transform (FJson (m_array m) (m_jsonb m) (m_entries m) (m_spec m)).

Definition type_walk (t : jstr) : res bool :=
  p ← splitType t;
  let '(pg, j) := (p : jstr * Target) in
  let core := arrayCore pg in
  Ok (match temporalTarget core j with
      | Some _ => true
      | None => bigintField core j || (match float4Target core j with Some FPrecise => true | _ => false end) || exact_text core j
      end).
Fixpoint field_walk (f : jfield) : res bool :=
  match f with
  | FTransform _ _ => Ok true
  | FType t => type_walk t
  | FCustom => Throw not_a_string
  | FJson _ _ form spec => _ ← specEntries form spec; any field_walk spec
  end.
Definition specNeedsWalk (m : JsonMarker) : res bool := field_walk (FJson (m_array m) (m_jsonb m) (m_entries m) (m_spec m)).

(** ** validateJsonSpec *)

Definition custom_field (key : jstr) : exn :=
  Error (js "minipg: Json() field " ++ quote key ++ js ": defineType() markers aren't supported inside a json shape yet "
         ++ [8212] ++ js " decode the field as 'unknown'/text and parse with Transform()").
Definition array_field (key pg : jstr) : exn :=
  Error (js "minipg: Json() field " ++ quote key ++ js ": " ++ quote pg ++ js " isn't supported inside a json shape "
         ++ [8212] ++ js " use 'unknown' for an arbitrary JSON array, or JsonArray({" ++ [8230] ++ js "}) for an array of shaped objects").
Definition validate_type (key t : jstr) : res unit :=
  p ← splitType t;
  let pg := (p : jstr * Target).1 in
  if endsWith pg (js "[]") && RAWJSON (alias_of (arrayCore pg)) then Throw (array_field key pg) else Ok tt.
Section Each.
Context {V : Type} (f : jstr -> V -> res unit).
Fixpoint each (es : list (jstr * V)) : res unit :=
  match es with
  | [] => Ok tt
  | (k, v) :: t => _ ← f k v; each t
  end.
End Each.
Fixpoint validate_field (key : jstr) (f : jfield) : res unit :=
  match f with
  | FType t | FTransform t _ => validate_type key t
  | FCustom => Throw (custom_field key)
  | FJson _ _ form spec => _ ← specEntries form spec; each validate_field spec
  end.
Definition validateJsonSpec (m : JsonMarker) : res unit := validate_field [] (FJson (m_array m) (m_jsonb m) (m_entries m) (m_spec m)).

(** ** The walks over JSON.parse's value *)

(** BigInt(x) of what JSON.parse returns. *)
Definition BigInt_of (v : value) : res value :=
  match v with
  | VBig z => Ok (VBig z)
  | VNum x => match int_of x with Some z => Ok (VBig z) | None => Throw RangeError end
  | VStr s => BigInt_text (trim s)
  | VBool b => Ok (VBig (if b then 1 else 0))
  | _ => Throw SyntaxError
  end.

Section Walk.
(** Date.parse, for the texts that PostgreSQL does not write. *)
Context (Date_parse : jstr -> option Z).

Definition isoEpoch (s : jstr) : option Z :=
  match instantFromString s with
  | Some ms => ms
  | None =>
    if (10 <? blen s) && negb (bool_decide (last s = Some 90)) then
      let tail := slice_from s 10 in
      if (indexOf tail 43 0 =? -1) && (indexOf tail 45 0 =? -1) then Date_parse (s ++ [90]) else Date_parse s
    else Date_parse s
  end.

(** The fixup of a scalar type, when it needs one. *)
Definition fix_scalar (pg : jstr) (j : Target) : option (value -> res value) :=
  match temporalTarget pg j with
  | Some TMs => Some (fun x => match x with VStr s => Ok (VNum (match isoEpoch s with Some z => of_Z z | None => NaN end)) | _ => Ok x end)
  | Some TDate => Some (fun x => match x with VStr s => Ok (VDate (isoEpoch s ≫= TimeClip)) | _ => Ok x end)
  | None =>
    if bigintField pg j then Some BigInt_of
    else match float4Target pg j with
         | Some FPrecise => Some (fun x => match x with VNum n => Ok (VNum (fround n)) | _ => Ok x end)
         | _ => if exact_text pg j then Some (fun x => match x with VNum n => Ok (VStr (num_str n)) | _ => Ok x end) else None
         end
  end.
(** fixArr: an element that is an array descends, whatever the declared dimensions. *)
Section FixArr.
Context (el : value -> res value).
Fixpoint fix_arr (x : value) : res value :=
  match x with
  | VArr l =>
    l' ← (fix go (l : list value) : res (list value) :=
      match l with
      | [] => Ok []
      | e :: t =>
        v ← (if nullish e then Ok e else match e with VArr _ => fix_arr e | _ => el e end);
        vs ← go t; Ok (v :: vs)
      end) l;
    Ok (VArr l')
  | _ => Ok x
  end.
End FixArr.
Fixpoint fix_for (fuel : nat) (pg : jstr) (j : Target) : option (value -> res value) :=
  match fuel with
  | O => None
  | S f => if endsWith pg (js "[]") then fix_arr <$> fix_for f (drop_end 2 pg) j else fix_scalar pg j
  end.
Definition fixFor (pg : jstr) (j : Target) : option (value -> res value) := fix_for (S (length pg)) pg j.

(** [for (const [k, f] of fns) { const val = o[k]; if (val != null) o[k] = f(val) }] *)
Fixpoint walk_props (fns : list (jstr * (value -> res value))) (fs : list (jstr * value)) : res (list (jstr * value)) :=
  match fns with
  | [] => Ok fs
  | (k, f) :: t =>
    match get_key k fs with
    | Some v => if nullish v then walk_props t fs else w ← f v; walk_props t (set_key k w fs)
    | None => walk_props t fs
    end
  end.
(** A value of another shape has none of the declared keys. *)
Definition walkObj (fns : list (jstr * (value -> res value))) (o : value) : res value :=
  match o with VObj fs => fs' ← walk_props fns fs; Ok (VObj fs') | _ => Ok o end.
Definition walk_marker (isArray : bool) (fns : list (jstr * (value -> res value))) (v : value) : res value :=
  if isArray then
    match v with
    | VArr l => l' ← mapM (fun e => if nullish e then Ok e else walkObj fns e) l; Ok (VArr l')
    | _ => Ok v
    end
  else if nullish v then Ok v else walkObj fns v.

Definition compose (base : option (value -> res value)) (xf : option (value -> res value)) : option (value -> res value) :=
  match base, xf with
  | Some b, Some f => Some (fun x => v ← b x; f v)
  | Some b, None => Some b
  | None, f => f
  end.
Definition type_fix (t : jstr) : res (option (value -> res value)) :=
  p ← splitType t; let '(pg, j) := (p : jstr * Target) in Ok (fixFor pg j).
Section Fns.
Context (f : jfield -> res (option (value -> res value))).
Fixpoint fns_of (es : list (jstr * jfield)) : res (list (jstr * (value -> res value))) :=
  match es with
  | [] => Ok []
  | (k, v) :: t => o ← f v; r ← fns_of t; Ok (match o with Some g => (k, g) :: r | None => r end)
  end.
End Fns.
(** What a field's value goes through, when anything. *)
Fixpoint field_fix (f : jfield) : res (option (value -> res value)) :=
  match f with
  | FType t => type_fix t
  | FTransform t fn => b ← type_fix t; Ok (compose b (Some fn))
  | FCustom => Throw not_a_string
  | FJson arr _ form spec =>
    b ← field_walk f;
    if (b : bool) then (_ ← specEntries form spec; fns ← fns_of field_fix spec; Ok (Some (walk_marker arr fns))) else Ok None
  end.
Definition buildJsonWalk (m : JsonMarker) : res (value -> res value) :=
  _ ← specEntries (m_entries m) (m_spec m);
  fns ← fns_of field_fix (m_spec m);
  Ok (walk_marker (m_array m) fns).

Fixpoint field_xform (f : jfield) : res (option (value -> res value)) :=
  match f with
  | FTransform _ fn => Ok (Some fn)
  | FJson arr _ form spec =>
    b ← field_transform f;
    if (b : bool) then (_ ← specEntries form spec; fns ← fns_of field_xform spec; Ok (Some (walk_marker arr fns))) else Ok None
  | _ => Ok None
  end.
Definition buildJsonTransformWalk (m : JsonMarker) : res (value -> res value) :=
  _ ← specEntries (m_entries m) (m_spec m);
  fns ← fns_of field_xform (m_spec m);
  Ok (walk_marker (m_array m) fns).
End Walk.

(** ** The order of keys on the wire *)

(** Buffer.compare *)
Fixpoint buf_compare (a b : bytes) : comparison :=
  match a, b with
  | [], [] => Eq
  | [], _ => Lt
  | _, [] => Gt
  | x :: a, y :: b => match Z.compare x y with Eq => buf_compare a b | c => c end
  end.
(** jsonb's order: the shorter key first, then bytewise. *)
Definition key_le (a b : bytes) : bool :=
  if negb (length a =? length b)%nat then (length a <? length b)%nat
  else match buf_compare a b with Gt => false | _ => true end.
Fixpoint insert_key {A} (key : A -> bytes) (x : A) (l : list A) : list A :=
  match l with
  | [] => [x]
  | y :: t => if key_le (key x) (key y) then x :: l else y :: insert_key key x t
  end.
(** The stable sort of [idx.sort]. *)
Definition sort_keys {A} (key : A -> bytes) (l : list A) : list A := foldr (insert_key key) [] l.
Definition wireOrder {V} (entries : list (jstr * V)) (jsonb : bool) : list nat :=
  let idx := seq 0 (length entries) in
  if jsonb then sort_keys (fun i => utf8 (default [] (fst <$> entries !! i))) idx else idx.

(** ** A walk that is not needed changes nothing *)

Lemma core_fix D f pg j : (length pg <= f)%nat ->
  fix_for D (S f) pg j = None <-> fix_scalar D (core_loop f pg) j = None.
Proof.
  revert pg. induction f as [|f IH]; intros pg Hf.
  - destruct pg; [|simpl in Hf; lia]. done.
  - cbn [core_loop]. change (fix_for D (S (S f)) pg j) with
      (if endsWith pg (js "[]") then fix_arr <$> fix_for D (S f) (drop_end 2 pg) j else fix_scalar D pg j).
    destruct (endsWith pg (js "[]")) eqn:E; [|done].
    assert (length (drop_end 2 pg) <= f)%nat as Hl.
    { unfold drop_end. rewrite length_take. unfold endsWith in E. apply bool_decide_eq_true in E.
      assert (length (drop (length pg - length (js "[]")) pg) = 2%nat) as L by (by rewrite E). rewrite length_drop in L. lia. }
    rewrite <- (IH _ Hl). destruct (fix_for D (S f) (drop_end 2 pg) j); done.
Qed.
Lemma type_fix_none D t : type_walk t = Ok false -> type_fix D t = Ok None.
Proof.
  unfold type_walk, type_fix. destruct (splitType t) as [[pg j]|e|]; cbn [mbind res_bind]; [|done..]. intros Hw. assert (forall a b : bool, Ok a = Ok b -> a = b) as Hinj by congruence. apply Hinj in Hw. clear Hinj.
  assert (fixFor D pg j = None) as ->; [|done]. unfold fixFor. apply core_fix; [done|]. fold (arrayCore pg).
  unfold fix_scalar. destruct (temporalTarget _ _); [done|]. destruct (bigintField _ _); [done|].
  destruct (float4Target _ _) as [[]|]; cbn [orb] in Hw; [done|by rewrite Hw..].
Qed.
Lemma any_false {V} (f : V -> res bool) es : any f es = Ok false -> Forall (fun kv => f kv.2 = Ok false) es.
Proof.
  induction es as [|[k v] t IH]; cbn [any]; [constructor|]. intros E. apply bind_res_Ok_inv in E as (b & Eb & E).
  destruct b; [done|]. constructor; auto.
Qed.
Lemma fns_none f es : Forall (fun kv => f kv.2 = Ok None) es -> fns_of f es = Ok [].
Proof. induction 1 as [|[k v] t E _ IH]; [done|]. cbn [fns_of]. cbn in E. by rewrite E, IH. Qed.
Lemma walk_nothing arr v : walk_marker arr [] v = Ok v.
Proof.
  assert (forall o, walkObj [] o = Ok o) as Ho by (by intros []).
  unfold walk_marker. destruct arr; [|by destruct (nullish v)]. destruct v; try done.
  assert (mapM (fun e => if nullish e then Ok e else walkObj [] e) l = Ok l) as ->; [|done].
  induction l as [|e l IH]; [done|]. cbn. rewrite IH, Ho. by destruct (nullish e).
Qed.
Lemma field_fix_none D f : field_walk f = Ok false -> field_fix D f = Ok None.
Proof. destruct f as [t|t fn| |a b form spec]; try done; [apply type_fix_none|]. intros E. cbn [field_fix]. by rewrite E. Qed.
Lemma field_xform_none f : field_transform f = Ok false -> field_xform f = Ok None.
Proof. destruct f as [t|t fn| |a b form spec]; try done. intros E. cbn [field_xform]. by rewrite E. Qed.

(** skipping a walk is sound: when [specNeedsWalk] (or [specHasTransform]) answers no, the walk
    that would have been built exists and returns every value unchanged, at every depth of the
    declared shape. *)
Theorem needless_walks D m :
  (specNeedsWalk m = Ok false -> exists w, buildJsonWalk D m = Ok w /\ forall v, w v = Ok v) /\
  (specHasTransform m = Ok false -> exists w, buildJsonTransformWalk m = Ok w /\ forall v, w v = Ok v).
Proof.
  split; intros E; [unfold specNeedsWalk in E; cbn [field_walk] in E|unfold specHasTransform in E; cbn [field_transform] in E];
    apply bind_res_Ok_inv in E as (es & Es & E); apply any_false in E; exists (walk_marker (m_array m) []).
  - split; [|apply walk_nothing]. unfold buildJsonWalk. rewrite Es. cbn [mbind res_bind]. rewrite fns_none; [done|].
    eapply Forall_impl; [exact E|]. intros kv. apply field_fix_none.
  - split; [|apply walk_nothing]. unfold buildJsonTransformWalk. rewrite Es. cbn [mbind res_bind]. rewrite fns_none; [done|].
    eapply Forall_impl; [exact E|]. intros kv. apply field_xform_none.
Qed.

(** ** The order of keys *)

Lemma buf_compare_antisym a b : buf_compare b a = CompOpp (buf_compare a b).
Proof.
  revert b. induction a as [|x a IH]; intros [|y b]; try done. cbn [buf_compare]. rewrite Z.compare_antisym.
  destruct (x ?= y)%Z; cbn; auto.
Qed.
Lemma buf_compare_eq a b : buf_compare a b = Eq -> a = b.
Proof.
  revert b. induction a as [|x a IH]; intros [|y b]; try done. cbn [buf_compare]. destruct (Z.compare_spec x y) as [->|?|?]; try done.
  intros E%IH. by subst.
Qed.
Lemma buf_compare_trans a b c : buf_compare a b <> Gt -> buf_compare b c <> Gt -> buf_compare a c <> Gt.
Proof.
  revert b c. induction a as [|x a IH]; intros [|y b] [|z c]; try done. cbn [buf_compare].
  destruct (Z.compare_spec x y), (Z.compare_spec y z), (Z.compare_spec x z); subst; try lia; try done; eauto.
Qed.
Lemma key_le_total a b : key_le a b = false -> key_le b a = true.
Proof.
  unfold key_le. rewrite (Nat.eqb_sym (length b)). destruct (Nat.eqb_spec (length a) (length b)) as [E|E]; cbn [negb].
  - rewrite (buf_compare_antisym a b). by destruct (buf_compare a b).
  - intros H%Nat.ltb_ge. apply Nat.ltb_lt. lia.
Qed.
Lemma key_le_trans a b c : key_le a b = true -> key_le b c = true -> key_le a c = true.
Proof.
  unfold key_le. destruct (Nat.eqb_spec (length a) (length b)) as [E1|E1], (Nat.eqb_spec (length b) (length c)) as [E2|E2],
    (Nat.eqb_spec (length a) (length c)) as [E3|E3]; cbn [negb]; rewrite ?Nat.ltb_lt; try lia.
  pose proof (buf_compare_trans a b c) as Ht. destruct (buf_compare a b), (buf_compare b c), (buf_compare a c); try done; exfalso; by apply Ht.
Qed.
Lemma insert_perm {A} (key : A -> bytes) x l : insert_key key x l ≡ₚ x :: l.
Proof.
  induction l as [|y t IH]; [done|]. cbn [insert_key]. destruct (key_le _ _); [done|]. rewrite IH. constructor.
Qed.
Lemma insert_sorted {A} (key : A -> bytes) x l :
  StronglySorted (fun a b => key_le (key a) (key b) = true) l ->
  StronglySorted (fun a b => key_le (key a) (key b) = true) (insert_key key x l).
Proof.
  induction 1 as [|y t Hs IH Hy]; cbn [insert_key]; [repeat constructor|]. destruct (key_le (key x) (key y)) eqn:E.
  - constructor; [by constructor|]. constructor; [done|]. eapply Forall_impl; [exact Hy|]. intros z. by apply key_le_trans.
  - constructor; [done|]. rewrite insert_perm. constructor; [by apply key_le_total|done].
Qed.

(** [wireOrder] reads every declared field exactly once: it is a permutation of the declared
    positions, the identity for json, and for jsonb the order PostgreSQL stores keys in: no key
    is read after one that is longer, or equally long and bytewise greater. *)
Theorem wireOrder_spec {V} (es : list (jstr * V)) :
  wireOrder es false = seq 0 (length es) /\
  wireOrder es true ≡ₚ seq 0 (length es) /\
  StronglySorted (fun i j => key_le (utf8 (default [] (fst <$> es !! i))) (utf8 (default [] (fst <$> es !! j))) = true) (wireOrder es true).
Proof.
  split; [done|]. unfold wireOrder. generalize (seq 0 (length es)). intros l. split.
  - unfold sort_keys. induction l as [|x l IH]; [done|]. cbn [foldr]. by rewrite insert_perm, IH.
  - induction l as [|x l IH]; [constructor|]. by apply insert_sorted.
Qed.
