(* ===== verification/JsonScan.v ===== *)
(** * The positional scanner of shaped JSON (src/json.ts)

    The code that the JIT engine splices in for a json column whose shape needs exact values,
    as functions over the cell: a reader takes the cursor [jp] and returns the value it assigned
    with the cursor it left. [jb] is the whole buffer and [je] the end of the cell; reads past
    [je] are the buffer's, as in the source. *)

From S2P Require Import Prelude Utf8 Text Buf Num Dates Value NumText Json JsonBig ExtTypes Temporal JsonSpec.

Section Scan.
Context (Date_parse : jstr -> option Z) (jb : bytes) (je : Z).

Definition cur (jp : Z) : option Z := at_ jb jp.
Definition isc (jp c : Z) : bool := bool_decide (cur jp = Some c).
(** How many bytes of the cell are left. *)
Definition left (jp : Z) : nat := Z.to_nat (je - jp).

(** ** Snippets *)

Definition ws (c : option Z) : bool := match c with Some c => bool_decide (c ∈ [32; 9; 10; 13]) | None => false end.
Fixpoint skip_while (n : nat) (f : option Z -> bool) (jp : Z) : Z :=
  match n with O => jp | S n => if f (cur jp) then skip_while n f (jp + 1) else jp end.
(** [while (jp < je && f(jb[jp])) jp++] *)
Definition skip (f : option Z -> bool) (jp : Z) : Z := skip_while (left jp) f jp.
Definition SKIPWS (jp : Z) : Z := skip ws jp.
(** To the closing quote, over escapes; whether there was one. *)
Fixpoint to_quote (n : nat) (jp : Z) (esc : bool) : Z * bool :=
  match n with
  | O => (jp, esc)
  | S n =>
    if je <=? jp then (jp, esc)
    else if isc jp 92 then to_quote n (jp + 2) true
    else if isc jp 34 then (jp, esc) else to_quote n (jp + 1) esc
  end.
Definition SKIPSTR (jp : Z) : Z :=
  let jp := jp + 1 in
  let p := (to_quote (left jp) jp false).1 in if p <? je then p + 1 else p.

Definition str_of (s e : Z) : jstr := utf8_decode (subarray jb s e).
Definition rdStr (jp : Z) : res (value * Z) :=
  let s := jp + 1 in
  let '(p, esc) := to_quote (left s) s false in
  v ← (if esc then JSON_parse (str_of (s - 1) (p + 1)) else Ok (VStr (str_of s p)));
  Ok (v, p + 1).
Definition not_quote (c : option Z) : bool := negb (bool_decide (c = Some 34)).
Definition num_char (c : option Z) : bool :=
  match c with Some c => is_digit c || bool_decide (c ∈ [46; 43; 45; 101; 69]) | None => false end.
Definition digit_char (c : option Z) : bool := match c with Some c => is_digit c | None => false end.
Definition rdStrNum (jp : Z) : value * Z :=
  let s := jp + 1 in let p := skip not_quote s in (VNum (Number (subarray jb s p)), p + 1).
Definition minus (jp : Z) : Z := if isc jp 45 then jp + 1 else jp.
Definition rdNum (jp : Z) : value * Z := let p := skip num_char (minus jp) in (VNum (Number (subarray jb jp p)), p).
Definition rdRaw (jp : Z) : value * Z := let p := skip num_char (minus jp) in (VStr (subarray jb jp p), p).
Definition rdBigInt (jp : Z) : res (value * Z) :=
  if isc jp 34 then
    let s := jp + 1 in let p := skip not_quote s in v ← BigInt_text (trim (str_of s p)); Ok (v, p + 1)
  else
    let p := skip digit_char (minus jp) in v ← BigInt_text (subarray jb jp p); Ok (v, p).

(** Past an object or array, or up to a delimiter. *)
Fixpoint skip_nested (n : nat) (op cl depth jp : Z) : Z :=
  match n with
  | O => jp
  | S n =>
    if je <=? jp then jp
    else if isc jp 34 then skip_nested n op cl depth (SKIPSTR jp)
    else if isc jp op then skip_nested n op cl (depth + 1) (jp + 1)
    else if isc jp cl then if depth - 1 =? 0 then jp + 1 else skip_nested n op cl (depth - 1) (jp + 1)
    else skip_nested n op cl depth (jp + 1)
  end.
Definition SKIPVALUE (jp : Z) : Z :=
  let jp := SKIPWS jp in
  if isc jp 34 then SKIPSTR jp
  else if isc jp 123 then skip_nested (left jp) 123 125 0 jp
  else if isc jp 91 then skip_nested (left jp) 91 93 0 jp
  else skip (fun c => match c with Some c => negb (bool_decide (c ∈ [44; 125; 93])) | None => true end) jp.
(** To the end of the object the cursor is in. *)
Definition SKIPOBJEND (jp : Z) : Z := skip_nested (left jp) 123 125 1 jp.

(** [if (jb[jp] === 110) { v = null; jp += 4 } else ...] *)
Definition or_null (r : Z -> res (value * Z)) (jp : Z) : res (value * Z) :=
  if isc jp 110 then Ok (VNull, jp + 4) else r jp.
Definition sub_parse (jp : Z) : res (value * Z) :=
  let p := SKIPVALUE jp in v ← JSON_parse (str_of jp p); Ok (v, p).

(** ** Scalars *)

Definition rd_number (jp : Z) : res (value * Z) := Ok (if isc jp 34 then rdStrNum jp else rdNum jp).
Definition inlineEpoch (t : temporal) (jp : Z) : res (value * Z) :=
  let s := jp + 1 in
  let e := skip not_quote s in
  let '(ems, ok) := instantTemplate jb s (e - s) in
  let ep := if ok then ems else Date_parse (str_of s e) in
  Ok (match t with TDate => VDate (ep ≫= TimeClip) | TMs => VNum (match ep with Some z => of_Z z | None => NaN end) end, e + 1).
Definition inlineScalar (pg : jstr) (j : Target) (jp : Z) : res (value * Z) :=
  match temporalTarget pg j with
  | Some t => or_null (inlineEpoch t) jp
  | None =>
    if bigintField pg j then or_null rdBigInt jp
    else match float4Target pg j with
         | Some f =>
           or_null (fun jp => '(v, p) ← rd_number jp;
             Ok (match f, v with FPrecise, VNum x => VNum (fround x) | _, _ => v end, p)) jp
         | None =>
           match effJs (category pg) j with
           | CNumber => or_null rd_number jp
           | CBool => or_null (fun jp => let t := isc jp 116 in Ok (VBool t, jp + if t then 4 else 5)) jp
           | CJson => or_null sub_parse jp
           | _ => or_null (fun jp => if isc jp 34 then rdStr jp else Ok (rdRaw jp)) jp
           end
         end
  end.

(** ** Arrays of scalars

    The local function of the source: [fuel] bounds its own recursion and the loop together. *)
Section Elements.
Context (elem : Z -> res (value * Z)).
Fixpoint elements (fuel : nat) (jp : Z) (acc : list value) : res (value * Z) :=
  match fuel with
  | O => NoFuel
  | S f =>
    if negb (jp <? je) then Ok (VArr acc, jp)
    else
      let jp := SKIPWS jp in
      '(v, p) ← (if isc jp 91
                 then let q := SKIPWS (jp + 1) in if isc q 93 then Ok (VArr [], q + 1) else elements f q []
                 else elem jp);
      let acc := acc ++ [v] in
      let p := SKIPWS p in
      if isc p 44 then elements f (p + 1) acc
      else if isc p 93 then Ok (VArr acc, p + 1)
      else Ok (VArr acc, p)
  end.
(** One call of the local function, at a '['. *)
Definition scalar_array (jp : Z) : res (value * Z) :=
  let q := SKIPWS (jp + 1) in
  if isc q 93 then Ok (VArr [], q + 1) else elements (S (left q)) q [].
End Elements.
Fixpoint inline_type (fuel : nat) (pg : jstr) (j : Target) : Z -> res (value * Z) :=
  match fuel with
  | O => fun _ => NoFuel
  | S f =>
    if endsWith pg (js "[]") then fun jp => or_null (scalar_array (inline_type f (trim (drop_end 2 pg)) j)) (SKIPWS jp)
    else inlineScalar pg j
  end.
Definition inlineType (pg : jstr) (j : Target) : Z -> res (value * Z) := inline_type (S (length pg)) pg j.

(** ** Objects and arrays of objects *)

(** The fields in wire order: the first key starts at the cursor, the next ones after a comma. *)
Fixpoint scan_fields (first : bool) (order : list nat) (rs : list (Z -> res (value * Z))) (jp : Z) (vs : list value)
    : res (list value * Z) :=
  match order with
  | [] => Ok (vs, jp)
  | i :: t =>
    let jp := if first then jp else SKIPWS (SKIPWS jp + 1) in
    let jp := SKIPWS (SKIPWS (SKIPSTR jp) + 1) in
    '(v, p) ← (match rs !! i with Some r => r jp | None => NoFuel end);
    scan_fields false t rs p (<[i := v]> vs)
  end.
Definition scan_object (keys : list jstr) (order : list nat) (rs : list (Z -> res (value * Z))) (jp : Z) : res (value * Z) :=
  or_null (fun jp =>
    let jp := SKIPWS (jp + 1) in
    let nulls := replicate (length keys) VNull in
    if isc jp 125 then Ok (VObj (zip keys nulls), jp + 1)
    else '(vs, p) ← scan_fields true order rs jp nulls; Ok (VObj (zip keys vs), SKIPOBJEND p)) (SKIPWS jp).
Fixpoint scan_rows (fuel : nat) (row : Z -> res (value * Z)) (jp : Z) (acc : list value) : res (value * Z) :=
  match fuel with
  | O => NoFuel
  | S f =>
    if negb (jp <? je) then Ok (VArr acc, jp)
    else
      '(v, p) ← row jp;
      let acc := acc ++ [v] in
      let p := SKIPWS p in
      if isc p 44 then scan_rows f row (SKIPWS (p + 1)) acc
      else if isc p 93 then Ok (VArr acc, p + 1)
      else Ok (VArr acc, p)
  end.
Definition scan_array (row : Z -> res (value * Z)) (jp : Z) : res (value * Z) :=
  or_null (fun jp =>
    let q := SKIPWS (jp + 1) in
    if isc q 93 then Ok (VArr [], q + 1) else scan_rows (S (left q)) row q []) (SKIPWS jp).

(** ** Generation: the readers of a shape, or the error of building them *)

Definition gen_type (t : jstr) : res (Z -> res (value * Z)) :=
  p ← splitType t; let '(pg, j) := (p : jstr * Target) in Ok (inlineType pg j).
Section Readers.
Context (f : jfield -> res (Z -> res (value * Z))).
Fixpoint readers (es : list (jstr * jfield)) : res (list (Z -> res (value * Z))) :=
  match es with
  | [] => Ok []
  | (_, v) :: t => r ← f v; rs ← readers t; Ok (r :: rs)
  end.
End Readers.
(** inlineMarker of a spec whose readers are generated by [f]. *)
Definition gen_marker (f : jfield -> res (Z -> res (value * Z))) (isArray isJsonb form : bool) (spec : list (jstr * jfield))
    : res (Z -> res (value * Z)) :=
  _ ← specEntries form spec;
  rs ← readers f spec;
  let row := scan_object (fst <$> spec) (wireOrder spec isJsonb) rs in
  Ok (if isArray then scan_array row else row).
Fixpoint inlineValue (f : jfield) : res (Z -> res (value * Z)) :=
  match f with
  | FType t | FTransform t _ => gen_type t
  | FCustom => Throw not_a_string
  | FJson arr jsonb form spec =>
    b ← field_precision f;
    if (b : bool) then gen_marker inlineValue arr jsonb form spec else Ok (or_null sub_parse)
  end.
Definition inlineMarker (m : JsonMarker) : res (Z -> res (value * Z)) :=
  gen_marker inlineValue (m_array m) (m_jsonb m) (m_entries m) (m_spec m).
End Scan.

(** ** genJsonParsers, and the code of a json column *)

Section Plan.
Context (Date_parse : jstr -> option Z).
Definition visit (w : option (value -> res value)) (v : value) : res value :=
  match w with Some w => w v | None => Ok v end.
(** A shape without exact values is JSON.parse; any other is the scanner. Generating the code can
    throw; [jb] plays no part in that. *)
Definition json_column (m : JsonMarker) : res CellDecoder :=
  t ← specHasTransform m;
  w ← (if (t : bool) then Some <$> buildJsonTransformWalk m else Ok None);
  p ← specHasPrecision m;
  if (p : bool) then
    _ ← inlineMarker Date_parse [] 0 m;
    Ok (fun b o l => r ← inlineMarker Date_parse b (o + l) m; vp ← (r : Z -> res (value * Z)) o; visit w vp.1)
  else Ok (fun b o l => v ← JSON_parse (utf8_at b o l); visit w v).
End Plan.
