(* ===== verification/JsonScanProofs.v ===== *)
(** * The JSON parsers finish

    The fuel of [JSON_parse] and of the positional scanner is enough on every input: each round
    moves the cursor, so a declared shape decodes, or throws, on whatever bytes the cell holds. *)

From S2P Require Import Prelude Utf8 Text Buf Num Dates Value NumText Json JsonBig ExtTypes Temporal JsonSpec JsonScan.

(** ** JSON.parse *)

Definition fin {A} (m : res A) : Prop := m <> NoFuel.
Lemma fin_bind {A B} (m : res A) (f : A -> res B) : fin m -> (forall a, m = Ok a -> fin (f a)) -> fin (m ≫= f).
Proof. unfold fin. destruct m; cbn; auto. Qed.
Lemma fin_fmap {A B} (f : A -> B) (m : res A) : fin m -> fin (f <$> m).
Proof. unfold fin. by destruct m. Qed.
Lemma fin_Ok {A} (a : A) : fin (Ok a).
Proof. done. Qed.
Lemma fin_Throw {A} e : fin (@Throw A e).
Proof. done. Qed.
#[local] Hint Resolve fin_Ok fin_Throw : core.

Lemma skip_ws_le s : (length (skip_ws s) <= length s)%nat.
Proof. induction s as [|c s IH]; cbn [skip_ws]; [done|]. destruct (is_ws c); simpl; lia. Qed.
Lemma unquote_fin s : fin (unquote s).
Proof.
  assert (forall n s, (length s <= n)%nat -> fin (unquote s)) as G; [|by apply (G (length s))].
  clear. induction n as [|n IH]; intros [|c t] Hl; cbn [length] in Hl; try lia; try done. cbn [unquote].
  assert (forall (k : Z) t', (length t' <= n)%nat -> fin ('(x, r) ← unquote t'; Ok (k :: x, r))) as Hk
    by (intros k t' Ht; apply fin_bind; [by apply IH|by intros [? ?] _]).
  repeat (case_match; try done; subst; cbn [length] in Hl); apply Hk; lia.
Qed.
Lemma unquote_shorter s x r : unquote s = Ok (x, r) -> (length r < length s)%nat.
Proof. intros (p & ->)%unquote_inv. rewrite length_app. simpl. lia. Qed.
Lemma json_number_fin s : fin (json_number s).
Proof.
  unfold json_number. repeat (case_match; try done); apply fin_bind; intros; repeat case_match; try done;
    apply fin_bind; intros; repeat case_match; done.
Qed.
Lemma json_number_shorter s x r : json_number s = Ok (x, r) -> (length r < length s)%nat.
Proof.
  intros (d & -> & Hok & _)%json_number_inv. rewrite length_app. destruct Hok as (_ & Hne & _). unfold jtok_text.
  rewrite !length_app. destruct (jip d); [done|]. simpl. lia.
Qed.

Section Parse.
Context (onnum : jstr -> num -> value).
(** [jval] needs two units of fuel per character. *)
Definition val_ok (f : nat) : Prop := forall s, (2 * length s < f)%nat -> fin (jval onnum f s).
Definition elems_ok (f : nat) : Prop := forall s, (2 * length s + 1 < f)%nat -> fin (jelems onnum f s).
Definition members_ok (f : nat) : Prop := forall s acc, (2 * length s + 1 < f)%nat -> fin (jmembers onnum f s acc).
Definition val_short (f : nat) : Prop := forall s v r, jval onnum f s = Ok (v, r) -> (length r < length s)%nat.
Definition elems_short (f : nat) : Prop := forall s v r, jelems onnum f s = Ok (v, r) -> (length r < length s)%nat.
Definition members_short (f : nat) : Prop := forall s acc v r, jmembers onnum f s acc = Ok (v, r) -> (length r < length s)%nat.

Lemma word_short w v s x r : word w v s = Ok (x, r) -> (0 < length w)%nat -> (length r < length s)%nat.
Proof.
  unfold word. case_bool_decide as E; [|done]. intros [= _ <-] Hw. rewrite length_drop.
  assert (length (take (length w) s) = length w) as L by (by rewrite E). rewrite length_take in L. lia.
Qed.
Ltac head_of t d r E := let W := fresh in pose proof (skip_ws_le t) as W; destruct (skip_ws t) as [|d r] eqn:E; cbn [length] in W; [done|].

Lemma parse_short f : val_short f /\ elems_short f /\ members_short f.
Proof.
  induction f as [|f (IV & IE & IM)]; [done|]. split; [|split].
  - intros s v r. cbn [jval]. head_of s c t E.
    destruct (c =? 123); [head_of t d u E2; case_match; [intros [= _ <-]; lia|]; intros Hb; apply bind_res_Ok_inv in Hb as ([fs q] & Hm & [= _ <-]); apply IM in Hm; lia|].
    destruct (c =? 91); [head_of t d u E2; case_match; [intros [= _ <-]; lia|]; intros Hb; apply bind_res_Ok_inv in Hb as ([fs q] & Hm & [= _ <-]); apply IE in Hm; lia|].
    destruct (c =? 34); [intros Hb; apply bind_res_Ok_inv in Hb as ([x q] & Hm & [= _ <-]); apply unquote_shorter in Hm; lia|].
    do 3 (case_match; [intros Hb%word_short; [cbn [length] in Hb; lia|vm_compute; lia]|]).
    intros Hb. apply bind_res_Ok_inv in Hb as ([x q] & Hm & [= _ <-]). apply json_number_shorter in Hm. cbn [length] in Hm. lia.
  - intros s v r. cbn [jelems]. intros Hb. apply bind_res_Ok_inv in Hb as ([x q] & Hm & Hb). apply IV in Hm.
    head_of q c t E. case_match; [apply bind_res_Ok_inv in Hb as ([l q'] & He & [= _ <-]); apply IE in He; lia|].
    case_match; [|done]. injection Hb as _ <-. lia.
  - intros s acc v r. cbn [jmembers]. head_of s c t E. case_match; [|done]. intros Hb. apply bind_res_Ok_inv in Hb as ([k q] & Hm & Hb).
    apply unquote_shorter in Hm. head_of q d r1 E2. case_match; [|done]. apply bind_res_Ok_inv in Hb as ([x q2] & Hv & Hb). apply IV in Hv.
    head_of q2 e r3 E3. case_match; [apply IM in Hb; lia|]. case_match; [|done]. injection Hb as _ <-. lia.
Qed.

Lemma parse_fin f : val_ok f /\ elems_ok f /\ members_ok f.
Proof.
  induction f as [|f (IV & IE & IM)]; [split; [|split]; intros ?; lia|]. destruct (parse_short f) as (SV & SE & SM). split; [|split].
  - intros s Hf. cbn [jval]. head_of s c t E.
    destruct (c =? 123); [head_of t d u E2; case_match; [done|]; apply fin_bind; [apply IM; lia|by intros [? ?] _]|].
    destruct (c =? 91); [head_of t d u E2; case_match; [done|]; apply fin_bind; [apply IE; lia|by intros [? ?] _]|].
    destruct (c =? 34); [apply fin_bind; [apply unquote_fin|by intros [? ?] _]|].
    do 3 (case_match; [unfold word; by case_bool_decide|]). apply fin_bind; [apply json_number_fin|by intros [? ?] _].
  - intros s Hf. cbn [jelems]. apply fin_bind; [apply IV; lia|]. intros [v r] Hv. apply SV in Hv. head_of r c t E.
    case_match; [apply fin_bind; [apply IE; lia|by intros [? ?] _]|]. by case_match.
  - intros s acc Hf. cbn [jmembers]. head_of s c t E. case_match; [|done]. apply fin_bind; [apply unquote_fin|]. intros [k q] Hk.
    apply unquote_shorter in Hk. head_of q d r1 E2. case_match; [|done]. apply fin_bind; [apply IV; lia|]. intros [x q2] Hv. apply SV in Hv.
    head_of q2 e r3 E3. case_match; [apply IM; lia|]. by case_match.
Qed.
End Parse.
Lemma JSON_parse_fin s : fin (JSON_parse s).
Proof.
  unfold JSON_parse, JSON_parse_with. apply fin_bind; [apply parse_fin; lia|]. intros [v r] _. by case_match.
Qed.

(** ** The scanner *)

Section Scan.
Context (D : jstr -> option Z) (jb : bytes) (je : Z).

Lemma skip_while_ge n f jp : jp <= skip_while jb n f jp.
Proof. revert jp. induction n as [|n IH]; intros jp; cbn [skip_while]; [lia|]. case_match; [|lia]. specialize (IH (jp + 1)). lia. Qed.
Lemma skip_ge f jp : jp <= skip jb je f jp.
Proof. apply skip_while_ge. Qed.
Lemma SKIPWS_ge jp : jp <= SKIPWS jb je jp.
Proof. apply skip_ge. Qed.
Lemma to_quote_ge n jp e : jp <= (to_quote jb je n jp e).1.
Proof.
  revert jp e. induction n as [|n IH]; intros jp e; cbn [to_quote]; [done|]. repeat (case_match; try done); cbn [fst]; try lia.
  - specialize (IH (jp + 2) true). lia.
  - specialize (IH (jp + 1) e). lia.
Qed.
Lemma SKIPSTR_ge jp : jp + 1 <= SKIPSTR jb je jp.
Proof. unfold SKIPSTR. pose proof (to_quote_ge (left je (jp + 1)) (jp + 1) false). case_match; lia. Qed.
Lemma skip_nested_ge n op cl d jp : jp <= skip_nested jb je n op cl d jp.
Proof.
  revert d jp. induction n as [|n IH]; intros d jp; cbn [skip_nested]; [lia|]. pose proof (SKIPSTR_ge jp).
  repeat case_match; try lia; (etransitivity; [|apply IH]); lia.
Qed.
Lemma SKIPVALUE_ge jp : jp <= SKIPVALUE jb je jp.
Proof.
  unfold SKIPVALUE. pose proof (SKIPWS_ge jp). set (q := SKIPWS jb je jp) in *. pose proof (SKIPSTR_ge q).
  repeat case_match; [lia|etransitivity; [|apply skip_nested_ge]; lia..|etransitivity; [|apply skip_ge]; lia].
Qed.

(** A reader finishes, and never moves the cursor back. *)
Definition reads_on (r : Z -> res (value * Z)) : Prop := forall jp, fin (r jp) /\ forall v p, r jp = Ok (v, p) -> jp <= p.

Lemma reads_bind {A} (m : res A) (f : A -> res (value * Z)) jp :
  fin m -> (forall a, m = Ok a -> fin (f a) /\ forall v p, f a = Ok (v, p) -> jp <= p) ->
  fin (m ≫= f) /\ forall v p, m ≫= f = Ok (v, p) -> jp <= p.
Proof. intros Hm Hf. destruct m as [a|e|]; cbn; [by apply Hf|by split|done]. Qed.
Lemma reads_Ok (v : value) jp p : jp <= p -> fin (Ok (v, p)) /\ forall v' p', Ok (v, p) = Ok (v', p') -> jp <= p'.
Proof. intros Hp. split; [done|]. by intros ? ? [= <- <-]. Qed.

Lemma or_null_reads r : reads_on r -> reads_on (or_null jb r).
Proof. intros Hr jp. unfold or_null. destruct (isc jb jp 110); [apply reads_Ok; lia|apply Hr]. Qed.
Lemma shifted_reads r f jp : reads_on r -> jp <= f -> fin (r f) /\ forall v p, r f = Ok (v, p) -> jp <= p.
Proof. intros Hr Hf. destruct (Hr f) as [H1 H2]. split; [done|]. intros v p E. specialize (H2 v p E). lia. Qed.
Lemma BigInt_fin s : fin (BigInt_text s).
Proof. unfold BigInt_text. repeat (case_match; try done). Qed.
Lemma sub_parse_reads : reads_on (sub_parse jb je).
Proof. intros jp. unfold sub_parse. apply reads_bind; [apply JSON_parse_fin|]. intros v _. apply reads_Ok, SKIPVALUE_ge. Qed.
Lemma minus_ge jp : jp <= minus jb jp.
Proof. unfold minus. case_match; lia. Qed.
Lemma rdNum_ge jp : jp <= (rdNum jb je jp).2.
Proof. cbn. pose proof (minus_ge jp). pose proof (skip_ge num_char (minus jb jp)). lia. Qed.
Lemma rd_number_reads : reads_on (rd_number jb je).
Proof.
  intros jp. unfold rd_number. pose proof (rdNum_ge jp). destruct (isc jb jp 34); [|by apply reads_Ok].
  apply reads_Ok. pose proof (skip_ge not_quote (jp + 1)). lia.
Qed.
Lemma rdStr_reads : reads_on (rdStr jb je).
Proof.
  intros jp. unfold rdStr. pose proof (to_quote_ge (left je (jp + 1)) (jp + 1) false) as Hq. destruct (to_quote _ _ _ _ _) as [p e]. cbn [fst] in Hq.
  apply reads_bind; [destruct e; [apply JSON_parse_fin|done]|]. intros v _. apply reads_Ok. lia.
Qed.
Lemma rdBigInt_reads : reads_on (rdBigInt jb je).
Proof.
  intros jp. unfold rdBigInt. pose proof (minus_ge jp). destruct (isc jb jp 34); (apply reads_bind; [apply BigInt_fin|]; intros v _; apply reads_Ok).
  - pose proof (skip_ge not_quote (jp + 1)). lia.
  - pose proof (skip_ge digit_char (minus jb jp)). lia.
Qed.
Lemma inlineEpoch_reads t : reads_on (inlineEpoch D jb je t).
Proof.
  intros jp. unfold inlineEpoch. destruct (instantTemplate _ _ _) as [ems ok]. apply reads_Ok. pose proof (skip_ge not_quote (jp + 1)). lia.
Qed.
Lemma inlineScalar_reads pg j : reads_on (inlineScalar D jb je pg j).
Proof.
  intros jp. unfold inlineScalar. destruct (temporalTarget pg j); [apply or_null_reads, inlineEpoch_reads|].
  destruct (bigintField pg j); [apply or_null_reads, rdBigInt_reads|]. destruct (float4Target pg j) as [f|].
  - apply or_null_reads. intros q. destruct (rd_number_reads q) as [H1 H2]. apply reads_bind; [done|]. intros [v p] E. apply reads_Ok. by eapply H2.
  - destruct (effJs _ _); apply or_null_reads.
    + apply rd_number_reads.
    + intros q. destruct (isc jb q 34); [apply rdStr_reads|]. apply reads_Ok, rdNum_ge.
    + intros q. apply reads_Ok. case_match; lia.
    + apply sub_parse_reads.
    + intros q. destruct (isc jb q 34); [apply rdStr_reads|]. apply reads_Ok, rdNum_ge.
Qed.

Lemma elements_reads elem f : reads_on elem -> forall jp acc, (left je jp < f)%nat ->
  fin (elements jb je elem f jp acc) /\ forall v p, elements jb je elem f jp acc = Ok (v, p) -> jp <= p.
Proof.
  intros He. induction f as [|f IH]; intros jp acc Hf; [lia|]. cbn [elements]. destruct (Z.ltb_spec jp je); cbn [negb]; [|apply reads_Ok; lia].
  unfold left in *. pose proof (SKIPWS_ge jp) as Hs. set (q := SKIPWS jb je jp) in *.
  assert (forall q' p', jp < q' -> jp <= p' -> forall acc', fin (let p := SKIPWS jb je p' in
    if isc jb p 44 then elements jb je elem f (p + 1) acc' else if isc jb p 93 then Ok (VArr acc', p + 1) else Ok (VArr acc', p))
    /\ forall v p, (let p := SKIPWS jb je p' in
    if isc jb p 44 then elements jb je elem f (p + 1) acc' else if isc jb p 93 then Ok (VArr acc', p + 1) else Ok (VArr acc', p)) = Ok (v, p) -> jp <= p) as Hrest.
  { intros q' p' _ Hp' acc'. pose proof (SKIPWS_ge p'). cbv zeta. destruct (isc jb _ 44); [|destruct (isc jb _ 93); apply reads_Ok; lia].
    destruct (IH (SKIPWS jb je p' + 1) acc') as [I1 I2]; [lia|]. split; [done|]. intros v p E. specialize (I2 v p E). lia. }
  apply reads_bind.
  - destruct (isc jb q 91); [|apply He]. pose proof (SKIPWS_ge (q + 1)). cbv zeta. destruct (isc jb _ 93); [done|]. apply IH. lia.
  - intros [v p] E. apply (Hrest (jp + 1)); [lia|]. destruct (isc jb q 91).
    + pose proof (SKIPWS_ge (q + 1)). cbv zeta in E. destruct (isc jb _ 93); [injection E as _ <-; lia|].
      destruct (IH (SKIPWS jb je (q + 1)) []) as [_ I2]; [lia|]. specialize (I2 _ _ E). lia.
    + destruct (He q) as [_ H2]. specialize (H2 _ _ E). lia.
Qed.
Lemma scalar_array_reads elem : reads_on elem -> reads_on (scalar_array jb je elem).
Proof.
  intros He jp. unfold scalar_array. pose proof (SKIPWS_ge (jp + 1)). cbv zeta. destruct (isc jb _ 93); [apply reads_Ok; lia|].
  destruct (elements_reads elem (S (left je (SKIPWS jb je (jp + 1)))) He (SKIPWS jb je (jp + 1)) []) as [H1 H2]; [lia|].
  split; [done|]. intros v p E. specialize (H2 v p E). lia.
Qed.
Lemma trim_length s : (length (trim s) <= length s)%nat.
Proof.
  assert (forall l, (length (skip_spaces l) <= length l)%nat) as G.
  { induction l as [|c l IH]; cbn [skip_spaces]; [done|]. destruct (StrWhiteSpace c); simpl; lia. }
  unfold trim. rewrite length_rev. etransitivity; [apply G|]. rewrite length_rev. apply G.
Qed.
Lemma inline_type_reads f pg j : (length pg < f)%nat -> reads_on (inline_type D jb je f pg j).
Proof.
  revert pg. induction f as [|f IH]; intros pg Hf; [lia|]. cbn [inline_type]. destruct (endsWith pg (js "[]")) eqn:E; [|apply inlineScalar_reads].
  assert (length (drop_end 2 pg) < f)%nat as Hl.
  { unfold drop_end. rewrite length_take. unfold endsWith in E. apply bool_decide_eq_true in E.
    assert (length (drop (length pg - length (js "[]")) pg) = 2%nat) as L by (by rewrite E). rewrite length_drop in L. lia. }
  pose proof (trim_length (drop_end 2 pg)).
  intros jp. apply shifted_reads; [|apply SKIPWS_ge]. apply or_null_reads, scalar_array_reads, IH. lia.
Qed.

(** ** Objects *)

Lemma scan_fields_reads order rs : Forall (fun i => (i < length rs)%nat) order -> Forall reads_on rs ->
  forall first jp vs, fin (scan_fields jb je first order rs jp vs) /\ forall l p, scan_fields jb je first order rs jp vs = Ok (l, p) -> jp <= p.
Proof.
  intros Ho Hr. induction Ho as [|i order Hi _ IH]; intros first jp vs; cbn [scan_fields].
  { split; [done|]. intros l p [= _ <-]. lia. }
  cbv zeta. set (a := if first then jp else SKIPWS jb je (SKIPWS jb je jp + 1)).
  assert (jp <= a) as Ha by (unfold a; pose proof (SKIPWS_ge jp); pose proof (SKIPWS_ge (SKIPWS jb je jp + 1)); destruct first; lia).
  set (c := SKIPWS jb je (SKIPWS jb je (SKIPSTR jb je a) + 1)).
  assert (jp <= c) as Hc.
  { unfold c. pose proof (SKIPSTR_ge a). pose proof (SKIPWS_ge (SKIPSTR jb je a)). pose proof (SKIPWS_ge (SKIPWS jb je (SKIPSTR jb je a) + 1)). lia. }
  destruct (rs !! i) as [r|] eqn:Er; [|apply lookup_ge_None in Er; lia]. apply Forall_lookup_1 with (1 := Hr) in Er.
  destruct (Er c) as [H1 H2]. destruct (r c) as [[v p]|e|] eqn:E; cbn [mbind res_bind]; [|by split|done].
  destruct (IH false p (<[i := v]> vs)) as [I1 I2]. split; [done|]. intros l q Eq. specialize (I2 _ _ Eq). specialize (H2 _ _ eq_refl). lia.
Qed.
Lemma scan_object_reads keys order rs : Forall (fun i => (i < length rs)%nat) order -> Forall reads_on rs ->
  reads_on (scan_object jb je keys order rs).
Proof.
  intros Ho Hr jp. unfold scan_object. apply shifted_reads; [|apply SKIPWS_ge]. apply or_null_reads. intros q. cbv zeta.
  pose proof (SKIPWS_ge (q + 1)). destruct (isc jb _ 125); [apply reads_Ok; lia|].
  destruct (scan_fields_reads order rs Ho Hr true (SKIPWS jb je (q + 1)) (replicate (length keys) VNull)) as [H1 H2].
  apply reads_bind; [done|]. intros [vs p] E. apply reads_Ok. specialize (H2 _ _ E). pose proof (skip_nested_ge (left je p) 123 125 1 p). unfold SKIPOBJEND. lia.
Qed.
Lemma scan_rows_reads row f : reads_on row -> forall jp acc, (left je jp < f)%nat ->
  fin (scan_rows jb je f row jp acc) /\ forall v p, scan_rows jb je f row jp acc = Ok (v, p) -> jp <= p.
Proof.
  intros He. induction f as [|f IH]; intros jp acc Hf; [lia|]. cbn [scan_rows]. destruct (Z.ltb_spec jp je); cbn [negb]; [|apply reads_Ok; lia].
  unfold left in *. destruct (He jp) as [H1 H2]. apply reads_bind; [done|]. intros [v p] E. specialize (H2 _ _ E). pose proof (SKIPWS_ge p). cbv zeta.
  destruct (isc jb _ 44); [|destruct (isc jb _ 93); apply reads_Ok; lia]. pose proof (SKIPWS_ge (SKIPWS jb je p + 1)).
  destruct (IH (SKIPWS jb je (SKIPWS jb je p + 1)) (acc ++ [v])) as [I1 I2]; [lia|]. split; [done|]. intros w q Eq. specialize (I2 _ _ Eq). lia.
Qed.
Lemma scan_array_reads row : reads_on row -> reads_on (scan_array jb je row).
Proof.
  intros Hr jp. unfold scan_array. apply shifted_reads; [|apply SKIPWS_ge]. apply or_null_reads. intros q. cbv zeta.
  pose proof (SKIPWS_ge (q + 1)). destruct (isc jb _ 93); [apply reads_Ok; lia|].
  destruct (scan_rows_reads row (S (left je (SKIPWS jb je (q + 1)))) Hr (SKIPWS jb je (q + 1)) []) as [H1 H2]; [lia|].
  split; [done|]. intros v p E. specialize (H2 v p E). lia.
Qed.

(** ** Generated readers *)

Lemma readers_length f es rs : readers f es = Ok rs -> length rs = length es.
Proof.
  revert rs. induction es as [|[k v] t IH]; intros rs; cbn [readers]; [by intros [= <-]|].
  intros E. apply bind_res_Ok_inv in E as (r & _ & E). apply bind_res_Ok_inv in E as (rs' & Er & [= <-]). cbn. f_equal. auto.
Qed.
Lemma readers_reads f es rs : Forall (fun kv => forall r, f kv.2 = Ok r -> reads_on r) es -> readers f es = Ok rs -> Forall reads_on rs.
Proof.
  intros H. revert rs. induction H as [|[k v] t Hv _ IH]; intros rs; cbn [readers]; [by intros [= <-]|].
  intros E. apply bind_res_Ok_inv in E as (r & Er & E). apply bind_res_Ok_inv in E as (rs' & Ers & [= <-]). constructor; [by apply Hv|by apply IH].
Qed.
Lemma wireOrder_range {V} (es : list (jstr * V)) b : Forall (fun i => (i < length es)%nat) (wireOrder es b).
Proof.
  destruct (wireOrder_spec es) as (E & P & _). assert (Forall (fun i => (i < length es)%nat) (seq 0 (length es))) as Hs.
  { apply Forall_forall. intros i Hi%elem_of_seq. lia. }
  destruct b; [|by rewrite E]. by rewrite P.
Qed.
Lemma gen_marker_reads f a b form spec r : Forall (fun kv => forall r, f kv.2 = Ok r -> reads_on r) spec ->
  gen_marker jb je f a b form spec = Ok r -> reads_on r.
Proof.
  intros Hf E. unfold gen_marker in E. apply bind_res_Ok_inv in E as (es & _ & E). apply bind_res_Ok_inv in E as (rs & Er & E).
  assert (reads_on (scan_object jb je (fst <$> spec) (wireOrder spec b) rs)) as Hrow.
  { apply scan_object_reads; [|by eapply readers_reads]. apply readers_length in Er. rewrite Er. apply wireOrder_range. }
  destruct a; injection E as <-; [by apply scan_array_reads|done].
Qed.

Fixpoint inlineValue_reads (f : jfield) : forall r, inlineValue D jb je f = Ok r -> reads_on r.
Proof.
  assert (forall t r, gen_type D jb je t = Ok r -> reads_on r) as Ht.
  { intros t r E. unfold gen_type in E. apply bind_res_Ok_inv in E as ([pg j] & _ & [= <-]). apply inline_type_reads. lia. }
  destruct f as [t|t fn| |a b form spec]; intros r E; [by eapply Ht|by eapply Ht|done|].
  cbn [inlineValue] in E. apply bind_res_Ok_inv in E as (p & _ & E). destruct p; [|injection E as <-; apply or_null_reads, sub_parse_reads].
  eapply gen_marker_reads; [|exact E]. clear E.
  induction spec as [|[k v] t IH]; constructor; [exact (inlineValue_reads v)|exact IH].
Qed.
End Scan.

(** decoding a shaped JSON column always finishes: whatever bytes the cell holds, JSON or not,
    truncated or with the cursor past its end, the generated scanner returns a value or throws, and
    it never moves its cursor back; so does JSON.parse, which the other shapes use. *)
Theorem scanner_total D jb je m r : inlineMarker D jb je m = Ok r ->
  (forall jp, r jp <> NoFuel /\ forall v p, r jp = Ok (v, p) -> jp <= p) /\ (forall s, JSON_parse s <> NoFuel).
Proof.
  intros E. split; [|apply JSON_parse_fin]. apply (gen_marker_reads jb je _ _ _ _ _ _ (Forall_true _ _ (fun kv => inlineValue_reads D jb je kv.2)) E).
Qed.

(** { id: 'int8', at: 'timestamp', tags: 'int8[]' } over jsonb, whose keys come by length; the ids
    pass 2^53, and the text is cut short. *)
Definition demo_shape : JsonMarker :=
  Jsonb [(js "tags", FType (js "int8[]")); (js "id", FType (js "int8")); (js "at", FType (js "timestamp"))].
Definition json_cell (s : string) : bytes := (fun c => if c =? 39 then 34 else c) <$> js s.
Definition demo_json : bytes := json_cell "{'at':'2024-01-02T03:04:05','id': 9007199254740993 ,'tags':[1,[2],null".
Definition demo_result : res (value * Z) :=
  Ok (VObj [(js "tags", VArr [VBig 1; VArr [VBig 2]; VNull]); (js "id", VBig 9007199254740993); (js "at", VDate (Some 1704164645000))], 70).
Lemma scanner_total_witness :
  (r ← inlineMarker (fun _ => None) demo_json (blen demo_json) demo_shape; r 0) = demo_result /\ demo_result <> NoFuel.
Proof.
  assert ((r ← inlineMarker (fun _ => None) demo_json (blen demo_json) demo_shape; r 0) = demo_result) as E by (vm_compute; reflexivity).
  split; [exact E|]. destruct (inlineMarker (fun _ => None) demo_json (blen demo_json) demo_shape) as [r|e|] eqn:Er; [|discriminate..].
  rewrite <- E. apply (scanner_total (fun _ => None) demo_json (blen demo_json) demo_shape r Er).
Defined.
