(* ===== verification/Decode.v ===== *)
(** * Decoding cells (src/decode.ts)

    The default decoder catalog, the text and binary strategies, the two dispatchers
    (the code the JIT engine inlines and the interpreted [pickDecoder]) and the
    decoders of logical-replication tuples. *)

From S2P Require Import Prelude Utf8 Buf Num Dates Value NumText Json JsonBig ExtTypes JsonSpec JsonScan ArrayText Temporal Protocol Framing Messages Encode.
Import Geo Registry.

(** ** Conversions of the language *)

(** Buffer.from(s, 'hex'): up to the first pair that is not two hex digits. *)
Fixpoint from_hex (s : jstr) : bytes :=
  match s with
  | a :: b :: t => match hex_val a, hex_val b with Some x, Some y => x * 16 + y :: from_hex t | _, _ => [] end
  | _ => []
  end.
Definition new_Date (ms : option Z) : value := VDate (ms ≫= TimeClip).
Definition num_ms (ms : option Z) : value := VNum (match ms with Some z => of_Z z | None => NaN end).

(** ** Section 1a: the default catalog *)

(** A decoder, by identity: two are the same function when they are equal here. *)
Inductive Decoder :=
| asString | asNumber | asBool | asJson | asBytea
| jsonBig (mode : JsonBigints) | jsonBigArray (mode : JsonBigints)
| user (id : Z).

Definition bytea_text (s : jstr) : value :=
  if bool_decide (take 2 s = js "\x") then VBuf (from_hex (drop 2 s)) else VBuf (utf8 s).

Definition defaultDecoders : gmap Z Decoder := list_to_map [
  (16, asBool); (17, asBytea); (21, asNumber); (23, asNumber); (26, asNumber); (700, asNumber); (701, asNumber);
  (114, asJson); (3802, asJson)].

#[global] Instance Decoder_eq : EqDecision Decoder. Proof. solve_decision. Defined.

(** ** Section 1b: array literals and their elements *)

(** What the decoders take from the rest of the driver: the registry of user types,
    the user's decoders, whether JSON.parse passes source texts to its reviver, and Date.parse of
    the texts that PostgreSQL does not write. *)
Class Env := {
  reg : registry;
  user_decoder : Z -> bytes -> res value;
  jsonSourceSupported : bool;
  Date_parse : jstr -> option Z;
}.

Section Decode.
Context `{Env}.

Definition run_decoder (d : Decoder) (b : bytes) : res value :=
  let s := utf8_decode b in
  match d with
  | asString => Ok (VStr s)
  | asNumber => Ok (VNum (Number s))
  | asBool => Ok (VBool (bool_decide (at_ b 0 = Some 116)))
  | asJson => JSON_parse s
  | asBytea => Ok (bytea_text s)
  | jsonBig m => jsonDecoder jsonSourceSupported m b
  | jsonBigArray m => l ← parseArrayLiteral (fun s => bigintJsonParser jsonSourceSupported m s None) 44 s; Ok (VArr l)
  | user id => user_decoder id b
  end.

Definition buildDecoders (overrides : list (Z * Decoder)) (jsonBigints : JsonBigints) : gmap Z Decoder :=
  let m := match jsonBigints with
           | JNumber => defaultDecoders
           | _ => <[3807 := jsonBigArray jsonBigints]> (<[199 := jsonBigArray jsonBigints]>
                   (<[3802 := jsonBig jsonBigints]> (<[114 := jsonBig jsonBigints]> defaultDecoders)))
           end in
  foldl (fun m p => <[p.1 := p.2]> m) m overrides.
Definition decoderFor (oid : Z) (map : gmap Z Decoder) : Decoder := default asString (map !! oid).

Definition byteaLeaf (s : jstr) : value :=
  match s with
  | a :: b :: t => if (a =? 92) && (b =? 120) then VBuf (from_hex t) else VBuf (utf8 s)
  | _ => VBuf (utf8 s)
  end.
Definition parseInstantMs (s : jstr) : option Z := default None (instantFromString s).

(** The element leaf of a type and target. *)
Definition elemLeafFor (elemOid : Z) (j : Target) : ExtTypes.Leaf :=
  match customLeafFor reg elemOid j with
  | Some f => f
  | None =>
    match extLeafFor elemOid j with
    | Some f => f
    | None =>
      let strLeaf : ExtTypes.Leaf := fun s => Ok (VStr s) in
      let numLeaf : ExtTypes.Leaf := fun s => Ok (VNum (Number s)) in
      if elemOid =? 16 then fun s => Ok (VBool (bool_decide (s = js "t")))
      else if elemOid =? 17 then fun s => Ok (byteaLeaf s)
      else if elemOid =? 20 then if tgt j "number" then numLeaf else if tgt j "string" then strLeaf else BigInt_text
      else if bool_decide (elemOid ∈ [21; 23; 26; 700; 701]) then numLeaf
      else if elemOid =? 1700 then if tgt j "number" then numLeaf else if tgt j "bigint" then BigInt_text else strLeaf
      else if elemOid =? 790 then if tgt j "number" then numLeaf else strLeaf
      else if (elemOid =? 114) || (elemOid =? 3802) then JSON_parse
      else if bool_decide (elemOid ∈ [1082; 1114; 1184]) then
        if tgt j "ms" then fun s => Ok (num_ms (parseInstantMs s))
        else if tgt j "string" then strLeaf else fun s => Ok (new_Date (parseInstantMs s))
      else strLeaf
    end
  end.

Definition arrayDecoderForElem (elem : option Z) (j : Target) (b : bytes) : res value :=
  l ← (match elem with
       | None => parseArrayLiteral (fun s => Ok (VStr s)) 44 (utf8_decode b)
       | Some e => parseArrayLiteral (elemLeafFor e j)
                     (if e =? 603 then 59 else default 44 (customDelimFor reg e)) (utf8_decode b)
       end);
  Ok (VArr l).
Definition arrayDecoderFor (arrayOid : Z) (j : Target) : bytes -> res value := arrayDecoderForElem (ELEM_OID arrayOid) j.

(** ** Columns *)

Record CodegenCol := mkCol {
  name : jstr; oid : Z; js_ : Target; json : option JsonSpec.JsonMarker; binary : bool; array : option (Z * Target);
  path : option (list jstr); groupNullable : list bool; xform : option (value -> res value); nullable : bool }.

Definition tagArrayCol (col : CodegenCol) : CodegenCol :=
  match array col, json col with
  | None, None =>
    match ELEM_OID (oid col) with
    | Some elem => mkCol (name col) (oid col) (js_ col) None (binary col) (Some (elem, None)) (path col)
                         (groupNullable col) (xform col) (nullable col)
    | None => col
    end
  | _, _ => col
  end.

Definition ASCII_COMMON : list Z := [20; 1700; 1082; 1083; 1114; 1184; 1186; 2950].
Definition ASCII_EXTRA : list Z := [
  774; 829; 650; 869; 1266; 1560; 1562; 3220; 600; 601; 602; 603; 604; 628; 718;
  3904; 3906; 3908; 3910; 3912; 3926; 4451; 4532; 4533; 4534; 4535; 4536].
Definition ASCII_SAFE (oid : Z) : bool := bool_decide (oid ∈ ASCII_COMMON ++ ASCII_EXTRA).
Definition BINARY_FAST (oid : Z) : bool := bool_decide (oid ∈ [21; 23; 26; 20; 701; 1082; 1114; 1184; 17]).
Definition INSTANT_OIDS (oid : Z) : bool := bool_decide (oid ∈ [1082; 1114; 1184]).
Definition INT_OIDS (oid : Z) : bool := bool_decide (oid ∈ [20; 21; 23; 26]).

Definition defaultJs (oid : Z) : string :=
  if oid =? 16 then "bool"
  else if oid =? 17 then "bytea"
  else if (oid =? 114) || (oid =? 3802) then "json"
  else if bool_decide (oid ∈ [21; 23; 26; 700; 701]) then "number"
  else if bool_decide (oid ∈ [20; 1700; 790]) then "string"
  else if bool_decide (oid ∈ [18; 19; 25; 1042; 1043; 1082; 1083; 1114; 1184; 1186; 2950]) then "string"
  else if ASCII_SAFE oid then "string" else "helper".

(** ** Text strategies *)

Definition txtUtf8 : CellDecoder := fun b o l => Ok (VStr (utf8_at b o l)).
Definition txtLatin1 : CellDecoder := fun b o l => Ok (VStr (lat1_at b o l)).
Definition txtBool : CellDecoder := fun b o l => Ok (VBool (bool_decide (at_ b o = Some 116))).
Definition txtJson : CellDecoder := fun b o l => JSON_parse (utf8_at b o l).
Definition txtBytea : CellDecoder := fun b o l => Ok (byteaLeaf (lat1_at b o l)).
Definition txtIntCell : CellDecoder := fun b o l => Ok (VNum (txtInt b o l)).
Definition txtF64Cell : CellDecoder := fun b o l => Ok (VNum (txtF64 b o l)).
Definition txtBigInt : CellDecoder := fun b o l => BigInt_text (lat1_at b o l).
Definition txtF4Precise : CellDecoder := fun b o l => Ok (VNum (fround (txtF64 b o l))).
Definition tsParse (b : bytes) (o l : Z) : option Z := default None (instantFromBytes b o l).
Definition tsDate : CellDecoder := fun b o l => Ok (new_Date (tsParse b o l)).
Definition tsEpoch : CellDecoder := fun b o l => Ok (num_ms (tsParse b o l)).

(** What the temporal snippet spliced in a generated mapper leaves in [v]. *)
Definition tsFromBytes (date : bool) : CellDecoder := fun b o l =>
  let '(ems, ok) := instantTemplate b o l in
  let ems := if ok then ems else None in
  Ok (if date then new_Date ems else num_ms ems).

(** The code inlined for a text column; [None] routes it to its helper closure. *)
Definition inlineSnippet (oid : Z) (j : Target) : option CellDecoder :=
  let j := if bool_decide (j = None) && INSTANT_OIDS oid then Some "date"%string else j in
  if (tgt j "date" || tgt j "ms") && INSTANT_OIDS oid then Some (tsFromBytes (tgt j "date"))
  else
    let j := if tgt j "date" || tgt j "ms" then Some "string"%string else j in
    if tgt j "bigint" || (bool_decide (j = None) && (oid =? 20)) then Some (fun b o l => BigInt_text (lat1_at b o l))
    else if (oid =? 700) && negb (tgt j "string") then
      Some (if tgt j "precise" then fun b o l => let v := txtF64 b o l in Ok (VNum (fround v)) else txtF64Cell)
    else
      let eff := default (defaultJs oid) j in
      if (eff =? "number")%string then Some (if INT_OIDS oid then txtIntCell else txtF64Cell)
      else if (eff =? "string")%string then
        Some (if ASCII_SAFE oid then fun b o l => Ok (VStr (lat1_at b o l)) else fun b o l => Ok (VStr (utf8_at b o l)))
      else if (eff =? "latin1")%string then Some (fun b o l => Ok (VStr (lat1_at b o l)))
      else if (eff =? "bool")%string then Some (fun b o l => Ok (VBool (bool_decide (at_ b o = Some 116))))
      else if (eff =? "json")%string then Some (fun b o l => JSON_parse (utf8_at b o l))
      else if (eff =? "bytea")%string then Some (fun b o l => Ok (byteaLeaf (lat1_at b o l)))
      else None.

(** ** Binary strategies *)

(** hi * 2^32 + lo, on doubles: the product is exact, the sum may round. *)
Definition rd64 (b : bytes) (o : Z) : Z := fl (rd32 b o * 4294967296 + u32 (rd32 b (o + 4))).
Definition binInt8Str : CellDecoder := fun b o l =>
  let n := rd64 b o in
  if (-9007199254740991 <=? n) && (n <=? 9007199254740991) then Ok (VStr (show_Z n))
  else v ← readBigInt64BE b o; Ok (VStr (show_Z v)).
Definition num_cell (r : res Z) : res value := z ← r; Ok (VNum (of_Z z)).
Definition uuid_text (h : jstr) : jstr :=
  slice h 0 8 ++ 45 :: slice h 8 12 ++ 45 :: slice h 12 16 ++ 45 :: slice h 16 20 ++ 45 :: slice h 20 32.
Definition binDate (b : bytes) (o : Z) : res Z := d ← readInt32BE b o; Ok (d * 86400000 + PG_EPOCH_MS).

(** The binary reads of a type (interpreted engine). *)
Definition pickBinary (oid : Z) (j : Target) : res CellDecoder :=
  if oid =? 16 then Ok (fun b o l => Ok (VBool (bool_decide (at_ b o = Some 1))))
  else if oid =? 21 then Ok (fun b o l => num_cell (readInt16BE b o))
  else if oid =? 23 then Ok (fun b o l => num_cell (readInt32BE b o))
  else if oid =? 26 then Ok (fun b o l => num_cell (readUInt32BE b o))
  else if oid =? 20 then
    Ok (if tgt j "number" then fun b o l => Ok (VNum (of_Z (rd64 b o)))
        else if tgt j "string" then binInt8Str else fun b o l => v ← readBigInt64BE b o; Ok (VBig v))
  else if oid =? 700 then Ok (fun b o l => z ← readUInt32BE b o; Ok (VNum (f32_of_bits z)))
  else if oid =? 701 then Ok (fun b o l => z ← readBigUInt64BE b o; Ok (VNum (f64_of_bits z)))
  else if (oid =? 1114) || (oid =? 1184) then
    Ok (if tgt j "ms" then fun b o l => Ok (num_ms (Some (binTimestampMs b o)))
        else fun b o l => Ok (new_Date (Some (binTimestampMs b o))))
  else if oid =? 1082 then
    Ok (if tgt j "ms" then fun b o l => z ← binDate b o; Ok (num_ms (Some z))
        else fun b o l => z ← binDate b o; Ok (new_Date (Some z)))
  else if oid =? 2950 then Ok (fun b o l => Ok (VStr (uuid_text (hex (subarray b o (o + 16))))))
  else if oid =? 17 then Ok (fun b o l => Ok (VBuf (subarray b o (o + l))))
  else if bool_decide (oid ∈ [18; 19; 25; 1042; 1043]) then Ok txtUtf8
  else Throw (Error (js "minipg: no binary decoder for oid " ++ show_Z oid ++ js " (request text format for this column)")).

(** The code inlined for a binary column. *)
Definition binarySnippet (oid : Z) (j : Target) : option CellDecoder :=
  if oid =? 16 then Some (fun b o l => Ok (VBool (bool_decide (at_ b o = Some 1))))
  else if oid =? 21 then Some (fun b o l => num_cell (readInt16BE b o))
  else if oid =? 23 then Some (fun b o l => num_cell (readInt32BE b o))
  else if oid =? 26 then Some (fun b o l => num_cell (readUInt32BE b o))
  else if oid =? 20 then
    Some (if tgt j "number" then fun b o l => Ok (VNum (of_Z (fl (rd32 b o * 4294967296 + u32 (rd32 b (o + 4))))))
          else if tgt j "string" then fun b o l =>
            let n := fl (rd32 b o * 4294967296 + u32 (rd32 b (o + 4))) in
            if (-9007199254740991 <=? n) && (n <=? 9007199254740991) then Ok (VStr (show_Z n))
            else v ← readBigInt64BE b o; Ok (VStr (show_Z v))
          else fun b o l => v ← readBigInt64BE b o; Ok (VBig v))
  else if oid =? 700 then Some (fun b o l => z ← readUInt32BE b o; Ok (VNum (f32_of_bits z)))
  else if oid =? 701 then Some (fun b o l => z ← readBigUInt64BE b o; Ok (VNum (f64_of_bits z)))
  else if (oid =? 1114) || (oid =? 1184) then
    Some (fun b o l => let ms := Some (binTimestampMs b o) in Ok (if tgt j "ms" then num_ms ms else new_Date ms))
  else if oid =? 1082 then
    Some (fun b o l => d ← readInt32BE b o; let ms := Some (d * 86400000 + PG_EPOCH_MS) in
                       Ok (if tgt j "ms" then num_ms ms else new_Date ms))
  else if oid =? 2950 then Some (fun b o l => Ok (VStr (uuid_text (hex (subarray b o (o + 16))))))
  else if oid =? 17 then Some (fun b o l => Ok (VBuf (subarray b o (o + l))))
  else if bool_decide (oid ∈ [18; 19; 25; 1042; 1043]) then Some (fun b o l => Ok (VStr (utf8_at b o l)))
  else None.

Definition pickText (oid : Z) (j : Target) : option CellDecoder :=
  let j := if bool_decide (j = None) && INSTANT_OIDS oid then Some "date"%string else j in
  if (tgt j "date" || tgt j "ms") && INSTANT_OIDS oid then Some (if tgt j "date" then tsDate else tsEpoch)
  else
    let j := if tgt j "date" || tgt j "ms" then Some "string"%string else j in
    if tgt j "bigint" || (bool_decide (j = None) && (oid =? 20)) then Some txtBigInt
    else if (oid =? 700) && negb (tgt j "string") && tgt j "precise" then Some txtF4Precise
    else
      let j := if (oid =? 700) && negb (tgt j "string") then None else j in
      let eff := default (defaultJs oid) j in
      if (eff =? "number")%string then Some (if INT_OIDS oid then txtIntCell else txtF64Cell)
      else if (eff =? "string")%string then Some (if ASCII_SAFE oid then txtLatin1 else txtUtf8)
      else if (eff =? "latin1")%string then Some txtLatin1
      else if (eff =? "bool")%string then Some txtBool
      else if (eff =? "json")%string then Some txtJson
      else if (eff =? "bytea")%string then Some txtBytea
      else None.

(** ** The two dispatchers *)

Definition wrap (d : bytes -> res value) : CellDecoder := fun b o l => d (subarray b o (o + l)).
Definition overridden (map : gmap Z Decoder) (oid : Z) : bool :=
  match map !! oid with Some d => negb (bool_decide (Some d = defaultDecoders !! oid)) | None => false end.

Definition helperFor (oid : Z) (map : gmap Z Decoder) : CellDecoder :=
  if (oid =? 17) && bool_decide (map !! 17 = defaultDecoders !! 17)
  then fun b o l => Ok (bytea_text (utf8_at b o l))
  else wrap (run_decoder (decoderFor oid map)).
Definition helperForCol (col : CodegenCol) (map : gmap Z Decoder) : CellDecoder :=
  let has := bool_decide (is_Some (map !! oid col)) in
  match array col with
  | Some (e, j) => if has then helperFor (oid col) map else wrap (arrayDecoderForElem (Some e) j)
  | None =>
    if has then helperFor (oid col) map
    else match customAt reg (oid col) (js_ col) false with
         | Some d => d
         | None => match extAt (oid col) (js_ col) with Some d => d | None => helperFor (oid col) map end
         end
  end.

(** The decoding code generated for a column (an error at compilation when it has none). *)
Definition columnLines (col : CodegenCol) (map : gmap Z Decoder) : res CellDecoder :=
  if binary col then
    match binarySnippet (oid col) (js_ col) with
    | Some d => Ok d
    | None => Throw (Error (js "decode2: no binary decoder for oid " ++ show_Z (oid col) ++ js " (request text format for this column)"))
    end
  else match json col with
       | Some m => json_column Date_parse m
       | None =>
         let inl := match array col with
                    | Some _ => None
                    | None => if overridden map (oid col) then None else inlineSnippet (oid col) (js_ col)
                    end in
         Ok (default (helperForCol col map) inl)
       end.

Definition pickDecoder (col : CodegenCol) (map : gmap Z Decoder) : res CellDecoder :=
  if binary col then pickBinary (oid col) (js_ col)
  else match json col with
       | Some m =>
         let base := wrap (run_decoder (decoderFor (oid col) map)) in
         n ← specNeedsWalk m;
         if (n : bool) then walk ← buildJsonWalk Date_parse m; Ok (fun b o l => v ← base b o l; (walk : value -> res value) v)
         else Ok base
       | None =>
         match (if overridden map (oid col) then map !! oid col else None) with
         | Some d => Ok (wrap (run_decoder d))
         | None =>
           match array col with
           | Some (e, j) => Ok (wrap (arrayDecoderForElem (Some e) j))
           | None =>
             match customAt reg (oid col) (js_ col) false with
             | Some d => Ok d
             | None =>
               match extAt (oid col) (js_ col) with
               | Some d => Ok d
               | None => Ok (default (wrap (run_decoder (decoderFor (oid col) map))) (pickText (oid col) (js_ col)))
               end
             end
           end
         end
       end.
End Decode.
