(* ===== verification/MapperProofs.v ===== *)
(** * The two engines decode alike *)

From S2P Require Import Prelude Utf8 Buf Num Dates Value NumText Json JsonBig ExtTypes ArrayText Temporal Protocol Framing Messages Encode Decode Mapper.
Import Geo Registry.

Section Parity.
Context `{Env}.

(** ** Cell decoders *)

Definition same_cells (f g : CellDecoder) : Prop := forall b o l, f b o l = g b o l.

Lemma snippet_instant date : same_cells (tsFromBytes date) (if date then tsDate else tsEpoch).
Proof.
  intros b o l. unfold tsFromBytes. destruct date; unfold tsDate, tsEpoch, tsParse; rewrite template_bytes;
    destruct (instantTemplate b o l) as [out ok]; by destruct ok.
Qed.

Lemma inline_pick oid j :
  match inlineSnippet oid j, pickText oid j with Some f, Some g => same_cells f g | None, None => True | _, _ => False end.
Proof.
  unfold inlineSnippet, pickText. set (j1 := if bool_decide (j = None) && INSTANT_OIDS oid then Some "date"%string else j).
  destruct ((tgt j1 "date" || tgt j1 "ms") && INSTANT_OIDS oid).
  { pose proof (snippet_instant (tgt j1 "date")). by destruct (tgt j1 "date"). }
  set (j2 := if tgt j1 "date" || tgt j1 "ms" then Some "string"%string else j1).
  destruct (tgt j2 "bigint" || (bool_decide (j2 = None) && (oid =? 20))); [done|].
  destruct (Z.eqb_spec oid 700) as [->|]; cbn [andb].
  - destruct (tgt j2 "string"); cbn [negb andb].
    + repeat match goal with |- context [if ?c then _ else _] => destruct c end; done.
    + by destruct (tgt j2 "precise").
  - set (eff := default (defaultJs oid) j2). repeat match goal with |- context [if ?c then _ else _] => destruct c end; done.
Qed.

Lemma binary_pick oid j :
  match binarySnippet oid j, pickBinary oid j with Some f, Ok g => same_cells f g | None, Throw _ => True | _, _ => False end.
Proof.
  unfold binarySnippet, pickBinary.
  do 4 (destruct (oid =? _); [done|]). destruct (oid =? 20). { destruct (tgt j "number"); [done|]. by destruct (tgt j "string"). }
  do 2 (destruct (oid =? _); [done|]). destruct ((oid =? 1114) || (oid =? 1184)). { by destruct (tgt j "ms"). }
  destruct (oid =? 1082). { unfold binDate. destruct (tgt j "ms"); intros b o l; by destruct (readInt32BE b o). }
  do 2 (destruct (oid =? _); [done|]). by destruct (bool_decide _).
Qed.

(** The targets both dispatchers interpret themselves. *)
Definition builtin_targets : list string :=
  ["number"; "string"; "bigint"; "date"; "ms"; "latin1"; "bool"; "json"; "bytea"]%string.

(** Columns on which the engines agree: no shaped JSON (its scanner is generated), a
    user-defined type's target is not named like a built-in one, and an array column
    has an array's OID. *)
Definition col_ok (c : CodegenCol) : Prop :=
  json c = None
  /\ (is_Some (DEFS reg !! oid c) -> forall t, js_ c = Some t -> t ∉ builtin_targets)
  /\ (is_Some (array c) -> defaultDecoders !! oid c = None).

Lemma inline_none oid j : oid <= -2000 -> (forall t, j = Some t -> t ∉ builtin_targets) -> inlineSnippet oid j = None.
Proof.
  intros Ho Ht. unfold inlineSnippet.
  assert (forall l, Forall (fun k => -2000 < k) l -> bool_decide (oid ∈ l) = false) as Hl.
  { intros l Hl. apply bool_decide_eq_false. rewrite Forall_forall in Hl. intros Hin. specialize (Hl _ Hin). lia. }
  assert (INSTANT_OIDS oid = false) as -> by (apply Hl; repeat constructor; lia).
  assert (forall k, k ∈ builtin_targets -> tgt j k = false) as Hk.
  { intros k Hk. unfold tgt. apply bool_decide_eq_false. intros ->. by apply (Ht k). }
  cbv zeta. rewrite !andb_false_r. cbv iota. rewrite !Hk by (apply (bool_decide_unpack _); vm_compute; exact I). cbn [orb andb]. cbv iota.
  destruct (Z.eqb_spec oid 20); [lia|]. rewrite ?andb_false_r. destruct (Z.eqb_spec oid 700); [lia|]. cbn [andb orb]. cbv iota.
  assert (forall k, k ∈ builtin_targets -> (default (defaultJs oid) j =? k)%string = false) as He.
  { intros k Hkb. destruct j as [t|]; simpl.
    - apply String.eqb_neq. intros ->. by apply (Ht k).
    - assert (defaultJs oid = "helper"%string) as ->.
      { unfold defaultJs. destruct (Z.eqb_spec oid 16); [lia|]. destruct (Z.eqb_spec oid 17); [lia|].
        destruct (Z.eqb_spec oid 114); [lia|]. destruct (Z.eqb_spec oid 3802); [lia|]. cbn [orb].
        rewrite !Hl by (repeat constructor; lia). unfold ASCII_SAFE. by rewrite Hl by (repeat constructor; lia). }
      revert k Hkb. apply (Forall_forall (fun k => ("helper" =? k)%string = false)). repeat constructor. }
  rewrite !He by (apply (bool_decide_unpack _); vm_compute; exact I). done.
Qed.

Lemma ext_inline_none oid j f : extAt oid j = Some f -> inlineSnippet oid j = None.
Proof.
  assert (forall o, Forall (fun t => inlineSnippet o (Some t) = None) ["xy"; "tuple"; "abc"; "array"; "f32"; "sparse"]%string ->
    forall t, j = Some t -> t ∈ ["xy"; "tuple"; "abc"; "array"; "f32"; "sparse"]%string -> inlineSnippet o j = None) as Hg
    by (intros o Ho t -> Hin; by eapply Forall_forall in Ho).
  unfold extAt. assert (forall s, tgt j s = true -> j = Some s) as Ht by (intros s; apply bool_decide_eq_true_1).
  repeat match goal with
  | |- context [if oid =? ?k then _ else _] => destruct (Z.eqb_spec oid k) as [->|]
  | |- context [if tgt j ?s then _ else _] => destruct (tgt j s) eqn:?
  end; try done; intros _; (eapply Hg; [repeat constructor|by apply Ht; eassumption|apply (bool_decide_unpack _); vm_compute; exact I]).
Qed.

Lemma custom_ext_default oid : is_Some (defaultDecoders !! oid) -> -2000 < oid /\ forall j, extAt oid j = None.
Proof.
  intros [d Hd]. assert (oid ∈ [16; 17; 21; 23; 26; 700; 701; 114; 3802]) as Hin.
  { unfold defaultDecoders in Hd. apply elem_of_list_to_map_2 in Hd.
    change [16; 17; 21; 23; 26; 700; 701; 114; 3802] with (fst <$> [(16, asBool); (17, asBytea); (21, asNumber); (23, asNumber); (26, asNumber); (700, asNumber); (701, asNumber); (114, asJson); (3802, asJson)]).
    apply list_elem_of_fmap. by exists (oid, d). }
  clear Hd d. revert oid Hin. apply (proj1 (Forall_forall (fun oid => -2000 < oid /\ forall j, extAt oid j = None) _)).
  repeat (apply List.Forall_cons; [split; [lia|done]|]). apply List.Forall_nil.
Qed.

(** What compiling and picking a column's decoder give. *)
Definition same_res (r1 r2 : res CellDecoder) : Prop :=
  match r1, r2 with Ok f, Ok g => same_cells f g | Throw _, Throw _ => True | _, _ => False end.

Lemma helper_default oid map : overridden map oid = false ->
  same_cells (helperFor oid map) (wrap (run_decoder (decoderFor oid map))).
Proof.
  intros Ho b o l. unfold helperFor. destruct (Z.eqb_spec oid 17) as [->|]; cbn [andb]; [|done].
  case_bool_decide as E; [|done]. unfold decoderFor, wrap, run_decoder. rewrite E. done.
Qed.

Hypothesis Hreg : reg_ok reg.

Lemma helper_overridden oid map d : map !! oid = Some d -> Some d <> defaultDecoders !! oid ->
  same_cells (helperFor oid map) (wrap (run_decoder d)).
Proof.
  intros Em Hd b o l. unfold helperFor. destruct (Z.eqb_spec oid 17) as [->|]; cbn [andb].
  - rewrite bool_decide_false by (by rewrite Em). unfold decoderFor. by rewrite Em.
  - unfold decoderFor. by rewrite Em.
Qed.

Lemma column_parity c map : col_ok c -> same_res (columnLines c map) (pickDecoder c map).
Proof.
  intros (Hj & Hc & Ha). unfold columnLines, pickDecoder. destruct (binary c).
  { pose proof (binary_pick (oid c) (js_ c)) as Hb. destruct (binarySnippet _ _), (pickBinary _ _); done. }
  rewrite Hj. destruct (overridden map (oid c)) eqn:Eo.
  { unfold overridden in Eo. destruct (map !! oid c) as [d|] eqn:Em; [|done]. apply negb_true_iff, bool_decide_eq_false in Eo.
    pose proof (helper_overridden _ _ _ Em Eo) as Hh. unfold helperForCol. rewrite bool_decide_true by (by rewrite Em).
    by destruct (array c) as [[e j]|]. }
  pose proof (helper_default _ _ Eo) as Hh.
  assert (is_Some (map !! oid c) -> is_Some (defaultDecoders !! oid c)) as Hhas.
  { intros [d Em]. unfold overridden in Eo. rewrite Em in Eo. apply negb_false_iff, bool_decide_eq_true in Eo. by rewrite <- Eo. }
  unfold helperForCol. destruct (array c) as [[e j]|].
  { rewrite bool_decide_false; [done|]. intros Hm. apply Hhas in Hm. rewrite Ha in Hm by done. by destruct Hm. }
  pose proof (inline_pick (oid c) (js_ c)) as Hip.
  unfold customAt in *. destruct (DEFS reg !! oid c) as [def|] eqn:Ed.
  { assert (oid c <= -2000) as Ho by (destruct Hreg as [_ Hr]; destruct (Hr _ _ Ed); lia).
    rewrite inline_none; [|done|by apply Hc].
    rewrite bool_decide_false; [by repeat case_match|]. intros Hm. apply Hhas, custom_ext_default in Hm as [? _]. lia. }
  destruct (extAt (oid c) (js_ c)) as [d|] eqn:Ex.
  { rewrite (ext_inline_none _ _ _ Ex). rewrite bool_decide_false; [done|].
    intros Hm. apply Hhas, custom_ext_default in Hm as [_ Hx]. by rewrite Hx in Ex. }
  destruct (inlineSnippet _ _), (pickText _ _); try done. cbn [default]. by case_bool_decide.
Qed.

(** ** Rows *)

Lemma read_cells_same ds ds' b o : Forall2 same_cells ds ds' -> read_cells ds b o = read_cells ds' b o.
Proof.
  intros Hd. revert o. induction Hd as [|d d' ds ds' Hd _ IH]; intros o; [done|]. cbn [read_cells]. rewrite Hd, IH.
  destruct (rd32 b o =? -1); [done|]. by destruct (d' b (o + 4) (rd32 b o)); cbn [mbind res_bind]; rewrite ?IH.
Qed.

Lemma columns_parity cols map : Forall col_ok cols ->
  match mapM (fun c => columnLines c map) cols, mapM (fun c => pickDecoder c map) cols with
  | Ok ds, Ok ds' => Forall2 same_cells ds ds' | Throw _, Throw _ => True | _, _ => False end.
Proof.
  induction 1 as [|c cols Hc _ IH]; [constructor|]. cbn [mapM]. pose proof (column_parity c map Hc) as Hp.
  destruct (columnLines c map), (pickDecoder c map); try done. cbn [mbind res_bind].
  destruct (mapM _ cols), (mapM _ cols); try done. cbn [mbind res_bind mret res_ret]. by constructor.
Qed.

Lemma read_cells_length ds b o vals : read_cells ds b o = Ok vals -> length vals = length ds.
Proof.
  revert o vals. induction ds as [|d ds IH]; intros o vals; cbn [read_cells]; [by intros [= <-]|].
  destruct (_ =? _); [|intros (v & _ & E)%bind_res_Ok_inv; revert E]; intros (vs & E & [= <-])%bind_res_Ok_inv; simpl; f_equal; eauto.
Qed.

(** ** The trees *)

Section NodeInd.
Context (P : ONode -> Prop).
Hypothesis Hnode : forall ls gs nl, Forall (fun kg => P kg.2) gs -> P (Node ls gs nl).
Fixpoint ONode_rec_all (n : ONode) : P n :=
  let '(Node ls gs nl) := n in
  Hnode ls gs nl ((fix go (gs : list (jstr * ONode)) : Forall (fun kg => P kg.2) gs := match gs with
                     | [] => @List.Forall_nil _ (fun kg => P kg.2)
                     | kg :: t => @List.Forall_cons _ (fun kg => P kg.2) kg t (ONode_rec_all kg.2) (go t)
                     end) gs).
End NodeInd.

Lemma groupAllNull_idx n vals : groupAllNull n vals = forallb (is_null vals) (allIdx n).
Proof.
  induction n as [ls gs nl IH] using ONode_rec_all. cbn [groupAllNull allIdx]. rewrite forallb_app. f_equal.
  - induction ls as [|l ls IHl]; [done|]. simpl. by rewrite IHl.
  - induction IH as [|[k g] gs Hg _ IHg]; [done|]. rewrite forallb_app, IHg. f_equal. exact Hg.
Qed.

(** Every group has a column below it. *)
Fixpoint full (n : ONode) : bool :=
  let '(Node ls gs _) := n in
  (fix go (gs : list (jstr * ONode)) : bool :=
    match gs with [] => true | (_, g) :: t => full g && negb (length (allIdx g) =? 0)%nat && go t end) gs.

Lemma assemble_literal n vals : full n = true -> assembleObj n vals = objectLiteral n vals.
Proof.
  induction n as [ls gs nl IH] using ONode_rec_all. cbn [full assembleObj objectLiteral]. intros Hf.
  destruct (set_leaves ls vals []) as [acc|e|]; try done. cbn [mbind res_bind]. clear ls nl. revert acc.
  induction IH as [|[k g] gs Hg _ IHg]; intros acc; [done|]. apply andb_true_iff in Hf as [Hf Hgs]. apply andb_true_iff in Hf as [Hfg Hne].
  simpl in Hg. destruct g as [gl gg gn] eqn:Eg. rewrite <- Eg in *. rewrite Hg by done.
  match goal with |- ?A ≫= ?K = ?B ≫= ?K2 => assert (A = B) as -> end.
  { destruct gn; cbn [andb negb]; [|done]. rewrite groupAllNull_idx.
    destruct (filter _ gl) as [|r rs]; [|by destruct (existsb _ _)]. cbn [existsb].
    destruct (allIdx g) as [|i idx]; [done|]. by destruct (forallb _ _). }
  match goal with |- ?B ≫= _ = _ => destruct B as [v|e|] end; try done. cbn [mbind res_bind]. by apply IHg.
Qed.

Definition inhabited (n : ONode) : bool := full n && negb (length (allIdx n) =? 0)%nat.
Lemma full_groups ls gs nl : full (Node ls gs nl) = forallb (fun kg => inhabited kg.2) gs.
Proof. cbn [full]. induction gs as [|[k g] gs IH]; [done|]. cbn [forallb]. rewrite <- IH. done. Qed.

Lemma allIdx_groups ls gs nl : allIdx (Node ls gs nl) = (lidx <$> ls) ++ concat ((fun kg => allIdx kg.2) <$> gs).
Proof. cbn [allIdx]. f_equal. induction gs as [|[k g] gs IH]; [done|]. cbn [fmap list_fmap concat]. by rewrite <- IH. Qed.

Lemma insert_inhabited path gn lf n : full n = true -> inhabited (insert_leaf path gn lf n) = true.
Proof.
  revert gn n. induction path as [|seg rest IH]; intros gn [ls gs nl] Hf; unfold inhabited; rewrite full_groups in Hf; cbn [insert_leaf].
  - rewrite full_groups, Hf, allIdx_groups, fmap_app, !length_app. simpl. rewrite Nat.add_comm, !Nat.add_succ_r || idtac.
    apply negb_true_iff, Nat.eqb_neq. lia.
  - set (f := insert_leaf rest (tail gn) lf).
    assert (forall g, full g = true -> inhabited (f g) = true) as Hi by (intros g Hg; by apply IH).
    assert (forall gs, forallb (fun kg : jstr * ONode => inhabited kg.2) gs = true ->
      let gs' := update_group seg (Node [] [] (hd false gn)) f gs in
      forallb (fun kg : jstr * ONode => inhabited kg.2) gs' = true /\ concat ((fun kg => allIdx kg.2) <$> gs') <> []) as Hu.
    { clear Hf gs. assert (forall g, inhabited g = true -> allIdx g <> []) as Hne.
      { intros g Hg Ea. apply andb_true_iff in Hg as [_ Hg]. by rewrite Ea in Hg. }
      induction gs as [|[k g] gs IHg]; intros Hg; cbn [update_group].
      - cbn [forallb fmap list_fmap concat snd]. rewrite Hi by done. split; [done|]. rewrite app_nil_r. by apply Hne, Hi.
      - cbn [forallb] in Hg. apply andb_true_iff in Hg as [Hg Hgs]. cbn [snd] in Hg. case_bool_decide; cbn [forallb fmap list_fmap concat snd].
        + apply andb_true_iff in Hg as [Hg _]. rewrite Hi, Hgs by done. split; [done|]. intros E. apply app_nil in E as [E _].
          by apply (Hne (f g)) in E; [|apply Hi].
        + destruct (IHg Hgs) as [H1 H2]. rewrite Hg, H1. split; [done|]. intros E. by apply app_nil in E as [_ E]. }
    destruct (Hu gs Hf) as [H1 H2]. rewrite full_groups, allIdx_groups, H1. cbn [andb].
    apply negb_true_iff, Nat.eqb_neq. rewrite length_app. destruct (concat _); [done|]. simpl. lia.
Qed.

Lemma buildObjTree_full cols : full (buildObjTree cols) = true.
Proof.
  unfold buildObjTree. assert (full (Node [] [] false) = true) as H0 by done. revert H0. generalize (Node [] [] false).
  generalize (imap pair cols). intros l. induction l as [|[i c] l IH]; intros n Hn; [done|]. cbn [foldl]. apply IH.
  pose proof (insert_inhabited (default [] (path c)) (groupNullable c) (col_leaf i c) n Hn) as Hi. by apply andb_true_iff in Hi as [? _].
Qed.

(** ** Flat rows *)

Definition plain_col (c : CodegenCol) : bool := match path c, xform c with None, None => true | _, _ => false end.

Lemma flat_tree cols ls nl i : forallb plain_col cols = true ->
  foldl (fun n ic => insert_leaf (default [] (path ic.2)) (groupNullable ic.2) (col_leaf ic.1 ic.2) n) (Node ls [] nl)
    (imap (fun j c => ((i + j)%nat, c)) cols)
  = Node (ls ++ imap (fun j c => col_leaf (i + j) c) cols) [] nl.
Proof.
  revert ls i. induction cols as [|c cols IH]; intros ls i Hc; [by rewrite app_nil_r|].
  cbn [forallb] in Hc. apply andb_true_iff in Hc as [Hc Hcs]. unfold plain_col in Hc. rewrite !imap_cons. cbn [foldl].
  destruct (path c) eqn:Ep; [done|]. cbn [fst snd]. rewrite Ep. cbn [default insert_leaf].
  assert (imap ((fun j c => ((i + j)%nat, c)) ∘ S) cols = imap (fun j c => ((S i + j)%nat, c)) cols) as ->
    by (apply imap_ext; intros; simpl; f_equal; lia).
  rewrite IH by done. rewrite <- app_assoc. cbn [app]. rewrite Nat.add_0_r. do 3 f_equal.
  apply imap_ext. intros. simpl. f_equal. lia.
Qed.

Lemma flat_leaves cols pre vs acc : forallb plain_col cols = true -> length vs = length cols ->
  set_leaves (imap (fun j c => col_leaf (length pre + j) c) cols) (pre ++ vs) acc
  = Ok (foldl (fun o kv => set_key kv.1 kv.2 o) acc (zip (name <$> cols) vs)).
Proof.
  revert pre vs acc. induction cols as [|c cols IH]; intros pre vs acc Hc Hl; [done|]. destruct vs as [|v vs]; [done|].
  cbn [forallb] in Hc. apply andb_true_iff in Hc as [Hc Hcs]. unfold plain_col in Hc. rewrite imap_cons.
  unfold set_leaves. cbn [foldl fmap list_fmap zip zip_with]. cbn [mbind res_bind].
  assert (leaf_value (col_leaf (length pre + 0) c) (pre ++ v :: vs) = Ok v) as ->.
  { unfold leaf_value, col_leaf. cbn [lxform lidx]. destruct (xform c); [by destruct (path c)|].
    rewrite Nat.add_0_r, app_nth2, Nat.sub_diag by lia. done. }
  cbn [mbind res_bind lkey col_leaf fst snd].
  assert (imap ((fun j c => col_leaf (length pre + j) c) ∘ S) cols = imap (fun j c => col_leaf (length (pre ++ [v]) + j) c) cols) as ->
    by (apply imap_ext; intros; simpl; f_equal; rewrite length_app; simpl; lia).
  change (v :: vs) with ([v] ++ vs). rewrite app_assoc. apply (IH (pre ++ [v]) vs (set_key (name c) v acc)); [done|]. by injection Hl.
Qed.

(** In object mode, and in array mode without Transform() or Collect(). *)
Definition mode_ok (arrayMode : bool) (cols : list CodegenCol) : Prop := arrayMode = true -> forallb plain_col cols = true.

Lemma array_values cols vals : forallb plain_col cols = true -> length vals = length cols ->
  mapM (fun cv => apply_xform (xform cv.1) cv.2) (zip cols vals) = Ok vals.
Proof.
  revert vals. induction cols as [|c cols IH]; intros [|v vals] Hc Hl; try done. cbn [forallb] in Hc.
  apply andb_true_iff in Hc as [Hc Hcs]. unfold plain_col in Hc. cbn [zip zip_with mapM fst snd].
  assert (xform c = None) as -> by (destruct (path c), (xform c); done). cbn [apply_xform mbind res_bind].
  rewrite IH by (done || by injection Hl). done.
Qed.

Lemma mappers_same cols arrayMode map : Forall col_ok cols -> mode_ok arrayMode cols ->
  match jitMapper cols arrayMode map, interpretedMapper cols arrayMode map with
  | Ok f, Ok g => forall b, f b = g b | Throw _, Throw _ => True | _, _ => False end.
Proof.
  intros Hc Hm. unfold jitMapper, interpretedMapper. pose proof (columns_parity cols map Hc) as Hp.
  destruct (mapM _ cols) as [ds|e|], (mapM _ cols) as [ds'|e'|] eqn:Ed; try done. cbn [mbind res_bind].
  assert (length ds' = length cols) as Hlen by (apply mapM_Ok_inv, Forall2_length in Ed; done).
  destruct arrayMode; unfold rowLiteral.
  - assert (existsb (fun c => match path c with Some _ => true | None => false end) cols = false) as ->.
    { specialize (Hm eq_refl). clear -Hm. induction cols as [|c cols IH]; [done|]. cbn [forallb existsb] in *.
      apply andb_true_iff in Hm as [Hc Hcs]. unfold plain_col in Hc. by destruct (path c); [|apply IH]. }
    cbn [mbind res_bind]. intros b. rewrite (read_cells_same _ _ b 2 Hp).
    destruct (read_cells ds' b 2) as [vals|e|] eqn:Er; try done. cbn [mbind res_bind].
    apply read_cells_length in Er. rewrite array_values by (auto || congruence). done.
  - cbn [mbind res_bind]. intros b. rewrite (read_cells_same _ _ b 2 Hp). destruct (existsb _ cols) eqn:Ex.
    + destruct (read_cells ds' b 2) as [vals|e|]; try done. cbn [mbind res_bind]. by rewrite assemble_literal by apply buildObjTree_full.
    + assert (forallb plain_col cols = true) as Hpl.
      { clear -Ex. induction cols as [|c cols IH]; [done|]. cbn [forallb existsb] in *. apply orb_false_iff in Ex as [Ec Ex].
        rewrite (IH Ex). unfold plain_col. by destruct (path c), (xform c). }
      destruct (read_cells ds' b 2) as [vals|e|] eqn:Er; try done. cbn [mbind res_bind]. apply read_cells_length in Er.
      unfold buildObjTree. pose proof (flat_tree cols [] false 0 Hpl) as Ht. cbn [Nat.add app] in Ht.
      change (imap pair cols) with (imap (fun j c => (j, c)) cols). rewrite Ht. cbn [objectLiteral].
      pose proof (flat_leaves cols [] vals [] Hpl ltac:(congruence)) as Hf. cbn [length Nat.add app] in Hf. rewrite Hf. done.
Qed.
End Parity.

(** ** Property *)


(** An environment with one user-defined type, whose target 'number' counts characters. *)
Definition count_chars : ExtTypes.Leaf := fun s => Ok (VBig (blen s)).
Definition demo_reg (t : string) : registry :=
  (defineType (js "t") (mkSpec None None [(t, count_chars)] []) init).1.
Definition demo_env (t : string) : Env := {|
  reg := demo_reg t; user_decoder _ b := Ok (VBuf b); jsonSourceSupported := true;
  Date_parse _ := None |}.
Definition demo_col (t : string) (n : string) (o : Z) (j : Target) (p : option (list jstr)) : CodegenCol :=
  mkCol (js n) o j None false None p [true] None false.
Definition demo_cols (t : string) : list (CodegenCol) :=
  [demo_col t "id" 23 None None; demo_col t "len" (-2000) (Some t) (Some [js "g"])].
(** ('7', 'abc') and ('7', NULL). *)
Definition demo_row : bytes := [0; 2] ++ be 4 1 ++ [55] ++ be 4 3 ++ [97; 98; 99].
Definition demo_miss : bytes := [0; 2] ++ be 4 1 ++ [55] ++ be 4 (-1).


(** A user-defined type whose target is named like a built-in one: the compiled
    mapper reads a number and never calls the user's function. *)
Example jit_ignores_custom_target :
  match @jitMapper (demo_env "number") (demo_cols "number") false defaultDecoders,
        @interpretedMapper (demo_env "number") (demo_cols "number") false defaultDecoders with
  | Ok f, Ok g =>
    let row := [0; 2] ++ be 4 1 ++ [55] ++ be 4 3 ++ js "123" in
    f row = Ok (VObj [(js "id", VNum (of_Z 7)); (js "g", VObj [(js "len", VNum (of_Z 123))])])
    /\ g row = Ok (VObj [(js "id", VNum (of_Z 7)); (js "g", VObj [(js "len", VBig 3)])])
  | _, _ => False
  end.
Proof. split; vm_compute; reflexivity. Qed.

(** A Transform in array mode: applied by the compiled mapper only. *)
Definition xform_col : CodegenCol :=
  mkCol (js "id") 25 None None false None None [] (Some (fun _ => Ok (VBool true))) false.
Example interpreted_skips_transform :
  match @jitMapper (demo_env "chars") [xform_col] true defaultDecoders,
        @interpretedMapper (demo_env "chars") [xform_col] true defaultDecoders with
  | Ok f, Ok g => f ([0; 1] ++ be 4 1 ++ [55]) = Ok (VArr [VBool true]) /\ g ([0; 1] ++ be 4 1 ++ [55]) = Ok (VArr [VStr (js "7")])
  | _, _ => False
  end.
Proof. split; vm_compute; reflexivity. Qed.

(** A Collect() column in array mode: refused by the compiled mapper only. *)
Example interpreted_accepts_collect :
  match @jitMapper (demo_env "chars") (demo_cols "chars") true defaultDecoders,
        @interpretedMapper (demo_env "chars") (demo_cols "chars") true defaultDecoders with
  | Throw _, Ok _ => True | _, _ => False end.
Proof. vm_compute. exact I. Qed.
