(* ===== verification/BinTuple.v ===== *)
(** * Binary values of logical replication (src/decode.ts, Section 4)

    numeric and array_recv formats, and the choice of a decoder for a plain or a
    shaped replication column; [None] means that binary bytes cannot give what the
    column promises. *)

From S2P Require Import Prelude Utf8 Buf Num Dates Value NumText Json JsonBig ExtTypes ArrayText Temporal Protocol Framing Messages Encode EncodeProofs Decode.
Import Geo Registry.

Definition readUInt16BE := readUIntBE 2.

(** String(d).padStart(4, '0') *)
Definition padStart4 (s : jstr) : jstr := replicate (4 - length s) 48 ++ s.

(** The base-10000 group at index [i], 0 outside the digits sent. *)
Definition group (b : bytes) (o nd i : Z) : res Z :=
  if (0 <=? i) && (i <? nd) then readUInt16BE b (o + 8 + i * 2) else Ok 0.

Definition int_groups (b : bytes) (o nd weight : Z) : res jstr :=
  foldl (fun r i => s ← r; d ← group b o nd (Z.of_nat i); Ok (s ++ (if (i =? 0)%nat then show_Z d else padStart4 (show_Z d))))
    (Ok []) (seq 0 (Z.to_nat (weight + 1))).
(** [for (let g = 0; frac.length < dscale; g++)]: four digits a round. *)
Fixpoint frac_loop (fuel : nat) (b : bytes) (o nd weight dscale g : Z) (frac : jstr) : res jstr :=
  if Z.of_nat (length frac) <? dscale then
    match fuel with
    | O => NoFuel
    | S f =>
      let i := weight + 1 + g in
      d ← group b o nd i;
      frac_loop f b o nd weight dscale (g + 1)
        (frac ++ (if (0 <=? i) && (i <? nd) then padStart4 (show_Z d) else js "0000"))
    end
  else Ok frac.

Definition binNumericStr_text (b : bytes) (o : Z) : res jstr :=
  nd ← readUInt16BE b o; weight ← readInt16BE b (o + 2); sign ← readUInt16BE b (o + 4); dscale ← readUInt16BE b (o + 6);
  if sign =? 49152 then Ok (js "NaN")
  else if sign =? 53248 then Ok (js "Infinity")
  else if sign =? 61440 then Ok (js "-Infinity")
  else
    let s := if sign =? 16384 then js "-" else [] in
    ip ← (if (weight <? 0) || (nd =? 0) then Ok (js "0") else int_groups b o nd weight);
    fp ← (if 0 <? dscale then f ← frac_loop (Z.to_nat dscale) b o nd weight dscale 0 []; Ok (46 :: take (Z.to_nat dscale) f) else Ok []);
    Ok (s ++ ip ++ fp).
Definition binNumericStr : CellDecoder := fun b o l => s ← binNumericStr_text b o; Ok (VStr s).

(** One cell: int32 length, -1 for NULL. *)
Definition array_cell (elem : CellDecoder) (b : bytes) (p : Z) : res (value * Z) :=
  len ← readInt32BE b p;
  if len =? -1 then Ok (VNull, p + 4) else v ← elem b (p + 4) len; Ok (v, p + 4 + len).
Fixpoint times (n : nat) (f : Z -> res (value * Z)) (p : Z) : res (list value * Z) :=
  match n with
  | O => Ok ([], p)
  | S k => '(v, p1) ← f p; '(vs, p2) ← times k f p1; Ok (v :: vs, p2)
  end.
(** new Array(n) *)
Definition new_array (n : Z) : res unit := if (0 <=? n) && (n <=? 4294967295) then Ok tt else Throw RangeError.
Fixpoint read_dims (elem : CellDecoder) (b : bytes) (dims : list Z) (p : Z) : res (list value * Z) :=
  match dims with
  | [] => Ok ([], p)
  | n :: rest =>
    _ ← new_array n;
    times (Z.to_nat n) (match rest with
      | [] => array_cell elem b
      | _ => fun p => '(vs, p') ← read_dims elem b rest p; Ok (VArr vs, p')
      end) p
  end.
Definition binArrayWith (elem : CellDecoder) : CellDecoder := fun b o l =>
  ndim ← readInt32BE b o;
  if ndim =? 0 then Ok (VArr [])
  else
    _ ← new_array ndim;
    dims ← mapM (fun d => readInt32BE b (o + 12 + Z.of_nat d * 8)) (seq 0 (Z.to_nat ndim));
    '(vs, _) ← read_dims elem b dims (o + 12 + ndim * 8);
    Ok (VArr vs).

Section Repl.
Context `{Env}.

Definition pick_opt (oid : Z) (j : Target) : option CellDecoder := match pickBinary oid j with Ok d => Some d | _ => None end.

(** Array types are at most one element type away: [ELEM_OID] never maps to an array. *)
Definition repl_scalar (oid : Z) (map : gmap Z Decoder) : option CellDecoder :=
  if overridden map oid then None
  else if oid =? 1700 then Some binNumericStr
  else if oid =? 114 then Some (fun b o l => run_decoder (decoderFor oid map) (subarray b o (o + l)))
  else if oid =? 3802 then Some (fun b o l => run_decoder (decoderFor oid map) (subarray b (o + 1) (o + l)))
  else pick_opt oid None.
Definition replBinaryFor (oid : Z) (map : gmap Z Decoder) : option CellDecoder :=
  if overridden map oid then None
  else if bool_decide (oid ∈ [1700; 114; 3802]) then repl_scalar oid map
  else match ELEM_OID oid with
       | Some elem => binArrayWith <$> repl_scalar elem map
       | None => repl_scalar oid map
       end.

Definition BIN_TEXT_EXACT (oid : Z) : bool := bool_decide (oid ∈ [20; 18; 19; 25; 1042; 1043; 2950]).

Definition then_num (f : jstr -> res value) : CellDecoder := fun b o l => s ← binNumericStr_text b o; f s.
Definition shaped_scalar (oid : Z) (map : gmap Z Decoder) (j : Target) : option CellDecoder :=
  if oid <=? 0 then None
  else if overridden map oid then None
  else if oid =? 1700 then
    Some (if tgt j "bigint" then then_num BigInt_text
          else if tgt j "number" then then_num (fun s => Ok (VNum (Number s))) else binNumericStr)
  else if (oid =? 114) || (oid =? 3802) then
    let skip := if oid =? 3802 then 1 else 0 in
    Some (if tgt j "string" || tgt j "latin1" then fun b o l => Ok (VStr (utf8_at b (o + skip) (l - skip)))
          else fun b o l => run_decoder (decoderFor oid map) (subarray b (o + skip) (o + l)))
  else if (tgt j "string" || tgt j "latin1") && bool_decide (oid ∈ [21; 23; 26]) then
    match pickBinary oid None with
    | Ok d => Some (fun b o l => v ← d b o l; Ok (VStr (match v with VNum x => num_str x | _ => String_ v end)))
    | _ => None
    end
  else if (tgt j "string" || tgt j "latin1") && negb (BIN_TEXT_EXACT oid) then None
  else
    let j := if tgt j "string" || tgt j "latin1" then Some "string"%string else j in
    if (oid =? 700) && negb (tgt j "precise") then None else pick_opt oid j.
Definition replShapedLeaf (oid : Z) (map : gmap Z Decoder) (j : Target) : option CellDecoder :=
  if oid <=? 0 then None
  else if overridden map oid then None
  else if bool_decide (oid ∈ [1700; 114; 3802]) then shaped_scalar oid map j
  else match ELEM_OID oid with
       | Some elem => binArrayWith <$> shaped_scalar elem map j
       | None => shaped_scalar oid map j
       end.

Definition replBinaryForCol (col : CodegenCol) (map : gmap Z Decoder) : res (option CellDecoder) :=
  match json col, array col with
  | Some _, _ =>
    d ← pickDecoder col map;
    Ok (Some (if oid col =? 3802 then fun b o l => d b (o + 1) (l - 1) else d))
  | None, Some (elem, j) => Ok (binArrayWith <$> replShapedLeaf elem map j)
  | None, None => Ok (replShapedLeaf (oid col) map (js_ col))
  end.
End Repl.

(** ** Scalars *)

Lemma rd64_spec b o v r : rest_at b o (be 8 v ++ r) -> -2 ^ 63 <= v < 2 ^ 63 -> rd64 b o = fl v.
Proof.
  intros HR Hv. unfold rd64. destruct (rd64_halves _ _ _ _ HR Hv) as [-> ->]. f_equal.
  change 4294967296 with (2 ^ 32). rewrite Z.mul_comm. symmetry. apply Z.div_mod. done.
Qed.

Lemma binInt8Str_exact b o l v r : rest_at b o (be 8 v ++ r) -> -2 ^ 63 <= v < 2 ^ 63 -> binInt8Str b o l = Ok (VStr (show_Z v)).
Proof.
  intros HR Hv. unfold binInt8Str. rewrite (rd64_spec _ _ _ _ HR Hv).
  destruct (rest_at_i64 _ _ _ _ HR ltac:(change (2 ^ 63) with 9223372036854775808 in Hv; lia)) as [-> _].
  destruct (Z.le_gt_cases (Z.abs v) (2 ^ 53)) as [Hs|Hs].
  - rewrite fl_small by done. by destruct (_ && _).
  - destruct (fl_side2 (2 ^ 53) v) as [[? ?]|[? ?]]; [done|lia| |]; change (2 ^ 53) with 9007199254740992 in *;
      destruct (Z.leb_spec (-9007199254740991) (fl v)), (Z.leb_spec (fl v) 9007199254740991); try lia; done.
Qed.

(** What the binary decoder of type [oid] makes of an encoded value. *)
Definition decoded (oid : Z) (v : value) : value :=
  match v with
  | VUndef => VNull
  | VNum x => if oid =? 701 then v else match int_of x with Some z => if oid =? 20 then VBig z else VNum (of_Z z) | None => v end
  | _ => v
  end.
(** Values of the language: normal doubles, well-formed strings, Dates in range. *)
Definition value_ok (v : value) : Prop :=
  match v with
  | VNum x => num_ok x
  | VStr s => usv s = true /\ Z.of_nat (length s * 3) <= 2147483647
  | VDate (Some t) => Z.abs t <= MAX_TIME /\ I64_MIN <= (t - PG_EPOCH_MS) * 1000 <= I64_MAX
  | _ => True
  end.

Section Round.
Context `{Env}.

Lemma int_in_inv lo hi v z : Encode.int_in lo hi v = Some z -> exists x, v = VNum x /\ int_of x = Some z.
Proof.
  unfold Encode.int_in. destruct v as [| | |x| | | | | | |]; try done. destruct (int_of x) as [y|] eqn:E; [|done].
  destruct (_ && _); [|done]. intros [= <-]. eauto.
Qed.
Lemma safe_int_inv x z : safe_int x = Some z -> int_of x = Some z.
Proof. unfold safe_int. destruct (int_of x); [|done]. destruct (_ <=? _); [|done]. congruence. Qed.

Lemma decoded_int oid x z : int_of x = Some z -> oid <> 701 -> decoded oid (VNum x) = if oid =? 20 then VBig z else VNum (of_Z z).
Proof. intros E Ho. unfold decoded. destruct (Z.eqb_spec oid 701); [done|]. by rewrite E. Qed.

Lemma bigint_cell b o v r : rest_at b o (be 8 v ++ r) -> I64_MIN <= v <= I64_MAX ->
  (x ← readBigInt64BE b o; Ok (VBig x)) = Ok (VBig v).
Proof. intros HR Hv. by destruct (rest_at_i64 _ _ _ _ HR Hv) as [-> _]. Qed.

(** Each scalar the encoder writes in binary is read back by [pickBinary]. *)
Lemma scalar_reads oid v bs : elem_payload oid v = Some bs -> value_ok v ->
  exists d, pickBinary oid None = Ok d /\ forall b o r, rest_at b o (bs ++ r) -> d b o (blen bs) = Ok (decoded oid v).
Proof.
  intros Hp Hv. unfold elem_payload in Hp. unfold pickBinary.
  destruct (Z.eqb_spec oid 16) as [->|].
  { destruct v; try done. injection Hp as <-. eexists. split; [done|]. intros b' o r HR. apply rest_at_byte in HR as [-> _]. by destruct b. }
  destruct (Z.eqb_spec oid 21) as [->|].
  { destruct (Encode.int_in _ _ v) as [z|] eqn:E; [|done]. injection Hp as <-. pose proof (int_in_range _ _ _ _ E) as Hr.
    destruct (int_in_inv _ _ _ _ E) as (x & -> & Ex). eexists. split; [done|]. intros b o r HR. cbv beta.
    destruct (rest_at_i16 _ _ _ _ HR Hr) as [-> _]. by rewrite (decoded_int _ _ _ Ex). }
  destruct (Z.eqb_spec oid 23) as [->|].
  { destruct (Encode.int_in _ _ v) as [z|] eqn:E; [|done]. injection Hp as <-. pose proof (int_in_range _ _ _ _ E) as Hr.
    destruct (int_in_inv _ _ _ _ E) as (x & -> & Ex). eexists. split; [done|]. intros b o r HR. cbv beta.
    destruct (rest_at_i32 _ _ _ _ HR Hr) as [-> _]. by rewrite (decoded_int _ _ _ Ex). }
  destruct (Z.eqb_spec oid 20) as [->|].
  { destruct v as [| | |x|z| | | | | |]; try done.
    - destruct (safe_int x) as [z|] eqn:E; [|done]. injection Hp as <-. pose proof (safe_int_range _ _ E). eexists. split; [done|].
      intros b o r HR. rewrite (decoded_int _ _ _ (safe_int_inv _ _ E)) by done. apply (bigint_cell _ _ _ _ HR). unfold I64_MIN, I64_MAX. lia.
    - destruct (_ && _) eqn:E; [|done]. injection Hp as <-. apply andb_true_iff in E as [?%Z.leb_le ?%Z.leb_le]. eexists. split; [done|].
      intros b o r HR. by apply (bigint_cell _ _ _ _ HR). }
  destruct (Z.eqb_spec oid 701) as [->|].
  { destruct v as [| | |x| | | | | | |]; try done. injection Hp as <-. eexists. split; [done|]. intros b o r HR. cbv beta.
    destruct (f64_roundtrip x Hv) as [E ?]. destruct (rest_at_u64 _ _ _ _ HR) as [-> _]; [done|]. cbn [mbind res_bind]. by rewrite E. }
  destruct ((oid =? 25) || (oid =? 1043)) eqn:Et.
  { destruct v as [| | | | |s| | | | |]; try done. destruct (has_nul s); [done|]. injection Hp as <-. destruct Hv as [Hu _].
    exists txtUtf8. split.
    - apply orb_true_iff in Et as [E|E]; apply Z.eqb_eq in E; by subst.
    - intros b o r HR. unfold txtUtf8, utf8_at. by rewrite (rest_at_sub _ _ _ _ HR), utf8_roundtrip. }
  destruct ((oid =? 1114) || (oid =? 1184)) eqn:Ed; [|done].
  destruct v as [| | | | | | |[t|]| | |]; try done. injection Hp as <-. destruct Hv as [Ht Hr].
  assert ((oid =? 26) = false /\ (oid =? 700) = false) as [-> ->].
  { apply orb_true_iff in Ed as [E|E]; apply Z.eqb_eq in E; by subst. }
  eexists. split; [done|]. intros b o r HR. change (tgt None "ms") with false. cbv beta iota.
  pose proof (bin_ts_floor _ _ _ _ HR) as G. unfold I64_MIN, I64_MAX in Hr. specialize (G ltac:(change (2 ^ 63) with 9223372036854775808; lia)).
  cbv zeta in G. rewrite Z.div_mul in G by lia. replace (t - PG_EPOCH_MS + PG_EPOCH_MS) with t in G by lia.
  destruct (Z.leb_spec (Z.abs t) MAX_TIME); [|lia]. rewrite G. unfold new_Date. simpl. unfold TimeClip. by zif.
Qed.

Lemma payload_length oid v bs : elem_payload oid v = Some bs -> value_ok v -> 0 <= blen bs <= 2147483647.
Proof.
  intros Hp Hv. split; [apply blen_nonneg|]. unfold elem_payload in Hp.
  assert (forall k (o : option Z), be k <$> o = Some bs -> blen bs = Z.of_nat k) as G.
  { intros k [z|]; [|done]. intros [= <-]. apply blen_be. }
  destruct (oid =? 16); [destruct v; try done; by injection Hp as <-|].
  destruct (oid =? 21); [by rewrite (G _ _ Hp)|]. destruct (oid =? 23); [by rewrite (G _ _ Hp)|].
  destruct (oid =? 20).
  { destruct v; try done; [by rewrite (G _ _ Hp)|]. destruct (_ && _); [|done]. injection Hp as <-. by rewrite blen_be. }
  destruct (oid =? 701); [destruct v; try done; injection Hp as <-; unfold f64_be; by rewrite blen_be|].
  destruct (_ || _).
  - destruct v; try done. destruct (has_nul _); [done|]. injection Hp as <-. destruct Hv as [_ Hv].
    unfold blen. pose proof (utf8_length_le s). lia.
  - destruct (_ || _); [|done]. destruct v as [| | | | | | |[t|]| | |]; try done. injection Hp as <-. by rewrite blen_be.
Qed.

(** One element cell, then a run of them. *)
Lemma array_cell_reads elem d v w b p r : pickBinary elem None = Ok d -> elem_wire elem v = Some w -> value_ok v ->
  rest_at b p (w ++ r) -> array_cell d b p = Ok (decoded elem v, p + blen w) /\ rest_at b (p + blen w) r.
Proof.
  intros Hd Hw Hv HR. split; [|by apply rest_at_app]. unfold elem_wire in Hw. unfold array_cell.
  destruct (nullish v) eqn:En.
  - assert (w = be 4 (-1)) as -> by congruence. destruct (rest_at_i32 _ _ _ _ HR) as [-> _]; [done|]. by destruct v.
  - destruct (elem_payload elem v) as [bs|] eqn:Ep; [|done]. change (Some (be 4 (blen bs) ++ bs) = Some w) in Hw.
    assert (w = be 4 (blen bs) ++ bs) as -> by congruence. clear Hw. pose proof (payload_length _ _ _ Ep Hv) as Hl.
    rewrite <- app_assoc in HR. destruct (rest_at_i32 _ _ _ _ HR) as [-> HR2]; [unfold i32_range; lia|]. cbn [mbind res_bind].
    destruct (Z.eqb_spec (blen bs) (-1)); [lia|]. destruct (scalar_reads _ _ _ Ep Hv) as (d' & Hd' & Hread).
    assert (d' = d) as -> by congruence. rewrite (Hread _ _ _ HR2). cbn [mbind res_bind]. rewrite blen_app, blen_be. do 2 f_equal. lia.
Qed.

Lemma cells_read elem d l ws b p r : pickBinary elem None = Ok d -> mapM (elem_wire elem) l = Some ws -> Forall value_ok l ->
  rest_at b p (concat ws ++ r) -> times (length l) (array_cell d b) p = Ok (decoded elem <$> l, p + blen (concat ws)).
Proof.
  intros Hd. revert ws p. induction l as [|v l IH]; intros ws p Hw Hl HR.
  - injection Hw as <-. simpl. do 2 f_equal. unfold blen. simpl. lia.
  - apply Forall_cons in Hl as [Hv Hl]. cbn [mapM] in Hw. destruct (elem_wire elem v) as [w|] eqn:Ew; [|done].
    simpl in Hw. destruct (mapM _ l) as [ws'|] eqn:El; [|done]. injection Hw as <-. simpl in HR. rewrite <- app_assoc in HR.
    destruct (array_cell_reads _ _ _ _ _ _ _ Hd Ew Hv HR) as [E HR2]. cbn [times length]. rewrite E. cbn [mbind res_bind].
    rewrite (IH _ _ eq_refl Hl HR2). cbn [mbind res_bind concat fmap list_fmap]. rewrite blen_app. do 2 f_equal. lia.
Qed.

Lemma array_bytes_inv elem l bs : array_bytes elem l = Some bs ->
  (l = [] /\ bs = be 4 0 ++ be 4 0 ++ be 4 elem)
  \/ exists ws, mapM (elem_wire elem) l = Some ws /\ bs = array_header elem l ++ concat ws.
Proof.
  unfold array_bytes. destruct l as [|v l]; [left; split; [done|congruence]|].
  intros (ws & Ew & Eb)%fmap_Some. right. by exists ws.
Qed.

Lemma one_dimension d b o l n : readInt32BE b o = Ok 1 -> readInt32BE b (o + 12) = Ok n -> 0 <= n <= 2147483647 ->
  binArrayWith d b o l = '(vs, _) ← times (Z.to_nat n) (array_cell d b) (o + 12 + 1 * 8); Ok (VArr vs).
Proof.
  intros E1 E Hn. unfold binArrayWith. rewrite E1. cbn [Z.eqb mbind res_bind].
  assert (mapM (fun d => readInt32BE b (o + 12 + Z.of_nat d * 8)) (seq 0 (Z.to_nat 1)) = Ok [n]) as ->.
  { change (seq 0 (Z.to_nat 1)) with [0%nat]. cbn [mapM]. change (Z.of_nat 0 * 8) with 0. by rewrite Z.add_0_r, E. }
  change (new_array 1) with (Ok tt). cbn [mbind res_bind read_dims]. unfold new_array. by zif.
Qed.

(** C31: Binary arrays survive the trip through array_recv's format: what the binary
    parameter encoder writes for a one-dimensional array (empty, with NULLs, of any
    element type it encodes) is decoded by the replication decoder of that array type
    to the same elements, integers as numbers or BigInts by type and dates in
    milliseconds. *)
Theorem binary_array_roundtrip elem l bs pre post d :
  pickBinary elem None = Ok d -> array_bytes elem l = Some bs -> Forall value_ok l ->
  i32_range elem -> Z.of_nat (length l) <= 2147483647 ->
  binArrayWith d (pre ++ bs ++ post) (blen pre) (blen bs) = Ok (VArr (decoded elem <$> l)).
Proof.
  intros Hd Hb Hl He Hn. pose proof (rest_at_app _ _ _ _ (rest_at_0 (pre ++ bs ++ post))) as HR. rewrite Z.add_0_l in HR.
  set (b := pre ++ bs ++ post) in *. clearbody b. set (o := blen pre) in *. clearbody o.
  destruct (array_bytes_inv _ _ _ Hb) as [[-> ->]|(ws & Ew & ->)].
  { unfold binArrayWith. rewrite <- app_assoc in HR. by destruct (rest_at_i32 _ _ _ _ HR) as [-> _]. }
  clear Hb. unfold array_header in HR. rewrite <- !app_assoc in HR.
  destruct (rest_at_i32 _ _ _ _ HR) as [E1 HR1]; [done|].
  destruct (rest_at_i32 _ _ _ _ HR1) as [_ HR2]; [by destruct (existsb _ _)|].
  destruct (rest_at_i32 _ _ _ _ HR2) as [_ HR3]; [done|].
  destruct (rest_at_i32 _ _ _ _ HR3) as [Elen HR4]; [unfold i32_range; lia|].
  destruct (rest_at_i32 _ _ _ _ HR4) as [_ HR5]; [done|].
  replace (o + 4 + 4 + 4) with (o + 12) in Elen by lia. replace (o + 4 + 4 + 4 + 4 + 4) with (o + 12 + 1 * 8) in HR5 by lia.
  rewrite (one_dimension _ _ _ _ _ E1 Elen), Nat2Z.id, (cells_read _ _ _ _ _ _ _ Hd Ew Hl HR5) by lia. done.
Qed.
End Round.

Definition demo_ints : list value := [VNum (of_Z 7); VNull; VBig (-9223372036854775808)].

Lemma binary_array_roundtrip_witness : exists bs d, array_bytes 20 demo_ints = Some bs
  /\ binArrayWith d ([1] ++ bs ++ [2]) 1 (blen bs) = Ok (VArr [VBig 7; VNull; VBig (-9223372036854775808)]).
Proof.
  do 2 eexists. split; [vm_compute; reflexivity|].
  refine (binary_array_roundtrip 20 demo_ints _ [1] [2] _ eq_refl _ _ _ _); [vm_compute; reflexivity| | |].
  - repeat (apply List.Forall_cons; [vm_compute; repeat split; try discriminate; try (left; discriminate)|]). apply List.Forall_nil.
  - vm_compute. split; discriminate.
  - vm_compute. discriminate.
Defined.

(** ** numeric *)

Lemma padStart4_pad d : 0 <= d < 10000 -> padStart4 (show_Z d) = pad 4 d.
Proof.
  intros Hd. assert (show_Z d = digits_fuel 4 d []) as ->.
  { unfold show_Z, digits. destruct (Z.ltb_spec d 0); [lia|]. set (l := Z.to_nat (Z.log2 d)).
    assert (0 <= d < 10 ^ Z.of_nat 4) as H4 by (change (10 ^ Z.of_nat 4) with 10000; lia).
    destruct (decide (3 <= l)%nat); [symmetry; by apply digits_fuel_irrel|]. apply digits_fuel_irrel; [|lia].
    split; [lia|]. unfold l. rewrite Nat2Z.inj_succ, Z2Nat.id by apply Z.log2_nonneg.
    destruct (Z.eq_dec d 0) as [->|]; [done|].
    apply Z.lt_le_trans with (2 ^ Z.succ (Z.log2 d)); [apply Z.log2_spec; lia|apply Z.pow_le_mono_l; lia]. }
  cbn [digits_fuel pad]. change (10 ^ Z.of_nat 3) with 1000. change (10 ^ Z.of_nat 2) with 100. change (10 ^ Z.of_nat 1) with 10.
  change (10 ^ Z.of_nat 0) with 1. unfold padStart4.
  destruct (Z.ltb_spec d 10), (Z.ltb_spec (d / 10) 10), (Z.ltb_spec (d / 10 / 10) 10), (Z.ltb_spec (d / 10 / 10 / 10) 10);
    try (exfalso; Z.to_euclidean_division_equations; lia);
    cbn [length Nat.sub replicate app]; rewrite Z.div_1_r; repeat (apply (f_equal2 cons); [Z.to_euclidean_division_equations; lia|]); done.
Qed.

(** v * 10^k, rounded down. *)
Definition shift10 (v k : Z) : Z := if 0 <=? k then v * 10 ^ k else v / 10 ^ (- k).
Definition group_ok (g : Z) : Prop := 0 <= g < 10000.
Definition groups_val (gs : list Z) : Z := foldl (fun acc g => acc * 10000 + g) 0 gs.

Lemma groups_val_snoc gs g : groups_val (gs ++ [g]) = groups_val gs * 10000 + g.
Proof. unfold groups_val. by rewrite foldl_app. Qed.
Lemma groups_val_bound gs : Forall group_ok gs -> 0 <= groups_val gs < 10 ^ (4 * Z.of_nat (length gs)).
Proof.
  induction gs as [|g gs IH] using rev_ind; [done|]. intros [H1 H2]%Forall_app. apply Forall_inv in H2. unfold group_ok in H2.
  rewrite groups_val_snoc, length_app. specialize (IH H1). simpl length.
  replace (4 * Z.of_nat (length gs + 1)) with (4 * Z.of_nat (length gs) + 4) by lia. rewrite Z.pow_add_r by lia.
  change (10 ^ 4) with 10000. lia.
Qed.

(** The first [m] groups of the expansion, as an integer. *)
Definition prefix_val (gs : list Z) (m : Z) : Z := shift10 (groups_val gs) (4 * (m - Z.of_nat (length gs))).
Definition group_at (gs : list Z) (i : Z) : Z :=
  if (0 <=? i) && (i <? Z.of_nat (length gs)) then nth (Z.to_nat i) gs 0 else 0.

Lemma shift10_div v a b : 0 <= b -> shift10 v a / 10 ^ b = shift10 v (a - b).
Proof.
  intros Hb. unfold shift10. assert (0 < 10 ^ b) by (apply Z.pow_pos_nonneg; lia).
  destruct (Z.leb_spec 0 a), (Z.leb_spec 0 (a - b)); try lia.
  - replace a with (a - b + b) at 1 by lia. rewrite Z.pow_add_r, Z.mul_assoc, Z.div_mul by lia. done.
  - replace b with (a + - (a - b)) at 1 by lia. rewrite Z.pow_add_r, <- Z.div_div by (try apply Z.pow_nonzero; try apply Z.pow_pos_nonneg; lia).
    by rewrite Z.div_mul by (apply Z.pow_nonzero; lia).
  - rewrite Z.div_div by (try apply Z.pow_nonzero; lia). rewrite <- Z.pow_add_r by lia. do 2 f_equal. lia.
Qed.

Lemma shift10_0 k : shift10 0 k = 0.
Proof. unfold shift10. by destruct (0 <=? k). Qed.

Lemma prefix_val_step gs m : Forall group_ok gs -> prefix_val gs (m + 1) = prefix_val gs m * 10000 + group_at gs m.
Proof.
  induction gs as [|g gs IH] using rev_ind; intros Hg.
  { unfold prefix_val, group_at. rewrite !shift10_0. destruct (Z.leb_spec 0 m), (Z.ltb_spec m (Z.of_nat (length (@nil Z)))); simpl in *; lia || done. }
  apply Forall_app in Hg as [Hg Hg1]. apply Forall_inv in Hg1. specialize (IH Hg).
  pose proof (groups_val_bound _ Hg) as Hb. unfold group_ok in Hg1.
  destruct (Z.ltb_spec (Z.of_nat (length gs)) m) as [Hm|Hm].
  - unfold prefix_val, group_at, shift10. rewrite length_app. simpl length. zif. zif.
    destruct (Z.ltb_spec m (Z.of_nat (length gs + 1))); [lia|]. rewrite andb_false_r.
    replace (4 * (m + 1 - Z.of_nat (length gs + 1))) with (4 * (m - Z.of_nat (length gs + 1)) + 4) by lia.
    rewrite Z.pow_add_r by lia. lia.
  - assert (forall k, k <= Z.of_nat (length gs) -> prefix_val (gs ++ [g]) k = prefix_val gs k) as E.
    { intros k Hk. unfold prefix_val. rewrite groups_val_snoc, length_app. simpl length.
      rewrite <- (Z.add_0_l (4 * (k - Z.of_nat (length gs)))).
      replace (4 * (k - Z.of_nat (length gs + 1))) with (4 * (k - Z.of_nat (length gs)) - 4) by lia.
      unfold shift10. zif. replace (- (4 * (k - Z.of_nat (length gs)) - 4)) with (4 + - (4 * (k - Z.of_nat (length gs)))) by lia.
      rewrite Z.pow_add_r, <- Z.div_div by (try apply Z.pow_nonzero; try apply Z.pow_pos_nonneg; lia).
      change (10 ^ 4) with 10000. rewrite Z.div_add_l, (Z.div_small g), Z.add_0_r by lia.
      destruct (Z.leb_spec 0 (0 + 4 * (k - Z.of_nat (length gs)))); [|by rewrite Z.add_0_l].
      assert (k = Z.of_nat (length gs)) as -> by lia. rewrite Z.sub_diag. by rewrite Z.div_1_r, Z.mul_1_r. }
    rewrite (E m Hm). destruct (Z.eq_dec m (Z.of_nat (length gs))) as [->|Hne].
    + unfold prefix_val, group_at. rewrite groups_val_snoc, length_app. simpl length.
      replace (Z.of_nat (length gs) + 1 - Z.of_nat (length gs + 1)) with 0 by lia. rewrite Z.sub_diag.
      replace ((0 <=? Z.of_nat (length gs)) && (Z.of_nat (length gs) <? Z.of_nat (length gs + 1))) with true by (symmetry; blia).
      rewrite Nat2Z.id, app_nth2, Nat.sub_diag by lia. unfold shift10; simpl. lia.
    + rewrite E, IH by lia. f_equal. unfold group_at. rewrite length_app. simpl length.
      destruct (Z.leb_spec 0 m); simpl; [|done].
      destruct (Z.ltb_spec m (Z.of_nat (length gs))), (Z.ltb_spec m (Z.of_nat (length gs + 1))); try lia.
      rewrite app_nth1 by lia. done.
Qed.

(** The wire form of a finite numeric: groups, weight of the first, sign, scale. *)
Definition numeric_bytes (neg : bool) (weight dscale : Z) (gs : list Z) : bytes :=
  be 2 (Z.of_nat (length gs)) ++ be 2 weight ++ be 2 (if neg then 16384 else 0) ++ be 2 dscale ++ concat (be 2 <$> gs).
Definition numeric_ok (weight dscale : Z) (gs : list Z) : Prop :=
  Forall group_ok gs /\ Z.of_nat (length gs) <= 65535 /\ i16_range weight /\ 0 <= dscale <= 65535.

Section Numeric.
Context (b : bytes) (o : Z) (gs : list Z) (r : bytes).
Hypothesis Hgs : Forall group_ok gs.
Hypothesis HR : rest_at b (o + 8) (concat (be 2 <$> gs) ++ r).
Abbreviation nd := (Z.of_nat (length gs)).

Lemma group_reads i : group b o nd i = Ok (group_at gs i).
Proof.
  unfold group, group_at. destruct (Z.leb_spec 0 i) as [Hi|]; simpl; [|done].
  destruct (Z.ltb_spec i nd) as [Hn|]; [|done].
  destruct (lookup_lt_is_Some_2 gs (Z.to_nat i)) as [g Eg]; [lia|].
  rewrite (nth_lookup_Some _ _ _ _ Eg). pose proof (Forall_lookup_1 _ _ _ _ Hgs Eg) as Hg. unfold group_ok in Hg.
  assert (gs = take (Z.to_nat i) gs ++ g :: drop (S (Z.to_nat i)) gs) as E by (symmetry; by apply take_drop_middle).
  assert (forall l, blen (concat (be 2 <$> l)) = 2 * Z.of_nat (length l)) as L.
  { clear. induction l as [|x l IH]; [done|]. cbn [fmap list_fmap concat length]. rewrite blen_app, blen_be, IH. lia. }
  pose proof HR as H1. rewrite E, fmap_app, fmap_cons, concat_app in H1. cbn [concat] in H1. rewrite <- !app_assoc in H1.
  apply rest_at_app in H1. rewrite L, length_take in H1. replace (o + 8 + i * 2) with (o + 8 + 2 * Z.of_nat (Z.to_nat i `min` length gs)%nat) by lia.
  apply (rest_at_uint 2 b _ g _ H1). change (256 ^ Z.of_nat 2) with 65536. lia.
Qed.

Lemma group_at_ok i : group_ok (group_at gs i).
Proof.
  unfold group_at, group_ok. destruct (_ && _) eqn:E; [|lia]. apply andb_true_iff in E as [E1%Z.leb_le E2%Z.ltb_lt].
  destruct (lookup_lt_is_Some_2 gs (Z.to_nat i)) as [g Eg]; [lia|]. rewrite (nth_lookup_Some _ _ _ _ Eg).
  exact (Forall_lookup_1 _ _ _ _ Hgs Eg).
Qed.

(** The integer part: the prefix through the group of weight 0. *)
Lemma int_groups_spec k : exists ip, foldl (fun r i => s ← r; d ← group b o nd (Z.of_nat i);
      Ok (s ++ (if (i =? 0)%nat then show_Z d else padStart4 (show_Z d)))) (Ok []) (seq 0 (S k)) = Ok ip
  /\ all_digits ip /\ digits_val ip = prefix_val gs (Z.of_nat (S k)).
Proof.
  induction k as [|k (ip & E & Hd & Hv)].
  - change (seq 0 1) with [0%nat]. cbn [foldl mbind res_bind]. rewrite group_reads. cbn [mbind res_bind]. change (0 =? 0)%nat with true.
    change (Z.of_nat 0) with 0. cbv iota. rewrite app_nil_l. pose proof (group_at_ok 0) as Hg. unfold group_ok in Hg.
    exists (show_Z (group_at gs 0)). split; [done|]. unfold show_Z. destruct (Z.ltb_spec (group_at gs 0) 0); [lia|].
    destruct (digits_spec (group_at gs 0)) as (V & D & _); [lia|]. split; [done|]. rewrite V. change (Z.of_nat 1) with (0 + 1).
    rewrite prefix_val_step by done. replace (prefix_val gs 0) with 0; [lia|]. symmetry. unfold prefix_val, shift10.
    pose proof (groups_val_bound _ Hgs) as B. destruct (Z.leb_spec 0 (4 * (0 - nd))) as [G|].
    + assert (nd = 0) as Z0 by lia. rewrite Z0 in *. destruct gs; [done|]. simpl in Z0. lia.
    + replace (- (4 * (0 - nd))) with (4 * nd) by lia. by apply Z.div_small.
  - rewrite seq_S, foldl_app, E. cbn [foldl Nat.add]. cbn [mbind res_bind]. rewrite group_reads. cbn [mbind res_bind].
    pose proof (group_at_ok (Z.of_nat (S k))) as Hg. change (S k =? 0)%nat with false. cbv iota.
    rewrite padStart4_pad by done. eexists. split; [done|]. split.
    + apply Forall_app. split; [done|]. apply pad_digits.
    + rewrite digits_val_app, Hv, digits_val_pad, length_pad. rewrite (Nat2Z.inj_succ (S k)). unfold Z.succ. rewrite prefix_val_step by done.
      change (10 ^ Z.of_nat 4) with 10000. rewrite Z.mod_small by done. done.
Qed.

(** The fraction: four digits a round until [dscale] of them. *)
Lemma frac_loop_spec weight dscale fuel : forall g frac,
  (0 <= g) -> all_digits frac -> blen frac = 4 * g -> dscale <= 4 * g + Z.of_nat fuel ->
  exists frac', frac_loop fuel b o nd weight dscale g frac = Ok (frac ++ frac') /\ all_digits frac' /\ dscale <= blen (frac ++ frac')
    /\ exists n, 0 <= n /\ blen frac' = 4 * n
      /\ prefix_val gs (weight + 1 + g + n) = prefix_val gs (weight + 1 + g) * 10 ^ (4 * n) + digits_val frac'.
Proof.
  induction fuel as [|fuel IH]; intros g frac Hg Hd Hl Hf; cbn [frac_loop]; change (Z.of_nat (length frac)) with (blen frac).
  - destruct (Z.ltb_spec (blen frac) dscale); [lia|]. exists []. rewrite app_nil_r. split; [done|]. split; [constructor|]. split; [lia|].
    exists 0. split; [lia|]. split; [done|]. rewrite Z.add_0_r. change (digits_val []) with 0. lia.
  - destruct (Z.ltb_spec (blen frac) dscale).
    + rewrite group_reads. cbn [mbind res_bind]. pose proof (group_at_ok (weight + 1 + g)) as Hgo.
      set (i := weight + 1 + g) in *.
      assert ((if (0 <=? i) && (i <? nd) then padStart4 (show_Z (group_at gs i)) else js "0000") = pad 4 (group_at gs i)) as ->.
      { unfold group_at. destruct (_ && _) eqn:E; [|done]. apply padStart4_pad. pose proof (group_at_ok i) as G. unfold group_at in G. by rewrite E in G. }
      destruct (IH (g + 1) (frac ++ pad 4 (group_at gs i))) as (f' & E & D & L & n & Hn & Ln & V); try lia.
      { apply Forall_app. split; [done|apply pad_digits]. }
      { rewrite blen_app. unfold blen at 2. rewrite length_pad. lia. }
      exists (pad 4 (group_at gs i) ++ f'). rewrite E, <- !app_assoc in *. split; [done|]. split; [apply Forall_app; split; [apply pad_digits|done]|].
      split; [done|]. exists (1 + n). split; [lia|]. split; [rewrite blen_app; unfold blen at 1; rewrite length_pad; lia|].
      replace (i + (1 + n)) with (weight + 1 + (g + 1) + n) by (unfold i; lia). rewrite V.
      replace (weight + 1 + (g + 1)) with (i + 1) by (unfold i; lia). rewrite prefix_val_step by done.
      rewrite digits_val_app, digits_val_pad. change (10 ^ Z.of_nat 4) with 10000. rewrite Z.mod_small by done.
      change (Z.of_nat (length f')) with (blen f'). rewrite Ln. replace (4 * (1 + n)) with (4 + 4 * n) by lia. rewrite Z.pow_add_r by lia.
      change (10 ^ 4) with 10000. fold i. lia.
    + exists []. rewrite app_nil_r. split; [done|]. split; [constructor|]. split; [lia|].
      exists 0. split; [lia|]. split; [done|]. rewrite Z.add_0_r. change (digits_val []) with 0. lia.
Qed.

Lemma prefix_val_0 m : m <= 0 -> prefix_val gs m = 0.
Proof.
  intros Hm. pose proof (groups_val_bound _ Hgs) as B. unfold prefix_val, shift10.
  destruct (Z.leb_spec 0 (4 * (m - nd))) as [G|].
  - assert (nd = 0) as Z0 by lia. destruct gs; [done|]. simpl in Z0. lia.
  - replace (- (4 * (m - nd))) with (4 * nd + 4 * (- m)) by lia. rewrite Z.pow_add_r, <- Z.div_div, (Z.div_small (groups_val gs)) by (try apply Z.pow_nonzero; try apply Z.pow_pos_nonneg; lia).
    apply Z.div_0_l. apply Z.pow_nonzero; lia.
Qed.

Lemma int_part weight : exists ip, (if (weight <? 0) || (nd =? 0) then Ok (js "0") else int_groups b o nd weight) = Ok ip
  /\ all_digits ip /\ digits_val ip = prefix_val gs (weight + 1).
Proof.
  destruct (Z.ltb_spec weight 0); simpl orb; cbv iota.
  { exists (js "0"). split; [done|]. split; [repeat constructor; done|]. rewrite prefix_val_0 by lia. done. }
  destruct (Z.eqb_spec nd 0) as [E|].
  { exists (js "0"). split; [done|]. split; [repeat constructor; done|]. unfold prefix_val. destruct gs; [|done]. by rewrite shift10_0. }
  unfold int_groups. replace (Z.to_nat (weight + 1)) with (S (Z.to_nat weight)) by lia.
  destruct (int_groups_spec (Z.to_nat weight)) as (ip & E & D & V). exists ip. split; [exact E|]. split; [done|]. rewrite V. f_equal. lia.
Qed.
End Numeric.

(** binNumericStr prints a binary numeric exactly: an optional sign, an integer
    part, and, when the display scale is positive, a point and exactly that many
    digits; and the digits read as one integer are the value times 10^scale, rounded
    down (PostgreSQL sends no digit past the scale, so nothing is lost). The
    generated loops always end. *)
Theorem binNumericStr_exact pre neg weight dscale gs post :
  numeric_ok weight dscale gs ->
  exists ip fp, binNumericStr_text (pre ++ numeric_bytes neg weight dscale gs ++ post) (blen pre)
                = Ok ((if neg then [45] else []) ++ ip ++ (if 0 <? dscale then 46 :: fp else []))
    /\ all_digits ip /\ all_digits fp /\ blen fp = dscale
    /\ digits_val (ip ++ fp) = shift10 (groups_val gs) (4 * (weight + 1 - Z.of_nat (length gs)) + dscale).
Proof.
  intros (Hg & Hn & Hw & Hs). pose proof (rest_at_app _ _ _ _ (rest_at_0 (pre ++ numeric_bytes neg weight dscale gs ++ post))) as HR.
  rewrite Z.add_0_l in HR. set (b := pre ++ _ ++ post) in *. clearbody b. set (o := blen pre) in *. clearbody o.
  unfold numeric_bytes in HR. rewrite <- !app_assoc in HR.
  assert (forall p v r, rest_at b p (be 2 v ++ r) -> 0 <= v <= 65535 -> readUInt16BE b p = Ok v /\ rest_at b (p + 2) r) as U.
  { intros p v r H Hv. split; [apply (rest_at_uint 2 b p v r H); change (256 ^ Z.of_nat 2) with 65536; lia|].
    apply rest_at_app in H. by rewrite blen_be in H. }
  destruct (U _ _ _ HR ltac:(lia)) as [E0 HR1]. destruct (rest_at_i16 _ _ _ _ HR1 Hw) as [E2 HR2].
  destruct (U _ _ _ HR2 ltac:(by destruct neg)) as [E4 HR3]. destruct (U _ _ _ HR3 Hs) as [E6 HR4].
  replace (o + 2 + 2) with (o + 4) in * by lia. replace (o + 4 + 2) with (o + 6) in * by lia. replace (o + 6 + 2) with (o + 8) in * by lia.
  unfold binNumericStr_text. rewrite E0, E2, E4, E6. cbn [mbind res_bind].
  assert (forall c, 16384 < c -> ((if neg then 16384 else 0) =? c) = false) as N by (intros c ?; destruct neg; apply Z.eqb_neq; lia).
  rewrite !N by lia. clear N.
  replace (if (if neg then 16384 else 0) =? 16384 then js "-" else []) with (if neg then [45] else []) by (by destruct neg).
  destruct (int_part b o gs post Hg HR4 weight) as (ip & -> & Di & Vi). cbn [mbind res_bind].
  assert (0 <= dscale) as Hs0 by lia.
  destruct (frac_loop_spec b o gs post Hg HR4 weight dscale (Z.to_nat dscale) 0 [] ltac:(lia) ltac:(constructor) eq_refl ltac:(lia))
    as (fr & -> & Df & Lf & n & Hn0 & Ln & Vf). rewrite app_nil_l in *.
  exists ip, (take (Z.to_nat dscale) fr). split; [by destruct (0 <? dscale)|]. split; [done|]. split; [by apply Forall_take|].
  split; [unfold blen in *; rewrite length_take; lia|].
  rewrite <- (take_drop (Z.to_nat dscale) fr) in Df. apply Forall_app in Df as [Dt Dd].
  set (t := take (Z.to_nat dscale) fr) in *. set (d := drop (Z.to_nat dscale) fr) in *.
  assert (blen d = 4 * n - dscale) as Ld by (unfold d, blen in *; rewrite length_drop; lia).
  assert (digits_val (ip ++ fr) = prefix_val gs (weight + 1 + n)) as V.
  { rewrite digits_val_app, Vi. replace (weight + 1 + 0) with (weight + 1) in Vf by lia. rewrite Vf.
    change (Z.of_nat (length fr)) with (blen fr). by rewrite Ln. }
  pose proof (digits_val_bound d Dd) as Bd. pose proof (digits_val_app (ip ++ t) d) as A. rewrite <- app_assoc in A.
  assert (t ++ d = fr) as Etd by (apply take_drop). rewrite Etd, V in A. change (Z.of_nat (length d)) with (blen d) in A. rewrite Ld in *.
  replace (digits_val (ip ++ t)) with (prefix_val gs (weight + 1 + n) / 10 ^ (4 * n - dscale)).
  - unfold prefix_val. rewrite shift10_div by (unfold blen in Ld; lia). f_equal. lia.
  - rewrite A, Z.div_add_l, Z.div_small by lia. lia.
Qed.

Lemma binNumericStr_exact_witness : exists ip fp,
  binNumericStr_text ([9] ++ numeric_bytes true 1 3 [1; 2345; 6780] ++ []) (blen [9])
    = Ok ((if true then [45] else []) ++ ip ++ (if 0 <? 3 then 46 :: fp else []))
  /\ all_digits ip /\ all_digits fp /\ blen fp = 3
  /\ digits_val (ip ++ fp) = shift10 (groups_val [1; 2345; 6780]) (4 * (1 + 1 - Z.of_nat 3) + 3).
Proof.
  apply (binNumericStr_exact [9] true 1 3 [1; 2345; 6780] []). split; [repeat constructor; discriminate|].
  repeat split; discriminate.
Defined.
Example binNumericStr_12345 : binNumericStr_text (numeric_bytes true 1 3 [1; 2345; 6780]) 0 = Ok (js "-12345.678").
Proof. vm_compute. reflexivity. Qed.
