(* ===== verification/Spec.v ===== *)
(** * Row shapes (src/spec.ts)

    Type aliases and their OIDs, declared parameter types, and the resolution of a declarative
    shape into the column plan that both engines decode with. *)

From S2P Require Import Prelude Utf8 Text Buf Num Dates Value NumText Json JsonBig ExtTypes JsonSpec JsonScan ArrayText Temporal Protocol Framing Messages Encode Decode.
Import Geo Registry.

(** ** OIDs *)

Definition TYPE_OID_table : list (string * Z) := [
  ("int2", 21); ("smallint", 21); ("int4", 23); ("int", 23); ("integer", 23); ("serial", 23); ("oid", 26);
  ("int8", 20); ("bigint", 20); ("float4", 700); ("real", 700); ("float8", 701); ("double precision", 701);
  ("numeric", 1700); ("decimal", 1700); ("money", 790); ("bool", 16); ("boolean", 16);
  ("text", 25); ("varchar", 1043); ("bpchar", 1042); ("char", 18); ("name", 19);
  ("json", 114); ("jsonb", 3802); ("bytea", 17); ("uuid", 2950);
  ("date", 1082); ("time", 1083); ("timestamp", 1114); ("timestamptz", 1184); ("interval", 1186);
  ("point", 600); ("line", 628); ("box", 603)]%string.
Definition TYPE_OID (alias : jstr) : option Z :=
  snd <$> List.find (fun p => bool_decide (js p.1 = alias)) TYPE_OID_table.
Definition ARRAY_OID_table : list (Z * Z) := [
  (16, 1000); (21, 1005); (23, 1007); (26, 1028); (20, 1016); (700, 1021); (701, 1022); (1700, 1231); (790, 791);
  (25, 1009); (1043, 1015); (1042, 1014); (18, 1002); (19, 1003); (114, 199); (3802, 3807); (17, 1001); (2950, 2951);
  (1082, 1182); (1083, 1183); (1114, 1115); (1184, 1185); (1186, 1187); (628, 629); (600, 1017); (603, 1020)].
Definition ARRAY_OID (oid : Z) : option Z := snd <$> List.find (fun p => p.1 =? oid) ARRAY_OID_table.

Definition known_types : jstr := join (js ", ") (js ∘ fst <$> TYPE_OID_table).
Definition no_array_type (t : jstr) : exn := Error (js "minipg: no array type known for " ++ quote t).

(** A declared parameter type: a raw OID or a text. *)
Inductive ParamType := POid (oid : Z) | PText (t : jstr).
Definition unknown_param (t : jstr) : exn :=
  Error (js "minipg: unknown param type " ++ quote t ++ js " (known: " ++ known_types ++ js ", each also with [])").
Definition paramTypeOid (p : ParamType) : res Z :=
  match p with
  | POid oid => Ok oid
  | PText t =>
    let arr := endsWith t (js "[]") in
    match TYPE_OID (toLowerCase (if arr then drop_end 2 t else t)) with
    | None => Throw (unknown_param t)
    | Some base =>
      if negb arr then Ok base
      else match ARRAY_OID base with None => Throw (no_array_type t) | Some a => Ok a end
    end
  end.
(** The cache of resolved lists is keyed by identity and holds what this returns. *)
Definition resolveParamTypes (l : list ParamType) : res (list Z) := mapM paramTypeOid l.

(** ** Shapes *)

Inductive ShapeValue :=
| SType (t : jstr)
| SJson (m : JsonMarker)
| SCustom (def : CustomTypeDef) (target : Target) (isArray : bool)
| STransform (t : jstr) (fn : value -> res value)
| SNullable (inner : ShapeValue)
| SCollect (nullable entries_form : bool) (spec : list (jstr * ShapeValue)).

Definition plain_column (name : jstr) (oid : Z) (j : Target) : CodegenCol :=
  mkCol name oid j None false None None [] None false.
Definition array_column (name : jstr) (oid elem : Z) (j : Target) : CodegenCol :=
  mkCol name oid None None false (Some (elem, j)) None [] None false.
Definition unknown_element (elem name : jstr) : exn :=
  Error (js "minipg: unknown array element type " ++ quote elem ++ js " for column " ++ [34] ++ name ++ [34]
         ++ js " in shape (known: " ++ known_types ++ js ")").
Definition unknown_type (pg name : jstr) : exn :=
  Error (js "minipg: unknown type " ++ quote pg ++ js " for column " ++ [34] ++ name ++ [34]
         ++ js " in shape (known: " ++ known_types ++ js ")").

(** The extension types are selected by their declared name. *)
Definition ext_oid (base : jstr) : option Z :=
  if bool_decide (base = js "vector") then Some EXT_VECTOR
  else if bool_decide (base = js "halfvec") then Some EXT_HALFVEC
  else if bool_decide (base = js "sparsevec") then Some EXT_SPARSEVEC else None.
Definition resolve_type (name t : jstr) : res CodegenCol :=
  if bool_decide (t = js "unknown") then Ok (plain_column name 0 None)
  else
    p ← splitType t;
    let '(pg, j) := (p : jstr * Target) in
    match ext_oid (toLowerCase pg) with
    | Some oid => Ok (plain_column name oid j)
    | None =>
      if endsWith pg (js "[]") then
        let elemName := toLowerCase (drop_end 2 pg) in
        match ext_oid elemName with
        | Some e => Ok (array_column name e e j)
        | None =>
          match TYPE_OID elemName with
          | None => Throw (unknown_element elemName name)
          | Some elem => match ARRAY_OID elem with
                         | None => Throw (no_array_type pg)
                         | Some a => Ok (array_column name a elem j)
                         end
          end
        end
      else
        match TYPE_OID (toLowerCase pg) with
        | None => Throw (unknown_type pg name)
        | Some oid =>
          let unsafe := tgt j "string" && negb (oid =? 20) in
          let bin := BINARY_FAST oid && negb unsafe in
          let bin := if oid =? 700 then tgt j "precise" else bin in
          Ok (mkCol name oid j None bin None None [] None false)
        end
    end.
Definition resolveLeaf (name : jstr) (t : ShapeValue) : res CodegenCol :=
  match t with
  | SCustom def target isArray =>
    Ok (if isArray then array_column name (doid def) (doid def) target else plain_column name (doid def) target)
  | SJson m => _ ← validateJsonSpec m; Ok (mkCol name (if m_jsonb m then 3802 else 114) None (Some m) false None None [] None false)
  | SType t => resolve_type name t
  | _ => Throw not_a_string
  end.

(** Nullable(...), then Transform(type, fn), around a leaf. *)
Definition unwrap (t : ShapeValue) : bool * ShapeValue :=
  match t with SNullable inner => (true, inner) | _ => (false, t) end.
Definition column (name : jstr) (t : ShapeValue) (path_ : list jstr) (gn : list bool) : res CodegenCol :=
  let '(nl, m) := unwrap t in
  let '(xf, m) := match m with STransform ty fn => (Some fn, SType ty) | _ => (None, m) end in
  col ← resolveLeaf name m;
  let c := (col : CodegenCol) in
  Ok (mkCol (Decode.name c) (oid c) (js_ c) (json c) (binary c) (array c)
            (match path_ with [] => path c | _ => Some path_ end)
            (match path_ with [] => groupNullable c | _ => gn end) xf nl).
Section Walk.
Context (f : jstr -> ShapeValue -> res (list CodegenCol)).
Fixpoint walk_entries (es : list (jstr * ShapeValue)) : res (list CodegenCol) :=
  match es with
  | [] => Ok []
  | (k, v) :: t => a ← f k v; b ← walk_entries t; Ok (a ++ b)
  end.
End Walk.
(** An entry and what is under it, in pre-order. *)
Fixpoint walk_value (path_ : list jstr) (gn : list bool) (name : jstr) (t : ShapeValue) {struct t} : res (list CodegenCol) :=
  match t with
  | SCollect nullable form spec =>
    _ ← specEntries form spec;
    walk_entries (walk_value (path_ ++ [name]) (gn ++ [nullable])) spec
  | _ => c ← column name t path_ gn; Ok [c]
  end.
Definition shapeCols (entries_form : bool) (spec : list (jstr * ShapeValue)) : res (list CodegenCol) :=
  _ ← specEntries entries_form spec; walk_entries (walk_value [] []) spec.

(** ** Deferred columns *)

Definition set_oid (o : Z) (c : CodegenCol) : CodegenCol :=
  mkCol (name c) o (js_ c) (json c) (binary c) (array c) (path c) (groupNullable c) (xform c) (nullable c).
(** [fields]: the OIDs that the server reported, in order. *)
Definition mergeUnknownCols (cols : list CodegenCol) (fields : list Z) : list CodegenCol :=
  if existsb (fun c => oid c =? 0) cols
  then imap (fun j c => if negb (oid c =? 0) then c else set_oid (default 0 (fields !! j)) c) cols
  else cols.

(** ** A valid shape compiles *)

(** What a generation step returns on success, whatever it is. *)
Definition returns {A} (r : res A) : Prop := exists a, r = Ok a.
Lemma returns_bind {A B} (r : res A) (f : A -> res B) : returns r -> (forall a, r = Ok a -> returns (f a)) -> returns (r ≫= f).
Proof. intros [a ->] Hf. by apply Hf. Qed.
Lemma returns_Ok {A} (a : A) : returns (Ok a).
Proof. by exists a. Qed.
#[local] Ltac ok := first [apply returns_Ok | done].

(** What the validation of a field establishes: every question about it has an answer, and every
    walk and reader of it can be built. *)
Definition usable (D : jstr -> option Z) (f : jfield) : Prop :=
  returns (field_precision f) /\ returns (field_transform f) /\ returns (field_walk f) /\
  returns (field_fix D f) /\ returns (field_xform f) /\ forall b e, returns (inlineValue D b e f).

Section Lists.
Context {A : Type}.
Lemma any_returns (f : A -> res bool) es : Forall (fun kv => returns (f kv.2)) es -> returns (any f es).
Proof. induction 1 as [|[k v] t [b E] _ IH]; cbn [any]; [ok|]. cbn in E. rewrite E. cbn. destruct b; ok. Qed.
End Lists.
Lemma fns_returns f es : Forall (fun kv => returns (f kv.2)) es -> returns (fns_of f es).
Proof. induction 1 as [|[k v] t [o E] _ [r IH]]; cbn [fns_of]; [ok|]. cbn in E. rewrite E. cbn. rewrite IH. ok. Qed.
Lemma readers_returns f es : Forall (fun kv => returns (f kv.2)) es -> returns (readers f es).
Proof. induction 1 as [|[k v] t [o E] _ [r IH]]; cbn [readers]; [ok|]. cbn in E. rewrite E. cbn. rewrite IH. ok. Qed.

Lemma type_usable k t : validate_type k t = Ok tt -> returns (splitType t).
Proof. unfold validate_type. destruct (splitType t); intros; ok. Qed.
Lemma spec_usable D arr jsonb form spec :
  specEntries form spec = Ok spec -> Forall (fun kv => usable D kv.2) spec -> usable D (FJson arr jsonb form spec).
Proof.
  intros Es Hs.
  assert (forall P : jfield -> Prop, (forall f, usable D f -> P f) -> Forall (fun kv => P kv.2) spec) as Hi.
  { intros P HP. eapply Forall_impl; [exact Hs|]. intros kv. apply HP. }
  assert (returns (field_precision (FJson arr jsonb form spec))) as Hp.
  { cbn [field_precision]. rewrite Es. apply any_returns, (Hi (fun f => returns (field_precision f))). by intros f (?&_). }
  assert (returns (field_transform (FJson arr jsonb form spec))) as Ht.
  { cbn [field_transform]. rewrite Es. apply any_returns, (Hi (fun f => returns (field_transform f))). by intros f (_&?&_). }
  assert (returns (field_walk (FJson arr jsonb form spec))) as Hw.
  { cbn [field_walk]. rewrite Es. apply any_returns, (Hi (fun f => returns (field_walk f))). by intros f (_&_&?&_). }
  split; [done|]. split; [done|]. split; [done|].
  split.
  { cbn [field_fix]. apply returns_bind; [done|]. intros [] _; [|ok]. rewrite Es. cbn [mbind res_bind]. apply returns_bind; [|intros; ok].
    apply fns_returns, (Hi (fun f => returns (field_fix D f))). by intros f (_&_&_&?&_). }
  split.
  { cbn [field_xform]. apply returns_bind; [done|]. intros [] _; [|ok]. rewrite Es. cbn [mbind res_bind]. apply returns_bind; [|intros; ok].
    apply fns_returns, (Hi (fun f => returns (field_xform f))). by intros f (_&_&_&_&?&_). }
  intros b e. cbn [inlineValue]. apply returns_bind; [done|]. intros [] _; [|ok]. unfold gen_marker. rewrite Es. cbn [mbind res_bind].
  apply returns_bind; [|intros; ok]. apply readers_returns, (Hi (fun f => returns (inlineValue D b e f))). by intros f (_&_&_&_&_&?).
Qed.
Lemma specEntries_id {V} form (s es : list (jstr * V)) : specEntries form s = Ok es -> es = s.
Proof. unfold specEntries. destruct form; [by destruct (first_dup _ _); intros [= <-]|by destruct (List.find _ _); intros [= <-]]. Qed.

Fixpoint validate_usable D (f : jfield) {struct f} : forall k, validate_field k f = Ok tt -> usable D f.
Proof.
  intros k E. destruct f as [t|t fn| |arr jsonb form spec].
  - destruct (type_usable k t E) as [[pg j] Es]. unfold usable. cbn. unfold type_precision, type_walk, type_fix, gen_type. rewrite Es. cbn. repeat split; intros; ok.
  - destruct (type_usable k t E) as [[pg j] Es]. unfold usable. cbn. unfold type_precision, type_walk, type_fix, gen_type. rewrite Es. cbn. repeat split; intros; ok.
  - done.
  - cbn [validate_field] in E. apply bind_res_Ok_inv in E as (es & Es & E). assert (es = spec) as -> by (by apply specEntries_id in Es).
    apply spec_usable; [done|]. clear Es k.
    induction spec as [|[k v] spec IH]; [constructor|]. cbn [each] in E. apply bind_res_Ok_inv in E as ([] & Ev & E).
    constructor; [|apply IH, E]. by apply (validate_usable D v k).
Qed.

Lemma marker_usable D m : validateJsonSpec m = Ok tt -> usable D (FJson (m_array m) (m_jsonb m) (m_entries m) (m_spec m)) /\
  specEntries (m_entries m) (m_spec m) = Ok (m_spec m) /\ Forall (fun kv => usable D kv.2) (m_spec m).
Proof.
  intros E. split; [by apply (validate_usable D _ []) |]. unfold validateJsonSpec in E. cbn [validate_field] in E.
  apply bind_res_Ok_inv in E as (es & Es & E). rewrite Es. rewrite (specEntries_id _ _ _ Es) in *. split; [done|]. clear Es.
  induction (m_spec m) as [|[k v] spec IH]; [constructor|]. cbn [each] in E. apply bind_res_Ok_inv in E as ([] & Ev & E).
  constructor; [by apply (validate_usable D v k)|by apply IH].
Qed.

Section Compile.
Context `{Env} (map : gmap Z Decoder).

Definition compiles (c : CodegenCol) : Prop := returns (columnLines c map) /\ returns (pickDecoder c map).
(** What both dispatchers need of a column. *)
Definition plan_ok (c : CodegenCol) : Prop :=
  (binary c = true -> BINARY_FAST (oid c) = true \/ oid c = 700) /\
  match json c with Some m => binary c = false /\ validateJsonSpec m = Ok tt | None => True end.

Lemma json_compiles m c : json c = Some m -> binary c = false -> validateJsonSpec m = Ok tt -> compiles c.
Proof.
  intros Ej Eb Ev. destruct (marker_usable Date_parse m Ev) as ((Hp & Ht & Hw & Hf & Hx & Hr) & Es & Hs). unfold compiles, columnLines, pickDecoder.
  rewrite Eb, Ej. split.
  - unfold json_column. apply returns_bind; [done|]. intros t _. apply returns_bind.
    + destruct t; [|ok]. unfold buildJsonTransformWalk. rewrite Es. cbn [mbind res_bind].
      assert (returns (fns_of field_xform (m_spec m))) as [fns ->].
      { apply fns_returns. eapply Forall_impl; [exact Hs|]. by intros kv (_&_&_&_&?&_). }
      cbn. ok.
    + intros w _. apply returns_bind; [done|]. intros [] _; [|ok]. apply returns_bind; [|intros; ok].
      unfold inlineMarker, gen_marker. rewrite Es. cbn [mbind res_bind]. apply returns_bind; [|intros; ok].
      apply readers_returns. eapply Forall_impl; [exact Hs|]. by intros kv (_&_&_&_&_&?).
  - apply returns_bind; [done|]. intros [] _; [|ok]. apply returns_bind; [|intros; ok].
    unfold buildJsonWalk. rewrite Es. cbn [mbind res_bind]. apply returns_bind; [|intros; ok].
    apply fns_returns. eapply Forall_impl; [exact Hs|]. by intros kv (_&_&_&?&_).
Qed.
Lemma binary_compiles c : binary c = true -> BINARY_FAST (oid c) = true \/ oid c = 700 -> compiles c.
Proof.
  intros Eb Ho. unfold compiles, columnLines, pickDecoder. rewrite Eb.
  assert (oid c ∈ [21; 23; 26; 20; 701; 1082; 1114; 1184; 17; 700]) as Hin.
  { destruct Ho as [Ho| ->]; [|set_solver]. unfold BINARY_FAST in Ho. apply bool_decide_eq_true in Ho. set_solver. }
  repeat (apply elem_of_cons in Hin as [->|Hin]; [split; eexists; reflexivity|]). by apply elem_of_nil in Hin.
Qed.
Lemma plan_compiles c : plan_ok c -> compiles c.
Proof.
  intros [Hb Hj]. destruct (binary c) eqn:Eb; [by apply binary_compiles; auto|]. destruct (json c) as [m|] eqn:Ej.
  - by apply (json_compiles m); [..|apply Hj].
  - unfold compiles, columnLines, pickDecoder. rewrite Eb, Ej. split; [ok|].
    repeat (case_match; try ok).
Qed.
End Compile.

(** A column outside any group. *)
Definition bare (name : jstr) (c : CodegenCol) : Prop := Decode.name c = name /\ path c = None /\ groupNullable c = [].
Lemma type_plan name t c : resolve_type name t = Ok c -> bare name c /\ plan_ok c.
Proof.
  unfold resolve_type. case_bool_decide; [by intros [= <-]|]. intros E. apply bind_res_Ok_inv in E as ([pg j] & _ & E). revert E.
  destruct (ext_oid _); [by intros [= <-]|]. destruct (endsWith pg _).
  - destruct (ext_oid _); [by intros [= <-]|]. destruct (TYPE_OID _); [|done]. destruct (ARRAY_OID _); [|done]. by intros [= <-].
  - destruct (TYPE_OID _) as [o|]; [|done]. intros E. assert (forall a b : CodegenCol, Ok a = Ok b -> a = b) as Hinj by congruence.
    apply Hinj in E. subst c. split; [done|]. split; [|done]. cbn. destruct (Z.eqb_spec o 700); [auto|]. intros Hb. left. by apply andb_true_iff in Hb as [? _].
Qed.
Lemma leaf_plan name t c : resolveLeaf name t = Ok c -> bare name c /\ plan_ok c.
Proof.
  destruct t; try done; [apply type_plan|..].
  - cbn. intros E. apply bind_res_Ok_inv in E as ([] & Ev & E). injection E as <-. done.
  - cbn. destruct isArray; by intros [= <-].
Qed.

(** ** Flattening *)

(** The leaves of a shape in the order the query selects them: the groups above each one with
    their nullability, and its name. *)
Fixpoint leaves (gs : list (jstr * bool)) (name : jstr) (t : ShapeValue) {struct t} : list (list (jstr * bool) * jstr) :=
  match t with
  | SCollect nullable _ spec =>
    (fix go (es : list (jstr * ShapeValue)) : list (list (jstr * bool) * jstr) :=
       match es with [] => [] | (k, v) :: r => leaves (gs ++ [(name, nullable)]) k v ++ go r end) spec
  | _ => [(gs, name)]
  end.
Definition shape_leaves (spec : list (jstr * ShapeValue)) : list (list (jstr * bool) * jstr) :=
  flat_map (fun kv => leaves [] kv.1 kv.2) spec.
Definition groups (c : CodegenCol) : list (jstr * bool) := zip (default [] (path c)) (groupNullable c).
Definition tag (c : CodegenCol) : list (jstr * bool) * jstr := (groups c, name c).

Lemma zip_split {A B} (l : list (A * B)) : zip l.*1 l.*2 = l.
Proof. induction l as [|[a b] l IH]; [done|]. cbn. by f_equal. Qed.
Lemma column_plan nm t gs c : column nm t gs.*1 gs.*2 = Ok c -> plan_ok c /\ tag c = (gs, nm).
Proof.
  unfold column. destruct (unwrap t) as [nl m].
  set (q := match m with STransform ty fn => _ | _ => _ end). destruct q as [xf m']. intros E.
  apply bind_res_Ok_inv in E as (col & El & E). apply leaf_plan in El as ((Hn & Hpath & Hg) & Hp).
  assert (forall a b : CodegenCol, Ok a = Ok b -> a = b) as Hinj by congruence. apply Hinj in E. subst c. split; [done|].
  unfold tag, groups. cbn [name path groupNullable]. rewrite Hn. destruct gs as [|g gs]; cbn [fmap list_fmap].
  - by rewrite Hpath, Hg.
  - f_equal. apply (zip_split (g :: gs)).
Qed.

Lemma entries_spec (f : jstr -> ShapeValue -> res (list CodegenCol)) (g : jstr -> ShapeValue -> list (list (jstr * bool) * jstr)) es cols :
  (forall k v cs, In (k, v) es -> f k v = Ok cs -> Forall plan_ok cs /\ tag <$> cs = g k v) ->
  walk_entries f es = Ok cols -> Forall plan_ok cols /\ tag <$> cols = flat_map (fun kv => g kv.1 kv.2) es.
Proof.
  revert cols. induction es as [|[k v] es IH]; intros cols Hf; cbn [walk_entries]; [by intros [= <-]|]. intros E.
  apply bind_res_Ok_inv in E as (a & Ea & E). apply bind_res_Ok_inv in E as (b & Eb & E). injection E as <-.
  destruct (Hf k v a) as [Ha Ta]; [by left|done|]. destruct (IH b) as [Hb Tb]; [|done|].
  { intros k' v' cs Hin. apply Hf. by right. }
  rewrite fmap_app, Ta, Tb. split; [by apply Forall_app|done].
Qed.

Lemma leaves_collect gs nm nullable form spec :
  leaves gs nm (SCollect nullable form spec) = flat_map (fun kv => leaves (gs ++ [(nm, nullable)]) kv.1 kv.2) spec.
Proof. cbn [leaves]. induction spec as [|[k v] spec IH]; [done|]. cbn [flat_map]. by rewrite <- IH. Qed.
Fixpoint walk_plan (t : ShapeValue) {struct t} : forall gs nm cs,
  walk_value gs.*1 gs.*2 nm t = Ok cs -> Forall plan_ok cs /\ tag <$> cs = leaves gs nm t.
Proof.
  intros gs nm cs E. destruct t as [ty|m|def tg arr|ty fn|inner|nullable form spec].
  6: {
    rewrite leaves_collect. cbn [walk_value] in E. apply bind_res_Ok_inv in E as (es & _ & E). revert cs E.
    assert (gs.*1 ++ [nm] = (gs ++ [(nm, nullable)]).*1) as -> by by rewrite fmap_app.
    assert (gs.*2 ++ [nullable] = (gs ++ [(nm, nullable)]).*2) as -> by by rewrite fmap_app.
    intros cs. apply entries_spec. generalize (gs ++ [(nm, nullable)]). intros gs'.
    induction spec as [|[k v] spec IH]; intros k' v' cs' Hin; [done|].
    destruct Hin as [Hin|Hin]; [|by apply IH].
    injection Hin as <- <-. apply walk_plan. }
  all: cbn [walk_value] in E; apply bind_res_Ok_inv in E as (c & Ec & E); injection E as <-;
    destruct (column_plan _ _ _ _ Ec) as [? Ht]; cbn [fmap list_fmap]; rewrite Ht; (split; [by apply List.Forall_cons|done]).
Qed.

Lemma merge_plan cols fields : Forall plan_ok cols ->
  Forall plan_ok (mergeUnknownCols cols fields) /\ tag <$> mergeUnknownCols cols fields = tag <$> cols.
Proof.
  intros Hc. unfold mergeUnknownCols. destruct (existsb _ cols); [|done]. split.
  - apply Forall_lookup_2. intros i c. rewrite list_lookup_imap. destruct (cols !! i) as [d|] eqn:Ed; [|done]. intros [= <-].
    pose proof (Forall_lookup_1 _ _ _ _ Hc Ed) as [Hb Hj]. destruct (Z.eqb_spec (oid d) 0) as [E0|]; [|done].
    split; [|exact Hj]. intros Et. destruct (Hb Et) as [Hf|?]; [|lia]. rewrite E0 in Hf. done.
  - apply list_eq. intros i. rewrite !list_lookup_fmap, list_lookup_imap. destruct (cols !! i) as [d|]; [|done]. cbn.
    by destruct (oid d =? 0).
Qed.

(** C36: a shape that [shapeCols] accepts is a complete plan: its columns are the leaves of the shape
    in the order the query selects them, each with its groups and their nullability, and every
    column compiles on both engines, whatever decoders are registered and whatever types the
    server reports for the 'unknown' columns. *)
Theorem shape_compiles form spec cols : shapeCols form spec = Ok cols -> forall fields,
  tag <$> mergeUnknownCols cols fields = shape_leaves spec /\
  forall (env : Env) (map : gmap Z Decoder), Forall (compiles map) (mergeUnknownCols cols fields).
Proof.
  unfold shapeCols. intros E fields. apply bind_res_Ok_inv in E as (es & _ & E).
  apply (entries_spec _ (leaves [])) in E as [Hp Ht]; [|intros k v cs _; apply (walk_plan v [])].
  destruct (merge_plan cols fields Hp) as [Hp' Ht']. split; [by rewrite Ht'|].
  intros env map. eapply Forall_impl; [exact Hp'|]. intros c. apply plan_compiles.
Qed.
Definition demo_shape : list (jstr * ShapeValue) := [
  (js "id", SType (js "BigInt : number"));
  (js "author", SCollect true false [
    (js "name", SNullable (STransform (js "text") (fun v => Ok v)));
    (js "tags", SType (js "text[]"))]);
  (js "doc", SJson (Jsonb [(js "price", FType (js "numeric")); (js "at", FType (js "timestamptz"))]));
  (js "ratio", SType (js "float4:precise"));
  (js "n", SType (js "unknown"))].
Lemma shape_compiles_witness : exists cols, shapeCols false demo_shape = Ok cols /\ length cols = 6%nat /\
  (forall fields, tag <$> mergeUnknownCols cols fields = shape_leaves demo_shape /\
     forall (env : Env) (map : gmap Z Decoder), Forall (compiles map) (mergeUnknownCols cols fields)).
Proof.
  eexists. split; [reflexivity|]. split; [reflexivity|]. apply (shape_compiles false demo_shape). reflexivity.
Defined.

Example demo_columns : (fun c => (name c, oid c, binary c, groups c, nullable c)) <$> default [] (match shapeCols false demo_shape with Ok c => Some c | _ => None end) = [
  (js "id", 20, true, [], false); (js "name", 25, false, [(js "author", true)], true); (js "tags", 1009, false, [(js "author", true)], false);
  (js "doc", 3802, false, [], false); (js "ratio", 700, true, [], false); (js "n", 0, false, [], false)].
Proof. reflexivity. Qed.
Example demo_errors :
  shapeCols false [(js "12", SType (js "int4"))] = Throw (moved_key (js "12")) /\
  shapeCols true [(js "a", SType (js "int4")); (js "a", SType (js "int4"))] = Throw (duplicate_key (js "a")) /\
  shapeCols false [(js "a", SType (js "int9"))] = Throw (unknown_type (js "int9") (js "a")) /\
  paramTypeOid (PText (js "INT8[]")) = Ok 1016 /\ paramTypeOid (PText (js "int8 []")) = Throw (unknown_param (js "int8 []")).
Proof. repeat split. Qed.
(** box has an array type here, and none among the arrays that plain columns are decoded by. *)
Example box_array : paramTypeOid (PText (js "box[]")) = Ok 1020 /\ ELEM_OID 1020 = None.
Proof. split; reflexivity. Qed.
