(* ===== verification/PgOutput.v ===== *)
(** * Decoding the logical-replication stream (src/replication.ts)

    LSNs, the pgoutput messages and the events they become, the relations announced
    on the stream and the decoders chosen for their columns. The per-stream fields of
    [ReplicationConnection] that decoding reads and writes are the record [Stream]. *)

From S2P Require Import Prelude Utf8 Text Buf Num Dates Value NumText Json JsonBig ExtTypes ArrayText Temporal Protocol Framing Messages Encode Decode BinTuple.

Definition PG_EPOCH_US : Z := 946684800000000.

(** ** LSNs *)

Definition hex_digit_up (n : Z) : Z := if n <? 10 then 48 + n else 55 + n.
Fixpoint hex_fuel (fuel : nat) (n : Z) (acc : jstr) : jstr :=
  match fuel with
  | O => acc
  | S f => if n <? 16 then hex_digit_up n :: acc else hex_fuel f (n / 16) (hex_digit_up (n mod 16) :: acc)
  end.
(** toString(16).toUpperCase() of a bigint *)
Definition hex_upper (z : Z) : jstr :=
  if z <? 0 then 45 :: hex_fuel (S (Z.to_nat (Z.log2 (- z)))) (- z) [] else hex_fuel (S (Z.to_nat (Z.log2 z))) z [].
Definition lsnToString (lsn : Z) : jstr :=
  hex_upper (Z.shiftr lsn 32) ++ js "/" ++ hex_upper (Z.land lsn 4294967295).

(** parseInt(s, 16): white space, a sign, an optional 0x, then the digits up to the first other
    character; none is NaN. *)
Fixpoint hex_span (s : jstr) : list Z :=
  match s with
  | c :: t => match hex_val c with Some d => d :: hex_span t | None => [] end
  | [] => []
  end.
Definition hex_value (ds : list Z) : Z := foldl (fun acc d => acc * 16 + d) 0 ds.
Definition parseInt16 (s : jstr) : num :=
  let '(neg, s) := sign_of (skip_spaces s) in
  let s := match s with a :: b :: t => if (a =? 48) && ((b =? 120) || (b =? 88)) then t else s | _ => s end in
  match hex_span s with
  | [] => NaN
  | ds => rnd neg (hex_value ds) 1
  end.
(** BigInt(x) of a number: an integer, or a RangeError. *)
Definition BigInt_num (x : num) : res Z := match int_of x with Some z => Ok z | None => Throw RangeError end.
(** [const [hi, lo] = s.split('/')]; a missing part is undefined, which parseInt reads as NaN. *)
Definition lsnFromString (s : jstr) : res Z :=
  let parts := split 47 s [] in
  let part i := match parts !! i with Some p => parseInt16 p | None => NaN end in
  hi ← BigInt_num (part 0%nat);
  lo ← BigInt_num (part 1%nat);
  Ok (Z.lor (Z.shiftl hi 32) lo).

Inductive lsn_arg := LsnBig (v : Z) | LsnStr (s : jstr).
Definition toLsn (v : lsn_arg) : res Z := match v with LsnBig v => Ok v | LsnStr s => lsnFromString s end.

(** ** Events *)

Record RelColumn := mkRelCol { cname : jstr; coid : Z; ckey : bool }.
Record ReplicationRelation := mkRel {
  schema : jstr; table : jstr; replicaIdentity : jstr; columns : list RelColumn }.
(** A row is an object: its properties in the order they were first assigned. *)
Abbreviation Row := (list (jstr * value)).
Inductive OldKind := OldKey | OldFull.

(** commitTime is the time value of the Date ([None] is an invalid one). *)
Inductive ReplicationEvent :=
| EvBegin (xid : Z) (commitTime : option Z) (commitTimeUs : num) (finalLsn : jstr)
| EvCommit (lsn endLsn : jstr) (commitTime : option Z) (commitTimeUs : num)
| EvInsert (schema table : jstr) (new : Row)
| EvUpdate (schema table : jstr) (new : Row) (unchanged : list jstr) (keyChanged : option bool) (old : option (OldKind * Row))
| EvDelete (schema table : jstr) (old : Row) (oldKind : OldKind)
| EvTruncate (tables : list (jstr * jstr)) (cascade restartIdentity : bool)
| EvMessage (transactional : bool) (prefix : jstr) (content : bytes) (lsn : jstr)
| EvRelation (relation : ReplicationRelation).

Inductive ReplicationWarning :=
| PublicationEmptyW (publication message : jstr)
| ReplicaIdentityW (schema table replicaIdentity message : jstr)
| PartitionRelationW (schema table publication message : jstr).

(** Object.is on decoded values: primitives by value. Two decoded objects are never the
    same reference, since every cell is decoded afresh. *)
Definition object_is (a b : value) : bool :=
  match a, b with
  | VUndef, VUndef | VNull, VNull => true
  | VBool x, VBool y => Bool.eqb x y
  | VNum x, VNum y => bool_decide (x = y)
  | VBig x, VBig y => x =? y
  | VStr x, VStr y => bool_decide (x = y)
  | _, _ => false
  end.
Definition sameValue (a b : value) : bool :=
  if object_is a b then true
  else match a, b with
       | VDate x, VDate y => bool_decide (x = y)
       | VBuf x, VBuf y =>
         if negb (length x =? length y)%nat then false else forallb (fun p => p.1 =? p.2) (zip x y)
       | _, _ => false
       end.

(** ** The state of a stream *)

Section PgOutput.
Context `{Env}.

(** names[i] is the output key of column i. *)
Record RelEntry := mkRelEntry {
  info : ReplicationRelation; names : list jstr; decoders : list CellDecoder;
  bin : option (list (option CellDecoder)); rkey : option (list jstr) }.
(** A resolved shape: [columns] maps a shape key to its SQL column. *)
Record TableShape := mkShape { cols : list CodegenCol; scolumns : option (list (jstr * jstr)); skey : option (list jstr) }.

(** The fields of the connection that belong to the active stream. [log] is what
    onWarning has been called with, in order ([warn]: a callback was given). *)
Record Stream := mkStream {
  relations : gmap Z RelEntry;
  shaped : gmap jstr TableShape;
  binaryMode : bool;
  hydrateToast : bool;
  warn : bool;
  warned : gset jstr;
  leafPartitions : gmap jstr jstr;
  log : list ReplicationWarning;
  catalog : gmap Z Decoder }.

Definition set_relations (r : gmap Z RelEntry) (s : Stream) : Stream :=
  mkStream r (shaped s) (binaryMode s) (hydrateToast s) (warn s) (warned s) (leafPartitions s) (log s) (catalog s).
Definition warn_once (key : jstr) (w : ReplicationWarning) (s : Stream) : Stream :=
  mkStream (relations s) (shaped s) (binaryMode s) (hydrateToast s) (warn s) ({[key]} ∪ warned s) (leafPartitions s)
           (log s ++ [w]) (catalog s).

(** U+2014, which the messages use *)
Definition dash : jstr := [8212].
(** The key of the maps and sets of tables. *)
Definition table_key (schema table : jstr) : jstr := schema ++ 0 :: table.

Definition identity_message (i : ReplicationRelation) (update : bool) : jstr :=
  js "minipg: " ++ schema i ++ js "." ++ table i ++ js " " ++ (if update then js "update" else js "delete")
  ++ js " arrived without a full old row (replica identity '" ++ replicaIdentity i ++ js "') " ++ dash ++ js " "
  ++ (if update
      then js "the old row is absent or carries only identity-key columns (non-key columns read null meaning not-carried), and unchanged TOASTed columns cannot be filled into new"
      else js "the old row carries only the identity key")
  ++ js "; set REPLICA IDENTITY FULL to receive the full old row".
Definition warnIdentity (r : RelEntry) (update : bool) : M Stream unit := fun s =>
  let i := info r in
  if negb (warn s) then (s, Ok tt)
  else
    let key := js "replica-identity" ++ 0 :: table_key (schema i) (table i) in
    if bool_decide (key ∈ warned s) then (s, Ok tt)
    else (warn_once key (ReplicaIdentityW (schema i) (table i) (replicaIdentity i) (identity_message i update)) s, Ok tt).

Definition partition_message (schema table pub : jstr) : jstr :=
  js "minipg: " ++ schema ++ js "." ++ table ++ js " events arrive under the partition's own name because publication "
  ++ quote pub ++ js " does not set publish_via_partition_root " ++ dash
  ++ js " create it with publish_via_partition_root = true to receive events under the root's name".
Definition warnPartition (schema table : jstr) : M Stream unit := fun s =>
  if negb (warn s) then (s, Ok tt)
  else match leafPartitions s !! table_key schema table with
       | None => (s, Ok tt)
       | Some pub =>
         let key := js "partition-relation" ++ 0 :: table_key schema table in
         if bool_decide (key ∈ warned s) then (s, Ok tt)
         else (warn_once key (PartitionRelationW schema table pub (partition_message schema table pub)) s, Ok tt)
       end.

(** ** Announced relations *)

Definition in_table (i : ReplicationRelation) : jstr :=
  js "minipg: replication shape for " ++ schema i ++ js "." ++ table i.
Definition no_binary_decoder (i : ReplicationRelation) (name : jstr) (k : nat) : exn :=
  Error (js "minipg: binary tuple value for " ++ schema i ++ js "." ++ table i ++ js "." ++ name ++ js " (oid "
         ++ match columns i !! k with Some c => show_Z (coid c) | None => js "undefined" end
         ++ js ") has no binary decoder for its declared/default decode " ++ dash ++ js " start() without binary:true, use a binary-capable shape target, or override config.types for this type").

Definition sql_name (sh : TableShape) (sc : CodegenCol) : jstr :=
  match scolumns sh with
  | Some m => default (name sc) (snd <$> List.find (fun p => bool_decide (p.1 = name sc)) m)
  | None => name sc
  end.
Definition find_column (i : ReplicationRelation) (sql : jstr) : option nat :=
  find_from (fun c => bool_decide (cname c = sql)) (columns i) 0.

(** The loop over the declared columns: SQL column to shape column, and the output keys. *)
Fixpoint bind_shape (i : ReplicationRelation) (sh : TableShape) (scs : list CodegenCol)
    (bySql : gmap jstr CodegenCol) (names : list jstr) : res (gmap jstr CodegenCol * list jstr) :=
  match scs with
  | [] => Ok (bySql, names)
  | sc :: t =>
    let sql := sql_name sh sc in
    match find_column i sql with
    | None => Throw (Error (in_table i ++ js " declares column " ++ quote (name sc)
        ++ (if bool_decide (sql = name sc) then [] else js " (-> " ++ quote sql ++ js ")")
        ++ js " but the relation has: " ++ join (js ", ") (cname <$> columns i)))
    | Some k =>
      match bySql !! sql with
      | Some prev => Throw (Error (in_table i ++ js ": " ++ quote (name prev) ++ js " and " ++ quote (name sc)
                                   ++ js " both map to column " ++ quote sql))
      | None => bind_shape i sh t (<[sql := sc]> bySql) (<[k := name sc]> names)
      end
    end
  end.
(** The first name that occurs earlier in the list. *)
Fixpoint find_dup (seen l : list jstr) : option jstr :=
  match l with
  | [] => None
  | n :: t => if bool_decide (n ∈ seen) then Some n else find_dup (n :: seen) t
  end.

Definition xf (d : CellDecoder) (f : value -> res value) : CellDecoder := fun b o l => v ← d b o l; f v.
Definition with_xform (sc : CodegenCol) (d : CellDecoder) : CellDecoder :=
  match xform sc with Some f => xf d f | None => d end.
(** A column that the shape does not declare. *)
Definition plain_col (c : RelColumn) : CodegenCol := mkCol (cname c) (coid c) None None false None None [] None false.
(** [{ ...sc, oid: sc.oid === 0 ? c.oid : sc.oid, format: undefined }] *)
Definition deferred_col (sc : CodegenCol) (c : RelColumn) : CodegenCol :=
  mkCol (name sc) (if oid sc =? 0 then coid c else oid sc) (js_ sc) (json sc) false (array sc) (path sc)
        (groupNullable sc) (xform sc) (nullable sc).

Definition text_decoder (m : gmap Z Decoder) (bySql : gmap jstr CodegenCol) (c : RelColumn) : res CellDecoder :=
  match bySql !! cname c with
  | None => pickDecoder (tagArrayCol (plain_col c)) m
  | Some sc => with_xform sc <$> pickDecoder (tagArrayCol (deferred_col sc c)) m
  end.
Definition bin_decoder (m : gmap Z Decoder) (bySql : gmap jstr CodegenCol) (c : RelColumn) : res (option CellDecoder) :=
  match bySql !! cname c with
  | None => Ok (replBinaryFor (coid c) m)
  | Some sc =>
    let defers := (oid sc =? 0) && (match json sc with None => true | Some _ => false end) in
    d ← (if defers then Ok (replBinaryFor (coid c) m) else replBinaryForCol sc m);
    Ok (with_xform sc <$> (d : option CellDecoder))
  end.

Definition relEntry (s : Stream) (i : ReplicationRelation) : res RelEntry :=
  let own := cname <$> columns i in
  let shape := shaped s !! table_key (schema i) (table i) in
  p ← (match shape with
       | None => Ok (∅, own)
       | Some sh =>
         q ← bind_shape i sh (cols sh) ∅ own;
         match find_dup [] q.2 with
         | Some dup => Throw (Error (in_table i ++ js ": output key " ++ quote dup
                                     ++ js " collides with another column " ++ dash ++ js " map one of them via columns"))
         | None => Ok q
         end
       end);
  let '(bySql, names) := (p : gmap jstr CodegenCol * list jstr) in
  ds ← mapM (text_decoder (catalog s) bySql) (columns i);
  bs ← (if binaryMode s then Some <$> mapM (bin_decoder (catalog s) bySql) (columns i) else Ok None);
  match bs with
  | Some l =>
    match find_from (fun d : option CellDecoder => match d with None => true | Some _ => false end) l 0 with
    | Some k => Throw (no_binary_decoder i (default (js "undefined") (names !! k)) k)
    | None => Ok (mkRelEntry i names ds bs (shape ≫= skey))
    end
  | None => Ok (mkRelEntry i names ds None (shape ≫= skey))
  end.

(** ** Messages *)

(** [cstr()]: the text and the offset after its NUL; the loop looks for a NUL past the end
    too, and without one it does not stop. *)
Definition cstr_at (b : bytes) (off : Z) : res (jstr * Z) :=
  match Parser.cstr_end b off with
  | None => NoFuel
  | Some e => Ok (utf8_decode (subarray b off e), e + 1)
  end.
(** String.fromCharCode(b[off]): undefined is code unit 0. *)
Definition code_at (b : bytes) (off : Z) : Z := default 0 (at_ b off).
Definition ts (us : Z) : option Z := TimeClip ((us + PG_EPOCH_US) / 1000).
Definition tsUs (us : Z) : num := of_Z (us + PG_EPOCH_US).

(** The cells of a tuple from column [i] on: the row, the unchanged names and the offset after. *)
Fixpoint tuple_loop (n : nat) (i : nat) (r : RelEntry) (b : bytes) (off : Z) (row : Row) (unchanged : list jstr)
    : res (Row * list jstr * Z) :=
  match n with
  | O => Ok (row, unchanged, off)
  | S n' =>
    let nm := default (show_Z (Z.of_nat i)) (names r !! i) in
    let k := at_ b off in
    let off := off + 1 in
    if bool_decide (k = Some 110) then tuple_loop n' (S i) r b off (set_key nm VNull row) unchanged
    else if bool_decide (k = Some 117) then tuple_loop n' (S i) r b off row (unchanged ++ [nm])
    else
      len ← readInt32BE b off;
      let off := off + 4 in
      if bool_decide (k = Some 98) then
        match bin r ≫= fun l => mjoin (l !! i) with
        | None => Throw (no_binary_decoder (info r) nm i)
        | Some bd => v ← bd b off len; tuple_loop n' (S i) r b (off + len) (set_key nm v row) unchanged
        end
      else
        v ← (match decoders r !! i with
             | Some dec => dec b off len
             | None => Ok (VStr (utf8_at b off len))
             end);
        tuple_loop n' (S i) r b (off + len) (set_key nm v row) unchanged
  end.
Definition tuple (r : RelEntry) (b : bytes) (off : Z) : res (Row * list jstr * Z) :=
  n ← readInt16BE b off; tuple_loop (Z.to_nat n) 0 r b (off + 2) [] [].

Definition unannounced (id : Z) : exn :=
  Error (js "minipg: unannounced relation " ++ show_Z id ++ js " " ++ dash
         ++ js " no Relation message was received for it (protocol desync)").
Definition rel (s : Stream) (id : Z) : res RelEntry :=
  match relations s !! id with Some r => Ok r | None => Throw (unannounced id) end.

Fixpoint rel_columns (n : nat) (b : bytes) (off : Z) : res (list RelColumn) :=
  match n with
  | O => Ok []
  | S n' =>
    let key := bool_decide (at_ b off = Some 1) in
    p ← cstr_at b (off + 1);
    let '(nm, off) := (p : jstr * Z) in
    oid ← readInt32BE b off;
    rest ← rel_columns n' b (off + 8);
    Ok (mkRelCol nm oid key :: rest)
  end.
Definition relation_msg (b : bytes) : res (Z * ReplicationRelation) :=
  id ← readInt32BE b 1;
  p ← cstr_at b 5;
  let '(schema, off) := (p : jstr * Z) in
  q ← cstr_at b off;
  let '(table, off) := (q : jstr * Z) in
  let ident := [code_at b off] in
  n ← readInt16BE b (off + 1);
  cs ← rel_columns (Z.to_nat n) b (off + 3);
  Ok (id, mkRel schema table ident cs).

(** [if (name in old) t.row[name] = old[name]] for the unchanged columns of a full old row. *)
Definition hydrate (old : Row) (row : Row) (unchanged : list jstr) : Row :=
  foldl (fun row nm => match get_key nm old with Some v => set_key nm v row | None => row end) row unchanged.
Definition key_changed (r : RelEntry) (old : option (OldKind * Row)) (unchanged : list jstr) (row : Row) : option bool :=
  match rkey r with
  | None => None
  | Some ks =>
    Some (match old with
          | Some (OldKey, _) => true
          | None => false
          | Some (OldFull, o) =>
            existsb (fun nm => negb (bool_decide (nm ∈ unchanged))
                               && negb (sameValue (default VUndef (get_key nm o)) (default VUndef (get_key nm row)))) ks
          end)
  end.

Definition update_msg (b : bytes) : M Stream ReplicationEvent :=
  s ← (get : M Stream Stream);
  r ← lift (id ← readInt32BE b 1; rel s id);
  let k := code_at b 5 in
  p ← lift (if bool_decide (k ∈ [75; 79])
            then t ← tuple r b 6; let '(row, _, off) := (t : Row * list jstr * Z) in
                 Ok (Some (if k =? 75 then OldKey else OldFull, row), off + 1)
            else Ok (None, 6));
  let '(old, off) := (p : option (OldKind * Row) * Z) in
  _ ← (match old with Some (OldFull, _) => mret tt | _ => warnIdentity r true end);
  t ← lift (tuple r b off);
  let '(row, unchanged, _) := (t : Row * list jstr * Z) in
  let new := match old with
             | Some (OldFull, o) => if hydrateToast s then hydrate o row unchanged else row
             | _ => row
             end in
  mret (EvUpdate (schema (info r)) (table (info r)) new unchanged (key_changed r old unchanged new) old).

Definition delete_msg (b : bytes) : M Stream ReplicationEvent :=
  s ← (get : M Stream Stream);
  r ← lift (id ← readInt32BE b 1; rel s id);
  let kind := if code_at b 5 =? 75 then OldKey else OldFull in
  _ ← (match kind with OldKey => warnIdentity r false | OldFull => mret tt end);
  t ← lift (tuple r b 6);
  let '(row, _, _) := (t : Row * list jstr * Z) in
  mret (EvDelete (schema (info r)) (table (info r)) row kind).

Fixpoint truncate_tables (n : nat) (s : Stream) (b : bytes) (off : Z) : res (list (jstr * jstr)) :=
  match n with
  | O => Ok []
  | S n' =>
    r ← (id ← readInt32BE b off; rel s id);
    rest ← truncate_tables n' s b (off + 4);
    Ok ((schema (info r), table (info r)) :: rest)
  end.

Definition unknown_message (tag : Z) : exn := Error (js "minipg: unknown pgoutput message '" ++ [tag] ++ js "'").

Definition decode (b : bytes) : M Stream (option ReplicationEvent) :=
  let tag := code_at b 0 in
  if tag =? 66 then
    lift (fin ← readBigUInt64BE b 1; t ← readBigUInt64BE b 9; xid ← readInt32BE b 17;
          Ok (Some (EvBegin xid (ts t) (tsUs t) (lsnToString fin))))
  else if tag =? 67 then
    lift (l ← readBigUInt64BE b 2; e ← readBigUInt64BE b 10; t ← readBigUInt64BE b 18;
          Ok (Some (EvCommit (lsnToString l) (lsnToString e) (ts t) (tsUs t))))
  else if tag =? 82 then
    s ← (get : M Stream Stream);
    p ← lift (relation_msg b);
    let '(id, i) := (p : Z * ReplicationRelation) in
    r ← lift (relEntry s i);
    _ ← modify (set_relations (<[id := r]> (relations s)));
    _ ← warnPartition (schema i) (table i);
    mret (Some (EvRelation i))
  else if tag =? 73 then
    s ← (get : M Stream Stream);
    lift (r ← (id ← readInt32BE b 1; rel s id);
          t ← tuple r b 6;
          let '(row, _, _) := (t : Row * list jstr * Z) in
          Ok (Some (EvInsert (schema (info r)) (table (info r)) row)))
  else if tag =? 85 then e ← update_msg b; mret (Some e)
  else if tag =? 68 then e ← delete_msg b; mret (Some e)
  else if tag =? 84 then
    s ← (get : M Stream Stream);
    lift (n ← readInt32BE b 1;
          let flags := code_at b 5 in
          l ← truncate_tables (Z.to_nat n) s b 6;
          Ok (Some (EvTruncate l (negb (Z.land flags 1 =? 0)) (negb (Z.land flags 2 =? 0)))))
  else if tag =? 77 then
    lift (lsn ← readBigUInt64BE b 2;
          p ← cstr_at b 10;
          let '(prefix, off) := (p : jstr * Z) in
          len ← readInt32BE b off;
          Ok (Some (EvMessage (bool_decide (at_ b 1 = Some 1)) prefix (subarray b (off + 4) (off + 4 + len)) (lsnToString lsn))))
  else if bool_decide (tag ∈ [79; 89]) then mret None
  else throw (unknown_message tag).
End PgOutput.
