(* ===== verification/PgOutputProofs.v ===== *)
(** * What decoding the replication stream guarantees

    LSN texts, the agreement of [decode] with the documented message formats, the
    decoders of announced relations, and the update event. *)

From S2P Require Import Prelude Utf8 Text Buf Num Dates Value NumText Json JsonBig ExtTypes ArrayText Temporal Protocol Framing Messages Parse Encode Decode BinTuple PgOutput.

(** ** LSNs *)

Definition upper_hex (c : Z) : Prop := 48 <= c <= 57 \/ 65 <= c <= 70.
Lemma hex_digit_up_ok d : 0 <= d < 16 -> upper_hex (hex_digit_up d) /\ hex_val (hex_digit_up d) = Some d.
Proof.
  intros Hd. unfold upper_hex, hex_digit_up, hex_val, is_digit. destruct (Z.ltb_spec d 10).
  - split; [lia|]. replace ((48 <=? 48 + d) && (48 + d <=? 57)) with true by blia. f_equal. lia.
  - split; [lia|]. replace ((48 <=? 55 + d) && (55 + d <=? 57)) with false by blia.
    replace ((97 <=? 55 + d) && (55 + d <=? 102)) with false by blia.
    replace ((65 <=? 55 + d) && (55 + d <=? 70)) with true by blia. f_equal. lia.
Qed.

Lemma hex_value_snoc ds d : hex_value (ds ++ [d]) = hex_value ds * 16 + d.
Proof. unfold hex_value. by rewrite foldl_app. Qed.

(** The digits of a number, most significant first. *)
Lemma hex_fuel_spec f n acc : 0 <= n < 16 ^ Z.of_nat f -> (0 < f)%nat ->
  exists ds, hex_fuel f n acc = (hex_digit_up <$> ds) ++ acc /\ Forall (fun d => 0 <= d < 16) ds
             /\ ds <> [] /\ hex_value ds = n.
Proof.
  revert n acc. induction f as [|f IH]; intros n acc Hn Hf; [lia|]. cbn [hex_fuel].
  destruct (Z.ltb_spec n 16).
  - exists [n]. split; [done|]. split; [repeat constructor; lia|]. split; [done|]. unfold hex_value. simpl. lia.
  - rewrite Nat2Z.inj_succ, Z.pow_succ_r in Hn by lia.
    assert (1 <= n / 16 < 16 ^ Z.of_nat f) as Hq by (split; [apply Z.div_le_lower_bound; lia|apply Z.div_lt_upper_bound; lia]).
    assert (0 < f)%nat by (destruct f; [simpl in Hq; lia|lia]).
    destruct (IH (n / 16) (hex_digit_up (n mod 16) :: acc)) as (ds & E & D & NE & V); [lia|done|].
    pose proof (Z.mod_pos_bound n 16 ltac:(lia)). pose proof (Z.div_mod n 16 ltac:(lia)).
    exists (ds ++ [n mod 16]). rewrite E, fmap_app, <- app_assoc. split; [done|].
    split; [apply Forall_app; split; [done|repeat constructor; lia]|]. split; [by destruct ds|]. rewrite hex_value_snoc, V. lia.
Qed.

Lemma hex_upper_spec n : 0 <= n -> exists ds, hex_upper n = hex_digit_up <$> ds /\ Forall (fun d => 0 <= d < 16) ds
  /\ ds <> [] /\ hex_value ds = n.
Proof.
  intros Hn. unfold hex_upper. destruct (Z.ltb_spec n 0); [lia|].
  destruct (hex_fuel_spec (S (Z.to_nat (Z.log2 n))) n []) as (ds & E & H').
  - split; [done|]. rewrite Nat2Z.inj_succ, Z2Nat.id by apply Z.log2_nonneg.
    destruct (Z.eq_dec n 0) as [->|]; [done|].
    apply Z.lt_le_trans with (2 ^ Z.succ (Z.log2 n)); [apply Z.log2_spec; lia|]. apply Z.pow_le_mono_l. lia.
  - lia.
  - exists ds. by rewrite E, app_nil_r.
Qed.

Lemma hex_span_digits ds : Forall (fun d => 0 <= d < 16) ds -> hex_span (hex_digit_up <$> ds) = ds.
Proof.
  induction 1 as [|d ds Hd _ IH]; [done|]. cbn [fmap list_fmap hex_span].
  destruct (hex_digit_up_ok d Hd) as [_ ->]. by f_equal.
Qed.

Lemma int_of_rnd z : 0 <= z < 2 ^ 53 -> int_of (rnd false z 1) = Some z.
Proof.
  intros Hz. destruct (Z.eq_dec z 0) as [->|Hne]; [done|]. pose proof (Z.log2_nonneg z) as Hl0.
  assert (Z.log2 z < 53) as Hl by (apply Z.log2_lt_pow2; lia).
  rewrite rnd_int by lia. cbv zeta. set (e := Z.log2 z - 52). pose proof (Z.log2_spec z ltac:(lia)) as [_ Hhi].
  destruct (Z.leb_spec 0 e).
  - assert (e = 0) as E0 by (unfold e in *; lia). rewrite E0. change (2 ^ 0) with 1.
    replace (rne z 1) with z by (symmetry; rewrite <- (Z.mul_1_r z) at 1; apply rne_exact; lia).
    destruct (Z.eqb_spec z (2 ^ 53)); [lia|]. unfold int_of. simpl. f_equal. lia.
  - assert (z * 2 ^ (- e) < 2 ^ 53) as Hb.
    { replace 53 with (Z.succ (Z.log2 z) + (- e)) by (unfold e; lia). rewrite Z.pow_add_r by (unfold e in *; lia).
      assert (0 < 2 ^ (- e)) by (apply Z.pow_pos_nonneg; lia). nia. }
    destruct (Z.eqb_spec (z * 2 ^ (- e)) (2 ^ 53)); [lia|]. unfold int_of. destruct (Z.leb_spec 0 e); [lia|].
    assert (2 ^ (- e) <> 0) by (apply Z.pow_nonzero; lia). rewrite Z.mod_mul by done. simpl. rewrite Z.div_mul by done. f_equal. lia.
Qed.

Lemma parseInt16_digits ds : Forall (fun d => 0 <= d < 16) ds -> ds <> [] -> hex_value ds < 2 ^ 53 ->
  0 <= hex_value ds -> BigInt_num (parseInt16 (hex_digit_up <$> ds)) = Ok (hex_value ds).
Proof.
  intros Hd Hne Hv H0. destruct ds as [|d ds]; [done|]. pose proof Hd as Hd'. apply Forall_cons in Hd' as [Hd1 Hd2].
  destruct (hex_digit_up_ok d Hd1) as [Hu Hx]. unfold parseInt16.
  assert (skip_spaces (hex_digit_up <$> d :: ds) = hex_digit_up <$> d :: ds) as ->.
  { cbn [fmap list_fmap skip_spaces]. unfold upper_hex in Hu. assert (StrWhiteSpace (hex_digit_up d) = false) as ->; [|done].
    unfold StrWhiteSpace, between. rewrite bool_decide_false; [blia|]. rewrite !elem_of_cons, elem_of_nil. lia. }
  assert (sign_of (hex_digit_up <$> d :: ds) = (false, hex_digit_up <$> d :: ds)) as ->.
  { cbn [fmap list_fmap sign_of]. unfold upper_hex in Hu. destruct (Z.eqb_spec (hex_digit_up d) 45); [lia|].
    destruct (Z.eqb_spec (hex_digit_up d) 43); [lia|done]. }
  assert (forall s, match hex_digit_up <$> d :: ds with a :: b :: t => if (a =? 48) && ((b =? 120) || (b =? 88)) then t else s | _ => s end = s) as ->.
  { intros s. destruct ds as [|d2 ds]; [done|]. cbn [fmap list_fmap]. apply Forall_cons in Hd2 as [Hd2 _].
    destruct (hex_digit_up_ok d2 Hd2) as [Hu2 _]. unfold upper_hex in Hu2.
    destruct (Z.eqb_spec (hex_digit_up d2) 120); [lia|]. destruct (Z.eqb_spec (hex_digit_up d2) 88); [lia|]. by rewrite andb_false_r. }
  rewrite hex_span_digits by done. unfold BigInt_num. by rewrite int_of_rnd.
Qed.

Lemma split_nosep d s acc : Forall (fun c => c <> d) s -> split d s acc = [acc ++ s].
Proof.
  revert acc. induction s as [|c s IH]; intros acc Hs; cbn [split]; [by rewrite app_nil_r|].
  apply Forall_cons in Hs as [Hc Hs]. destruct (Z.eqb_spec c d); [done|]. rewrite IH by done. by rewrite <- app_assoc.
Qed.
Lemma hex_no_slash ds : Forall (fun d => 0 <= d < 16) ds -> Forall (fun c => c <> 47) (hex_digit_up <$> ds).
Proof.
  intros H. apply Forall_fmap. eapply Forall_impl; [exact H|]. intros d Hd.
  destruct (hex_digit_up_ok d Hd) as [Hu _]. unfold upper_hex in Hu. simpl. lia.
Qed.

(** an LSN survives its text form: for every 64-bit position [lsnFromString] reads back
    what [lsnToString] printed, so positions published as strings can be acknowledged. *)
Theorem lsn_roundtrip lsn : 0 <= lsn < 2 ^ 64 -> lsnFromString (lsnToString lsn) = Ok lsn.
Proof.
  intros Hl. unfold lsnToString. change 4294967295 with (Z.ones 32). rewrite Z.land_ones, Z.shiftr_div_pow2 by lia.
  assert (0 <= lsn / 2 ^ 32 < 2 ^ 32) as Hhi by (split; [apply Z.div_pos; lia|apply Z.div_lt_upper_bound; lia]).
  pose proof (Z.mod_pos_bound lsn (2 ^ 32) ltac:(lia)) as Hlo.
  destruct (hex_upper_spec (lsn / 2 ^ 32)) as (hs & -> & Hhs & Nhs & Vhs); [lia|].
  destruct (hex_upper_spec (lsn mod 2 ^ 32)) as (ls & -> & Hls & Nls & Vls); [lia|].
  unfold lsnFromString. change (js "/" ++ ?x) with (47 :: x).
  rewrite split_sep, split_nosep by (by apply hex_no_slash). cbn [lookup list_lookup app].
  rewrite !parseInt16_digits; try done; try lia. cbn [mbind res_bind].
  rewrite Z.shiftl_mul_pow2 by lia. rewrite lor_disjoint by lia. rewrite Vhs, Vls. f_equal.
  pose proof (Z.div_mod lsn (2 ^ 32) ltac:(lia)). lia.
Qed.
Lemma lsn_roundtrip_witness : lsnFromString (lsnToString 97500055624) = Ok 97500055624.
Proof. apply lsn_roundtrip. lia. Defined.

(** ** The messages a walsender sends (protocol version 1) *)

Inductive cell := NullCell | UnchangedCell | TextCell (b : bytes) | BinaryCell (b : bytes).
Definition pg_cell (c : cell) : bytes :=
  match c with
  | NullCell => [110]
  | UnchangedCell => [117]
  | TextCell b => 116 :: be 4 (blen b) ++ b
  | BinaryCell b => 98 :: be 4 (blen b) ++ b
  end.
Definition pg_tuple (cs : list cell) : bytes := be 2 (Z.of_nat (length cs)) ++ concat (pg_cell <$> cs).
Definition wf_tuple (cs : list cell) : Prop :=
  Z.of_nat (length cs) <= 32767 /\
  Forall (fun c => match c with TextCell b | BinaryCell b => blen b <= 2147483647 | _ => True end) cs.

Definition pg_text (s : jstr) : bytes := utf8 s ++ [0].
Definition wf_text (s : jstr) : Prop := usv s = true /\ Forall (fun c => 0 < c < 65536) s.
Definition pg_column (c : RelColumn * Z) : bytes :=
  (if ckey c.1 then 1 else 0) :: pg_text (cname c.1) ++ be 4 (coid c.1) ++ be 4 c.2.

Inductive pgmsg :=
| PBegin (fin time xid : Z)
| PCommit (flags lsn end_ time : Z)
| PRelation (id : Z) (i : ReplicationRelation) (ident : Z) (typmods : list Z)
| PInsert (id : Z) (new : list cell)
| PUpdate (id : Z) (old : option (OldKind * list cell)) (new : list cell)
| PDelete (id : Z) (kind : OldKind) (old : list cell)
| PTruncate (flags : Z) (ids : list Z)
| PMessage (flags lsn : Z) (prefix : jstr) (content : bytes)
| POther (tag : Z) (payload : bytes).

Definition kind_byte (k : OldKind) : Z := match k with OldKey => 75 | OldFull => 79 end.
Definition render (m : pgmsg) : bytes :=
  match m with
  | PBegin fin time xid => 66 :: be 8 fin ++ be 8 time ++ be 4 xid
  | PCommit flags lsn end_ time => 67 :: flags :: be 8 lsn ++ be 8 end_ ++ be 8 time
  | PRelation id i ident tms =>
    82 :: be 4 id ++ pg_text (schema i) ++ pg_text (table i) ++ ident :: be 2 (Z.of_nat (length (columns i)))
    ++ concat (pg_column <$> zip (columns i) tms)
  | PInsert id new => 73 :: be 4 id ++ 78 :: pg_tuple new
  | PUpdate id old new =>
    85 :: be 4 id ++ (match old with Some (k, cs) => kind_byte k :: pg_tuple cs | None => [] end) ++ 78 :: pg_tuple new
  | PDelete id k old => 68 :: be 4 id ++ kind_byte k :: pg_tuple old
  | PTruncate flags ids => 84 :: be 4 (Z.of_nat (length ids)) ++ flags :: concat (be 4 <$> ids)
  | PMessage flags lsn prefix content =>
    77 :: flags :: be 8 lsn ++ pg_text prefix ++ be 4 (blen content) ++ content
  | POther tag payload => tag :: payload
  end.
Definition u64_range (z : Z) : Prop := 0 <= z < 2 ^ 64.
Definition wf_column (c : RelColumn * Z) : Prop := wf_text (cname c.1) /\ i32_range (coid c.1) /\ i32_range c.2.
Definition wf_pgmsg (m : pgmsg) : Prop :=
  match m with
  | PBegin fin time xid => u64_range fin /\ u64_range time /\ i32_range xid
  | PCommit _ lsn end_ time => u64_range lsn /\ u64_range end_ /\ u64_range time
  | PRelation id i ident tms =>
    i32_range id /\ wf_text (schema i) /\ wf_text (table i) /\ replicaIdentity i = [ident]
    /\ Z.of_nat (length (columns i)) <= 32767 /\ length tms = length (columns i) /\ Forall wf_column (zip (columns i) tms)
  | PInsert id new => i32_range id /\ wf_tuple new
  | PUpdate id old new => i32_range id /\ match old with Some (_, cs) => wf_tuple cs | None => True end /\ wf_tuple new
  | PDelete id _ old => i32_range id /\ wf_tuple old
  | PTruncate _ ids => Z.of_nat (length ids) <= 2147483647 /\ Forall i32_range ids
  | PMessage _ lsn prefix content => u64_range lsn /\ wf_text prefix /\ blen content <= 2147483647
  | POther tag _ => tag = 79 \/ tag = 89
  end.

(** ** The events they stand for *)

Section Spec.
Context `{Env}.

(** [d] reads [x] as [v] wherever it stands in a message. *)
Definition d_reads (d : CellDecoder) (x : bytes) (v : value) : Prop :=
  forall b o r, rest_at b o (x ++ r) -> d b o (blen x) = Ok v.

(** The value of a cell of column [i]; an unchanged one has none. *)
Definition cell_is (r : RelEntry) (i : nat) (c : cell) (o : option value) : Prop :=
  match c, o with
  | NullCell, Some VNull => True
  | UnchangedCell, None => True
  | TextCell x, Some v =>
    match decoders r !! i with Some d => d_reads d x v | None => v = VStr (utf8_decode x) end
  | BinaryCell x, Some v => exists l d, bin r = Some l /\ l !! i = Some (Some d) /\ d_reads d x v
  | _, _ => False
  end.
Fixpoint cells_are (r : RelEntry) (i : nat) (cs : list cell) (vs : list (option value)) : Prop :=
  match cs, vs with
  | [], [] => True
  | c :: cs, v :: vs => cell_is r i c v /\ cells_are r (S i) cs vs
  | _, _ => False
  end.

Definition out_name (r : RelEntry) (i : nat) : jstr := default (show_Z (Z.of_nat i)) (names r !! i).
Fixpoint row_of (r : RelEntry) (i : nat) (vs : list (option value)) (row : Row) : Row :=
  match vs with
  | [] => row
  | Some v :: t => row_of r (S i) t (set_key (out_name r i) v row)
  | None :: t => row_of r (S i) t row
  end.
Fixpoint unchanged_of (r : RelEntry) (i : nat) (vs : list (option value)) : list jstr :=
  match vs with
  | [] => []
  | Some _ :: t => unchanged_of r (S i) t
  | None :: t => out_name r i :: unchanged_of r (S i) t
  end.

Lemma tuple_loop_reads r cs vs : forall i b o post row un,
  cells_are r i cs vs ->
  Forall (fun c => match c with TextCell x | BinaryCell x => blen x <= 2147483647 | _ => True end) cs ->
  rest_at b o (concat (pg_cell <$> cs) ++ post) ->
  tuple_loop (length cs) i r b o row un
    = Ok (row_of r i vs row, un ++ unchanged_of r i vs, o + blen (concat (pg_cell <$> cs)))
  /\ rest_at b (o + blen (concat (pg_cell <$> cs))) post.
Proof.
  revert vs. induction cs as [|c cs IH]; intros [|v vs] i b o post row un Hr Hw Hb; try done.
  { cbn. rewrite app_nil_r, Z.add_0_r. done. }
  destruct Hr as [Hc Hr]. apply Forall_cons in Hw as [Hwc Hw]. rewrite fmap_cons in *. cbn [concat] in *.
  rewrite <- app_assoc in Hb. cbn [length tuple_loop]. rewrite blen_app, Z.add_assoc. fold (out_name r i).
  pose proof (rest_at_app _ _ _ _ Hb) as Hn.
  destruct c as [| |x|x]; cbn [pg_cell] in *; cbn [app] in Hb; apply rest_at_byte in Hb as [E Hb]; rewrite E.
  - destruct v as [[]|]; try done. rewrite bool_decide_true by done. apply (IH vs); done.
  - destruct v as [v|]; [done|]. rewrite bool_decide_false, bool_decide_true by congruence.
    destruct (IH vs (S i) b (o + blen [117]) post row (un ++ [out_name r i]) Hr Hw Hn) as [E' R]. split; [|done].
    change (o + 1) with (o + blen [117]). rewrite E'. cbn [row_of unchanged_of]. by rewrite <- app_assoc.
  - destruct v as [v|]; [|done]. do 3 rewrite bool_decide_false by congruence. rewrite <- app_assoc in Hb. pose proof (blen_nonneg x).
    apply rest_at_i32 in Hb as [-> Hb]; [|unfold i32_range; lia]. cbn [mbind res_bind].
    assert (match decoders r !! i with Some dec => dec b (o + 1 + 4) (blen x) | None => Ok (VStr (utf8_at b (o + 1 + 4) (blen x))) end = Ok v) as ->.
    { cbn in Hc. destruct (decoders r !! i); [by eapply Hc|]. unfold utf8_at. by rewrite (rest_at_sub _ _ _ _ Hb), Hc. }
    cbn [mbind res_bind]. replace (o + 1 + 4 + blen x) with (o + blen (116 :: be 4 (blen x) ++ x)) by (rewrite blen_cons, blen_app, blen_be; lia).
    by apply (IH vs).
  - destruct v as [v|]; [|done]. destruct Hc as (l & d & Hl & Hd & Hv). do 2 rewrite bool_decide_false by congruence. rewrite <- app_assoc in Hb. pose proof (blen_nonneg x).
    apply rest_at_i32 in Hb as [-> Hb]; [|unfold i32_range; lia]. cbn [mbind res_bind].
    rewrite bool_decide_true, Hl by done. replace (Some l ≫= fun l0 => mjoin (l0 !! i)) with (Some d) by (cbn; by rewrite Hd). cbv iota beta.
    rewrite (Hv _ _ _ Hb). cbn [mbind res_bind].
    replace (o + 1 + 4 + blen x) with (o + blen (98 :: be 4 (blen x) ++ x)) by (rewrite blen_cons, blen_app, blen_be; lia).
    by apply (IH vs).
Qed.

Lemma tuple_reads r cs vs b o post :
  cells_are r 0 cs vs -> wf_tuple cs -> rest_at b o (pg_tuple cs ++ post) ->
  tuple r b o = Ok (row_of r 0 vs [], unchanged_of r 0 vs, o + blen (pg_tuple cs))
  /\ rest_at b (o + blen (pg_tuple cs)) post.
Proof.
  intros Hr [Hl Hw] Hb. unfold pg_tuple in *. rewrite <- app_assoc in Hb. unfold tuple.
  apply rest_at_i16 in Hb as [-> Hb]; [|unfold i16_range; lia]. cbn [mbind res_bind]. rewrite Nat2Z.id, blen_app, blen_be, Z.add_assoc.
  apply (tuple_loop_reads r cs vs 0 b (o + 2) post [] []); done.
Qed.
End Spec.

Lemma cstr_reads b o s r : rest_at b o (pg_text s ++ r) -> wf_text s ->
  cstr_at b o = Ok (s, o + blen (pg_text s)) /\ rest_at b (o + blen (pg_text s)) r.
Proof.
  intros Hb [Hs Hn]. unfold pg_text in *. pose proof (rest_at_app _ _ _ _ Hb) as R. split; [|done]. rewrite <- app_assoc in Hb.
  pose proof (rest_at_sub _ _ _ _ Hb) as Es. cbn [app] in Hb.
  apply rest_at_cstr in Hb as [E _]; [|by apply utf8_no_nul]. unfold cstr_at. rewrite E, Es, utf8_roundtrip by done.
  do 2 f_equal. rewrite blen_app. change (blen [0]) with 1. lia.
Qed.

Lemma rel_columns_reads cs b o post : Forall wf_column cs ->
  rest_at b o (concat (pg_column <$> cs) ++ post) -> rel_columns (length cs) b o = Ok (fst <$> cs).
Proof.
  intros Hw. revert o. induction Hw as [|[c tm] cs (Ht & Ho & Hm) _ IH]; intros o Hb; [done|].
  rewrite fmap_cons in Hb. cbn [concat] in Hb. rewrite <- app_assoc in Hb. cbn [length rel_columns].
  unfold pg_column in Hb at 1. cbn [fst snd app] in *. rewrite <- !app_assoc in Hb.
  apply rest_at_byte in Hb as [E Hb]. rewrite E. apply cstr_reads in Hb as [-> Hb]; [|done]. cbn [mbind res_bind].
  apply rest_at_i32 in Hb as [-> Hb]; [|done]. cbn [mbind res_bind].
  apply rest_at_app in Hb. rewrite blen_be in Hb. replace (_ + Z.of_nat 4) with (o + 1 + blen (pg_text (cname c)) + 8) in Hb by lia.
  rewrite (IH _ Hb). cbn [mbind res_bind fmap list_fmap]. do 2 f_equal. destruct c as [nm oid []]; done.
Qed.

Lemma relation_msg_reads id i ident tms : wf_pgmsg (PRelation id i ident tms) ->
  relation_msg (render (PRelation id i ident tms)) = Ok (id, i).
Proof.
  intros (Hid & Hs & Ht & Hi & Hn & Hl & Hc). unfold relation_msg. set (b := render _).
  assert (rest_at b 0 (render (PRelation id i ident tms) ++ [])) as Hb by (rewrite app_nil_r; apply rest_at_0).
  cbn [render app] in Hb. rewrite <- !app_assoc in Hb. apply rest_at_byte in Hb as [_ Hb]. rewrite Z.add_0_l in Hb.
  apply rest_at_i32 in Hb as [-> Hb]; [|done]. cbn [mbind res_bind]. change (1 + 4) with 5 in Hb.
  apply cstr_reads in Hb as [-> Hb]; [|done]. cbn [mbind res_bind].
  apply cstr_reads in Hb as [-> Hb]; [|done]. cbn [mbind res_bind].
  cbn [app] in Hb. rewrite <- ?app_assoc in Hb. unfold code_at. apply rest_at_byte in Hb as [-> Hb].
  apply rest_at_i16 in Hb as [-> Hb]; [|unfold i16_range; lia]. cbn [mbind res_bind default]. rewrite Nat2Z.id.
  assert (length (zip (columns i) tms) = length (columns i)) as <- by (rewrite length_zip_with; lia).
  set (o := 5 + _ + _) in *. replace (o + 1 + 2) with (o + 3) in Hb by lia.
  rewrite (rel_columns_reads _ _ _ _ Hc Hb). cbn [mbind res_bind]. rewrite fst_zip by lia.
  unfold Datatypes.id. rewrite <- Hi. by destruct i.
Qed.

Section Expect.
Context `{Env}.

(** What the stream does with a message: its new state and the event, if any. *)
Inductive expects (s : Stream) : pgmsg -> Stream -> option ReplicationEvent -> Prop :=
| Ex_begin fin time xid : expects s (PBegin fin time xid) s (Some (EvBegin xid (ts time) (tsUs time) (lsnToString fin)))
| Ex_commit fl l e t : expects s (PCommit fl l e t) s (Some (EvCommit (lsnToString l) (lsnToString e) (ts t) (tsUs t)))
| Ex_relation id i ident tms r : relEntry s i = Ok r ->
    expects s (PRelation id i ident tms)
      (warnPartition (schema i) (table i) (set_relations (<[id := r]> (relations s)) s)).1 (Some (EvRelation i))
| Ex_insert id cs r vs : relations s !! id = Some r -> cells_are r 0 cs vs ->
    expects s (PInsert id cs) s (Some (EvInsert (schema (info r)) (table (info r)) (row_of r 0 vs [])))
| Ex_update id cs r vs : relations s !! id = Some r -> cells_are r 0 cs vs ->
    expects s (PUpdate id None cs) (warnIdentity r true s).1
      (Some (EvUpdate (schema (info r)) (table (info r)) (row_of r 0 vs []) (unchanged_of r 0 vs)
               ((fun _ => false) <$> rkey r) None))
| Ex_update_key id olds cs r ovs vs : relations s !! id = Some r -> cells_are r 0 olds ovs -> cells_are r 0 cs vs ->
    expects s (PUpdate id (Some (OldKey, olds)) cs) (warnIdentity r true s).1
      (Some (EvUpdate (schema (info r)) (table (info r)) (row_of r 0 vs []) (unchanged_of r 0 vs)
               ((fun _ => true) <$> rkey r) (Some (OldKey, row_of r 0 ovs []))))
| Ex_update_full id olds cs r ovs vs new : relations s !! id = Some r -> cells_are r 0 olds ovs -> cells_are r 0 cs vs ->
    new = (if hydrateToast s then hydrate (row_of r 0 ovs []) (row_of r 0 vs []) (unchanged_of r 0 vs) else row_of r 0 vs []) ->
    expects s (PUpdate id (Some (OldFull, olds)) cs) s
      (Some (EvUpdate (schema (info r)) (table (info r)) new (unchanged_of r 0 vs)
               (key_changed r (Some (OldFull, row_of r 0 ovs [])) (unchanged_of r 0 vs) new) (Some (OldFull, row_of r 0 ovs []))))
| Ex_delete id k cs r vs : relations s !! id = Some r -> cells_are r 0 cs vs ->
    expects s (PDelete id k cs) (match k with OldKey => (warnIdentity r false s).1 | OldFull => s end)
      (Some (EvDelete (schema (info r)) (table (info r)) (row_of r 0 vs []) k))
| Ex_truncate fl ids rs : Forall2 (fun id r => relations s !! id = Some r) ids rs ->
    expects s (PTruncate fl ids) s
      (Some (EvTruncate ((fun r => (schema (info r), table (info r))) <$> rs) (Z.odd fl) (Z.odd (fl / 2))))
| Ex_message fl l p c : expects s (PMessage fl l p c) s (Some (EvMessage (fl =? 1) p c (lsnToString l)))
| Ex_other tag payload : expects s (POther tag payload) s None.
End Expect.

Section Decoding.
Context `{Env}.

Lemma warnIdentity_ok r u s : warnIdentity r u s = ((warnIdentity r u s).1, Ok tt).
Proof. unfold warnIdentity. by repeat case_match. Qed.
Lemma warnPartition_ok a b s : warnPartition a b s = ((warnPartition a b s).1, Ok tt).
Proof. unfold warnPartition. by repeat case_match. Qed.

Lemma land_bit fl : negb (Z.land fl 1 =? 0) = Z.odd fl /\ negb (Z.land fl 2 =? 0) = Z.odd (fl / 2).
Proof.
  split.
  - change 1 with (Z.ones 1). rewrite Z.land_ones by lia. change (2 ^ 1) with 2. rewrite Zmod_odd. by destruct (Z.odd fl).
  - assert (Z.land fl 2 = 2 * Z.land (fl / 2) 1) as ->.
    { change (Z.land fl 2) with (Z.land fl (Z.shiftl 1 1)). assert (fl / 2 = Z.shiftr fl 1) as -> by (by rewrite Z.shiftr_div_pow2).
      assert (forall z, 2 * z = Z.shiftl z 1) as -> by (intros; rewrite Z.shiftl_mul_pow2; lia).
      apply Z.bits_inj'. intros n Hn. rewrite Z.land_spec, !Z.shiftl_spec, Z.land_spec by lia.
      destruct (Z.eq_dec n 0) as [->|]; [by rewrite !(Z.testbit_neg_r _ (0 - 1)), !andb_false_r by lia|].
      rewrite Z.shiftr_spec by lia. do 2 f_equal. lia. }
    change 1 with (Z.ones 1). rewrite Z.land_ones by lia. change (2 ^ 1) with 2. rewrite Zmod_odd. by destruct (Z.odd (fl / 2)).
Qed.

Lemma decode_tag b t : rest_at b 0 (t :: drop 1 b) -> code_at b 0 = t.
Proof. intros R. unfold code_at. by apply rest_at_byte in R as [-> _]. Qed.

(** The update message, old tuple or not. *)
Lemma update_reads s id old new r ovs vs : let b := render (PUpdate id old new) in
  wf_pgmsg (PUpdate id old new) -> relations s !! id = Some r ->
  match old with Some (_, cs) => cells_are r 0 cs ovs | None => True end -> cells_are r 0 new vs ->
  let o := (fun p => (p.1, row_of r 0 ovs [])) <$> old in
  let nw := match old with
            | Some (OldFull, _) => if hydrateToast s then hydrate (row_of r 0 ovs []) (row_of r 0 vs []) (unchanged_of r 0 vs) else row_of r 0 vs []
            | _ => row_of r 0 vs [] end in
  update_msg b s = (match old with Some (OldFull, _) => s | _ => (warnIdentity r true s).1 end,
    Ok (EvUpdate (schema (info r)) (table (info r)) nw (unchanged_of r 0 vs) (key_changed r o (unchanged_of r 0 vs) nw) o)).
Proof.
  intros b (Hid & Ho & Hn) Er Hco Hcn o nw. assert (rest_at b 0 (b ++ [])) as Hb by (rewrite app_nil_r; apply rest_at_0).
  unfold b at 2 in Hb. cbn [render app] in Hb. rewrite <- !app_assoc in Hb. apply rest_at_byte in Hb as [_ Hb]. rewrite Z.add_0_l in Hb.
  unfold update_msg. unfold mbind at 1, M_bind at 1, get. apply rest_at_i32 in Hb as [-> Hb]; [|done]. change (1 + 4) with 5 in Hb.
  unfold mbind at 1, M_bind at 1, lift at 1. cbn [mbind res_bind]. unfold rel. rewrite Er.
  unfold code_at. subst o nw. destruct old as [[k cs]|].
  - cbn [app] in Hb. apply rest_at_byte in Hb as [-> Hb]. change (5 + 1) with 6 in Hb. cbn [from_option]. unfold Datatypes.id.
    destruct (tuple_reads _ _ _ _ _ _ Hco Ho Hb) as [Eo Hb'].
    apply rest_at_byte in Hb' as [_ Hb']. destruct (tuple_reads _ _ _ _ _ _ Hcn Hn Hb') as [En _].
    destruct k; cbn [kind_byte]; rewrite bool_decide_true by (repeat constructor);
      unfold mbind at 1, M_bind at 1, lift at 1; rewrite Eo; cbn [mbind res_bind M_bind Z.eqb Pos.eqb];
      [rewrite (bind_Ok _ _ _ _ _ (warnIdentity_ok r true s))|]; unfold lift; rewrite En; done.
  - cbn [app] in Hb. apply rest_at_byte in Hb as [-> Hb]. change (5 + 1) with 6 in Hb. cbn [from_option]. unfold Datatypes.id.
    destruct (tuple_reads _ _ _ _ _ _ Hcn Hn Hb) as [En _]. rewrite bool_decide_false by (rewrite !elem_of_cons, elem_of_nil; lia).
    unfold mbind at 1, M_bind at 1, lift at 1. rewrite (bind_Ok _ _ _ _ _ (warnIdentity_ok r true s)). unfold lift. by rewrite En.
Qed.

Lemma truncate_reads s ids rs b o : Forall2 (fun id r => relations s !! id = Some r) ids rs -> Forall i32_range ids ->
  rest_at b o (concat (be 4 <$> ids)) ->
  truncate_tables (length ids) s b o = Ok ((fun r => (schema (info r), table (info r))) <$> rs).
Proof.
  intros Hr. revert o. induction Hr as [|id r ids rs E _ IH]; intros o Hi Hb; [done|]. apply Forall_cons in Hi as [Hi Hi'].
  rewrite fmap_cons in Hb. cbn [concat length truncate_tables] in *. apply rest_at_i32 in Hb as [-> Hb]; [|done].
  cbn [mbind res_bind]. unfold rel. rewrite E. cbn [mbind res_bind]. by rewrite (IH _ Hi' Hb).
Qed.

(** Add up literal offsets. *)
Ltac offs := repeat match goal with
  | H : context [Z.add (Zpos ?a) (Zpos ?b)] |- _ => let c := eval vm_compute in (Zpos a + Zpos b) in change (Zpos a + Zpos b) with c in H
  end.
(** Read the tag of the message in [H] and choose its case. *)
Ltac take_tag H :=
  cbn [render app] in H; rewrite <- ?app_assoc in H;
  let E := fresh "E" in apply rest_at_byte in H as [E H]; rewrite Z.add_0_l in H; unfold decode, code_at; rewrite E;
  cbn -[be readBigUInt64BE readInt32BE render relation_msg update_msg delete_msg truncate_tables cstr_at subarray relEntry at_ tuple rel].

(** C33: [decode] implements the pgoutput message formats: the bytes a walsender lays out for a
    message become the event the message stands for, with the announced relation, its cells
    decoded by the relation's decoders, unchanged TOAST columns listed and filled from a full
    old row, and the diagnostics of the stream updated. *)
Theorem decode_render s m s' ev : wf_pgmsg m -> expects s m s' ev -> decode (render m) s = (s', Ok ev).
Proof.
  intros Hw Hex. assert (exists b, b = render m /\ rest_at b 0 (render m ++ [])) as (b & Eb & Hb)
    by (exists (render m); rewrite app_nil_r; split; [done|apply rest_at_0]).
  destruct Hex as [fin t x|fl l e t|id i ident tms r Er|id cs r vs Er Hc|id cs r vs Er Hc|id os cs r ovs vs Er Ho Hc
                  |id os cs r ovs vs new Er Ho Hc ->|id k cs r vs Er Hc|fl ids rs Hrs|fl l p c|tag pl]; rewrite <- Eb.
  - destruct Hw as (H1 & H2 & H3). take_tag Hb.
    apply rest_at_u64 in Hb as [E1 Hb]; [|done]. apply rest_at_u64 in Hb as [E2 Hb]; [|done].
    apply rest_at_i32 in Hb as [E3 _]; [|done]. offs. unfold lift. by rewrite E1, E2, E3.
  - destruct Hw as (H1 & H2 & H3). take_tag Hb. apply rest_at_byte in Hb as [_ Hb].
    apply rest_at_u64 in Hb as [E1 Hb]; [|done]. apply rest_at_u64 in Hb as [E2 Hb]; [|done].
    apply rest_at_u64 in Hb as [E3 _]; [|done]. offs. unfold lift. by rewrite E1, E2, E3.
  - take_tag Hb. rewrite Eb. unfold mbind at 1, M_bind at 1, get.
    rewrite (bind_Ok _ _ s s (id, i)) by (unfold lift; by rewrite relation_msg_reads).
    rewrite (bind_Ok _ _ s s r) by (unfold lift; by rewrite Er). unfold mbind at 1, M_bind at 1, modify at 1.
    by rewrite (bind_Ok _ _ _ _ _ (warnPartition_ok _ _ _)).
  - destruct Hw as [Hid Hcs]. take_tag Hb. apply rest_at_i32 in Hb as [E1 Hb]; [|done]. apply rest_at_byte in Hb as [_ Hb].
    destruct (tuple_reads _ _ _ _ _ _ Hc Hcs Hb) as [Et _]. unfold mbind at 1, M_bind at 1, get, lift. rewrite E1.
    cbn [mbind res_bind]. unfold rel. rewrite Er. cbn [mbind res_bind]. offs. by rewrite Et.
  - take_tag Hb. rewrite Eb. rewrite (bind_Ok _ _ _ _ _ (update_reads s id None cs r [] vs Hw Er I Hc)).
    unfold key_changed. cbn. by destruct (rkey r).
  - take_tag Hb. rewrite Eb. rewrite (bind_Ok _ _ _ _ _ (update_reads s id (Some (OldKey, os)) cs r ovs vs Hw Er Ho Hc)).
    unfold key_changed. cbn. by destruct (rkey r).
  - take_tag Hb. rewrite Eb. by rewrite (bind_Ok _ _ _ _ _ (update_reads s id (Some (OldFull, os)) cs r ovs vs Hw Er Ho Hc)).
  - destruct Hw as [Hid Hcs]. take_tag Hb. apply rest_at_i32 in Hb as [E1 Hb]; [|done]. change (1 + 4) with 5 in Hb.
    cbn [app] in Hb. apply rest_at_byte in Hb as [E2 Hb]. destruct (tuple_reads _ _ _ _ _ _ Hc Hcs Hb) as [Et _]. change (5 + 1) with 6 in Et.
    unfold delete_msg. cbn [mbind M_bind]. unfold mbind, M_bind, get, lift at 1. cbn [mbind res_bind]. rewrite E1. cbn [mbind res_bind]. unfold rel. rewrite Er.
    unfold code_at. rewrite E2. destruct k; cbn [kind_byte Z.eqb Pos.eqb from_option Datatypes.id];
      [rewrite warnIdentity_ok|]; unfold mret, M_ret, lift; by rewrite Et.
  - destruct Hw as [Hn Hids]. take_tag Hb. apply rest_at_i32 in Hb as [E1 Hb]; [|unfold i32_range; lia]. change (1 + 4) with 5 in Hb.
    cbn [app] in Hb. apply rest_at_byte in Hb as [E2 Hb]. rewrite app_nil_r in Hb. offs. unfold mbind at 1, M_bind at 1, get, lift. rewrite E1.
    cbn [mbind res_bind]. rewrite Nat2Z.id, (truncate_reads _ _ _ _ _ Hrs Hids Hb). cbn [mbind res_bind].
    unfold code_at. rewrite E2. cbn [from_option Datatypes.id]. by destruct (land_bit fl) as [-> ->].
  - destruct Hw as (H1 & H2 & H3). take_tag Hb. pose proof (blen_nonneg c). apply rest_at_byte in Hb as [E0 Hb].
    apply rest_at_u64 in Hb as [E1 Hb]; [|done]. offs.
    apply cstr_reads in Hb as [E2 Hb]; [|done]. apply rest_at_i32 in Hb as [E3 Hb]; [|unfold i32_range; lia].
    apply rest_at_sub in Hb. unfold lift. rewrite E1. cbn [mbind res_bind]. rewrite E2. cbn [mbind res_bind]. rewrite E3. cbn [mbind res_bind].
    rewrite E0, Hb. do 4 f_equal. destruct (Z.eqb_spec fl 1) as [->|]; [by rewrite bool_decide_true|by rewrite bool_decide_false by congruence].
  - take_tag Hb. destruct Hw as [-> | ->]; done.
Qed.
End Decoding.

Lemma txtUtf8_reads x : d_reads txtUtf8 x (VStr (utf8_decode x)).
Proof. intros b o r Hb. unfold txtUtf8, utf8_at. by rewrite (rest_at_sub _ _ _ _ Hb). Qed.

(** users(id text key, bio text), on a stream that fills unchanged values. *)
Definition repl_env : Env := {|
  reg := Registry.init; user_decoder _ b := Ok (VBuf b); jsonSourceSupported := true;
  Date_parse _ := None |}.
Definition demo_rel : ReplicationRelation :=
  mkRel (js "public") (js "users") (js "f") [mkRelCol (js "id") 25 true; mkRelCol (js "bio") 25 true].
Definition demo_entry : @RelEntry := mkRelEntry demo_rel [js "id"; js "bio"] [txtUtf8; txtUtf8] None (Some [js "id"]).
Definition demo_stream : Stream :=
  mkStream {[16384 := demo_entry]} ∅ false true true ∅ ∅ [] defaultDecoders.
Definition demo_update : pgmsg :=
  PUpdate 16384 (Some (OldFull, [TextCell (js "1"); TextCell (js "long")])) [TextCell (js "2"); UnchangedCell].

Lemma decode_render_witness :
  @decode repl_env (render demo_update) demo_stream
  = (demo_stream, Ok (Some (EvUpdate (js "public") (js "users") [(js "id", VStr (js "2")); (js "bio", VStr (js "long"))]
       [js "bio"] (Some true) (Some (OldFull, [(js "id", VStr (js "1")); (js "bio", VStr (js "long"))]))))).
Proof.
  apply (@decode_render repl_env).
  - split; [unfold i32_range; lia|]. split; (split; [simpl; lia|]);
      repeat (apply List.Forall_cons; [first [exact I | vm_compute; discriminate]|]); apply List.Forall_nil.
  - apply (@Ex_update_full repl_env demo_stream 16384 _ _ demo_entry
             [Some (VStr (js "1")); Some (VStr (js "long"))] [Some (VStr (js "2")); None]); [reflexivity|..].
    + split; [apply txtUtf8_reads|]. split; [apply txtUtf8_reads|exact I].
    + split; [apply txtUtf8_reads|]. split; exact I.
    + reflexivity.
Defined.

(** ** The update event *)

Section Update.
Context `{Env}.

(** Filling touches the unchanged names the old row has, and no other. *)
Lemma hydrate_get old row un k :
  get_key k (hydrate old row un) = if bool_decide (k ∈ un) then match get_key k old with Some v => Some v | None => get_key k row end else get_key k row.
Proof.
  unfold hydrate. revert row. induction un as [|n un IH]; intros row; cbn [foldl]; [by rewrite bool_decide_false by apply not_elem_of_nil|].
  rewrite IH. destruct (decide (n = k)) as [->|Hn].
  - rewrite (bool_decide_true (k ∈ k :: un)) by left. destruct (get_key k old) as [v|] eqn:E; [|by case_match].
    rewrite get_set_same. by case_match.
  - replace (bool_decide (k ∈ n :: un)) with (bool_decide (k ∈ un)) by (apply bool_decide_ext; rewrite elem_of_cons; naive_solver).
    destruct (get_key n old); [rewrite get_set_other by done|]; done.
Qed.

Lemma key_changed_hydrate r k o un row :
  key_changed r (Some (k, o)) un (hydrate o row un) = key_changed r (Some (k, o)) un row.
Proof.
  unfold key_changed. destruct (rkey r) as [ks|]; [|done]. destruct k; [done|]. f_equal.
  induction ks as [|n ks IH]; [done|]. cbn [existsb]. rewrite IH, hydrate_get. f_equal.
  destruct (bool_decide_reflect (n ∈ un)) as [Hn|Hn]; done.
Qed.

Definition set_hydrate (h : bool) (s : Stream) : Stream :=
  mkStream (relations s) (shaped s) (binaryMode s) h (warn s) (warned s) (leafPartitions s) (log s) (catalog s).

Lemma warnIdentity_hydrate r u h s : warnIdentity r u (set_hydrate h s) = (set_hydrate h (warnIdentity r u s).1, Ok tt).
Proof. unfold warnIdentity. cbn. by repeat case_match. Qed.

(** what [hydrateToast] changes in an update and what it does not: the same bytes throw or
    give the same table, key, old row, list of unchanged columns and [keyChanged] with it on as
    off, and the new row differs only at the unchanged columns, where it takes the full old
    row's value. *)
Theorem update_hydration b s :
  let off := update_msg b (set_hydrate false s) in
  let on := update_msg b (set_hydrate true s) in
  on.1 = set_hydrate true off.1 /\
  match off.2, on.2 with
  | Ok (EvUpdate sch tab new un kc old), Ok (EvUpdate sch' tab' new' un' kc' old') =>
    sch' = sch /\ tab' = tab /\ un' = un /\ kc' = kc /\ old' = old /\
    new' = match old with Some (OldFull, o) => hydrate o new un | _ => new end
  | Throw e, Throw e' => e = e'
  | NoFuel, NoFuel => True
  | _, _ => False
  end.
Proof.
  unfold update_msg, get, lift. unfold mbind, M_bind. cbn beta iota zeta.
  assert (forall h id, rel (set_hydrate h s) id = rel s id) as Hrel by done.
  assert (forall h, (match readInt32BE b 1 with Ok a => rel (set_hydrate h s) a | Throw e => Throw e | NoFuel => NoFuel end)
                    = readInt32BE b 1 ≫= rel s) as Hr by done.
  unfold mbind, res_bind in Hr |- *. rewrite !Hr. clear Hr Hrel.
  destruct (match readInt32BE b 1 with Ok a => rel s a | Throw e => Throw e | NoFuel => NoFuel end) as [r|e|]; [|done..].
  destruct (if bool_decide _ then _ else _) as [[old off]|e|]; [|done..]. cbn beta iota.
  assert (forall h, (match old with Some (OldFull, _) => mret tt | _ => warnIdentity r true end) (set_hydrate h s)
    = (set_hydrate h (match old with Some (OldFull, _) => s | _ => (warnIdentity r true s).1 end), Ok tt)) as Hw.
  { intros h. destruct old as [[[] ?]|]; rewrite ?warnIdentity_hydrate; done. }
  rewrite !Hw. cbn beta iota. destruct (tuple r b off) as [[[row un] o2]|e|]; [|done..]. cbn. split; [done|].
  repeat (split; [done|]). destruct old as [[[] o]|]; cbn; split; try done; by rewrite ?key_changed_hydrate.
Qed.
End Update.

(** ** The state of the stream *)

Section Invariant.
Context `{Env}.

(** A name and a text decoder per column; in binary mode a binary decoder too. *)
Definition rel_ok (binary : bool) (r : RelEntry) : Prop :=
  let n := length (columns (info r)) in
  length (names r) = n /\ length (decoders r) = n /\
  if binary then exists l, bin r = Some l /\ length l = n /\ Forall is_Some l else bin r = None.

(** The key a warning is deduplicated by. *)
Definition warning_key (w : ReplicationWarning) : option jstr :=
  match w with
  | PublicationEmptyW _ _ => None
  | ReplicaIdentityW s t _ _ => Some (js "replica-identity" ++ 0 :: table_key s t)
  | PartitionRelationW s t _ _ => Some (js "partition-relation" ++ 0 :: table_key s t)
  end.
Definition stream_ok (s : Stream) : Prop :=
  (forall id r, relations s !! id = Some r -> rel_ok (binaryMode s) r) /\
  NoDup (omap warning_key (log s)) /\ Forall (fun k => k ∈ warned s) (omap warning_key (log s)).

Lemma bind_shape_length i sh scs m ns m' ns' : bind_shape i sh scs m ns = Ok (m', ns') -> length ns' = length ns.
Proof.
  revert m ns. induction scs as [|sc t IH]; intros m ns; cbn [bind_shape]; [by intros [= _ <-]|].
  destruct (find_column i _); [|done]. destruct (m !! _); [done|]. intros E%IH. by rewrite length_insert in E.
Qed.
Lemma find_none {A} (f : A -> bool) l k : find_from f l k = None -> Forall (fun x => f x = false) l.
Proof.
  revert k. induction l as [|a l IH]; intros k; cbn [find_from]; [constructor|]. destruct (f a) eqn:E; [done|]. constructor; eauto.
Qed.
Lemma mapM_length {A B} (f : A -> res B) l k : mapM f l = Ok k -> length k = length l.
Proof. intros E. apply mapM_Ok_inv in E. symmetry. by eapply Forall2_length. Qed.

Lemma relEntry_ok s i r : relEntry s i = Ok r -> rel_ok (binaryMode s) r /\ info r = i.
Proof.
  unfold relEntry. intros E. apply bind_res_Ok_inv in E as ([m ns] & Ep & E).
  assert (length ns = length (columns i)) as Hns.
  { destruct (shaped s !! _) as [sh|]; [|injection Ep as _ <-; apply length_fmap].
    apply bind_res_Ok_inv in Ep as ([m1 ns1] & Eb & Ep). destruct (find_dup _ _); [done|]. injection Ep as <- <-.
    apply bind_shape_length in Eb. by rewrite length_fmap in Eb. }
  apply bind_res_Ok_inv in E as (ds & Ed & E). apply mapM_length in Ed. apply bind_res_Ok_inv in E as (bs & Eb & E).
  destruct (binaryMode s) eqn:Em.
  - destruct (mapM (bin_decoder _ _) _) as [l|e|] eqn:El; [|done..]. injection Eb as <-. apply mapM_length in El.
    destruct (find_from _ l 0) eqn:Ef; [done|]. apply find_none in Ef. injection E as <-. split; [|done].
    unfold rel_ok. cbn [info names decoders bin columns]. do 2 (split; [done|]). exists l. repeat (split; [done|]).
    eapply Forall_impl; [exact Ef|]. intros [d|]; [by eexists|done].
  - injection Eb as <-. injection E as <-. repeat split; cbn; congruence || done.
Qed.

Definition keeps (s s' : Stream) : Prop := stream_ok s -> stream_ok s'.
Lemma warn_once_ok key w s : warning_key w = Some key -> key ∉ warned s -> keeps s (warn_once key w s).
Proof.
  intros Ek Hn (Hr & Hd & Hf). split; [exact Hr|]. cbn [log warned warn_once]. rewrite omap_app. cbn [omap list_omap]. rewrite Ek. split.
  - apply NoDup_app. split; [done|]. split; [|apply NoDup_singleton]. intros k Hk ->%list_elem_of_singleton.
    rewrite Forall_forall in Hf. by apply Hn, Hf.
  - apply Forall_app. split; [eapply Forall_impl; [exact Hf|]; set_solver|]. repeat constructor. set_solver.
Qed.
Lemma warnIdentity_keeps r u s : keeps s (warnIdentity r u s).1.
Proof.
  unfold warnIdentity. destruct (warn s); [|by intros ?]. cbn [negb]. case_bool_decide as Hk; [by intros ?|]. by apply warn_once_ok.
Qed.
Lemma warnPartition_keeps a b s : keeps s (warnPartition a b s).1.
Proof.
  unfold warnPartition. destruct (warn s); [|by intros ?]. cbn [negb]. destruct (leafPartitions s !! _); [|by intros ?].
  case_bool_decide as Hk; [by intros ?|]. by apply warn_once_ok.
Qed.

Definition preserves {A} (m : M Stream A) : Prop := forall s, keeps s (m s).1.
Lemma preserves_bind {A B} (m : M Stream A) (f : A -> M Stream B) :
  preserves m -> (forall a, preserves (f a)) -> preserves (m ≫= f).
Proof.
  intros Hm Hf s Hs. specialize (Hm s Hs). unfold mbind, M_bind. destruct (m s) as [s1 [a|e|]]; try done. by apply Hf.
Qed.
Lemma preserves_pure {A} (m : M Stream A) : (forall s, (m s).1 = s) -> preserves m.
Proof. intros E s Hs. by rewrite E. Qed.

Lemma update_preserves b : preserves (update_msg b).
Proof.
  unfold update_msg. apply preserves_bind; [by apply preserves_pure|]. intros s. do 2 (apply preserves_bind; [by apply preserves_pure|]; intros ?).
  destruct a0 as [old off]. apply preserves_bind; [destruct old as [[[] ?]|]; first [by apply preserves_pure | intros ?; apply warnIdentity_keeps]|].
  intros _. apply preserves_bind; [by apply preserves_pure|]. intros [[row un] o]. by apply preserves_pure.
Qed.
Lemma delete_preserves b : preserves (delete_msg b).
Proof.
  unfold delete_msg. apply preserves_bind; [by apply preserves_pure|]. intros s. apply preserves_bind; [by apply preserves_pure|]. intros r.
  apply preserves_bind; [case_match; first [by apply preserves_pure | intros ?; apply warnIdentity_keeps]|].
  intros _. apply preserves_bind; [by apply preserves_pure|]. intros [[row un] o]. by apply preserves_pure.
Qed.
Lemma relation_preserves b s0 : stream_ok s0 ->
  stream_ok ((p ← lift (relation_msg b);
    let '(id, i) := (p : Z * ReplicationRelation) in
    r ← lift (relEntry s0 i);
    _ ← modify (set_relations (<[id := r]> (relations s0)));
    _ ← warnPartition (schema i) (table i);
    mret (Some (EvRelation i))) s0).1.
Proof.
  intros Hs. unfold lift at 1, mbind at 1, M_bind at 1. destruct (relation_msg b) as [[id i]|e|]; [|done..].
  unfold mbind at 1, M_bind at 1, lift. destruct (relEntry s0 i) as [r|e|] eqn:Er; [|done..].
  unfold mbind at 1, M_bind at 1, modify. apply preserves_bind; [intros ?; apply warnPartition_keeps|intros _; by apply preserves_pure|].
  destruct Hs as (Hr & Hw). split; [|exact Hw]. intros id' r'. cbn [relations set_relations binaryMode].
  rewrite lookup_insert_Some. intros [[<- <-]|[_ E]]; [by apply (relEntry_ok _ _ _ Er)|by eapply Hr].
Qed.
Lemma decode_keeps b : preserves (decode b).
Proof.
  unfold decode. destruct (_ =? 66); [by apply preserves_pure|]. destruct (_ =? 67); [by apply preserves_pure|].
  destruct (_ =? 82); [intros s Hs; by apply relation_preserves|].
  destruct (_ =? 73); [by apply preserves_pure|].
  destruct (_ =? 85); [apply preserves_bind; [apply update_preserves|intros ?; by apply preserves_pure]|].
  destruct (_ =? 68); [apply preserves_bind; [apply delete_preserves|intros ?; by apply preserves_pure]|].
  destruct (_ =? 84); [by apply preserves_pure|]. destruct (_ =? 77); [by apply preserves_pure|].
  destruct (bool_decide _); by apply preserves_pure.
Qed.

(** the state of a stream stays well formed whatever the server sends, through every message
    that decodes and every one that throws: each announced relation has one output name and one
    decoder per column and, on a binary stream, a binary decoder for each; no diagnostic is
    delivered twice for the same table and kind. *)
Theorem stream_invariant bs s : stream_ok s -> stream_ok (foldl (fun s b => (decode b s).1) s bs).
Proof. revert s. induction bs as [|b bs IH]; intros s Hs; [done|]. apply IH. by apply decode_keeps. Qed.
End Invariant.

Lemma stream_invariant_witness :
  stream_ok (foldl (fun s b => (@decode repl_env b s).1) demo_stream [render demo_update; [85]]).
Proof.
  apply (@stream_invariant repl_env). split; [|split; [constructor|constructor]].
  intros id r. cbn [relations demo_stream]. rewrite lookup_singleton_Some. intros [_ <-]. repeat split.
Defined.
