(* ===== verification/Replication.v ===== *)
(** * The replication connection (src/replication.ts)

    [ReplicationConnection] as a state machine: the socket's messages queue up under a byte
    ceiling, one consumer at a time ([command()] or an iterated [start()]) takes them from
    the queue, acknowledgements and keepalives move the confirmed position. A generator or
    async method suspended at an [await] is a value of [phase]; [pump] runs it until it waits
    again, yields or finishes. *)

From S2P Require Import Prelude Utf8 Text Buf Num Dates Value NumText Json JsonBig ExtTypes ArrayText Temporal Protocol Framing Messages Parse Errors Encode Decode BinTuple PgOutput.

(** ** Errors, options and results *)

Inductive rerr :=
| RJs (e : exn)
| RPg (fields : gmap jstr jstr)
| ReplicationStreamEnded
| ReplicationSessionSpent
| ReplicationReceiveTimeout (ms : Z)
| InvalidSlotName (slot : jstr)
| ReplicationBusy
| PublicationMissing (publications : list jstr)
| PublicationEmpty
| InvalidReplicationShape (message : jstr)
| SocketError (id : Z).

(** A byte count option: a number of bytes, Infinity, or another number that is not finite. *)
Inductive ceiling := Bytes (n : Z) | Infinite | NotANumber.
Inductive binary_option := BinAuto | BinForced (b : bool).

(** What the socket was told, in order. *)
Inductive sock_op := Write (b : bytes) | Pause | Resume | EndSocket.

Inductive timer := StatusTimer | ReceiveTimer (ms : Z).
#[global] Instance timer_eq_dec : EqDecision timer.
Proof. solve_decision. Defined.

Section Replication.
Context `{Env}.

(** One entry of [shapes]; [sshape] is what shapeCols(s.shape) returned or threw. *)
Record ShapeOption := mkShapeOption {
  sschema : option jstr; stable : jstr; sscolumns : option (list (jstr * jstr)); sskey : option (list jstr);
  sshape : res (list CodegenCol) }.
(** [onReady]: what the callback throws, if it throws. [aborted]: the signal's state when read. *)
Record StartOptions := mkOpts {
  slot : jstr; publications : list jstr; shapes : list ShapeOption; from : option lsn_arg;
  messages : bool; statusIntervalMs : option Z; receiveTimeoutMs : option Z; maxQueueBytes : option ceiling;
  obinary : option binary_option; hydrate_toast : option bool; idleAck : option bool; aborted : bool;
  onReady : option rerr; onWarning : bool }.

Inductive result :=
| Yielded (e : ReplicationEvent)
| Done
| Failed (e : rerr)
| Rows (columns : list jstr) (rows : list (list (option jstr))).

(** Who is waiting for the rows of a [run()]. *)
Inductive cont := KCommand | KPubs (o : StartOptions) | KLeaves (o : StartOptions) | KBinary (o : StartOptions).
Inductive phase :=
| Idle
(** exitCopyModeIfOpen: dropping messages up to ReadyForQuery *)
| Exiting (sql : jstr) (k : cont)
| Running (columns : list jstr) (rows : list (list (option jstr))) (err : option rerr) (k : cont)
(** START_REPLICATION sent *)
| Setup (err : option rerr) (o : StartOptions)
| Live (o : StartOptions)
(** an event is in the consumer's hands *)
| AtYield (o : StartOptions)
(** dropping messages up to ReadyForQuery, then throwing; [caught]: inside the try *)
| Closing (caught : bool) (e : rerr)
(** a loop of the source that does not stop *)
| Hung.


Record conn := mkConn {
  parser : bytes;
  q : list RawMessage;
  err : option rerr;
  ended : bool;
  stream : Stream;
  lastReceived : Z;
  flushed : Z;
  lastDeliveredEnd : Z;
  lastDeliveredStart : Z;
  serverMajor : Z;
  lastMessageAt : Z;
  qPaused : bool;
  qBytes : Z;
  maxQueue : option Z;
  streaming : bool;
  copyOpen : bool;
  timers : list timer;
  out : list sock_op;
  at_phase : phase;
  results : list result }.

(** ** Updates of the state *)

Definition set_parser (p : bytes) (c : conn) : conn :=
  mkConn (p) (q c) (err c) (ended c) (stream c) (lastReceived c) (flushed c) (lastDeliveredEnd c) (lastDeliveredStart c) (serverMajor c) (lastMessageAt c) (qPaused c) (qBytes c) (maxQueue c) (streaming c) (copyOpen c) (timers c) (out c) (at_phase c) (results c).
Definition set_queue (l : list RawMessage) (n : Z) (c : conn) : conn :=
  mkConn (parser c) (l) (err c) (ended c) (stream c) (lastReceived c) (flushed c) (lastDeliveredEnd c) (lastDeliveredStart c) (serverMajor c) (lastMessageAt c) (qPaused c) (n) (maxQueue c) (streaming c) (copyOpen c) (timers c) (out c) (at_phase c) (results c).
Definition set_err (e : option rerr) (c : conn) : conn :=
  mkConn (parser c) (q c) (e) (ended c) (stream c) (lastReceived c) (flushed c) (lastDeliveredEnd c) (lastDeliveredStart c) (serverMajor c) (lastMessageAt c) (qPaused c) (qBytes c) (maxQueue c) (streaming c) (copyOpen c) (timers c) (out c) (at_phase c) (results c).
Definition set_ended  (c : conn) : conn :=
  mkConn (parser c) (q c) (err c) (true) (stream c) (lastReceived c) (flushed c) (lastDeliveredEnd c) (lastDeliveredStart c) (serverMajor c) (lastMessageAt c) (qPaused c) (qBytes c) (maxQueue c) (streaming c) (copyOpen c) (timers c) (out c) (at_phase c) (results c).
Definition set_stream (s : Stream) (c : conn) : conn :=
  mkConn (parser c) (q c) (err c) (ended c) (s) (lastReceived c) (flushed c) (lastDeliveredEnd c) (lastDeliveredStart c) (serverMajor c) (lastMessageAt c) (qPaused c) (qBytes c) (maxQueue c) (streaming c) (copyOpen c) (timers c) (out c) (at_phase c) (results c).
Definition set_received (z : Z) (c : conn) : conn :=
  mkConn (parser c) (q c) (err c) (ended c) (stream c) (z) (flushed c) (lastDeliveredEnd c) (lastDeliveredStart c) (serverMajor c) (lastMessageAt c) (qPaused c) (qBytes c) (maxQueue c) (streaming c) (copyOpen c) (timers c) (out c) (at_phase c) (results c).
Definition set_flushed (z : Z) (c : conn) : conn :=
  mkConn (parser c) (q c) (err c) (ended c) (stream c) (lastReceived c) (z) (lastDeliveredEnd c) (lastDeliveredStart c) (serverMajor c) (lastMessageAt c) (qPaused c) (qBytes c) (maxQueue c) (streaming c) (copyOpen c) (timers c) (out c) (at_phase c) (results c).
Definition set_delivered (a z : Z) (c : conn) : conn :=
  mkConn (parser c) (q c) (err c) (ended c) (stream c) (lastReceived c) (flushed c) (z) (a) (serverMajor c) (lastMessageAt c) (qPaused c) (qBytes c) (maxQueue c) (streaming c) (copyOpen c) (timers c) (out c) (at_phase c) (results c).
Definition set_major (z : Z) (c : conn) : conn :=
  mkConn (parser c) (q c) (err c) (ended c) (stream c) (lastReceived c) (flushed c) (lastDeliveredEnd c) (lastDeliveredStart c) (z) (lastMessageAt c) (qPaused c) (qBytes c) (maxQueue c) (streaming c) (copyOpen c) (timers c) (out c) (at_phase c) (results c).
Definition set_clock (now : Z) (c : conn) : conn :=
  mkConn (parser c) (q c) (err c) (ended c) (stream c) (lastReceived c) (flushed c) (lastDeliveredEnd c) (lastDeliveredStart c) (serverMajor c) (now) (qPaused c) (qBytes c) (maxQueue c) (streaming c) (copyOpen c) (timers c) (out c) (at_phase c) (results c).
Definition set_paused (b : bool) (op : sock_op) (c : conn) : conn :=
  mkConn (parser c) (q c) (err c) (ended c) (stream c) (lastReceived c) (flushed c) (lastDeliveredEnd c) (lastDeliveredStart c) (serverMajor c) (lastMessageAt c) (b) (qBytes c) (maxQueue c) (streaming c) (copyOpen c) (timers c) (out c ++ [op]) (at_phase c) (results c).
Definition set_max (m : option Z) (c : conn) : conn :=
  mkConn (parser c) (q c) (err c) (ended c) (stream c) (lastReceived c) (flushed c) (lastDeliveredEnd c) (lastDeliveredStart c) (serverMajor c) (lastMessageAt c) (qPaused c) (qBytes c) (m) (streaming c) (copyOpen c) (timers c) (out c) (at_phase c) (results c).
Definition set_streaming (b : bool) (c : conn) : conn :=
  mkConn (parser c) (q c) (err c) (ended c) (stream c) (lastReceived c) (flushed c) (lastDeliveredEnd c) (lastDeliveredStart c) (serverMajor c) (lastMessageAt c) (qPaused c) (qBytes c) (maxQueue c) (b) (copyOpen c) (timers c) (out c) (at_phase c) (results c).
Definition set_copy (b : bool) (c : conn) : conn :=
  mkConn (parser c) (q c) (err c) (ended c) (stream c) (lastReceived c) (flushed c) (lastDeliveredEnd c) (lastDeliveredStart c) (serverMajor c) (lastMessageAt c) (qPaused c) (qBytes c) (maxQueue c) (streaming c) (b) (timers c) (out c) (at_phase c) (results c).
Definition set_timers (l : list timer) (c : conn) : conn :=
  mkConn (parser c) (q c) (err c) (ended c) (stream c) (lastReceived c) (flushed c) (lastDeliveredEnd c) (lastDeliveredStart c) (serverMajor c) (lastMessageAt c) (qPaused c) (qBytes c) (maxQueue c) (streaming c) (copyOpen c) (l) (out c) (at_phase c) (results c).
Definition send (op : sock_op) (c : conn) : conn :=
  mkConn (parser c) (q c) (err c) (ended c) (stream c) (lastReceived c) (flushed c) (lastDeliveredEnd c) (lastDeliveredStart c) (serverMajor c) (lastMessageAt c) (qPaused c) (qBytes c) (maxQueue c) (streaming c) (copyOpen c) (timers c) (out c ++ [op]) (at_phase c) (results c).
Definition goto (p : phase) (c : conn) : conn :=
  mkConn (parser c) (q c) (err c) (ended c) (stream c) (lastReceived c) (flushed c) (lastDeliveredEnd c) (lastDeliveredStart c) (serverMajor c) (lastMessageAt c) (qPaused c) (qBytes c) (maxQueue c) (streaming c) (copyOpen c) (timers c) (out c) (p) (results c).
Definition deliver (p : phase) (r : result) (c : conn) : conn :=
  mkConn (parser c) (q c) (err c) (ended c) (stream c) (lastReceived c) (flushed c) (lastDeliveredEnd c) (lastDeliveredStart c) (serverMajor c) (lastMessageAt c) (qPaused c) (qBytes c) (maxQueue c) (streaming c) (copyOpen c) (timers c) (out c) (p) (results c ++ [r]).

(** ** The socket and the queue *)

Definition size_of (m : RawMessage) : Z := blen (mbody m) + 5.
Definition frame (type : Z) (payload : bytes) (c : conn) : conn := send (Write (frame_bytes (mkMsg type payload))) c.
Definition forceResume (c : conn) : conn := if qPaused c then set_paused false Resume c else c.
Definition fail (e : rerr) (c : conn) : conn :=
  set_err (match err c with Some e0 => Some e0 | None => Some e end) c.
Definition over (n : Z) (max : option Z) : bool := match max with Some m => m <? n | None => false end.
(** [n < max / 2] *)
Definition below_half (n : Z) (max : option Z) : bool := match max with Some m => 2 * n <? m | None => true end.

Definition onData (now : Z) (d : bytes) (c : conn) : conn :=
  let c := set_clock now c in
  match Parser.push d (parser c) with
  | (p, Ok msgs) =>
    let c := set_parser p c in
    match msgs with
    | [] => c
    | _ =>
      let c := set_queue (q c ++ msgs) (foldl (fun n m => n + size_of m) (qBytes c) msgs) c in
      if over (qBytes c) (maxQueue c) && negb (qPaused c) then set_paused true Pause c else c
    end
  | (p, Throw e) => fail (RJs e) (set_parser p c)
  | (p, NoFuel) => set_parser p c
  end.
(** The 'close' handler. *)
Definition onClose (c : conn) : conn :=
  if ended c then c
  else fail (match err c with Some e => e | None => RJs (Error (js "replication connection closed unexpectedly")) end) c.

(** parseInt(s, 10) || 0 *)
Definition parseInt10 (s : jstr) : Z :=
  let '(neg, s) := sign_of (skip_spaces s) in
  let '(d, _) := span_digits s in
  match d with [] => 0 | _ => (if neg then -1 else 1) * digits_val d end.
(** ParameterStatus: only server_version matters. The loops over the body do not stop without a NUL. *)
Definition param (b : bytes) (c : conn) : option conn :=
  match Parser.cstr_end b 0 with
  | None => None
  | Some z =>
    if negb (bool_decide (subarray b 0 z = js "server_version")) then Some c
    else match Parser.cstr_end b (z + 1) with
         | None => None
         | Some e => Some (set_major (parseInt10 (subarray b (z + 1) e)) c)
         end
  end.

Inductive pulled := Got (m : RawMessage) | Null | Broken (e : rerr) | Parked | Hangs.
(** [next()] up to its suspension: the queue [l] is what is left to shift. *)
Fixpoint next_loop (l : list RawMessage) (c : conn) : conn * pulled :=
  match l with
  | m :: t =>
    let c := set_queue t (qBytes c - size_of m) c in
    let c := if qPaused c && below_half (qBytes c) (maxQueue c) then forceResume c else c in
    if mtype m =? 83 then match param (mbody m) c with Some c => next_loop t c | None => (c, Hangs) end
    else if bool_decide (mtype m ∈ [75; 78; 65]) then next_loop t c
    else (c, Got m)
  | [] =>
    match err c with
    | Some e => (c, Broken e)
    | None => if ended c then (c, Null) else (c, Parked)
    end
  end.
Definition next (c : conn) : conn * pulled := next_loop (q c) c.
(** [this.q.unshift(m)] *)
Definition unshift (m : RawMessage) (c : conn) : conn := set_queue (m :: q c) (qBytes c + size_of m) c.

(** ** Standby status *)

Definition status_body (c : conn) (now : Z) : res bytes :=
  let u64 v := int_be 8 0 18446744073709551615 v in
  r ← u64 (lastReceived c); f ← u64 (flushed c); t ← u64 (now * 1000 - PG_EPOCH_US);
  Ok (114 :: r ++ f ++ f ++ t ++ [0]).
Definition sendStatus (now : Z) : M conn unit := fun c =>
  match status_body c now with
  | Ok b => (frame 100 b c, Ok tt)
  | Throw e => (c, Throw e)
  | NoFuel => (c, NoFuel)
  end.
Definition ack (now : Z) (lsn : lsn_arg) : M conn unit :=
  v ← lift (toLsn lsn);
  c ← (get : M conn conn);
  let v := if (lastDeliveredStart c <=? v) && (v <? lastDeliveredEnd c) then lastDeliveredEnd c else v in
  if flushed c <? v then _ ← modify (set_flushed v); sendStatus now else mret tt.

(** ** Commands *)

Definition checkSlot (s : jstr) : option rerr :=
  let ok c := ((97 <=? c) && (c <=? 122)) || is_digit c || (c =? 95) in
  if (1 <=? length s)%nat && (length s <=? 63)%nat && forallb ok s then None else Some (InvalidSlotName s).

(** The finally of [start()], and what the iterator then answers. *)
Definition finish (r : result) (c : conn) : conn :=
  let c := set_streaming false c in
  let s := stream c in
  let c := set_stream (mkStream (relations s) (shaped s) (binaryMode s) (hydrateToast s) false (warned s) (leafPartitions s)
                                (log s) (catalog s)) c in
  let c := set_max None (forceResume c) in
  let c := set_queue (q c) (foldl (fun n m => n + size_of m) 0 (q c)) c in
  deliver Idle r (set_timers [] c).
(** A throw out of the phase waiting behind a [run()]. *)
Definition abort_run (k : cont) (e : rerr) (c : conn) : conn :=
  match k with KCommand => deliver Idle (Failed e) c | _ => finish (Failed e) c end.

(** [run(sql)] up to its first wait. *)
Definition query (sql : jstr) (k : cont) (c : conn) : conn :=
  goto (Running [] [] None k) (frame 81 (utf8 (sql ++ [0])) c).
Definition run (sql : jstr) (k : cont) (c : conn) : conn :=
  if copyOpen c then goto (Exiting sql k) (frame 99 [] (set_copy false c)) else query sql k c.

Definition command (sql : jstr) (c : conn) : conn :=
  if streaming c then deliver (at_phase c) (Failed ReplicationBusy) c else run sql KCommand c.
Definition createSlot_sql (name : jstr) (temporary export : bool) : jstr :=
  js "CREATE_REPLICATION_SLOT " ++ name ++ (if temporary then js " TEMPORARY" else []) ++ js " LOGICAL pgoutput "
  ++ (if export then js "EXPORT_SNAPSHOT" else js "NOEXPORT_SNAPSHOT").
Definition createSlot (name : jstr) (temporary export : bool) (c : conn) : conn :=
  match checkSlot name with
  | Some e => deliver (at_phase c) (Failed e) c
  | None => command (createSlot_sql name temporary export) c
  end.
Definition dropSlot (name : jstr) (wait : bool) (c : conn) : conn :=
  match checkSlot name with
  | Some e => deliver (at_phase c) (Failed e) c
  | None => command (js "DROP_REPLICATION_SLOT " ++ name ++ (if wait then js " WAIT" else [])) c
  end.
Definition identify (c : conn) : conn := command (js "IDENTIFY_SYSTEM") c.
(** Object.fromEntries(columns.map((c, i) => [c, rows[0][i]])): the last of equal keys wins;
    [None] is undefined, [Some None] is null. *)
Definition first_row (columns : list jstr) (rows : list (list (option jstr))) : res (jstr -> option (option jstr)) :=
  match rows, columns with
  | [], _ :: _ => Throw (TypeError (js "Cannot read properties of undefined"))
  | _, _ => Ok (fun name => snd <$> List.find (fun p => bool_decide (p.1 = name)) (rev (zip columns (default [] (head rows)))))
  end.
Definition createSlot_result (columns : list jstr) (rows : list (list (option jstr)))
    : res (option (option jstr) * option (option jstr) * option jstr) :=
  row ← first_row columns rows;
  Ok ((row : jstr -> option (option jstr)) (js "slot_name"), row (js "consistent_point"), mjoin (row (js "snapshot_name"))).
Definition identify_result (columns : list jstr) (rows : list (list (option jstr)))
    : res (option (option jstr) * num * option (option jstr) * option jstr) :=
  row ← first_row columns rows;
  let timeline := match (row : jstr -> option (option jstr)) (js "timeline") with
                  | None => NaN | Some None => of_Z 0 | Some (Some s) => Number s end in
  Ok (row (js "systemid"), timeline, row (js "xlogpos"), mjoin (row (js "dbname"))).

(** ** [start()] *)

Definition double (c : Z) (s : jstr) : jstr := s ≫= (fun x => if x =? c then [c; c] else [x]).
Definition pub_names (l : list jstr) : jstr := double 39 (join (js ",") ((fun p => 34 :: double 34 p ++ [34]) <$> l)).
Definition pub_lits (l : list jstr) : jstr := join (js ",") ((fun p => 39 :: double 39 p ++ [39]) <$> l).

Definition pub_probe (l : list jstr) : jstr :=
  js "select n.name, p.oid is not null as present, coalesce(t.cnt, 0)::text"
  ++ js " from unnest(array[" ++ pub_lits l ++ js "]::text[]) as n(name)"
  ++ js " left join pg_publication p on p.pubname = n.name"
  ++ js " left join (select pubname, count(*)::int as cnt from pg_publication_tables group by 1) t on t.pubname = n.name".
Definition leaf_probe (l : list jstr) : jstr :=
  js "select distinct pt.schemaname, pt.tablename, p.pubname"
  ++ js " from pg_publication p"
  ++ js " join pg_publication_tables pt on pt.pubname = p.pubname"
  ++ js " join pg_namespace n on n.nspname = pt.schemaname"
  ++ js " join pg_class c on c.relnamespace = n.oid and c.relname = pt.tablename"
  ++ js " where not p.pubviaroot and c.relispartition and p.pubname in (" ++ pub_lits l ++ js ")".
Definition binary_probe (l : list jstr) : jstr :=
  js "select distinct a.atttypid from pg_publication_tables pt"
  ++ js " join pg_namespace n on n.nspname = pt.schemaname"
  ++ js " join pg_class c on c.relnamespace = n.oid and c.relname = pt.tablename"
  ++ js " join pg_attribute a on a.attrelid = c.oid and a.attnum > 0 and not a.attisdropped"
  ++ js " where pt.pubname in (" ++ pub_lits l ++ js ")".

(** The declared shapes, resolved and validated one after the other. *)
Definition in_shape (sch tab : jstr) : jstr := js "minipg: replication shape for " ++ sch ++ js "." ++ tab.
Definition check_shape (sch : jstr) (s : ShapeOption) (cs : list CodegenCol) : option rerr :=
  let keys := name <$> cs in
  match List.find (fun c => bool_decide (is_Some (path c))) cs with
  | Some c => Some (InvalidReplicationShape (in_shape sch (stable s)
      ++ js ": Collect() groups several result columns and can't apply to a replication row (group "
      ++ quote (default (js "undefined") (path c ≫= head)) ++ js ")"))
  | None =>
    match List.find (fun k => bool_decide (k ∉ keys)) (fst <$> default [] (sscolumns s)) with
    | Some k => Some (RJs (Error (in_shape sch (stable s) ++ js ": columns maps " ++ quote k ++ js " but the shape has no such key")))
    | None =>
      if bool_decide (sskey s = Some [])
      then Some (RJs (Error (in_shape sch (stable s) ++ js ": key is an empty array " ++ dash ++ js " declare at least one shape key or omit key")))
      else match List.find (fun k => bool_decide (k ∉ keys)) (default [] (sskey s)) with
           | Some k => Some (RJs (Error (in_shape sch (stable s) ++ js ": key lists " ++ quote k ++ js " but the shape has no such key")))
           | None => None
           end
    end
  end.
(** e.message; the language's own RangeError and SyntaxError texts are left empty. *)
Definition message_of (e : exn) : jstr := match e with Error m | TypeError m => m | _ => [] end.
Fixpoint resolve_shapes (l : list ShapeOption) (m : gmap jstr TableShape) : gmap jstr TableShape * option rerr :=
  match l with
  | [] => (m, None)
  | s :: t =>
    let sch := default (js "public") (sschema s) in
    let key := table_key sch (stable s) in
    if bool_decide (is_Some (m !! key))
    then (m, Some (InvalidReplicationShape (js "minipg: duplicate replication shape for " ++ sch ++ js "." ++ stable s)))
    else match sshape s with
         | Ok cs => match check_shape sch s cs with
                    | Some e => (m, Some e)
                    | None => resolve_shapes t (<[key := mkShape cs (sscolumns s) (sskey s)]> m)
                    end
         | Throw e => (m, Some (InvalidReplicationShape (message_of e)))
         | NoFuel => (m, None)
         end
  end.

Definition clear_stream (shaped : gmap jstr TableShape) (s : Stream) : Stream :=
  mkStream ∅ shaped (binaryMode s) (hydrateToast s) (warn s) ∅ (leafPartitions s) (log s) (catalog s).
(** The first [next()] of the iterator: the guards, then the first probe. *)
Definition start (o : StartOptions) (c : conn) : conn :=
  if streaming c then deliver (at_phase c) (Failed ReplicationBusy) c
  else
    let c := set_streaming true c in
    match checkSlot (slot o) with
    | Some e => finish (Failed e) c
    | None =>
      if aborted o then finish Done c
      else match (match from o with Some v => toLsn v | None => Ok 0 end) with
           | Throw e => finish (Failed (RJs e)) c
           | NoFuel => goto Hung c
           | Ok _ =>
             let '(m, e) := resolve_shapes (shapes o) ∅ in
             let c := set_stream (clear_stream m (stream c)) c in
             match e with
             | Some e => finish (Failed e) c
             | None =>
               if bool_decide (publications o = []) then finish (Failed PublicationEmpty) c
               else run (pub_probe (publications o)) (KPubs o) c
             end
           end
    end.

Definition cell_at (row : list (option jstr)) (i : nat) : jstr := default [] (mjoin (row !! i)).
Definition warn_with (w : ReplicationWarning) (c : conn) : conn :=
  let s := stream c in
  set_stream (mkStream (relations s) (shaped s) (binaryMode s) (hydrateToast s) (warn s) (warned s) (leafPartitions s)
                       (log s ++ [w]) (catalog s)) c.
Definition empty_message (name : jstr) : jstr :=
  js "minipg: publication " ++ quote name ++ js " exists but publishes no tables " ++ dash
  ++ js " the stream will start but deliver nothing until it does".
(** The publications that are missing; those without tables are warned about. *)
Fixpoint check_pubs (o : StartOptions) (rows : list (list (option jstr))) (missing : list jstr) (c : conn) : conn * list jstr :=
  match rows with
  | [] => (c, missing)
  | row :: t =>
    let nm := cell_at row 0 in
    if negb (bool_decide (mjoin (row !! 1%nat) = Some (js "t"))) then check_pubs o t (missing ++ [nm]) c
    else if bool_decide (mjoin (row !! 2%nat) = Some (js "0")) && onWarning o
    then check_pubs o t missing (warn_with (PublicationEmptyW nm (empty_message nm)) c)
    else check_pubs o t missing c
  end.
Definition leaf_map (rows : list (list (option jstr))) : gmap jstr jstr :=
  foldl (fun m row => <[table_key (cell_at row 0) (cell_at row 1) := cell_at row 2]> m) ∅ rows.

Definition maxQueue_of (o : StartOptions) : option Z :=
  match maxQueueBytes o with
  | None | Some NotANumber => Some 67108864
  | Some Infinite => None
  | Some (Bytes n) => if 0 <? n then Some n else Some 67108864
  end.
Definition start_sql (o : StartOptions) (from : Z) (bin : bool) : jstr :=
  js "START_REPLICATION SLOT " ++ slot o ++ js " LOGICAL " ++ lsnToString from
  ++ js " (proto_version '1', publication_names '" ++ pub_names (publications o) ++ js "'"
  ++ (if messages o then js ", messages 'true'" else []) ++ (if bin then js ", binary 'true'" else []) ++ js ")".
Definition begin_stream (o : StartOptions) (bin : bool) (c : conn) : conn :=
  let s := stream c in
  let c := set_stream (mkStream (relations s) (shaped s) bin (default true (hydrate_toast o)) (onWarning o) (warned s)
                                (leafPartitions s) (log s) (catalog s)) c in
  if aborted o then finish Done c
  else
    let from := match from o with Some v => match toLsn v with Ok z => z | _ => 0 end | None => 0 end in
    goto (Setup None o) (frame 81 (utf8 (start_sql o from bin ++ [0])) (set_max (maxQueue_of o) c)).

(** Number(r[0]) as a type OID. *)
Definition oid_of (r : list (option jstr)) : Z := default 0 (int_of (Number (cell_at r 0))).
(** Every published type and every declared column has a binary decoder. *)
Fixpoint all_binary (m : gmap Z Decoder) (l : list CodegenCol) : res bool :=
  match l with
  | [] => Ok true
  | c :: t =>
    if oid c =? 0 then all_binary m t
    else d ← replBinaryForCol c m; if bool_decide (is_Some (d : option CellDecoder)) then all_binary m t else Ok false
  end.
Definition can_binary (c : conn) (rows : list (list (option jstr))) : res bool :=
  let m := catalog (stream c) in
  if bool_decide (rows = []) then Ok false
  else if negb (forallb (fun r => bool_decide (is_Some (replBinaryFor (oid_of r) m))) rows) then Ok false
  else all_binary m (concat (cols ∘ snd <$> map_to_list (shaped (stream c)))).

(** From the leaf partitions on. *)
Definition after_leaves (o : StartOptions) (leaves : gmap jstr jstr) (c : conn) : conn :=
  let s := stream c in
  let c := set_stream (mkStream (relations s) (shaped s) (binaryMode s) (hydrateToast s) (warn s) (warned s) leaves
                                (log s) (catalog s)) c in
  match default BinAuto (obinary o) with
  | BinForced b => begin_stream o b c
  | BinAuto => if 14 <=? serverMajor c then run (binary_probe (publications o)) (KBinary o) c else begin_stream o false c
  end.
Definition continue_with (k : cont) (columns : list jstr) (rows : list (list (option jstr))) (c : conn) : conn :=
  match k with
  | KCommand => deliver Idle (Rows columns rows) c
  | KPubs o =>
    let '(c, missing) := check_pubs o rows [] c in
    match missing with
    | _ :: _ => finish (Failed (PublicationMissing missing)) c
    | [] => if onWarning o then run (leaf_probe (publications o)) (KLeaves o) c else after_leaves o ∅ c
    end
  | KLeaves o => after_leaves o (leaf_map rows) c
  | KBinary o =>
    match can_binary c rows with
    | Ok b => begin_stream o b c
    | Throw e => finish (Failed (RJs e)) c
    | NoFuel => goto Hung c
    end
  end.

(** ** One message of each phase *)

Definition pg_error (b : bytes) : rerr :=
  match parseErrorFields b with Ok f => RPg (PgError f) | Throw e => RJs e | NoFuel => RJs RangeError end.

Definition on_running (m : RawMessage) (columns : list jstr) (rows : list (list (option jstr))) (e : option rerr)
    (k : cont) (c : conn) : conn :=
  let finished c := match e with Some e => abort_run k e c | None => continue_with k columns rows c end in
  if mtype m =? 84 then
    match Parser.parseRowDescription (mbody m) with
    | Ok fs => goto (Running (map fname fs) rows e k) c
    | Throw x => abort_run k (RJs x) c
    | NoFuel => goto Hung c
    end
  else if mtype m =? 68 then
    match Parser.parseDataRow (mbody m) with
    | Ok cs => goto (Running columns (rows ++ [map (option_map utf8_decode) cs]) e k) c
    | Throw x => abort_run k (RJs x) c
    | NoFuel => goto Hung c
    end
  else if mtype m =? 69 then goto (Running columns rows (Some (pg_error (mbody m))) k) c
  else if mtype m =? 90 then finished c
  else if mtype m =? 87 then finished (unshift m c)
  else c.

Definition on_setup (now : Z) (m : RawMessage) (e : option rerr) (o : StartOptions) (c : conn) : conn :=
  if mtype m =? 87 then
    let c := set_copy true c in
    match onReady o with
    | Some x => finish (Failed x) c
    | None =>
      let recv := default 0 (receiveTimeoutMs o) in
      goto (Live o) (set_clock now (set_timers (timers c ++ StatusTimer :: (if 0 <? recv then [ReceiveTimer recv] else [])) c))
    end
  else if mtype m =? 69 then goto (Setup (Some (pg_error (mbody m))) o) c
  else if mtype m =? 90 then
    finish (Failed (default (RJs (Error (js "minipg: START_REPLICATION returned no CopyBothResponse"))) e)) c
  else c.

(** The result of a synchronous part: a throw ends the stream. *)
Definition or_fail (r : conn * res unit) (k : conn -> conn) : conn :=
  match r with
  | (c, Ok _) => k c
  | (c, Throw e) => finish (Failed (RJs e)) c
  | (c, NoFuel) => goto Hung c
  end.
Definition lift_res {A} (r : res A) (k : A -> conn -> conn) (c : conn) : conn :=
  match r with Ok a => k a c | Throw e => finish (Failed (RJs e)) c | NoFuel => goto Hung c end.

Definition on_keepalive (now : Z) (p : bytes) (o : StartOptions) (c : conn) : conn :=
  lift_res (readBigUInt64BE p 1) (fun walEnd c =>
    let c := if lastReceived c <? walEnd then set_received walEnd c else c in
    let c := if default true (idleAck o) && (lastDeliveredEnd c <=? flushed c) && (flushed c <? walEnd)
             then set_flushed walEnd c else c in
    if bool_decide (at_ p 17 = Some 1) then or_fail (sendStatus now c) id else c) c.

(** The bookkeeping of a delivered commit. *)
Definition note_commit (e : ReplicationEvent) (c : conn) : res conn :=
  match e with
  | EvCommit lsn endLsn _ _ =>
    stop ← lsnFromString endLsn;
    if lastDeliveredEnd c <? stop then start ← lsnFromString lsn; Ok (set_delivered start stop c) else Ok c
  | _ => Ok c
  end.
Definition on_xlog (p : bytes) (o : StartOptions) (c : conn) : conn :=
  lift_res (readBigUInt64BE p 1) (fun walStart c =>
    let c := if lastReceived c <? walStart then set_received walStart c else c in
    let '(s, r) := decode (subarray p 25 (blen p)) (stream c) in
    let c := set_stream s c in
    lift_res r (fun ev c =>
      match ev with
      | None => c
      | Some e => lift_res (note_commit e c) (fun c' _ => deliver (AtYield o) (Yielded e) c') c
      end) c) c.

Definition on_live (now : Z) (m : RawMessage) (o : StartOptions) (c : conn) : conn :=
  if mtype m =? 69 then finish (Failed (pg_error (mbody m))) c
  else if mtype m =? 99 then goto (Closing true ReplicationStreamEnded) (frame 99 [] (set_copy false c))
  else if mtype m =? 67 then goto (Closing false ReplicationSessionSpent) (set_copy false c)
  else if mtype m =? 90 then finish (Failed ReplicationSessionSpent) (set_copy false c)
  else if negb (mtype m =? 100) then c
  else if bool_decide (at_ (mbody m) 0 = Some 107) then on_keepalive now (mbody m) o c
  else if negb (bool_decide (at_ (mbody m) 0 = Some 119)) then c
  else on_xlog (mbody m) o c.

(** What the suspended code does with what [next()] gave it. *)
Definition on_pull (now : Z) (r : pulled) (c : conn) : conn :=
  match r with
  | Parked => c
  | Hangs => goto Hung c
  | Got m =>
    match at_phase c with
    | Exiting sql k => if mtype m =? 90 then query sql k c else c
    | Running columns rows e k => on_running m columns rows e k c
    | Setup e o => on_setup now m e o c
    | Live o => on_live now m o c
    | Closing _ e => if mtype m =? 90 then finish (Failed e) c else c
    | _ => c
    end
  | Null =>
    match at_phase c with
    | Exiting sql k => query sql k c
    | Running _ _ _ k => abort_run k (RJs (Error (js "minipg: replication connection ended"))) c
    | Setup _ _ | Live _ => finish Done c
    | Closing _ e => finish (Failed e) c
    | _ => c
    end
  | Broken e =>
    match at_phase c with
    | Exiting sql k => query sql k c
    | Running _ _ _ k => abort_run k e c
    | Setup _ _ | Live _ => finish (Failed e) c
    | Closing caught e' => finish (Failed (if caught then e' else e)) c
    | _ => c
    end
  end.

Definition waiting (p : phase) : bool := match p with Idle | AtYield _ | Hung => false | _ => true end.
Fixpoint pump_loop (fuel : nat) (now : Z) (c : conn) : conn :=
  if negb (waiting (at_phase c)) then c
  else
    let '(c, r) := next c in
    match r, fuel with
    | Parked, _ | _, O => c
    | _, S f => pump_loop f now (on_pull now r c)
    end.

(** Each message is taken off the queue once and a phase hands over to a later one, so this
    many rounds reach the next wait ([pump_rests]). *)
Definition pump (now : Z) (c : conn) : conn := pump_loop (length (q c) + 8) now c.

(** ** Events *)

Definition end_ (c : conn) : conn :=
  let c := forceResume (set_timers [] (set_ended c)) in
  match W.terminate with Ok b => send EndSocket (send (Write b) c) | _ => send EndSocket c end.

Inductive event :=
| EData (now : Z) (d : bytes)
| ESocketError (id : Z)
| EClose
(** the microtask of a resolved wait *)
| EResume (now : Z)
| EStatusTimer (now : Z)
| EReceiveTimer (now : Z) (ms : Z)
| EAck (now : Z) (lsn : lsn_arg)
| EEnd
| ECommand (now : Z) (sql : jstr)
| ECreateSlot (now : Z) (name : jstr) (temporary export : bool)
| EDropSlot (now : Z) (name : jstr) (wait : bool)
| EStart (now : Z) (o : StartOptions)
(** the consumer asks for the next event, or leaves the loop *)
| ENext (now : Z)
| EReturn.

Definition tick_receive (now ms : Z) (c : conn) : conn :=
  if qPaused c then set_clock now c
  else if ms <=? now - lastMessageAt c then fail (ReplicationReceiveTimeout ms) c else c.

(** A call that finds the connection busy is refused; otherwise it needs an idle connection. *)
Definition call (f : conn -> conn) (now : Z) (c : conn) : conn :=
  match at_phase c with
  | Idle => pump now (f c)
  | _ => if streaming c then f c else c
  end.
Definition step (ev : event) (c : conn) : conn :=
  match ev with
  | EData now d => onData now d c
  | ESocketError id => fail (SocketError id) c
  | EClose => onClose c
  | EResume now => pump now c
  | EStatusTimer now => if bool_decide (StatusTimer ∈ timers c) then (sendStatus now c).1 else c
  | EReceiveTimer now ms => if bool_decide (ReceiveTimer ms ∈ timers c) then tick_receive now ms c else c
  | EAck now lsn => (ack now lsn c).1
  | EEnd => end_ c
  | ECommand now sql => call (command sql) now c
  | ECreateSlot now nm t x => call (createSlot nm t x) now c
  | EDropSlot now nm w => call (dropSlot nm w) now c
  | EStart now o => call (start o) now c
  | ENext now => match at_phase c with AtYield o => pump now (goto (Live o) c) | _ => c end
  | EReturn => match at_phase c with AtYield _ => finish Done c | _ => c end
  end.
Definition run_events (evs : list event) (c : conn) : conn := foldl (fun c ev => step ev c) c evs.

(** After the startup exchange; the catalog comes from the configuration. *)
Definition initial (catalog : gmap Z Decoder) (major : Z) : conn :=
  mkConn [] [] None false (mkStream ∅ ∅ false true false ∅ ∅ [] catalog) 0 0 0 0 major 0 false 0 None false false [] []
         Idle [].
End Replication.
