(* ===== verification/ReplicationProofs.v ===== *)
(** * What the replication connection guarantees

    The byte count of the queue is exact and a paused socket always has a full queue behind
    it, so a waiting consumer is never starved by its own backpressure; the positions only
    move forward, and keepalives confirm nothing past an unacknowledged commit. *)

From S2P Require Import Prelude Utf8 Text Buf Num Dates Value NumText Json JsonBig ExtTypes ArrayText Temporal Protocol Framing Messages Parse Errors Encode Decode BinTuple PgOutput PgOutputProofs Replication.

Section Facts.
Context `{Env}.

(** ** The queue and its ceiling *)

Definition total (l : list RawMessage) : Z := foldl (fun n m => n + size_of m) 0 l.
Lemma size_pos m : 5 <= size_of m.
Proof. unfold size_of. pose proof (blen_nonneg (mbody m)). lia. Qed.
Lemma total_acc l n : foldl (fun n m => n + size_of m) n l = n + total l.
Proof.
  unfold total. revert n. induction l as [|m l IH]; intros n; cbn [foldl]; [lia|]. rewrite IH, (IH (0 + _)). lia.
Qed.
Lemma total_cons m l : total (m :: l) = size_of m + total l.
Proof. unfold total at 1. cbn [foldl]. rewrite total_acc. lia. Qed.
Lemma total_app l k : total (l ++ k) = total l + total k.
Proof. unfold total at 1. rewrite foldl_app. apply total_acc. Qed.
Lemma total_nonneg l : 0 <= total l.
Proof. induction l as [|m l IH]; [done|]. rewrite total_cons. pose proof (size_pos m). lia. Qed.

(** The count is exact, and the socket is paused only with at least half a ceiling queued. *)
Definition q_ok (c : conn) : Prop :=
  qBytes c = total (q c) /\
  (qPaused c = true -> exists m, maxQueue c = Some m /\ 0 < m <= 2 * qBytes c).

(** The phases of a stream: start()'s own code, up to its finally. *)
Definition in_stream (p : phase) : option bool :=
  match p with
  | Idle | Exiting _ KCommand | Running _ _ _ KCommand => Some false
  | Hung => None
  | _ => Some true
  end.
(** Before the ceiling of the stream is set. *)
Definition early (p : phase) : bool := match p with Idle | Exiting _ _ | Running _ _ _ _ => true | _ => false end.

(** The state seen from a phase [p]: what a suspended phase relies on. *)
Definition ok_at (p : phase) (c : conn) : Prop :=
  q_ok c /\
  match in_stream p with Some b => streaming c = b | None => True end /\
  (early p = true -> maxQueue c = None /\ timers c = []) /\
  match maxQueue c with Some m => 0 < m | None => True end.
Definition conn_ok (c : conn) : Prop := ok_at (at_phase c) c.

Definition view (c : conn) := (q c, qBytes c, qPaused c, maxQueue c, streaming c, timers c).
Lemma ok_view p c c' : view c' = view c -> ok_at p c -> ok_at p c'.
Proof. unfold view, ok_at, q_ok. intros [= E1 E2 E3 E4 E5 E6] H'. by rewrite E1, E2, E3, E4, E5, E6. Qed.
Lemma ok_phase p p' c : in_stream p' = in_stream p -> (early p' = true -> early p = true) -> ok_at p c -> ok_at p' c.
Proof. unfold ok_at. intros -> He (H1 & H2 & H3 & H4). split_and!; auto. Qed.

Lemma finish_ok r c : conn_ok (finish r c).
Proof.
  unfold conn_ok, ok_at, q_ok, finish, forceResume. set (d := set_stream _ (set_streaming false c)).
  destruct (qPaused d) eqn:E; cbn -[d]; (split; [split; [done|]|done]); [done|]. by rewrite E.
Qed.
Lemma hung_ok p c : ok_at p c -> conn_ok (goto Hung c).
Proof. intros (Hq & _ & _ & Hm). split; [exact Hq|]. split; [exact I|]. by split. Qed.

Lemma run_ok sql k c : ok_at (Running [] [] None k) c -> conn_ok (run sql k c).
Proof.
  intros Hc. unfold run, query, conn_ok. destruct (copyOpen c).
  - apply (ok_view _ c); [done|]. eapply ok_phase; [| |exact Hc]; by destruct k.
  - apply (ok_view _ c); [done|]. exact Hc.
Qed.
Lemma query_ok sql k c : ok_at (Exiting sql k) c -> conn_ok (query sql k c).
Proof. intros Hc. apply (ok_view _ c); [done|]. cbn. eapply ok_phase; [| |exact Hc]; by destruct k. Qed.

Lemma early_calm p c : ok_at p c -> early p = true -> qPaused c = false.
Proof.
  intros ([_ Hp] & _ & He & _) E. destruct (qPaused c); [|done]. destruct (Hp eq_refl) as (m & Em & _). destruct (He E) as [En _]. congruence.
Qed.
Lemma maxQueue_pos o : match maxQueue_of o with Some m => 0 < m | None => True end.
Proof. unfold maxQueue_of. destruct (maxQueueBytes o) as [[n| |]|]; try lia. destruct (Z.ltb_spec 0 n); lia. Qed.
Lemma begin_ok o b c cols rows e k : ok_at (Running cols rows e k) c -> k <> KCommand -> conn_ok (begin_stream o b c).
Proof.
  intros Hc Hk. unfold begin_stream. destruct (aborted o); [apply finish_ok|].
  pose proof (early_calm _ _ Hc eq_refl) as Hp. destruct Hc as (Hq & Hs & _ & _).
  assert (streaming c = true) as Es by (destruct k; done).
  unfold conn_ok, ok_at, q_ok. cbn. rewrite Hp. split; [split; [apply Hq|done]|]. split; [done|]. split; [done|apply maxQueue_pos].
Qed.

Lemma check_pubs_view o rows : forall miss c, view (check_pubs o rows miss c).1 = view c.
Proof.
  induction rows as [|row t IH]; intros miss c; cbn [check_pubs]; [done|]. case_match; [apply IH|]. case_match; [by rewrite IH|apply IH].
Qed.
Lemma after_leaves_ok o m c cols rows e k : ok_at (Running cols rows e k) c -> k <> KCommand -> conn_ok (after_leaves o m c).
Proof.
  intros Hc Hk. unfold after_leaves.
  assert (forall c', view c' = view c -> ok_at (Running [] [] None (KBinary o)) c') as Hr.
  { intros c' E. apply (ok_view _ c); [done|]. eapply ok_phase; [| |exact Hc]; by destruct k. }
  destruct (default BinAuto (obinary o)) as [|b]; [case_match; [by apply run_ok, Hr|]|]; (eapply begin_ok; [by apply Hr|done]).
Qed.
Lemma continue_ok k cols rows e c : ok_at (Running cols rows e k) c -> conn_ok (continue_with k cols rows c).
Proof.
  intros Hc. destruct k as [|o|o|o]; cbn [continue_with].
  - exact Hc.
  - destruct (check_pubs o rows [] c) as [c1 miss] eqn:E. pose proof (check_pubs_view o rows [] c) as Ev. rewrite E in Ev.
    destruct miss; [|apply finish_ok]. assert (ok_at (Running cols rows e (KPubs o)) c1) as H1 by (by apply (ok_view _ c)).
    destruct (onWarning o); [|by eapply after_leaves_ok]. by apply run_ok.
  - by eapply after_leaves_ok.
  - destruct (can_binary c rows); [by eapply begin_ok|apply finish_ok|by eapply hung_ok].
Qed.
Lemma abort_ok k x cols rows e c : ok_at (Running cols rows e k) c -> conn_ok (abort_run k x c).
Proof. intros Hc. destruct k; cbn [abort_run]; [exact Hc|apply finish_ok..]. Qed.

Lemma unshift_ok p m c : ok_at p c -> ok_at p (unshift m c).
Proof.
  intros ([Hb Hp] & H'). split; [|exact H']. split; [change (qBytes c + size_of m = total (m :: q c)); rewrite total_cons; lia|]. cbn. intros Hq. destruct (Hp Hq) as (x & Ex & Hx).
  exists x. split; [done|]. pose proof (size_pos m). lia.
Qed.

(** ** One message, one pull *)

Lemma ok_goto p p' c : in_stream p' = in_stream p -> (early p' = true -> early p = true) -> ok_at p c -> conn_ok (goto p' c).
Proof. intros Hi He Hc. apply (ok_view _ c); [done|]. by eapply ok_phase. Qed.

Lemma on_running_ok m cols rows e k c : ok_at (Running cols rows e k) c -> conn_ok c -> conn_ok (on_running m cols rows e k c).
Proof.
  intros Hc Hc'. unfold on_running.
  assert (forall c, ok_at (Running cols rows e k) c -> conn_ok (match e with Some e => abort_run k e c | None => continue_with k cols rows c end)) as Hf.
  { intros d Hd. destruct e; [by eapply abort_ok|by eapply continue_ok]. }
  assert (forall cols' rows' e', conn_ok (goto (Running cols' rows' e' k) c)) as Hg.
  { intros. eapply ok_goto; [| |exact Hc]; by destruct k. }
  destruct (_ =? 84); [destruct (Parser.parseRowDescription _); [apply Hg|by eapply abort_ok|by eapply hung_ok]|].
  destruct (_ =? 68); [destruct (Parser.parseDataRow _); [apply Hg|by eapply abort_ok|by eapply hung_ok]|].
  destruct (_ =? 69); [apply Hg|]. destruct (_ =? 90); [by apply Hf|]. destruct (_ =? 87); [|done].
  by apply Hf, unshift_ok.
Qed.

Lemma ok_stream p p' c c' : view c' = view c -> in_stream p' = in_stream p -> early p' = false -> ok_at p c -> ok_at p' c'.
Proof. intros Ev Ei Ee Hc. eapply ok_view; [exact Ev|]. eapply ok_phase; [exact Ei| |exact Hc]. by rewrite Ee. Qed.

Lemma on_setup_ok now m e o c : ok_at (Setup e o) c -> conn_ok c -> conn_ok (on_setup now m e o c).
Proof.
  intros Hc Hc'. unfold on_setup. destruct (_ =? 87).
  - destruct (onReady o); [apply finish_ok|]. destruct Hc as (Hq & Hs & _ & Hm). split; [exact Hq|]. split; [exact Hs|]. by split.
  - destruct (_ =? 69); [by eapply ok_goto|]. destruct (_ =? 90); [apply finish_ok|done].
Qed.

Lemma sendStatus_view now c : view (sendStatus now c).1 = view c /\ at_phase (sendStatus now c).1 = at_phase c.
Proof. unfold sendStatus. by destruct (status_body c now). Qed.

Lemma on_live_ok now m o c : at_phase c = Live o -> conn_ok c -> conn_ok (on_live now m o c).
Proof.
  intros Ep Hc. assert (ok_at (Live o) c) as Hl by (by rewrite <- Ep).
  assert (forall d, view d = view c -> at_phase d = Live o -> conn_ok d) as Hk.
  { intros d Ev Ed. unfold conn_ok. rewrite Ed. by eapply ok_view. }
  assert (forall d, view d = view c -> conn_ok (goto Hung d)) as Hh by (intros d Ev; eapply hung_ok, (ok_view (Live o)); done).
  unfold on_live. destruct (_ =? 69); [apply finish_ok|].
  destruct (_ =? 99); [eapply (ok_goto (Live o)); try done; by apply (ok_view _ c)|].
  destruct (_ =? 67); [eapply (ok_goto (Live o)); try done; by apply (ok_view _ c)|].
  destruct (_ =? 90); [apply finish_ok|]. destruct (negb _); [done|]. destruct (bool_decide _).
  - unfold on_keepalive, lift_res. destruct (readBigUInt64BE _ _) as [w|e|]; [|apply finish_ok|by apply Hh].
    set (c1 := if lastReceived c <? w then set_received w c else c).
    assert (view c1 = view c /\ at_phase c1 = Live o) as [V1 P1] by (unfold c1; by case_match).
    set (c2 := if _ && _ then set_flushed w c1 else c1).
    assert (view c2 = view c /\ at_phase c2 = Live o) as [V2 P2] by (unfold c2; by case_match).
    destruct (bool_decide _); [|by apply Hk]. pose proof (sendStatus_view now c2) as [V3 P3].
    destruct (sendStatus now c2) as [d [u|e|]]; cbn in V3, P3 |- *; [apply Hk; congruence|apply finish_ok|apply Hh; congruence].
  - destruct (negb _); [done|]. unfold on_xlog, lift_res. destruct (readBigUInt64BE _ _) as [w|e|]; [|apply finish_ok|by apply Hh].
    set (c1 := if lastReceived c <? w then set_received w c else c).
    assert (view c1 = view c /\ at_phase c1 = Live o) as [V1 P1] by (unfold c1; by case_match).
    destruct (decode _ _) as [s [[ev|]|e|]]; [|by apply Hk|apply finish_ok|by apply Hh].
    unfold note_commit. destruct ev as [|lsn endLsn ? ?| | | | | |]; try (eapply (ok_stream (Live o)); try done; exact Hl).
    all: try by (eapply (ok_stream (Live o) _ c); [exact V1|..]).
    destruct (lsnFromString endLsn) as [z|e|]; cbn [mbind res_bind]; [|apply finish_ok|by apply Hh].
    destruct (_ <? z); [|by eapply (ok_stream (Live o) _ c); [exact V1|..]].
    destruct (lsnFromString lsn) as [z'|e|]; cbn [mbind res_bind]; [by eapply (ok_stream (Live o) _ c); [exact V1|..]|apply finish_ok|by apply Hh].
Qed.

Lemma on_pull_ok now r c : conn_ok c -> conn_ok (on_pull now r c).
Proof.
  intros Hc. destruct r as [m| |e| |]; cbn [on_pull]; [| | |done|by eapply hung_ok].
  - destruct (at_phase c) as [|sql k|cols rows e k|e o|o|o|b e|] eqn:Ep; try done.
    + case_match; [|done]. apply query_ok. by rewrite <- Ep.
    + apply on_running_ok; [by rewrite <- Ep|done].
    + apply on_setup_ok; [by rewrite <- Ep|done].
    + by apply on_live_ok.
    + case_match; [apply finish_ok|done].
  - destruct (at_phase c) as [|sql k|cols rows e k|e o|o|o|b e|] eqn:Ep; try done; try apply finish_ok.
    + apply query_ok. by rewrite <- Ep.
    + eapply abort_ok. rewrite <- Ep. exact Hc.
  - destruct (at_phase c) as [|sql k|cols rows e' k|e' o|o|o|b e'|] eqn:Ep; try done; try apply finish_ok.
    + apply query_ok. by rewrite <- Ep.
    + eapply abort_ok. rewrite <- Ep. exact Hc.
Qed.

(** ** The queue *)

Lemma forceResume_ok p c : ok_at p c -> ok_at p (forceResume c).
Proof.
  unfold forceResume. destruct (qPaused c); [|done]. intros ([Hb _] & H'). split; [split; [exact Hb|done]|exact H'].
Qed.
Lemma forceResume_phase c : at_phase (forceResume c) = at_phase c /\ q (forceResume c) = q c.
Proof. unfold forceResume. by destruct (qPaused c). Qed.
Lemma param_view b c c' : param b c = Some c' ->
  view c' = view c /\ at_phase c' = at_phase c /\ err c' = err c /\ ended c' = ended c.
Proof. unfold param. intros E. repeat (case_match; try discriminate); by injection E as <-. Qed.

(** Taking a message off: the queue's count follows, and below half a ceiling the socket resumes. *)
Definition shift (t : list RawMessage) (m : RawMessage) (c : conn) : conn :=
  let c := set_queue t (qBytes c - size_of m) c in
  if qPaused c && below_half (qBytes c) (maxQueue c) then forceResume c else c.
Lemma shift_ok p t m c : q c = m :: t -> ok_at p c -> ok_at p (shift t m c) /\ q (shift t m c) = t /\ at_phase (shift t m c) = at_phase c.
Proof.
  intros Eq ([Hb Hp] & H'). rewrite Eq, total_cons in Hb. unfold shift. set (d := set_queue _ _ c).
  assert (qBytes d = total t) as Ed by (cbn; lia).
  destruct (qPaused d && below_half (qBytes d) (maxQueue d)) eqn:E.
  - split; [|by destruct (forceResume_phase d)]. apply andb_true_iff in E as [E1 _]. unfold forceResume. rewrite E1.
    split; [split; [exact Ed|done]|exact H'].
  - split; [|done]. split; [split; [exact Ed|]|exact H']. intros Hq. rewrite Hq in E. cbn [andb] in E.
    destruct (Hp Hq) as (x & Ex & Hx). unfold below_half in E. change (maxQueue d) with (maxQueue c) in *. rewrite Ex in E.
    exists x. split; [exact Ex|]. apply Z.ltb_ge in E. lia.
Qed.

Lemma next_loop_cons m t c : next_loop (m :: t) c =
  (let c := shift t m c in
   if mtype m =? 83 then match param (mbody m) c with Some c => next_loop t c | None => (c, Hangs) end
   else if bool_decide (mtype m ∈ [75; 78; 65]) then next_loop t c
   else (c, Got m)).
Proof. done. Qed.

(** What [next()] leaves: a message costs at least one place in the queue, and it waits only on
    an empty queue, with nothing to report. *)
Lemma next_loop_spec l : forall c, q c = l -> conn_ok c ->
  let r := next_loop l c in
  conn_ok r.1 /\ at_phase r.1 = at_phase c /\ (length (q r.1) <= length l)%nat
  /\ match r.2 with
     | Got _ => (length (q r.1) < length l)%nat
     | Parked => q r.1 = [] /\ err r.1 = None /\ ended r.1 = false
     | _ => True
     end.
Proof.
  induction l as [|m t IH]; intros c Eq Hc; cbv zeta.
  - cbn [next_loop]. destruct (err c) eqn:Ee; [cbn; by rewrite Eq|]. destruct (ended c) eqn:En; cbn; by rewrite Eq.
  - rewrite next_loop_cons. cbv zeta. destruct (shift_ok (at_phase c) t m c Eq Hc) as (H1 & H2 & H3).
    assert (conn_ok (shift t m c)) as Hd by (unfold conn_ok; by rewrite H3).
    assert (forall d, q d = t -> conn_ok d -> at_phase d = at_phase c ->
      let r := next_loop t d in conn_ok r.1 /\ at_phase r.1 = at_phase c /\ (length (q r.1) <= S (length t))%nat
        /\ match r.2 with Got _ => (length (q r.1) < S (length t))%nat
           | Parked => q r.1 = [] /\ err r.1 = None /\ ended r.1 = false | _ => True end) as Hi.
    { intros d E2 Hd2 E3. destruct (IH d E2 Hd2) as (A & B & C & D). cbv zeta. split; [done|]. split; [congruence|]. split; [lia|].
      destruct (next_loop t d).2; try done. lia. }
    destruct (mtype m =? 83).
    + destruct (param (mbody m) (shift t m c)) as [d|] eqn:Ep.
      * apply param_view in Ep as (V & P & _). apply Hi; [unfold view in V; congruence| |congruence].
        unfold conn_ok. rewrite P. by eapply ok_view.
      * cbn [fst snd]. split; [done|]. split; [done|]. rewrite H2. cbn [length]. split; [lia|done].
    + destruct (bool_decide _); [by apply Hi|]. cbn [fst snd]. rewrite H2. cbn [length]. split; [done|]. split; [done|]. split; lia.
Qed.
Lemma next_spec c : conn_ok c ->
  let r := next c in
  conn_ok r.1 /\ at_phase r.1 = at_phase c /\ (length (q r.1) <= length (q c))%nat
  /\ match r.2 with
     | Got _ => (length (q r.1) < length (q c))%nat
     | Parked => q r.1 = [] /\ err r.1 = None /\ ended r.1 = false
     | _ => True
     end.
Proof. intros. by apply next_loop_spec. Qed.

Lemma pump_loop_ok f now c : conn_ok c -> conn_ok (pump_loop f now c).
Proof.
  revert c. induction f as [|f IH]; intros c Hc; cbn [pump_loop]; (destruct (negb _); [done|]);
    destruct (next_spec c Hc) as (Hn & _ & _ & _); destruct (next c) as [d r]; cbn in Hn.
  - by destruct r.
  - destruct r; try done; by apply IH, on_pull_ok.
Qed.

(** ** The end of a round *)

(** How far a phase is from the end of its call. *)
Definition rank (p : phase) : nat :=
  match p with
  | Idle | AtYield _ | Hung => 0
  | Live _ | Setup _ _ | Closing _ _ | Running _ _ _ KCommand => 1
  | Running _ _ _ (KBinary _) | Exiting _ KCommand => 2
  | Exiting _ (KBinary _) => 3
  | Running _ _ _ (KLeaves _) => 4
  | Exiting _ (KLeaves _) => 5
  | Running _ _ _ (KPubs _) => 6
  | Exiting _ (KPubs _) => 7
  end%nat.
Definition measure (c : conn) : nat := (length (q c) + rank (at_phase c))%nat.

Lemma finish_measure r c : measure (finish r c) = length (q c).
Proof. unfold measure, finish, forceResume. cbn. destruct (qPaused c); cbn; lia. Qed.
Lemma run_measure sql k c : (measure (run sql k c) <= length (q c) + rank (Exiting sql k))%nat.
Proof. unfold run, query, measure. destruct (copyOpen c); destruct k; cbn; lia. Qed.
Lemma begin_measure o b c : (measure (begin_stream o b c) <= length (q c) + 1)%nat.
Proof.
  unfold begin_stream. destruct (aborted o); [rewrite finish_measure; cbn; lia|]. unfold measure. cbn. lia.
Qed.
Lemma after_leaves_measure o m c : (measure (after_leaves o m c) <= length (q c) + 3)%nat.
Proof.
  unfold after_leaves. set (d := set_stream _ c). assert (length (q d) = length (q c)) as E by done.
  destruct (default BinAuto _) as [|b].
  - case_match; [pose proof (run_measure (binary_probe (publications o)) (KBinary o) d)|pose proof (begin_measure o false d)]; cbn [rank] in *; lia.
  - pose proof (begin_measure o b d). lia.
Qed.
Lemma continue_measure k cols rows e c : (measure (continue_with k cols rows c) < length (q c) + rank (Running cols rows e k))%nat.
Proof.
  destruct k as [|o|o|o]; cbn [continue_with rank].
  - unfold measure. cbn. lia.
  - destruct (check_pubs o rows [] c) as [d miss] eqn:E. pose proof (check_pubs_view o rows [] c) as Ev. rewrite E in Ev.
    unfold view in Ev. cbn [fst] in Ev. assert (q d = q c) as Eq by congruence. destruct miss; [|rewrite finish_measure, Eq; lia].
    destruct (onWarning o).
    + pose proof (run_measure (leaf_probe (publications o)) (KLeaves o) d). cbn [rank] in *. rewrite Eq in *. lia.
    + pose proof (after_leaves_measure o ∅ d). rewrite Eq in *. lia.
  - pose proof (after_leaves_measure o (leaf_map rows) c). lia.
  - destruct (can_binary c rows) as [b|x|].
    + pose proof (begin_measure o b c). lia.
    + rewrite finish_measure. lia.
    + unfold measure. cbn. lia.
Qed.
Lemma abort_measure k x c : measure (abort_run k x c) = length (q c).
Proof. destruct k; cbn [abort_run]; try apply finish_measure. unfold measure. cbn. lia. Qed.

Lemma on_running_measure m cols rows e k c : at_phase c = Running cols rows e k ->
  (measure (on_running m cols rows e k c) <= length (q c) + rank (Running cols rows e k))%nat.
Proof.
  intros Ep. unfold on_running.
  assert (forall d, (measure (match e with Some x => abort_run k x d | None => continue_with k cols rows d end)
                     < length (q d) + rank (Running cols rows e k))%nat) as Hf.
  { intros d. destruct e as [x|]; [rewrite abort_measure; destruct k; cbn; lia|apply continue_measure]. }
  assert (forall cols' rows' e', (measure (goto (Running cols' rows' e' k) c) <= length (q c) + rank (Running cols rows e k))%nat) as Hg
    by (intros; unfold measure; cbn; destruct k; lia).
  assert ((measure (goto Hung c) <= length (q c) + rank (Running cols rows e k))%nat) as Hh by (unfold measure; cbn; lia).
  assert (forall x, (measure (abort_run k x c) <= length (q c) + rank (Running cols rows e k))%nat) as Ha by (intros; rewrite abort_measure; lia).
  destruct (_ =? 84); [by destruct (Parser.parseRowDescription _)|]. destruct (_ =? 68); [by destruct (Parser.parseDataRow _)|].
  destruct (_ =? 69); [apply Hg|]. destruct (_ =? 90); [specialize (Hf c); lia|]. destruct (_ =? 87).
  - specialize (Hf (unshift m c)). cbn [q unshift set_queue length] in Hf. lia.
  - unfold measure. by rewrite Ep.
Qed.
Lemma on_setup_measure now m e o c : at_phase c = Setup e o -> (measure (on_setup now m e o c) <= length (q c) + 1)%nat.
Proof.
  intros Ep. unfold on_setup. destruct (_ =? 87); [destruct (onReady o); [rewrite finish_measure; cbn; lia|unfold measure; cbn; lia]|].
  destruct (_ =? 69); [unfold measure; cbn; lia|]. destruct (_ =? 90); [rewrite finish_measure; lia|]. unfold measure. rewrite Ep. cbn. lia.
Qed.

(** Between a pull and the next wait the stream's code does not touch the queue. *)
Definition calm (l : list RawMessage) (c : conn) : Prop := q c = l /\ (rank (at_phase c) <= 1)%nat.
Lemma finish_calm r c : calm (q c) (finish r c).
Proof. unfold calm, finish, forceResume. cbn. destruct (qPaused c); cbn; split; done || lia. Qed.
Lemma lift_res_calm {A} (r : res A) k c l : q c = l -> (forall a, r = Ok a -> calm l (k a c)) -> calm l (lift_res r k c).
Proof.
  intros Eq Hk. unfold lift_res. destruct r; [by apply Hk|rewrite <- Eq; apply finish_calm|]. split; [exact Eq|cbn; lia].
Qed.
Lemma on_live_calm now m o c : at_phase c = Live o -> calm (q c) (on_live now m o c).
Proof.
  intros Ep. assert (forall d, q d = q c -> at_phase d = Live o -> calm (q c) d) as Hk by (intros d E1 E2; split; [done|rewrite E2; cbn; lia]).
  assert (forall r d, q d = q c -> calm (q c) (finish r d)) as Hf by (intros r d <-; apply finish_calm).
  unfold on_live. destruct (_ =? 69); [apply finish_calm|]. destruct (_ =? 99); [split; [done|cbn; lia]|].
  destruct (_ =? 67); [split; [done|cbn; lia]|]. destruct (_ =? 90); [by apply Hf|]. destruct (negb _); [by apply Hk|].
  destruct (bool_decide _).
  - apply lift_res_calm; [done|]. intros w _. cbv beta zeta.
    set (c1 := if lastReceived c <? w then set_received w c else c).
    assert (q c1 = q c /\ at_phase c1 = Live o) as [V1 P1] by (unfold c1; by case_match).
    set (c2 := if _ && _ then set_flushed w c1 else c1).
    assert (q c2 = q c /\ at_phase c2 = Live o) as [V2 P2] by (unfold c2; by case_match).
    destruct (bool_decide _); [|by apply Hk]. unfold sendStatus, or_fail. destruct (status_body c2 now); [by apply Hk|by apply Hf|].
    split; [exact V2|cbn; lia].
  - destruct (negb _); [by apply Hk|]. apply lift_res_calm; [done|]. intros w _. cbv beta zeta.
    set (c1 := if lastReceived c <? w then set_received w c else c).
    assert (q c1 = q c /\ at_phase c1 = Live o) as [V1 P1] by (unfold c1; by case_match).
    destruct (decode _ _) as [s r]. apply lift_res_calm; [exact V1|]. intros [ev|] _; [|by apply Hk].
    apply lift_res_calm; [exact V1|]. intros d Ed. assert (q d = q c) as E.
    { unfold note_commit in Ed. destruct ev; try (injection Ed as <-; exact V1). apply bind_res_Ok_inv in Ed as (z & _ & Ed).
      destruct (_ <? z); [apply bind_res_Ok_inv in Ed as (z' & _ & Ed)|]; injection Ed as <-; exact V1. }
    split; [exact E|cbn; lia].
Qed.

Lemma on_pull_measure now c : conn_ok c -> waiting (at_phase c) = true ->
  let r := next c in r.2 = Parked \/ (measure (on_pull now r.2 r.1) < measure c)%nat.
Proof.
  intros Hc Hw. cbv zeta. destruct (next_spec c Hc) as (_ & Ep & Hl & Hr). destruct (next c) as [d r]. cbn [fst snd] in *.
  unfold measure at 2. destruct r as [m| |e| |]; [| | |by left|right; unfold on_pull, measure; cbn; destruct (at_phase c) as [|? []|? ? ? []| | | | |]; cbn in Hw |- *; lia || done];
    right; cbn [on_pull]; rewrite Ep; destruct (at_phase c) as [|sql k|cols rows x k|x o|o|o|b x|] eqn:E; try done.
  - case_match; [unfold measure; cbn; destruct k; lia|unfold measure; rewrite Ep; lia].
  - pose proof (on_running_measure m cols rows x k d Ep). lia.
  - pose proof (on_setup_measure now m x o d Ep). cbn. lia.
  - destruct (on_live_calm now m o d Ep) as [Eq Er]. unfold measure. rewrite Eq. cbn. lia.
  - case_match; [rewrite finish_measure; cbn; lia|unfold measure; rewrite Ep; cbn; lia].
  - unfold measure. cbn. destruct k; lia.
  - rewrite abort_measure. destruct k; cbn; lia.
  - rewrite finish_measure. cbn. lia.
  - rewrite finish_measure. cbn. lia.
  - rewrite finish_measure. cbn. lia.
  - unfold measure. cbn. destruct k; lia.
  - rewrite abort_measure. destruct k; cbn; lia.
  - rewrite finish_measure. cbn. lia.
  - rewrite finish_measure. cbn. lia.
  - rewrite finish_measure. cbn. lia.
Qed.

(** [pump] stops at a wait on an empty queue, or where nothing waits. *)
Lemma pump_loop_rests f now c : conn_ok c -> (measure c <= f)%nat ->
  let d := pump_loop f now c in waiting (at_phase d) = true -> q d = [] /\ err d = None /\ ended d = false.
Proof.
  cbv zeta. revert c. induction f as [|f IH]; intros c Hc Hf; cbn [pump_loop]; destruct (waiting (at_phase c)) eqn:Ew; cbn [negb]; try congruence.
  - exfalso. unfold measure in Hf. destruct (at_phase c) as [|? []|? ? ? []| | | | |]; cbn in *; lia || done.
  - destruct (next_spec c Hc) as (Hn & Ep & Hl & Hr). pose proof (on_pull_measure now c Hc Ew) as Hm.
    destruct (next c) as [d r]. cbn [fst snd] in *. destruct r as [m| |e| |]; [| | |intros _; exact Hr|];
      (intros Hx; apply (IH (on_pull now _ d)); [by apply on_pull_ok|destruct Hm as [?|Hm]; [done|lia]|exact Hx]).
Qed.
Lemma pump_rests now c : conn_ok c ->
  let d := pump now c in waiting (at_phase d) = true -> q d = [] /\ err d = None /\ ended d = false.
Proof.
  intros Hc. apply pump_loop_rests; [done|]. unfold measure. destruct (at_phase c) as [|? []|? ? ? []| | | | |]; cbn; lia.
Qed.

(** ** Every event *)

Lemma keep_ok c c' : view c' = view c -> at_phase c' = at_phase c -> conn_ok c -> conn_ok c'.
Proof. unfold conn_ok. intros Ev -> Hc. by eapply ok_view. Qed.

Lemma onData_ok now d c : conn_ok c -> conn_ok (onData now d c).
Proof.
  intros Hc. unfold onData. destruct (Parser.push d _) as [p [[|m ms]|e|]]; try by apply (keep_ok c).
  set (c1 := set_parser p (set_clock now c)). set (l := m :: ms).
  set (c2 := set_queue (q c1 ++ l) (foldl (fun n m => n + size_of m) (qBytes c1) l) c1).
  destruct Hc as ([Hb Hp] & Hs & He & Hm). pose proof (total_nonneg l) as Hl.
  assert (qBytes c2 = total (q c2)) as E2 by (cbn -[foldl l]; rewrite total_acc, total_app, Hb; done).
  destruct (over (qBytes c2) (maxQueue c2) && negb (qPaused c2)) eqn:E.
  - split; [split; [exact E2|]|exact (conj Hs (conj He Hm))]. intros _. apply andb_true_iff in E as [E _]. unfold over in E.
    change (maxQueue (set_paused true Pause c2)) with (maxQueue c2). destruct (maxQueue c2) as [x|] eqn:Ex; [|done]. exists x. split; [done|].
    change (qBytes (set_paused true Pause c2)) with (qBytes c2). apply Z.ltb_lt in E. change (maxQueue c2) with (maxQueue c) in Ex. rewrite Ex in Hm. lia.
  - split; [split; [exact E2|]|exact (conj Hs (conj He Hm))]. intros Hq. destruct (Hp Hq) as (x & Ex & Hx). exists x. split; [exact Ex|].
    replace (qBytes c2) with (qBytes c + total l); [lia|]. rewrite E2. cbn -[total l]. rewrite total_app, Hb. done.
Qed.

Lemma call_ok f now c : (at_phase c = Idle -> conn_ok c -> conn_ok (f c)) ->
  (streaming c = true -> conn_ok c -> conn_ok (f c)) -> conn_ok c -> conn_ok (call f now c).
Proof.
  intros H1 H2 Hc. unfold call. destruct (at_phase c) eqn:Ep; try (destruct (streaming c) eqn:Es; [by apply H2|done]).
  by apply pump_loop_ok, H1.
Qed.
Lemma command_ok sql c : (at_phase c = Idle \/ streaming c = true) -> conn_ok c -> conn_ok (command sql c).
Proof.
  intros Hi Hc. unfold command. destruct (streaming c) eqn:Es; [by apply (keep_ok c)|]. destruct Hi as [Hi|Hi]; [|done].
  apply run_ok. unfold conn_ok in Hc. rewrite Hi in Hc. by eapply ok_phase; [..|exact Hc].
Qed.
Lemma start_ok o c : (at_phase c = Idle \/ streaming c = true) -> conn_ok c -> conn_ok (start o c).
Proof.
  intros Hi Hc. unfold start. destruct (streaming c) eqn:Es; [by apply (keep_ok c)|]. destruct Hi as [Hi|Hi]; [|done].
  destruct (checkSlot _); [apply finish_ok|]. destruct (aborted o); [apply finish_ok|].
  unfold conn_ok in Hc. rewrite Hi in Hc. destruct Hc as (Hq & _ & He & Hm). destruct (He eq_refl) as [E1 E2].
  destruct (match from o with Some v => toLsn v | None => Ok 0 end); [|apply finish_ok|].
  - destruct (resolve_shapes _ _) as [m [e|]]; [apply finish_ok|]. case_bool_decide; [apply finish_ok|]. apply run_ok.
    split; [exact Hq|]. split; [done|]. split; [done|exact Hm].
  - split; [exact Hq|]. split; [done|]. split; [done|exact Hm].
Qed.

Lemma step_ok ev c : conn_ok c -> conn_ok (step ev c).
Proof.
  intros Hc. destruct ev as [now d|id| |now|now|now ms|now lsn| |now sql|now nm t x|now nm w|now o|now|]; cbn [step].
  - by apply onData_ok.
  - by apply (keep_ok c).
  - unfold onClose. destruct (ended c); [done|by apply (keep_ok c)].
  - by apply pump_loop_ok.
  - case_bool_decide; [|done]. destruct (sendStatus_view now c) as [V P]. by apply (keep_ok c).
  - case_bool_decide; [|done]. unfold tick_receive. repeat case_match; try done; by apply (keep_ok c).
  - unfold ack, lift, get, modify, mbind, M_bind. cbn beta iota zeta. destruct (toLsn lsn) as [v|e|]; cbn; [|done|done].
    case_match; [|done]. set (d := set_flushed _ c). destruct (sendStatus_view now d) as [V P]. apply (keep_ok c); [|done|done]. by rewrite V.
  - unfold end_. set (d := forceResume (set_timers [] (set_ended c))). assert (conn_ok d) as Hd.
    { unfold conn_ok, d. rewrite (proj1 (forceResume_phase _)). apply forceResume_ok.
      destruct Hc as (Hq & Hs & He & Hm). split; [exact Hq|]. split; [exact Hs|]. split; [|exact Hm]. intros E. split; [by apply He|done]. }
    destruct W.terminate; by apply (keep_ok d).
  - apply call_ok; [intros; apply command_ok; auto..|done].
  - apply call_ok; [| |done]; intros; unfold createSlot; (destruct (checkSlot nm); [by apply (keep_ok c)|apply command_ok; auto]).
  - apply call_ok; [| |done]; intros; unfold dropSlot; (destruct (checkSlot nm); [by apply (keep_ok c)|apply command_ok; auto]).
  - apply call_ok; [intros; apply start_ok; auto..|done].
  - destruct (at_phase c) eqn:Ep; try done. apply pump_loop_ok. unfold conn_ok in Hc. rewrite Ep in Hc. by eapply ok_goto; [..|exact Hc].
  - destruct (at_phase c); try done. apply finish_ok.
Qed.
Lemma run_events_ok evs c : conn_ok c -> conn_ok (run_events evs c).
Proof. unfold run_events. revert c. induction evs as [|ev evs IH]; intros c Hc; [done|]. by apply IH, step_ok. Qed.
Lemma initial_ok m v : conn_ok (initial m v).
Proof. by repeat split. Qed.

(** through any interleaving of socket data, timers, acknowledgements, commands, streams and
    [end()], the byte count is exactly what the queued messages hold, a paused socket has at least
    half a ceiling of bytes queued, and the stream's reservation, ceiling and timers exist only
    while its [start()] runs. *)
Theorem queue_invariant evs m v : let c := run_events evs (initial m v) in
  qBytes c = total (q c) /\
  (qPaused c = true -> exists x, maxQueue c = Some x /\ 0 < x <= 2 * qBytes c) /\
  match in_stream (at_phase c) with
  | Some true => streaming c = true
  | Some false => streaming c = false /\ maxQueue c = None /\ timers c = []
  | None => True
  end.
Proof.
  cbv zeta. destruct (run_events_ok evs _ (initial_ok m v)) as ([Hb Hp] & Hs & He & _). split; [done|]. split; [done|].
  destruct (at_phase _) as [|? []|? ? ? []| | | | |]; cbn in *; try done; (split; [done|by apply He]).
Qed.

Lemma not_starved_from c evs now : conn_ok c -> let d := pump now (run_events evs c) in
  waiting (at_phase d) = true -> q d = [] /\ qPaused d = false /\ err d = None /\ ended d = false.
Proof.
  cbv zeta. intros H0 Hw. pose proof (run_events_ok evs _ H0) as Hc.
  destruct (pump_rests now _ Hc Hw) as (Eq & Ee & En). split; [done|]. split; [|done].
  destruct (pump_loop_ok (length (q (run_events evs c)) + 8) now _ Hc) as ([Hb Hp] & _). fold (pump now (run_events evs c)) in Hb, Hp.
  destruct (qPaused _); [|done]. destruct (Hp eq_refl) as (x & _ & Hx). rewrite Hb, Eq in Hx. cbn in Hx. lia.
Qed.

(** a consumer is never left waiting by the connection itself: after [end()], after a failure
    and whenever messages are queued, resuming it does not leave it waiting; and when it does wait,
    the socket is not paused, so backpressure cannot starve it. *)
Theorem consumer_not_starved evs m v now : let c := pump now (run_events evs (initial m v)) in
  waiting (at_phase c) = true -> q c = [] /\ qPaused c = false /\ err c = None /\ ended c = false.
Proof. apply not_starved_from, initial_ok. Qed.
End Facts.

(** A command whose reply has not come: the consumer waits on an unpaused socket. *)
Lemma consumer_not_starved_witness :
  let c := @pump repl_env 0 (@run_events repl_env [ECommand 0 (js "IDENTIFY_SYSTEM")] (initial ∅ 16)) in
  waiting (at_phase c) = true /\ qPaused c = false.
Proof.
  split; [vm_compute; reflexivity|].
  apply (@consumer_not_starved repl_env [ECommand 0 (js "IDENTIFY_SYSTEM")] ∅ 16 0). vm_compute. reflexivity.
Defined.

(** ** Positions *)

Section Positions.
Context `{Env}.

(** From one state to a later one without the consumer's acknowledgement. *)
Definition advances (c c' : conn) : Prop :=
  lastReceived c <= lastReceived c' /\ flushed c <= flushed c' /\ lastDeliveredEnd c <= lastDeliveredEnd c' /\
  (flushed c < lastDeliveredEnd c -> flushed c' = flushed c).
Lemma advances_refl c : advances c c.
Proof. unfold advances. lia. Qed.
Lemma advances_trans c d e : advances c d -> advances d e -> advances c e.
Proof. unfold advances. lia. Qed.

Definition lsns (c : conn) := (lastReceived c, flushed c, lastDeliveredEnd c, lastDeliveredStart c).
Lemma lsns_advances c c' : lsns c' = lsns c -> advances c c'.
Proof. unfold lsns, advances. intros [= E1 E2 E3 _]. lia. Qed.
Lemma lsns_eq c d e : lsns d = lsns c -> lsns e = lsns d -> lsns e = lsns c.
Proof. congruence. Qed.

Lemma forceResume_lsns c : lsns (forceResume c) = lsns c.
Proof. unfold forceResume. by destruct (qPaused c). Qed.
Lemma finish_lsns r c : lsns (finish r c) = lsns c.
Proof. unfold finish, forceResume. by destruct (qPaused _). Qed.
Lemma abort_lsns k x c : lsns (abort_run k x c) = lsns c.
Proof. destruct k; cbn [abort_run]; by rewrite ?finish_lsns. Qed.
Lemma run_lsns sql k c : lsns (run sql k c) = lsns c.
Proof. unfold run, query. by destruct (copyOpen c). Qed.
Lemma begin_lsns o b c : lsns (begin_stream o b c) = lsns c.
Proof. unfold begin_stream. destruct (aborted o); by rewrite ?finish_lsns. Qed.
Lemma check_pubs_lsns o rows : forall miss c, lsns (check_pubs o rows miss c).1 = lsns c.
Proof. induction rows as [|row t IH]; intros miss c; cbn [check_pubs]; [done|]. case_match; [apply IH|]. case_match; by rewrite IH. Qed.
Lemma after_leaves_lsns o m c : lsns (after_leaves o m c) = lsns c.
Proof. unfold after_leaves. repeat case_match; by rewrite ?run_lsns, ?begin_lsns. Qed.
Lemma continue_lsns k cols rows c : lsns (continue_with k cols rows c) = lsns c.
Proof.
  destruct k as [|o|o|o]; cbn [continue_with].
  - done.
  - destruct (check_pubs o rows [] c) as [d miss] eqn:E. pose proof (check_pubs_lsns o rows [] c) as El. rewrite E in El. cbn [fst] in El.
    repeat case_match; rewrite ?finish_lsns, ?run_lsns, ?after_leaves_lsns; done.
  - apply after_leaves_lsns.
  - destruct (can_binary c rows); by rewrite ?begin_lsns, ?finish_lsns.
Qed.
Lemma on_running_lsns m cols rows e k c : lsns (on_running m cols rows e k c) = lsns c.
Proof. unfold on_running. repeat case_match; rewrite ?abort_lsns, ?continue_lsns; done. Qed.
Lemma on_setup_lsns now m e o c : lsns (on_setup now m e o c) = lsns c.
Proof. unfold on_setup. repeat case_match; by rewrite ?finish_lsns. Qed.
Lemma sendStatus_lsns now c : lsns (sendStatus now c).1 = lsns c.
Proof. unfold sendStatus. by destruct (status_body c now). Qed.

Lemma on_live_advances now m o c : advances c (on_live now m o c).
Proof.
  assert (forall r d, advances c d -> advances c (finish r d)) as Hf
    by (intros r d Hd; eapply advances_trans; [exact Hd|apply lsns_advances, finish_lsns]).
  assert (forall w, advances c (if lastReceived c <? w then set_received w c else c)) as Hr.
  { intros w. destruct (Z.ltb_spec (lastReceived c) w); [|apply advances_refl]. unfold advances. cbn. lia. }
  unfold on_live. destruct (_ =? 69); [apply Hf, advances_refl|]. destruct (_ =? 99); [by apply lsns_advances|].
  destruct (_ =? 67); [by apply lsns_advances|]. destruct (_ =? 90); [by apply Hf, lsns_advances|]. destruct (negb _); [apply advances_refl|].
  destruct (bool_decide _).
  - unfold on_keepalive, lift_res. destruct (readBigUInt64BE _ _) as [w|e|]; [|apply Hf, advances_refl|by apply lsns_advances].
    specialize (Hr w). set (c1 := if lastReceived c <? w then set_received w c else c) in *.
    set (c2 := if _ && _ then set_flushed w c1 else c1). assert (advances c c2) as H2.
    { eapply advances_trans; [exact Hr|]. unfold c2. destruct (default true (idleAck o)); [|apply advances_refl]. cbn [andb].
      destruct (Z.leb_spec (lastDeliveredEnd c1) (flushed c1)); [|apply advances_refl]. cbn [andb].
      destruct (Z.ltb_spec (flushed c1) w); [|apply advances_refl]. unfold advances. cbn. lia. }
    destruct (bool_decide _); [|exact H2]. pose proof (sendStatus_lsns now c2) as H3.
    destruct (sendStatus now c2) as [d [u|e|]]; cbn [or_fail fst] in *; [|apply Hf|]; (eapply advances_trans; [exact H2|by apply lsns_advances]).
  - destruct (negb _); [apply advances_refl|].
    unfold on_xlog, lift_res. destruct (readBigUInt64BE _ _) as [w|e|]; [|apply Hf, advances_refl|by apply lsns_advances].
    specialize (Hr w). set (c1 := if lastReceived c <? w then set_received w c else c) in *.
    destruct (decode _ _) as [s r]. assert (advances c (set_stream s c1)) as Hs by (eapply advances_trans; [exact Hr|by apply lsns_advances]).
    destruct r as [[ev|]|e|]; [|exact Hs|by apply Hf|eapply advances_trans; [exact Hs|by apply lsns_advances]].
    assert (forall d, note_commit ev (set_stream s c1) = Ok d -> advances (set_stream s c1) d) as Hn.
    { intros d Ed. unfold note_commit in Ed. destruct ev; try (injection Ed as <-; apply advances_refl). apply bind_res_Ok_inv in Ed as (z & _ & Ed).
      destruct (Z.ltb_spec (lastDeliveredEnd (set_stream s c1)) z) as [Hz|]; [|injection Ed as <-; apply advances_refl].
      apply bind_res_Ok_inv in Ed as (z' & _ & Ed). injection Ed as <-. unfold advances. cbn in *. lia. }
    destruct (note_commit _ _) as [d|e|]; [|by apply Hf|eapply advances_trans; [exact Hs|by apply lsns_advances]].
    eapply advances_trans; [exact Hs|]. eapply advances_trans; [by apply Hn|by apply lsns_advances].
Qed.

Lemma on_pull_advances now r c : advances c (on_pull now r c).
Proof.
  destruct r as [m| |e| |]; cbn [on_pull]; [| | |apply advances_refl|by apply lsns_advances];
    destruct (at_phase c); try apply advances_refl; try (apply lsns_advances;
      first [apply finish_lsns | apply abort_lsns | apply on_running_lsns | apply on_setup_lsns | done]).
  - case_match; [by apply lsns_advances|apply advances_refl].
  - apply on_live_advances.
  - case_match; [apply lsns_advances, finish_lsns|apply advances_refl].
Qed.
Lemma param_lsns b c c' : param b c = Some c' -> lsns c' = lsns c.
Proof. unfold param. intros E. repeat (case_match; try discriminate); by injection E as <-. Qed.
Lemma next_loop_lsns l : forall c, lsns (next_loop l c).1 = lsns c.
Proof.
  induction l as [|m t IH]; intros c; [cbn [next_loop]; by repeat case_match|]. rewrite next_loop_cons. cbv zeta.
  assert (lsns (shift t m c) = lsns c) as Es by (unfold shift; case_match; by rewrite ?forceResume_lsns).
  destruct (_ =? 83); [destruct (param _ _) as [d|] eqn:Ep; [apply param_lsns in Ep; rewrite IH; congruence|done]|].
  destruct (bool_decide _); [by rewrite IH|done].
Qed.
Lemma pump_loop_advances f now c : advances c (pump_loop f now c).
Proof.
  revert c. induction f as [|f IH]; intros c; cbn [pump_loop]; (destruct (negb _); [apply advances_refl|]);
    pose proof (next_loop_lsns (q c) c) as El; fold (next c) in El; destruct (next c) as [d r]; cbn [fst] in El.
  - destruct r; by apply lsns_advances.
  - assert (advances c (pump_loop f now (on_pull now r d))) as Hn.
    { eapply advances_trans; [by apply lsns_advances|]. eapply advances_trans; [apply on_pull_advances|apply IH]. }
    destruct r; [exact Hn|exact Hn|exact Hn|by apply lsns_advances|exact Hn].
Qed.
Lemma command_lsns sql c : lsns (command sql c) = lsns c.
Proof. unfold command. destruct (streaming c); [done|apply run_lsns]. Qed.
Lemma start_lsns o c : lsns (start o c) = lsns c.
Proof.
  unfold start. destruct (streaming c); [done|]. destruct (checkSlot _); [by rewrite finish_lsns|]. destruct (aborted o); [by rewrite finish_lsns|].
  destruct (match from o with Some v => toLsn v | None => Ok 0 end); [|by rewrite finish_lsns|done].
  destruct (resolve_shapes _ _) as [m [e|]]; [by rewrite finish_lsns|]. case_bool_decide; [by rewrite finish_lsns|by rewrite run_lsns].
Qed.
Lemma call_advances f now c : (forall c, lsns (f c) = lsns c) -> advances c (call f now c).
Proof.
  intros Hf. unfold call. destruct (at_phase c); try (case_match; [by apply lsns_advances|apply advances_refl]).
  apply (advances_trans _ (f c)); [by apply lsns_advances|apply pump_loop_advances].
Qed.

Definition is_ack (ev : event) : bool := match ev with EAck _ _ => true | _ => false end.
Lemma step_advances ev c : is_ack ev = false -> advances c (step ev c).
Proof.
  intros Ha. destruct ev as [now d|id| |now|now|now ms|now lsn| |now sql|now nm t x|now nm w|now o|now|]; cbn [step]; try discriminate Ha.
  - apply lsns_advances. unfold onData. destruct (Parser.push d _) as [p [[|m ms]|e|]]; try done. case_match; done.
  - by apply lsns_advances.
  - apply lsns_advances. unfold onClose. by destruct (ended c).
  - apply pump_loop_advances.
  - apply lsns_advances. case_bool_decide; [apply sendStatus_lsns|done].
  - apply lsns_advances. case_bool_decide; [|done]. unfold tick_receive. by repeat case_match.
  - apply lsns_advances. unfold end_. case_match; exact (forceResume_lsns (set_timers [] (set_ended c))).
  - apply call_advances, command_lsns.
  - apply call_advances. intros d. unfold createSlot. case_match; [done|apply command_lsns].
  - apply call_advances. intros d. unfold dropSlot. case_match; [done|apply command_lsns].
  - apply call_advances, start_lsns.
  - destruct (at_phase c); try apply advances_refl. eapply advances_trans; [|apply pump_loop_advances]. by apply lsns_advances.
  - destruct (at_phase c); try apply advances_refl. apply lsns_advances, finish_lsns.
Qed.


(** acknowledging any position inside the last delivered commit's record confirms the whole
    commit: the confirmed position becomes its end and the server is told so at once, in a status
    message that carries it; a position already confirmed changes nothing. *)
Theorem ack_confirms_commit c now v : lastDeliveredStart c <= v <= lastDeliveredEnd c ->
  0 <= lastReceived c < 2 ^ 64 -> 0 <= lastDeliveredEnd c < 2 ^ 64 -> 0 <= now * 1000 - PG_EPOCH_US < 2 ^ 64 ->
  let e := lastDeliveredEnd c in
  let r := ack now (LsnBig v) c in
  r.2 = Ok tt /\ flushed r.1 = Z.max (flushed c) e /\
  (flushed c < e -> out r.1 = out c ++ [Write (100 :: be 4 38 ++ 114 :: be 8 (lastReceived c) ++ be 8 e ++ be 8 e
                                              ++ be 8 (now * 1000 - PG_EPOCH_US) ++ [0])]) /\
  (e <= flushed c -> r.1 = c).
Proof.
  intros Hv Hr He Hn e r. change (2 ^ 64) with 18446744073709551616 in *.
  assert (r = (if flushed c <? e then sendStatus now (set_flushed e c) else (c, Ok tt))) as ->.
  { unfold r, ack, lift, get, modify, mbind, M_bind. cbn [toLsn]. unfold e.
    destruct (Z.leb_spec (lastDeliveredStart c) v); [|lia]. cbn [andb].
    destruct (Z.ltb_spec v (lastDeliveredEnd c)); [by case_match|]. assert (v = lastDeliveredEnd c) as -> by lia. by case_match. }
  destruct (Z.ltb_spec (flushed c) e) as [Hf|Hf].
  - unfold sendStatus, status_body. cbn [lastReceived flushed set_flushed].
    rewrite !int_be_Ok by (unfold e; lia). cbn [mbind res_bind fst snd]. split; [done|]. split; [cbn; lia|]. split; [|lia]. intros _.
    cbn [out frame send set_flushed]. by do 3 f_equal.
  - cbn [fst snd]. split; [done|]. split; [lia|]. split; [lia|done].
Qed.
End Positions.

(** A commit of [100, 120) delivered and not acknowledged: keepalives change nothing, and
    acknowledging 100 confirms 120. *)
Definition pending : conn :=
  set_received 500 (set_delivered 100 120 (set_flushed 80 (goto (Live (mkOpts (js "s") [js "p"] [] None true None None None None None None false None false)) (initial ∅ 16)))).
Definition keepalive_900 : bytes := frame_bytes (mkMsg 100 (107 :: be 8 900 ++ be 8 0 ++ [1])).

Lemma ack_confirms_commit_witness : flushed (ack 1700000000000 (LsnBig 100) pending).1 = 120.
Proof.
  apply (ack_confirms_commit pending 1700000000000 100); vm_compute; split; first [discriminate | reflexivity].
Defined.
