(* ===== verification/ReplStart.v ===== *)
(** * Opening a replication connection (src/replication.ts, connect and auth)

    The dial, the startup message, the authentication exchange and the wait for ReadyForQuery, over the queue and
    the socket of Replication.v. What resolves is the connection that the theorems of ReplicationProofs start from. *)

From S2P Require Import Prelude Utf8 Text Buf Num Dates Value NumText Auth Json JsonBig ExtTypes ArrayText Temporal Protocol Framing Messages Parse Errors Encode Decode BinTuple PgOutput Replication ReplicationProofs.

Module Startup.

(** What the constructor made of the configuration. [keepAlive]: the delay, when keepalive is on. [certDer]: what the
    socket shows of its certificate. *)
Record Config := mkConfig {
  user : jstr; password : jstr; database : jstr; applicationName : jstr; options : option jstr; connectTimeout : Z;
  channelBinding : option channelBinding_; keepAlive : option Z; hasSocket : bool; hasTransport : bool; certDer : option bytes;
  catalog : gmap Z Decoder }.

(** Where connect() awaits, or how it ended. *)
Inductive progress := Fresh | Dialing | Exchanging | Connected | Rejected (e : rerr) | HungUp.
Record starting := mkStarting {
  conn : Replication.conn; scramState : option Scram; at_ : progress; armed : bool; kept_alive : option Z; aborted : bool }.

Section Startup.
Context `{Crypto} (cfg : Config).

Definition fresh : starting := mkStarting (Replication.initial (catalog cfg) 0) None Fresh false None false.
Definition with_conn (c : Replication.conn) (s : starting) : starting := mkStarting c (scramState s) (at_ s) (armed s) (kept_alive s) (aborted s).
Definition with_scram (x : Scram) (s : starting) : starting := mkStarting (conn s) (Some x) (at_ s) (armed s) (kept_alive s) (aborted s).
Definition goto (p : progress) (s : starting) : starting := mkStarting (conn s) (scramState s) p (armed s) (kept_alive s) (aborted s).
(** The finally of connect(): clearTimeout. *)
Definition over (p : progress) (s : starting) : starting := mkStarting (conn s) (scramState s) p false (kept_alive s) (aborted s).
Definition reject (e : rerr) : starting -> starting := over (Rejected e).
Definition plain (m : string) : rerr := RJs (Error (js m)).

(** sock.write(...) of a message that may throw while it is built *)
Definition write (b : res bytes) : M starting unit :=
  x ← lift b; modify (fun s => with_conn (send (Write x) (conn s)) s).
Definition no_scram : exn := TypeError (js "Cannot read properties of undefined").
(** [rnd]: what randomBytes returns if it is called. *)
Definition auth (rnd : bytes) (body : bytes) : M starting unit :=
  code ← lift (readInt32BE body 0);
  let text := utf8_decode (drop 4 body) in
  if code =? 0 then mret tt
  else if code =? 3 then write (W.password (password cfg))
  else if code =? 5 then write (W.password (md5Password (user cfg) (password cfg) (subarray body 4 8)))
  else if code =? 10 then
    s ← lift (scramForChannel rnd (password cfg) (parseSaslMechanisms body) (default CbPrefer (channelBinding cfg)) (certDer cfg));
    _ ← modify (with_scram s); write (W.saslInitial (mechanism s) (clientFirst s))
  else if code =? 11 then
    s ← gets scramState;
    match s with
    | None => throw no_scram
    | Some s => let '(s', r) := continue_ text s in _ ← modify (with_scram s'); cf ← lift r; write (W.saslResponse cf)
    end
  else if code =? 12 then
    s ← gets scramState;
    match s with None => throw no_scram | Some s => lift (Auth.final s text) end
  else throw (Error (js "unsupported authentication request: " ++ show_Z code)).

(** One round of the loop: the message that next() gave. *)
Definition on_message (rnd : bytes) (m : RawMessage) (s : starting) : starting :=
  if mtype m =? 82 then
    match auth rnd (mbody m) s with
    | (s, Ok _) => s
    | (s, Throw e) => reject (RJs e) s
    | (s, NoFuel) => goto HungUp s
    end
  else if mtype m =? 69 then reject (pg_error (mbody m)) s
  else if mtype m =? 90 then over Connected s
  else s.
Fixpoint exchange (fuel : nat) (rnd : bytes) (s : starting) : starting :=
  match at_ s, fuel with
  | Exchanging, S f =>
    let '(c, r) := next (conn s) in
    let s := with_conn c s in
    match r with
    | Parked => s
    | Got m => exchange f rnd (on_message rnd m s)
    | Null => reject (plain "minipg: replication connection ended during startup") s
    | Broken e => reject e s
    | Hangs => goto HungUp s
    end
  | _, _ => s
  end.
(** Each round takes a message off the queue ([run_rests]). *)
Definition run (rnd : bytes) (s : starting) : starting := exchange (S (length (q (conn s)))) rnd s.

Definition startup_params : list (jstr * option jstr) :=
  [(js "user", Some (user cfg)); (js "database", Some (database cfg)); (js "application_name", Some (applicationName cfg));
   (js "replication", Some (js "database")); (js "options", options cfg)].
(** The socket is there: keepalive, the handlers, the startup message. *)
Definition dialed (rnd : bytes) (s : starting) : starting :=
  let s := mkStarting (conn s) (scramState s) Exchanging (armed s) (keepAlive cfg) (aborted s) in
  match write (W.startup startup_params) s with
  | (s, Ok _) => run rnd s
  | (s, Throw e) => reject (RJs e) s
  | (s, NoFuel) => goto HungUp s
  end.
Definition connect (s : starting) : starting :=
  if negb (hasSocket cfg) && negb (hasTransport cfg)
  then goto (Rejected (plain "minipg: no transport " )) s
  else mkStarting (conn s) (scramState s) Dialing true (kept_alive s) (aborted s).
Definition timed_out : rerr := RJs (Error (js "replication connect timed out after " ++ show_Z (connectTimeout cfg) ++ js "ms")).
(** The timer: abort the transport, fail the connection. *)
Definition on_timeout (s : starting) : starting :=
  if armed s then mkStarting (fail timed_out (conn s)) (scramState s) (at_ s) false (kept_alive s) true else s.

Inductive event :=
| Connect
(** the dial resolves, or rejects *)
| Dialed (rnd : bytes)
| DialFailed (e : rerr)
| Timeout
| Data (now : Z) (d : bytes)
| SocketErr (id : Z)
| Closed
| End
(** the microtask of a resolved wait *)
| Resumed (rnd : bytes).
(** The handlers of the socket are attached once it is there. *)
Definition on_socket (f : Replication.conn -> Replication.conn) (s : starting) : starting :=
  match at_ s with Fresh | Dialing => s | _ => with_conn (f (conn s)) s end.
Definition step (e : event) (s : starting) : starting :=
  match e with
  | Connect => match at_ s with Fresh => connect s | _ => s end
  | Dialed rnd => match at_ s with Dialing => dialed rnd s | _ => s end
  | DialFailed e => match at_ s with Dialing => reject e s | _ => s end
  | Timeout => on_timeout s
  | Data now d => on_socket (onData now d) s
  | SocketErr id => on_socket (fail (SocketError id)) s
  | Closed => on_socket onClose s
  | End => with_conn (match at_ s with Fresh | Dialing => set_timers [] (set_ended (conn s)) | _ => end_ (conn s) end) s
  | Resumed rnd => run rnd s
  end.
Definition run_events (es : list event) (s : starting) : starting := foldl (fun s e => step e s) s es.
End Startup.
End Startup.

(** ** What connect() guarantees *)

Module StartupProofs.
Import Startup.
Section Proofs.
Context `{Env, Crypto} (cfg : Config).

Definition settled (p : progress) : bool := match p with Connected | Rejected _ | HungUp => true | _ => false end.
(** The connection under the startup keeps the invariants of Replication, in the phase in which no command runs. *)
Definition Inv (s : starting) : Prop := conn_ok (conn s) /\ at_phase (conn s) = Idle.
Lemma Inv_keep s c : view c = view (conn s) -> at_phase c = at_phase (conn s) -> Inv s -> Inv (with_conn c s).
Proof. intros Hv Hp [H1 H2]. split; [by apply (keep_ok (conn s))|cbn; congruence]. Qed.

(** auth() only writes to the socket and to the SCRAM state. *)
Definition seen (s : starting) := (view (conn s), at_phase (conn s), err (conn s), ended (conn s), at_ s, armed s).
Definition only_writes {A} (m : M starting A) : Prop := forall s, seen (m s).1 = seen s.
Lemma only_bind {A B} (m : M starting A) (k : A -> M starting B) : only_writes m -> (forall a, only_writes (k a)) -> only_writes (m ≫= k).
Proof. intros Hm Hk s. specialize (Hm s). unfold mbind, M_bind. destruct (m s) as [s' [a|e|]]; [|exact Hm..]. cbn in Hm. by rewrite (Hk a s'). Qed.
Lemma only_lift {A} (r : res A) : only_writes (lift (S := starting) r).
Proof. intros s. by destruct r. Qed.
Lemma only_ret {A} (a : A) : only_writes (mret a : M starting A).
Proof. by intros s. Qed.
Lemma only_throw {A} e : only_writes (throw e : M starting A).
Proof. by intros s. Qed.
Lemma only_gets {A} (f : starting -> A) : only_writes (gets f).
Proof. by intros s. Qed.
Lemma only_modify f : (forall s, seen (f s) = seen s) -> only_writes (modify f).
Proof. intros Hf s. apply Hf. Qed.
Lemma write_only b : only_writes (write b).
Proof. apply only_bind; [apply only_lift|]. intros x. by apply only_modify. Qed.
Lemma auth_only rnd body : only_writes (auth cfg rnd body).
Proof.
  apply only_bind; [apply only_lift|]. intros code. cbv zeta. destruct (code =? 0); [apply only_ret|]. destruct (code =? 3); [apply write_only|].
  destruct (code =? 5); [apply write_only|]. destruct (code =? 10).
  { apply only_bind; [apply only_lift|]. intros x. apply only_bind; [by apply only_modify|]. intros _. apply write_only. }
  destruct (code =? 11).
  { apply only_bind; [apply only_gets|]. intros [x|]; [|apply only_throw]. destruct (continue_ _ x) as [x' r]. apply only_bind; [by apply only_modify|].
    intros _. apply only_bind; [apply only_lift|]. intros cf. apply write_only. }
  destruct (code =? 12); [|apply only_throw]. apply only_bind; [apply only_gets|]. intros [x|]; [apply only_lift|apply only_throw].
Qed.
Lemma seen_inv s s' : seen s' = seen s -> Inv s -> Inv s' /\ q (conn s') = q (conn s).
Proof.
  unfold seen, view. intros E [H1 H2]. assert (view (conn s') = view (conn s) /\ at_phase (conn s') = at_phase (conn s)) as [V P] by (unfold view; by split; congruence).
  split; [split; [by apply (keep_ok (conn s))|congruence]|congruence].
Qed.
Lemma on_message_inv rnd m s : Inv s -> Inv (on_message cfg rnd m s) /\ q (conn (on_message cfg rnd m s)) = q (conn s).
Proof.
  intros Hs. unfold on_message. destruct (mtype m =? 82).
  - pose proof (auth_only rnd (mbody m) s) as Hv. destruct (auth cfg rnd (mbody m) s) as [s' r]. apply seen_inv in Hv; [|done].
    by destruct r as [u|e|].
  - destruct (mtype m =? 69); [done|]. by destruct (mtype m =? 90).
Qed.
Lemma next_inv s : Inv s ->
  Inv (with_conn (next (conn s)).1 s)
  /\ match (next (conn s)).2 with
     | Got _ => (length (q (next (conn s)).1) < length (q (conn s)))%nat
     | Parked => q (next (conn s)).1 = [] /\ err (next (conn s)).1 = None /\ ended (next (conn s)).1 = false
     | _ => True
     end.
Proof. intros [H1 H2]. destruct (next_spec (conn s) H1) as (A & B & _ & D). split; [split; [exact A|cbn; congruence]|exact D]. Qed.

Lemma exchanging_dec s : {at_ s = Exchanging} + {at_ s <> Exchanging}.
Proof. destruct (at_ s); by (left + right). Qed.
Lemma exchange_step f rnd s : at_ s = Exchanging -> exchange cfg (S f) rnd s =
  (let s' := with_conn (next (conn s)).1 s in
   match (next (conn s)).2 with
   | Parked => s' | Got m => exchange cfg f rnd (on_message cfg rnd m s')
   | Null => reject (plain "minipg: replication connection ended during startup") s'
   | Broken e => reject e s' | Hangs => goto HungUp s'
   end).
Proof. intros E. cbn [exchange]. rewrite E. by destruct (next (conn s)). Qed.
Lemma exchange_done f rnd s : at_ s <> Exchanging -> exchange cfg f rnd s = s.
Proof. intros E. destruct f; cbn [exchange]; by destruct (at_ s). Qed.
Lemma exchange_inv f rnd : forall s, Inv s -> Inv (exchange cfg f rnd s).
Proof.
  induction f as [|f IH]; intros s Hs; [cbn [exchange]; by destruct (at_ s)|].
  destruct (exchanging_dec s) as [E|E]; [|by rewrite exchange_done].
  rewrite exchange_step by done. destruct (next_inv s Hs) as [Hn _]. cbv zeta. destruct (next (conn s)).2; try exact Hn.
  by apply IH, on_message_inv.
Qed.
(** The rounds are enough: while the exchange waits, nothing is queued and nothing has failed. *)
Lemma exchange_rests f rnd : forall s, Inv s -> (length (q (conn s)) < f)%nat -> at_ (exchange cfg f rnd s) = Exchanging ->
  let c := conn (exchange cfg f rnd s) in q c = [] /\ err c = None /\ ended c = false.
Proof.
  induction f as [|f IH]; intros s Hs Hf Ha; [lia|]. destruct (exchanging_dec s) as [E|E]; [|by rewrite exchange_done in Ha].
  rewrite exchange_step in * by done. destruct (next_inv s Hs) as [Hn Hr]. cbv zeta in Ha |- *. destruct (next (conn s)).2; try done.
  destruct (on_message_inv rnd m _ Hn) as [Hm Eq]. apply IH; [done| |done]. rewrite Eq. cbn. lia.
Qed.
Lemma run_inv rnd s : Inv s -> Inv (run cfg rnd s).
Proof. apply exchange_inv. Qed.
Lemma run_rests rnd s : Inv s -> at_ (run cfg rnd s) = Exchanging ->
  let c := conn (run cfg rnd s) in q c = [] /\ err c = None /\ ended c = false.
Proof. intros Hs. apply exchange_rests; [done|lia]. Qed.
Lemma on_socket_inv f s : (forall c, conn_ok c -> conn_ok (f c)) -> (forall c, at_phase (f c) = at_phase c) -> Inv s -> Inv (on_socket f s).
Proof. intros H1 H2 Hs. unfold on_socket. destruct (at_ s); try done; (split; [by apply H1, Hs|cbn; rewrite H2; apply Hs]). Qed.
Lemma onData_phase now d c : at_phase (onData now d c) = at_phase c.
Proof. unfold onData. destruct (Parser.push d _) as [p [[|m ms]|e|]]; try done. by destruct (Replication.over _ _ && _). Qed.
Lemma onClose_phase c : at_phase (onClose c) = at_phase c /\ view (onClose c) = view c.
Proof. unfold onClose. by destruct (ended c). Qed.
Lemma dialed_inv rnd s : Inv s -> Inv (dialed cfg rnd s).
Proof.
  intros Hs. unfold dialed. set (s1 := mkStarting _ _ _ _ _ _). pose proof (write_only (W.startup (startup_params cfg)) s1) as Hv.
  destruct (write _ s1) as [s2 r]. apply seen_inv in Hv as [Hi _]; [|exact Hs].
  destruct r; [by apply run_inv|done..].
Qed.
Lemma step_inv e s : Inv s -> Inv (step cfg e s).
Proof.
  intros Hs. destruct e; cbn [step].
  - destruct (at_ s); try done. unfold connect. by destruct (_ && _).
  - destruct (at_ s); try done. by apply dialed_inv.
  - by destruct (at_ s).
  - unfold on_timeout. by destruct (armed s).
  - apply on_socket_inv; [by intros; apply onData_ok|intros; apply onData_phase|done].
  - by apply on_socket_inv.
  - apply on_socket_inv; [|by intros c; destruct (onClose_phase c)|done]. intros c Hc. destruct (onClose_phase c). by apply (keep_ok c).
  - destruct Hs as [H1 H2]. assert (conn_ok (end_ (conn s)) /\ at_phase (end_ (conn s)) = Idle) as [Ha Hb].
    { split; [exact (ReplicationProofs.step_ok EEnd (conn s) H1)|]. unfold end_, forceResume. by destruct (qPaused _), W.terminate. }
    assert (conn_ok (set_timers [] (set_ended (conn s)))) as Hc.
    { unfold conn_ok in *. cbn. rewrite H2 in *. destruct H1 as (Hq & Hs & He & Hm). split; [exact Hq|]. split; [exact Hs|]. split; [|exact Hm]. intros _. split; [by apply He|done]. }
    destruct (at_ s); by split.
  - by apply run_inv.
Qed.
Lemma run_events_inv es : forall s, Inv s -> Inv (run_events cfg es s).
Proof. induction es as [|e es IH]; intros s Hs; [done|]. by apply IH, step_inv. Qed.
Lemma fresh_inv : Inv (fresh cfg).
Proof. split; [apply initial_ok|done]. Qed.

(** The promise of connect() is settled once. *)
Lemma step_settled e s : settled (at_ s) = true -> at_ (step cfg e s) = at_ s.
Proof.
  intros Hs. destruct e; cbn [step].
  1-3: by destruct (at_ s) eqn:E.
  - unfold on_timeout. by destruct (armed s).
  - unfold on_socket. by destruct (at_ s) eqn:E.
  - unfold on_socket. by destruct (at_ s) eqn:E.
  - unfold on_socket. by destruct (at_ s) eqn:E.
  - done.
  - unfold run. rewrite exchange_done; [done|]. by destruct (at_ s).
Qed.
Lemma run_events_settled es : forall s, settled (at_ s) = true -> at_ (run_events cfg es s) = at_ s.
Proof.
  induction es as [|e es IH]; intros s Hs; [done|]. pose proof (step_settled e s Hs) as E. change (run_events cfg (e :: es) s) with (run_events cfg es (step cfg e s)).
  rewrite IH; [done|by rewrite E].
Qed.

(** What has failed stays failed, and while connect() waits its timer is armed or has fired. *)
Lemma next_loop_err l : forall c, err (next_loop l c).1 = err c /\ ended (next_loop l c).1 = ended c.
Proof.
  induction l as [|m t IH]; intros c; [cbn [next_loop]; by destruct (err c) eqn:?, (ended c) eqn:?|]. rewrite next_loop_cons. cbv zeta.
  assert (err (shift t m c) = err c /\ ended (shift t m c) = ended c) as [Es En] by (unfold shift; cbv zeta; destruct (_ && _); [|done]; unfold forceResume; match goal with |- context [qPaused ?d] => by destruct (qPaused d) end).
  destruct (mtype m =? 83).
  - destruct (param (mbody m) (shift t m c)) as [d|] eqn:Ep; [|by cbn; rewrite Es, En]. apply param_view in Ep as (_ & _ & E1 & E2).
    destruct (IH d) as [-> ->]. by rewrite E1, E2, Es, En.
  - destruct (bool_decide _); [destruct (IH (shift t m c)) as [-> ->]; by rewrite Es, En|by cbn; rewrite Es, En].
Qed.
Definition timed (s : starting) : Prop := match at_ s with Dialing | Exchanging => armed s = true \/ err (conn s) <> None | _ => True end.
Lemma timed_keep s s' : err (conn s') = err (conn s) -> at_ s' = at_ s -> armed s' = armed s -> timed s -> timed s'.
Proof. unfold timed. by intros -> -> ->. Qed.
Lemma exchange_timed f rnd : forall s, timed s -> timed (exchange cfg f rnd s).
Proof.
  induction f as [|f IH]; intros s Hs; [cbn [exchange]; by destruct (at_ s)|].
  destruct (exchanging_dec s) as [E|E]; [|by rewrite exchange_done]. rewrite exchange_step by done. cbv zeta.
  assert (timed (with_conn (next (conn s)).1 s)) as Hn by (apply (timed_keep s); [apply next_loop_err|done..]).
  destruct (next (conn s)).2; try exact Hn; try done. apply IH. unfold on_message. destruct (mtype m =? 82).
  - pose proof (auth_only rnd (mbody m) (with_conn (next (conn s)).1 s)) as Hv. destruct (auth cfg _ _ _) as [s' r]. unfold seen in Hv. cbn [fst] in Hv.
    assert (timed s') as Ht by (apply (timed_keep (with_conn (next (conn s)).1 s)); [congruence..|done]). by destruct r.
  - destruct (mtype m =? 69); [done|]. by destruct (mtype m =? 90).
Qed.
(** The exchange goes on, or connect() ends; it reports failures and makes none. *)
Lemma exchange_goes f rnd : forall s, at_ s = Exchanging ->
  settled (at_ (exchange cfg f rnd s)) = true \/ at_ (exchange cfg f rnd s) = Exchanging /\ err (conn (exchange cfg f rnd s)) = err (conn s).
Proof.
  induction f as [|f IH]; intros s E; [cbn [exchange]; rewrite E; by right|]. rewrite exchange_step by done. cbv zeta.
  assert (err (conn (with_conn (next (conn s)).1 s)) = err (conn s)) as He by apply next_loop_err.
  destruct (next (conn s)).2; try (by left); [|by right]. set (s1 := with_conn _ s) in *. rewrite <- He. unfold on_message. destruct (mtype m =? 82).
  - pose proof (auth_only rnd (mbody m) s1) as Hv. destruct (auth cfg _ _ _) as [s' r]. unfold seen in Hv. cbn [fst] in Hv. assert (at_ s' = at_ s1) as Ea by congruence.
    assert (err (conn s') = err (conn s1)) as <- by congruence. destruct r; [apply IH; rewrite Ea; exact E|left; by rewrite exchange_done..].
  - destruct (mtype m =? 69); [left; by rewrite exchange_done|]. destruct (mtype m =? 90); [left; by rewrite exchange_done|]. by apply IH.
Qed.
Lemma onData_err now d c : err c <> None -> err (onData now d c) <> None.
Proof.
  intros Hc. unfold onData. destruct (Parser.push d _) as [p [[|m ms]|e|]]; try done; cbn.
  - by destruct (Replication.over _ _ && _).
  - by destruct (err c).
Qed.
Lemma fail_err e c : err (fail e c) <> None.
Proof. unfold fail. cbn. by destruct (err c). Qed.
Lemma step_timed e s : timed s -> timed (step cfg e s).
Proof.
  intros Hs. assert (forall f, (forall c, err c <> None -> err (f c) <> None) -> timed (on_socket f s)) as Hf.
  { intros f Hf. unfold on_socket, timed in *. destruct (at_ s) eqn:E; cbn; rewrite ?E; try done. destruct Hs; [by left|right; by apply Hf]. }
  destruct e; cbn [step].
  - destruct (at_ s) eqn:E; try done. unfold connect. destruct (_ && _); [done|]. by left.
  - destruct (at_ s) eqn:E; try done. unfold dialed. set (s1 := mkStarting _ _ _ _ _ _). pose proof (write_only (W.startup (startup_params cfg)) s1) as Hv.
    assert (timed s1) as H1 by (unfold timed in Hs; by rewrite E in Hs).
    destruct (write _ s1) as [s2 r]. unfold seen in Hv. cbn [fst] in Hv. assert (timed s2) as H2 by (apply (timed_keep s1); [congruence..|done]).
    destruct r; [by apply exchange_timed|done..].
  - by destruct (at_ s).
  - unfold on_timeout. destruct (armed s); [|done]. unfold timed. cbn [at_ conn]. destruct (at_ s); try done; right; apply fail_err.
  - apply Hf, onData_err.
  - apply Hf. intros c _. apply fail_err.
  - apply Hf. intros c Hc. unfold onClose. destruct (ended c); [done|apply fail_err].
  - unfold timed in *. cbn [with_conn at_ conn armed]. destruct (at_ s); try done; cbn.
    assert (err (end_ (conn s)) = err (conn s)) as ->; [|done]. unfold end_, forceResume. by destruct (qPaused _), W.terminate.
  - by apply exchange_timed.
Qed.
Lemma run_events_timed es : forall s, timed s -> timed (run_events cfg es s).
Proof. induction es as [|e es IH]; intros s Hs; [done|]. by apply IH, step_timed. Qed.

(** A required channel binding: the SCRAM state is that of a bound exchange. *)
Definition bound (s : starting) : Prop := channelBinding cfg = Some CbRequire -> forall x, scramState s = Some x -> plus x = true.
Lemma scramForChannel_required rnd pw ms cert x : scramForChannel rnd pw ms CbRequire cert = Ok x -> plus x = true.
Proof.
  unfold scramForChannel. destruct cert as [c|]; [|done]. rewrite bool_decide_false by done. cbn [mbind option_bind].
  destruct (tlsServerEndPoint c); [|done]. rewrite bool_decide_false by done. destruct (bool_decide _); [|done]. by intros [= <-].
Qed.
Lemma continue_plus t x : plus (continue_ t x).1 = plus x.
Proof. unfold continue_. cbv zeta. match goal with |- plus (match ?r with _ => _ end).1 = _ => destruct r as [[[n i] sl]| |] end; done. Qed.
Lemma write_scram b s : scramState (write b s).1 = scramState s.
Proof. unfold write. unfold mbind, M_bind, lift. by destruct b. Qed.
Lemma auth_bound rnd body s : bound s -> bound (auth cfg rnd body s).1.
Proof.
  intros Hs Hc x. specialize (Hs Hc). unfold auth. unfold mbind, M_bind, lift at 1. destruct (readInt32BE body 0) as [code| |]; [|apply Hs..]. cbv zeta.
  destruct (code =? 0); [apply Hs|]. destruct (code =? 3); [rewrite write_scram; apply Hs|]. destruct (code =? 5); [rewrite write_scram; apply Hs|].
  destruct (code =? 10).
  { unfold lift. rewrite Hc. cbn [default]. destruct (scramForChannel _ _ _ _ _) as [y| |] eqn:E; [|apply Hs..]. unfold modify at 1. rewrite write_scram.
    cbn [with_scram scramState]. intros [= <-]. by eapply scramForChannel_required. }
  destruct (code =? 11).
  { unfold gets at 1. destruct (scramState s) as [y|] eqn:Ey; [|change (scramState s = Some x -> plus x = true); by rewrite Ey]. pose proof (continue_plus (utf8_decode (drop 4 body)) y) as Hp.
    destruct (continue_ _ y) as [y' r]. cbn [fst] in Hp. unfold modify at 1, lift. destruct r; [rewrite write_scram| |]; cbn [fst with_scram scramState];
      intros [= <-]; rewrite Hp; by apply Hs. }
  destruct (code =? 12); [|apply Hs]. unfold gets at 1. destruct (scramState s) as [y|] eqn:Ey; [|change (scramState s = Some x -> plus x = true); by rewrite Ey]. unfold lift.
  destruct (Auth.final _ _); cbn; rewrite Ey; apply Hs.
Qed.
Lemma exchange_bound f rnd : forall s, bound s -> bound (exchange cfg f rnd s).
Proof.
  induction f as [|f IH]; intros s Hs; [cbn [exchange]; by destruct (at_ s)|].
  destruct (exchanging_dec s) as [E|E]; [|by rewrite exchange_done]. rewrite exchange_step by done. cbv zeta.
  destruct (next (conn s)).2; try exact Hs. apply IH. unfold on_message. destruct (mtype m =? 82).
  - pose proof (auth_bound rnd (mbody m) (with_conn (next (conn s)).1 s) Hs) as Hv. destruct (auth cfg _ _ _) as [s' r]. by destruct r.
  - destruct (mtype m =? 69); [done|]. by destruct (mtype m =? 90).
Qed.
Lemma step_bound e s : bound s -> bound (step cfg e s).
Proof.
  intros Hs. destruct e; cbn [step].
  - destruct (at_ s); try done. unfold connect. by destruct (_ && _).
  - destruct (at_ s); try done. unfold dialed. set (s1 := mkStarting _ _ _ _ _ _). pose proof (write_scram (W.startup (startup_params cfg)) s1) as Hv.
    destruct (write _ s1) as [s2 r]. cbn [fst] in Hv. assert (bound s2) as H2 by (unfold bound; by rewrite Hv). destruct r; [by apply exchange_bound|done..].
  - by destruct (at_ s).
  - unfold on_timeout. by destruct (armed s).
  - unfold on_socket. by destruct (at_ s).
  - unfold on_socket. by destruct (at_ s).
  - unfold on_socket. by destruct (at_ s).
  - done.
  - by apply exchange_bound.
Qed.
Lemma run_events_bound es : forall s, bound s -> bound (run_events cfg es s).
Proof. induction es as [|e es IH]; intros s Hs; [done|]. by apply IH, step_bound. Qed.

End Proofs.
End StartupProofs.
