(* ===== verification/ReplScram.v ===== *)
(** * A SCRAM startup of a replication connection, and startups that are not what was asked for

    The composition of the parser, the queue, the authentication exchange and connect() with the server of RFC 5802,
    and the sessions behind the findings about connect(). *)

From S2P Require Import Prelude Utf8 Text Buf Num Dates Value NumText Auth Json JsonBig ExtTypes ArrayText Temporal Protocol Framing Messages Parse Errors Encode Decode BinTuple PgOutput PgOutputProofs Replication ReplicationProofs ReplStart.
Import Startup StartupProofs.

(** ** Rounds of the exchange *)

Section Rounds.
Context `{Crypto} (cfg : Config).

(** A connection whose exchange waits: nothing is buffered, queued or wrong. *)
Definition awaiting (s : starting) : Prop :=
  at_ s = Exchanging /\ parser (conn s) = [] /\ q (conn s) = [] /\ err (conn s) = None /\ ended (conn s) = false
  /\ qPaused (conn s) = false /\ maxQueue (conn s) = None.
(** The same with [ms] in the queue. *)
Definition holding (ms : list RawMessage) (s : starting) : Prop :=
  at_ s = Exchanging /\ parser (conn s) = [] /\ q (conn s) = ms /\ err (conn s) = None /\ ended (conn s) = false
  /\ qPaused (conn s) = false /\ maxQueue (conn s) = None.
(** What the exchange has done so far. *)
Definition done_so_far (s : starting) : list sock_op * option Scram * Z := (out (conn s), scramState s, serverMajor (conn s)).

Lemma data_holding now ms s : Forall wf_msg ms -> ms <> [] -> awaiting s ->
  holding ms (step cfg (Data now (concat (frame_bytes <$> ms))) s)
  /\ done_so_far (step cfg (Data now (concat (frame_bytes <$> ms))) s) = done_so_far s.
Proof.
  intros Hw Hne (H1 & H2 & H3 & H4 & H5 & H6 & H7). cbn [step]. unfold on_socket. rewrite H1. unfold onData.
  assert (Parser.push (concat (frame_bytes <$> ms)) [] = ([], Ok ms)) as E.
  { pose proof (push_frames (concat (frame_bytes <$> ms)) [] ms []) as P. cbn [feed concat] in P. rewrite !app_nil_r in P.
    specialize (P Hw (or_introl eq_refl) eq_refl). cbv [mbind M_bind mret M_ret] in P.
    destruct (Parser.push (concat (frame_bytes <$> ms)) []) as [p [l|e|]]; try discriminate. injection P as -> E. by rewrite app_nil_r in E; subst l. }
  change (parser (set_clock now (conn s))) with (parser (conn s)). rewrite H2, E. destruct ms as [|m ms]; [done|]. cbv zeta.
  set (c := set_queue _ _ _). assert (maxQueue c = None) as Em by exact H7. rewrite Em. cbn [Replication.over andb].
  split; [|done]. unfold holding, c. cbn. rewrite H3. done.
Qed.

(** One message of the queue, taken by the loop. *)
Definition taken (t : list RawMessage) (m : RawMessage) (s : starting) : starting := with_conn (set_queue t (qBytes (conn s) - size_of m) (conn s)) s.
Lemma taken_holding t m s : holding (m :: t) s -> holding t (taken t m s) /\ done_so_far (taken t m s) = done_so_far s.
Proof. done || (intros (H1 & H2 & H3 & H4 & H5 & H6 & H7); by repeat split). Qed.
Lemma shift_taken t m s : holding (m :: t) s -> shift t m (conn s) = conn (taken t m s).
Proof. intros (_ & _ & _ & _ & _ & H6 & _). unfold shift. cbv zeta. change (qPaused (set_queue _ _ _)) with (qPaused (conn s)). by rewrite H6. Qed.
Lemma exchange_message f rnd m t s : holding (m :: t) s -> mtype m ∉ [83; 75; 78; 65] ->
  exchange cfg (S f) rnd s = exchange cfg f rnd (on_message cfg rnd m (taken t m s)).
Proof.
  intros Hs Hm. rewrite exchange_step by apply Hs. assert (next (conn s) = (conn (taken t m s), Got m)) as ->; [|done].
  unfold next. assert (q (conn s) = m :: t) as -> by apply Hs. rewrite next_loop_cons. cbv zeta. rewrite shift_taken by done.
  rewrite !not_elem_of_cons in Hm. destruct (Z.eqb_spec (mtype m) 83); [tauto|]. rewrite bool_decide_false; [done|].
  rewrite !elem_of_cons, elem_of_nil. tauto.
Qed.
(** Messages that next() takes for itself: notices and the like change nothing, a server_version is noted. *)
Lemma next_ignored l m t s : holding (l ++ m :: t) s -> Forall (fun n => mtype n ∈ [75; 78; 65]) l -> mtype m ∉ [83; 75; 78; 65] ->
  exists s', next (conn s) = (conn s', Got m) /\ holding t s' /\ done_so_far s' = done_so_far s /\ s' = with_conn (conn s') s.
Proof.
  intros Hs Hl Hm. unfold next. assert (q (conn s) = l ++ m :: t) as -> by apply Hs. revert s Hs.
  induction Hl as [|n l Hn _ IH]; intros s Hs; cbn [app] in *; rewrite next_loop_cons; cbv zeta; rewrite shift_taken by done.
  - rewrite !not_elem_of_cons in Hm. destruct (Z.eqb_spec (mtype m) 83); [tauto|]. rewrite bool_decide_false by (rewrite !elem_of_cons, elem_of_nil; tauto).
    exists (taken t m s). split; [done|]. destruct (taken_holding t m s Hs) as [A B]. by split; [|split].
  - destruct (Z.eqb_spec (mtype n) 83) as [E|E]; [rewrite E in Hn; by rewrite !elem_of_cons, elem_of_nil in Hn; lia|]. rewrite bool_decide_true by done.
    destruct (IH (taken (l ++ m :: t) n s)) as (s' & E1 & E2 & E3 & E4); [by apply taken_holding|]. exists s'. split; [exact E1|]. split; [exact E2|].
    split; [rewrite E3; by apply (taken_holding (l ++ m :: t) n s)|]. exact E4.
Qed.

(** ** The messages of the exchange *)

Lemma read_code k t : 0 <= k <= 12 -> readInt32BE (be 4 k ++ t) 0 = Ok k.
Proof. intros Hk. destruct (rest_at_i32 (be 4 k ++ t) 0 k t (rest_at_0 _)) as [E _]; [unfold i32_range; lia|exact E]. Qed.
Lemma drop_code k (t : bytes) : drop 4 (be 4 k ++ t) = t.
Proof. rewrite drop_app_length'; [done|by rewrite length_be]. Qed.
Definition wrote (b : bytes) (s : starting) : starting := with_conn (send (Write b) (conn s)) s.
Lemma auth_sasl rnd mechs x b s :
  scramForChannel rnd (password cfg) (parseSaslMechanisms (be 4 10 ++ mechs)) (default CbPrefer (channelBinding cfg)) (certDer cfg) = Ok x ->
  W.saslInitial (mechanism x) (clientFirst x) = Ok b -> auth cfg rnd (be 4 10 ++ mechs) s = (wrote b (with_scram x s), Ok tt).
Proof.
  intros Ex Eb. unfold auth, mbind, M_bind, lift at 1. rewrite read_code by lia. cbv zeta. change (10 =? 0) with false. change (10 =? 3) with false.
  change (10 =? 5) with false. change (10 =? 10) with true. cbv iota. unfold lift at 1. rewrite Ex. unfold modify at 1, write, mbind, M_bind, lift. by rewrite Eb.
Qed.
Lemma auth_continue rnd txt t x x' cf b s :
  scramState s = Some x -> utf8_decode txt = t -> continue_ t x = (x', Ok cf) -> W.saslResponse cf = Ok b ->
  auth cfg rnd (be 4 11 ++ txt) s = (wrote b (with_scram x' s), Ok tt).
Proof.
  intros Ex <- Ec Eb. unfold auth, mbind, M_bind, lift at 1. rewrite read_code by lia. cbv zeta. change (11 =? 0) with false. change (11 =? 3) with false.
  change (11 =? 5) with false. change (11 =? 10) with false. change (11 =? 11) with true. cbv iota. unfold gets at 1. rewrite Ex, drop_code, Ec.
  unfold modify at 1, lift at 1, write, mbind, M_bind, lift. by rewrite Eb.
Qed.
Lemma auth_final rnd txt t x s : scramState s = Some x -> utf8_decode txt = t -> Auth.final x t = Ok tt -> auth cfg rnd (be 4 12 ++ txt) s = (s, Ok tt).
Proof.
  intros Ex <- Ef. unfold auth, mbind, M_bind, lift at 1. rewrite read_code by lia. cbv zeta. change (12 =? 0) with false. change (12 =? 3) with false.
  change (12 =? 5) with false. change (12 =? 10) with false. change (12 =? 11) with false. change (12 =? 12) with true. cbv iota.
  unfold gets at 1. rewrite Ex, drop_code. unfold lift. by rewrite Ef.
Qed.
Lemma auth_ok rnd s : auth cfg rnd (be 4 0) s = (s, Ok tt).
Proof. done. Qed.
Lemma on_auth rnd body s s' : auth cfg rnd body s = (s', Ok tt) -> on_message cfg rnd (mkMsg 82 body) s = s'.
Proof. intros E. unfold on_message. cbn [mtype mbody]. change (82 =? 82) with true. cbv iota. by rewrite E. Qed.
Lemma holding_wrote l b x s : holding l s -> holding l (wrote b (with_scram x s)).
Proof. intros (H1 & H2 & H3 & H4 & H5 & H6 & H7). by repeat split. Qed.

Lemma exchange_parked f rnd s : awaiting s -> exchange cfg (S f) rnd s = s.
Proof.
  intros (H1 & H2 & H3 & H4 & H5 & H6 & H7). rewrite exchange_step by done. unfold next. rewrite H3. cbn [next_loop]. rewrite H4, H5. by destruct s.
Qed.
(** A message of the authentication, on its own, and the turn that takes it. *)
Lemma auth_turn rnd now body s b x :
  awaiting s -> wf_msg (mkMsg 82 body) -> (forall s1, scramState s1 = scramState s -> auth cfg rnd body s1 = (wrote b (with_scram x s1), Ok tt)) ->
  let s' := run_events cfg [Data now (frame_bytes (mkMsg 82 body)); Resumed rnd] s in
  awaiting s' /\ done_so_far s' = (out (conn s) ++ [Write b], Some x, serverMajor (conn s)).
Proof.
  intros Hs Hw Ha. cbv zeta. cbn [run_events foldl]. destruct (data_holding now [mkMsg 82 body] s) as [Hh Hd]; [by repeat constructor|done|done|].
  cbn [fmap list_fmap concat] in Hh, Hd. rewrite app_nil_r in Hh, Hd. set (s1 := step cfg (Data now _) s) in *. cbn [step]. unfold run.
  assert (q (conn s1) = [mkMsg 82 body]) as -> by apply Hh. cbn [length]. rewrite (exchange_message _ _ _ _ _ Hh) by (by apply (bool_decide_unpack _)).
  destruct (taken_holding [] _ _ Hh) as [Ht Et]. set (s2 := taken [] (mkMsg 82 body) s1) in *.
  assert (scramState s2 = scramState s) as Es by (unfold done_so_far in *; congruence). rewrite (on_auth _ _ _ _ (Ha s2 Es)).
  pose proof (holding_wrote [] b x s2 Ht) as Hf. rewrite exchange_parked by exact Hf. split; [exact Hf|].
  assert (done_so_far s2 = done_so_far s) as E by (rewrite Et; exact Hd). unfold done_so_far in *. injection E as Eo _ Em. by rewrite <- Eo, <- Em.
Qed.

Lemma auth_refused rnd txt t x e s : scramState s = Some x -> utf8_decode txt = t -> Auth.final x t = Throw e -> auth cfg rnd (be 4 12 ++ txt) s = (s, Throw e).
Proof.
  intros Ex <- Ef. unfold auth, mbind, M_bind, lift at 1. rewrite read_code by lia. cbv zeta. change (12 =? 0) with false. change (12 =? 3) with false.
  change (12 =? 5) with false. change (12 =? 10) with false. change (12 =? 11) with false. change (12 =? 12) with true. cbv iota.
  unfold gets at 1. rewrite Ex, drop_code. unfold lift. by rewrite Ef.
Qed.
Lemma refused_turn rnd now txt t x e s :
  awaiting s -> wf_msg (mkMsg 82 (be 4 12 ++ txt)) -> scramState s = Some x -> utf8_decode txt = t -> Auth.final x t = Throw e ->
  at_ (run_events cfg [Data now (frame_bytes (mkMsg 82 (be 4 12 ++ txt))); Resumed rnd] s) = Rejected (RJs e).
Proof.
  intros Hs Hw Ex Et Ef. cbn [run_events foldl]. destruct (data_holding now [mkMsg 82 (be 4 12 ++ txt)] s) as [Hh Hd]; [by repeat constructor|done|done|].
  cbn [fmap list_fmap concat] in Hh, Hd. rewrite app_nil_r in Hh, Hd. set (s1 := step cfg (Data now _) s) in *. cbn [step]. unfold run.
  assert (q (conn s1) = [mkMsg 82 (be 4 12 ++ txt)]) as -> by apply Hh. cbn [length]. rewrite (exchange_message _ _ _ _ _ Hh) by (by apply (bool_decide_unpack _)).
  set (s2 := taken [] _ s1). assert (scramState s2 = Some x) as Es by (change (scramState s1 = Some x); rewrite <- Ex; exact (f_equal (fun p => p.1.2) Hd)).
  unfold on_message. cbn [mtype mbody]. change (82 =? 82) with true. cbv iota. rewrite (auth_refused rnd txt t x e s2 Es Et Ef). by rewrite exchange_done.
Qed.

Lemma version_param ver c : Forall (fun x => x <> 0) ver -> param (js "server_version" ++ 0 :: ver ++ [0]) c = Some (set_major (parseInt10 ver) c).
Proof.
  intros Hv. unfold param. set (b := js "server_version" ++ 0 :: ver ++ [0]).
  destruct (rest_at_cstr b 0 (js "server_version") (ver ++ [0]) (rest_at_0 b)) as [E R]; [by apply (bool_decide_unpack _)|].
  pose proof (rest_at_sub b 0 (js "server_version") _ (rest_at_0 b)) as Es. rewrite E, Es, bool_decide_true by done. cbn [negb].
  pose proof (rest_at_sub _ _ _ _ R) as Es2. destruct (rest_at_cstr _ _ ver [] R Hv) as [E2 _]. rewrite E2. by rewrite Es2.
Qed.
Lemma next_version l m t s ver :
  let v := mkMsg 83 (js "server_version" ++ 0 :: ver ++ [0]) in
  Forall (fun x => x <> 0) ver -> holding (v :: l ++ m :: t) s -> Forall (fun n => mtype n ∈ [75; 78; 65]) l -> mtype m ∉ [83; 75; 78; 65] ->
  exists s', next (conn s) = (conn s', Got m) /\ holding t s' /\ done_so_far s' = (out (conn s), scramState s, parseInt10 ver) /\ s' = with_conn (conn s') s.
Proof.
  intros v Hv Hs Hl Hm. unfold next. assert (q (conn s) = v :: l ++ m :: t) as -> by apply Hs. rewrite next_loop_cons. cbv zeta. rewrite shift_taken by done.
  cbn [mtype mbody v]. change (83 =? 83) with true. cbv iota. rewrite version_param by done.
  destruct (taken_holding _ _ _ Hs) as [Ht Et]. set (s1 := taken (l ++ m :: t) v s) in *.
  destruct (next_ignored l m t (with_conn (set_major (parseInt10 ver) (conn s1)) s1)) as (s' & E1 & E2 & E3 & E4); [|done|done|].
  - destruct Ht as (H1 & H2 & H3 & H4 & H5 & H6 & H7). by repeat split.
  - assert (q (conn (with_conn (set_major (parseInt10 ver) (conn s1)) s1)) = l ++ m :: t) as Eq by apply Ht. unfold next in E1. rewrite Eq in E1. exists s'.
    split; [exact E1|]. split; [exact E2|]. split; [|exact E4]. rewrite E3. done.
Qed.
End Rounds.

(** ** A startup against the server of RFC 5802 *)

Section Exchange.
Context `{Crypto} (cfg : Config).

Lemma dialed_awaits rnd0 b : hasSocket cfg || hasTransport cfg = true -> W.startup (startup_params cfg) = Ok b ->
  let s := run_events cfg [Connect; Dialed rnd0] (fresh cfg) in
  awaiting s /\ done_so_far s = ([Write b], None, 0).
Proof.
  intros Ht Eb. cbn [run_events foldl step fresh at_]. unfold connect. assert (negb (hasSocket cfg) && negb (hasTransport cfg) = false) as ->
    by (by destruct (hasSocket cfg), (hasTransport cfg)). cbn [at_]. unfold dialed, write, mbind, M_bind, lift at 1. rewrite Eb. unfold modify. cbv zeta.
  unfold run. cbn [conn with_conn q send initial length fresh]. rewrite exchange_parked by by repeat split. by repeat split.
Qed.
(** The last turn: the server's signature, AuthenticationOk, its version, what else it reports, ReadyForQuery. *)
Lemma last_turn rnd now txt t x ver l z s :
  awaiting s -> scramState s = Some x -> utf8_decode txt = t -> Auth.final x t = Ok tt ->
  Forall (fun c => c <> 0) ver -> Forall (fun n => mtype n ∈ [75; 78; 65]) l ->
  let ms := mkMsg 82 (be 4 12 ++ txt) :: mkMsg 82 (be 4 0) :: mkMsg 83 (js "server_version" ++ 0 :: ver ++ [0]) :: l ++ [mkMsg 90 z] in
  Forall wf_msg ms ->
  let s' := run_events cfg [Data now (concat (frame_bytes <$> ms)); Resumed rnd] s in
  at_ s' = Connected /\ armed s' = false /\ q (conn s') = [] /\ done_so_far s' = (out (conn s), Some x, parseInt10 ver).
Proof.
  intros Hs Ex Et Ef Hv Hl ms Hw. cbv zeta. cbn [run_events foldl]. destruct (data_holding cfg now ms s Hw ltac:(done) Hs) as [Hh Hd].
  set (s1 := step cfg (Data now _) s) in *. cbn [step]. unfold run. assert (q (conn s1) = ms) as -> by apply Hh.
  assert (length ms = S (S (S (length l + 1)))) as -> by (unfold ms; cbn [length]; by rewrite length_app).
  assert (scramState s1 = Some x) as Ex1 by (unfold done_so_far in Hd; congruence).
  rewrite (exchange_message cfg _ rnd _ _ s1 Hh) by (by apply (bool_decide_unpack _)).
  destruct (taken_holding _ _ _ Hh) as [Hh2 Hd2]. set (s2 := taken _ _ s1) in *.
  rewrite (on_auth cfg rnd _ s2 s2 (auth_final cfg rnd txt t x s2 Ex1 Et Ef)).
  rewrite (exchange_message cfg _ rnd _ _ s2 Hh2) by (by apply (bool_decide_unpack _)).
  rewrite (on_auth cfg rnd _ _ _ (auth_ok cfg rnd _)). destruct (taken_holding _ _ _ Hh2) as [Hh3 Hd3]. set (s3 := taken _ _ s2) in *.
  rewrite exchange_step by apply Hh3. destruct (next_version l (mkMsg 90 z) [] s3 ver Hv Hh3 Hl) as (s4 & En & Hh4 & Hd4 & Es4); [by apply (bool_decide_unpack _)|].
  rewrite En. cbv zeta. cbn [fst snd]. rewrite <- Es4. unfold on_message. cbn [mtype]. change (90 =? 82) with false. change (90 =? 69) with false. change (90 =? 90) with true.
  cbv iota. rewrite exchange_done by done. split; [done|]. split; [done|]. split; [apply Hh4|].
  change (done_so_far s4 = (out (conn s), Some x, parseInt10 ver)). rewrite Hd4. unfold done_so_far in *. congruence.
Qed.

Lemma final_throws x t : match server_part t, serverSignature x with Some part, Some sg => base64_decode (drop 2 part) <> sg | _, _ => True end ->
  exists e, Auth.final x t = Throw e.
Proof.
  unfold Auth.final. destruct (server_part t), (serverSignature x); eauto. intros Hn. rewrite bool_decide_false by done. eauto.
Qed.

End Exchange.

Definition demo_cfg (binding : option channelBinding_) : Config :=
  mkConfig (js "u") (js "pencil") (js "d") (js "minipg-replication") None 30000 binding None true false None ∅.
Definition or_empty (r : res bytes) : bytes := match r with Ok b => b | _ => [] end.

(** ** Startups that are not what was asked for *)

(** channel_binding=require, and a server that asks for the password in the clear: it is sent, and connect() resolves. *)
Definition in_the_clear : list event :=
  [Connect; Dialed []; Data 1 (frame_bytes (mkMsg 82 (be 4 3))); Resumed []; Data 2 (concat (frame_bytes <$> [mkMsg 82 (be 4 0); mkMsg 90 [73]])); Resumed []].
Example unbound_despite_require :
  let s := @run_events demo_crypto (demo_cfg (Some CbRequire)) in_the_clear (fresh (demo_cfg (Some CbRequire))) in
  at_ s = Connected /\ (exists b, W.password (js "pencil") = Ok b /\ Write b ∈ out (conn s)) /\ scramState s = None.
Proof.
  intros s. split; [vm_compute; reflexivity|]. split; [|vm_compute; reflexivity]. eexists. split; [vm_compute; reflexivity|].
  unfold s. vm_compute. apply elem_of_cons. right. by left.
Qed.
(** A server whose signature is wrong: connect() rejects, and leaves the socket open. *)
Definition impostor : list event :=
  [Connect; Dialed []; Data 1 (frame_bytes (mkMsg 82 (be 4 10 ++ js "SCRAM-SHA-256" ++ [0; 0]))); Resumed [9]; Data 2 (frame_bytes (mkMsg 82 (be 4 12 ++ js "v=AAAA"))); Resumed []].
Example rejected_left_open :
  let s := @run_events demo_crypto (demo_cfg None) impostor (fresh (demo_cfg None)) in
  at_ s = Rejected (RJs (Error (js "SCRAM: missing server signature"))) /\ EndSocket ∉ out (conn s) /\ ended (conn s) = false.
Proof. vm_compute. split; [done|]. split; [|done]. intros Hin%list_elem_of_In. cbn [In] in Hin. intuition discriminate. Qed.
