(* ===== verification/Cdc.v ===== *)
(** * Managed replication sessions (src/cdc.ts)

    [replicate()] as a state machine. The async function [run] is suspended at an [await] in each [phase];
    [stop] runs beside it and is suspended in a [stop_state]. An event is what the awaited thing answers - the
    replication connection (Replication.v), a callback of the consumer, a timer - or a call of stop(). Between
    two events the code runs to its next await. What the session does to the connection and the consumer is
    the [log]. *)

From S2P Require Import Prelude Utf8 Text Buf Num Dates Value NumText Json JsonBig ExtTypes ArrayText Temporal Protocol Framing Messages Parse Errors Encode Decode BinTuple PgOutput Replication.

(** ** Transactions from events (src/replication.ts, batchTransactions) *)

Record Commit := mkCommit { commitLsn : jstr; endLsn : jstr; commitTime : option Z; commitTimeUs : num }.
(** [done] is whether there is a commit. *)
Record TransactionBatch := mkBatch { b_xid : Z; b_events : list ReplicationEvent; b_done : option Commit }.
(** The generator's variables. *)
Record Batching := mkBatching { g_xid : Z; g_events : list ReplicationEvent }.
Definition Batching_init : Batching := mkBatching 0 [].
(** [maxEvents && maxEvents > 0 ? maxEvents : Infinity] *)
Definition full (maxEvents : option Z) (n : nat) : bool := match maxEvents with Some m => (0 <? m) && (m <=? Z.of_nat n) | None => false end.
Definition batch_step (maxEvents : option Z) (e : ReplicationEvent) (g : Batching) : Batching * option TransactionBatch :=
  match e with
  | EvBegin xid _ _ _ => (mkBatching xid [], None)
  | EvCommit lsn endLsn t us => (mkBatching (g_xid g) [], Some (mkBatch (g_xid g) (g_events g) (Some (mkCommit lsn endLsn t us))))
  | EvMessage false _ _ _ => (g, None)
  | e =>
    let evs := g_events g ++ [e] in
    if full maxEvents (length evs) then (mkBatching (g_xid g) [], Some (mkBatch (g_xid g) evs None)) else (mkBatching (g_xid g) evs, None)
  end.

(** ** Errors and options *)

Inductive invalid_cause := CAbsent | CWalLost | CNoConfirmedFlush | CSystemChanged.
#[global] Instance invalid_cause_eq : EqDecision invalid_cause. Proof. solve_decision. Defined.
Inductive cerr :=
| SlotInvalidatedError (slot : jstr) (cause : invalid_cause)
| BackfillTimeoutError
| SlotBusyError (slot : jstr) (pid : num)
| UnsupportedServerVersionError
| STOP
| AbortError
(** the error onResume's verdict becomes *)
| Recreate
(** what the replication connection throws *)
| Repl (e : rerr)
(** what a callback throws: an error with its code, if it has one; null or undefined *)
| User (id : Z) (code : option jstr)
| Nullish.
Definition code_of (e : cerr) : option jstr :=
  match e with
  | Repl (RPg fields) => fields !! js "code"
  | User _ c => c
  | _ => None
  end.
Definition PERMANENT_SQLSTATES : list jstr := [js "28P01"; js "28000"; js "3D000"; js "42501"].
Definition PERMANENT_ERRORS (e : cerr) : bool :=
  match e with
  | Repl (PublicationMissing _) | Repl PublicationEmpty | Repl (InvalidSlotName _) | Repl (InvalidReplicationShape _) => true
  | SlotInvalidatedError _ _ | SlotBusyError _ _ | UnsupportedServerVersionError | BackfillTimeoutError => true
  | _ => false
  end.
Definition isPermanentFailure (e : cerr) : bool :=
  match code_of e with Some c => bool_decide (c ∈ PERMANENT_SQLSTATES) | None => false end || PERMANENT_ERRORS e.
(** [e instanceof PgError && e.code === c] *)
Definition is_pg (c : string) (e : cerr) : bool :=
  match e with Repl (RPg fields) => bool_decide (fields !! js "code" = Some (js c)) | _ => false end.

Inductive Slot := Temporary | Prefixed (prefix : jstr) | Durable (name : jstr).
(** A connection string, or a configuration with its [keepAlive]. *)
Inductive Target_ := UrlString | UrlConfig (keepAlive : option bool).
(** [retryDelayMs]: what it throws, or the delay; the model's is a function, so it calls nothing itself. *)
Record ReplicateOptions := mkReplicate {
  url : Target_; o_slot : Slot; o_publications : list jstr; backfillTimeoutMs : option num; maxTransactionEvents : option Z;
  retryDelayMs : Z -> cerr -> cerr + option Z; onSlotBusy_evict : bool; onSlotInvalidated_recreate : bool; has_onResume : bool;
  o_statusIntervalMs : option Z; o_receiveTimeoutMs : option Z }.

Definition slot_char (c : Z) : bool := between 97 122 c || is_digit c || (c =? 95).
Definition name_of (max : nat) (s : jstr) : bool := (1 <=? length s)%nat && (length s <=? max)%nat && forallb slot_char s.
Definition DURABLE_SLOT_NAME : jstr -> bool := name_of 63.
Definition TEMP_SLOT_PREFIX : jstr -> bool := name_of 54.
Definition positive (x : num) : bool := match x with Fin false m _ => 0 <? m | Inf false => true | _ => false end.
(** The guards of replicate(), which throws before there is a handle. *)
Definition check_options (o : ReplicateOptions) : option rerr :=
  match o_slot o with
  | Durable n => if DURABLE_SLOT_NAME n then None else Some (InvalidSlotName n)
  | Prefixed p => if TEMP_SLOT_PREFIX p then None else Some (InvalidSlotName p)
  | Temporary => None
  end.
Definition validate (o : ReplicateOptions) : option rerr :=
  match check_options o with
  | Some e => Some e
  | None =>
    match o_publications o with
    | [] => Some PublicationEmpty
    | _ => match backfillTimeoutMs o with Some ms => if positive ms then None else Some (RJs RangeError) | None => None end
    end
  end.
(** [defaultRetryDelayMs]; [jitter] is Math.random() * 1000 in whole milliseconds. *)
Definition defaultRetryDelayMs (jitter : Z -> Z) (attempt : Z) (e : cerr) : cerr + option Z :=
  inr (if 10 <=? attempt then None else Some (Z.min (1000 * 2 ^ (attempt - 1) + jitter attempt) 30000)).

(** ** The state *)

Definition Rows_ : Type := list jstr * list (list (option jstr)).
Record Created := mkCreated { c_slot : jstr; c_snapshot : option jstr; c_point : jstr }.
Record Resumed := mkResumed { confirmedFlush : jstr; restartLsn : option jstr }.
Inductive warning :=
| ReconnectAttempt (attempt delayMs : Z) (e : cerr)
| BackfillTimeout
| SlotEvicted (slot : jstr) (pid : num)
| WalSenderTimeoutDisabled (keepAlive : option bool).
(** The options of start() that the session computes; the others are passed on as they are. *)
Record stream_options := mkStream { so_slot : jstr; so_publications : list jstr; so_status4 : option Z; so_receive : option Z }.

Inductive action :=
| AConnect (forceKeepAlive : bool) | ACommand (sql : jstr) | AIdentify | ACreateSlot (name : jstr) (temporary : bool) | ADropSlot (name : jstr)
| AStart (o : stream_options) | AAck (lsn : jstr) | AEnd (conn : nat)
| ABackfill (snapshot : option jstr) (streamStartLsn : jstr) (isReconnect : bool) | AResume (r : Resumed) (isReconnect : bool)
| AHandle (b : TransactionBatch) | AWarn (w : warning) | AFatal (e : cerr).

Inductive callee := CResume | CBackfill | CHandler (b : TransactionBatch) (g : Batching).
Inductive sleeper :=
| SReconnect | SRecreate | SPoll (pid : num) (deadline : Z) (evictions : Z) | SDrop (deadline : Z) | SBackfill | SHandler (b : TransactionBatch) (g : Batching).
Inductive phase :=
| PInit
| PConnect | PWst | PReconnect
| PIdentify | PHealth (evictions : Z) | PTerminate (pid : num) (evictions : Z) | PPoll (pid : num) (deadline evictions : Z)
| PDrop (deadline : Z) | PCreate
(** in a callback ([false]), or waiting for the promise it returned ([true]) *)
| PCall (c : callee) (promised : bool)
| PSleep (k : sleeper)
| PStream (g : Batching)
| PDone.

Inductive promise := Pending | Resolved | Rejected.
(** doStop(): not called, waiting for the promise of the handler or of another callback, at its end. *)
Inductive stop_state := NotStopped | AwaitHandler | AwaitOther | Stopped.
(** The AbortController of the backfill window: why it was aborted; whether the deadline is armed. *)
Inductive window_reason := WTimeout | WStopped.
Record Window := mkWindow { w_aborted : option window_reason; w_armed : bool }.
(** The variables of one iteration of run()'s loop. *)
Record Locals := mkLocals { l_wst : option Z; l_name : jstr; l_resumed : option Resumed; l_recreate : option cerr; l_created : Created }.
(** For the theorems: the events of the current stream, the batches of it whose handler resolved, the batches
    of every stream whose handler resolved. *)
Record Trace := mkTrace { seen : list ReplicationEvent; handled : list TransactionBatch; completed : list TransactionBatch }.

Record state := mkState {
  stopping : bool; handling : bool; fatalFired : bool; sessions : Z; attempt : Z; repl : option nat; opened : nat; current : bool;
  pendingAckLsn : option jstr; stopper : stop_state; sawSlot : bool; lastIdentity : option (jstr * Z); derivedKeepAlive : bool;
  ready : promise; aborted : bool; window : option Window; locals : Locals; at_phase : phase; log : list action; trace : Trace }.
Definition set_stopping (x : bool) (s : state) : state :=
  mkState x (handling s) (fatalFired s) (sessions s) (attempt s) (repl s) (opened s) (current s) (pendingAckLsn s) (stopper s) (sawSlot s) (lastIdentity s) (derivedKeepAlive s) (ready s) (aborted s) (window s) (locals s) (at_phase s) (log s) (trace s).
Definition set_handling (x : bool) (s : state) : state :=
  mkState (stopping s) x (fatalFired s) (sessions s) (attempt s) (repl s) (opened s) (current s) (pendingAckLsn s) (stopper s) (sawSlot s) (lastIdentity s) (derivedKeepAlive s) (ready s) (aborted s) (window s) (locals s) (at_phase s) (log s) (trace s).
Definition set_fatalFired (x : bool) (s : state) : state :=
  mkState (stopping s) (handling s) x (sessions s) (attempt s) (repl s) (opened s) (current s) (pendingAckLsn s) (stopper s) (sawSlot s) (lastIdentity s) (derivedKeepAlive s) (ready s) (aborted s) (window s) (locals s) (at_phase s) (log s) (trace s).
Definition set_sessions (x : Z) (s : state) : state :=
  mkState (stopping s) (handling s) (fatalFired s) x (attempt s) (repl s) (opened s) (current s) (pendingAckLsn s) (stopper s) (sawSlot s) (lastIdentity s) (derivedKeepAlive s) (ready s) (aborted s) (window s) (locals s) (at_phase s) (log s) (trace s).
Definition set_attempt (x : Z) (s : state) : state :=
  mkState (stopping s) (handling s) (fatalFired s) (sessions s) x (repl s) (opened s) (current s) (pendingAckLsn s) (stopper s) (sawSlot s) (lastIdentity s) (derivedKeepAlive s) (ready s) (aborted s) (window s) (locals s) (at_phase s) (log s) (trace s).
Definition set_repl (x : option nat) (s : state) : state :=
  mkState (stopping s) (handling s) (fatalFired s) (sessions s) (attempt s) x (opened s) (current s) (pendingAckLsn s) (stopper s) (sawSlot s) (lastIdentity s) (derivedKeepAlive s) (ready s) (aborted s) (window s) (locals s) (at_phase s) (log s) (trace s).
Definition set_opened (x : nat) (s : state) : state :=
  mkState (stopping s) (handling s) (fatalFired s) (sessions s) (attempt s) (repl s) x (current s) (pendingAckLsn s) (stopper s) (sawSlot s) (lastIdentity s) (derivedKeepAlive s) (ready s) (aborted s) (window s) (locals s) (at_phase s) (log s) (trace s).
Definition set_current (x : bool) (s : state) : state :=
  mkState (stopping s) (handling s) (fatalFired s) (sessions s) (attempt s) (repl s) (opened s) x (pendingAckLsn s) (stopper s) (sawSlot s) (lastIdentity s) (derivedKeepAlive s) (ready s) (aborted s) (window s) (locals s) (at_phase s) (log s) (trace s).
Definition set_pendingAckLsn (x : option jstr) (s : state) : state :=
  mkState (stopping s) (handling s) (fatalFired s) (sessions s) (attempt s) (repl s) (opened s) (current s) x (stopper s) (sawSlot s) (lastIdentity s) (derivedKeepAlive s) (ready s) (aborted s) (window s) (locals s) (at_phase s) (log s) (trace s).
Definition set_stopper (x : stop_state) (s : state) : state :=
  mkState (stopping s) (handling s) (fatalFired s) (sessions s) (attempt s) (repl s) (opened s) (current s) (pendingAckLsn s) x (sawSlot s) (lastIdentity s) (derivedKeepAlive s) (ready s) (aborted s) (window s) (locals s) (at_phase s) (log s) (trace s).
Definition set_sawSlot (x : bool) (s : state) : state :=
  mkState (stopping s) (handling s) (fatalFired s) (sessions s) (attempt s) (repl s) (opened s) (current s) (pendingAckLsn s) (stopper s) x (lastIdentity s) (derivedKeepAlive s) (ready s) (aborted s) (window s) (locals s) (at_phase s) (log s) (trace s).
Definition set_lastIdentity (x : option (jstr * Z)) (s : state) : state :=
  mkState (stopping s) (handling s) (fatalFired s) (sessions s) (attempt s) (repl s) (opened s) (current s) (pendingAckLsn s) (stopper s) (sawSlot s) x (derivedKeepAlive s) (ready s) (aborted s) (window s) (locals s) (at_phase s) (log s) (trace s).
Definition set_derivedKeepAlive (x : bool) (s : state) : state :=
  mkState (stopping s) (handling s) (fatalFired s) (sessions s) (attempt s) (repl s) (opened s) (current s) (pendingAckLsn s) (stopper s) (sawSlot s) (lastIdentity s) x (ready s) (aborted s) (window s) (locals s) (at_phase s) (log s) (trace s).
Definition set_ready (x : promise) (s : state) : state :=
  mkState (stopping s) (handling s) (fatalFired s) (sessions s) (attempt s) (repl s) (opened s) (current s) (pendingAckLsn s) (stopper s) (sawSlot s) (lastIdentity s) (derivedKeepAlive s) x (aborted s) (window s) (locals s) (at_phase s) (log s) (trace s).
Definition set_aborted (x : bool) (s : state) : state :=
  mkState (stopping s) (handling s) (fatalFired s) (sessions s) (attempt s) (repl s) (opened s) (current s) (pendingAckLsn s) (stopper s) (sawSlot s) (lastIdentity s) (derivedKeepAlive s) (ready s) x (window s) (locals s) (at_phase s) (log s) (trace s).
Definition set_window (x : option Window) (s : state) : state :=
  mkState (stopping s) (handling s) (fatalFired s) (sessions s) (attempt s) (repl s) (opened s) (current s) (pendingAckLsn s) (stopper s) (sawSlot s) (lastIdentity s) (derivedKeepAlive s) (ready s) (aborted s) x (locals s) (at_phase s) (log s) (trace s).
Definition set_locals (x : Locals) (s : state) : state :=
  mkState (stopping s) (handling s) (fatalFired s) (sessions s) (attempt s) (repl s) (opened s) (current s) (pendingAckLsn s) (stopper s) (sawSlot s) (lastIdentity s) (derivedKeepAlive s) (ready s) (aborted s) (window s) x (at_phase s) (log s) (trace s).
Definition set_at_phase (x : phase) (s : state) : state :=
  mkState (stopping s) (handling s) (fatalFired s) (sessions s) (attempt s) (repl s) (opened s) (current s) (pendingAckLsn s) (stopper s) (sawSlot s) (lastIdentity s) (derivedKeepAlive s) (ready s) (aborted s) (window s) (locals s) x (log s) (trace s).
Definition set_log (x : list action) (s : state) : state :=
  mkState (stopping s) (handling s) (fatalFired s) (sessions s) (attempt s) (repl s) (opened s) (current s) (pendingAckLsn s) (stopper s) (sawSlot s) (lastIdentity s) (derivedKeepAlive s) (ready s) (aborted s) (window s) (locals s) (at_phase s) x (trace s).
Definition set_trace (x : Trace) (s : state) : state :=
  mkState (stopping s) (handling s) (fatalFired s) (sessions s) (attempt s) (repl s) (opened s) (current s) (pendingAckLsn s) (stopper s) (sawSlot s) (lastIdentity s) (derivedKeepAlive s) (ready s) (aborted s) (window s) (locals s) (at_phase s) (log s) x.

Definition no_created : Created := mkCreated [] None [].
Definition no_locals : Locals := mkLocals None [] None None no_created.
Definition init : state :=
  mkState false false false 0 0 None 0 false None NotStopped false None false Pending false None no_locals PInit [] (mkTrace [] [] []).
Definition emit (a : action) (s : state) : state := set_log (log s ++ [a]) s.

Section Session.
Context (opts : ReplicateOptions) (random : Z -> jstr).

Definition durableName : option jstr := match o_slot opts with Durable n => Some n | _ => None end.
Definition isDurable : bool := match durableName with Some _ => true | None => false end.
Definition tempPrefix : jstr := match o_slot opts with Prefixed p => p | _ => js "minipg_cdc" end.
(** [randomBytes(4).toString('hex')] *)
Definition tempSlotName (n : Z) : jstr := tempPrefix ++ 95 :: random n.
Definition consumerSetKeepAlive : bool := match url opts with UrlConfig (Some _) => true | _ => false end.
Definition isRecreatable (e : cerr) : bool :=
  match e with SlotInvalidatedError _ c => negb (bool_decide (c = CSystemChanged)) && onSlotInvalidated_recreate opts | _ => false end.

Definition end_repl (s : state) : state := match repl s with Some n => emit (AEnd n) s | None => s end.
Definition rejectReady (s : state) : state := match ready s with Pending => set_ready Rejected s | _ => s end.
Definition resolveReady (s : state) : state := match ready s with Pending => set_ready Resolved s | _ => s end.
Definition fireFatal (e : cerr) (s : state) : state :=
  if fatalFired s then s
  else emit (AFatal e) (end_repl (rejectReady (set_fatalFired true s))).
(** fireFatal(e); return *)
Definition out_of_retries (e : cerr) (s : state) : state := set_at_phase PDone (fireFatal e s).
(** [(e as Error).message]: null has none. *)
Definition has_message (e : cerr) : bool := match e with Nullish => false | _ => true end.
Definition no_message : cerr := Repl (RJs (TypeError (js "Cannot read properties of null (reading 'message')"))).

(** The outer catch. *)
Definition outer (raw : cerr) (s : state) : state :=
  let s := end_repl s in
  if stopping s then set_at_phase PDone s
  else
    let e := match durableName with Some n => if is_pg "42704" raw then SlotInvalidatedError n CAbsent else raw | None => raw end in
    let s := rejectReady s in
    if isPermanentFailure e && negb (isRecreatable e) then out_of_retries e s
    else
      let s := set_attempt (attempt s + 1) s in
      match retryDelayMs opts (attempt s) e with
      | inl e' => out_of_retries e' s
      | inr None => out_of_retries e s
      | inr (Some d) =>
        if has_message e then set_at_phase (PSleep SReconnect) (emit (AWarn (ReconnectAttempt (attempt s) d e)) s)
        else out_of_retries no_message s
      end.
(** if (stopping) throw STOP *)
Definition unless_stopped (k : state -> state) (s : state) : state := if stopping s then outer STOP s else k s.

Definition connect (force : bool) (ph : phase) (s : state) : state := set_at_phase ph (emit (AConnect force) s).
Definition session (s : state) : state := connect (derivedKeepAlive s) PConnect (set_sessions (sessions s + 1) s).
Definition command (sql : jstr) (ph : phase) (s : state) : state := set_at_phase ph (emit (ACommand sql) s).

Definition health_sql (name : jstr) : jstr :=
  js "select active, active_pid, wal_status, confirmed_flush_lsn, restart_lsn from pg_replication_slots where slot_name = '" ++ name ++ js "' and slot_type = 'logical'".
Definition poll_sql (name : jstr) : jstr := js "select active from pg_replication_slots where slot_name = '" ++ name ++ js "'".
Definition wst_sql : jstr := js "select setting::int from pg_settings where name = 'wal_sender_timeout'".
Definition cell (name : string) (r : Rows_) (row : list (option jstr)) : option jstr :=
  match List.find (fun p => bool_decide (p.1 = js name)) (zip r.1 row) with Some (_, v) => v | None => None end.

Definition set_resumed (r : option Resumed) (s : state) : state :=
  let l := locals s in set_locals (mkLocals (l_wst l) (l_name l) r (l_recreate l) (l_created l)) s.
Definition set_recreate (e : option cerr) (s : state) : state :=
  let l := locals s in set_locals (mkLocals (l_wst l) (l_name l) (l_resumed l) e (l_created l)) s.
Definition set_created (c : Created) (s : state) : state :=
  let l := locals s in set_locals (mkLocals (l_wst l) (l_name l) (l_resumed l) (l_recreate l) c) s.

(** ** The stream *)

(** [Math.max(10_000, wst * 0.75)], in quarters of a millisecond. *)
Definition derivedStatus4 (wst : option Z) : option Z := (fun w => Z.max 40000 (w * 3)) <$> wst.
Definition derivedReceive (wst : option Z) : option Z := match wst with Some w => if w =? 0 then None else Some (Z.max 60000 (w * 2)) | None => None end.
Definition start (slot : jstr) (s : state) : state :=
  let wst := l_wst (locals s) in
  let o := mkStream slot (o_publications opts)
             (match o_statusIntervalMs opts with Some ms => Some (ms * 4) | None => derivedStatus4 wst end)
             (match o_receiveTimeoutMs opts with Some ms => Some ms | None => derivedReceive wst end) in
  set_at_phase (PStream Batching_init) (set_window None (set_trace (mkTrace [] [] (completed (trace s))) (emit (AStart o) s))).

(** ** Callbacks *)

Definition call_handler (b : TransactionBatch) (g : Batching) (s : state) : state := set_at_phase (PCall (CHandler b g) false) (emit (AHandle b) s).
Definition isReconnect (s : state) : bool := 1 <? sessions s.
Definition call_backfill (s : state) : state :=
  let c := l_created (locals s) in
  let again := isReconnect s || match l_recreate (locals s) with Some _ => true | None => false end in
  set_at_phase (PCall CBackfill false) (emit (ABackfill (c_snapshot c) (c_point c) again) s).
(** track(): the promise is the current one until it settles. *)
Definition promised (s : state) : state :=
  match at_phase s with PCall c false => set_current true (set_at_phase (PCall c true) s) | _ => s end.

(** A failed callback: the budget, then the pause before it is called again. *)
Definition retry_in_place (e : cerr) (k : sleeper) (s : state) : state :=
  let s := set_attempt (attempt s + 1) s in
  match retryDelayMs opts (attempt s) e with
  | inl e' => outer e' s
  | inr None => out_of_retries e s
  | inr (Some d) =>
    if has_message e then set_at_phase (PSleep k) (emit (AWarn (ReconnectAttempt (attempt s) d e)) s) else outer no_message s
  end.

(** ** Administration of the slot *)

Definition after_recreate (s : state) : state :=
  match l_resumed (locals s) with
  | Some _ => start (l_name (locals s)) s
  | None => set_at_phase PCreate (emit (ACreateSlot (l_name (locals s)) (negb isDurable)) s)
  end.
Definition recreate_stage (s : state) : state :=
  match l_recreate (locals s) with
  | None => after_recreate s
  | Some e =>
    let s := set_attempt (attempt s + 1) s in
    match retryDelayMs opts (attempt s) e with
    | inl e' => outer e' s
    | inr None => out_of_retries e s
    | inr (Some _) => set_at_phase (PSleep SRecreate) s
    end
  end.
Definition after_health (s : state) : state :=
  unless_stopped (fun s =>
    match l_resumed (locals s) with
    | Some r => if has_onResume opts then set_at_phase (PCall CResume false) (emit (AResume r (isReconnect s)) s) else recreate_stage s
    | None => recreate_stage s
    end) s.
(** The catch around the checks of a durable slot. *)
Definition durable_failed (e : cerr) (s : state) : state :=
  if isRecreatable e then after_health (set_recreate (Some e) s) else outer e s.
(** if (stopping) throw STOP, inside that try: STOP is not recreatable. *)
Definition check_health (ev : Z) (s : state) : state := command (health_sql (l_name (locals s))) (PHealth ev) s.
Definition drop_slot (deadline : Z) (s : state) : state := set_at_phase (PDrop deadline) (emit (ADropSlot (l_name (locals s))) s).
Definition poll (pid : num) (deadline ev : Z) (s : state) : state := command (poll_sql (l_name (locals s))) (PPoll pid deadline ev) s.
Definition on_health (ev : Z) (r : Rows_) (s : state) : state :=
  unless_stopped (fun s =>
    match r.2 with
    | [] => if sawSlot s then durable_failed (SlotInvalidatedError (l_name (locals s)) CAbsent) s else after_health s
    | row :: _ =>
      let s := set_sawSlot true s in
      let name := l_name (locals s) in
      if bool_decide (cell "wal_status" r row = Some (js "lost")) then durable_failed (SlotInvalidatedError name CWalLost) s
      else match cell "confirmed_flush_lsn" r row with
           | None => durable_failed (SlotInvalidatedError name CNoConfirmedFlush) s
           | Some lsn =>
             match (if bool_decide (cell "active" r row = Some (js "t")) then cell "active_pid" r row else None) with
             | Some p =>
               let pid := Number p in
               if negb (onSlotBusy_evict opts) || (3 <? ev + 1) then durable_failed (SlotBusyError name pid) s
               else match int_of pid with
                    | None => durable_failed (SlotBusyError name pid) s
                    | Some _ => command (js "select pg_terminate_backend(" ++ num_str pid ++ js ")") (PTerminate pid (ev + 1)) s
                    end
             | None => after_health (set_resumed (Some (mkResumed lsn (cell "restart_lsn" r row))) s)
             end
           end
    end) s.
Definition on_poll (now : Z) (pid : num) (deadline ev : Z) (r : Rows_) (s : state) : state :=
  let name := l_name (locals s) in
  match r.2 with
  | [] => durable_failed (SlotInvalidatedError name CAbsent) s
  | row :: _ =>
    if bool_decide (head row = Some (Some (js "f"))) then unless_stopped (check_health ev) (emit (AWarn (SlotEvicted name pid)) s)
    else if deadline <=? now then durable_failed (SlotBusyError name pid) s
    else set_at_phase (PSleep (SPoll pid deadline ev)) s
  end.
Definition on_drop (now : Z) (deadline : Z) (r : cerr + unit) (s : state) : state :=
  match r with
  | inr _ => unless_stopped after_recreate s
  | inl e =>
    if is_pg "42704" e then unless_stopped after_recreate s
    else if negb (is_pg "55006" e) || (deadline <=? now) then outer e s
    else set_at_phase (PSleep (SDrop deadline)) s
  end.

(** ** Connecting *)

Definition wst_of (r : Rows_) : option Z := match r.2 with ((Some t :: _) :: _) => int_of (Number t) | _ => None end.
Definition after_wst (s : state) : state :=
  let zero := bool_decide (l_wst (locals s) = Some 0) in
  let s := set_derivedKeepAlive (zero && negb consumerSetKeepAlive) s in
  let s := if zero then emit (AWarn (WalSenderTimeoutDisabled (match url opts with UrlConfig k => k | UrlString => None end))) s else s in
  if isDurable then set_at_phase PIdentify (emit AIdentify s) else after_health s.
Definition on_wst (r : Rows_) (s : state) : state :=
  let name := default (tempSlotName (sessions s)) durableName in
  let s := set_locals (mkLocals (wst_of r) name None None no_created) s in
  unless_stopped (fun s =>
    if bool_decide (wst_of r = Some 0) && negb consumerSetKeepAlive && negb (derivedKeepAlive s)
    then connect true PReconnect (end_repl s) else after_wst s) s.
Definition connected (k : state -> state) (s : state) : state :=
  unless_stopped k (set_repl (Some (opened s)) (set_opened (S (opened s)) s)).
Definition on_identify (systemId : jstr) (timeline : Z) (s : state) : state :=
  if match lastIdentity s with Some i => negb (bool_decide (i = (systemId, timeline))) | None => false end
  then durable_failed (SlotInvalidatedError (l_name (locals s)) CSystemChanged) s
  else unless_stopped (check_health 0) (set_lastIdentity (Some (systemId, timeline)) s).

(** ** What a callback's outcome leads to *)

Definition clear_window (s : state) : state := set_window None s.
Definition ack_pending (s : state) : state :=
  match pendingAckLsn s with Some lsn => set_pendingAckLsn None (emit (AAck lsn) s) | None => s end.
Definition abort_window (r : window_reason) (s : state) : state :=
  match window s with Some (mkWindow None armed) => set_window (Some (mkWindow (Some r) armed)) s | _ => s end.
Definition abort (s : state) : state := abort_window WStopped (set_aborted true s).
(** doStop() after the promise it awaits has settled; it runs before run() does. *)
Definition stop_settled (ok : bool) (s : state) : state :=
  match stopper s with
  | AwaitHandler => set_stopper Stopped (end_repl (abort (if ok then ack_pending s else s)))
  | AwaitOther => set_stopper Stopped (end_repl s)
  | _ => s
  end.
Definition backfill_failed (e : cerr) (s : state) : state :=
  match window s with
  | Some (mkWindow (Some WTimeout) _) => outer BackfillTimeoutError (clear_window s)
  | _ =>
    if stopping s then outer STOP (clear_window s)
    else let s := retry_in_place e SBackfill s in match at_phase s with PSleep SBackfill => s | _ => clear_window s end
  end.
Definition on_backfill (r : cerr + bool) (s : state) : state :=
  match r with
  | inl e => backfill_failed e s
  | inr _ =>
    match window s with
    | Some (mkWindow (Some WTimeout) _) => backfill_failed BackfillTimeoutError s
    | Some (mkWindow (Some WStopped) _) => backfill_failed AbortError s
    | _ => start (c_slot (l_created (locals s))) s
    end
  end.
Definition on_resume (r : cerr + bool) (s : state) : state :=
  match r with
  | inl e => outer e s
  | inr true => recreate_stage (set_resumed None (set_recreate (Some Recreate) s))
  | inr false => recreate_stage s
  end.
Definition note_handled (b : TransactionBatch) (s : state) : state :=
  let t := trace s in set_trace (mkTrace (seen t) (handled t ++ [b]) (completed t ++ [b])) s.
Definition on_handled (g : Batching) (s : state) : state :=
  let s := match pendingAckLsn s with Some _ => set_attempt 0 (ack_pending s) | None => s end in
  set_at_phase (PStream g) (set_handling false s).
Definition settled (r : cerr + bool) (s : state) : state :=
  match at_phase s with
  | PCall c p =>
    let ok := match r with inr _ => true | inl _ => false end in
    if negb p && ok then s
    else
      let s := set_current false s in
      let s := match c, r with CHandler b _, inr _ => note_handled b s | _, _ => s end in
      let s := stop_settled ok s in
      match c with
      | CResume => on_resume r s
      | CBackfill => on_backfill r s
      | CHandler b g => match r with
                        | inr _ => on_handled g s
                        | inl e => unless_stopped (retry_in_place e (SHandler b g)) s
                        end
      end
  | _ => s
  end.
Definition on_event (e : ReplicationEvent) (g : Batching) (s : state) : state :=
  let t := trace s in
  let s := set_trace (mkTrace (seen t ++ [e]) (handled t) (completed t)) s in
  match batch_step (maxTransactionEvents opts) e g with
  | (g', None) => set_at_phase (PStream g') s
  | (g', Some b) => unless_stopped (fun s => call_handler b g' (set_pendingAckLsn (endLsn <$> b_done b) (set_handling true s))) s
  end.
Definition on_created (c : Created) (s : state) : state :=
  let s := set_created c (if isDurable then set_sawSlot true s else s) in
  unless_stopped (fun s => call_backfill (set_window (Some (mkWindow None (match backfillTimeoutMs opts with Some _ => true | None => false end))) s)) s.

Definition woken (now : Z) (s : state) : state :=
  match at_phase s with
  | PSleep SReconnect => if stopping s then set_at_phase PDone s else session s
  | PSleep SRecreate => unless_stopped (drop_slot (now + 3000)) s
  | PSleep (SPoll pid deadline ev) => poll pid deadline ev s
  | PSleep (SDrop deadline) => drop_slot deadline s
  | PSleep SBackfill => if stopping s then outer STOP (clear_window s) else call_backfill s
  | PSleep (SHandler b g) => unless_stopped (call_handler b g) s
  | _ => s
  end.
Definition stop (s : state) : state :=
  match stopper s with
  | NotStopped =>
    let s := rejectReady (set_stopping true s) in
    if handling s then
      if current s then set_stopper AwaitHandler s else set_stopper Stopped (end_repl (abort s))
    else
      let s := abort s in
      if current s then set_stopper AwaitOther s else set_stopper Stopped (end_repl s)
  | _ => s
  end.

(** ** Events *)

Inductive event :=
| Begin
| Connected (r : cerr + unit)
| Answer (now : Z) (r : cerr + Rows_)
| Identified (r : cerr + (jstr * Z))
| Dropped (now : Z) (r : cerr + unit)
| CreatedSlot (r : cerr + Created)
| Promised
| Settled (r : cerr + bool)
| Woken (now : Z)
| BackfillDeadline
| StreamReady
| StreamEvent (e : ReplicationEvent)
| StreamDone
| StreamFailed (e : cerr)
| Stop.

Definition on_answer (now : Z) (r : cerr + Rows_) (s : state) : state :=
  match at_phase s, r with
  | PWst, inr r => on_wst r s
  | PWst, inl e => outer e s
  | PHealth ev, inr r => on_health ev r s
  | PHealth _, inl e => durable_failed (if is_pg "42703" e then UnsupportedServerVersionError else e) s
  | PTerminate pid ev, inr _ => poll pid (now + 3000) ev s
  | PTerminate _ _, inl e => durable_failed e s
  | PPoll pid deadline ev, inr r => on_poll now pid deadline ev r s
  | PPoll _ _ _, inl e => durable_failed e s
  | _, _ => s
  end.
Definition step (e : event) (s : state) : state :=
  match e, at_phase s with
  | Begin, PInit => if stopping s then set_at_phase PDone s else session s
  | Connected (inr _), PConnect => connected (command wst_sql PWst) s
  | Connected (inr _), PReconnect => connected after_wst s
  | Connected (inl e), PConnect | Connected (inl e), PReconnect => outer e s
  | Answer now r, _ => on_answer now r s
  | Identified (inr (i, t)), PIdentify => on_identify i t s
  | Identified (inl e), PIdentify => durable_failed e s
  | Dropped now r, PDrop deadline => on_drop now deadline r s
  | CreatedSlot (inr c), PCreate => on_created c s
  | CreatedSlot (inl e), PCreate => outer e s
  | Promised, _ => promised s
  | Settled r, _ => settled r s
  | Woken now, _ => woken now s
  | BackfillDeadline, _ =>
    match window s with
    | Some (mkWindow r true) => emit (AWarn BackfillTimeout) (set_window (Some (mkWindow (match r with None => Some WTimeout | r => r end) false)) s)
    | _ => s
    end
  | StreamReady, PStream _ => resolveReady s
  | StreamEvent e, PStream g => on_event e g s
  | StreamDone, PStream _ => set_at_phase PDone (end_repl s)
  | StreamFailed e, PStream _ => outer e s
  | Stop, _ => stop s
  | _, _ => s
  end.
Definition run (es : list event) (s : state) : state := foldl (fun s e => step e s) s es.
End Session.
