(* ===== verification/CdcProofs.v ===== *)
(** * What a managed replication session guarantees

    A position is acknowledged only when the handler of its transaction has resolved, transactions are handled
    in the order of the stream, nothing is sent between the creation of a slot and the start of its stream, and
    after stop() the consumer hears nothing more. *)

From S2P Require Import Prelude Utf8 Text Buf Num Dates Value NumText Json JsonBig ExtTypes ArrayText Temporal Protocol Framing Messages Parse Errors Encode Decode BinTuple PgOutput Replication Cdc.

(** ** Transactions *)

(** The batches of a list of events, and what the generator is left with. *)
Definition batches (max : option Z) (es : list ReplicationEvent) : Batching * list TransactionBatch :=
  foldl (fun st e => let '(g, b) := batch_step max e st.1 in (g, st.2 ++ match b with Some b => [b] | None => [] end)) (Batching_init, []) es.
Lemma batches_snoc max es e :
  batches max (es ++ [e]) = let '(g, b) := batch_step max e (batches max es).1 in (g, (batches max es).2 ++ match b with Some b => [b] | None => [] end).
Proof. unfold batches. by rewrite foldl_app. Qed.

(** A transaction on the stream: its changes, with whatever non-transactional messages arrive among them. *)
Record Transaction := mkTransaction {
  t_xid : Z; t_time : option Z; t_us : num; t_final : jstr; t_body : list ReplicationEvent; t_commit : Commit }.
Definition tx_events (t : Transaction) : list ReplicationEvent :=
  EvBegin (t_xid t) (t_time t) (t_us t) (t_final t) :: t_body t
  ++ [EvCommit (commitLsn (t_commit t)) (endLsn (t_commit t)) (commitTime (t_commit t)) (commitTimeUs (t_commit t))].
Definition no_boundary (e : ReplicationEvent) : Prop := match e with EvBegin _ _ _ _ | EvCommit _ _ _ _ => False | _ => True end.
Definition kept (e : ReplicationEvent) : bool := match e with EvMessage false _ _ _ => false | _ => true end.
(** Full chunks, then the rest with the commit. *)
Definition tx_batches (max : option Z) (t : Transaction) (l : list TransactionBatch) : Prop :=
  exists fulls rest,
    l = ((fun es => mkBatch (t_xid t) es None) <$> fulls) ++ [mkBatch (t_xid t) rest (Some (t_commit t))]
    /\ concat fulls ++ rest = List.filter kept (t_body t)
    /\ match max with
       | Some m => if 0 <? m then Forall (fun es => Z.of_nat (length es) = m) fulls /\ Z.of_nat (length rest) < m else fulls = []
       | None => fulls = []
       end.
Lemma batches_body max xid body : Forall no_boundary body -> forall g es out, batches max es = (g, out) -> g_xid g = xid ->
  (match max with Some m => if 0 <? m then Z.of_nat (length (g_events g)) < m else True | None => True end) ->
  exists fulls rest, batches max (es ++ body) = (mkBatching xid rest, out ++ ((fun es => mkBatch xid es None) <$> fulls))
    /\ concat fulls ++ rest = g_events g ++ List.filter kept body
    /\ match max with
       | Some m => if 0 <? m then Forall (fun es => Z.of_nat (length es) = m) fulls /\ Z.of_nat (length rest) < m else fulls = []
       | None => fulls = []
       end.
Proof.
  intros Hb. induction Hb as [|e body He _ IH]; intros g es out Eg Hx Hm.
  - exists [], (g_events g). rewrite !app_nil_r, Eg. subst xid. destruct g. split; [done|]. split; [done|]. destruct max as [m|]; [|done]. by destruct (0 <? m).
  - rewrite (cons_middle e es body), app_assoc. pose proof (batches_snoc max es e) as Es. rewrite Eg in Es. cbn [fst snd] in Es.
    assert (forall evs, g_events g ++ [e] = evs -> kept e = true ->
      batch_step max e g = (if full max (length evs) then (mkBatching (g_xid g) [], Some (mkBatch (g_xid g) evs None)) else (mkBatching (g_xid g) evs, None)) ->
      exists fulls rest, batches max ((es ++ [e]) ++ body) = (mkBatching xid rest, out ++ ((fun es => mkBatch xid es None) <$> fulls))
        /\ concat fulls ++ rest = g_events g ++ List.filter kept (e :: body)
        /\ match max with
           | Some m => if 0 <? m then Forall (fun es => Z.of_nat (length es) = m) fulls /\ Z.of_nat (length rest) < m else fulls = []
           | None => fulls = []
           end) as G.
    { intros evs Ee Hk Hst. rewrite Hst in Es. cbn [List.filter]. rewrite Hk. destruct (full max (length evs)) eqn:Ef.
      - destruct (IH _ _ _ Es Hx) as (fulls & rest & H1 & H2 & H3); [destruct max as [m|]; [|done]; cbn; by destruct (Z.ltb_spec 0 m)|].
        exists (evs :: fulls), rest. rewrite H1, <- app_assoc, fmap_cons, Hx. split; [done|]. cbn [concat g_events app] in *. rewrite <- app_assoc, H2, <- Ee, <- app_assoc.
        split; [done|]. destruct max as [m|]; [|done]. subst evs. unfold full in Ef. rewrite length_app in Ef. cbn [length] in Ef.
        destruct (0 <? m) eqn:E0; [|done]. rewrite ?E0 in Ef, Hm. cbn [andb] in Ef. destruct H3 as [H3 H4]. split; [|done]. constructor; [|done]. rewrite length_app. cbn [length].
        apply Z.leb_le in Ef. lia.
      - rewrite app_nil_r in Es. destruct (IH _ _ _ Es Hx) as (fulls & rest & H1 & H2 & H3).
        { destruct max as [m|]; [|done]. unfold full in Ef. cbn [g_events]. destruct (0 <? m) eqn:E0; [|done]. rewrite ?E0 in Ef, Hm. cbn [andb] in Ef. apply Z.leb_gt in Ef. lia. }
        exists fulls, rest. cbn [g_events] in H2. rewrite H1, H2, <- Ee, <- app_assoc. done. }
    destruct e as [xid' t us f|l e' t us|sc tb n|sc tb n u k o|sc tb o k|ts c r|[|] p c l|r]; try done; try by apply (G _ eq_refl eq_refl).
    cbn [batch_step] in Es. rewrite app_nil_r in Es. destruct (IH _ _ _ Es Hx Hm) as (fulls & rest & H1 & H2 & H3). exists fulls, rest. done.
Qed.

(** The batches of a stream of transactions are, transaction by transaction, its transactional events in
    order: full chunks of maxEvents without a position, then what is left, possibly nothing, with the commit's. *)
Theorem batches_exact max txs : Forall (fun t => Forall no_boundary (t_body t)) txs ->
  exists parts, (batches max (concat (tx_events <$> txs))).2 = concat parts /\ Forall2 (tx_batches max) txs parts.
Proof.
  induction txs as [|t txs IH] using rev_ind; intros Ht; [by exists []|]. apply Forall_app in Ht as [Ht1 Ht2]. apply Forall_inv in Ht2.
  destruct (IH Ht1) as (parts & E & F). rewrite fmap_app, concat_app. cbn [fmap list_fmap concat]. rewrite app_nil_r. unfold tx_events at 2.
  set (es := concat (tx_events <$> txs)) in *. destruct (batches max es) as [g out] eqn:Eg. cbn [snd] in E.
  pose proof (batches_snoc max es (EvBegin (t_xid t) (t_time t) (t_us t) (t_final t))) as Eb. rewrite Eg in Eb. cbn [fst snd batch_step] in Eb. rewrite app_nil_r in Eb.
  destruct (batches_body max (t_xid t) (t_body t) Ht2 _ _ _ Eb eq_refl) as (fulls & rest & H1 & H2 & H3);
    [destruct max as [m|]; [|done]; cbn; by destruct (Z.ltb_spec 0 m)|].
  exists (parts ++ [((fun es => mkBatch (t_xid t) es None) <$> fulls) ++ [mkBatch (t_xid t) rest (Some (t_commit t))]]). split.
  - rewrite (cons_middle _ es), !app_assoc, batches_snoc, H1. cbn [fst snd batch_step g_xid g_events].
    rewrite concat_app, E. cbn [concat]. rewrite app_nil_r, <- !app_assoc. do 2 f_equal. by destruct (t_commit t) as [].
  - apply Forall2_app; [done|]. constructor; [|constructor]. exists fulls, rest. by split.
Qed.

(** ** The log *)

(** Whether a slot was created whose stream has not started; [None] when something was sent to the connection
    in between. *)
Definition window_step (w : option bool) (a : action) : option bool :=
  match w, a with
  | None, _ => None
  | Some _, AConnect _ | Some _, AStart _ => Some false
  | Some true, (ACommand _ | AIdentify | ACreateSlot _ _ | ADropSlot _ | AAck _) => None
  | Some false, ACreateSlot _ _ => Some true
  | Some w, _ => Some w
  end.
Definition window_state (l : list action) : option bool := foldl window_step (Some false) l.
Definition acks (l : list action) : list jstr := omap (fun a => match a with AAck x => Some x | _ => None end) l.
Definition justified (done : list TransactionBatch) (lsn : jstr) : Prop := exists b c, b ∈ done /\ b_done b = Some c /\ endLsn c = lsn.

Section Invariant.
Context (opts : ReplicateOptions) (random : Z -> jstr).
Context (Hretry : forall n e, exists d, retryDelayMs opts n e = inr d).
Abbreviation max := (maxTransactionEvents opts).
Abbreviation step := (step opts random).
Abbreviation run := (run opts random).

Definition calm (s : state) : Prop := current s = false /\ (stopper s = NotStopped \/ stopper s = Stopped).
Definition free (s : state) : Prop := handling s = false /\ pendingAckLsn s = None.
Definition pending_of (b : TransactionBatch) (s : state) : Prop := pendingAckLsn s = None \/ pendingAckLsn s = endLsn <$> b_done b.
Definition at_stream (g : Batching) (l : list TransactionBatch) (s : state) : Prop := batches max (seen (trace s)) = (g, l).
Definition sent_ok (s : state) : Prop := Forall (justified (completed (trace s))) (acks (log s)) /\ window_state (log s) <> None.
Definition outside (s : state) : Prop := window_state (log s) = Some false.

Definition phase_inv (s : state) : Prop :=
  match at_phase s with
  | PDone => calm s
  | PInit | PConnect | PWst | PReconnect | PIdentify | PHealth _ | PTerminate _ _ | PPoll _ _ _ | PDrop _ => calm s /\ free s /\ outside s
  | PCreate | PSleep SBackfill => calm s /\ free s
  | PSleep SReconnect => calm s /\ free s
  | PCall CResume p => free s /\ outside s /\ current s = p /\ stopper s <> AwaitHandler /\ (stopper s = AwaitOther -> p = true)
  | PCall CBackfill p => free s /\ current s = p /\ stopper s <> AwaitHandler /\ (stopper s = AwaitOther -> p = true)
  | PCall (CHandler b g) p =>
    handling s = true /\ pending_of b s /\ outside s /\ at_stream g (handled (trace s) ++ [b]) s /\ current s = p /\ stopper s <> AwaitOther
    /\ (stopper s = AwaitHandler -> p = true)
  | PSleep (SHandler b g) => calm s /\ handling s = true /\ pending_of b s /\ outside s /\ at_stream g (handled (trace s) ++ [b]) s
  | PSleep _ => calm s /\ free s /\ outside s
  | PStream g => calm s /\ free s /\ outside s /\ at_stream g (handled (trace s)) s
  end.
Definition Inv (s : state) : Prop := sent_ok s /\ phase_inv s.

Lemma Inv_init : Inv init.
Proof. split; [split; [constructor|done]|]. repeat split; try done. by left. Qed.

(** *** What is appended to the log *)

Definition neutral (a : action) : Prop := match a with AEnd _ | AWarn _ | AFatal _ | ABackfill _ _ _ | AResume _ _ | AHandle _ => True | _ => False end.
Lemma window_snoc l a : window_state (l ++ [a]) = window_step (window_state l) a.
Proof. unfold window_state. by rewrite foldl_app. Qed.
Lemma acks_snoc l a : acks (l ++ [a]) = acks l ++ match a with AAck x => [x] | _ => [] end.
Proof. unfold acks. rewrite omap_app. by destruct a. Qed.
Lemma window_neutral l a : neutral a -> window_state (l ++ [a]) = window_state l.
Proof. rewrite window_snoc. destruct a; try done; intros _; destruct (window_state l) as [[|]|]; done. Qed.
Lemma acks_neutral l a : neutral a -> acks (l ++ [a]) = acks l.
Proof. rewrite acks_snoc. destruct a; try done; intros _; by rewrite app_nil_r. Qed.
Lemma sent_neutral a s : neutral a -> sent_ok s -> sent_ok (emit a s).
Proof. intros Ha [H1 H2]. split; cbn; [by rewrite acks_neutral|by rewrite window_neutral]. Qed.
Lemma outside_neutral a s : neutral a -> outside s -> outside (emit a s).
Proof. intros Ha Ho. unfold outside. cbn. by rewrite window_neutral. Qed.

(** The parts that the invariant reads are the same. *)
Definition same (s s' : state) : Prop :=
  handling s' = handling s /\ pendingAckLsn s' = pendingAckLsn s /\ current s' = current s /\ stopper s' = stopper s /\ trace s' = trace s
  /\ acks (log s') = acks (log s) /\ window_state (log s') = window_state (log s).
Lemma same_refl s : same s s.
Proof. done. Qed.
Lemma same_trans s1 s2 s3 : same s1 s2 -> same s2 s3 -> same s1 s3.
Proof. unfold same. intros (H1&H2&H3&H4&H5&H6&H7) (G1&G2&G3&G4&G5&G6&G7). repeat split; congruence. Qed.
Lemma same_calm s s' : same s s' -> calm s -> calm s'.
Proof. intros (H1&H2&H3&H4&H5&H6&H7). unfold calm. by rewrite H3, H4. Qed.
Lemma same_free s s' : same s s' -> free s -> free s'.
Proof. intros (H1&H2&H3&H4&H5&H6&H7). unfold free. by rewrite H1, H2. Qed.
Lemma same_outside s s' : same s s' -> outside s -> outside s'.
Proof. intros (H1&H2&H3&H4&H5&H6&H7). unfold outside. by rewrite H7. Qed.
Lemma same_sent s s' : same s s' -> sent_ok s -> sent_ok s'.
Proof. intros (H1&H2&H3&H4&H5&H6&H7). unfold sent_ok. by rewrite H5, H6, H7. Qed.
Lemma same_emit a s : neutral a -> same s (emit a s).
Proof. intros Ha. repeat split; cbn; [by apply acks_neutral|by apply window_neutral]. Qed.
Lemma same_end s : same s (end_repl s).
Proof. unfold end_repl. destruct (repl s); [by apply same_emit|done]. Qed.
Lemma same_reject s : same s (rejectReady s).
Proof. unfold rejectReady. by destruct (ready s). Qed.
Lemma same_fatal e s : same s (fireFatal e s).
Proof.
  unfold fireFatal. destruct (fatalFired s); [done|]. eapply same_trans; [|by apply same_emit]. eapply same_trans; [|apply same_end].
  eapply same_trans; [|apply same_reject]. done.
Qed.
#[local] Hint Resolve same_refl same_calm same_free same_outside same_sent same_end same_reject same_fatal : core.

Lemma Inv_done s : sent_ok s -> calm s -> Inv (set_at_phase PDone s).
Proof. done. Qed.
Lemma Inv_give_up e s : sent_ok s -> calm s -> Inv (out_of_retries e s).
Proof. intros H1 H2. pose proof (same_fatal e s). unfold out_of_retries. apply Inv_done; eauto. Qed.
(** In the outer catch, nothing is being handled unless the session is being stopped. *)
Lemma Inv_outer e s : sent_ok s -> calm s -> free s \/ stopping s = true -> Inv (outer opts e s).
Proof.
  intros H1 H2 H3. pose proof (same_end s) as Hs. unfold outer. assert (stopping (end_repl s) = stopping s) as Es by (unfold end_repl; by destruct (repl s)).
  rewrite Es. destruct (stopping s); [apply Inv_done; eauto|]. destruct H3 as [H3|]; [|done]. generalize dependent (end_repl s). intros s1 Hs _.
  set (e1 := match durableName opts with Some _ => _ | None => _ end). pose proof (same_trans _ _ _ Hs (same_reject s1)) as Hr.
  generalize dependent (rejectReady s1). intros s2 Hr. destruct (isPermanentFailure e1 && _); [apply Inv_give_up; eauto|].
  assert (same s (set_attempt (attempt s2 + 1) s2)) as Ha by done. generalize dependent (set_attempt (attempt s2 + 1) s2). intros s3 Ha.
  destruct (retryDelayMs opts (attempt s3) e1) as [e'|[d|]]; try (apply Inv_give_up; eauto).
  destruct (has_message e1); [|apply Inv_give_up; eauto]. pose proof (same_trans _ _ _ Ha (same_emit (AWarn (ReconnectAttempt (attempt s3) d e1)) s3 I)) as Hw.
  generalize dependent (emit (AWarn (ReconnectAttempt (attempt s3) d e1)) s3). intros s4 Hw. repeat split; try (by eapply same_sent || by eapply same_calm || by eapply same_free).
  all: destruct (same_sent _ _ Hw H1), (same_calm _ _ Hw H2), (same_free _ _ Hw H3); done.
Qed.
Lemma Inv_unless k s : sent_ok s -> calm s -> free s -> (stopping s = false -> Inv (k s)) -> Inv (unless_stopped opts k s).
Proof. intros H1 H2 H3 Hk. unfold unless_stopped. destruct (stopping s) eqn:Es; [by apply Inv_outer; auto|auto]. Qed.

(** *** Sessions up to the stream *)

(** Between sessions, and while the slot is looked after. *)
Definition idle (s : state) : Prop := sent_ok s /\ calm s /\ free s.
Definition busy (s : state) : Prop := idle s /\ outside s.
Lemma same_idle s s' : same s s' -> idle s -> idle s'.
Proof. intros Hs (H1 & H2 & H3). split; [eauto|]. split; eauto. Qed.
Lemma same_busy s s' : same s s' -> busy s -> busy s'.
Proof. intros Hs (H1 & H2). split; [by eapply same_idle|eauto]. Qed.
Lemma busy_idle s : busy s -> idle s.
Proof. by intros [? _]. Qed.
#[local] Hint Resolve busy_idle : core.
Lemma idle_unless k s : idle s -> (stopping s = false -> Inv (k s)) -> Inv (unless_stopped opts k s).
Proof. intros (H1 & H2 & H3). by apply Inv_unless. Qed.
Lemma idle_outer e s : idle s -> Inv (outer opts e s).
Proof. intros (H1 & H2 & H3). apply Inv_outer; auto. Qed.
Lemma idle_give_up e s : idle s -> Inv (out_of_retries e s).
Proof. intros (H1 & H2 & H3). by apply Inv_give_up. Qed.

(** A command is not an acknowledgement, and goes out of no window. *)
Definition is_command (a : action) : Prop := match a with ACommand _ | AIdentify | ADropSlot _ => True | _ => False end.
Lemma busy_command a s : is_command a -> busy s -> busy (emit a s).
Proof.
  intros Ha (((A1 & A2) & H2 & H3) & H4). unfold outside in H4. split; [split; [split|split; [exact H2|exact H3]]|].
  - cbn. rewrite acks_snoc. destruct a; try done; by rewrite app_nil_r.
  - cbn. rewrite window_snoc, H4. by destruct a.
  - unfold outside. cbn. rewrite window_snoc, H4. by destruct a.
Qed.
Lemma busy_at ph s : busy s ->
  match ph with PInit | PConnect | PWst | PReconnect | PIdentify | PHealth _ | PTerminate _ _ | PPoll _ _ _ | PDrop _ => True
  | PSleep (SRecreate | SPoll _ _ _ | SDrop _) => True | _ => False end -> Inv (set_at_phase ph s).
Proof. intros ((H1 & H2 & H3) & H4) Hp. split; [exact H1|]. destruct ph as [| | | | | | | | | |c p|[]| |]; done. Qed.
Lemma Inv_command sql ph s : busy s -> match ph with PWst | PHealth _ | PTerminate _ _ | PPoll _ _ _ => True | _ => False end -> Inv (command sql ph s).
Proof. intros Hb Hp. apply busy_at; [by apply busy_command|by destruct ph]. Qed.
Lemma idle_connect force s : idle s -> busy (emit (AConnect force) s).
Proof.
  intros ((A1 & A2) & H2 & H3). split; [split; [split|split; [exact H2|exact H3]]|]; cbn.
  - by rewrite acks_snoc, app_nil_r.
  - rewrite window_snoc. by destruct (window_state (log s)) as [[|]|].
  - unfold outside. cbn. rewrite window_snoc. by destruct (window_state (log s)) as [[|]|].
Qed.
Lemma Inv_connect force ph s : idle s -> ph = PConnect \/ ph = PReconnect -> Inv (connect force ph s).
Proof. intros Hi [-> | ->]; apply busy_at; by (apply idle_connect || done). Qed.
Lemma Inv_session s : idle s -> Inv (session s).
Proof. intros Hi. apply Inv_connect; [|by left]. by eapply same_idle; [|exact Hi]. Qed.
Lemma Inv_start slot s : idle s -> Inv (start opts slot s).
Proof.
  intros ((A1 & A2) & H2 & H3). unfold start. set (o := mkStream _ _ _ _). clearbody o. split; [split|split; [exact H2|split; [exact H3|split]]]; cbn.
  - by rewrite acks_snoc, app_nil_r.
  - rewrite window_snoc. by destruct (window_state (log s)) as [[|]|].
  - unfold outside. cbn. rewrite window_snoc. by destruct (window_state (log s)) as [[|]|].
  - done.
Qed.
Lemma Inv_after_recreate s : busy s -> Inv (after_recreate opts s).
Proof.
  intros (Hi & Ho). unfold after_recreate. destruct (l_resumed (locals s)); [by apply Inv_start|]. destruct Hi as ((A1 & A2) & H2 & H3). unfold outside in Ho.
  split; [split|by split]; cbn; [by rewrite acks_snoc, app_nil_r|by rewrite window_snoc, Ho].
Qed.
Lemma Inv_recreate_stage s : busy s -> Inv (recreate_stage opts s).
Proof.
  intros Hb. unfold recreate_stage. destruct (l_recreate (locals s)) as [e|]; [|by apply Inv_after_recreate].
  assert (busy (set_attempt (attempt s + 1) s)) as Ha by (by eapply same_busy; [|exact Hb]). generalize dependent (set_attempt (attempt s + 1) s). intros s1 Ha.
  destruct (retryDelayMs opts (attempt s1) e) as [e'|[d|]]; [apply idle_outer; auto|by apply busy_at|apply idle_give_up; auto].
Qed.
Lemma Inv_after_health s : busy s -> Inv (after_health opts s).
Proof.
  intros Hb. apply idle_unless; [auto|]. intros _. destruct (l_resumed (locals s)) as [r|]; [|by apply Inv_recreate_stage].
  destruct (has_onResume opts); [|by apply Inv_recreate_stage]. assert (busy (emit (AResume r (isReconnect s)) s)) as ((H1 & [H2 H2'] & H3) & H4).
  { eapply same_busy; [by apply same_emit|done]. }
  generalize dependent (emit (AResume r (isReconnect s)) s). intros s1 H1 H2 H2' H3 H4. split; [exact H1|]. split; [exact H3|]. split; [exact H4|].
  split; [exact H2|]. cbn. destruct H2' as [-> | ->]; done.
Qed.
Lemma Inv_durable_failed e s : busy s -> Inv (durable_failed opts e s).
Proof.
  intros Hb. unfold durable_failed. destruct (isRecreatable opts e); [|apply idle_outer; auto]. apply Inv_after_health. by eapply same_busy; [|exact Hb].
Qed.
Lemma Inv_on_health ev r s : busy s -> Inv (on_health opts ev r s).
Proof.
  intros Hb. apply idle_unless; [auto|]. intros _. destruct (r.2) as [|row rows]; [destruct (sawSlot s); [by apply Inv_durable_failed|by apply Inv_after_health]|].
  assert (busy (set_sawSlot true s)) as Ha by (by eapply same_busy; [|exact Hb]). generalize dependent (set_sawSlot true s). intros s1 Ha.
  destruct (bool_decide _); [by apply Inv_durable_failed|]. destruct (cell "confirmed_flush_lsn" r row) as [lsn|]; [|by apply Inv_durable_failed].
  destruct (if bool_decide _ then _ else _) as [p|].
  - destruct (_ || _); [by apply Inv_durable_failed|]. cbv zeta. destruct (int_of (Number p)); [by apply Inv_command|by apply Inv_durable_failed].
  - apply Inv_after_health. by eapply same_busy; [|exact Ha].
Qed.
Lemma Inv_check_health ev s : busy s -> Inv (check_health ev s).
Proof. intros Hb. by apply Inv_command. Qed.
Lemma Inv_poll pid d ev s : busy s -> Inv (poll pid d ev s).
Proof. intros Hb. by apply Inv_command. Qed.
Lemma Inv_drop_slot d s : busy s -> Inv (drop_slot d s).
Proof. intros Hb. apply busy_at; [by apply busy_command|done]. Qed.
Lemma Inv_on_poll now pid d ev r s : busy s -> Inv (on_poll opts now pid d ev r s).
Proof.
  intros Hb. unfold on_poll. destruct (r.2) as [|row rows]; [by apply Inv_durable_failed|]. destruct (bool_decide _).
  - assert (busy (emit (AWarn (SlotEvicted (l_name (locals s)) pid)) s)) as Ha by (eapply same_busy; [by apply same_emit|done]).
    generalize dependent (emit (AWarn (SlotEvicted (l_name (locals s)) pid)) s). intros s1 Ha. apply idle_unless; [auto|]. intros _. by apply Inv_check_health.
  - destruct (d <=? now); [by apply Inv_durable_failed|by apply busy_at].
Qed.
Lemma Inv_on_drop now d r s : busy s -> Inv (on_drop opts now d r s).
Proof.
  intros Hb. unfold on_drop. destruct r as [e|u]; [|apply idle_unless; [auto|intros _; by apply Inv_after_recreate]].
  destruct (is_pg "42704" e); [apply idle_unless; [auto|intros _; by apply Inv_after_recreate]|]. destruct (_ || _); [apply idle_outer; auto|by apply busy_at].
Qed.
Lemma Inv_after_wst s : busy s -> Inv (after_wst opts s).
Proof.
  intros Hb. unfold after_wst. set (zero := bool_decide _). clearbody zero.
  assert (busy (set_derivedKeepAlive (zero && negb (consumerSetKeepAlive opts)) s)) as Ha by (by eapply same_busy; [|exact Hb]).
  generalize dependent (set_derivedKeepAlive (zero && negb (consumerSetKeepAlive opts)) s). intros s1 Ha.
  set (s2 := if zero then _ else s1). assert (busy s2) as H2 by (unfold s2; destruct zero; [eapply same_busy; [by apply same_emit|done]|done]). clearbody s2.
  destruct (isDurable opts); [apply busy_at; [by apply busy_command|done]|by apply Inv_after_health].
Qed.
Lemma Inv_on_wst r s : busy s -> Inv (on_wst opts random r s).
Proof.
  intros Hb. unfold on_wst. set (l := mkLocals _ _ _ _ _). clearbody l. assert (busy (set_locals l s)) as Ha by (by eapply same_busy; [|exact Hb]).
  generalize dependent (set_locals l s). intros s1 Ha. apply idle_unless; [auto|]. intros _. destruct (_ && _); [|by apply Inv_after_wst].
  apply Inv_connect; [|by right]. eapply same_idle; [apply same_end|auto].
Qed.
Lemma Inv_connected k s : busy s -> (forall s', busy s' -> Inv (k s')) -> Inv (connected opts k s).
Proof.
  intros Hb Hk. unfold connected. set (s1 := set_repl _ _). assert (busy s1) as Ha by (by eapply same_busy; [|exact Hb]). clearbody s1.
  apply idle_unless; auto.
Qed.
Lemma Inv_on_identify i t s : busy s -> Inv (on_identify opts i t s).
Proof.
  intros Hb. unfold on_identify. destruct (match lastIdentity s with Some _ => _ | None => _ end); [by apply Inv_durable_failed|].
  set (s1 := set_lastIdentity _ s). assert (busy s1) as Ha by (by eapply same_busy; [|exact Hb]). clearbody s1. apply idle_unless; [auto|]. intros _. by apply Inv_check_health.
Qed.

(** *** Callbacks *)

Lemma Inv_same s s' : same s s' -> at_phase s' = at_phase s -> Inv s -> Inv s'.
Proof.
  intros Hs Hp [H1 H2]. split; [eauto|]. destruct Hs as (E1 & E2 & E3 & E4 & E5 & E6 & E7). unfold phase_inv in *. rewrite Hp.
  unfold calm, free, outside, pending_of, at_stream in *. by rewrite E1, E2, E3, E4, E5, E7.
Qed.
(** A batch is in the handler's hands. *)
Definition holding (b : TransactionBatch) (g : Batching) (s : state) : Prop :=
  sent_ok s /\ calm s /\ handling s = true /\ pending_of b s /\ outside s /\ at_stream g (handled (trace s) ++ [b]) s.
Lemma same_holding b g s s' : same s s' -> holding b g s -> holding b g s'.
Proof.
  intros Hs (H1 & H2 & H3 & H4 & H5 & H6). assert (Hs' := Hs). destruct Hs' as (E1 & E2 & E3 & E4 & E5 & E6 & E7).
  repeat split; try (by eapply same_sent || by eapply same_calm || by eapply same_outside); unfold pending_of, at_stream in *; try by rewrite ?E1, ?E2, ?E5.
  all: destruct (same_sent _ _ Hs H1), (same_calm _ _ Hs H2); done.
Qed.
Lemma Inv_call_handler b g s : holding b g s -> Inv (call_handler b g s).
Proof.
  intros Hh. assert (holding b g (emit (AHandle b) s)) as (H1 & [H2 H2'] & H3 & H4 & H5 & H6) by (eapply same_holding; [by apply same_emit|done]).
  unfold call_handler. generalize dependent (emit (AHandle b) s). intros s1 H1 H2 H2' H3 H4 H5 H6.
  split; [exact H1|]. split; [exact H3|]. split; [exact H4|]. split; [exact H5|]. split; [exact H6|]. split; [exact H2|].
  cbn. destruct H2' as [-> | ->]; done.
Qed.
Lemma Inv_retry_handler e b g s : e <> Nullish -> holding b g s -> Inv (retry_in_place opts e (SHandler b g) s).
Proof.
  intros He Hh. unfold retry_in_place. assert (holding b g (set_attempt (attempt s + 1) s)) as Ha by (by eapply same_holding; [|exact Hh]).
  generalize dependent (set_attempt (attempt s + 1) s). intros s1 Ha. destruct (Hretry (attempt s1) e) as [d ->].
  destruct d as [d|]; [|destruct Ha as (H1 & H2 & _); by apply Inv_give_up]. assert (has_message e = true) as -> by by destruct e.
  assert (holding b g (emit (AWarn (ReconnectAttempt (attempt s1) d e)) s1)) as (H1 & H2 & H3) by (eapply same_holding; [by apply same_emit|done]).
  generalize dependent (emit (AWarn (ReconnectAttempt (attempt s1) d e)) s1). intros s2 H1 H2 H3. split; [exact H1|]. split; [exact H2|exact H3].
Qed.
Lemma Inv_call_backfill s : idle s -> Inv (call_backfill s).
Proof.
  intros Hi. unfold call_backfill. set (a := ABackfill _ _ _). assert (idle (emit a s)) as (H1 & [H2 H2'] & H3) by (eapply same_idle; [by apply same_emit|done]).
  generalize dependent (emit a s). intros s1 H1 H2 H2' H3. split; [exact H1|]. split; [exact H3|]. split; [exact H2|].
  cbn. destruct H2' as [-> | ->]; done.
Qed.
Lemma Inv_window w s : Inv s -> Inv (set_window w s).
Proof. intros H. by eapply Inv_same; [| |exact H]. Qed.
Lemma Inv_retry_backfill e s : idle s -> Inv (retry_in_place opts e SBackfill s).
Proof.
  intros Hi. unfold retry_in_place. assert (idle (set_attempt (attempt s + 1) s)) as Ha by (by eapply same_idle; [|exact Hi]).
  generalize dependent (set_attempt (attempt s + 1) s). intros s1 Ha. destruct (retryDelayMs opts (attempt s1) e) as [e'|[d|]];
    [by apply idle_outer| |by apply idle_give_up]. destruct (has_message e); [|by apply idle_outer].
  assert (idle (emit (AWarn (ReconnectAttempt (attempt s1) d e)) s1)) as (H1 & H2 & H3) by (eapply same_idle; [by apply same_emit|done]).
  generalize dependent (emit (AWarn (ReconnectAttempt (attempt s1) d e)) s1). intros s2 H1 H2 H3. split; [exact H1|]. by split.
Qed.
Lemma Inv_backfill_failed e s : idle s -> Inv (backfill_failed opts e s).
Proof.
  intros Hi. assert (idle (clear_window s)) as Hc by (by eapply same_idle; [|exact Hi]).
  assert (Inv (if stopping s then outer opts STOP (clear_window s)
    else let s := retry_in_place opts e SBackfill s in match at_phase s with PSleep SBackfill => s | _ => clear_window s end)) as G.
  { destruct (stopping s); [by apply idle_outer|]. pose proof (Inv_retry_backfill e s Hi) as Hr. cbv zeta.
    destruct (at_phase (retry_in_place opts e SBackfill s)) as [| | | | | | | | | |c p|[]| |]; try exact Hr; by apply Inv_window. }
  unfold backfill_failed. destruct (window s) as [[[[|]|] armed]|]; try exact G. by apply idle_outer.
Qed.
Lemma Inv_on_backfill r s : idle s -> Inv (on_backfill opts r s).
Proof.
  intros Hi. unfold on_backfill. destruct r as [e|v]; [by apply Inv_backfill_failed|].
  destruct (window s) as [[[[|]|] armed]|]; by apply Inv_backfill_failed || by apply Inv_start.
Qed.
Lemma Inv_on_resume r s : busy s -> Inv (on_resume opts r s).
Proof.
  intros Hb. unfold on_resume. destruct r as [e|[|]]; [apply idle_outer; auto| |by apply Inv_recreate_stage].
  apply Inv_recreate_stage. by eapply same_busy; [|exact Hb].
Qed.

Lemma same_abort s : same s (abort s).
Proof. unfold abort, abort_window. cbn. by destruct (window s) as [[[[|]|] armed]|]. Qed.
Lemma abort_phase s : at_phase (abort s) = at_phase s.
Proof. unfold abort, abort_window. cbn. by destruct (window s) as [[[[|]|] armed]|]. Qed.
Lemma end_phase s : at_phase (end_repl s) = at_phase s.
Proof. unfold end_repl. by destruct (repl s). Qed.
Lemma end_stopping s : stopping (end_repl s) = stopping s.
Proof. unfold end_repl. by destruct (repl s). Qed.
Lemma abort_stopping s : stopping (abort s) = stopping s.
Proof. unfold abort, abort_window. cbn. by destruct (window s) as [[[[|]|] armed]|]. Qed.

(** The promise of a callback settles: what the stop that waits for it does, and that nothing waits any more. *)
Lemma stop_other ok s : current s = false -> stopper s <> AwaitHandler ->
  calm (stop_settled ok s) /\ (sent_ok s -> sent_ok (stop_settled ok s)) /\ (free s -> free (stop_settled ok s)) /\ (outside s -> outside (stop_settled ok s)).
Proof.
  intros Hc Hs. unfold stop_settled. destruct (stopper s) eqn:E; try done; [by (split; [split; [done|by left]|])| |by (split; [split; [done|by right]|])].
  pose proof (same_end s) as He. split; [|split; [|split]]; [|by apply (same_sent _ _ He)|by apply (same_free _ _ He)|by apply (same_outside _ _ He)].
  split; [|by right]. cbn. destruct He as (_ & _ & -> & _). done.
Qed.
Lemma ack_pending_ok b s : b ∈ completed (trace s) -> pending_of b s -> outside s -> sent_ok s ->
  sent_ok (ack_pending s) /\ outside (ack_pending s) /\ pendingAckLsn (ack_pending s) = None.
Proof.
  intros Hb Hp Ho [H1 H2]. unfold ack_pending. destruct (pendingAckLsn s) as [lsn|] eqn:E; [|done]. destruct Hp as [Hp|Hp]; [by rewrite Hp in E|].
  rewrite E in Hp. destruct (b_done b) as [c|] eqn:Ec; [|done]. injection Hp as ->. unfold outside in Ho. split; [split|split; [|done]]; cbn.
  - rewrite acks_snoc. apply Forall_app. split; [done|]. apply Forall_singleton. by exists b, c.
  - by rewrite window_snoc, Ho.
  - unfold outside. cbn. by rewrite window_snoc, Ho.
Qed.

(** When the handler's promise resolves, the batch is complete before anything is acknowledged. *)
Lemma Inv_handled b g s : at_phase s = PCall (CHandler b g) true -> Inv s ->
  Inv (on_handled g (stop_settled true (note_handled b (set_current false s)))).
Proof.
  intros Hp [H1 H2]. unfold phase_inv in H2. rewrite Hp in H2. destruct H2 as (Hh & Hpe & Ho & Hs & Hc & Hno & Haw).
  set (s1 := note_handled b (set_current false s)).
  assert (b ∈ completed (trace s1)) as Hb by (cbn; apply elem_of_app; right; by left).
  assert (sent_ok s1) as Hs1. { destruct H1 as [A1 A2]. split; [|done]. cbn. eapply Forall_impl; [exact A1|]. intros l (b' & c & Hb' & ?). exists b', c. split; [|done]. apply elem_of_app. by left. }
  assert (outside s1 /\ pending_of b s1 /\ current s1 = false /\ at_stream g (handled (trace s1)) s1 /\ stopper s1 <> AwaitOther) as (O1 & P1 & C1 & T1 & N1) by done.
  clearbody s1. clear H1 Hp Hh Hpe Ho Hs Hc Hno Haw.
  assert (exists s2, stop_settled true s1 = s2 /\ b ∈ completed (trace s2) /\ sent_ok s2 /\ outside s2 /\ pending_of b s2 /\ calm s2 /\ at_stream g (handled (trace s2)) s2)
    as (s2 & -> & B2 & S2 & O2 & P2 & C2 & T2).
  { unfold stop_settled. destruct (stopper s1) eqn:E; try done.
    - exists s1. repeat split; try done; try apply Hs1. by left.
    - eexists. split; [reflexivity|]. destruct (ack_pending_ok b s1 Hb P1 O1 Hs1) as (A1 & A2 & A3).
      assert (trace (ack_pending s1) = trace s1 /\ current (ack_pending s1) = false) as [A4 A5] by (unfold ack_pending; by destruct (pendingAckLsn s1)).
      pose proof (same_trans _ _ _ (same_abort (ack_pending s1)) (same_end (abort (ack_pending s1)))) as He.
      generalize dependent (end_repl (abort (ack_pending s1))). intros s2 He. assert (He' := He). destruct He' as (E1 & E2 & E3 & E4 & E5 & E6 & E7).
      split; [change (b ∈ completed (trace s2)); by rewrite E5, A4|]. split; [exact (same_sent _ _ He A1)|]. split; [exact (same_outside _ _ He A2)|].
      split; [left; change (pendingAckLsn s2 = None); by rewrite E2|]. split; [split; [change (current s2 = false); by rewrite E3|by right]|].
      unfold at_stream in *. change (batches max (seen (trace s2)) = (g, handled (trace s2))). by rewrite E5, A4.
    - exists s1. repeat split; try done; try apply Hs1. by right. }
  clear - B2 S2 O2 P2 C2 T2. unfold on_handled. set (s3 := match pendingAckLsn s2 with Some _ => _ | None => s2 end).
  assert (sent_ok s3 /\ outside s3 /\ calm s3 /\ pendingAckLsn s3 = None /\ at_stream g (handled (trace s3)) s3) as (S3 & O3 & C3 & N3 & T3).
  { unfold s3. destruct (ack_pending_ok b s2 B2 P2 O2 S2) as (A1 & A2 & A3). unfold ack_pending in *. destruct (pendingAckLsn s2) eqn:E; [|done]. split; [exact A1|]. by split. }
  clearbody s3. split; [exact S3|]. split; [exact C3|]. split; [by split|]. by split.
Qed.
Lemma Inv_rejected e b g p s : e <> Nullish -> at_phase s = PCall (CHandler b g) p -> Inv s ->
  Inv (unless_stopped opts (retry_in_place opts e (SHandler b g)) (stop_settled false (set_current false s))).
Proof.
  intros He Hp [H1 H2]. unfold phase_inv in H2. rewrite Hp in H2. destruct H2 as (Hh & Hpe & Ho & Hs & Hc & Hno & Haw).
  assert (holding b g (stop_settled false (set_current false s))) as Hd.
  { unfold stop_settled. cbn. destruct (stopper s) eqn:E; try done.
    - repeat split; try done; try apply H1. by left.
    - pose proof (same_trans _ _ _ (same_abort (set_current false s)) (same_end (abort (set_current false s)))) as He'.
      assert (sent_ok (set_current false s) /\ outside (set_current false s) /\ pending_of b (set_current false s) /\ current (set_current false s) = false
        /\ handling (set_current false s) = true /\ at_stream g (handled (trace (set_current false s)) ++ [b]) (set_current false s)) as (B1 & B2 & B3 & B4 & B5 & B6) by done.
      generalize dependent (end_repl (abort (set_current false s))). generalize dependent (set_current false s). intros s1 B1 B2 B3 B4 B5 B6 s2 He'.
      assert (He2 := He'). destruct He2 as (E1 & E2 & E3 & E4 & E5 & E6 & E7).
      split; [exact (same_sent _ _ He' B1)|]. split; [split; [change (current s2 = false); by rewrite E3|by right]|].
      split; [change (handling s2 = true); by rewrite E1|]. split; [unfold pending_of in *; change (pendingAckLsn s2 = None \/ pendingAckLsn s2 = endLsn <$> b_done b); by rewrite E2|].
      split; [exact (same_outside _ _ He' B2)|]. unfold at_stream in *. change (batches max (seen (trace s2)) = (g, handled (trace s2) ++ [b])). by rewrite E5.
    - repeat split; try done; try apply H1. by right. }
  generalize dependent (stop_settled false (set_current false s)). intros s2 Hd. unfold unless_stopped.
  destruct (stopping s2) eqn:Es; [|by apply Inv_retry_handler]. destruct Hd as (A1 & A2 & _). apply Inv_outer; auto.
Qed.
Lemma Inv_settled r s : r <> inl Nullish -> Inv s -> Inv (settled opts r s).
Proof.
  intros Hr Hi. unfold settled. destruct (at_phase s) as [| | | | | | | | | |c p| | |] eqn:Hp; try done.
  destruct (negb p && _) eqn:En; [done|]. destruct c as [| |b g].
  - destruct Hi as [H1 H2]. unfold phase_inv in H2. rewrite Hp in H2. destruct H2 as (Hf & Ho & Hc & Hs & _).
    destruct (stop_other (match r with inr _ => true | inl _ => false end) (set_current false s) eq_refl Hs) as (C & S & F & O).
    assert (busy (stop_settled (match r with inr _ => true | inl _ => false end) (set_current false s))) as Hb by (split; [split; [by apply S|by split; [|apply F]]|by apply O]).
    destruct r; by apply Inv_on_resume.
  - destruct Hi as [H1 H2]. unfold phase_inv in H2. rewrite Hp in H2. destruct H2 as (Hf & Hc & Hs & _).
    destruct (stop_other (match r with inr _ => true | inl _ => false end) (set_current false s) eq_refl Hs) as (C & S & F & O).
    assert (idle (stop_settled (match r with inr _ => true | inl _ => false end) (set_current false s))) as Hb by (split; [by apply S|by split; [|apply F]]).
    destruct r; by apply Inv_on_backfill.
  - destruct r as [e|v]; [apply (Inv_rejected e b g p); [congruence|done|done]|]. destruct p; [|done]. by apply Inv_handled.
Qed.

Lemma Inv_event e g s : at_phase s = PStream g -> Inv s -> Inv (on_event opts e g s).
Proof.
  intros Hp [H1 H2]. unfold phase_inv in H2. rewrite Hp in H2. destruct H2 as (Hc & Hf & Ho & Hs). unfold on_event.
  set (t := mkTrace _ _ _). assert (batches max (seen t) = let '(g', b) := batch_step max e g in (g', handled (trace s) ++ match b with Some b => [b] | None => [] end)) as Ht
    by (unfold at_stream in Hs; unfold t; cbn [seen]; by rewrite batches_snoc, Hs).
  assert (handled t = handled (trace s) /\ completed t = completed (trace s)) as [E1 E2] by done. clearbody t.
  destruct (batch_step max e g) as [g' [b|]].
  - assert (idle (set_trace t s)) as Hi. { destruct H1 as [A1 A2]. split; [split; [cbn; by rewrite E2|done]|by split]. }
    apply idle_unless; [done|]. intros _. apply Inv_call_handler. destruct Hi as (I1 & I2 & I3). split; [exact I1|]. split; [exact I2|]. split; [done|].
    split; [by right|]. split; [exact Ho|]. unfold at_stream. cbn. by rewrite E1.
  - split; [destruct H1 as [A1 A2]; split; [cbn; by rewrite E2|done]|]. split; [exact Hc|]. split; [exact Hf|]. split; [exact Ho|].
    unfold at_stream. cbn. by rewrite E1, Ht, app_nil_r.
Qed.
Lemma Inv_on_created c s : idle s -> Inv (on_created opts c s).
Proof.
  intros Hi. unfold on_created. set (s1 := set_created c _). assert (idle s1) as H1 by (unfold s1; destruct (isDurable opts); by eapply same_idle; [|exact Hi]).
  clearbody s1. apply idle_unless; [done|]. intros _. apply Inv_call_backfill. by eapply same_idle; [|exact H1].
Qed.
Lemma Inv_promised s : Inv s -> Inv (promised s).
Proof.
  intros Hi. unfold promised. destruct (at_phase s) as [| | | | | | | | | |c [|]| | |] eqn:Hp; try done. destruct Hi as [H1 H2]. unfold phase_inv in H2. rewrite Hp in H2.
  split; [exact H1|]. destruct c as [| |b g].
  - destruct H2 as (A & B & C & D & E). split; [exact A|]. split; [exact B|]. done.
  - destruct H2 as (A & C & D & E). split; [exact A|]. done.
  - destruct H2 as (A & B & C & D & E & F & G). split; [exact A|]. split; [exact B|]. split; [exact C|]. split; [exact D|]. done.
Qed.
Lemma Inv_woken now s : Inv s -> Inv (woken opts now s).
Proof.
  intros Hi. unfold woken. destruct (at_phase s) as [| | | | | | | | | | |k| |] eqn:Hp; try done. assert (Hj := Hi). destruct Hj as [H1 H2].
  unfold phase_inv in H2. rewrite Hp in H2. destruct k as [| |pid d ev|d| |b g].
  - destruct H2 as [H2 H3]. destruct (stopping s); [by apply Inv_done|by apply Inv_session].
  - destruct H2 as (H2 & H3 & H4). apply idle_unless; [done|]. intros _. by apply Inv_drop_slot.
  - destruct H2 as (H2 & H3 & H4). by apply Inv_poll.
  - destruct H2 as (H2 & H3 & H4). by apply Inv_drop_slot.
  - destruct H2 as [H2 H3]. destruct (stopping s); [|by apply Inv_call_backfill]. apply idle_outer. by eapply same_idle; [|].
  - unfold unless_stopped. destruct (stopping s) eqn:Es; [destruct H2 as (? & _); apply Inv_outer; auto|]. by apply Inv_call_handler.
Qed.

Lemma Inv_stop s : Inv s -> Inv (stop s).
Proof.
  intros Hi. unfold stop. destruct (stopper s) eqn:Es; try done. pose proof (same_trans s (set_stopping true s) _ ltac:(done) (same_reject (set_stopping true s))) as Hr.
  assert (at_phase (rejectReady (set_stopping true s)) = at_phase s) as Ep by (unfold rejectReady; by destruct (ready (set_stopping true s))).
  pose proof (Inv_same _ _ Hr Ep Hi) as H1. assert (stopper (rejectReady (set_stopping true s)) = NotStopped) as Es1 by (destruct Hr as (_ & _ & _ & -> & _); done).
  generalize dependent (rejectReady (set_stopping true s)). intros s1 _ _ H1 Es1. clear Hi Es s.
  assert (forall s', same s1 s' -> at_phase s' = at_phase s1 -> current s1 = false -> Inv (set_stopper Stopped s')) as G.
  { intros s' Hs Hp Hc. pose proof (Inv_same _ _ Hs Hp H1) as [A1 A2]. assert (current s' = false) as Hc' by (destruct Hs as (_ & _ & -> & _); done).
    split; [exact A1|]. unfold phase_inv in *. cbn [at_phase set_stopper]. rewrite Hp in A2 |- *. unfold calm in *.
    destruct (at_phase s1) as [| | | | | | | | | |[| |b g] p|[]| |]; cbn in *; intuition congruence. }
  destruct (handling s1) eqn:Eh; destruct (current s1) eqn:Ec.
  - destruct H1 as [A1 A2]. split; [exact A1|]. unfold phase_inv in *. cbn [at_phase set_stopper]. unfold calm, free in *.
    destruct (at_phase s1) as [| | | | | | | | | |[| |b g] p|[]| |]; cbn in *; intuition congruence.
  - apply G; [eapply same_trans; [apply same_abort|apply same_end]|by rewrite end_phase, abort_phase|done].
  - pose proof (Inv_same _ _ (same_abort s1) (abort_phase s1) H1) as [A1 A2]. assert (current (abort s1) = current s1 /\ handling (abort s1) = handling s1) as [Ec' Eh']
      by (destruct (same_abort s1) as (? & ? & ? & _); done). rewrite Ec'. cbn iota. rewrite Ec. split; [exact A1|].
    unfold phase_inv in *. cbn [at_phase set_stopper]. rewrite abort_phase in A2 |- *. unfold calm, free in *.
    destruct (at_phase s1) as [| | | | | | | | | |[| |b g] p|[]| |]; cbn in *; intuition congruence.
  - assert (current (abort s1) = current s1) as Ec' by (destruct (same_abort s1) as (? & ? & ? & _); done). rewrite Ec'. cbn iota. rewrite Ec.
    apply G; [eapply same_trans; [apply same_abort|apply same_end]|by rewrite end_phase, abort_phase|done].
Qed.

(** The consumer's promises are rejected with an error, not with null. *)
Definition polite (e : event) : Prop := match e with Settled (inl Nullish) => False | _ => True end.
Lemma Inv_busy s : Inv s -> match at_phase s with PConnect | PWst | PReconnect | PIdentify | PHealth _ | PTerminate _ _ | PPoll _ _ _ | PDrop _ | PInit => True | _ => False end -> busy s.
Proof.
  intros [H1 H2] Hp. unfold phase_inv in H2. destruct (at_phase s); try done; destruct H2 as (C & F & O); exact (conj (conj H1 (conj C F)) O).
Qed.
Lemma Inv_answer now r s : Inv s -> Inv (on_answer opts random now r s).
Proof.
  intros Hi. unfold on_answer. destruct (at_phase s) eqn:Hp; try done; (assert (busy s) as Hb by (apply Inv_busy; [done|by rewrite Hp])); destruct r as [e|r].
  - apply idle_outer; auto.
  - by apply Inv_on_wst.
  - by apply Inv_durable_failed.
  - by apply Inv_on_health.
  - by apply Inv_durable_failed.
  - by apply Inv_poll.
  - by apply Inv_durable_failed.
  - by apply Inv_on_poll.
Qed.
Lemma Inv_step e s : polite e -> Inv s -> Inv (step e s).
Proof.
  intros He Hi. unfold Cdc.step. destruct e as [|r|now r|r|now r|r| |r|now| | |e| |e|]; try (by apply Inv_answer); try (by apply Inv_promised); try (by apply Inv_woken); try (by apply Inv_stop).
  - destruct (at_phase s) eqn:Hp; try done. assert (busy s) as Hb by (apply Inv_busy; [done|by rewrite Hp]). destruct (stopping s); [by apply Inv_done; apply Hb|apply Inv_session; auto].
  - destruct r as [e|u]; destruct (at_phase s) eqn:Hp; try done; (assert (busy s) as Hb by (apply Inv_busy; [done|by rewrite Hp])).
    + apply idle_outer; auto.
    + apply idle_outer; auto.
    + apply Inv_connected; [done|]. intros s' Hb'. by apply Inv_command.
    + apply Inv_connected; [done|]. intros s' Hb'. by apply Inv_after_wst.
  - destruct r as [e|[i t]]; destruct (at_phase s) eqn:Hp; try done; (assert (busy s) as Hb by (apply Inv_busy; [done|by rewrite Hp]));
      [by apply Inv_durable_failed|by apply Inv_on_identify].
  - destruct (at_phase s) eqn:Hp; try done. assert (busy s) as Hb by (apply Inv_busy; [done|by rewrite Hp]). by apply Inv_on_drop.
  - destruct r as [e|c]; destruct (at_phase s) eqn:Hp; try done; destruct Hi as [H1 H2]; unfold phase_inv in H2; rewrite Hp in H2; destruct H2 as [H2 H3];
      [by apply idle_outer|by apply Inv_on_created].
  - apply Inv_settled; [|done]. intros ->. done.
  - destruct (window s) as [[r [|]]|]; try done. set (w := mkWindow _ _). assert (Inv (set_window (Some w) s)) as Hw by (by apply Inv_window).
    eapply Inv_same; [by apply same_emit| |exact Hw]. done.
  - destruct (at_phase s) eqn:Hp; try done. eapply Inv_same; [| |exact Hi]; unfold resolveReady; by destruct (ready s).
  - destruct (at_phase s) eqn:Hp; try done. by apply Inv_event.
  - destruct (at_phase s) eqn:Hp; try done. destruct Hi as [H1 H2]. unfold phase_inv in H2. rewrite Hp in H2. destruct H2 as (H2 & _). apply Inv_done; eauto.
  - destruct (at_phase s) eqn:Hp; try done. destruct Hi as [H1 H2]. unfold phase_inv in H2. rewrite Hp in H2. destruct H2 as (H2 & H3 & _). by apply idle_outer.
Qed.
Lemma Inv_run es s : Forall polite es -> Inv s -> Inv (run es s).
Proof. intros He. revert s. induction He as [|e es He _ IH]; intros s Hi; [done|]. apply IH. by apply Inv_step. Qed.

Lemma elem_of_acks l x : AAck x ∈ l -> x ∈ acks l.
Proof. intros Hx. unfold acks. apply list_elem_of_omap. by exists (AAck x). Qed.
(** What may not go out between the creation of a slot and the start of its stream. *)
Definition sends_to_slot (a : action) : Prop := match a with ACommand _ | AIdentify | ACreateSlot _ _ | ADropSlot _ | AAck _ => True | _ => False end.
Definition leaves_window (a : action) : Prop := match a with AConnect _ | AStart _ => True | _ => False end.
Lemma window_dead l : foldl window_step None l = None.
Proof. by induction l. Qed.
Lemma window_silent l1 n t l2 a l3 : window_state (l1 ++ ACreateSlot n t :: l2 ++ a :: l3) <> None -> Forall (fun x => ~ leaves_window x) l2 -> ~ sends_to_slot a.
Proof.
  intros Hw Hl Ha. apply Hw. unfold window_state. rewrite foldl_app. cbn [foldl]. rewrite foldl_app. cbn [foldl].
  assert (forall w, (w = Some true \/ w = None) -> foldl window_step w l2 = Some true \/ foldl window_step w l2 = None) as G.
  { clear - Hl. induction Hl as [|x l Hx _ IH]; intros w Hw; [done|]. cbn [foldl]. apply IH. destruct Hw as [-> | ->]; [|by right].
    destruct x; cbn; try (by left); try (by right); by destruct Hx. }
  assert (window_step (foldl window_step (Some false) l1) (ACreateSlot n t) = Some true \/ window_step (foldl window_step (Some false) l1) (ACreateSlot n t) = None) as H1
    by (destruct (foldl window_step (Some false) l1) as [[|]|]; cbn; auto).
  destruct (G _ H1) as [-> | ->]; [destruct a; try done; apply window_dead|]. cbn. apply window_dead.
Qed.



(** ** After stop() *)

Definition quiet (a : action) : Prop := match a with AEnd _ | AAck _ | AWarn _ | ACommand _ | ADropSlot _ => True | _ => False end.
Definition grows (s s' : state) : Prop := exists l, log s' = log s ++ l /\ Forall quiet l.
Lemma grows_refl s : grows s s.
Proof. exists []. by rewrite app_nil_r. Qed.
Lemma grows_trans s1 s2 s3 : grows s1 s2 -> grows s2 s3 -> grows s1 s3.
Proof. intros (l1 & E1 & F1) (l2 & E2 & F2). exists (l1 ++ l2). rewrite E2, E1, app_assoc. split; [done|]. by apply Forall_app. Qed.
Lemma grows_emit a s : quiet a -> grows s (emit a s).
Proof. intros Ha. exists [a]. split; [done|]. by constructor. Qed.
Lemma grows_log s s' : log s' = log s -> grows s s'.
Proof. intros E. exists []. by rewrite app_nil_r. Qed.
Lemma grows_end s : grows s (end_repl s).
Proof. unfold end_repl. destruct (repl s); [by apply grows_emit|apply grows_refl]. Qed.
Lemma grows_abort s : grows s (abort s).
Proof. apply grows_log. unfold abort, abort_window. cbn. by destruct (window s) as [[[[|]|] armed]|]. Qed.
Lemma grows_ack s : grows s (ack_pending s).
Proof. unfold ack_pending. destruct (pendingAckLsn s) as [x|]; [|apply grows_refl]. eapply grows_trans; [by apply (grows_emit (AAck x))|]. by apply grows_log. Qed.

(** A state from which the consumer is not called again: onResume is not pending, and a backfill that is
    pending belongs to an aborted window. *)
Definition window_over (s : state) : Prop := match window s with Some (mkWindow (Some _) _) => True | _ => False end.
Definition stopped_phase (s : state) : Prop :=
  match at_phase s with PCall CResume _ => False | PCall CBackfill _ | PSleep SBackfill => window_over s | _ => True end.
Definition hushed (s : state) : Prop := stopping s = true /\ stopped_phase s.
Definition hushes (s s' : state) : Prop := hushed s' /\ grows s s'.

Lemma hushes_outer e s : stopping s = true -> hushes s (outer opts e s).
Proof.
  intros Hs. unfold outer. rewrite end_stopping, Hs. split; [split; [by rewrite <- Hs, <- (end_stopping s)|done]|].
  eapply grows_trans; [apply grows_end|by apply grows_log].
Qed.
Lemma hushes_unless k s : stopping s = true -> hushes s (unless_stopped opts k s).
Proof. intros Hs. unfold unless_stopped. rewrite Hs. by apply hushes_outer. Qed.
Lemma hushes_trans s1 s2 s3 : grows s1 s2 -> hushes s2 s3 -> hushes s1 s3.
Proof. intros H1 [H2 H3]. split; [done|]. by eapply grows_trans. Qed.
Lemma hushes_durable e s : stopping s = true -> hushes s (durable_failed opts e s).
Proof.
  intros Hs. unfold durable_failed. destruct (isRecreatable opts e); [|by apply hushes_outer].
  eapply hushes_trans; [|by apply hushes_unless]. by apply grows_log.
Qed.
Lemma hushes_phase ph s : stopping s = true -> match ph with PCall _ _ | PSleep SBackfill => False | _ => True end -> hushes s (set_at_phase ph s).
Proof. intros Hs Hp. split; [split; [done|]|by apply grows_log]. unfold stopped_phase. cbn. by destruct ph as [| | | | | | | | | |c p|[]| |]. Qed.
Lemma hushes_command sql ph s : stopping s = true -> match ph with PCall _ _ | PSleep SBackfill => False | _ => True end -> hushes s (command sql ph s).
Proof. intros Hs Hp. eapply hushes_trans; [by apply (grows_emit (ACommand sql))|]. by apply hushes_phase. Qed.

(** The stop that waits for a callback. *)
Lemma stop_settled_keeps ok s : grows s (stop_settled ok s) /\ stopping (stop_settled ok s) = stopping s /\ (window_over s -> window_over (stop_settled ok s)).
Proof.
  unfold stop_settled. destruct (stopper s); try (by split; [apply grows_refl|]).
  - assert (forall s, window_over s -> window_over (abort s)) as Hw.
    { intros x. unfold window_over, abort, abort_window. cbn. destruct (window x) as [[[[|]|] ?]|] eqn:E; cbn; by rewrite ?E. }
    assert (forall s, window_over s -> window_over (end_repl s)) as Hw2 by (intros x Hx; unfold end_repl; destruct (repl x); exact Hx).
    assert (forall s, window_over s -> window_over (ack_pending s) ) as Hw3 by (intros x Hx; unfold ack_pending; destruct (pendingAckLsn x); exact Hx).
    assert (forall x, stopping (ack_pending x) = stopping x) as Hs3 by (intros x; unfold ack_pending; by destruct (pendingAckLsn x)).
    split; [|split].
    + eapply grows_trans; [|by apply grows_log]. eapply grows_trans; [|apply grows_end]. eapply grows_trans; [|apply grows_abort]. destruct ok; [apply grows_ack|apply grows_refl].
    + cbn. rewrite end_stopping, abort_stopping. by destruct ok.
    + intros H. apply Hw2, Hw. destruct ok; auto.
  - split; [eapply grows_trans; [apply grows_end|by apply grows_log]|]. split; [apply end_stopping|]. intros H. unfold end_repl. destruct (repl s); exact H.
Qed.
Lemma hushes_settled r s : hushed s -> hushes s (settled opts r s).
Proof.
  intros [Hs Hp]. unfold settled. destruct (at_phase s) as [| | | | | | | | | |c p| | |] eqn:Ep; try (by split; [|apply grows_refl]).
  destruct (negb p && _); [by split; [|apply grows_refl]|]. set (ok := match r with inr _ => true | inl _ => false end).
  set (s1 := match c, r with CHandler b _, inr _ => note_handled b (set_current false s) | _, _ => set_current false s end).
  assert (grows s s1 /\ stopping s1 = true /\ (window_over s -> window_over s1)) as (G1 & S1 & W1).
  { unfold s1. destruct c, r; (split; [by apply grows_log|]; by split). }
  destruct (stop_settled_keeps ok s1) as (G2 & S2 & W2). rewrite S1 in S2. pose proof (grows_trans _ _ _ G1 G2) as G3.
  unfold stopped_phase in Hp. rewrite Ep in Hp. destruct c as [| |b g].
  - done.
  - specialize (W2 (W1 Hp)). generalize dependent (stop_settled ok s1). intros s2 _ S2 W2 G3. clear S1 W1 G1. clearbody s1. eapply hushes_trans; [exact G3|].
    assert (forall e, hushes s2 (backfill_failed opts e s2)) as Hb.
    { intros e. unfold backfill_failed. unfold window_over in W2. destruct (window s2) as [[[[|]|] armed]|]; try done.
      - eapply hushes_trans; [|by apply hushes_outer]. by apply grows_log.
      - rewrite S2. eapply hushes_trans; [|by apply hushes_outer]. by apply grows_log. }
    unfold on_backfill. destruct r as [e|v]; [apply Hb|]. assert (W3 := W2). unfold window_over in W3. destruct (window s2) as [[[[|]|] armed]|]; try done; apply Hb.
  - generalize dependent (stop_settled ok s1). intros s2 _ S2 _ G3. eapply hushes_trans; [exact G3|]. destruct r as [e|v]; [by apply hushes_unless|].
    unfold on_handled. set (s3 := match pendingAckLsn s2 with Some _ => _ | None => s2 end).
    assert (grows s2 s3 /\ stopping s3 = true) as [G4 S4].
    { unfold s3. destruct (pendingAckLsn s2) eqn:E; [|by split; [apply grows_refl|]]. split; [eapply grows_trans; [apply grows_ack|by apply grows_log]|].
      cbn. unfold ack_pending. by rewrite E. }
    clearbody s3. eapply hushes_trans; [exact G4|]. split; [by split|by apply grows_log].
Qed.

Lemma hushes_stop s : hushed s -> hushes s (stop s).
Proof.
  intros Hh. assert (hushes s s) as Hr by (split; [done|apply grows_refl]). assert (Hh' := Hh). destruct Hh' as [Hs Hp]. unfold stopped_phase in Hp.
  unfold stop. destruct (stopper s); try exact Hr. assert (grows s (rejectReady (set_stopping true s)) /\ stopping (rejectReady (set_stopping true s)) = true
    /\ at_phase (rejectReady (set_stopping true s)) = at_phase s /\ window (rejectReady (set_stopping true s)) = window s) as (G1 & S1 & P1 & W1)
    by (unfold rejectReady; cbn; destruct (ready s); (split; [by apply grows_log|done])).
  generalize dependent (rejectReady (set_stopping true s)). intros s1 G1 S1 P1 W1.
  assert (forall s2, grows s1 s2 -> stopping s2 = true -> at_phase s2 = at_phase s1 -> (window_over s1 -> window_over s2) -> forall x, hushes s (set_stopper x s2)) as G.
  { intros s2 G2 S2 P2 W2 x. split; [split; [exact S2|]|eapply grows_trans; [exact G1|]; eapply grows_trans; [exact G2|by apply grows_log]].
    unfold stopped_phase. cbn. rewrite P2, P1. destruct (at_phase s) as [| | | | | | | | | |[]|[]| |]; try done; apply W2; unfold window_over in *; by rewrite W1. }
  assert (forall s, window_over s -> window_over (abort s)) as Hw.
  { intros x. unfold window_over, abort, abort_window. cbn. destruct (window x) as [[[[|]|] ?]|] eqn:E; cbn; by rewrite ?E. }
  assert (forall s, window_over s -> window_over (end_repl s)) as Hw2 by (intros x Hx; unfold end_repl; destruct (repl x); exact Hx).
  destruct (handling s1).
  - destruct (current s1); [by apply G; [apply grows_refl|..]|]. apply G; [eapply grows_trans; [apply grows_abort|apply grows_end]|by rewrite end_stopping, abort_stopping|by rewrite end_phase, abort_phase|auto].
  - destruct (current (abort s1)); [apply G; [apply grows_abort|by rewrite abort_stopping|by rewrite abort_phase|auto]|].
    apply G; [eapply grows_trans; [apply grows_abort|apply grows_end]|by rewrite end_stopping, abort_stopping|by rewrite end_phase, abort_phase|auto].
Qed.
Lemma hushes_step e s : hushed s -> hushes s (step e s).
Proof.
  intros Hh. assert (hushes s s) as Hr by (split; [done|apply grows_refl]). assert (Hh' := Hh). destruct Hh' as [Hs Hp]. unfold stopped_phase in Hp.
  unfold Cdc.step. destruct e as [|r|now r|r|now r|r| |r|now| | |e| |e|]; try (by apply hushes_stop).
  - destruct (at_phase s) eqn:Ep; try exact Hr. rewrite Hs. by apply hushes_phase.
  - destruct r as [e|u]; destruct (at_phase s) eqn:Ep; try exact Hr; try (by apply hushes_outer); unfold connected; (eapply hushes_trans; [|by apply hushes_unless]; by apply grows_log).
  - unfold on_answer. destruct (at_phase s) eqn:Ep; try exact Hr; destruct r as [e|r].
    + by apply hushes_outer.
    + unfold on_wst. eapply hushes_trans; [|by apply hushes_unless]. by apply grows_log.
    + by apply hushes_durable.
    + by apply hushes_unless.
    + by apply hushes_durable.
    + by apply hushes_command.
    + by apply hushes_durable.
    + unfold on_poll. destruct (r.2) as [|row rows]; [by apply hushes_durable|]. destruct (bool_decide _).
      * eapply hushes_trans; [by apply (grows_emit (AWarn (SlotEvicted (l_name (locals s)) pid)))|]. by apply hushes_unless.
      * destruct (_ <=? _); [by apply hushes_durable|by apply hushes_phase].
  - destruct r as [e|[i t]]; destruct (at_phase s) eqn:Ep; try exact Hr; [by apply hushes_durable|]. unfold on_identify.
    destruct (match lastIdentity s with Some _ => _ | None => _ end); [by apply hushes_durable|]. eapply hushes_trans; [|by apply hushes_unless]. by apply grows_log.
  - destruct (at_phase s) eqn:Ep; try exact Hr. unfold on_drop. destruct r as [e|u]; [|by apply hushes_unless].
    destruct (is_pg "42704" e); [by apply hushes_unless|]. destruct (_ || _); [by apply hushes_outer|by apply hushes_phase].
  - destruct r as [e|c]; destruct (at_phase s) eqn:Ep; try exact Hr; [by apply hushes_outer|]. unfold on_created.
    eapply hushes_trans; [|apply hushes_unless]; [|by destruct (isDurable opts)]. apply grows_log. by destruct (isDurable opts).
  - unfold promised. destruct (at_phase s) as [| | | | | | | | | |c [|]| | |] eqn:Ep; try exact Hr. split; [split; [done|]|by apply grows_log].
    unfold stopped_phase. cbn. by destruct c.
  - by apply hushes_settled.
  - unfold woken. destruct (at_phase s) as [| | | | | | | | | | |k| |] eqn:Ep; try exact Hr. destruct k as [| |pid d ev|d| |b g].
    + rewrite Hs. by apply hushes_phase.
    + by apply hushes_unless.
    + by apply hushes_command.
    + unfold drop_slot. eapply hushes_trans; [by apply (grows_emit (ADropSlot (l_name (locals s))))|]. by apply hushes_phase.
    + rewrite Hs. eapply hushes_trans; [|by apply hushes_outer]. by apply grows_log.
    + by apply hushes_unless.
  - destruct (window s) as [[r [|]]|] eqn:Ew; try exact Hr. split; [|eapply grows_trans; [|by apply grows_emit]; by apply grows_log].
    split; [done|]. unfold stopped_phase, window_over. cbn. destruct (at_phase s) as [| | | | | | | | | |[]|[]| |]; try done; by destruct r.
  - destruct (at_phase s) eqn:Ep; try exact Hr. split; [|unfold resolveReady; destruct (ready s); by apply grows_log]. unfold resolveReady. destruct (ready s); (split; [done|]; unfold stopped_phase; cbn; by rewrite Ep).
  - destruct (at_phase s) eqn:Ep; try exact Hr. unfold on_event. destruct (batch_step max e g) as [g' [b|]].
    + eapply hushes_trans; [|by apply hushes_unless]. by apply grows_log.
    + split; [by split|by apply grows_log].
  - destruct (at_phase s) eqn:Ep; try exact Hr. eapply hushes_trans; [apply grows_end|]. apply hushes_phase; [by rewrite end_stopping|done].
  - destruct (at_phase s) eqn:Ep; try exact Hr. by apply hushes_outer.
Qed.
Lemma hushes_run es s : hushed s -> hushes s (run es s).
Proof.
  revert s. induction es as [|e es IH]; intros s Hs; [split; [done|apply grows_refl]|]. destruct (hushes_step e s Hs) as [H1 H2].
  destruct (IH _ H1) as [H3 H4]. split; [exact H3|]. by eapply grows_trans.
Qed.

(** *** A backfill that is pending has a window *)

Definition windowed (s : state) : Prop := match at_phase s with PCall CBackfill _ | PSleep SBackfill => window s <> None | _ => True end.
Definition plain (ph : phase) : Prop := match ph with PCall CBackfill _ | PSleep SBackfill => False | _ => True end.
Lemma plain_windowed s : plain (at_phase s) -> windowed s.
Proof. unfold windowed, plain. by destruct (at_phase s) as [| | | | | | | | | |[]|[]| |]. Qed.
Lemma outer_plain e s : plain (at_phase (outer opts e s)).
Proof.
  unfold outer, out_of_retries. destruct (stopping (end_repl s)); [done|]. destruct (_ && _); [done|]. destruct (retryDelayMs opts _ _) as [e'|[d|]]; [done| |done]. by destruct (has_message _).
Qed.
Lemma unless_plain k s : plain (at_phase (k s)) -> plain (at_phase (unless_stopped opts k s)).
Proof. intros Hk. unfold unless_stopped. destruct (stopping s); [apply outer_plain|done]. Qed.
Lemma recreate_plain s : plain (at_phase (recreate_stage opts s)).
Proof.
  unfold recreate_stage, after_recreate, out_of_retries. destruct (l_recreate (locals s)) as [e|]; [|by destruct (l_resumed (locals s))].
  destruct (retryDelayMs opts _ _) as [e'|[d|]]; [apply outer_plain|done|done].
Qed.
Lemma health_plain s : plain (at_phase (after_health opts s)).
Proof. unfold after_health. apply unless_plain. destruct (l_resumed (locals s)); [destruct (has_onResume opts); [done|]|]; apply recreate_plain. Qed.
Lemma durable_plain e s : plain (at_phase (durable_failed opts e s)).
Proof. unfold durable_failed. destruct (isRecreatable opts e); [apply health_plain|apply outer_plain]. Qed.
Lemma retry_plain e k s : k <> SBackfill -> plain (at_phase (retry_in_place opts e k s)).
Proof.
  intros Hk. unfold retry_in_place, out_of_retries. destruct (retryDelayMs opts _ _) as [e'|[d|]]; [apply outer_plain| |done].
  destruct (has_message e); [|apply outer_plain]. cbn. by destruct k.
Qed.
#[local] Hint Resolve outer_plain recreate_plain health_plain durable_plain : plain.
Lemma window_plain s : plain (at_phase (clear_window s)) -> windowed (clear_window s).
Proof. apply plain_windowed. Qed.
Lemma backfill_windowed e s : window s <> None -> windowed (backfill_failed opts e s).
Proof.
  intros Hw. assert (windowed (if stopping s then outer opts STOP (clear_window s)
    else let s := retry_in_place opts e SBackfill s in match at_phase s with PSleep SBackfill => s | _ => clear_window s end)) as G.
  { destruct (stopping s); [apply plain_windowed; auto with plain|]. cbv zeta. unfold retry_in_place, out_of_retries.
    destruct (retryDelayMs opts _ _) as [e'|[d|]]; [| |done].
    - pose proof (outer_plain e' (set_attempt (attempt s + 1) s)) as Hp. generalize dependent (outer opts e' (set_attempt (attempt s + 1) s)). intros s1 Hp.
      destruct (at_phase s1) as [| | | | | | | | | |[]|[]| |] eqn:E; try done; apply window_plain; cbn; by rewrite E.
    - destruct (has_message e); [done|]. pose proof (outer_plain no_message (set_attempt (attempt s + 1) s)) as Hp.
      generalize dependent (outer opts no_message (set_attempt (attempt s + 1) s)). intros s1 Hp.
      destruct (at_phase s1) as [| | | | | | | | | |[]|[]| |] eqn:E; try done; apply window_plain; cbn; by rewrite E. }
  unfold backfill_failed. destruct (window s) as [[[[|]|] armed]|]; try exact G. apply plain_windowed. auto with plain.
Qed.
Lemma stop_settled_window ok s : window s <> None -> window (stop_settled ok s) <> None.
Proof.
  intros Hw. unfold stop_settled. destruct (stopper s); try exact Hw; cbn; unfold end_repl.
  - assert (window (if ok then ack_pending s else s) <> None) as H1 by (destruct ok; [unfold ack_pending; by destruct (pendingAckLsn s)|done]).
    generalize dependent (if ok then ack_pending s else s). intros s1 H1. assert (window (abort s1) <> None) as H2
      by (unfold abort, abort_window; cbn; by destruct (window s1) as [[[[|]|] ?]|] eqn:E; cbn; rewrite ?E).
    by destruct (repl (abort s1)).
  - by destruct (repl s).
Qed.

Lemma stop_keeps s : at_phase (stop s) = at_phase s /\ (window s <> None -> window (stop s) <> None).
Proof.
  unfold stop. destruct (stopper s); try done. assert (at_phase (rejectReady (set_stopping true s)) = at_phase s /\ window (rejectReady (set_stopping true s)) = window s) as [P W]
    by (unfold rejectReady; by destruct (ready (set_stopping true s))).
  generalize dependent (rejectReady (set_stopping true s)). intros s1 P W. rewrite <- P, <- W.
  assert (window s1 <> None -> window (abort s1) <> None) as Ha by (intros Hw; unfold abort, abort_window; cbn; by destruct (window s1) as [[[[|]|] ?]|] eqn:E; cbn; rewrite ?E).
  assert (window (end_repl (abort s1)) = window (abort s1)) as He by (unfold end_repl; by destruct (repl (abort s1))).
  destruct (handling s1); [destruct (current s1)|destruct (current (abort s1))]; cbn; rewrite ?end_phase, ?abort_phase, ?He; auto.
Qed.
Lemma windowed_step e s : windowed s -> windowed (step e s).
Proof.
  intros Hw. unfold Cdc.step. destruct e as [|r|now r|r|now r|r| |r|now| | |e| |e|].
  - destruct (at_phase s) eqn:Ep; try exact Hw. by destruct (stopping s).
  - destruct r as [e|u]; destruct (at_phase s) eqn:Ep; try exact Hw; apply plain_windowed; auto with plain; apply unless_plain; [done|].
    unfold after_wst. destruct (isDurable opts); [done|]. auto with plain.
  - unfold on_answer. destruct (at_phase s) eqn:Ep; try exact Hw; destruct r as [e|r]; apply plain_windowed; auto with plain; try done.
    + apply unless_plain. destruct (_ && _); [done|]. unfold after_wst. destruct (isDurable opts); [done|]. auto with plain.
    + apply unless_plain. destruct (r.2) as [|row rows]; [destruct (sawSlot s); auto with plain|]. destruct (bool_decide _); [auto with plain|].
      destruct (cell "confirmed_flush_lsn" r row); [|auto with plain]. destruct (if bool_decide _ then _ else _) as [p|]; [|auto with plain].
      destruct (_ || _); [auto with plain|]. cbv zeta. destruct (int_of (Number p)); [done|auto with plain].
    + unfold on_poll. destruct (r.2) as [|row rows]; [auto with plain|]. destruct (bool_decide _); [by apply unless_plain|].
      destruct (_ <=? _); [auto with plain|done].
  - destruct r as [e|[i t]]; destruct (at_phase s) eqn:Ep; try exact Hw; apply plain_windowed; auto with plain. unfold on_identify.
    destruct (match lastIdentity s with Some _ => _ | None => _ end); [auto with plain|by apply unless_plain].
  - destruct (at_phase s) eqn:Ep; try exact Hw. apply plain_windowed. unfold on_drop.
    assert (forall s, plain (at_phase (unless_stopped opts (after_recreate opts) s))) as Ha by (intros x; apply unless_plain; unfold after_recreate; by destruct (l_resumed (locals x))).
    destruct r as [e|u]; [|apply Ha]. destruct (is_pg "42704" e); [apply Ha|]. destruct (_ || _); [auto with plain|done].
  - destruct r as [e|c]; destruct (at_phase s) eqn:Ep; try exact Hw; [apply plain_windowed; auto with plain|].
    unfold on_created, unless_stopped. set (s1 := set_created c _). destruct (stopping s1); [apply plain_windowed; auto with plain|done].
  - unfold promised. destruct (at_phase s) as [| | | | | | | | | |c [|]| | |] eqn:Ep; try exact Hw. unfold windowed in *. cbn. rewrite Ep in Hw. by destruct c.
  - unfold settled. destruct (at_phase s) as [| | | | | | | | | |c p| | |] eqn:Ep; try exact Hw. destruct (negb p && _); [exact Hw|].
    set (ok := match r with inr _ => true | inl _ => false end). destruct c as [| |b g].
    + assert (windowed (on_resume opts r (stop_settled ok (set_current false s)))) as G
        by (apply plain_windowed; unfold on_resume; destruct r as [e|[|]]; auto with plain). by destruct r.
    + assert (window (stop_settled ok (set_current false s)) <> None) as H1 by (apply stop_settled_window; unfold windowed in Hw; by rewrite Ep in Hw).
      generalize dependent (stop_settled ok (set_current false s)). intros s1 H1.
      assert (windowed (on_backfill opts r s1)) as G.
      { unfold on_backfill. destruct r as [e|v]; [by apply backfill_windowed|]. destruct (window s1) as [[[[|]|] armed]|] eqn:E; try done; apply backfill_windowed; by rewrite E. }
      by destruct r.
    + apply plain_windowed. destruct r as [e|v]; [|done]. apply unless_plain. by apply retry_plain.
  - unfold woken. destruct (at_phase s) as [| | | | | | | | | | |k| |] eqn:Ep; try exact Hw. destruct k as [| |pid d ev|d| |b g]; try done.
    + apply plain_windowed. by destruct (stopping s).
    + apply plain_windowed. by apply unless_plain.
    + destruct (stopping s); [apply plain_windowed; auto with plain|]. unfold windowed in *. rewrite Ep in Hw. done.
    + apply plain_windowed. by apply unless_plain.
  - destruct (window s) as [[r [|]]|] eqn:Ew; try exact Hw. unfold windowed in *. cbn. by destruct (at_phase s) as [| | | | | | | | | |[]|[]| |].
  - destruct (at_phase s) eqn:Ep; try exact Hw. unfold resolveReady, windowed. by destruct (ready s); cbn; rewrite Ep.
  - destruct (at_phase s) eqn:Ep; try exact Hw. unfold on_event. destruct (batch_step max e g) as [g' [b|]]; [|done]. apply plain_windowed. by apply unless_plain.
  - destruct (at_phase s) eqn:Ep; try exact Hw. done.
  - destruct (at_phase s) eqn:Ep; try exact Hw. apply plain_windowed. auto with plain.
  - destruct (stop_keeps s) as [P W]. unfold windowed in *. rewrite P. destruct (at_phase s) as [| | | | | | | | | |[]|[]| |]; try done; by apply W.
Qed.
Lemma windowed_run es s : windowed s -> windowed (run es s).
Proof. revert s. induction es as [|e es IH]; intros s Hs; [done|]. apply IH. by apply windowed_step. Qed.

End Invariant.

(** ** Sessions *)

Definition demo_opts : ReplicateOptions :=
  mkReplicate UrlString (Durable (js "s1")) [js "p"] (Some (of_Z 1000)) (Some 2) (defaultRetryDelayMs (fun _ => 0)) false false false None None.
Definition demo_random (n : Z) : jstr := js "00000001".
Definition ev_begin : ReplicationEvent := EvBegin 7 None (of_Z 0) (js "0/10").
Definition ev_truncate : ReplicationEvent := EvTruncate [(js "public", js "t")] false false.
Definition ev_commit : ReplicationEvent := EvCommit (js "0/10") (js "0/20") None (of_Z 0).
Definition health_columns : list jstr := js <$> ["active"; "active_pid"; "wal_status"; "confirmed_flush_lsn"; "restart_lsn"]%string.
Definition no_error (id : Z) : cerr := User id None.
(** Up to the stream of a slot that had to be created. *)
Definition opening : list event := [
  Begin; Connected (inr tt); Answer 0 (inr ([js "setting"], [[Some (js "60000")]])); Identified (inr (js "sys", 1)); Answer 0 (inr (health_columns, []));
  CreatedSlot (inr (mkCreated (js "s1") (Some (js "snap")) (js "0/1"))); Promised; Settled (inl (no_error 1)); Woken 0; Promised; Settled (inr false)].
Definition handling_one : list event := opening ++ [
  StreamReady; StreamEvent ev_begin; StreamEvent ev_truncate; StreamEvent ev_truncate; Promised; Settled (inr false);
  StreamEvent ev_truncate; StreamEvent ev_commit; Promised; Settled (inl (no_error 2)); Woken 0; Promised].
Lemma demo_retry n e : exists d, retryDelayMs demo_opts n e = inr d.
Proof. eexists. reflexivity. Qed.

Definition stopped_one : list event := handling_one ++ [Stop; Settled (inr false); StreamDone].
Lemma stopped_polite : Forall polite stopped_one.
Proof. unfold stopped_one, handling_one, opening. cbn [app]. repeat (apply List.Forall_cons; [exact I|]). apply List.Forall_nil. Qed.

Lemma handling_polite : Forall polite handling_one.
Proof. unfold handling_one, opening. cbn [app]. repeat (apply List.Forall_cons; [exact I|]). apply List.Forall_nil. Qed.

Definition late_events : list event := [Settled (inr false); StreamEvent ev_begin; StreamEvent ev_truncate; StreamEvent ev_commit; Woken 0; StreamReady; StreamDone].

Definition demo_commit : Commit := mkCommit (js "0/10") (js "0/20") None (of_Z 0).
Definition drop_me : ReplicationEvent := EvMessage false (js "x") [] (js "0/1").
Definition demo_txs : list Transaction := [
  mkTransaction 7 None (of_Z 0) (js "0/10") [ev_truncate; drop_me; ev_truncate] demo_commit; mkTransaction 8 None (of_Z 0) (js "0/10") [ev_truncate] demo_commit].
Lemma batches_exact_witness :
  (exists parts, (batches (Some 2) (concat (tx_events <$> demo_txs))).2 = concat parts /\ Forall2 (tx_batches (Some 2)) demo_txs parts)
  /\ (fun b => (b_xid b, length (b_events b))) <$> (batches (Some 2) (concat (tx_events <$> demo_txs))).2 = [(7, 2%nat); (7, 0%nat); (8, 1%nat)].
Proof.
  split; [|vm_compute; reflexivity]. apply batches_exact.
  repeat (apply List.Forall_cons; [repeat (apply List.Forall_cons; [exact I|]); apply List.Forall_nil|]). apply List.Forall_nil.
Defined.

(** *** Sessions in which it does the wrong thing *)

Definition resume_opts (retry : Z -> cerr -> cerr + option Z) : ReplicateOptions :=
  mkReplicate UrlString (Durable (js "s1")) [js "p"] None None retry false false true None None.
Definition healthy : Rows_ := (health_columns, [[Some (js "f"); None; Some (js "reserved"); Some (js "0/10"); Some (js "0/8")]]).
Definition resuming : list event := [Begin; Connected (inr tt); Answer 0 (inr ([js "setting"], [[Some (js "60000")]])); Identified (inr (js "sys", 1)); Answer 0 (inr healthy)].
(** stop() while onResume runs, which then asks for a new slot: when the budget is used up, onFatalError is called. *)
Example fatal_after_stop :
  AFatal Recreate ∈ log (Cdc.run (resume_opts (fun _ _ => inr None)) demo_random (resuming ++ [Promised; Stop; Settled (inr true)]) init).
Proof. vm_compute. repeat first [apply list_elem_of_here | apply list_elem_of_further]. Qed.

Definition streaming : list event := resuming ++ [Promised; Settled (inr false); StreamEvent ev_begin; StreamEvent ev_truncate; StreamEvent ev_commit].
(** The handler calls stop() itself before its first await: the connection is closed first, then the batch is acknowledged. *)
Example closed_before_ack :
  drop 6 (log (Cdc.run (resume_opts (defaultRetryDelayMs (fun _ => 0))) demo_random (streaming ++ [Stop; Promised; Settled (inr false); StreamDone]) init))
  = [AHandle (mkBatch 7 [ev_truncate] (Some demo_commit)); AEnd 0; AAck (js "0/20"); AEnd 0].
Proof. vm_compute. reflexivity. Qed.
(** The handler rejects with null: the session reconnects instead of trying the batch again, and a stop() during the
    next onResume acknowledges the batch that was never handled. *)
Example unhandled_acked :
  let s := Cdc.run (resume_opts (defaultRetryDelayMs (fun _ => 0))) demo_random
             (streaming ++ [Promised; Settled (inl Nullish); Woken 0] ++ tail resuming ++ [Promised; Stop; Settled (inr false)]) init in
  (acks (log s), completed (trace s)) = ([js "0/20"], []).
Proof. vm_compute. reflexivity. Qed.
