(* ===== verification/Pool.v ===== *)
(** * The connection pool (src/pool.ts)

    [pool] is the state of a Pool object together with what it is waiting for: the
    connections being opened and why, the canceled connections whose drain is
    awaited, the ROLLBACKs in flight, the armed timers and the promises already
    settled. Every handler of the class is a function on it, and [step] is one turn
    of the event loop: the call, timer or promise that fires, with the continuations
    it wakes run to the end before the next turn. Connections and probe loops are
    numbered by [next]. *)

From S2P Require Import Prelude Buf Faults.

(** A connection as the pool looks at it: [state === 'closed'], [inTransaction],
    a pending [cancelSettled], and queries in flight or queued. *)
Record cinfo := mkInfo { cclosed : bool; cintx : bool; csettling : bool; cbusy : bool }.

(** A caller of [acquire] and the transaction mark of its async context. *)
Record client := mkClient { cid : nat; cctx : option nat }.

Inductive purpose :=
| ForAcquire (a : client)
| ForProbe (attempt : nat)
| ForRefill (a : client).

(** How an acquire settles. *)
Inductive failure :=
| Fault (e : fault)
| PoolClosed
| PoolEnded
| TxGuard
| AcquireTimeout (hint : bool)
| RecoveryTimeout (cause : option fault).
Inductive answer := Got (c : nat) | Failed (f : failure).

#[global] Instance client_eq_dec : EqDecision client.
Proof. solve_decision. Defined.
#[global] Instance purpose_eq_dec : EqDecision purpose.
Proof. solve_decision. Defined.
#[global] Instance failure_eq_dec : EqDecision failure.
Proof. solve_decision. Defined.
#[global] Instance answer_eq_dec : EqDecision answer.
Proof. solve_decision. Defined.

(** The options the constructor reads, and what it derives from them. *)
Record options := mkOptions {
  o_max : option Z; o_reconnect : bool; o_base : option Z; o_maxMs : option Z; o_acquire : option Z;
  o_probe : option Z; o_connect : option Z; o_acquireMillis : option Z; o_idle : option Z; o_txGuard : bool }.
Record config := mkConfig {
  max : Z; rcEnabled : bool; base : Z; maxBackoff : Z; acquireTimeout : Z; probeConnectMs : Z;
  acquireMs : Z; idleMs : Z; guardTx : bool;
  (** what [new Connection] throws on this configuration, if it does *)
  ctorError : option fault }.

Definition construct (o : options) (ctor : option fault) : config :=
  let acquireTimeout := default 30000 (o_acquire o) in
  let halfWindow := if 0 <? acquireTimeout then acquireTimeout / 2 else 5000 in
  mkConfig (default 10 (o_max o)) (o_reconnect o) (default 50 (o_base o)) (default 2000 (o_maxMs o)) acquireTimeout
    (Z.max 1 (Z.min (default 30000 (o_connect o)) (default (Z.min 5000 halfWindow) (o_probe o))))
    (default 30000 (o_acquireMillis o)) (default 0 (o_idle o)) (o_txGuard o) ctor.

(** [idle] is the stack, its top first. [naps] are the probe loops asleep, with
    their attempt; [probeWake] is the one whose sleep can be canceled. *)
Record pool := mkPool {
  idle : list nat;
  all : gset nat;
  out : gset nat;
  waiters : list client;
  closed : bool;
  idleTimers : gset nat;
  down : bool;
  broken : option fault;
  recovered : list client;
  naps : gmap nat nat;
  probeWake : option nat;
  lastDownError : option fault;
  lastProbeError : option fault;
  marks : gmap nat bool;
  opening : gmap nat purpose;
  settling : gset nat;
  rolling : gset nat;
  waitTimers : gset nat;
  settled : gmap nat answer;
  info : gmap nat cinfo;
  ended : gset nat;
  next : nat }.

Definition set_idle (x : list nat) (s : pool) : pool := mkPool x (all s) (out s) (waiters s) (closed s) (idleTimers s) (down s) (broken s) (recovered s) (naps s) (probeWake s) (lastDownError s) (lastProbeError s) (marks s) (opening s) (settling s) (rolling s) (waitTimers s) (settled s) (info s) (ended s) (next s).
Definition set_all (x : gset nat) (s : pool) : pool := mkPool (idle s) x (out s) (waiters s) (closed s) (idleTimers s) (down s) (broken s) (recovered s) (naps s) (probeWake s) (lastDownError s) (lastProbeError s) (marks s) (opening s) (settling s) (rolling s) (waitTimers s) (settled s) (info s) (ended s) (next s).
Definition set_out (x : gset nat) (s : pool) : pool := mkPool (idle s) (all s) x (waiters s) (closed s) (idleTimers s) (down s) (broken s) (recovered s) (naps s) (probeWake s) (lastDownError s) (lastProbeError s) (marks s) (opening s) (settling s) (rolling s) (waitTimers s) (settled s) (info s) (ended s) (next s).
Definition set_waiters (x : list client) (s : pool) : pool := mkPool (idle s) (all s) (out s) x (closed s) (idleTimers s) (down s) (broken s) (recovered s) (naps s) (probeWake s) (lastDownError s) (lastProbeError s) (marks s) (opening s) (settling s) (rolling s) (waitTimers s) (settled s) (info s) (ended s) (next s).
Definition set_closed (x : bool) (s : pool) : pool := mkPool (idle s) (all s) (out s) (waiters s) x (idleTimers s) (down s) (broken s) (recovered s) (naps s) (probeWake s) (lastDownError s) (lastProbeError s) (marks s) (opening s) (settling s) (rolling s) (waitTimers s) (settled s) (info s) (ended s) (next s).
Definition set_idleTimers (x : gset nat) (s : pool) : pool := mkPool (idle s) (all s) (out s) (waiters s) (closed s) x (down s) (broken s) (recovered s) (naps s) (probeWake s) (lastDownError s) (lastProbeError s) (marks s) (opening s) (settling s) (rolling s) (waitTimers s) (settled s) (info s) (ended s) (next s).
Definition set_down (x : bool) (s : pool) : pool := mkPool (idle s) (all s) (out s) (waiters s) (closed s) (idleTimers s) x (broken s) (recovered s) (naps s) (probeWake s) (lastDownError s) (lastProbeError s) (marks s) (opening s) (settling s) (rolling s) (waitTimers s) (settled s) (info s) (ended s) (next s).
Definition set_broken (x : option fault) (s : pool) : pool := mkPool (idle s) (all s) (out s) (waiters s) (closed s) (idleTimers s) (down s) x (recovered s) (naps s) (probeWake s) (lastDownError s) (lastProbeError s) (marks s) (opening s) (settling s) (rolling s) (waitTimers s) (settled s) (info s) (ended s) (next s).
Definition set_recovered (x : list client) (s : pool) : pool := mkPool (idle s) (all s) (out s) (waiters s) (closed s) (idleTimers s) (down s) (broken s) x (naps s) (probeWake s) (lastDownError s) (lastProbeError s) (marks s) (opening s) (settling s) (rolling s) (waitTimers s) (settled s) (info s) (ended s) (next s).
Definition set_naps (x : gmap nat nat) (s : pool) : pool := mkPool (idle s) (all s) (out s) (waiters s) (closed s) (idleTimers s) (down s) (broken s) (recovered s) x (probeWake s) (lastDownError s) (lastProbeError s) (marks s) (opening s) (settling s) (rolling s) (waitTimers s) (settled s) (info s) (ended s) (next s).
Definition set_probeWake (x : option nat) (s : pool) : pool := mkPool (idle s) (all s) (out s) (waiters s) (closed s) (idleTimers s) (down s) (broken s) (recovered s) (naps s) x (lastDownError s) (lastProbeError s) (marks s) (opening s) (settling s) (rolling s) (waitTimers s) (settled s) (info s) (ended s) (next s).
Definition set_lastDownError (x : option fault) (s : pool) : pool := mkPool (idle s) (all s) (out s) (waiters s) (closed s) (idleTimers s) (down s) (broken s) (recovered s) (naps s) (probeWake s) x (lastProbeError s) (marks s) (opening s) (settling s) (rolling s) (waitTimers s) (settled s) (info s) (ended s) (next s).
Definition set_lastProbeError (x : option fault) (s : pool) : pool := mkPool (idle s) (all s) (out s) (waiters s) (closed s) (idleTimers s) (down s) (broken s) (recovered s) (naps s) (probeWake s) (lastDownError s) x (marks s) (opening s) (settling s) (rolling s) (waitTimers s) (settled s) (info s) (ended s) (next s).
Definition set_marks (x : gmap nat bool) (s : pool) : pool := mkPool (idle s) (all s) (out s) (waiters s) (closed s) (idleTimers s) (down s) (broken s) (recovered s) (naps s) (probeWake s) (lastDownError s) (lastProbeError s) x (opening s) (settling s) (rolling s) (waitTimers s) (settled s) (info s) (ended s) (next s).
Definition set_opening (x : gmap nat purpose) (s : pool) : pool := mkPool (idle s) (all s) (out s) (waiters s) (closed s) (idleTimers s) (down s) (broken s) (recovered s) (naps s) (probeWake s) (lastDownError s) (lastProbeError s) (marks s) x (settling s) (rolling s) (waitTimers s) (settled s) (info s) (ended s) (next s).
Definition set_settling (x : gset nat) (s : pool) : pool := mkPool (idle s) (all s) (out s) (waiters s) (closed s) (idleTimers s) (down s) (broken s) (recovered s) (naps s) (probeWake s) (lastDownError s) (lastProbeError s) (marks s) (opening s) x (rolling s) (waitTimers s) (settled s) (info s) (ended s) (next s).
Definition set_rolling (x : gset nat) (s : pool) : pool := mkPool (idle s) (all s) (out s) (waiters s) (closed s) (idleTimers s) (down s) (broken s) (recovered s) (naps s) (probeWake s) (lastDownError s) (lastProbeError s) (marks s) (opening s) (settling s) x (waitTimers s) (settled s) (info s) (ended s) (next s).
Definition set_waitTimers (x : gset nat) (s : pool) : pool := mkPool (idle s) (all s) (out s) (waiters s) (closed s) (idleTimers s) (down s) (broken s) (recovered s) (naps s) (probeWake s) (lastDownError s) (lastProbeError s) (marks s) (opening s) (settling s) (rolling s) x (settled s) (info s) (ended s) (next s).
Definition set_settled (x : gmap nat answer) (s : pool) : pool := mkPool (idle s) (all s) (out s) (waiters s) (closed s) (idleTimers s) (down s) (broken s) (recovered s) (naps s) (probeWake s) (lastDownError s) (lastProbeError s) (marks s) (opening s) (settling s) (rolling s) (waitTimers s) x (info s) (ended s) (next s).
Definition set_info (x : gmap nat cinfo) (s : pool) : pool := mkPool (idle s) (all s) (out s) (waiters s) (closed s) (idleTimers s) (down s) (broken s) (recovered s) (naps s) (probeWake s) (lastDownError s) (lastProbeError s) (marks s) (opening s) (settling s) (rolling s) (waitTimers s) (settled s) x (ended s) (next s).
Definition set_ended (x : gset nat) (s : pool) : pool := mkPool (idle s) (all s) (out s) (waiters s) (closed s) (idleTimers s) (down s) (broken s) (recovered s) (naps s) (probeWake s) (lastDownError s) (lastProbeError s) (marks s) (opening s) (settling s) (rolling s) (waitTimers s) (settled s) (info s) x (next s).
Definition set_next (x : nat) (s : pool) : pool := mkPool (idle s) (all s) (out s) (waiters s) (closed s) (idleTimers s) (down s) (broken s) (recovered s) (naps s) (probeWake s) (lastDownError s) (lastProbeError s) (marks s) (opening s) (settling s) (rolling s) (waitTimers s) (settled s) (info s) (ended s) x.

Definition new_pool : pool :=
  mkPool [] ∅ ∅ [] false ∅ false None [] ∅ None None None ∅ ∅ ∅ ∅ ∅ ∅ ∅ ∅ 0.

Definition conn_info (s : pool) (c : nat) : cinfo := default (mkInfo false false false false) (info s !! c).
Definition size_ (s : pool) : Z := Z.of_nat (size (all s)).
Definition lastError (s : pool) : option fault :=
  match broken s with
  | Some e => Some e
  | None => match lastProbeError s with Some e => Some e | None => lastDownError s end
  end.

Section Pool.
Context (cfg : config).

(** A promise settles once. *)
Definition answer_ (a : client) (r : answer) (s : pool) : pool :=
  match settled s !! cid a with Some _ => s | None => set_settled (<[cid a := r]> (settled s)) s end.

(** The waiter's [resolve] and [reject] clear its timer first. *)
Definition settle_waiter (a : client) (r : answer) (s : pool) : pool :=
  answer_ a r (set_waitTimers (waitTimers s ∖ {[cid a]}) s).

(** [conn.end()] *)
Definition end_conn (c : nat) (s : pool) : pool := set_ended ({[c]} ∪ ended s) s.
Definition drop_conn (c : nat) (s : pool) : pool := set_all (all s ∖ {[c]}) s.

Definition armIdleTimer (c : nat) (s : pool) : pool :=
  if idleMs cfg <=? 0 then s else set_idleTimers ({[c]} ∪ idleTimers s) s.
Definition clearIdleTimer (c : nat) (s : pool) : pool := set_idleTimers (idleTimers s ∖ {[c]}) s.
Definition idleTimer_fires (c : nat) (s : pool) : pool :=
  let s := clearIdleTimer c s in
  if bool_decide (c ∈ idle s)
  then end_conn c (drop_conn c (set_idle (filter (fun x => x <> c) (idle s)) s))
  else s.

(** [open]: the Connection is made and its [connect()] awaited. A constructor that
    throws never enters [all]. *)
Definition open (p : purpose) (s : pool) : pool :=
  let c := next s in
  let s := set_next (S c) (set_opening (<[c := p]> (opening s)) s) in
  match ctorError cfg with Some _ => s | None => set_all ({[c]} ∪ all s) s end.

Definition waitForFree (a : client) (s : pool) : pool :=
  let s := if acquireMs cfg <=? 0 then s else set_waitTimers ({[cid a]} ∪ waitTimers s) s in
  set_waiters (waiters s ++ [a]) s.

(** Pop idle connections, dropping the dead ones. *)
Fixpoint pop_idle (l : list nat) (s : pool) : option nat * pool :=
  match l with
  | [] => (None, set_idle [] s)
  | c :: t =>
    let s := clearIdleTimer c (set_idle t s) in
    if cclosed (conn_info s c) then pop_idle t (drop_conn c s) else (Some c, s)
  end.

(** [acquire] from the reuse of an idle connection on. *)
Definition acquire_rest (a : client) (s : pool) : pool :=
  match pop_idle (idle s) s with
  | (Some c, s) => answer_ a (Got c) (set_out ({[c]} ∪ out s) s)
  | (None, s) => if size_ s <? max cfg then open (ForAcquire a) s else waitForFree a s
  end.

Definition guarded (a : client) (s : pool) : bool :=
  match cctx a with Some m => default false (marks s !! m) | None => false end.

Definition acquire (a : client) (s : pool) : pool :=
  if closed s then answer_ a (Failed PoolClosed) s
  else if guarded a s then answer_ a (Failed TxGuard) s
  else match broken s with
       | Some e => answer_ a (Failed (Fault e)) s
       | None =>
         if down s && rcEnabled cfg then set_recovered (recovered s ++ [a]) s else acquire_rest a s
       end.

(** Diagnostic of the acquire timeout. *)
Definition stuckHint (s : pool) : bool :=
  bool_decide (out s <> ∅)
  && forallb (fun c => cintx (conn_info s c) && negb (cbusy (conn_info s c))) (elements (out s)).
Definition waitTimer_fires (a : client) (s : pool) : pool :=
  let s := set_waitTimers (waitTimers s ∖ {[cid a]}) s in
  let s := set_waiters (filter (fun x => cid x <> cid a) (waiters s)) s in
  answer_ a (Failed (AcquireTimeout (stuckHint s))) s.

(** ** The breaker *)

Definition backoff (attempt : nat) : Z := Z.min (maxBackoff cfg) (base cfg * 2 ^ Z.of_nat attempt).

(** A probe loop goes to sleep; its wake-up overwrites the pool's only handle. *)
Definition nap (p attempt : nat) (s : pool) : pool :=
  set_probeWake (Some p) (set_naps (<[p := attempt]> (naps s)) s).
Definition startProbe (s : pool) : pool := nap (next s) 0 (set_next (S (next s)) s).

(** The canceled sleeper wakes, sees the pool up or closed, and its loop ends. *)
Definition cancelProbeNap (s : pool) : pool :=
  match probeWake s with
  | Some p => set_naps (delete p (naps s)) (set_probeWake None s)
  | None => s
  end.

(** One waiter on recovery is woken. *)
Definition onRecover (a : client) (s : pool) : pool :=
  if closed s then answer_ a (Failed PoolClosed) s
  else match broken s with
       | Some e => answer_ a (Failed (Fault e)) s
       | None => acquire_rest a s
       end.
Definition wake_recovered (s : pool) : pool := fold_left (fun s a => onRecover a s) (recovered s) (set_recovered [] s).
Definition settleBreaker (s : pool) : pool := wake_recovered (cancelProbeNap (set_down false s)).

Definition trip (e : fault) (s : pool) : pool :=
  match classify e with
  | Fatal => settleBreaker (set_broken (Some e) s)
  | Unavailable =>
    if down s || closed s then s
    else startProbe (set_down true (set_lastProbeError None (set_lastDownError (Some e) s)))
  end.

(** The sleep of a probe loop ends by its timer. *)
Definition nap_fires (p : nat) (s : pool) : pool :=
  match naps s !! p with
  | None => s
  | Some attempt =>
    let s := set_probeWake None (set_naps (delete p (naps s)) s) in
    if negb (down s) || closed s then s else open (ForProbe attempt) s
  end.

Definition recoveryTimer_fires (a : client) (s : pool) : pool :=
  if bool_decide (a ∈ recovered s) then
    let cause := match lastProbeError s with Some e => Some e | None => lastDownError s end in
    answer_ a (Failed (RecoveryTimeout cause)) (set_recovered (filter (fun x => x <> a) (recovered s)) s)
  else s.

(** ** Checkin *)

Definition failWaiters (f : failure) (s : pool) : pool :=
  fold_left (fun s a => settle_waiter a (Failed f) s) (waiters s) (set_waiters [] s).

Fixpoint refill_loop (ws : list client) (s : pool) : pool :=
  match ws with
  | [] => s
  | w :: t =>
    if size_ s <? max cfg then refill_loop t (open (ForRefill w) (set_waiters t s)) else s
  end.
Definition refill (s : pool) : pool := if down s || closed s then s else refill_loop (waiters s) s.

Definition push_idle (c : nat) (s : pool) : pool := armIdleTimer c (set_idle (c :: idle s) s).
Definition checkin (c : nat) (s : pool) : pool :=
  if down s then settleBreaker (push_idle c s)
  else match waiters s with
       | w :: t => settle_waiter w (Got c) (set_out ({[c]} ∪ out s) (set_waiters t s))
       | [] => push_idle c s
       end.

Definition reclaim (c : nat) (s : pool) : pool :=
  if cclosed (conn_info s c) then refill (drop_conn c s)
  else if closed s then end_conn c (drop_conn c s)
  else if cintx (conn_info s c) then set_rolling ({[c]} ∪ rolling s) s
  else checkin c s.

Definition release (c : nat) (s : pool) : pool :=
  if bool_decide (c ∈ out s) then
    let s := set_out (out s ∖ {[c]}) s in
    if csettling (conn_info s c) then set_settling ({[c]} ∪ settling s) s else reclaim c s
  else s.

(** [cancelSettled] resolves. *)
Definition cancel_settles (c : nat) (s : pool) : pool :=
  if bool_decide (c ∈ settling s) then reclaim c (set_settling (settling s ∖ {[c]}) s) else s.

(** The ROLLBACK of a leaked transaction ends. *)
Definition rollback_ends (c : nat) (ok : bool) (s : pool) : pool :=
  if bool_decide (c ∈ rolling s) then
    let s := set_rolling (rolling s ∖ {[c]}) s in
    if ok then checkin c s else refill (end_conn c (drop_conn c s))
  else s.

(** ** [connect()] of an opening connection settles *)

Definition open_ok (c : nat) (s : pool) : pool :=
  match opening s !! c, ctorError cfg with
  | Some p, None =>
    let s := set_opening (delete c (opening s)) s in
    match p with
    | ForAcquire a => answer_ a (Got c) (set_out ({[c]} ∪ out s) s)
    | ForRefill a => settle_waiter a (Got c) (set_out ({[c]} ∪ out s) s)
    | ForProbe _ => settleBreaker (set_lastProbeError None (push_idle c s))
    end
  | _, _ => s
  end.

(** What the constructor throws is marked fatal. *)
Definition open_error (e : fault) : fault :=
  match ctorError cfg with Some e0 => mkFault (fcode e0) (fmessage e0) (fname_ e0) true | None => e end.

Definition open_fails (c : nat) (e : fault) (s : pool) : pool :=
  match opening s !! c with
  | None => s
  | Some p =>
    let e := open_error e in
    let s := drop_conn c (set_opening (delete c (opening s)) s) in
    match p with
    | ForAcquire a =>
      if negb (rcEnabled cfg) then answer_ a (Failed (Fault e)) s
      else
        let s := trip e s in
        match broken s with Some b => answer_ a (Failed (Fault b)) s | None => acquire a s end
    | ForProbe attempt =>
      let s := set_lastProbeError (Some e) s in
      match classify e with
      | Fatal => settleBreaker (set_broken (Some e) s)
      | Unavailable =>
        if down s && negb (closed s)
        then nap (next s) (S attempt) (set_next (S (next s)) s) else s
      end
    | ForRefill a =>
      if negb (rcEnabled cfg) then settle_waiter a (Failed (Fault e)) s
      else
        let s := trip e (set_waiters (a :: waiters s) s) in
        match broken s with Some b => failWaiters (Fault b) s | None => s end
    end
  end.

(** ** Transactions and the end *)

(** [withTx] once its connection is there, and its [finally]. *)
Definition tx_begin (m : nat) (s : pool) : pool :=
  if guardTx cfg then set_marks (<[m := true]> (marks s)) s else s.
Definition tx_end (m c : nat) (s : pool) : pool :=
  release c (if guardTx cfg then set_marks (<[m := false]> (marks s)) s else s).

Definition end_ (s : pool) : pool :=
  let s := cancelProbeNap (set_closed true s) in
  let s := failWaiters PoolEnded s in
  let s := wake_recovered s in
  let s := set_idleTimers ∅ s in
  set_out ∅ (set_idle [] (set_all ∅ (set_ended (all s ∪ ended s) s))).

(** ** Turns *)

Inductive event :=
| EAcquire (a : client)
| EOpenOk (c : nat)
| EOpenFails (c : nat) (e : fault)
| ERelease (c : nat)
| ECancelSettles (c : nat)
| ERollbackEnds (c : nat) (ok : bool)
| EIdleTimer (c : nat)
| EWaitTimer (a : client)
| ENapTimer (p : nat)
| ERecoveryTimer (a : client)
| ETxBegin (m : nat)
| ETxEnd (m c : nat)
| EInfo (c : nat) (i : cinfo)
| EEnd.

Definition handle (e : event) (s : pool) : pool :=
  match e with
  | EAcquire a => acquire a s
  | EOpenOk c => open_ok c s
  | EOpenFails c e => open_fails c e s
  | ERelease c => release c s
  | ECancelSettles c => cancel_settles c s
  | ERollbackEnds c ok => rollback_ends c ok s
  | EIdleTimer c => if bool_decide (c ∈ idleTimers s) then idleTimer_fires c s else s
  | EWaitTimer a => if bool_decide (cid a ∈ waitTimers s) then waitTimer_fires a s else s
  | ENapTimer p => nap_fires p s
  | ERecoveryTimer a => recoveryTimer_fires a s
  | ETxBegin m => tx_begin m s
  | ETxEnd m c => tx_end m c s
  | EInfo c i => set_info (<[c := i]> (info s)) s
  | EEnd => end_ s
  end.

(** A run from a new pool. *)
Inductive reachable : pool -> Prop :=
| reach_new : reachable new_pool
| reach_step e s : reachable s -> reachable (handle e s).
End Pool.
