(* ===== verification/PoolProofs.v ===== *)
(** * Pool: its invariants and what breaks them *)

From S2P Require Import Prelude Buf Faults Pool.

(** Where a connection can be. *)
Record Inv (s : pool) : Prop := mkInv {
  inv_idle : NoDup (idle s);
  inv_idle_out : forall c, c ∈ idle s -> c ∉ out s;
  inv_opening : forall c, is_Some (opening s !! c) -> c ∉ idle s /\ c ∉ out s /\ c ∉ settling s /\ c ∉ rolling s;
  inv_settling : forall c, c ∈ settling s -> c ∉ idle s /\ c ∉ out s /\ c ∉ rolling s;
  inv_rolling : forall c, c ∈ rolling s -> c ∉ idle s /\ c ∉ out s;
  inv_next : forall c, c ∈ idle s \/ c ∈ out s \/ is_Some (opening s !! c) \/ c ∈ settling s \/ c ∈ rolling s -> (c < next s)%nat }.

(** A state in which [c] is nowhere: just taken out of one of the sets. *)
Definition free (c : nat) (s : pool) : Prop :=
  c ∉ idle s /\ c ∉ out s /\ opening s !! c = None /\ c ∉ settling s /\ c ∉ rolling s /\ (c < next s)%nat.

Ltac pool_unfold := repeat
  match goal with
  | s : pool |- _ => destruct s; simpl in *
  end.

Section Inv.
Context (cfg : config).

(** The fields [Inv] talks about. *)
Definition core_of (s : pool) := (idle s, out s, opening s, settling s, rolling s, next s).
Lemma Inv_core s s' : core_of s = core_of s' -> Inv s -> Inv s'.
Proof. intros E [? ? ? ? ? ?]. injection E as E1 E2 E3 E4 E5 E6. split; rewrite <- ?E1, <- ?E2, <- ?E3, <- ?E4, <- ?E5, <- ?E6; done. Qed.

Lemma Inv_new : Inv new_pool.
Proof.
  split; simpl; [by constructor|set_solver| |set_solver|set_solver|]; intros c.
  - rewrite lookup_empty. by intros [].
  - rewrite lookup_empty. intros [H|[H|[[? H]|[H|H]]]]; [set_solver|set_solver|done|set_solver|set_solver].
Qed.

Lemma core_answer a r s : core_of (answer_ a r s) = core_of s.
Proof. unfold answer_. by case_match. Qed.
Lemma core_settle_waiter a r s : core_of (settle_waiter a r s) = core_of s.
Proof. unfold settle_waiter. by rewrite core_answer. Qed.

Lemma next_nowhere s : Inv s ->
  next s ∉ idle s /\ next s ∉ out s /\ next s ∉ settling s /\ next s ∉ rolling s.
Proof.
  intros I. split_and!; intros H; assert (next s < next s)%nat by (apply (inv_next _ I); tauto); lia.
Qed.

Lemma Inv_open p s : Inv s -> Inv (open cfg p s).
Proof.
  intros I. pose proof (next_nowhere s I) as Hn. destruct I as [H1 H2 H3 H4 H5 H6].
  assert (Inv (set_next (S (next s)) (set_opening (<[next s := p]> (opening s)) s))) as I'.
  { split; simpl; [done|done| |done|done|].
    - intros c [q Hq]. apply lookup_insert_Some in Hq as [[<- _]|[_ Hq]]; [done|]. apply H3. by eexists.
    - intros c Hc. destruct (decide (c = next s)) as [->|Hne]; [lia|]. enough (c < next s)%nat by lia. apply H6.
      destruct Hc as [?|[?|[[q Hq]|?]]]; [tauto|tauto| |tauto]. apply lookup_insert_Some in Hq as [[<- _]|[_ Hq]]; [done|].
      right; right; left. by eexists. }
  unfold open. case_match; [done|]. by eapply Inv_core; [|exact I'].
Qed.

(** What a turn may hand out: connections outside [out], each to one client, and
    they are in [out] afterwards. *)
Record grow (s s' : pool) : Prop := mkGrow {
  grow_out : out s ⊆ out s';
  grow_settled : forall a r, settled s !! a = Some r -> settled s' !! a = Some r;
  grow_new : forall a c, settled s !! a = None -> settled s' !! a = Some (Got c) -> c ∉ out s /\ c ∈ out s';
  grow_one : forall a b c, settled s !! a = None -> settled s' !! a = Some (Got c) ->
    settled s !! b = None -> settled s' !! b = Some (Got c) -> a = b }.

Lemma grow_refl s : grow s s.
Proof. split; [done|done| |]; intros; congruence. Qed.

Lemma grow_trans s1 s2 s3 : grow s1 s2 -> grow s2 s3 -> grow s1 s3.
Proof.
  intros [A1 A2 A3 A4] [B1 B2 B3 B4]. split.
  - set_solver.
  - auto.
  - intros a c H1 H3. destruct (settled s2 !! a) as [r|] eqn:E.
    + pose proof (B2 _ _ E). assert (r = Got c) as -> by congruence. destruct (A3 _ _ H1 E). set_solver.
    + destruct (B3 _ _ E H3). set_solver.
  - intros a b c Ha Ha3 Hb Hb3. destruct (settled s2 !! a) as [r|] eqn:Ea, (settled s2 !! b) as [r'|] eqn:Eb.
    + pose proof (B2 _ _ Ea). pose proof (B2 _ _ Eb). assert (r = Got c) as -> by congruence.
      assert (r' = Got c) as -> by congruence. by eapply A4.
    + pose proof (B2 _ _ Ea). assert (r = Got c) as -> by congruence. destruct (A3 _ _ Ha Ea), (B3 _ _ Eb Hb3). done.
    + pose proof (B2 _ _ Eb). assert (r' = Got c) as -> by congruence. destruct (A3 _ _ Hb Eb), (B3 _ _ Ea Ha3). done.
    + by eapply B4.
Qed.

(** A change that moves no connection and hands none out. *)
Definition quiet (s s' : pool) : Prop :=
  core_of s = core_of s' /\ (forall a r, settled s !! a = Some r -> settled s' !! a = Some r)
  /\ (forall a c, settled s' !! a = Some (Got c) -> settled s !! a = Some (Got c)).

Lemma quiet_grow s s' : quiet s s' -> grow s s'.
Proof.
  intros (E & H1 & H2). injection E as _ E _ _ _ _. split; [by rewrite E|done| |].
  - intros a c Hn Hg. apply H2 in Hg. congruence.
  - intros a b c Hn Hg. apply H2 in Hg. congruence.
Qed.
Lemma quiet_Inv s s' : quiet s s' -> Inv s -> Inv s'.
Proof. intros (E & _). by apply Inv_core. Qed.
Lemma quiet_free c s s' : quiet s s' -> free c s -> free c s'.
Proof. intros (E & _). injection E as E1 E2 E3 E4 E5 E6. unfold free. by rewrite E1, E2, E3, E4, E5, E6. Qed.
Lemma quiet_trans s1 s2 s3 : quiet s1 s2 -> quiet s2 s3 -> quiet s1 s3.
Proof. intros (E & H1 & H2) (E' & H1' & H2'). split; [congruence|]. split; auto. Qed.
Lemma quiet_refl s s' : core_of s = core_of s' -> settled s = settled s' -> quiet s s'.
Proof. intros E ES. split; [done|]. rewrite ES. auto. Qed.

Lemma quiet_fail a f s : quiet s (answer_ a (Failed f) s).
Proof.
  split; [by rewrite core_answer|]. unfold answer_. destruct (settled s !! cid a) eqn:E; [split; auto|]. split.
  - intros b r Hb. simpl. rewrite lookup_insert_ne; [done|]. intros <-. congruence.
  - intros b c. simpl. intros [[_ ?]|[_ ?]]%lookup_insert_Some; [congruence|done].
Qed.
Lemma quiet_settle_fail a f s : quiet s (settle_waiter a (Failed f) s).
Proof. unfold settle_waiter. eapply quiet_trans; [|apply quiet_fail]. by apply quiet_refl. Qed.
Lemma quiet_fold {A} (g : pool -> A -> pool) l s : (forall s a, quiet s (g s a)) -> quiet s (fold_left g l s).
Proof. intros H. revert s. induction l as [|a l IH]; intros s; [by apply quiet_refl|]. simpl. by eapply quiet_trans; [apply H|]. Qed.

(** Giving a free connection to a client. *)
Lemma give_ok c a s (g : pool -> pool) : Inv s -> free c s ->
  (forall s, quiet s (g s)) ->
  let s' := answer_ a (Got c) (g (set_out ({[c]} ∪ out s) s)) in Inv s' /\ grow s s'.
Proof.
  intros [H1 H2 H3 H4 H5 H6] (F1 & F2 & F3 & F4 & F5 & F6) Hg s'.
  set (s1 := set_out ({[c]} ∪ out s) s) in *.
  assert (Inv s1) as I1.
  { split; simpl; [done|set_solver| |set_solver|set_solver|].
    - intros d Hd. destruct (decide (d = c)) as [->|]; [rewrite F3 in Hd; by destruct Hd|]. specialize (H3 _ Hd). set_solver.
    - intros d Hd. destruct (decide (d = c)) as [->|]; [done|]. apply H6. set_solver. }
  destruct (Hg s1) as (E & G1 & G2). set (s2 := g s1) in *. assert (Inv s2) as I2 by (by eapply Inv_core; [exact E|]).
  assert (core_of s2 = core_of s') as E2 by (symmetry; apply core_answer). split; [by eapply Inv_core|].
  assert (out s' = {[c]} ∪ out s) as Eo by (unfold core_of in *; simpl in E; congruence).
  assert (forall b r, settled s !! b = Some r -> settled s2 !! b = Some r) as Hm by (intros; by apply G1).
  assert (forall b d, settled s' !! b = Some (Got d) -> settled s !! b = None -> b = cid a /\ d = c) as Hnew.
  { intros b d. unfold s', answer_. destruct (settled s2 !! cid a) eqn:Ea.
    - intros Hb Hn. apply G2 in Hb. simpl in Hb. congruence.
    - simpl. intros [[<- [= <-]]|[_ Hb]]%lookup_insert_Some Hn; [done|]. apply G2 in Hb. simpl in Hb. congruence. }
  split.
  - rewrite Eo. set_solver.
  - intros b r Hb. unfold s', answer_. specialize (Hm _ _ Hb). destruct (settled s2 !! cid a) eqn:Ea; [done|].
    simpl. rewrite lookup_insert_ne; [done|]. intros <-. congruence.
  - intros b d Hn Hb. destruct (Hnew _ _ Hb Hn) as [-> ->]. rewrite Eo. set_solver.
  - intros b b' d Hn Hb Hn' Hb'. destruct (Hnew _ _ Hb Hn), (Hnew _ _ Hb' Hn'). congruence.
Qed.

Definition ok (s s' : pool) : Prop := Inv s -> Inv s' /\ grow s s'.
Lemma ok_quiet s s' : quiet s s' -> ok s s'.
Proof. intros Hq I. split; [by eapply quiet_Inv|by apply quiet_grow]. Qed.
Lemma ok_trans s1 s2 s3 : ok s1 s2 -> ok s2 s3 -> ok s1 s3.
Proof. intros H1 H2 I. destruct (H1 I) as [I2 G1]. destruct (H2 I2) as [I3 G2]. split; [done|by eapply grow_trans]. Qed.
Lemma ok_refl s s' : core_of s = core_of s' -> settled s = settled s' -> ok s s'.
Proof. intros. apply ok_quiet, quiet_refl; done. Qed.
Lemma ok_pre s s1 s2 : core_of s = core_of s1 -> settled s = settled s1 -> ok s1 s2 -> ok s s2.
Proof. intros. eapply ok_trans; [by apply ok_refl|done]. Qed.
Lemma ok_fold {A} (g : pool -> A -> pool) l s : (forall s a, ok s (g s a)) -> ok s (fold_left g l s).
Proof. intros H. revert s. induction l as [|a l IH]; intros s; [by apply ok_refl|]. simpl. by eapply ok_trans; [apply H|]. Qed.

Lemma open_ok_ p s : ok s (open cfg p s).
Proof.
  intros I. split; [by apply Inv_open|]. assert (out s = out (open cfg p s) /\ settled (open cfg p s) = settled s) as [Eo Es].
  { unfold open. by case_match. }
  split; rewrite ?Es, <- ?Eo; [done|done| |]; intros; congruence.
Qed.

(** Taking the last place of a connection away. *)
Lemma take_idle c t s : Inv s -> idle s = c :: t ->
  let s' := set_idle t s in Inv s' /\ free c s' /\ quiet (set_idle t s) s'.
Proof.
  intros [H1 H2 H3 H4 H5 H6] E s'. rewrite E in *. apply NoDup_cons in H1 as [Hc Ht].
  split; [|split; [|by apply quiet_refl]].
  - split; simpl; [done|set_solver|set_solver|set_solver|set_solver|]. intros d Hd. apply H6. set_solver.
  - split_and!; simpl; [done|apply H2; set_solver| | | |apply H6; set_solver].
    + destruct (opening s !! c) eqn:Eo; [|done]. destruct (H3 c) as [Hn _]; [by eexists|]. set_solver.
    + intros Hs. destruct (H4 c Hs) as [Hn _]. set_solver.
    + intros Hr. destruct (H5 c Hr) as [Hn _]. set_solver.
Qed.

Lemma take_out c s : Inv s -> c ∈ out s -> let s' := set_out (out s ∖ {[c]}) s in Inv s' /\ free c s'.
Proof.
  intros [H1 H2 H3 H4 H5 H6] Hc s'. split.
  - split; simpl; [done|set_solver|set_solver|set_solver|set_solver|]. intros d Hd. apply H6. set_solver.
  - split_and!; simpl; [set_solver|set_solver| | | |apply H6; set_solver].
    + destruct (opening s !! c) eqn:Eo; [|done]. destruct (H3 c) as (_ & Hn & _); [by eexists|]. set_solver.
    + intros Hs. destruct (H4 c Hs) as (_ & Hn & _). set_solver.
    + intros Hr. destruct (H5 c Hr) as [_ Hn]. set_solver.
Qed.

Lemma take_settling c s : Inv s -> c ∈ settling s -> let s' := set_settling (settling s ∖ {[c]}) s in Inv s' /\ free c s'.
Proof.
  intros [H1 H2 H3 H4 H5 H6] Hc s'. split.
  - split; simpl; [done|set_solver|set_solver|set_solver|set_solver|]. intros d Hd. apply H6. set_solver.
  - destruct (H4 c Hc) as (? & ? & ?). split_and!; simpl; [set_solver|set_solver| |set_solver|set_solver|apply H6; set_solver].
    destruct (opening s !! c) eqn:Eo; [|done]. destruct (H3 c) as (_ & _ & Hn & _); [by eexists|]. set_solver.
Qed.

Lemma take_rolling c s : Inv s -> c ∈ rolling s -> let s' := set_rolling (rolling s ∖ {[c]}) s in Inv s' /\ free c s'.
Proof.
  intros [H1 H2 H3 H4 H5 H6] Hc s'. split.
  - split; simpl; [done|set_solver|set_solver|set_solver|set_solver|]. intros d Hd. apply H6. set_solver.
  - destruct (H5 c Hc) as (? & ?). split_and!; simpl; [set_solver|set_solver| | |set_solver|apply H6; set_solver].
    + destruct (opening s !! c) eqn:Eo; [|done]. destruct (H3 c) as (_ & _ & _ & Hn); [by eexists|]. set_solver.
    + intros Hs. destruct (H4 c Hs) as (_ & _ & Hn). set_solver.
Qed.

Lemma take_opening c p s : Inv s -> opening s !! c = Some p ->
  let s' := set_opening (delete c (opening s)) s in Inv s' /\ free c s'.
Proof.
  intros [H1 H2 H3 H4 H5 H6] Hc s'. destruct (H3 c) as (? & ? & ? & ?); [by eexists|]. split.
  - split; simpl; [done|set_solver| |set_solver|set_solver|].
    + intros d Hd. apply H3. destruct Hd as [q Hd]. apply lookup_delete_Some in Hd as [_ Hd]. by eexists.
    + intros d Hd. apply H6. destruct Hd as [?|[?|[[q Hd]|?]]]; [set_solver|set_solver| |set_solver].
      apply lookup_delete_Some in Hd as [_ Hd]. right; right; left. by eexists.
  - split_and!; simpl; try done; [apply lookup_delete_eq|]. apply H6. right; right; left. by eexists.
Qed.

(** Putting a free connection somewhere. *)
Lemma put_idle c s : Inv s -> free c s -> Inv (push_idle cfg c s) /\ grow s (push_idle cfg c s).
Proof.
  intros [H1 H2 H3 H4 H5 H6] (F1 & F2 & F3 & F4 & F5 & F6).
  assert (Inv (set_idle (c :: idle s) s)) as I.
  { split; simpl.
    - by apply NoDup_cons.
    - set_solver.
    - intros d Hd. destruct (decide (d = c)) as [->|]; [rewrite F3 in Hd; by destruct Hd|]. specialize (H3 _ Hd). set_solver.
    - intros d Hd. specialize (H4 _ Hd). set_solver.
    - intros d Hd. specialize (H5 _ Hd). set_solver.
    - intros d Hd. destruct (decide (d = c)) as [->|]; [done|]. apply H6. set_solver. }
  assert (grow s (set_idle (c :: idle s) s)) as G by (split; simpl; [done|done| |]; intros; congruence).
  assert (quiet (set_idle (c :: idle s) s) (push_idle cfg c s)) as Q
    by (unfold push_idle, armIdleTimer; destruct (_ <=? _); by apply quiet_refl).
  split; [by eapply quiet_Inv|]. eapply grow_trans; [exact G|by apply quiet_grow].
Qed.

Lemma put_settling c s : Inv s -> free c s ->
  Inv (set_settling ({[c]} ∪ settling s) s) /\ grow s (set_settling ({[c]} ∪ settling s) s).
Proof.
  intros [H1 H2 H3 H4 H5 H6] (F1 & F2 & F3 & F4 & F5 & F6). split.
  - split; simpl; [done|done| | |done|].
    + intros d Hd. destruct (decide (d = c)) as [->|]; [rewrite F3 in Hd; by destruct Hd|]. specialize (H3 _ Hd). set_solver.
    + intros d Hd. destruct (decide (d = c)) as [->|]; [done|]. apply H4. set_solver.
    + intros d Hd. destruct (decide (d = c)) as [->|]; [done|]. apply H6. set_solver.
  - split; simpl; [done|done| |]; intros; congruence.
Qed.

Lemma put_rolling c s : Inv s -> free c s ->
  Inv (set_rolling ({[c]} ∪ rolling s) s) /\ grow s (set_rolling ({[c]} ∪ rolling s) s).
Proof.
  intros [H1 H2 H3 H4 H5 H6] (F1 & F2 & F3 & F4 & F5 & F6). split.
  - split; simpl; [done|done| | | |].
    + intros d Hd. destruct (decide (d = c)) as [->|]; [rewrite F3 in Hd; by destruct Hd|]. specialize (H3 _ Hd). set_solver.
    + intros d Hd. specialize (H4 _ Hd). set_solver.
    + intros d Hd. destruct (decide (d = c)) as [->|]; [done|]. apply H5. set_solver.
    + intros d Hd. destruct (decide (d = c)) as [->|]; [done|]. apply H6. set_solver.
  - split; simpl; [done|done| |]; intros; congruence.
Qed.

(** ** The handlers *)

Lemma pop_idle_ok l s : Inv s -> idle s = l ->
  let '(r, s') := pop_idle l s in
  Inv s' /\ grow s s' /\ match r with Some c => free c s' | None => idle s' = [] end.
Proof.
  revert s. induction l as [|c t IH]; intros s I E; cbn [pop_idle].
  - split; [|split; [|done]]; [eapply Inv_core; [|exact I]; unfold core_of; simpl; by rewrite E|].
    apply quiet_grow, quiet_refl; [unfold core_of; simpl; by rewrite E|done].
  - destruct (take_idle c t s I E) as (I1 & F1 & _). set (s1 := clearIdleTimer c (set_idle t s)).
    assert (quiet (set_idle t s) s1) as Q by (by apply quiet_refl).
    assert (grow s s1) as G1 by (split; simpl; [done|done| |]; intros; congruence).
    destruct (cclosed (conn_info s1 c)).
    + assert (quiet s1 (drop_conn c s1)) as Q2 by (by apply quiet_refl).
      specialize (IH (drop_conn c s1)). destruct (pop_idle t (drop_conn c s1)) as [r s'].
      destruct IH as (I' & G' & R); [exact (quiet_Inv _ _ Q2 (quiet_Inv _ _ Q I1))|done|]. split; [done|]. split; [|done].
      eapply grow_trans; [exact G1|]. eapply grow_trans; [by apply quiet_grow|done].
    + split; [exact (quiet_Inv _ _ Q I1)|]. split; [done|]. exact (quiet_free _ _ _ Q F1).
Qed.

Lemma waitForFree_quiet a s : quiet s (waitForFree cfg a s).
Proof. unfold waitForFree. case_match; by apply quiet_refl. Qed.

Lemma acquire_rest_ok a s : ok s (acquire_rest cfg a s).
Proof.
  intros I. unfold acquire_rest. pose proof (pop_idle_ok (idle s) s I eq_refl) as H.
  destruct (pop_idle (idle s) s) as [[c|] s1]; destruct H as (I1 & G1 & H1).
  - destruct (give_ok c a s1 (fun s => s) I1 H1) as [I2 G2]; [intros; by apply quiet_refl|].
    split; [done|]. by eapply grow_trans.
  - assert (ok s1 (if size_ s1 <? max cfg then open cfg (ForAcquire a) s1 else waitForFree cfg a s1)) as [I2 G2]; [|done|].
    { case_match; [apply open_ok_|]. apply ok_quiet, waitForFree_quiet. }
    split; [done|]. by eapply grow_trans.
Qed.

Lemma acquire_ok a s : ok s (acquire cfg a s).
Proof.
  unfold acquire. repeat case_match; try (apply ok_quiet, quiet_fail); [by apply ok_refl|apply acquire_rest_ok].
Qed.

Lemma onRecover_ok a s : ok s (onRecover cfg a s).
Proof. unfold onRecover. repeat case_match; try (apply ok_quiet, quiet_fail); apply acquire_rest_ok. Qed.
Lemma wake_recovered_ok s : ok s (wake_recovered cfg s).
Proof. eapply ok_trans; [|apply ok_fold; intros; apply onRecover_ok]. by apply ok_refl. Qed.
Lemma cancelProbeNap_quiet s : quiet s (cancelProbeNap s).
Proof. unfold cancelProbeNap. case_match; by apply quiet_refl. Qed.
Lemma settleBreaker_ok s : ok s (settleBreaker cfg s).
Proof.
  unfold settleBreaker. eapply ok_trans; [|apply wake_recovered_ok].
  eapply ok_trans; [|apply ok_quiet, cancelProbeNap_quiet]. by apply ok_refl.
Qed.

(** Changes that only draw fresh numbers. *)
Lemma ok_next s s' : idle s' = idle s -> out s' = out s -> opening s' = opening s -> settling s' = settling s ->
  rolling s' = rolling s -> (next s <= next s')%nat -> settled s' = settled s -> ok s s'.
Proof.
  intros E1 E2 E3 E4 E5 E6 E7 [? ? ? ? ? H]. split.
  - split; rewrite ?E1, ?E2, ?E3, ?E4, ?E5; try done. intros c Hc. specialize (H c Hc). lia.
  - split; rewrite ?E2, ?E7; [done|done| |]; intros; congruence.
Qed.

Lemma trip_ok e s : ok s (trip cfg e s).
Proof.
  unfold trip. case_match.
  - eapply ok_trans; [|apply settleBreaker_ok]. by apply ok_refl.
  - case_match; [by apply ok_refl|]. apply ok_next; simpl; try done. lia.
Qed.

Lemma refill_loop_ok ws s : ok s (refill_loop cfg ws s).
Proof.
  revert s. induction ws as [|w t IH]; intros s; cbn [refill_loop]; [by apply ok_refl|].
  case_match; [|by apply ok_refl]. eapply ok_trans; [|apply IH]. eapply ok_trans; [|apply open_ok_]. by apply ok_refl.
Qed.
Lemma refill_ok s : ok s (refill cfg s).
Proof. unfold refill. case_match; [by apply ok_refl|apply refill_loop_ok]. Qed.

Definition okf (c : nat) (s s' : pool) : Prop := Inv s -> free c s -> Inv s' /\ grow s s'.
Lemma okf_trans c s1 s2 s3 : okf c s1 s2 -> ok s2 s3 -> okf c s1 s3.
Proof. intros H1 H2 I F. destruct (H1 I F) as [I2 G1]. destruct (H2 I2) as [I3 G2]. split; [done|by eapply grow_trans]. Qed.
Lemma okf_quiet c s1 s2 s3 : quiet s1 s2 -> okf c s2 s3 -> okf c s1 s3.
Proof.
  intros Q H I F. destruct (H (quiet_Inv _ _ Q I) (quiet_free _ _ _ Q F)) as [I' G]. split; [done|].
  eapply grow_trans; [by apply quiet_grow|done].
Qed.
Lemma okf_ok c s s' : ok s s' -> okf c s s'.
Proof. intros H I _. by apply H. Qed.

Lemma checkin_ok c s : okf c s (checkin cfg c s).
Proof.
  unfold checkin. destruct (down s); [eapply okf_trans; [intros I F; by apply put_idle|apply settleBreaker_ok]|].
  destruct (waiters s) as [|w t]; [intros I F; by apply put_idle|].
  intros I F. assert (quiet s (set_waiters t s)) as Q by (by apply quiet_refl).
  destruct (give_ok c w (set_waiters t s) (fun s => set_waitTimers (waitTimers s ∖ {[cid w]}) s)) as [I' G'].
  - by eapply quiet_Inv.
  - by eapply quiet_free.
  - intros s'. by apply quiet_refl.
  - split; [exact I'|]. eapply grow_trans; [by apply quiet_grow|exact G'].
Qed.

Lemma reclaim_ok c s : okf c s (reclaim cfg c s).
Proof.
  unfold reclaim. case_match; [|case_match; [|case_match]].
  - apply okf_ok. eapply ok_trans; [|apply refill_ok]. by apply ok_refl.
  - apply okf_ok. by apply ok_refl.
  - intros I F. by apply put_rolling.
  - apply checkin_ok.
Qed.

Lemma open_ok_ok c s : ok s (open_ok cfg c s).
Proof.
  unfold open_ok. destruct (opening s !! c) as [p|] eqn:E; [|by apply ok_refl].
  destruct (ctorError cfg); [by apply ok_refl|]. intros I. destruct (take_opening c p s I E) as [I1 F1].
  set (s1 := set_opening (delete c (opening s)) s) in *.
  assert (grow s s1) as G1 by (split; simpl; [done|done| |]; intros; congruence).
  assert (okf c s1 (match p with
    | ForAcquire a => answer_ a (Got c) (set_out ({[c]} ∪ out s1) s1)
    | ForProbe _ => settleBreaker cfg (set_lastProbeError None (push_idle cfg c s1))
    | ForRefill a => settle_waiter a (Got c) (set_out ({[c]} ∪ out s1) s1) end)) as H.
  { destruct p as [a|k|a].
    - intros I' F'. apply (give_ok c a s1 (fun s => s) I' F'). intros. by apply quiet_refl.
    - eapply okf_trans; [intros I' F'; by apply put_idle|]. eapply ok_trans; [|apply settleBreaker_ok]. by apply ok_refl.
    - intros I' F'. apply (give_ok c a s1 (fun s => set_waitTimers (waitTimers s ∖ {[cid a]}) s) I' F').
      intros. by apply quiet_refl. }
  destruct (H I1 F1) as [I2 G2]. split; [done|]. by eapply grow_trans.
Qed.

Lemma failWaiters_quiet f s : quiet s (failWaiters f s).
Proof.
  unfold failWaiters. eapply quiet_trans; [|apply quiet_fold; intros; apply quiet_settle_fail]. by apply quiet_refl.
Qed.

Lemma nap_ok k s : ok s (nap (next s) k (set_next (S (next s)) s)).
Proof. apply ok_next; simpl; try done. lia. Qed.

Lemma open_fails_ok c e s : ok s (open_fails cfg c e s).
Proof.
  unfold open_fails. destruct (opening s !! c) as [p|] eqn:E; [|by apply ok_refl].
  intros I. destruct (take_opening c p s I E) as [I1 F1].
  set (s1 := drop_conn c (set_opening (delete c (opening s)) s)).
  assert (Inv s1) as I2 by (by eapply Inv_core; [|exact I1]).
  assert (grow s s1) as G1 by (split; simpl; [done|done| |]; intros; congruence).
  enough (forall s2, ok s1 s2 -> Inv s2 /\ grow s s2) as H.
  { destruct p as [a|k|a].
    - case_match; [apply H, ok_quiet, quiet_fail|]. case_match.
      + apply H. eapply ok_trans; [apply trip_ok|apply ok_quiet, quiet_fail].
      + apply H. eapply ok_trans; [apply trip_ok|apply acquire_ok].
    - apply H. case_match.
      + eapply ok_trans; [|apply settleBreaker_ok]. by apply ok_refl.
      + case_match; [|by apply ok_refl]. eapply ok_trans; [|apply nap_ok]. by apply ok_refl.
    - case_match; [apply H, ok_quiet, quiet_settle_fail|]. apply H. case_match.
      + apply (ok_pre _ (set_waiters (a :: waiters s1) s1)); [done|done|].
        eapply ok_trans; [apply trip_ok|apply ok_quiet, failWaiters_quiet].
      + apply (ok_pre _ (set_waiters (a :: waiters s1) s1)); [done|done|]. apply trip_ok. }
  intros s2 Hok. destruct (Hok I2) as [I3 G3]. split; [done|]. by eapply grow_trans.
Qed.

Lemma nap_fires_ok p s : ok s (nap_fires cfg p s).
Proof.
  unfold nap_fires. case_match; [|by apply ok_refl]. case_match; [by apply ok_refl|].
  eapply ok_trans; [|apply open_ok_]. by apply ok_refl.
Qed.

Lemma filter_idle_ok c s : Inv s -> Inv (set_idle (filter (fun x => x <> c) (idle s)) s).
Proof.
  intros [H1 H2 H3 H4 H5 H6]. split; simpl.
  - by apply NoDup_filter.
  - intros d [_ Hd]%list_elem_of_filter. by apply H2.
  - intros d Hd. specialize (H3 d Hd). rewrite list_elem_of_filter. tauto.
  - intros d Hd. specialize (H4 d Hd). rewrite list_elem_of_filter. tauto.
  - intros d Hd. specialize (H5 d Hd). rewrite list_elem_of_filter. tauto.
  - intros d Hd. apply H6. rewrite list_elem_of_filter in Hd. tauto.
Qed.

Lemma idleTimer_ok c s : ok s (idleTimer_fires c s).
Proof.
  unfold idleTimer_fires. case_match; [|by apply ok_refl]. intros I. split.
  - assert (Inv (clearIdleTimer c s)) as I' by (by eapply Inv_core; [|exact I]).
    eapply Inv_core; [|exact (filter_idle_ok c _ I')]. done.
  - split; simpl; [done|done| |]; intros; congruence.
Qed.

Lemma rollback_ends_ok c b s : ok s (rollback_ends cfg c b s).
Proof.
  unfold rollback_ends. case_bool_decide; [|by apply ok_refl]. intros I. destruct (take_rolling c s I H) as [I1 F1].
  set (s1 := set_rolling (rolling s ∖ {[c]}) s) in *.
  assert (grow s s1) as G1 by (split; simpl; [done|done| |]; intros; congruence).
  assert (okf c s1 (if b then checkin cfg c s1 else refill cfg (end_conn c (drop_conn c s1)))) as Hk.
  { destruct b; [apply checkin_ok|]. apply okf_ok. eapply ok_trans; [|apply refill_ok]. by apply ok_refl. }
  destruct (Hk I1 F1) as [I2 G2]. split; [done|by eapply grow_trans].
Qed.

Lemma cancel_settles_ok c s : ok s (cancel_settles cfg c s).
Proof.
  unfold cancel_settles. case_bool_decide; [|by apply ok_refl]. intros I. destruct (take_settling c s I H) as [I1 F1].
  destruct (reclaim_ok c _ I1 F1) as [I2 G2]. split; [done|]. eapply grow_trans; [|exact G2].
  split; simpl; [done|done| |]; intros; congruence.
Qed.

(** After the release of [c], everything else is a turn that grows. *)
Lemma release_ok c s : Inv s -> exists s1, Inv s1 /\ out s ⊆ {[c]} ∪ out s1 /\ settled s1 = settled s
  /\ Inv (release cfg c s) /\ grow s1 (release cfg c s).
Proof.
  intros I. unfold release. case_bool_decide as Hc; [|exists s; split_and!; [done|set_solver|done|done|apply grow_refl]].
  destruct (take_out c s I Hc) as [I1 F1]. set (s1 := set_out (out s ∖ {[c]}) s) in *. exists s1.
  split; [done|]. split; [intros x Hx; simpl; destruct (decide (x = c)); set_solver|]. split; [done|].
  case_match; [by apply put_settling|by apply reclaim_ok].
Qed.

Lemma wake_closed l s : closed s = true -> quiet s (fold_left (fun s a => onRecover cfg a s) l s).
Proof.
  revert s. induction l as [|a l IH]; intros s Hs; [by apply quiet_refl|]. simpl. unfold onRecover at 2. rewrite Hs.
  eapply quiet_trans; [apply quiet_fail|]. apply IH. unfold answer_. by case_match.
Qed.

Lemma end_Inv s : Inv s -> Inv (end_ cfg s) /\ (forall a c, settled (end_ cfg s) !! a = Some (Got c) -> settled s !! a = Some (Got c)).
Proof.
  intros I. unfold end_. set (s1 := failWaiters _ _).
  assert (quiet s s1) as Q1.
  { eapply quiet_trans; [|apply failWaiters_quiet]. eapply quiet_trans; [|apply cancelProbeNap_quiet]. by apply quiet_refl. }
  assert (closed s1 = true) as Hc.
  { unfold s1, failWaiters. assert (forall l s, closed (fold_left (fun s a => settle_waiter a (Failed PoolEnded) s) l s) = closed s) as H.
    { induction l as [|a l IH]; intros s'; [done|]. simpl. rewrite IH. unfold settle_waiter, answer_. by case_match. }
    rewrite H. unfold cancelProbeNap. by case_match. }
  assert (quiet s1 (wake_recovered cfg s1)) as Q2.
  { apply quiet_trans with (set_recovered [] s1); [by apply quiet_refl|]. by apply wake_closed. }
  assert (quiet s (wake_recovered cfg s1)) as Q by (by eapply quiet_trans). split; [|intros a c; apply Q].
  pose proof (quiet_Inv _ _ Q I) as [H1 H2 H3 H4 H5 H6].
  split; simpl; [by constructor|set_solver| | | |].
  - intros c Hc'. specialize (H3 c Hc'). set_solver.
  - intros c Hc'. specialize (H4 c Hc'). set_solver.
  - intros c Hc'. set_solver.
  - intros c Hc'. apply H6. set_solver.
Qed.

Definition released (e : event) : option nat :=
  match e with ERelease c | ETxEnd _ c => Some c | _ => None end.

Lemma handle_spec e s : Inv s -> Inv (handle cfg e s) /\
  exists s1, settled s1 = settled s /\ (forall c, c ∈ out s -> c ∈ out s1 \/ released e = Some c) /\
    (grow s1 (handle cfg e s) \/ forall a c, settled (handle cfg e s) !! a = Some (Got c) -> settled s !! a = Some (Got c)).
Proof.
  intros I. assert (forall s', ok s s' -> Inv s' /\ exists s1, settled s1 = settled s /\
    (forall c, c ∈ out s -> c ∈ out s1 \/ released e = Some c) /\
    (grow s1 s' \/ forall a c, settled s' !! a = Some (Got c) -> settled s !! a = Some (Got c))) as Hok.
  { intros s' H. destruct (H I) as [I' G]. split; [done|]. exists s. tauto. }
  destruct e; simpl.
  - apply Hok, acquire_ok.
  - apply Hok, open_ok_ok.
  - apply Hok, open_fails_ok.
  - destruct (release_ok c s I) as (s1 & _ & Ho & Es & I' & G). split; [done|]. exists s1. split_and!; [done| |by left].
    intros d Hd. specialize (Ho d Hd). set_solver.
  - apply Hok, cancel_settles_ok.
  - apply Hok, rollback_ends_ok.
  - apply Hok. case_match; [apply idleTimer_ok|by apply ok_refl].
  - apply Hok. case_match; [|by apply ok_refl]. eapply ok_trans; [|apply ok_quiet, quiet_fail]. by apply ok_refl.
  - apply Hok, nap_fires_ok.
  - apply Hok. unfold recoveryTimer_fires. case_match; [|by apply ok_refl].
    eapply ok_trans; [|apply ok_quiet, quiet_fail]. by apply ok_refl.
  - apply Hok. unfold tx_begin. case_match; by apply ok_refl.
  - set (s0 := if guardTx cfg then set_marks (<[m:=false]> (marks s)) s else s).
    assert (Inv s0) as I0 by (unfold s0; case_match; [by eapply Inv_core; [|exact I]|done]).
    assert (out s0 = out s /\ settled s0 = settled s) as [E1 E2] by (unfold s0; by case_match).
    change (tx_end cfg m c s) with (release cfg c s0).
    destruct (release_ok c s0 I0) as (s1 & _ & Ho & Es & I' & G). split; [done|]. exists s1. rewrite Es.
    split_and!; [done| |by left]. rewrite E1 in Ho. intros d Hd. specialize (Ho d Hd). set_solver.
  - apply (Hok (set_info (<[c:=i]> (info s)) s)). by apply ok_refl.
  - destruct (end_Inv s I) as [I' H]. split; [done|]. exists s. tauto.
Qed.

Lemma reachable_Inv s : reachable cfg s -> Inv s.
Proof. induction 1 as [|e s _ IH]; [apply Inv_new|]. by apply handle_spec. Qed.

(** C23: A connection has at most one holder. In every state any run of calls, timers
    and connection events can reach, an idle connection is not checked out, appears
    once in the stack, and is neither opening, draining a canceled query nor rolling
    back; and whatever turn comes next, a connection given to a caller was not
    checked out before it (unless that very turn released it), goes to one caller
    only, and is checked out after it. *)
Theorem checkout_exclusive s e : reachable cfg s ->
  let s' := handle cfg e s in
  (NoDup (idle s) /\ forall c, c ∈ idle s ->
     c ∉ out s /\ opening s !! c = None /\ c ∉ settling s /\ c ∉ rolling s)
  /\ forall a c, settled s !! a = None -> settled s' !! a = Some (Got c) ->
     (c ∉ out s \/ released e = Some c) /\ c ∈ out s'
     /\ forall b, settled s !! b = None -> settled s' !! b = Some (Got c) -> b = a.
Proof.
  intros R%reachable_Inv s'. split.
  - split; [apply R|]. intros c Hc. split; [by apply R|]. split_and!.
    + destruct (opening s !! c) eqn:E; [|done]. destruct (inv_opening _ R c) as [? _]; [by eexists|done].
    + intros H. by destruct (inv_settling _ R c H) as [? _].
    + intros H. by destruct (inv_rolling _ R c H) as [? _].
  - intros a c Ha Hg. destruct (handle_spec e s R) as (_ & s1 & Es & Ho & [G|H]).
    2:{ apply H in Hg. congruence. }
    rewrite <- Es in Ha. destruct (grow_new _ _ G a c Ha Hg) as [Hn Hin]. split_and!; [|done|].
    + destruct (decide (c ∈ out s)) as [Hc|]; [|by left]. destruct (Ho c Hc); [done|by right].
    + intros b Hb Hg'. rewrite <- Es in Hb. by eapply grow_one.
Qed.
End Inv.
