(* ===== verification/PoolSize.v ===== *)
(** * Pool: its size, its accounting of callers, and the runs that break it *)

From S2P Require Import Prelude Buf Faults Pool PoolProofs.

Section Size.
Context (cfg : config).

Definition run (es : list event) (s : pool) : pool := fold_left (fun s e => handle cfg e s) es s.

Lemma run_reachable es s : reachable cfg s -> reachable cfg (run es s).
Proof. revert s. induction es as [|e es IH]; intros s Hs; [done|]. simpl. apply IH. by constructor. Qed.

(** How many probe loops are alive, asleep or connecting. *)
Definition is_probe (p : purpose) : bool := match p with ForProbe _ => true | _ => false end.
Definition probes (s : pool) : nat :=
  (size (naps s) + length (filter (fun kp => is_probe kp.2 = true) (map_to_list (opening s))))%nat.
Definition calm (s : pool) : bool := (probes s <=? 1)%nat.
Fixpoint calm_run (es : list event) (s : pool) : bool :=
  match es with [] => true | e :: t => calm (handle cfg e s) && calm_run t (handle cfg e s) end.

Record Sz (s : pool) : Prop := mkSz {
  sz_rc : down s = true -> rcEnabled cfg = true;
  sz_open : closed s = false -> ctorError cfg = None -> forall c, is_Some (opening s !! c) -> c ∈ all s;
  sz_closed : closed s = true -> all s = ∅;
  sz_max : closed s = false -> size_ s + (if down s then Z.of_nat (size (naps s)) else 0) <= max cfg }.

Definition szf (s : pool) := (down s, closed s, all s, opening s, naps s).
Lemma Sz_same s s' : szf s = szf s' -> Sz s -> Sz s'.
Proof.
  intros E [? ? ? ?]. injection E as E1 E2 E3 E4 E5. unfold size_ in *.
  split; unfold size_; rewrite <- ?E1, <- ?E2, <- ?E3, <- ?E4, <- ?E5; done.
Qed.

Lemma szf_answer a r s : szf (answer_ a r s) = szf s.
Proof. unfold answer_. by case_match. Qed.
Lemma szf_settle a r s : szf (settle_waiter a r s) = szf s.
Proof. unfold settle_waiter. by rewrite szf_answer. Qed.
Lemma szf_fold {A} (g : pool -> A -> pool) l s : (forall s a, szf (g s a) = szf s) -> szf (fold_left g l s) = szf s.
Proof. intros H. revert s. induction l as [|a l IH]; intros s; [done|]. simpl. by rewrite IH, H. Qed.
Lemma szf_failWaiters f s : szf (failWaiters f s) = szf s.
Proof. unfold failWaiters. rewrite szf_fold; [done|]. intros. apply szf_settle. Qed.
Lemma szf_push c s : szf (push_idle cfg c s) = szf s.
Proof. unfold push_idle, armIdleTimer. by case_match. Qed.
Lemma szf_wait a s : szf (waitForFree cfg a s) = szf s.
Proof. unfold waitForFree. by case_match. Qed.

(** Dropping a connection that is not opening. *)
Lemma Sz_drop c s : opening s !! c = None -> Sz s -> Sz (drop_conn c s).
Proof.
  intros Hc [H1 H2 H3 H4]. split; simpl; [done| |set_solver|].
  - intros Hcl Hct d Hd. assert (d <> c) by (intros ->; rewrite Hc in Hd; by destruct Hd). specialize (H2 Hcl Hct d Hd). set_solver.
  - intros Hcl. specialize (H4 Hcl). unfold size_ in *. simpl.
    assert (size (all s ∖ {[c]}) <= size (all s))%nat by (apply subseteq_size; set_solver). lia.
Qed.

Lemma Sz_open p s : Inv s -> Sz s -> closed s = false -> down s = false -> size_ s <? max cfg = true -> Sz (open cfg p s).
Proof.
  intros I [H1 H2 H3 H4] Hcl Hd Hlt%Z.ltb_lt. unfold open. destruct (ctorError cfg) as [f|] eqn:Ect.
  - split; simpl; rewrite ?Hcl, ?Hd, ?Ect; try done. intros _. unfold size_ in *. simpl. lia.
  - split; simpl; rewrite ?Hcl, ?Hd, ?Ect; try done.
    + intros _ _ c [q Hq]. apply lookup_insert_Some in Hq as [[<- _]|[_ Hq]]; [set_solver|].
      assert (c ∈ all s) by (apply H2; [done|done|by eexists]). set_solver.
    + intros _. unfold size_ in *. simpl. assert (size ({[next s]} ∪ all s) <= 1 + size (all s))%nat.
      { rewrite size_union_alt, size_singleton. apply Nat.add_le_mono_l, subseteq_size. set_solver. }
      lia.
Qed.

Lemma down_answer a r s : down (answer_ a r s) = down s.
Proof. unfold answer_. by case_match. Qed.
Lemma closed_answer a r s : closed (answer_ a r s) = closed s.
Proof. unfold answer_. by case_match. Qed.

(** Both invariants, and the flags the callers test. *)
Definition both (s : pool) : Prop := Inv s /\ Sz s.
Definition okz (s s' : pool) : Prop := both s -> both s' /\ down s' = down s /\ closed s' = closed s.
Lemma okz_trans s1 s2 s3 : okz s1 s2 -> okz s2 s3 -> okz s1 s3.
Proof. intros H1 H2 B. destruct (H1 B) as (B2 & ? & ?). destruct (H2 B2) as (B3 & ? & ?). split; [done|]. split; congruence. Qed.
Lemma okz_same s s' : ok s s' -> szf s = szf s' -> okz s s'.
Proof.
  intros Hok E [I Z]. split; [split; [by apply Hok|by eapply Sz_same]|]. by injection E as -> -> _ _ _.
Qed.
Lemma okz_fold {A} (g : pool -> A -> pool) l s : (forall s a, okz s (g s a)) -> okz s (fold_left g l s).
Proof. intros H. revert s. induction l as [|a l IH]; intros s; [by apply okz_same; [apply ok_refl|]|]. simpl. by eapply okz_trans; [apply H|]. Qed.

Lemma pop_idle_sz l s : both s -> idle s = l ->
  let '(r, s') := pop_idle l s in Sz s' /\ down s' = down s /\ closed s' = closed s.
Proof.
  revert s. induction l as [|c t IH]; intros s [I Z] E; cbn [pop_idle].
  - split; [|done]. by eapply Sz_same; [|exact Z].
  - destruct (take_idle c t s I E) as (I1 & F1 & _). set (s1 := clearIdleTimer c (set_idle t s)).
    assert (Sz s1) as Z1 by (by eapply Sz_same; [|exact Z]). assert (Inv s1) as I2 by (by eapply Inv_core; [|exact I1]).
    destruct (cclosed (conn_info s1 c)); [|done]. specialize (IH (drop_conn c s1)).
    destruct (pop_idle t (drop_conn c s1)) as [r s']. apply IH; [|done]. split; [by eapply Inv_core; [|exact I2]|].
    apply Sz_drop; [|done]. apply F1.
Qed.

Lemma acquire_rest_okz a s : down s = false -> closed s = false -> okz s (acquire_rest cfg a s).
Proof.
  intros Hd Hc B. split; [split; [by apply acquire_rest_ok, B|]|].
  - unfold acquire_rest. pose proof (pop_idle_sz (idle s) s B eq_refl) as H. pose proof (pop_idle_ok (idle s) s (proj1 B) eq_refl) as H'.
    destruct (pop_idle (idle s) s) as [[c|] s1]; destruct H as (Z1 & E1 & E2), H' as (I1 & _ & _).
    + eapply Sz_same; [|exact Z1]. by rewrite szf_answer.
    + destruct (size_ s1 <? max cfg) eqn:E; [apply Sz_open; congruence|]. eapply Sz_same; [|exact Z1]. by rewrite szf_wait.
  - unfold acquire_rest. pose proof (pop_idle_sz (idle s) s B eq_refl) as H.
    destruct (pop_idle (idle s) s) as [[c|] s1]; destruct H as (Z1 & E1 & E2).
    + by rewrite down_answer, closed_answer.
    + unfold open, waitForFree. by repeat case_match.
Qed.

Lemma okz_fail a f s : okz s (answer_ a (Failed f) s).
Proof. apply okz_same; [apply ok_quiet, quiet_fail|]. by rewrite szf_answer. Qed.

Lemma acquire_okz a s : okz s (acquire cfg a s).
Proof.
  unfold acquire. destruct (closed s) eqn:Hc; [apply okz_fail|]. case_match; [apply okz_fail|]. case_match; [apply okz_fail|].
  destruct (down s) eqn:Hd; cbn [andb]; [|by apply acquire_rest_okz].
  intros B. rewrite (sz_rc _ (proj2 B) Hd). apply (okz_same s); [by apply ok_refl|done|done].
Qed.

Lemma onRecover_okz a s : down s = false -> okz s (onRecover cfg a s).
Proof.
  intros Hd. unfold onRecover. destruct (closed s) eqn:Hc; [apply okz_fail|]. case_match; [apply okz_fail|].
  by apply acquire_rest_okz.
Qed.
Lemma wake_okz s : down s = false -> okz s (wake_recovered cfg s).
Proof.
  intros Hd. unfold wake_recovered. eapply okz_trans; [apply okz_same; [by apply (ok_refl s (set_recovered [] s))|done]|].
  assert (down (set_recovered [] s) = false) as Hd' by done. revert Hd'. generalize (set_recovered [] s). generalize (recovered s).
  clear. induction l as [|a l IH]; intros s Hd; [by apply okz_same; [apply ok_refl|]|]. simpl.
  intros B. destruct (onRecover_okz a s Hd B) as (B' & Ed & Ec). rewrite Hd in Ed.
  destruct (IH _ Ed B') as (B2 & ? & ?). split; [done|]. split; congruence.
Qed.

(** A breaker that settles is up. *)
Lemma settle_both s : both s -> both (settleBreaker cfg s) /\ down (settleBreaker cfg s) = false /\ closed (settleBreaker cfg s) = closed s.
Proof.
  intros [I [H1 H2 H3 H4]]. unfold settleBreaker. set (s1 := cancelProbeNap (set_down false s)).
  assert (down s1 = false /\ closed s1 = closed s) as [Hd Hc] by (unfold s1, cancelProbeNap; simpl; by destruct (probeWake s)).
  assert (both s1) as B1.
  { split; [eapply quiet_Inv; [apply cancelProbeNap_quiet|]; by eapply Inv_core; [|exact I]|].
    assert (all s1 = all s /\ opening s1 = opening s) as [Ea Eo] by (unfold s1, cancelProbeNap; simpl; by destruct (probeWake s)).
    split; unfold size_ in *; rewrite ?Hd, ?Hc, ?Ea, ?Eo; try done. intros Hcl. specialize (H4 Hcl). case_match; lia. }
  destruct (wake_okz s1 Hd B1) as (B2 & Ed & Ec). split; [done|]. split; congruence.
Qed.

Definition both_of (s s' : pool) : Prop := both s -> both s'.
Lemma okz_both s s' : okz s s' -> both_of s s'.
Proof. intros H B. by apply H. Qed.
Lemma both_same s s' : ok s s' -> szf s = szf s' -> both_of s s'.
Proof. intros. by apply okz_both, okz_same. Qed.

Lemma drop_both c s : opening s !! c = None -> both_of s (drop_conn c s).
Proof. intros Hc [I Z]. split; [by eapply Inv_core; [|exact I]|by apply Sz_drop]. Qed.

Lemma refill_both s : both_of s (refill cfg s).
Proof.
  unfold refill. destruct (down s) eqn:Hd; [by intros B|]. destruct (closed s) eqn:Hc; [by intros B|]. cbn [orb].
  generalize (waiters s). intros ws. revert s Hd Hc. induction ws as [|w t IH]; intros s Hd Hc; [by intros B|].
  cbn [refill_loop]. destruct (size_ s <? max cfg) eqn:E; [|by intros B].
  intros [I Z]. set (s1 := set_waiters t s). assert (Inv s1) as I1 by (by eapply Inv_core; [|exact I]).
  assert (Sz s1) as Z1 by (by eapply Sz_same; [|exact Z]).
  apply IH; [unfold open; by case_match|unfold open; by case_match|]. split; [by apply Inv_open|]. by apply Sz_open.
Qed.

(** Statements about a connection taken out of its place. *)
Lemma checkin_both c s : both s -> free c s -> both (checkin cfg c s).
Proof.
  intros [I Z] F. split; [by apply checkin_ok|]. unfold checkin. destruct (down s).
  - apply settle_both. split; [by apply put_idle|]. eapply Sz_same; [|exact Z]. by rewrite szf_push.
  - destruct (waiters s); (eapply Sz_same; [|exact Z]); [by rewrite szf_push|by rewrite szf_settle].
Qed.

Lemma reclaim_both c s : both s -> free c s -> both (reclaim cfg c s).
Proof.
  intros B F. unfold reclaim. assert (opening s !! c = None) as Ho by apply F. case_match; [|case_match; [|case_match]].
  - by apply refill_both, drop_both.
  - apply (both_same (drop_conn c s)); [by apply ok_refl|done|]. by apply drop_both.
  - split; [by apply put_rolling; [apply B|]|]. eapply Sz_same; [|exact (proj2 B)]. done.
  - by apply checkin_both.
Qed.

Lemma release_both c s : both_of s (release cfg c s).
Proof.
  intros [I Z]. unfold release. case_bool_decide as Hc; [|done]. destruct (take_out c s I Hc) as [I1 F1].
  assert (Sz (set_out (out s ∖ {[c]}) s)) as Z1 by (by eapply Sz_same; [|exact Z]).
  case_match; [|by apply reclaim_both]. split; [by apply put_settling|]. by eapply Sz_same; [|exact Z1].
Qed.

Lemma open_ok_both c s : both_of s (open_ok cfg c s).
Proof.
  intros [I Z]. split; [by apply open_ok_ok|]. unfold open_ok. destruct (opening s !! c) as [p|] eqn:E; [|done].
  destruct (ctorError cfg) eqn:Ect; [done|]. set (s1 := set_opening (delete c (opening s)) s).
  destruct (take_opening c p s I E) as [I1 F1].
  assert (Sz s1) as Z1.
  { destruct Z as [H1 H2 H3 H4]. split; simpl; [done| |done|done]. intros Hc Hct d [q Hd].
    apply lookup_delete_Some in Hd as [_ Hd]. apply H2; [done|done|by eexists]. }
  destruct p as [a|k|a].
  - eapply Sz_same; [|exact Z1]. by rewrite szf_answer.
  - assert (Inv (push_idle cfg c s1)) as I2 by (by apply put_idle).
    apply settle_both. split; [by eapply Inv_core; [|exact I2]|]. eapply Sz_same; [|exact Z1].
    transitivity (szf (push_idle cfg c s1)); [by rewrite szf_push|done].
  - eapply Sz_same; [|exact Z1]. by rewrite szf_settle.
Qed.

(** The connection whose attempt failed leaves; if that trips the breaker there is
    room for the probe. *)
Lemma trip_both e s : (classify e = Unavailable -> closed s = false -> rcEnabled cfg = true /\ size_ s < max cfg) ->
  both s -> (size (naps (trip cfg e s)) <= 1)%nat -> both (trip cfg e s).
Proof.
  intros Hroom [I Z] Hn. split; [by apply trip_ok|]. revert Hn. unfold trip. destruct (classify e) eqn:Ee.
  - intros _. apply settle_both. split; [by eapply Inv_core; [|exact I]|by eapply Sz_same; [|exact Z]].
  - destruct (down s) eqn:Hd; [done|]. destruct (closed s) eqn:Hc; [done|]. cbn [orb]. intros Hn.
    destruct (Hroom eq_refl eq_refl) as [Hrc Hsz]. destruct Z as [H1 H2 H3 H4].
    split; simpl; rewrite ?Hc; try done; [intros; by apply H2|]. intros _. unfold size_ in *. simpl in *. lia.
Qed.

Lemma pop_idle_naps l s : naps (pop_idle l s).2 = naps s.
Proof. revert s. induction l as [|c t IH]; intros s; cbn [pop_idle]; [done|]. destruct (cclosed _); [by rewrite IH|done]. Qed.
Lemma naps_answer a r s : naps (answer_ a r s) = naps s.
Proof. unfold answer_. by case_match. Qed.
Lemma acquire_naps a s : naps (acquire cfg a s) = naps s.
Proof.
  unfold acquire. repeat case_match; rewrite ?naps_answer; try done. unfold acquire_rest.
  pose proof (pop_idle_naps (idle s) s) as H'. destruct (pop_idle (idle s) s) as [[c|] s1]; simpl in H'; rewrite <- H'.
  - by rewrite naps_answer.
  - case_match; [unfold open|unfold waitForFree]; by case_match.
Qed.
Lemma failWaiters_szf f s : naps (failWaiters f s) = naps s.
Proof. pose proof (szf_failWaiters f s) as H. by injection H. Qed.

Lemma open_error_fatal e f : ctorError cfg = Some f -> classify (open_error cfg e) = Fatal.
Proof. intros E. unfold open_error. rewrite E. apply fatal_auth_classify. unfold isFatalAuth. simpl. by rewrite orb_true_r. Qed.

Lemma calm_naps s : calm s = true -> (size (naps s) <= 1)%nat.
Proof. unfold calm, probes. intros H%Nat.leb_le. lia. Qed.

Lemma Inv_take_opening c p s : Inv s -> opening s !! c = Some p -> Inv (drop_conn c (set_opening (delete c (opening s)) s)).
Proof. intros I E. destruct (take_opening c p s I E) as [I1 _]. by eapply Inv_core; [|exact I1]. Qed.

Lemma size_drop c (X : gset nat) : c ∈ X -> S (size (X ∖ {[c]})) = size X.
Proof.
  intros H. rewrite size_difference; [rewrite size_singleton|set_solver].
  assert (size X <> 0)%nat; [|lia]. intros E%size_empty_inv. set_solver.
Qed.

(** The state [open_fails] goes on from, and the room it leaves. *)
Lemma fails_state c p e s : both s -> opening s !! c = Some p ->
  let s1 := drop_conn c (set_opening (delete c (opening s)) s) in
  both s1 /\ (classify (open_error cfg e) = Unavailable -> closed s = false ->
              size_ s1 + 1 + (if down s then Z.of_nat (size (naps s)) else 0) <= max cfg).
Proof.
  intros [I [H1 H2 H3 H4]] E s1. split.
  - split; [by eapply Inv_take_opening|]. split; simpl; [done| |set_solver|].
    + intros Hc Hct d [q Hd]. apply lookup_delete_Some in Hd as [Hne Hd].
      assert (d ∈ all s) by (apply H2; [done|done|by eexists]). set_solver.
    + intros Hc. specialize (H4 Hc). unfold size_ in *. simpl.
      assert (size (all s ∖ {[c]}) <= size (all s))%nat by (apply subseteq_size; set_solver). lia.
  - intros Hu Hc. destruct (ctorError cfg) as [f|] eqn:Ect; [by rewrite (open_error_fatal e f Ect) in Hu|].
    assert (c ∈ all s) as Hin by (apply H2; [done|done|by eexists]). specialize (H4 Hc).
    unfold size_ in *. simpl. pose proof (size_drop c (all s) Hin). lia.
Qed.

Lemma open_fails_both c e s : calm (open_fails cfg c e s) = true -> both_of s (open_fails cfg c e s).
Proof.
  intros Hcalm%calm_naps B. revert Hcalm. unfold open_fails. destruct (opening s !! c) as [p|] eqn:E; [|done].
  destruct (fails_state c p e s B E) as [B1 Hroom]. set (s1 := drop_conn _ _) in *. set (e' := open_error cfg e) in *.
  destruct p as [a|k|a].
  - destruct (rcEnabled cfg) eqn:Hrc; cbn [negb]; [|intros _; by apply (okz_fail a (Fault e') s1)].
    assert (size (naps (trip cfg e' s1)) <= 1 -> both (trip cfg e' s1))%nat as Ht.
    { intros Hn. apply trip_both; [|done|done]. intros Hu Hc. split; [done|]. specialize (Hroom Hu Hc). case_match; lia. }
    destruct (broken (trip cfg e' s1)); [rewrite naps_answer|rewrite acquire_naps]; intros Hn; [by apply (okz_fail a _ _ (Ht Hn))|by apply (acquire_okz a _ (Ht Hn))].
  - assert (both (set_lastProbeError (Some e') s1)) as B2.
    { split; [by eapply Inv_core; [|exact (proj1 B1)]|by eapply Sz_same; [|exact (proj2 B1)]]. }
    intros _. destruct (classify e') eqn:Ecl.
    + apply settle_both. split; [by eapply Inv_core; [|exact (proj1 B2)]|by eapply Sz_same; [|exact (proj2 B2)]].
    + change (down (set_lastProbeError (Some e') s1)) with (down s). change (closed (set_lastProbeError (Some e') s1)) with (closed s).
      destruct (down s) eqn:Hd, (closed s) eqn:Hc; cbn [andb negb]; try done. specialize (Hroom eq_refl eq_refl).
      split; [exact (proj1 (nap_ok (S k) _ (proj1 B2)))|]. destruct B2 as [_ [H1 H2 H3 H4]].
      split; simpl; [done|done|by rewrite Hc|]. intros _. rewrite Hd. unfold size_ in *. simpl in *.
      assert (size (<[next s:=S k]> (naps s)) <= 1 + size (naps s))%nat by (rewrite map_size_insert; destruct (naps s !! next s); unfold id; lia). lia.
  - destruct (rcEnabled cfg) eqn:Hrc; cbn [negb].
    2:{ intros _. split; [eapply quiet_Inv; [apply quiet_settle_fail|apply B1]|]. eapply Sz_same; [|exact (proj2 B1)]. by rewrite szf_settle. }
    set (s2 := set_waiters (a :: waiters s1) s1).
    assert (both s2) as B2 by (split; [by eapply Inv_core; [|exact (proj1 B1)]|by eapply Sz_same; [|exact (proj2 B1)]]).
    assert (size (naps (trip cfg e' s2)) <= 1 -> both (trip cfg e' s2))%nat as Ht.
    { intros Hn. apply trip_both; [|done|done]. intros Hu Hc. split; [done|]. specialize (Hroom Hu Hc).
      unfold size_ in *. simpl in *. case_match; lia. }
    destruct (broken (trip cfg e' s2)); [rewrite failWaiters_szf|]; intros Hn; [|by apply Ht].
    destruct (Ht Hn) as [I2 Z2]. split; [by eapply quiet_Inv; [apply failWaiters_quiet|]|].
    eapply Sz_same; [|exact Z2]. by rewrite szf_failWaiters.
Qed.

Lemma nap_fires_both p s : both_of s (nap_fires cfg p s).
Proof.
  intros [I [H1 H2 H3 H4]]. split; [by apply nap_fires_ok|]. unfold nap_fires. destruct (naps s !! p) as [k|] eqn:E; [|done].
  set (s1 := set_probeWake None (set_naps (delete p (naps s)) s)).
  assert (S (size (delete p (naps s))) = size (naps s)) as Hn.
  { rewrite map_size_delete, E. simpl. assert (size (naps s) <> 0)%nat; [|lia]. intros E0%map_size_empty_inv.
    rewrite E0, lookup_empty in E. done. }
  assert (Sz s1) as Z1.
  { split; simpl; [done|done|done|]. intros Hc. specialize (H4 Hc). unfold size_ in *. simpl. case_match; lia. }
  change (down s1) with (down s). change (closed s1) with (closed s). destruct (down s) eqn:Hd; cbn [negb orb]; [|done].
  destruct (closed s) eqn:Hc; [done|]. assert (Inv s1) as I1 by (by eapply Inv_core; [|exact I]).
  pose proof (next_nowhere s I) as Hnx. specialize (H4 eq_refl).
  unfold open. destruct (ctorError cfg) eqn:Ect.
  - split; simpl; rewrite ?Ect, ?Hd, ?Hc; try done. intros _. unfold size_ in *. simpl in *. lia.
  - split; simpl; rewrite ?Ect, ?Hd, ?Hc; try done.
    + intros _ _ d [q Hq]. apply lookup_insert_Some in Hq as [[<- _]|[_ Hq]]; [set_solver|].
      assert (d ∈ all s) by (apply H2; [done|done|by eexists]). set_solver.
    + intros _. unfold size_ in *. simpl in *.
      assert (size ({[next s]} ∪ all s) <= 1 + size (all s))%nat; [|lia].
      rewrite size_union_alt, size_singleton. apply Nat.add_le_mono_l, subseteq_size. set_solver.
Qed.

Lemma end_both s : both_of s (end_ cfg s).
Proof.
  intros [I [H1 H2 H3 H4]]. split; [by apply end_Inv|]. unfold end_.
  assert (closed (wake_recovered cfg (failWaiters PoolEnded (cancelProbeNap (set_closed true s)))) = true) as Hc.
  { set (s1 := failWaiters _ _). assert (closed s1 = true) as Hs1.
    { pose proof (szf_failWaiters PoolEnded (cancelProbeNap (set_closed true s))) as H. injection H as _ H _ _ _.
      unfold s1. rewrite H. unfold cancelProbeNap. simpl. by destruct (probeWake s). }
    unfold wake_recovered. assert (closed (set_recovered [] s1) = true) as H by done. revert H.
    generalize (set_recovered [] s1). generalize (recovered s1). clear.
    induction l as [|a l IH]; intros s Hs; [done|]. simpl. apply IH. unfold onRecover. rewrite Hs. by rewrite closed_answer. }
  assert (down (wake_recovered cfg (failWaiters PoolEnded (cancelProbeNap (set_closed true s)))) = true -> down s = true) as Hd.
  { set (s1 := failWaiters _ _). assert (closed s1 = true /\ down s1 = down s) as [Hs1 <-].
    { pose proof (szf_failWaiters PoolEnded (cancelProbeNap (set_closed true s))) as H. injection H as H' H _ _ _.
      unfold s1. rewrite H, H'. unfold cancelProbeNap. simpl. by destruct (probeWake s). }
    unfold wake_recovered. change (down s1) with (down (set_recovered [] s1)).
    assert (closed (set_recovered [] s1) = true) as H by done. revert H.
    generalize (set_recovered [] s1). generalize (recovered s1). clear.
    induction l as [|a l IH]; intros s Hs; [done|]. simpl. intros Hd.
    apply IH in Hd; unfold onRecover in *; rewrite Hs in *; [by rewrite down_answer in Hd|by rewrite closed_answer]. }
  split; simpl; [intros; by apply H1, Hd|rewrite Hc; done|done|rewrite Hc; done].
Qed.

Lemma handle_both e s : calm (handle cfg e s) = true -> both_of s (handle cfg e s).
Proof.
  intros Hcalm. destruct e; simpl in *.
  - apply okz_both, acquire_okz.
  - apply open_ok_both.
  - by apply open_fails_both.
  - apply release_both.
  - unfold cancel_settles. case_bool_decide; [|by intros B]. intros [I Z]. destruct (take_settling c s I H) as [I1 F1].
    apply reclaim_both; [|done]. split; [done|by eapply Sz_same; [|exact Z]].
  - unfold rollback_ends. case_bool_decide; [|by intros B]. intros [I Z]. destruct (take_rolling c s I H) as [I1 F1].
    set (s1 := set_rolling (rolling s ∖ {[c]}) s) in *. assert (both s1) as B1 by (split; [done|by eapply Sz_same; [|exact Z]]).
    destruct ok; [by apply checkin_both|]. apply refill_both, (both_same (drop_conn c s1)); [by apply ok_refl|done|].
    apply drop_both; [apply F1|done].
  - case_bool_decide; [|by intros B]. intros [I Z]. split; [by apply idleTimer_ok|]. unfold idleTimer_fires.
    case_bool_decide as Hc; [|by eapply Sz_same; [|exact Z]]. eapply Sz_same with (s := drop_conn c s); [done|].
    apply Sz_drop; [|done]. destruct (opening s !! c) eqn:E; [|done]. destruct (inv_opening _ I c) as [Hn _]; [by eexists|]. done.
  - case_bool_decide; [|by intros B]. apply both_same.
    + eapply ok_trans; [|apply ok_quiet, quiet_fail]. by apply ok_refl.
    + unfold waitTimer_fires. by rewrite szf_answer.
  - apply nap_fires_both.
  - unfold recoveryTimer_fires. case_bool_decide; [|by intros B]. apply both_same.
    + eapply ok_trans; [|apply ok_quiet, quiet_fail]. by apply ok_refl.
    + by rewrite szf_answer.
  - unfold tx_begin. case_match; [|by intros B]. by apply both_same; [apply ok_refl|].
  - intros B. apply release_both. case_match; [|done]. revert B. by apply both_same; [apply ok_refl|].
  - by apply (both_same s (set_info (<[c:=i]> (info s)) s)); [apply ok_refl|].
  - apply end_both.
Qed.

(** C25: The pool never holds more than [max] connections, counting those being
    opened, as long as probe loops do not overlap: in every run of calls, timers
    and connection events in which at most one probe loop is alive at a time (the
    single flight the breaker intends), the number of members stays within [max]
    after every turn. *)
Theorem size_le_max es : 0 <= max cfg -> calm_run es new_pool = true -> size_ (run es new_pool) <= max cfg.
Proof.
  intros Hmax Hcalm. assert (both new_pool) as B.
  { split; [apply Inv_new|]. split; simpl; try done. intros _ _ c. rewrite lookup_empty. by intros []. }
  revert Hcalm B. generalize new_pool. induction es as [|e es IH]; intros s.
  - intros _ [_ [_ _ H3 H4]]. simpl. destruct (closed s); [|specialize (H4 eq_refl); case_match; lia].
    unfold size_. rewrite H3, size_empty by done. lia.
  - simpl. intros [Hc Hr]%andb_true_iff B. by apply IH; [|apply handle_both].
Qed.
End Size.

(** ** Nobody is forgotten *)

Section Accounted.
Context (cfg : config) (a : client).

(** [a] is parked, waits for recovery or for its connection to open, or is settled. *)
Definition accounted (s : pool) : Prop :=
  a ∈ waiters s \/ a ∈ recovered s
  \/ (exists c, opening s !! c = Some (ForAcquire a) \/ opening s !! c = Some (ForRefill a))
  \/ is_Some (settled s !! cid a).

Definition keeps (s s' : pool) : Prop := accounted s -> accounted s'.
Lemma keeps_same s s' : waiters s = waiters s' -> recovered s = recovered s' -> opening s = opening s' ->
  settled s = settled s' -> keeps s s'.
Proof. unfold keeps, accounted. by intros -> -> -> ->. Qed.
Lemma keeps_trans s1 s2 s3 : keeps s1 s2 -> keeps s2 s3 -> keeps s1 s3.
Proof. unfold keeps. auto. Qed.

Lemma keeps_answer b r s : keeps s (answer_ b r s).
Proof.
  unfold answer_. destruct (settled s !! cid b) eqn:E; [by intros H|]. unfold keeps, accounted. simpl.
  intros [H|[H|[H|H]]]; [tauto..|]. right; right; right. rewrite lookup_insert_is_Some. destruct (decide (cid b = cid a)); tauto.
Qed.
Lemma settled_answer r s : is_Some (settled (answer_ a r s) !! cid a).
Proof.
  unfold answer_. destruct (settled s !! cid a) as [x|] eqn:E; [rewrite E; by eexists|]. simpl. rewrite lookup_insert_eq. by eexists.
Qed.
Lemma accounted_answer r s : accounted (answer_ a r s).
Proof. right; right; right. apply settled_answer. Qed.
Lemma settled_mono b r s : is_Some (settled s !! cid a) -> is_Some (settled (answer_ b r s) !! cid a).
Proof.
  intros H. unfold answer_. destruct (settled s !! cid b) eqn:E; [done|]. simpl. rewrite lookup_insert_is_Some.
  destruct (decide (cid b = cid a)); tauto.
Qed.

Lemma keeps_open p s : Inv s -> keeps s (open cfg p s).
Proof.
  intros I. unfold keeps, accounted. assert (opening s !! next s = None) as Hn.
  { destruct (opening s !! next s) eqn:E; [|done]. assert (next s < next s)%nat; [|lia].
    apply (inv_next _ I). right; right; left. by eexists. }
  assert (waiters (open cfg p s) = waiters s /\ recovered (open cfg p s) = recovered s /\ settled (open cfg p s) = settled s
    /\ opening (open cfg p s) = <[next s := p]> (opening s)) as (-> & -> & -> & ->) by (unfold open; by case_match).
  intros [H|[H|[[c H]|H]]]; [tauto..| |tauto]. right; right; left. exists c.
  rewrite lookup_insert_ne; [done|]. intros <-. destruct H; congruence.
Qed.
Lemma accounted_open s : accounted (open cfg (ForAcquire a) s) /\ accounted (open cfg (ForRefill a) s).
Proof.
  split; right; right; left; exists (next s); [left|right]; unfold open; case_match; simpl; apply lookup_insert_eq.
Qed.

Lemma keeps_pop l s : keeps s (pop_idle l s).2.
Proof.
  revert s. induction l as [|c t IH]; intros s; cbn [pop_idle]; [by apply keeps_same|].
  destruct (cclosed _); [|by apply keeps_same]. eapply keeps_trans; [|apply IH]. by apply keeps_same.
Qed.

Lemma keeps_wait b s : keeps s (waitForFree cfg b s).
Proof.
  unfold keeps, accounted, waitForFree. case_match; simpl; rewrite elem_of_app; tauto.
Qed.
Lemma accounted_wait s : accounted (waitForFree cfg a s).
Proof. left. unfold waitForFree. case_match; simpl; rewrite elem_of_app; right; by apply list_elem_of_singleton. Qed.

Lemma keeps_rest b s : Inv s -> keeps s (acquire_rest cfg b s).
Proof.
  intros I. unfold acquire_rest. pose proof (keeps_pop (idle s) s) as K. pose proof (pop_idle_ok (idle s) s I eq_refl) as P.
  destruct (pop_idle (idle s) s) as [[c|] s1]; simpl in K; destruct P as (I1 & _ & _).
  - eapply keeps_trans; [exact K|]. eapply keeps_trans; [|apply keeps_answer]. by apply keeps_same.
  - eapply keeps_trans; [exact K|]. case_match; [by apply keeps_open|apply keeps_wait].
Qed.
Lemma accounted_rest s : accounted (acquire_rest cfg a s).
Proof.
  unfold acquire_rest. destruct (pop_idle (idle s) s) as [[c|] s1]; [apply accounted_answer|].
  case_match; [apply accounted_open|apply accounted_wait].
Qed.

Lemma accounted_acquire s : accounted (acquire cfg a s).
Proof.
  unfold acquire. repeat case_match; try apply accounted_answer; [|apply accounted_rest].
  right; left. simpl. apply elem_of_app. right. by apply list_elem_of_singleton.
Qed.
Lemma keeps_acquire b s : Inv s -> keeps s (acquire cfg b s).
Proof.
  intros I. unfold acquire. repeat case_match; try apply keeps_answer; [|by apply keeps_rest].
  unfold keeps, accounted. simpl. rewrite elem_of_app. tauto.
Qed.

Lemma accounted_onRecover s : accounted (onRecover cfg a s).
Proof. unfold onRecover. repeat case_match; try apply accounted_answer. apply accounted_rest. Qed.
Lemma keeps_onRecover b s : Inv s -> keeps s (onRecover cfg b s).
Proof. intros I. unfold onRecover. repeat case_match; try apply keeps_answer. by apply keeps_rest. Qed.

Lemma keeps_wake s : Inv s -> keeps s (wake_recovered cfg s).
Proof.
  intros I. unfold wake_recovered.
  assert (forall l s, Inv s -> (a ∈ l \/ accounted s) -> accounted (fold_left (fun s b => onRecover cfg b s) l s)) as G.
  { induction l as [|b l IH]; intros s' I' H; [destruct H as [H|H]; [by apply elem_of_nil in H|done]|]. simpl.
    apply IH; [by apply onRecover_ok|]. destruct H as [[<-|H]%elem_of_cons|H].
    - right. apply accounted_onRecover.
    - by left.
    - right. by apply keeps_onRecover. }
  intros H. apply G; [by eapply Inv_core; [|exact I]|]. destruct H as [H|[H|H]].
  - right. by left.
  - by left.
  - right. right. by right.
Qed.

Lemma keeps_failWaiters f s : keeps s (failWaiters f s).
Proof.
  unfold failWaiters.
  assert (forall l s, (a ∈ l \/ accounted s) -> accounted (fold_left (fun s b => settle_waiter b (Failed f) s) l s)) as G.
  { induction l as [|b l IH]; intros s' H; [destruct H as [H|H]; [by apply elem_of_nil in H|done]|]. simpl.
    apply IH. destruct H as [[<-|H]%elem_of_cons|H].
    - right. apply accounted_answer.
    - by left.
    - right. unfold settle_waiter. apply keeps_answer. revert H. by apply keeps_same. }
  intros H. apply G. destruct H as [H|[H|H]]; [by left|right; right; by left|right; right; by right].
Qed.
End Accounted.

Section Accounting.
Context (cfg : config) (a : client).
Let kept (s s' : pool) : Prop := Inv s -> accounted a s -> accounted a s'.

Lemma kept_same s s' : waiters s = waiters s' -> recovered s = recovered s' -> opening s = opening s' ->
  settled s = settled s' -> kept s s'.
Proof. intros H1 H2 H3 H4 _. by apply keeps_same. Qed.
Lemma kept_trans s1 s2 s3 : kept s1 s2 -> ok s1 s2 -> kept s2 s3 -> kept s1 s3.
Proof. intros H1 Hok H2 I H. destruct (Hok I) as [I2 _]. by apply H2, H1. Qed.

Lemma kept_settle s : kept s (settleBreaker cfg s).
Proof.
  unfold settleBreaker. eapply kept_trans with (cancelProbeNap (set_down false s)).
  - unfold cancelProbeNap. case_match; by apply kept_same.
  - eapply ok_trans; [|apply ok_quiet, cancelProbeNap_quiet]. by apply ok_refl.
  - intros I. by apply keeps_wake.
Qed.
Lemma kept_trip e s : kept s (trip cfg e s).
Proof.
  unfold trip. case_match.
  - eapply kept_trans; [|by apply (ok_refl s (set_broken (Some e) s))|apply kept_settle]. by apply kept_same.
  - case_match; [by intros _|]. by apply kept_same.
Qed.
Lemma kept_push c s : kept s (push_idle cfg c s).
Proof. unfold push_idle, armIdleTimer. case_match; by apply kept_same. Qed.

Lemma kept_refill s : kept s (refill cfg s).
Proof.
  unfold refill. destruct (down s || closed s); [by intros _|]. intros I H.
  assert (forall ws s, Inv s -> waiters s = ws -> accounted a s -> accounted a (refill_loop cfg ws s)) as G; [|by apply G].
  clear. induction ws as [|w t IH]; intros s I E H; cbn [refill_loop]; [done|]. destruct (size_ s <? max cfg); [|done].
  assert (Inv (set_waiters t s)) as I1 by (by eapply Inv_core; [|exact I]).
  apply IH; [by apply Inv_open|unfold open; by case_match|]. destruct H as [H|H].
  - rewrite E in H. apply elem_of_cons in H as [<-|H]; [apply accounted_open|].
    apply keeps_open; [done|]. by left.
  - apply keeps_open; [done|]. by right.
Qed.

Lemma kept_checkin c s : free c s -> kept s (checkin cfg c s).
Proof.
  intros F I. unfold checkin. destruct (down s).
  - intros H. apply kept_settle; [by apply put_idle|]. by apply kept_push.
  - destruct (waiters s) as [|w t] eqn:E; [by apply kept_push|]. intros H. unfold settle_waiter.
    destruct (decide (w = a)) as [->|Hne]; [apply accounted_answer|]. apply keeps_answer.
    destruct H as [H|H]; [|by right]. left. rewrite E in H. apply elem_of_cons in H as [->|H]; done.
Qed.
Lemma kept_reclaim c s : free c s -> kept s (reclaim cfg c s).
Proof.
  intros F. unfold reclaim. case_match; [|case_match; [|case_match]].
  - eapply kept_trans; [|by apply (ok_refl s (drop_conn c s))|apply kept_refill]. by apply kept_same.
  - by apply kept_same.
  - by apply kept_same.
  - by apply kept_checkin.
Qed.
Lemma kept_release c s : kept s (release cfg c s).
Proof.
  intros I H. unfold release. case_bool_decide as Hc; [|done]. destruct (take_out c s I Hc) as [I1 F1].
  case_match; [revert H; by apply keeps_same|]. apply kept_reclaim; [done|done|]. revert H. by apply keeps_same.
Qed.

(** The outcome of an opening connection: its own client is settled or waits again,
    the others are untouched. *)
Lemma without_opening c s p : opening s !! c = Some p -> accounted a s ->
  p = ForAcquire a \/ p = ForRefill a \/ accounted a (set_opening (delete c (opening s)) s).
Proof.
  intros E [H|[H|[[d H]|H]]].
  - right; right. by left.
  - right; right. right; by left.
  - destruct (decide (d = c)) as [->|]; [destruct H; [left|right; left]; congruence|].
    right; right. right; right; left. exists d. simpl. by rewrite lookup_delete_ne.
  - right; right. right; right; by right.
Qed.

Lemma kept_open_ok c s : kept s (open_ok cfg c s).
Proof.
  intros I H. unfold open_ok. destruct (opening s !! c) as [p|] eqn:E; [|done]. destruct (ctorError cfg); [done|].
  destruct (take_opening c p s I E) as [I1 F1]. set (s1 := set_opening (delete c (opening s)) s) in *.
  destruct (without_opening c s p E H) as [->|[->|H1]]; [apply accounted_answer..|]. fold s1 in H1.
  destruct p as [b|k|b].
  - apply keeps_answer. revert H1. by apply keeps_same.
  - apply kept_settle.
    + assert (Inv (push_idle cfg c s1)) as I2 by (by apply put_idle). by eapply Inv_core; [|exact I2].
    + apply (kept_push c s1) in H1; [|done]. revert H1. by apply keeps_same.
  - apply keeps_answer. revert H1. by apply keeps_same.
Qed.

Lemma kept_open_fails c e s : kept s (open_fails cfg c e s).
Proof.
  intros I H. unfold open_fails. destruct (opening s !! c) as [p|] eqn:E; [|done].
  pose proof (Inv_take_opening c p s I E) as I1. set (s1 := drop_conn c _) in *. set (e' := open_error cfg e).
  assert (p = ForAcquire a \/ p = ForRefill a \/ accounted a s1) as Hp.
  { destruct (without_opening c s p E H) as [?|[?|H1]]; [tauto..|]. right; right. revert H1. by apply keeps_same. }
  destruct p as [b|k|b].
  - destruct (negb (rcEnabled cfg)).
    { destruct Hp as [[= ->]|[?|Hp]]; [apply accounted_answer|done|by apply keeps_answer]. }
    assert (Inv (trip cfg e' s1)) as I2 by (by apply trip_ok).
    destruct Hp as [[= ->]|[?|Hp]]; [|done|].
    + case_match; [apply accounted_answer|apply accounted_acquire].
    + apply (kept_trip e') in Hp; [|done]. case_match; [by apply keeps_answer|by apply keeps_acquire].
  - destruct Hp as [?|[?|Hp]]; [done..|]. set (s2 := set_lastProbeError (Some e') s1).
    assert (Inv s2) as I2 by (by eapply Inv_core; [|exact I1]). assert (accounted a s2) as H2 by (revert Hp; by apply keeps_same).
    case_match.
    + apply kept_settle; [by eapply Inv_core; [|exact I2]|]. revert H2. by apply keeps_same.
    + case_match; [|done]. revert H2. by apply keeps_same.
  - destruct (negb (rcEnabled cfg)).
    { destruct Hp as [?|[[= ->]|Hp]]; [done|apply accounted_answer|]. apply keeps_answer. revert Hp. by apply keeps_same. }
    set (s2 := set_waiters (b :: waiters s1) s1). assert (Inv s2) as I2 by (by eapply Inv_core; [|exact I1]).
    assert (accounted a s2) as H2.
    { destruct Hp as [?|[[= ->]|Hp]]; [done|left; simpl; apply elem_of_cons; by left|].
      destruct Hp as [Hp|Hp]; [left; simpl; apply elem_of_cons; by right|by right]. }
    apply (kept_trip e') in H2; [|done]. case_match; [by apply keeps_failWaiters|done].
Qed.

Lemma kept_end s : kept s (end_ cfg s).
Proof.
  intros I H. unfold end_. set (s1 := failWaiters _ _).
  assert (accounted a s1) as H1.
  { apply keeps_failWaiters. unfold cancelProbeNap. case_match; revert H; by apply keeps_same. }
  assert (quiet s s1) as Q.
  { eapply quiet_trans; [|apply failWaiters_quiet]. eapply quiet_trans; [|apply cancelProbeNap_quiet]. by apply quiet_refl. }
  apply (keeps_wake cfg) in H1; [|by eapply quiet_Inv]. revert H1. by apply keeps_same.
Qed.

Lemma kept_waitTimer b s : kept s (waitTimer_fires b s).
Proof.
  intros I H. unfold waitTimer_fires. set (s1 := set_waitTimers _ _). set (s2 := set_waiters _ s1).
  destruct (decide (cid b = cid a)) as [E|E].
  - right; right; right. unfold answer_. rewrite E. destruct (settled s2 !! cid a) as [x|] eqn:Es.
    + rewrite Es. by eexists.
    + simpl. rewrite lookup_insert_eq. by eexists.
  - apply keeps_answer. destruct H as [H|H]; [|by right]. left. simpl. apply list_elem_of_filter. split; [congruence|done].
Qed.

Lemma kept_recoveryTimer b s : kept s (recoveryTimer_fires b s).
Proof.
  intros I H. unfold recoveryTimer_fires. case_bool_decide; [|done]. destruct (decide (b = a)) as [->|Hne]; [apply accounted_answer|].
  apply keeps_answer. destruct H as [H|[H|H]]; [by left| |by right; right]. right; left. simpl. by apply list_elem_of_filter.
Qed.

Lemma handle_kept e s : kept s (handle cfg e s).
Proof.
  destruct e; simpl.
  - intros I. by apply keeps_acquire.
  - apply kept_open_ok.
  - apply kept_open_fails.
  - apply kept_release.
  - intros I H. unfold cancel_settles. case_bool_decide as Hc; [|done]. destruct (take_settling c s I Hc) as [I1 F1].
    apply kept_reclaim; [done|done|]. revert H. by apply keeps_same.
  - intros I H. unfold rollback_ends. case_bool_decide as Hc; [|done]. destruct (take_rolling c s I Hc) as [I1 F1].
    destruct ok; [apply kept_checkin; [done|done|]; revert H; by apply keeps_same|].
    apply kept_refill; [by eapply Inv_core; [|exact I1]|]. revert H. by apply keeps_same.
  - case_bool_decide; [|by intros _]. unfold idleTimer_fires. case_bool_decide; by apply kept_same.
  - case_bool_decide; [|by intros _]. apply kept_waitTimer.
  - unfold nap_fires. destruct (naps s !! p); [|by intros _]. destruct (negb _ || _); [by apply kept_same|].
    intros I H. apply keeps_open; [by eapply Inv_core; [|exact I]|]. revert H. by apply keeps_same.
  - apply kept_recoveryTimer.
  - unfold tx_begin. case_match; [by apply kept_same|by intros _].
  - intros I H. unfold tx_end. destruct (guardTx cfg); [|by apply kept_release].
    apply kept_release; [by eapply Inv_core; [|exact I]|]. revert H. by apply keeps_same.
  - by apply kept_same.
  - apply kept_end.
Qed.

(** C24: No caller of [acquire] is lost. After any run of calls, timers and connection
    events that contains its call, a caller is settled (with a connection or an
    error), or parked in the queue of waiters, or waiting for the breaker to
    recover, or waiting for a connection being opened on its behalf. *)
Theorem acquire_accounted es : EAcquire a ∈ es -> accounted a (run cfg es new_pool).
Proof.
  assert (forall es s, Inv s -> (EAcquire a ∈ es \/ accounted a s) -> accounted a (run cfg es s)) as G.
  { clear es. induction es as [|e es IH]; intros s I H; [destruct H as [H|H]; [by apply elem_of_nil in H|done]|]. simpl.
    apply IH; [by apply handle_spec|]. destruct H as [[<-|H]%elem_of_cons|H].
    - right. apply accounted_acquire.
    - by left.
    - right. by apply handle_kept. }
  intros H. apply G; [apply Inv_new|by left].
Qed.
End Accounting.

(** ** Concrete runs *)

Definition refused : fault := mkFault (Some (js "ECONNREFUSED")) (Some (js "connect ECONNREFUSED")) None false.
Definition cfg_max (n : Z) : config :=
  construct (mkOptions (Some n) true None None None None None None None true) None.
Definition cl (n : nat) : client := mkClient n None.
Definition dead : cinfo := mkInfo true false false false.

(** Outage, one probe, recovery. *)
Definition outage_run : list event :=
  [EAcquire (cl 0); EAcquire (cl 1); EOpenOk 0; EOpenFails 1 refused; ENapTimer 2; EAcquire (cl 2); EOpenOk 3; ERelease 0].

Lemma size_le_max_witness : size_ (run (cfg_max 2) outage_run new_pool) <= max (cfg_max 2).
Proof. apply (size_le_max (cfg_max 2) outage_run); [discriminate|reflexivity]. Defined.

Lemma acquire_accounted_witness : accounted (cl 2) (run (cfg_max 2) outage_run new_pool).
Proof.
  apply (acquire_accounted (cfg_max 2) (cl 2) outage_run). apply list_elem_of_In. simpl.
  right; right; right; right; right; left. reflexivity.
Defined.

Lemma checkout_exclusive_witness :
  let s := run (cfg_max 2) (take 4 outage_run) new_pool in
  NoDup (idle (handle (cfg_max 2) (ENapTimer 2) s)) /\ NoDup (idle s).
Proof.
  split.
  - apply (checkout_exclusive (cfg_max 2) _ EEnd).
    apply (run_reachable (cfg_max 2) [ENapTimer 2]), run_reachable, reach_new.
  - apply (checkout_exclusive (cfg_max 2) _ (ENapTimer 2)), run_reachable, reach_new.
Defined.

(** A refill whose waiter times out while the connection opens leaks the
    connection: in this run the pool of one connection ends with both callers
    settled and its only connection released once and replaced, yet the
    replacement is checked out to nobody, no promise, timer or event is pending,
    and the next caller waits for a release that no holder can make. *)
Theorem refill_leaks_connection :
  let s := run (cfg_max 1)
    [EAcquire (cl 0); EOpenOk 0; EAcquire (cl 1); EInfo 0 dead; ERelease 0; EWaitTimer (cl 1); EOpenOk 1;
     EAcquire (cl 2)] new_pool in
  settled s !! 0%nat = Some (Got 0) /\ settled s !! 1%nat = Some (Failed (AcquireTimeout false))
  /\ out s = {[1%nat]} /\ all s = {[1%nat]} /\ opening s = ∅ /\ settling s = ∅ /\ rolling s = ∅ /\ naps s = ∅
  /\ waiters s = [cl 2] /\ forall a, settled s !! a <> Some (Got 1).
Proof.
  intros s. split_and!; try (vm_compute; reflexivity); try (apply leibniz_equiv; vm_compute; reflexivity).
  intros a.
  destruct (decide (a = 0%nat)) as [->|]; [vm_compute; discriminate|].
  destruct (decide (a = 1%nat)) as [->|]; [vm_compute; discriminate|].
  assert (settled s = {[0%nat := Got 0; 1%nat := Failed (AcquireTimeout false)]}) as -> by (vm_compute; reflexivity).
  by rewrite lookup_insert_ne, lookup_singleton_ne by done.
Qed.

(** A waiter parked when a refill fails stays parked after the probe recovers,
    next to an idle connection. *)
Lemma recovery_starves_waiter :
  let s := run (cfg_max 2)
    [EAcquire (cl 0); EAcquire (cl 1); EOpenOk 0; EOpenOk 1; EAcquire (cl 2); EInfo 1 dead; ERelease 1;
     EOpenFails 2 refused; ENapTimer 3; EOpenOk 4] new_pool in
  waiters s = [cl 2] /\ idle s = [4%nat] /\ down s = false /\ opening s = ∅ /\ naps s = ∅ /\ recovered s = [].
Proof. vm_compute. split_and!; reflexivity. Qed.

(** Overlapping probe loops, and a pool of three with four members. *)
Lemma probes_overlap :
  let s := run (cfg_max 3)
    [EAcquire (cl 0); EOpenOk 0; EAcquire (cl 1); EOpenFails 1 refused; ENapTimer 2; ERelease 0;
     EAcquire (cl 2); EOpenFails 4 refused; EOpenFails 3 refused] new_pool in
  (size (naps s) = 2)%nat /\ down s = true.
Proof. vm_compute. split; reflexivity. Qed.

Lemma size_exceeds_max :
  let s := run (cfg_max 3)
    [EAcquire (cl 0); EOpenOk 0; EAcquire (cl 1); EOpenFails 1 refused; ENapTimer 2; ERelease 0;
     EAcquire (cl 2); EOpenFails 4 refused; EOpenFails 3 refused; ERelease 0;
     EAcquire (cl 3); EAcquire (cl 4); EOpenFails 7 refused; EOpenOk 8; ENapTimer 5; ENapTimer 9] new_pool in
  size_ s = 4.
Proof. vm_compute. reflexivity. Qed.
