(* ===== verification/Plans.v ===== *)
(** * What the transports share (src/connection.ts, src/http.ts, src/neon-http.ts)

    Command tags, and the column plan of a result under temporal: 'string'. *)

From S2P Require Import Prelude Utf8 Text Buf Num Dates Value NumText Json JsonBig JsonSpec Protocol Encode Decode Spec.

(** ** Command tags *)

Definition firstCstr (b : bytes) : jstr :=
  let z := indexOf b 0 0 in utf8_decode (if z <? 0 then b else subarray b 0 z).
(** tag.split(' ')[0], and the last run of digits when only white space follows it. *)
Definition tag_command (tag : jstr) : jstr := hd [] (split 32 tag []).
Fixpoint digits_prefix (l : jstr) : jstr := match l with c :: t => if is_digit c then c :: digits_prefix t else [] | [] => [] end.
Definition tag_rows (tag : jstr) : option Z :=
  match digits_prefix (skip_spaces (rev tag)) with [] => None | ds => Some (fl (digits_val (rev ds))) end.

(** ** Columns as text *)

Definition as_text (c : CodegenCol) : CodegenCol :=
  mkCol (name c) (oid c) (Some "string"%string) (json c) false (array c) (path c) (groupNullable c) (xform c) (nullable c).
Definition array_as_text (c : CodegenCol) (elem : Z) : CodegenCol :=
  mkCol (name c) (oid c) (js_ c) (json c) (binary c) (Some (elem, Some "string"%string)) (path c) (groupNullable c) (xform c) (nullable c).

(** ** Leading transaction control (TX_SQL of http.ts and neon-http.ts) *)

Fixpoint keyword (w s : jstr) : option jstr :=
  match w, s with
  | [], _ => Some s
  | c :: w', d :: t => if lower d =? c then if 128 <=? d then None else keyword w' t else None
  | _, [] => None
  end.
Definition word_char (c : Z) : bool := is_digit c || between 97 122 c || between 65 90 c || (c =? 95).
(** \b after a word. *)
Definition boundary (s : jstr) : bool := match s with c :: _ => negb (word_char c) | [] => true end.
(** \s+ and a second word *)
Definition second_word (w s : jstr) : option jstr :=
  match s with c :: _ => if StrWhiteSpace c then keyword w (skip_spaces s) else None | [] => None end.
Definition ended (o : option jstr) : option jstr := match o with Some r => if boundary r then Some r else None | None => None end.
Definition not_to (s : jstr) : bool := match ended (second_word (js "to") s) with Some _ => false | None => true end.
Definition first_some (l : list (option jstr)) : option jstr := foldr (fun o acc => match o with Some _ => o | None => acc end) None l.
(** The text after the keyword. *)
Definition tx_rest (s : jstr) : option jstr :=
  first_some [
    ended (keyword (js "begin") s);
    ended (keyword (js "start") s ≫= second_word (js "transaction"));
    ended (keyword (js "commit") s);
    ended (keyword (js "end") s);
    (r ← ended (keyword (js "rollback") s); if not_to r then Some r else None);
    ended (keyword (js "abort") s);
    ended (keyword (js "prepare") s ≫= second_word (js "transaction"))].
(** The keyword as it is written, or none. *)
Definition TX_SQL (sql : jstr) : option jstr :=
  let s := skip_spaces sql in
  match tx_rest s with Some r => Some (take (length s - length r) s) | None => None end.
Definition upper (c : Z) : Z := if between 97 122 c then c - 32 else c.

Example TX_SQL_1 : TX_SQL (js "  Start  Transaction read only") = Some (js "Start  Transaction").
Proof. vm_compute. reflexivity. Qed.
Example TX_SQL_2 : TX_SQL (js "rollback to a") = None /\ TX_SQL (js "rollback") = Some (js "rollback") /\ TX_SQL (js "beginning") = None.
Proof. vm_compute. auto. Qed.
