(* ===== verification/Rest.v ===== *)
(** * What the clients over HTTP share (src/http.ts, src/neon-http.ts, src/aurora.ts)

    A call ends in a value or in an error that the caller can tell apart: a server's error, an error of the
    driver's own with its message, or an exception of a decoder or encoder. *)

From S2P Require Import Prelude Utf8 Text Buf Num Dates Value NumText Json JsonBig JsonSpec Protocol Errors Encode Decode Spec Plans.

(** ** Errors of a call *)

Inductive http_error :=
  | HPg (fields : PgErrorFields)
  | HObject (o : value)          (** a PgError made of a JSON object *)
  | HError (m : jstr) | HThrown (e : exn) | HLoop
  | HUntyped.                    (** a body that is not of the type the code asserts for it: not modelled *)
Definition out (A : Type) : Type := http_error + A.
#[export] Instance out_ret : MRet out := fun A a => inr a.
#[export] Instance out_bind : MBind out := fun A B f m => match m with inr a => f a | inl e => inl e end.
Definition of_res {A} (r : res A) : out A := match r with Ok a => inr a | Throw e => inl (HThrown e) | NoFuel => inl HLoop end.
Definition fail {A} (m : jstr) : out A := inl (HError m).
Definition dash : jstr := [32; 8212; 32].

(** ** Values and column plans *)

Fixpoint mapO {A B} (f : A -> out B) (l : list A) : out (list B) :=
  match l with [] => inr [] | a :: t => b ← f a; bs ← mapO f t; inr (b :: bs) end.
Definition opt {A} (k : string) (f : A -> value) (o : option A) : list (jstr * value) :=
  match o with Some a => [(js k, f a)] | None => [] end.
Inductive ResultMode := RArray | RObject | RRaw | RBuffer.
(** Where no other target is set. *)
Definition untargeted (c : CodegenCol) : bool := match js_ c, json c with None, None => true | _, _ => false end.
Definition temporal_col (c : CodegenCol) : option CodegenCol :=
  if untargeted c && INSTANT_OIDS (oid c) then Some (as_text c)
  else match array c with Some (e, None) => if INSTANT_OIDS e then Some (array_as_text c e) else None | _ => None end.
Definition unbinary (c : CodegenCol) : CodegenCol :=
  mkCol (name c) (oid c) (js_ c) (json c) false (array c) (path c) (groupNullable c) (xform c) (nullable c).

(** ** Responses *)

Record Response := mkResponse { r_ok : bool; r_status : Z; r_statusText : jstr; r_contentType : jstr; r_body : bytes }.
(** A value of the asserted type. *)
Definition typed {A} (o : option A) : out A := match o with Some a => inr a | None => inl HUntyped end.
(** res.json(): a byte order mark is dropped. *)
Definition strip_bom (b : bytes) : bytes := match b with 239 :: 187 :: 191 :: t => t | _ => b end.
Definition res_json (b : bytes) : res value := JSON_parse (utf8_decode (strip_bom b)).
