(* ===== verification/Http.v ===== *)
(** * The gateway client (src/http.ts)

    A request is built from the client's cache of result descriptions; the response body is a stream of
    backend messages that [split] cuts into one result per statement and [decode] turns into rows with the
    mappers of the socket driver. fetch() is not modelled: an exchange is a function of the response. *)

From S2P Require Import Prelude Utf8 Text Buf Num Dates Value NumText Faults Json JsonBig JsonSpec Protocol Parse Errors Encode Decode Mapper Spec Plans Rest.

(** ** FNV-1a *)

Definition FNV_PRIME : Z := 1099511628211.
Definition FNV_MASK : Z := 18446744073709551615.
Definition fnv_step (h b : Z) : Z := Z.land (Z.lxor h b * FNV_PRIME) FNV_MASK.
(** h.toString(16).padStart(16, '0') *)
Fixpoint to_hex (fuel : nat) (h : Z) (acc : jstr) : jstr :=
  match fuel with
  | O => acc
  | S f => let acc := hex_digit (h mod 16) :: acc in if h / 16 =? 0 then acc else to_hex f (h / 16) acc
  end.
Definition padStart (n : nat) (c : Z) (s : jstr) : jstr := replicate (n - length s) c ++ s.
Definition fnv1a64 (b : bytes) : jstr := padStart 16 48 (to_hex 17 (foldl fnv_step 14695981039346656037 b) []).

Example fnv_empty : fnv1a64 [] = js "cbf29ce484222325". Proof. vm_compute. reflexivity. Qed.
Example fnv_a : fnv1a64 (js "a") = js "af63dc4c8601ec8c". Proof. vm_compute. reflexivity. Qed.

(** ** Configuration and requests *)

Inductive Int8 := I8Bigint | I8String | I8Number.
Record HttpConfig := mkHttpConfig {
  h_token : option jstr; h_temporalString : bool; h_int8 : Int8; h_desc : bool; h_decoders : gmap Z Decoder;
  h_mapperFactory : list CodegenCol -> bool -> gmap Z Decoder -> res (bytes -> res value) }.
(** A shape as its columns: shapeCols of a literal one, $cols of a compiled one. *)
Record HttpQuery := mkHttpQuery {
  q_sql : jstr; q_params : list value; q_types : option (list ParamType);
  q_mode : option ResultMode; q_shape : option (res (list CodegenCol)) }.
Record BatchOptions := mkBatchOptions { b_isolation : option jstr; b_readOnly : option bool; b_deferrable : option bool }.

Record Descriptor := mkDescriptor { d_hash : jstr; d_fields : list Field }.
Definition Cache : Type := gmap jstr Descriptor.
Record QueryResult := mkResult { rows : list value; columns : list jstr; rowCount : option Z; command : option jstr }.

Definition headers (cfg : HttpConfig) : list (jstr * jstr) :=
  [(js "Content-Type", js "application/json"); (js "Accept", js "application/vnd.minipg.pgwire")]
  ++ match h_token cfg with None | Some [] => [] | Some t => [(js "Authorization", js "Bearer " ++ t)] end.

(** The gateway owns the transaction. *)
Definition guard_sql (sql : jstr) : out unit :=
  match TX_SQL sql with
  | Some w => fail (js "minipg/http: " ++ (34 :: (upper <$> w) ++ [34]) ++ js " is transaction control" ++ dash
                    ++ js "the GATEWAY owns the transaction boundary; use batch([...], { isolation }) for atomicity")
  | None => inr tt
  end.
Definition checkTypes (types : option (list ParamType)) (nParams : nat) (sql : jstr) : out (list Z) :=
  match types with
  | None => inr []
  | Some ts =>
    oids ← of_res (resolveParamTypes ts);
    if (length ts =? nParams)%nat then inr oids
    else fail (js "minipg/http: " ++ show_Z (Z.of_nat nParams) ++ js " param value(s) but " ++ show_Z (Z.of_nat (length ts))
               ++ js " type(s) declared for " ++ quote (take 40 sql))
  end.

Definition type_value (t : ParamType) : value := match t with POid o => VNum (of_Z o) | PText s => VStr s end.
Definition check (q : HttpQuery) : out (list Z) := _ ← guard_sql (q_sql q); checkTypes (q_types q) (length (q_params q)) (q_sql q).
Definition statement_value (q : HttpQuery) (oids : list Z) : out (list (jstr * value)) :=
  ps ← of_res (encodeJsonParams (q_params q) oids);
  inr ([(js "sql", VStr (q_sql q)); (js "params", VArr ps)] ++ opt "types" (fun ts => VArr (type_value <$> ts)) (q_types q)).
(** A body without undefined members always has a text. *)
Definition body_text (fs : list (jstr * value)) : out jstr := o ← of_res (stringify (VObj fs)); inr (default [] o).
Definition query_request (cfg : HttpConfig) (q : HttpQuery) (cache : Cache) : out jstr :=
  oids ← check q;
  fs ← statement_value q oids;
  body_text (fs ++ opt "desc" (fun d => VStr (d_hash d)) (if h_desc cfg then cache !! q_sql q else None)).
(** Every statement is checked before the first is encoded. *)
Definition statements_value (qs : list HttpQuery) : out (list value) :=
  oids ← mapO check qs;
  mapO (fun qo => fs ← statement_value qo.1 qo.2; inr (VObj fs)) (zip qs oids).
Definition batch_request (qs : list HttpQuery) (o : BatchOptions) : out jstr :=
  l ← statements_value qs;
  body_text ([(js "mode", VStr (js "batch")); (js "queries", VArr l)]
             ++ match b_isolation o with None | Some [] => [] | Some i => [(js "isolation", VStr i)] end
             ++ opt "readOnly" VBool (b_readOnly o) ++ opt "deferrable" VBool (b_deferrable o)).
Definition pipeline_request (qs : list HttpQuery) : out jstr :=
  l ← statements_value qs; body_text [(js "mode", VStr (js "pipeline")); (js "queries", VArr l)].

(** ** Responses *)

Definition is_type (c : string) (m : RawMessage) : bool := bool_decide ([mtype m] = js c).
Definition post (r : Response) : out (list RawMessage) :=
  if negb (includes (r_contentType r) (js "vnd.minipg.pgwire"))
  then fail (js "minipg/http: unexpected response content-type "
             ++ quote (match r_contentType r with [] => js "(none)" | t => t end) ++ dash
             ++ js "expected application/vnd.minipg.pgwire (is the url the gateway's /query endpoint?)")
  else
    msgs ← of_res (Parser.push (r_body r) []).2;
    if r_ok r then inr msgs
    else match List.find (is_type "E") msgs with
         | Some e => fs ← of_res (parseErrorFields (mbody e)); inl (HPg fs)
         | None => fail (js "minipg/http: HTTP " ++ show_Z (r_status r) ++ [32] ++ r_statusText r)
         end.

Record RawResult := mkRaw_ {
  w_fields : option (list Field); w_rows : list bytes; w_command : option jstr; w_rowCount : option Z; w_error : option PgErrorFields }.
Definition empty_result : RawResult := mkRaw_ None [] None None None.
Definition with_fields f r := mkRaw_ (Some f) (w_rows r) (w_command r) (w_rowCount r) (w_error r).
Definition with_row b r := mkRaw_ (w_fields r) (w_rows r ++ [b]) (w_command r) (w_rowCount r) (w_error r).
Definition with_tag t r := mkRaw_ (w_fields r) (w_rows r) (Some (tag_command t)) (tag_rows t) (w_error r).
Definition with_error e r := mkRaw_ (w_fields r) (w_rows r) (w_command r) (w_rowCount r) (Some e).

Record Split := mkSplit { s_results : list RawResult; s_cur : RawResult; s_trailing : option PgErrorFields; s_cache : Cache }.
Definition push_result (s : Split) : Split := mkSplit (s_results s ++ [s_cur s]) empty_result (s_trailing s) (s_cache s).
Definition on_cur (f : RawResult -> RawResult) (s : Split) : Split := mkSplit (s_results s) (f (s_cur s)) (s_trailing s) (s_cache s).
Definition remember (sqls : list jstr) (body : bytes) (fs : list Field) (s : Split) : Split :=
  match sqls !! length (s_results s) with
  | Some sql => mkSplit (s_results s) (s_cur s) (s_trailing s)
                        (<[sql := mkDescriptor (fnv1a64 (frame_bytes (mkMsg 84 body))) fs]> (s_cache s))
  | None => s
  end.
Definition connection_frame (m : RawMessage) : bool := is_type "R" m || is_type "K" m || is_type "S" m || is_type "Z" m.
Definition split_step (sqls : list jstr) (s : Split) (m : RawMessage) : out Split :=
  if is_type "T" m then
    fs ← of_res (Parser.parseRowDescription (mbody m));
    inr (remember sqls (mbody m) fs (on_cur (with_fields fs) s))
  else if is_type "D" m then inr (on_cur (with_row (mbody m)) s)
  else if is_type "C" m then inr (push_result (on_cur (with_tag (firstCstr (mbody m))) s))
  else if is_type "I" m then inr (push_result s)
  else if is_type "E" m then
    e ← of_res (parseErrorFields (mbody m));
    if (length sqls <=? length (s_results s))%nat then inr (mkSplit (s_results s) (s_cur s) (Some e) (s_cache s))
    else inr (push_result (on_cur (with_error e) s))
  else if connection_frame m then
    fail (js "minipg/http: connection-level frame '" ++ [mtype m] ++ js "' in the response" ++ dash
          ++ js "the gateway must never forward it; refusing to parse")
  else inr s.
(** The cache keeps what was harvested before a failure. *)
Fixpoint split_loop (sqls : list jstr) (s : Split) (msgs : list RawMessage) : Split * out unit :=
  match msgs with
  | [] => (s, inr tt)
  | m :: t => match split_step sqls s m with inr s' => split_loop sqls s' t | inl e => (s, inl e) end
  end.
Definition split_messages (msgs : list RawMessage) (sqls : list jstr) (cache : Cache) : Split * out unit :=
  split_loop sqls (mkSplit [] empty_result None cache) msgs.

(** ** Decoding *)

Section Decode.
Context `{Env} (cfg : HttpConfig).

Definition as_target (t : string) (c : CodegenCol) : CodegenCol :=
  mkCol (name c) (oid c) (Some t) (json c) (binary c) (array c) (path c) (groupNullable c) (xform c) (nullable c).
Definition array_as_target (t : string) (c : CodegenCol) (elem : Z) : CodegenCol :=
  mkCol (name c) (oid c) (js_ c) (json c) (binary c) (Some (elem, Some t)) (path c) (groupNullable c) (xform c) (nullable c).
Definition int8_col (t : string) (c : CodegenCol) : CodegenCol :=
  if untargeted c then
    if oid c =? 20 then as_target t c
    else match array c with Some (e, None) => if e =? 20 then array_as_target t c e else c | _ => c end
  else c.
Definition plan_col (c0 : CodegenCol) : CodegenCol :=
  let c := tagArrayCol c0 in
  match (if h_temporalString cfg then temporal_col c else None) with
  | Some c' => c'
  | None => match h_int8 cfg with I8Bigint => c | I8String => int8_col "string" c | I8Number => int8_col "number" c end
  end.
Definition plain_col (f : Field) : CodegenCol := mkCol (fname f) (dataTypeOid f) None None false None None [] None false.
Definition planCols (fields : list Field) (shape : option (res (list CodegenCol))) : res (list CodegenCol) :=
  cols ← (match shape with
          | Some given => l ← given; Ok (mergeUnknownCols (unbinary <$> (l : list CodegenCol)) (dataTypeOid <$> fields))
          | None => Ok (plain_col <$> fields)
          end : res (list CodegenCol));
  Ok (plan_col <$> (cols : list CodegenCol)).

(** parseDataRowCells: the count is read unsigned. *)
Fixpoint cells_of (n : nat) (b : bytes) (off : Z) : res (list value) :=
  match n with
  | O => Ok []
  | S n' =>
    len ← readInt32BE b off;
    if len =? -1 then t ← cells_of n' b (off + 4); Ok (VNull :: t)
    else t ← cells_of n' b (off + 4 + len); Ok (VBuf (subarray b (off + 4) (off + 4 + len)) :: t)
  end.
Definition parseDataRowCells (b : bytes) : res value :=
  n ← readUIntBE 2 b 0; l ← cells_of (Z.to_nat n) b 2; Ok (VArr l).

Definition no_descriptor : jstr :=
  js "minipg/http: rows arrived with no RowDescription and no cached descriptor" ++ dash
  ++ js "desc elision desync (the gateway omitted T for a statement this client never saw)".
Definition decode (q : HttpQuery) (cache : Cache) (r : RawResult) : out QueryResult :=
  match w_error r with
  | Some e => inl (HPg e)
  | None =>
    let mode := default (match q_shape q with Some _ => RObject | None => RArray end) (q_mode q) in
    match (match w_fields r with Some fs => Some fs | None => d_fields <$> cache !! q_sql q end) with
    | None => match w_rows r with [] => inr (mkResult [] [] (w_rowCount r) (w_command r)) | _ => fail no_descriptor end
    | Some fields =>
      cols ← of_res (planCols fields (q_shape q));
      row ← of_res (match mode return res (bytes -> res value) with
                    | RArray => h_mapperFactory cfg cols true (h_decoders cfg)
                    | RObject => h_mapperFactory cfg cols false (h_decoders cfg)
                    | RBuffer => Ok parseDataRowCells
                    | RRaw => Ok (fun b => Ok (VBuf b))
                    end);
      rs ← of_res (mapM row (w_rows r));
      inr (mkResult rs (name <$> cols) (w_rowCount r) (w_command r))
    end
  end.

(** ** The calls, from the response on *)

Definition wrong_count (n k : nat) : jstr :=
  js "minipg/http: " ++ show_Z (Z.of_nat n) ++ js " statements but " ++ show_Z (Z.of_nat k) ++ js " results" ++ dash ++ js "refusing to mis-attribute".
(** [answer] is a client whose cache is [cache] receiving [r]: the cache it is left with and what is made of the results. *)
Definition answer {A} (sqls : list jstr) (k : list RawResult -> option PgErrorFields -> Cache -> out A) (r : Response) (cache : Cache) : Cache * out A :=
  match post r with
  | inl e => (cache, inl e)
  | inr msgs => let '(s, o) := split_messages msgs sqls cache in
                (s_cache s, _ ← o; k (s_results s) (s_trailing s) (s_cache s))
  end.
Definition query_answer (q : HttpQuery) : Response -> Cache -> Cache * out QueryResult :=
  answer [q_sql q] (fun results trailing cache =>
    match trailing with
    | Some e => inl (HPg e)
    | None => match results with
              | [r] => decode q cache r
              | _ => fail (js "minipg/http: expected 1 result, got " ++ show_Z (Z.of_nat (length results)) ++ dash ++ js "refusing to mis-attribute")
              end
    end).
Definition first_error (results : list RawResult) (trailing : option PgErrorFields) : option PgErrorFields :=
  match List.find (fun r => bool_decide (is_Some (w_error r))) results with Some r => w_error r | None => trailing end.
Definition batch_answer (qs : list HttpQuery) : Response -> Cache -> Cache * out (list QueryResult) :=
  answer (q_sql <$> qs) (fun results trailing cache =>
    match first_error results trailing with
    | Some e => inl (HPg e)
    | None => if (length results =? length qs)%nat then mapO (fun qr => decode qr.1 cache qr.2) (zip qs results)
              else fail (wrong_count (length qs) (length results))
    end).
Definition pipeline_answer (qs : list HttpQuery) : Response -> Cache -> Cache * out (list (out QueryResult)) :=
  answer (q_sql <$> qs) (fun results trailing cache =>
    match trailing with
    | Some e => inl (HPg e)
    | None => if (length results =? length qs)%nat then inr ((fun qr => decode qr.1 cache qr.2) <$> zip qs results)
              else fail (wrong_count (length qs) (length results))
    end).
End Decode.
