(* ===== verification/HttpProofs.v ===== *)
(** * What the gateway client makes of a response

    A gateway sends, for each statement, an optional description, the rows and one closing frame. Whatever
    those are, each statement gets its own; a response that is cut short is refused; and leaving out
    descriptions the client has seen changes nothing. *)

From S2P Require Import Prelude Utf8 Text Buf Num Dates Value NumText Faults Json JsonBig ExtTypes JsonSpec Protocol Parse Errors Encode Decode Mapper Spec Plans Rest Http.

(** ** Replies of a gateway *)

Inductive Ending := Complete (body : bytes) | Empty (body : bytes) | Failed (body : bytes).
Record Reply := mkReply { p_desc : option bytes; p_rows : list bytes; p_end : Ending }.
Definition msg (t : string) (b : bytes) : RawMessage := mkMsg (hd 0 (js t)) b.
Definition end_msg (e : Ending) : RawMessage :=
  match e with Complete b => msg "C" b | Empty b => msg "I" b | Failed b => msg "E" b end.
Definition desc_msgs (d : option bytes) : list RawMessage := match d with Some b => [msg "T" b] | None => [] end.
Definition reply_msgs (p : Reply) : list RawMessage := desc_msgs (p_desc p) ++ (msg "D" <$> p_rows p) ++ [end_msg (p_end p)].

(** What the frames of a reply say. *)
Definition ended_with (e : Ending) (r : RawResult) : Prop :=
  match e with
  | Complete b => w_command r = Some (tag_command (firstCstr b)) /\ w_rowCount r = tag_rows (firstCstr b) /\ w_error r = None
  | Empty _ => w_command r = None /\ w_rowCount r = None /\ w_error r = None
  | Failed b => w_command r = None /\ w_rowCount r = None /\ exists e, parseErrorFields b = Ok e /\ w_error r = Some e
  end.
Definition says (p : Reply) (r : RawResult) : Prop :=
  match p_desc p with Some b => exists fs, Parser.parseRowDescription b = Ok fs /\ w_fields r = Some fs | None => w_fields r = None end
  /\ w_rows r = p_rows p /\ ended_with (p_end p) r.

(** The cache after a reply to the statement [sql]. *)
Definition learn (sql : jstr) (p : Reply) (r : RawResult) (cache : Cache) : Cache :=
  match p_desc p, w_fields r with
  | Some b, Some fs => <[sql := mkDescriptor (fnv1a64 (frame_bytes (msg "T" b))) fs]> cache
  | _, _ => cache
  end.

Lemma split_loop_app sqls s l k : split_loop sqls s (l ++ k) =
  match split_loop sqls s l with (s', inr _) => split_loop sqls s' k | (s', inl e) => (s', inl e) end.
Proof. revert s. induction l as [|m l IH]; intros s; [done|]. simpl. by destruct (split_step sqls s m) as [e|s']. Qed.
Lemma split_rows sqls bs s : split_loop sqls s (msg "D" <$> bs) =
  (mkSplit (s_results s) (foldl (fun r b => with_row b r) (s_cur s) bs) (s_trailing s) (s_cache s), inr tt).
Proof. revert s. induction bs as [|b bs IH]; intros s; [by destruct s|]. csimpl. by rewrite IH. Qed.
Lemma with_rows r bs : foldl (fun r b => with_row b r) r bs = mkRaw_ (w_fields r) (w_rows r ++ bs) (w_command r) (w_rowCount r) (w_error r).
Proof. revert r. induction bs as [|b bs IH]; intros r; [by destruct r; rewrite app_nil_r|]. simpl. rewrite IH. simpl. by rewrite <- app_assoc. Qed.

(** One reply, for the statement whose turn it is. *)
Lemma split_reply sqls s sql p r : says p r -> s_cur s = empty_result -> s_trailing s = None ->
  sqls !! length (s_results s) = Some sql ->
  split_loop sqls s (reply_msgs p) = (mkSplit (s_results s ++ [r]) empty_result None (learn sql p r (s_cache s)), inr tt).
Proof.
  intros (Hd & Hr & He) Hc Ht Hs. unfold reply_msgs. destruct s as [results cur trailing cache]. cbn [s_results s_cur s_trailing s_cache] in *. subst.
  assert (split_loop sqls (mkSplit results empty_result None cache) (desc_msgs (p_desc p)) =
    (mkSplit results (mkRaw_ (w_fields r) [] None None None) None (learn sql p r cache), inr tt)) as Ed.
  { unfold learn. destruct (p_desc p) as [b|].
    - destruct Hd as (fs & Hp & ->). simpl. unfold split_step. cbn [is_type msg mtype mbody]. rewrite Hp. simpl. unfold remember. cbn [s_results on_cur].
      by rewrite Hs.
    - by rewrite Hd. }
  rewrite split_loop_app, Ed, split_loop_app, split_rows, with_rows. cbn [s_results s_cur s_trailing s_cache w_fields w_rows w_command w_rowCount w_error app].
  assert (length sqls <=? length results = false)%nat as Hlt by (apply Nat.leb_gt; by eapply lookup_lt_Some).
  destruct (p_end p) as [b|b|b]; simpl in *.
  - destruct He as (H1 & H2 & H3). destruct r. simpl in *. by subst.
  - destruct He as (H1 & H2 & H3). destruct r. simpl in *. by subst.
  - destruct He as (H1 & H2 & e & Hp & H3). unfold split_step. cbn [is_type msg mtype mbody]. simpl. rewrite Hp. simpl. rewrite Hlt. destruct r. simpl in *. by subst.
Qed.

Fixpoint learn_all (l : list (jstr * (Reply * RawResult))) (cache : Cache) : Cache :=
  match l with [] => cache | (sql, (p, r)) :: t => learn_all t (learn sql p r cache) end.

Lemma split_replies sqls rest ps rs : Forall2 says ps rs -> forall done sqls' cache, sqls = sqls' ++ rest -> length sqls' = length (done : list RawResult) ->
  (length ps <= length rest)%nat ->
  split_loop sqls (mkSplit done empty_result None cache) (concat (reply_msgs <$> ps)) =
  (mkSplit (done ++ rs) empty_result None (learn_all (zip rest (zip ps rs)) cache), inr tt).
Proof.
  intros F. revert rest. induction F as [|p r ps rs Hpr F IH]; intros rest done sqls' cache E El Hl.
  - rewrite app_nil_r. by destruct rest as [|? ?].
  - destruct rest as [|sql rest]; [simpl in Hl; lia|]. csimpl. rewrite split_loop_app.
    rewrite (split_reply sqls _ sql p r) by (try done; cbn [s_results]; rewrite E, <- El; apply list_lookup_middle; done).
    cbn [s_results s_cache].
    rewrite (IH rest (done ++ [r]) (sqls' ++ [sql])); [by rewrite <- app_assoc|by rewrite E, <- app_assoc|rewrite !length_app; simpl; lia|simpl in Hl; lia].
Qed.
Lemma split_messages_replies sqls ps rs cache : Forall2 says ps rs -> (length ps <= length sqls)%nat ->
  split_messages (concat (reply_msgs <$> ps)) sqls cache =
  (mkSplit rs empty_result None (learn_all (zip sqls (zip ps rs)) cache), inr tt).
Proof. intros F Hl. by apply (split_replies sqls sqls ps rs F [] []). Qed.

(** ** A response that is whole *)

(** The response of a gateway that carries these frames. *)
Definition carries (r : Response) (ms : list RawMessage) (rest : bytes) : Prop :=
  r_ok r = true /\ includes (r_contentType r) (js "vnd.minipg.pgwire") = true /\
  Forall wf_msg ms /\ incomplete rest /\ r_body r = concat (frame_bytes <$> ms) ++ rest.
Lemma post_carries r ms rest : carries r ms rest -> post r = inr ms.
Proof.
  intros (Ho & Hc & Hw & Hi & Hb). unfold post. rewrite Hc, Ho, Hb. cbn [negb]. unfold Parser.push. rewrite app_nil_l.
  rewrite (push_loop_frames _ ms rest []) by done. done.
Qed.

Lemma incomplete_nil : incomplete []. Proof. by left. Qed.

(** A stream of frames that is cut ends in an unfinished frame. *)
Lemma frame_cut m k : wf_msg m -> (k < length (frame_bytes m))%nat -> incomplete (take k (frame_bytes m)).
Proof.
  intros Hw Hk. destruct (decide (k < 5)%nat) as [H5|H5]; [left; unfold blen; rewrite length_take; lia|]. right.
  unfold frame_bytes in *. unfold wf_msg in Hw. pose proof (length_be 4 (blen (mbody m) + 4)) as L4.
  exists (blen (mbody m) + 4). destruct k as [|k]; [lia|]. cbn [take length] in *. rewrite length_app, L4 in Hk. rewrite take_app_ge by lia. rewrite L4.
  set (t := take _ (mbody m)). assert (blen t < blen (mbody m)) as Ht.
  { unfold t, blen. rewrite length_take. lia. }
  assert (0 <= blen (mbody m)) by (unfold blen; lia).
  pose proof (rest_at_0 (mtype m :: be 4 (blen (mbody m) + 4) ++ t)) as HR. apply rest_at_byte in HR as [_ HR].
  apply rest_at_i32 in HR as [HR _]; [|unfold i32_range; lia]. rewrite Z.add_0_l in HR. split; [exact HR|]. split; [lia|].
  rewrite blen_cons, blen_app. unfold blen at 1. rewrite L4. lia.
Qed.
Lemma cut_frames ms k : Forall wf_msg ms -> (k < length (concat (frame_bytes <$> ms)))%nat ->
  exists j rest, take k (concat (frame_bytes <$> ms)) = concat (frame_bytes <$> take j ms) ++ rest /\ incomplete rest /\ (j < length ms)%nat.
Proof.
  intros Hw. revert k. induction Hw as [|m ms Hm _ IH]; intros k Hk; [simpl in Hk; lia|]. rewrite fmap_cons in *. cbn [concat] in *.
  destruct (decide (k < length (frame_bytes m))%nat) as [Hlt|Hge].
  - exists 0%nat, (take k (frame_bytes m)). rewrite take_app_le by lia. split; [done|]. split; [by apply frame_cut|cbn [length]; lia].
  - rewrite length_app in Hk. destruct (IH (k - length (frame_bytes m))%nat ltac:(lia)) as (j & rest & E & Hi & Hj).
    exists (S j), rest. rewrite take_app_ge by lia. rewrite E. cbn [take length]. rewrite fmap_cons. cbn [concat].
    split; [by rewrite app_assoc|]. split; [done|lia].
Qed.

Section Answers.
Context `{Env} (cfg : HttpConfig).

(** The frames of an error that COMMIT raises after the last result. *)
Definition commit_msgs (commit : option (bytes * PgErrorFields)) : list RawMessage := match commit with Some (b, _) => [msg "E" b] | None => [] end.
Lemma answer_replies {A} sqls (k : list RawResult -> option PgErrorFields -> Cache -> out A) ps rs commit r cache :
  Forall2 says ps rs -> length ps = length sqls -> (forall b e, commit = Some (b, e) -> parseErrorFields b = Ok e) ->
  carries r (concat (reply_msgs <$> ps) ++ commit_msgs commit) [] ->
  let cache' := learn_all (zip sqls (zip ps rs)) cache in
  answer sqls k r cache = (cache', k rs (snd <$> commit) cache').
Proof.
  intros F Hl Hc Hr cache'. unfold answer. rewrite (post_carries _ _ _ Hr). unfold split_messages. rewrite split_loop_app.
  pose proof (split_messages_replies sqls ps rs cache F ltac:(lia)) as E. unfold split_messages in E. rewrite E. fold cache'.
  destruct commit as [[b e]|]; [|done]. cbn [commit_msgs split_loop].
  assert (split_step sqls (mkSplit rs empty_result None cache') (msg "E" b) = inr (mkSplit rs empty_result (Some e) cache')) as Es.
  { unfold split_step. cbn [is_type msg mtype mbody]. simpl. rewrite (Hc b e eq_refl). simpl.
    rewrite (proj2 (Nat.leb_le _ _)); [done|]. apply Forall2_length in F. lia. }
  by rewrite Es.
Qed.

(** C14: Whatever the rows, tags, errors and descriptions, each statement of a pipeline gets exactly its own
    result, decoded by its own description; a batch resolves with all of them or rejects with the first
    error, be it a statement's or the one of COMMIT that follows the last result. *)
Theorem replies_attributed qs ps rs commit r cache :
  Forall2 says ps rs -> length ps = length qs -> (forall b e, commit = Some (b, e) -> parseErrorFields b = Ok e) ->
  carries r (concat (reply_msgs <$> ps) ++ commit_msgs commit) [] ->
  let cache' := learn_all (zip (q_sql <$> qs) (zip ps rs)) cache in
  pipeline_answer cfg qs r cache =
    (cache', match commit with Some (_, e) => inl (HPg e) | None => inr ((fun qr => decode cfg qr.1 cache' qr.2) <$> zip qs rs) end) /\
  batch_answer cfg qs r cache =
    (cache', match first_error rs (snd <$> commit) with Some e => inl (HPg e) | None => mapO (fun qr => decode cfg qr.1 cache' qr.2) (zip qs rs) end).
Proof.
  intros F Hl Hc Hr. pose proof (Forall2_length _ _ _ F) as Hrs. unfold pipeline_answer, batch_answer.
  rewrite !(answer_replies _ _ ps rs commit) by (done || by rewrite length_fmap). cbv zeta. rewrite Hrs in Hl. rewrite Hl, Nat.eqb_refl.
  split; destruct commit as [[b e]|]; done.
Qed.

(** ** A response that is cut short *)

Definition closes (m : RawMessage) : bool := is_type "C" m || is_type "I" m || is_type "E" m.
Definition closings (ms : list RawMessage) : nat := length (List.filter closes ms).

Lemma split_step_count sqls s m s' : split_step sqls s m = inr s' ->
  (length (s_results s') <= length (s_results s) + if closes m then 1 else 0)%nat.
Proof.
  unfold split_step, closes. destruct (is_type "T" m).
  - destruct (Parser.parseRowDescription _); simpl; [|done..]. intros [= <-]. unfold remember. cbn [s_results on_cur].
    destruct (sqls !! _); simpl; lia.
  - destruct (is_type "D" m); [intros [= <-]; simpl; lia|]. destruct (is_type "C" m); [intros [= <-]; simpl; rewrite length_app; simpl; lia|].
    destruct (is_type "I" m); [intros [= <-]; simpl; rewrite length_app; simpl; lia|]. destruct (is_type "E" m).
    + destruct (parseErrorFields _); simpl; [|done..]. destruct (_ <=? _)%nat; intros [= <-]; simpl; rewrite ?length_app; simpl; lia.
    + destruct (connection_frame m); [done|]. intros [= <-]. simpl. lia.
Qed.
Lemma split_loop_count sqls s ms s' : split_loop sqls s ms = (s', inr tt) -> (length (s_results s') <= length (s_results s) + closings ms)%nat.
Proof.
  revert s. unfold closings. induction ms as [|m ms IH]; intros s; cbn [split_loop]; [intros [= <-]; simpl; lia|].
  destruct (split_step sqls s m) as [e|s1] eqn:E1; [done|]. intros Hl%IH. apply split_step_count in E1. cbn [List.filter]. destruct (closes m); simpl; lia.
Qed.
Lemma closings_app l k : closings (l ++ k) = (closings l + closings k)%nat.
Proof. unfold closings. by rewrite List.filter_app, length_app. Qed.

(** Fewer closing frames than statements never resolve. *)
Lemma answer_short qs ms rest r cache : carries r ms rest -> (closings ms < length qs)%nat ->
  (exists e, (pipeline_answer cfg qs r cache).2 = inl e) /\ (exists e, (batch_answer cfg qs r cache).2 = inl e).
Proof.
  intros Hr Hlt. unfold pipeline_answer, batch_answer, answer. rewrite (post_carries _ _ _ Hr). unfold split_messages.
  destruct (split_loop _ _ ms) as [s [e|[]]] eqn:Es; [by split; exists e|]. apply split_loop_count in Es. simpl in Es.
  assert (length (s_results s) =? length qs = false)%nat as -> by (apply Nat.eqb_neq; lia).
  split; cbn [mbind out_bind snd]; [destruct (s_trailing s)|destruct (first_error _ _)]; by eexists.
Qed.

(** A response that ends anywhere before the closing frame of its last statement is refused: neither a
    pipeline nor a batch resolves, whatever the frames are. *)
Theorem truncated_refused qs ms m k r cache :
  Forall wf_msg (ms ++ [m]) -> closes m = true -> closings (ms ++ [m]) = length qs ->
  r_ok r = true -> includes (r_contentType r) (js "vnd.minipg.pgwire") = true ->
  (k < length (concat (frame_bytes <$> (ms ++ [m]))))%nat -> r_body r = take k (concat (frame_bytes <$> (ms ++ [m]))) ->
  (exists e, (pipeline_answer cfg qs r cache).2 = inl e) /\ (exists e, (batch_answer cfg qs r cache).2 = inl e).
Proof.
  intros Hw Hm Hn Ho Hc Hk Hb. destruct (cut_frames _ k Hw Hk) as (j & rest & E & Hi & Hj).
  apply (answer_short qs (take j (ms ++ [m])) rest).
  - repeat split; [done|done|by apply Forall_take|done|by rewrite Hb].
  - rewrite <- Hn, closings_app. rewrite length_app in Hj. simpl in Hj. rewrite take_app_le by lia.
    pose proof (closings_app (take j ms) (drop j ms)) as Ec. rewrite take_drop in Ec. unfold closings in *. simpl. rewrite Hm. simpl. lia.
Qed.
End Answers.

(** ** Leaving out descriptions *)

(** A query and what the server makes of it: description, rows, end, and what these say. *)
Record Exchange := mkExchange { x_query : HttpQuery; x_desc : bytes; x_rows : list bytes; x_end : Ending; x_result : RawResult }.
Definition desc_hash (b : bytes) : jstr := fnv1a64 (frame_bytes (msg "T" b)).
(** The hash that goes with the request, and the gateway's reply to it. *)
Definition sent (cfg : HttpConfig) (q : HttpQuery) (cache : Cache) : option jstr :=
  if h_desc cfg then d_hash <$> cache !! q_sql q else None.
Definition gateway (x : Exchange) (desc : option jstr) : Reply :=
  mkReply (if bool_decide (desc = Some (desc_hash (x_desc x))) then None else Some (x_desc x)) (x_rows x) (x_end x).
Definition delivered (p : Reply) : Response :=
  mkResponse true 200 (js "OK") (js "application/vnd.minipg.pgwire") (concat (frame_bytes <$> reply_msgs p)).
Definition sound (x : Exchange) : Prop :=
  says (mkReply (Some (x_desc x)) (x_rows x) (x_end x)) (x_result x) /\
  Forall wf_msg (reply_msgs (mkReply (Some (x_desc x)) (x_rows x) (x_end x))).

Section Elision.
Context `{Env} (cfg : HttpConfig).

Definition without_desc : HttpConfig :=
  mkHttpConfig (h_token cfg) (h_temporalString cfg) (h_int8 cfg) false (h_decoders cfg) (h_mapperFactory cfg).
(** One query after the other, each when the answer to the last is in. *)
Fixpoint session (c : HttpConfig) (xs : list Exchange) (cache : Cache) : list (out QueryResult) :=
  match xs with
  | [] => []
  | x :: t => let '(cache', o) := query_answer c (x_query x) (delivered (gateway x (sent c (x_query x) cache))) cache in
              o :: session c t cache'
  end.

Definition bare_result (r : RawResult) : RawResult := mkRaw_ None (w_rows r) (w_command r) (w_rowCount r) (w_error r).
Lemma gateway_says x desc : sound x ->
  says (gateway x desc) (if bool_decide (desc = Some (desc_hash (x_desc x))) then bare_result (x_result x) else x_result x).
Proof.
  intros [(Hd & Hr & He) _]. unfold gateway. destruct (bool_decide _); [|done]. unfold says, bare_result. simpl in *.
  split; [done|]. split; [done|]. by destruct (x_end x).
Qed.
Lemma query_answer_gateway c x desc cache : sound x ->
  let r := if bool_decide (desc = Some (desc_hash (x_desc x))) then bare_result (x_result x) else x_result x in
  let cache' := learn (q_sql (x_query x)) (gateway x desc) r cache in
  query_answer c (x_query x) (delivered (gateway x desc)) cache = (cache', decode c (x_query x) cache' r).
Proof.
  intros Hx r cache'. unfold query_answer.
  rewrite (answer_replies [q_sql (x_query x)] _ [gateway x desc] [r] None (delivered (gateway x desc)) cache); [done| |done|done|].
  - constructor; [by apply gateway_says|done].
  - unfold carries, delivered. cbn [r_ok r_contentType r_body concat fmap list_fmap commit_msgs]. rewrite !app_nil_r.
    split; [done|]. split; [done|]. split; [|split; [apply incomplete_nil|done]].
    destruct Hx as [_ Hw]. unfold gateway. destruct (bool_decide _); [|done]. unfold reply_msgs in *. cbn [p_desc p_rows p_end desc_msgs app] in *.
    by apply Forall_inv_tail in Hw.
Qed.

(** Every description in the cache is one that was sent. *)
Definition harvested (ds : list bytes) (cache : Cache) : Prop :=
  forall sql d, cache !! sql = Some d -> exists b fs, b ∈ ds /\ Parser.parseRowDescription b = Ok fs /\ d = mkDescriptor (desc_hash b) fs.

Lemma learn_harvested ds x desc cache : sound x -> x_desc x ∈ ds -> harvested ds cache ->
  harvested ds (learn (q_sql (x_query x)) (gateway x desc) (if bool_decide (desc = Some (desc_hash (x_desc x))) then bare_result (x_result x) else x_result x) cache).
Proof.
  intros [(Hd & _) _] Hin Hc. unfold gateway, learn. destruct (bool_decide _); [done|]. cbn [p_desc] in *. destruct Hd as (fs & Hp & ->).
  intros sql d [[<- <-]|[_ Hs]]%lookup_insert_Some; [by exists (x_desc x), fs|by eapply Hc].
Qed.

(** The description that is used is the statement's own, sent or not. *)
Lemma decode_same ds x cache cache0 : sound x -> x_desc x ∈ ds -> harvested ds cache ->
  (forall b b', b ∈ ds -> b' ∈ ds -> desc_hash b = desc_hash b' -> b = b') ->
  let desc := sent cfg (x_query x) cache in
  let r := if bool_decide (desc = Some (desc_hash (x_desc x))) then bare_result (x_result x) else x_result x in
  decode cfg (x_query x) (learn (q_sql (x_query x)) (gateway x desc) r cache) r
  = decode without_desc (x_query x) cache0 (x_result x).
Proof.
  intros [(Hd & _) _] Hin Hc Hinj desc r. cbn [p_desc] in Hd. destruct Hd as (fs & Hp & Hf). unfold r, gateway, learn.
  destruct (bool_decide (desc = _)) eqn:Eb; cbn [p_desc]; unfold decode; rewrite Hf; [|done].
  apply bool_decide_eq_true in Eb. unfold desc, sent in Eb. destruct (h_desc cfg); [|done].
  destruct (cache !! q_sql (x_query x)) as [d|] eqn:Ed; [|done]. destruct (Hc _ _ Ed) as (b & fs' & Hb & Hp' & ->). simpl in Eb.
  injection Eb as Eb. apply Hinj in Eb as ->; [|done..]. rewrite Hp in Hp'. injection Hp' as <-.
  unfold bare_result. cbn [w_error w_fields w_rows w_rowCount w_command]. done.
Qed.

End Elision.

(** ** Concrete exchanges *)

Definition gateway_env : Env :=
  {| reg := Registry.init; user_decoder := fun _ b => Ok (VBuf b); jsonSourceSupported := true; Date_parse := fun _ => None |}.
#[local] Existing Instance gateway_env.
Definition gateway_cfg : HttpConfig := mkHttpConfig None false I8Bigint true defaultDecoders jitMapper.
Definition select_a : HttpQuery := mkHttpQuery (js "select a from t") [] None (Some RArray) None.
Definition a_of (type : Z) : list Field := [mkField (js "a") 0 0 type (-1) (-1) 0].
Definition desc_a (type : Z) : bytes := row_description (a_of type).
Definition row_of (s : string) : bytes := be 2 1 ++ be 4 (blen (js s)) ++ js s.
Definition tag (s : string) : bytes := js s ++ [0].
Definition pg_failure (code : string) : bytes := error_body [(83, js "ERROR"); (67, js code); (77, js "m")].
Definition failure_of (code : string) : PgErrorFields := match parseErrorFields (pg_failure code) with Ok e => e | _ => ∅ end.
Definition says_one (rows : list string) : Reply := mkReply (Some (desc_a 23)) (row_of <$> rows) (Complete (tag "SELECT 1")).
Definition one_result (rows : list string) : RawResult := mkRaw_ (Some (a_of 23)) (row_of <$> rows) (Some (js "SELECT")) (Some 1) None.
Definition failed_reply (code : string) : Reply := mkReply None [] (Failed (pg_failure code)).
Definition failed_result (code : string) : RawResult := mkRaw_ None [] None None (Some (failure_of code)).
Definition one_row : Exchange := mkExchange select_a (desc_a 23) [row_of "7"] (Complete (tag "SELECT 1")) (one_result ["7"%string]).

Ltac concrete_frames := repeat first [apply Forall_nil_2 | apply Forall_cons_2]; apply Z.leb_le; vm_compute; reflexivity.

(** Three statements, the second of which fails, and COMMIT fails after them. *)
Definition three_replies : list Reply := [says_one ["7"; "8"]%string; failed_reply "22012"; says_one []].
Definition three_results : list RawResult := [one_result ["7"; "8"]%string; failed_result "22012"; one_result []].
Definition three_delivered : Response :=
  mkResponse true 200 (js "OK") (js "application/vnd.minipg.pgwire")
    (concat (frame_bytes <$> (concat (reply_msgs <$> three_replies) ++ [msg "E" (pg_failure "40001")]))).
Lemma replies_attributed_witness : (pipeline_answer gateway_cfg [select_a; select_a; select_a] three_delivered ∅).2 = inl (HPg (failure_of "40001")).
Proof.
  unshelve epose proof (replies_attributed gateway_cfg [select_a; select_a; select_a] three_replies three_results
    (Some (pg_failure "40001", failure_of "40001")) three_delivered ∅ _ _ _ _) as H.
  - constructor; [by vm_compute; split; [eexists|]|]. constructor; [|constructor; [|constructor]].
    + split; [done|]. split; [done|]. split; [done|]. split; [done|]. eexists. split; [|reflexivity]. vm_compute. reflexivity.
    + by vm_compute; split; [eexists|].
  - reflexivity.
  - intros b e [= <- <-]. vm_compute. reflexivity.
  - split; [reflexivity|]. split; [reflexivity|]. split; [concrete_frames|]. split; [by apply incomplete_nil|]. by rewrite app_nil_r.
  - destruct H as [H _]. by rewrite H.
Defined.

(** The same response without its last byte. *)
Lemma truncated_refused_witness :
  let ms := concat (reply_msgs <$> three_replies) in
  let r := mkResponse true 200 (js "OK") (js "application/vnd.minipg.pgwire") (removelast (concat (frame_bytes <$> ms))) in
  exists e, (batch_answer gateway_cfg [select_a; select_a; select_a] r ∅).2 = inl e.
Proof.
  intros ms r.
  refine (proj2 (truncated_refused gateway_cfg [select_a; select_a; select_a] (removelast ms) (msg "C" (tag "SELECT 1"))
    (length (concat (frame_bytes <$> ms)) - 1) r ∅ _ _ _ _ _ _ _)).
  - cbn. concrete_frames.
  - reflexivity.
  - vm_compute. reflexivity.
  - reflexivity.
  - reflexivity.
  - vm_compute. lia.
  - vm_compute. reflexivity.
Defined.

Lemma one_row_sound : sound one_row.
Proof. split; [by vm_compute; split; [eexists|]|concrete_frames]. Qed.

(** Two queries of one text are in flight over a change of the column's type. The gateway answers the first
    before the change and leaves the description out; the answer to the second brings the new one in first:
    the row of the first is then read with the type of the second. *)
Definition known : Cache := <[q_sql select_a := mkDescriptor (desc_hash (desc_a 23)) (a_of 23)]> ∅.
Definition first_answer : Response := delivered (gateway one_row (sent gateway_cfg select_a known)).
Definition second_answer : Response := delivered (mkReply (Some (desc_a 25)) [row_of "x"] (Complete (tag "SELECT 1"))).
Definition rows_of (o : out QueryResult) : option (list value) := match o with inr r => Some (rows r) | inl _ => None end.
Example crossed_answers :
  (rows_of (query_answer gateway_cfg select_a first_answer known).2,
   rows_of (query_answer gateway_cfg select_a first_answer (query_answer gateway_cfg select_a second_answer known).1).2)
  = (Some [VArr [VNum (of_Z 7)]], Some [VArr [VStr (js "7")]]).
Proof. vm_compute. reflexivity. Qed.
