(* ===== verification/Url.v ===== *)
(** * Connection strings (src/url.ts)

    A configuration is the object the code passes around: its own properties in order. The WHATWG parser
    [URL] belongs to the platform and is a parameter; the percent codec is the language's. *)

From S2P Require Import Prelude Utf8 Text Buf Num Dates Value NumText Faults Json.

(** ** encodeURIComponent and decodeURIComponent *)

Definition URIError : exn := Error (js "URI malformed").
Definition unreserved (c : Z) : bool :=
  is_digit c || between 97 122 c || between 65 90 c || existsb (Z.eqb c) (js "-_.!~*'()").
Definition hex_upper (d : Z) : Z := if d <? 10 then 48 + d else 55 + d.
Definition pct (b : Z) : jstr := [37; hex_upper (b / 16); hex_upper (b mod 16)].
Definition pcts (bs : bytes) : jstr := concat (pct <$> bs).
Fixpoint encodeURIComponent (s : jstr) : res jstr :=
  match s with
  | [] => Ok []
  | c :: t =>
    if unreserved c then r ← encodeURIComponent t; Ok (c :: r)
    else if is_hi c then
      match t with
      | d :: t' => if is_lo d then r ← encodeURIComponent t'; Ok (pcts (enc2 c d) ++ r) else Throw URIError
      | [] => Throw URIError
      end
    else if is_lo c then Throw URIError
    else r ← encodeURIComponent t; Ok (pcts (enc1 c) ++ r)
  end.

(** %XX *)
Definition pct_byte (s : jstr) : option (Z * jstr) :=
  match s with
  | 37 :: a :: b :: t => match hex_val a, hex_val b with Some x, Some y => Some (x * 16 + y, t) | _, _ => None end
  | _ => None
  end.
(** The number of bytes of the sequence that starts with [b]. *)
Definition lead (b : Z) : nat := if between 192 223 b then 2 else if between 224 239 b then 3 else if between 240 247 b then 4 else 0.
Fixpoint pct_tail (n : nat) (s : jstr) : option (bytes * jstr) :=
  match n with
  | O => Some ([], s)
  | S n' => '(b, t) ← pct_byte s; if cont b then '(bs, r) ← pct_tail n' t; Some (b :: bs, r) else None
  end.
(** A sequence is valid when it is the encoding of what it decodes to. *)
Definition one_char (bs : bytes) : option jstr := let cs := utf8_decode bs in if bool_decide (utf8 cs = bs) then Some cs else None.
Fixpoint decode_uri (fuel : nat) (s : jstr) : res jstr :=
  match fuel with
  | O => match s with [] => Ok [] | _ => NoFuel end
  | S f =>
    match s with
    | [] => Ok []
    | c :: t =>
      if c =? 37 then
        match pct_byte s with
        | None => Throw URIError
        | Some (b, r) =>
          if b <? 128 then x ← decode_uri f r; Ok (b :: x)
          else match lead b with
               | O => Throw URIError
               | S n => match ('(bs, r) ← pct_tail n r; cs ← one_char (b :: bs); Some (cs, r)) with
                        | Some (cs, r) => x ← decode_uri f r; Ok (cs ++ x)
                        | None => Throw URIError
                        end
               end
        end
      else x ← decode_uri f t; Ok (c :: x)
    end
  end.
Definition decodeURIComponent (s : jstr) : res jstr := decode_uri (length s) s.

Example uri_1 : decodeURIComponent (js "a%C3%A9%20%F0%9F%98%80") = Ok [97; 233; 32; 55357; 56832]. Proof. vm_compute. reflexivity. Qed.
Example uri_2 : decodeURIComponent (js "100%") = Throw URIError. Proof. vm_compute. reflexivity. Qed.
Example uri_3 : encodeURIComponent (js "p@s:w/d" ++ [8364]) = Ok (js "p%40s%3Aw%2Fd%E2%82%AC"). Proof. vm_compute. reflexivity. Qed.

(** ** Objects *)

Definition obj : Type := list (jstr * value).
(** o[k], undefined when absent *)
Definition own (k : string) (o : obj) : value := default VUndef (get_key (js k) o).
Definition put_all (o : obj) (l : obj) : obj := foldl (fun o kv => set_key kv.1 kv.2 o) o l.
Definition truthy (v : value) : bool :=
  match v with
  | VUndef | VNull => false
  | VBool b => b
  | VNum x => negb (bool_decide (x = NaN)) && negb (bool_decide (int_of x = Some 0))
  | VBig z => negb (z =? 0)
  | VStr s => negb (bool_decide (s = []))
  | _ => true
  end.
(** Number(text): white space around it and the radix prefixes. *)
Fixpoint radix_val (r : Z) (s : jstr) (acc : Z) : option Z :=
  match s with
  | [] => Some acc
  | c :: t => match hex_val c with Some d => if d <? r then radix_val r t (acc * r + d) else None | None => None end
  end.
Definition radix (c : Z) : option Z :=
  if (c =? 120) || (c =? 88) then Some 16 else if (c =? 111) || (c =? 79) then Some 8 else if (c =? 98) || (c =? 66) then Some 2 else None.
Definition ToNumber (s : jstr) : num :=
  let s := trim s in
  match s with
  | 48 :: c :: t =>
    match radix c with
    | Some r => match t with [] => NaN | _ => match radix_val r t 0 with Some z => of_Z z | None => NaN end end
    | None => Number s
    end
  | _ => Number s
  end.
(** Number * [k] *)
Definition times (k : Z) (x : num) : num :=
  match x with Fin s m e => let '(p, q) := scale (m * k) 1 (- e) in rnd s p q | x => x end.

(** ** The connection string *)

Record Url := mkUrl {
  u_protocol : jstr; u_username : jstr; u_password : jstr; u_hostname : jstr; u_port : jstr; u_pathname : jstr;
  u_params : list (jstr * jstr) }.

(** /(:\/\/[^:/?#@\s]*:)[^@/?#\s]*(@)/ *)
Definition stops (cs : string) (c : Z) : bool := StrWhiteSpace c || existsb (Z.eqb c) (js cs).
Fixpoint span (f : Z -> bool) (s : jstr) : jstr * jstr :=
  match s with c :: t => if f c then let '(a, b) := span f t in (c :: a, b) else ([], s) | [] => ([], []) end.
Definition redact_here (s : jstr) : option jstr :=
  if prefix_of (js "://") s then
    let '(user, r) := span (fun c => negb (stops ":/?#@" c)) (drop 3 s) in
    match r with
    | 58 :: t => match (span (fun c => negb (stops "@/?#" c)) t).2 with
                 | 64 :: rest => Some (js "://" ++ user ++ js ":***@" ++ rest)
                 | _ => None
                 end
    | _ => None
    end
  else None.
Fixpoint redactUrl (s : jstr) : jstr :=
  match redact_here s with
  | Some r => r
  | None => match s with c :: t => c :: redactUrl t | [] => [] end
  end.

Definition decodePart (s : jstr) (what : string) (url : jstr) : res jstr :=
  match decodeURIComponent s with
  | Throw _ => Throw (Error (js "minipg: the " ++ js what ++ js " in connection string " ++ redactUrl url
      ++ js " has an invalid percent-escape" ++ [32; 8212; 32] ++ js "write a literal " ++ [34; 37; 34] ++ js " as " ++ [34] ++ js "%25" ++ [34]
      ++ js " and percent-encode other reserved characters"))
  | r => r
  end.
(** /^postgres(?:ql)?:\/\//i *)
Definition postgres_scheme (s : jstr) : bool := prefix_of (js "postgres://") (lower s) || prefix_of (js "postgresql://") (lower s).
Definition strip_brackets (s : jstr) : jstr :=
  let s := match s with 91 :: t => t | _ => s end in
  match rev s with 93 :: t => rev t | _ => s end.
Definition strip_slash (s : jstr) : jstr := match s with 47 :: t => t | _ => s end.
Definition param (k : string) (u : Url) : option jstr := snd <$> List.find (fun p => bool_decide (p.1 = js k)) (u_params u).
Definition given (o : option jstr) : option jstr := match o with Some [] => None | o => o end.
Definition if_given (o : option jstr) (f : jstr -> res obj) : res obj := match given o with Some s => f s | None => Ok [] end.
Definition ssl_value (mode : jstr) : value :=
  if bool_decide (mode = js "disable") then VBool false
  else if bool_decide (mode = js "verify-ca") || bool_decide (mode = js "verify-full") then VStr mode
  else VStr (js "require").
Definition channel_binding (cb : jstr) : res obj :=
  if bool_decide (cb = js "disable") || bool_decide (cb = js "prefer") || bool_decide (cb = js "require")
  then Ok [(js "channelBinding", VStr cb)]
  else Throw (Error (js "minipg: invalid channel_binding value " ++ quote cb ++ js " (expected `disable` | `prefer` | `require`)")).

Section Config.
Context (URL : jstr -> option Url).

Definition invalid_url (url : jstr) : jstr :=
  if postgres_scheme (trim url)
  then js "minipg: could not parse connection string " ++ redactUrl url ++ [32; 8212; 32]
       ++ js "check the host/port, and percent-encode any reserved characters in the username/password ("
       ++ [34; 64; 34; 8594; 34; 37; 52; 48; 34; 44; 32; 34; 58; 34; 8594; 34; 37; 51; 65; 34; 44; 32; 34; 47; 34; 8594; 34; 37; 50; 70; 34; 41]
  else js "minipg: invalid connection string" ++ [32; 8212; 32] ++ js "it must start with " ++ [34] ++ js "postgres://" ++ [34] ++ js " or "
       ++ [34] ++ js "postgresql://" ++ [34] ++ js " (received: " ++ redactUrl url ++ js ")".
Definition unsupported (protocol url : jstr) : jstr :=
  js "minipg: unsupported connection string scheme " ++ [34] ++ protocol ++ [34; 32; 8212; 32] ++ js "it must start with " ++ [34] ++ js "postgres://" ++ [34]
  ++ js " or " ++ [34] ++ js "postgresql://" ++ [34] ++ js " (received: " ++ redactUrl url ++ js ")".
(** [out] in the order of its assignments; no property is assigned twice. *)
Definition parseConnectionString (url : jstr) : res obj :=
  match URL url with
  | None => Throw (Error (invalid_url url))
  | Some u =>
    if negb (bool_decide (u_protocol u = js "postgres:") || bool_decide (u_protocol u = js "postgresql:"))
    then Throw (Error (unsupported (u_protocol u) url))
    else
      user ← if_given (Some (u_username u)) (fun s => x ← decodePart s "username" url; Ok [(js "user", VStr x)]);
      password ← if_given (Some (u_password u)) (fun s => x ← decodePart s "password" url; Ok [(js "password", VStr x)]);
      host ← (match param "host" u with
              | Some (47 :: p) => Ok [(js "path", VStr (47 :: p))]
              | _ => if_given (Some (u_hostname u)) (fun h => Ok [(js "host", VStr (strip_brackets h))])
              end);
      port ← if_given (Some (u_port u)) (fun p => Ok [(js "port", VNum (ToNumber p))]);
      database ← if_given (Some (strip_slash (u_pathname u))) (fun d => x ← decodePart d "database" url; Ok [(js "database", VStr x)]);
      app ← if_given (param "application_name" u) (fun a => Ok [(js "applicationName", VStr a)]);
      timeout ← if_given (param "connect_timeout" u) (fun t => Ok [(js "connectTimeout", VNum (times 1000 (ToNumber t)))]);
      options ← if_given (param "options" u) (fun o => Ok [(js "options", VStr o)]);
      cb ← if_given (param "channel_binding" u) channel_binding;
      ssl ← if_given (match param "sslmode" u with Some m => Some m | None => param "ssl" u end) (fun m => Ok [(js "ssl", ssl_value m)]);
      Ok (user ++ password ++ host ++ port ++ database ++ app ++ timeout ++ options ++ cb ++ ssl)
  end.

Definition defined (kv : jstr * value) : bool := match kv.2 with VUndef => false | _ => true end.
Definition explicit (config : obj) : obj := List.filter (fun kv => negb (bool_decide (kv.1 = js "url")) && defined kv) config.
Definition url_of (config : obj) : option jstr := match own "url" config with VStr s => given (Some s) | _ => None end.
Definition resolveUrl (config : obj) : res obj :=
  match url_of config with
  | None => Ok config
  | Some url => o ← parseConnectionString url; Ok (put_all o (explicit config))
  end.

Definition effectiveChannelBinding (config : obj) : res value :=
  let own_cb := own "channelBinding" config in
  if nullish own_cb then match url_of config with Some url => o ← parseConnectionString url; Ok (own "channelBinding" o) | None => Ok VUndef end
  else Ok own_cb.
Definition require_cb (v : value) : bool := match v with VStr s => bool_decide (s = js "require") | _ => false end.
Definition relaxChannelBinding (config : obj) : res obj :=
  cb ← effectiveChannelBinding config;
  Ok (if require_cb cb then set_key (js "channelBinding") (VStr (js "prefer")) config else config).
(** The error carries [fatal]. *)
Definition refuseChannelBinding (config : obj) (entry limit : jstr) : res (obj + jstr) :=
  cb ← effectiveChannelBinding config;
  Ok (if require_cb cb
      then inr (js "minipg/" ++ entry ++ js ": channel_binding=require cannot be honoured" ++ [32; 8212; 32] ++ limit
           ++ js ", so SCRAM's tls-server-end-point cannot be computed. "
           ++ js "Use `channel_binding=prefer` (or drop the parameter) to connect unbound, or `minipg/node` for a bound connection.")
      else inl config).
End Config.
