(* ===== verification/NeonHttp.v ===== *)
(** * The Neon HTTP client (src/neon-http.ts)

    A query's response is JSON that is not parsed: [decodeSingleRaw] scans its bytes and rebuilds every row as
    the DataRow a server would have sent, in a scratch buffer that all rows share. A transaction's response
    is parsed ([decodeParsed]). Positions are integers, as in the code; fetch() is not modelled. *)

From S2P Require Import Prelude Utf8 Text Buf Num Dates Value NumText Faults Json JsonBig JsonSpec Protocol Parse Errors Encode Decode Mapper Spec Plans Rest Url.

(** ** Scanning *)

Fixpoint run_string (w : bytes) (esc : bool) : Z * bool :=
  match w with
  | c :: t =>
    if c =? 92 then
      match t with
      | e :: t1 =>
        if e =? 117 then match t1 with _ :: _ :: _ :: _ :: t2 => let '(n, e) := run_string t2 true in (6 + n, e) | _ => (6, true) end
        else let '(n, e) := run_string t1 true in (2 + n, e)
      | [] => (2, true)
      end
    else if c =? 34 then (1, esc)
    else let '(n, e) := run_string t esc in (1 + n, e)
  | [] => (0, esc)
  end.
(** The index after the closing quote of the string at [i], and scanEscaped. *)
Definition scanString (b : bytes) (i : Z) : Z * bool :=
  let '(n, esc) := run_string (subarray b (i + 1) (blen b)) false in (i + 1 + n, esc).
Definition is_at (b : bytes) (i c : Z) : bool := bool_decide (at_ b i = Some c).
Fixpoint nest_end (fuel : nat) (b : bytes) (open close i depth : Z) : res Z :=
  match fuel with
  | O => NoFuel
  | S f =>
    if blen b <=? i then Ok i
    else if is_at b i 34 then nest_end f b open close (scanString b i).1 depth
    else if is_at b i open then nest_end f b open close (i + 1) (depth + 1)
    else if is_at b i close then if depth - 1 =? 0 then Ok (i + 1) else nest_end f b open close (i + 1) (depth - 1)
    else nest_end f b open close (i + 1) depth
  end.
Definition plain_char (c : Z) : bool := negb ((c =? 44) || (c =? 125) || (c =? 93) || (c <=? 32)).
(** One round per byte at most. *)
Definition endOfValue (b : bytes) (i : Z) : res Z :=
  if is_at b i 34 then Ok (scanString b i).1
  else if is_at b i 123 then nest_end (S (length b)) b 123 125 i 0
  else if is_at b i 91 then nest_end (S (length b)) b 91 93 i 0
  else Ok (i + run plain_char (subarray b i (blen b))).
Definition skipWs (b : bytes) (i : Z) : Z := ws b (blen b) i.

(** buf.indexOf(key, from) *)
Fixpoint find_key (key w : bytes) : option Z :=
  if prefix_of key w then Some 0 else match w with [] => None | _ :: t => Z.succ <$> find_key key t end.
Definition index_of (b key : bytes) (from : Z) : Z :=
  match find_key key (subarray b from (blen b)) with Some n => from + n | None => -1 end.

Definition strField (b key : bytes) (from : Z) : res (option value) :=
  let i := index_of b key from in
  if i <? 0 then Ok None
  else
    let j := skipWs b (i + blen key) in
    if is_at b j 34 then v ← JSON_parse (utf8_decode (subarray b j (scanString b j).1)); Ok (Some v) else Ok None.
Definition num_end (c : Z) : bool := negb ((c =? 44) || (c =? 125) || (c <=? 32)).
Definition numField (b key : bytes) (from : Z) : option num :=
  let i := index_of b key from in
  if i <? 0 then None
  else
    let j := skipWs b (i + blen key) in
    let w := subarray b j (blen b) in
    let s := take (Z.to_nat (run num_end w)) w in
    if bool_decide (s = js "null") then None else Some (ToNumber s).

(** ** The scratch row *)

Record RowBuf := mkRowBuf { rb_buf : bytes; rb_pos : Z }.
Section Neon.
Context `{Env} `{Alloc}.

Definition new_rowbuf : RowBuf := mkRowBuf (allocUnsafe 4096) 2.
Definition reset (rb : RowBuf) : RowBuf := mkRowBuf (rb_buf rb) 2.
Definition ensure (n : Z) (rb : RowBuf) : RowBuf :=
  if blen (rb_buf rb) <? rb_pos rb + n
  then mkRowBuf (list_inserts 0 (rb_buf rb) (allocUnsafe (Z.to_nat (Z.max (rb_pos rb + n) (blen (rb_buf rb) * 2))))) (rb_pos rb)
  else rb.
(** Bytes stored at the position, which moves by [n]. *)
Definition put (bs : bytes) (n : Z) (rb : RowBuf) : RowBuf := mkRowBuf (list_inserts (Z.to_nat (rb_pos rb)) bs (rb_buf rb)) (rb_pos rb + n).
Definition pushNull (rb : RowBuf) : RowBuf := put (be 4 (-1)) 4 (ensure 4 rb).
(** src.copy: a start beyond the end is refused, an empty range copies nothing. *)
Definition copied (src : bytes) (start stop : Z) : res bytes :=
  if blen src <? start then Throw RangeError else Ok (subarray src start (Z.max start stop)).
Definition pushSlice (src : bytes) (start stop : Z) (rb : RowBuf) : res RowBuf :=
  let len := stop - start in
  n ← int32_be len;
  bs ← copied src start stop;
  Ok (put bs len (put n 4 (ensure (4 + len) rb))).
Definition pushText (s : option jstr) (rb : RowBuf) : res RowBuf :=
  match s with None => Ok (pushNull rb) | Some s => let b := utf8 s in pushSlice b 0 (blen b) rb end.
(** The row is a view of the scratch. *)
Definition finish (ncols : nat) (rb : RowBuf) : res (RowBuf * bytes) :=
  n ← int_be 2 (-32768) 32767 (Z.of_nat ncols);
  let buf := list_inserts 0 n (rb_buf rb) in
  Ok (mkRowBuf buf (rb_pos rb), subarray buf 0 (rb_pos rb)).

(** ** Decoding *)

Record NeonConfig := mkNeonConfig {
  n_temporalString : bool; n_decoders : gmap Z Decoder;
  n_mapperFactory : list CodegenCol -> bool -> gmap Z Decoder -> res (bytes -> res value) }.
Record NeonField := mkNeonField { f_name : jstr; f_type : Z }.
Definition Shape : Type := option (res (list CodegenCol)).
Record NeonResult := mkNeonResult { nr_rows : list value; nr_columns : list jstr; nr_rowCount : option num; nr_command : option value }.
Context (cfg : NeonConfig).

Definition neon_col (f : NeonField) : CodegenCol := mkCol (f_name f) (f_type f) None None false None None [] None false.
Definition planCols (fields : list NeonField) (shape : Shape) : res (list CodegenCol) :=
  cols ← (match shape with
          | Some given => l ← given; Ok (mergeUnknownCols (unbinary <$> (l : list CodegenCol)) (f_type <$> fields))
          | None => Ok (neon_col <$> fields)
          end : res (list CodegenCol));
  let cols := tagArrayCol <$> (cols : list CodegenCol) in
  Ok (if n_temporalString cfg then (fun c => default c (temporal_col c)) <$> cols else cols).

Definition mapper_of (mode : ResultMode) (cols : list CodegenCol) : res (option (bytes -> res value)) :=
  match mode return res (option (bytes -> res value)) with
  | RArray => m ← n_mapperFactory cfg cols true (n_decoders cfg); Ok (Some m)
  | RObject => m ← n_mapperFactory cfg cols false (n_decoders cfg); Ok (Some m)
  | _ => Ok None
  end.
Definition cell_value (c : option bytes) : value := match c with None => VNull | Some b => VBuf b end.
Definition rowFrom (mode : ResultMode) (mapper : option (bytes -> res value)) (body : bytes) : res value :=
  match mapper with
  | Some m => m body
  | None => match mode return res value with
            | RBuffer => cs ← Parser.parseDataRow body; Ok (VArr (cell_value <$> (cs : list (option bytes))))
            | _ => Ok (VBuf body)
            end
  end.

(** JSON.parse(...) as NeonField[]; the assertion is not checked. *)
Definition int_value (v : value) : option Z := match v with VNum x => int_of x | _ => None end.
Definition field_of (v : value) : option NeonField :=
  match v with
  | VObj fs => match get_key (js "name") fs, get_key (js "dataTypeID") fs ≫= int_value with
               | Some (VStr n), Some t => Some (mkNeonField n t)
               | _, _ => None
               end
  | _ => None
  end.
Definition fields_of (v : value) : option (list NeonField) := match v with VArr l => mapM field_of l | _ => None end.


Section Scan.
Context (raw : bytes) (ncols : nat) (mode : ResultMode) (mapper : option (bytes -> res value)).

(** White space and commas. *)
Fixpoint next_value (fuel : nat) (i : Z) : res Z :=
  match fuel with
  | O => NoFuel
  | S f => let i := skipWs raw i in if is_at raw i 44 then next_value f (i + 1) else Ok i
  end.
Definition next (i : Z) : res Z := next_value (S (length raw)) i.
(** Only a string's text ends in an unescaped quote. *)
Definition parsed_cell (i se : Z) : res jstr :=
  v ← JSON_parse (utf8_decode (subarray raw i se)); match v with VStr s => Ok s | _ => Throw SyntaxError end.
Fixpoint scan_cells (n : nat) (i : Z) (rb : RowBuf) : res (Z * RowBuf) :=
  match n with
  | O => Ok (i, rb)
  | S n' =>
    i ← next i;
    if is_at raw i 110 then scan_cells n' (i + 4) (pushNull rb)
    else
      let '(se, esc) := scanString raw i in
      rb ← (if esc then s ← parsed_cell i se; pushText (Some s) rb else pushSlice raw (i + 1) (se - 1) rb);
      scan_cells n' se rb
  end.
(** A row per '['; a body that is cut short may never end. *)
Fixpoint scan_rows (fuel : nat) (i : Z) (rb : RowBuf) : res (list value * Z) :=
  match fuel with
  | O => NoFuel
  | S f =>
    i ← next i;
    if is_at raw i 93 then Ok ([], i + 1)
    else
      '(i, rb) ← scan_cells ncols (i + 1) (reset rb);
      let i := skipWs raw i in
      let i := if is_at raw i 93 then i + 1 else i in
      '(rb, body) ← finish ncols rb;
      v ← rowFrom mode mapper body;
      '(l, e) ← scan_rows f i rb;
      Ok (v :: l, e)
  end.
End Scan.

Definition key (k : string) : bytes := 34 :: js k ++ [34; 58].
Definition FKEY : bytes := key "fields".
Definition RKEY : bytes := key "rows".
Definition decodeSingleRaw (raw : bytes) (mode : ResultMode) (shape : Shape) : out NeonResult :=
  let fvs := skipWs raw (index_of raw FKEY 0 + blen FKEY) in
  fve ← of_res (endOfValue raw fvs);
  fv ← of_res (JSON_parse (utf8_decode (subarray raw fvs fve)));
  fields ← typed (fields_of fv);
  let i := skipWs raw (index_of raw RKEY fve + blen RKEY) + 1 in
  cols ← of_res (planCols fields shape);
  mapper ← of_res (mapper_of mode cols);
  '(rows, e) ← of_res (scan_rows raw (length cols) mode mapper (S (length raw)) i new_rowbuf);
  command ← of_res (strField raw (key "command") e);
  inr (mkNeonResult rows (name <$> cols) (numField raw (key "rowCount") e) command).

(** ** Parsed results *)

Record ParsedResult := mkParsed { p_fields : list NeonField; p_rows : list (list (option jstr)); p_command : option value; p_rowCount : option num }.
Fixpoint push_cells (n : nat) (row : list (option jstr)) (rb : RowBuf) : res RowBuf :=
  match n with O => Ok rb | S n' => rb ← pushText (default None (head row)) rb; push_cells n' (tl row) rb end.
Fixpoint parsed_rows (ncols : nat) (mode : ResultMode) (mapper : option (bytes -> res value)) (rows : list (list (option jstr))) (rb : RowBuf) : res (list value) :=
  match rows with
  | [] => Ok []
  | row :: t =>
    rb ← push_cells ncols row (reset rb);
    '(rb, body) ← finish ncols rb;
    v ← rowFrom mode mapper body;
    l ← parsed_rows ncols mode mapper t rb;
    Ok (v :: l)
  end.
Definition decodeParsed (r : ParsedResult) (mode : ResultMode) (shape : Shape) : out NeonResult :=
  cols ← of_res (planCols (p_fields r) shape);
  mapper ← of_res (mapper_of mode cols);
  rows ← of_res (parsed_rows (length cols) mode mapper (p_rows r) new_rowbuf);
  inr (mkNeonResult rows (name <$> cols) (Some (default (of_Z (Z.of_nat (length rows))) (p_rowCount r))) (p_command r)).

(** The asserted types of a batch's response. *)
Definition cell_of (v : value) : option (option jstr) := match v with VStr s => Some (Some s) | VNull => Some None | _ => None end.
Definition row_of (v : value) : option (list (option jstr)) := match v with VArr l => mapM cell_of l | _ => None end.
Definition rows_of (v : value) : option (list (list (option jstr))) := match v with VArr l => mapM row_of l | _ => None end.
Definition nullable_of (v : option value) : option value := match v with Some VNull | None => None | v => v end.
Definition count_of (v : option value) : option (option num) :=
  match nullable_of v with None => Some None | Some (VNum x) => Some (Some x) | _ => None end.
Definition result_of (v : value) : option ParsedResult :=
  match v with
  | VObj o =>
    fields ← get_key (js "fields") o ≫= fields_of;
    rows ← get_key (js "rows") o ≫= rows_of;
    count ← count_of (get_key (js "rowCount") o);
    Some (mkParsed fields rows (nullable_of (get_key (js "command") o)) count)
  | _ => None
  end.
Definition results_of (v : value) : option (list ParsedResult) :=
  match v with VObj o => match get_key (js "results") o with Some (VArr l) => mapM result_of l | _ => None end | _ => None end.

(** ** Requests *)

Inductive Isolation := Serializable | RepeatableRead | ReadCommitted | ReadUncommitted.
Definition ISO_HEADER (i : Isolation) : jstr :=
  match i with
  | Serializable => js "Serializable" | RepeatableRead => js "RepeatableRead" | ReadCommitted => js "ReadCommitted" | ReadUncommitted => js "ReadUncommitted"
  end.
Record NeonTxQuery := mkNeonTxQuery { t_sql : jstr; t_params : list value; t_mode : option ResultMode; t_shape : Shape }.
Record NeonTxOptions := mkNeonTxOptions { o_isolation : option Isolation; o_readOnly : option bool; o_deferrable : option bool }.

Definition headers (connString : jstr) (token : option jstr) : list (jstr * jstr) :=
  [(js "Content-Type", js "application/json"); (js "Neon-Connection-String", connString);
   (js "Neon-Raw-Text-Output", js "true"); (js "Neon-Array-Mode", js "true")]
  ++ match token with None | Some [] => [] | Some t => [(js "Authorization", js "Bearer " ++ t)] end.
Definition bool_text (b : bool) : jstr := if b then js "true" else js "false".
Definition tx_headers (o : NeonTxOptions) : list (jstr * jstr) :=
  match o_isolation o with Some i => [(js "Neon-Batch-Isolation-Level", ISO_HEADER i)] | None => [] end
  ++ match o_readOnly o with Some b => [(js "Neon-Batch-Read-Only", bool_text b)] | None => [] end
  ++ match o_deferrable o with Some b => [(js "Neon-Batch-Deferrable", bool_text b)] | None => [] end.

Definition in_quotes (w : jstr) : jstr := 34 :: (upper <$> w) ++ [34].
Definition guard_query (sql : jstr) : out unit :=
  match TX_SQL sql with
  | Some w => fail (js "minipg/neon-http: " ++ in_quotes w ++ js " does NOTHING over stateless HTTP" ++ dash
      ++ js "every query() runs in its OWN session, so hand-rolled BEGIN" ++ [8230]
      ++ js "COMMIT gives zero atomicity with no error; use transaction([...]) for an atomic batch, or minipg/neon-ws for interactive transactions")
  | None => inr tt
  end.
Definition guard_batch (sql : jstr) : out unit :=
  match TX_SQL sql with
  | Some w => fail (js "minipg/neon-http: " ++ in_quotes w ++ js " inside transaction([...])" ++ dash ++ js "the batch is ALREADY wrapped in BEGIN" ++ [8230]
      ++ js "COMMIT server-side; a nested one would silently break its atomicity")
  | None => inr tt
  end.
Definition statement (sql : jstr) (params : list value) : out value :=
  ps ← of_res (encodeJsonParams params []); inr (VObj [(js "query", VStr sql); (js "params", VArr ps)]).
Definition text_of (v : value) : out jstr := o ← of_res (stringify v); inr (default [] o).
Definition query_request (sql : jstr) (params : list value) : out jstr := _ ← guard_query sql; b ← statement sql params; text_of b.
Definition transaction_request (qs : list NeonTxQuery) : out jstr :=
  _ ← mapO (fun q => guard_batch (t_sql q)) qs;
  l ← mapO (fun q => statement (t_sql q) (t_params q)) qs;
  text_of (VObj [(js "queries", VArr l)]).

(** ** Responses *)

Definition member (k : string) (v : value) : value := match v with VObj o => own k o | _ => VUndef end.
Definition post (r : Response) : out bytes :=
  if r_ok r then inr (r_body r)
  else
    let parsed := match res_json (r_body r) with Ok v => v | _ => VUndef end in
    if truthy (member "message" parsed) || truthy (member "code" parsed) then inl (HObject parsed)
    else
      detail ← (if truthy parsed then t ← text_of parsed; inr (dash ++ t) else inr []);
      fail (js "minipg/neon-http: HTTP " ++ show_Z (r_status r) ++ [32] ++ r_statusText r ++ detail).
Definition mode_of (mode : option ResultMode) (shape : Shape) : ResultMode :=
  match mode with Some m => m | None => match shape with Some _ => RObject | None => RArray end end.
Definition query_answer (mode : option ResultMode) (shape : Shape) (r : Response) : out NeonResult :=
  b ← post r; decodeSingleRaw b (mode_of mode shape) shape.
(** A result past the last query has none to name its mode. *)
Definition transaction_answer (qs : list NeonTxQuery) (r : Response) : out (list NeonResult) :=
  b ← post r;
  v ← of_res (res_json b);
  results ← typed (results_of v);
  mapO (fun ir => match qs !! (ir : nat * ParsedResult).1 with
                  | Some q => decodeParsed ir.2 (mode_of (t_mode q) (t_shape q)) (t_shape q)
                  | None => inl (HThrown (TypeError (js "Cannot read properties of undefined (reading 'mode')")))
                  end) (imap pair results).

(** ** The client *)

(** host.replace(/^[^.]+\./, label) *)
Definition relabel (label host : jstr) : jstr :=
  match span (fun c => negb (c =? 46)) host with
  | ([], _) => host
  | (_, 46 :: t) => label ++ t
  | _ => host
  end.
Definition defaultEndpoint (host : jstr) (jwt : bool) : jstr :=
  js "https://" ++ relabel (if jwt then js "apiauth." else js "api.") host ++ js "/sql".
Record Target := mkTarget { g_user : option jstr; g_password : option jstr; g_host : option jstr; g_port : option Z; g_database : option jstr }.
Definition buildConnString (r : Target) : res jstr :=
  u ← encodeURIComponent (default (js "postgres") (g_user r));
  p ← (match g_password r with
       | None | Some [] => Ok []
       | Some w => e ← encodeURIComponent w; Ok (58 :: e)
       end);
  d ← encodeURIComponent (default (default (js "postgres") (g_user r)) (g_database r));
  let port := match g_port r with Some n => if n =? 0 then [] else 58 :: show_Z n | None => [] end in
  Ok (js "postgresql://" ++ u ++ p ++ [64] ++ default (js "undefined") (g_host r) ++ port ++ [47] ++ d).

(** The fields of a configuration that are read, of the types they are declared with. *)
Definition str_own (k : string) (o : obj) : option (option jstr) :=
  match own k o with VStr s => Some (Some s) | VUndef | VNull => Some None | _ => None end.
Definition target_of (o : obj) : option Target :=
  user ← str_own "user" o; password ← str_own "password" o; host ← str_own "host" o; database ← str_own "database" o;
  port ← match own "port" o with VUndef | VNull => Some None | VNum x => Some <$> int_of x | _ => None end;
  Some (mkTarget user password host port database).
Inductive Endpoint := EDefault | EFixed (url : jstr) | EBuilt (build : jstr -> Z -> jstr).
(** The connection string and the endpoint of a client; [pghost] is process.env.PGHOST. *)
Definition connect (URL : jstr -> option Url) (config : obj) (pghost : option jstr) (jwt : bool) (fetchEndpoint : Endpoint) : out (jstr * jstr) :=
  r ← of_res (resolveUrl URL config);
  t ← typed (target_of r);
  match given (match g_host t with Some h => Some h | None => pghost end) with
  | None => fail (js "minipg/neon-http: no host" ++ dash ++ js "pass a Neon connection string (url) or { host }")
  | Some host =>
    s ← match own "url" config with VStr s => inr s | _ => of_res (buildConnString t) end;
    inr (s, match fetchEndpoint with
            | EDefault => defaultEndpoint host jwt
            | EFixed url => url
            | EBuilt f => f host (default 5432 (g_port t))
            end)
  end.
End Neon.
