(* ===== verification/UrlProofs.v ===== *)
(** * What a connection string carries

    The percent codec keeps every text, so the parts that a connection string is built from come back from
    it; explicit settings win over it; and a relaxed configuration asks for no channel binding. *)

From S2P Require Import Prelude Utf8 Text Buf Num Dates Value NumText Faults Json JsonBig JsonSpec Protocol Errors Encode Decode Spec Plans Rest Url NeonHttp.

(** ** The percent codec *)

Definition uri_safe (c : Z) : bool := unreserved c || (c =? 37).
Lemma hex_digit_upper d : 0 <= d < 16 -> hex_val (hex_upper d) = Some d.
Proof.
  intros Hd. assert (Forall (fun d => hex_val (hex_upper d) = Some d) (seqZ 0 16)) as F by (vm_compute; repeat constructor).
  rewrite Forall_forall in F. apply F. apply elem_of_seqZ. lia.
Qed.
Lemma hex_parts b : 0 <= b < 256 -> 0 <= b / 16 < 16 /\ 0 <= b mod 16 < 16.
Proof. intros Hb. split; [split; [by apply Z.div_pos; lia|apply Z.div_lt_upper_bound; lia]|apply Z.mod_pos_bound; lia]. Qed.
Lemma pct_byte_pct b r : 0 <= b < 256 -> pct_byte (pct b ++ r) = Some (b, r).
Proof.
  intros Hb. unfold pct, pct_byte. cbn [app]. destruct (hex_parts b Hb) as [H1 H2]. rewrite !hex_digit_upper by done.
  by rewrite Z.mul_comm, <- Z.div_mod by lia.
Qed.
Lemma pct_tail_pcts bs r : Forall (fun b => cont b = true) bs -> pct_tail (length bs) (pcts bs ++ r) = Some (bs, r).
Proof.
  induction 1 as [|b bs Hb _ IH]; [done|]. cbn [length pct_tail]. unfold pcts in *. rewrite fmap_cons, concat_cons, <- app_assoc.
  rewrite pct_byte_pct by (unfold cont in Hb; lia). cbn [mbind option_bind]. by rewrite Hb, IH.
Qed.
Lemma hex_upper_safe d : 0 <= d < 16 -> uri_safe (hex_upper d) = true.
Proof.
  intros Hd. assert (Forall (fun d => uri_safe (hex_upper d) = true) (seqZ 0 16)) as F by (vm_compute; repeat constructor).
  rewrite Forall_forall in F. apply F. apply elem_of_seqZ. lia.
Qed.
Lemma pcts_safe bs : bytes_ok bs -> Forall (fun c => uri_safe c = true) (pcts bs).
Proof.
  induction 1 as [|b bs Hb _ IH]; [done|]. unfold pcts in *. rewrite fmap_cons, concat_cons. apply Forall_app. split; [|done].
  unfold byte_ok in Hb. destruct (hex_parts b ltac:(lia)) as [H1 H2]. unfold pct. apply Forall_cons_2; [done|].
  apply Forall_cons_2; [by apply hex_upper_safe|]. apply Forall_cons_2; [by apply hex_upper_safe|done].
Qed.

(** The bytes of one character after its first are continuations, as many as the first announces. *)
Definition multi (bs : bytes) (cs : jstr) : Prop :=
  exists b t, bs = b :: t /\ 128 <= b < 256 /\ lead b = S (length t) /\ Forall (fun b => cont b = true) t /\ one_char bs = Some cs.
Lemma lead_2 b : 192 <= b <= 223 -> lead b = 2%nat. Proof. intros. unfold lead, between. repeat zif. done. Qed.
Lemma lead_3 b : 224 <= b <= 239 -> lead b = 3%nat. Proof. intros. unfold lead, between. repeat zif. done. Qed.
Lemma lead_4 b : 240 <= b <= 247 -> lead b = 4%nat. Proof. intros. unfold lead, between. repeat zif. done. Qed.
Lemma cont_mod c : cont (128 + c mod 64) = true.
Proof. unfold cont. pose proof (Z.mod_pos_bound c 64). lia. Qed.
Lemma multi_enc1 c : 128 <= c < 65536 -> is_hi c = false -> is_lo c = false -> multi (enc1 c) [c].
Proof.
  intros Hc Hh Hl. assert (one_char (enc1 c) = Some [c]) as E1.
  { unfold one_char. rewrite <- (app_nil_r (enc1 c)), utf8_decode_enc1 by (done || lia). cbn [utf8_decode utf8]. rewrite Hh, Hl. by rewrite app_nil_r, bool_decide_true. }
  revert E1. unfold enc1. destruct (Z.ltb_spec c 128); [lia|]. destruct (Z.ltb_spec c 2048) as [H2|H2]; intros E1; eexists _, _; (split; [reflexivity|]).
  - assert (2 <= c / 64 < 32) by (split; [apply Z.div_le_lower_bound|apply Z.div_lt_upper_bound]; lia). split; [lia|]. split; [by apply lead_2; lia|].
    split; [by repeat (apply Forall_cons_2; [apply cont_mod|])|done].
  - assert (0 <= c / 4096 < 16) by (split; [apply Z.div_pos|apply Z.div_lt_upper_bound]; lia). split; [lia|]. split; [by apply lead_3; lia|].
    split; [by repeat (apply Forall_cons_2; [apply cont_mod|])|done].
Qed.
Lemma multi_enc2 c d : is_hi c = true -> is_lo d = true -> multi (enc2 c d) [c; d].
Proof.
  intros Hh Hl. assert (one_char (enc2 c d) = Some [c; d]) as E1.
  { unfold one_char. rewrite <- (app_nil_r (enc2 c d)), utf8_decode_enc2 by done. cbn [utf8_decode utf8]. rewrite Hh, Hl. by rewrite app_nil_r, bool_decide_true. }
  pose proof (pair_cp_range c d Hh Hl) as Hp. revert E1. unfold enc2. cbv zeta. intros E1. eexists _, _. split; [reflexivity|].
  assert (0 <= pair_cp c d / 262144 < 5) by (split; [apply Z.div_pos|apply Z.div_lt_upper_bound]; lia). split; [lia|]. split; [by apply lead_4; lia|].
  split; [by repeat (apply Forall_cons_2; [apply cont_mod|])|done].
Qed.

Lemma decode_plain f c r : c <> 37 -> decode_uri (S f) (c :: r) = (x ← decode_uri f r; Ok (c :: x)).
Proof. intros Hc. cbn [decode_uri]. by destruct (Z.eqb_spec c 37). Qed.
Lemma pct_head b r : exists t, pct b ++ r = 37 :: t.
Proof. by eexists. Qed.
Lemma decode_byte f b r : 0 <= b < 128 -> decode_uri (S f) (pct b ++ r) = (x ← decode_uri f r; Ok (b :: x)).
Proof.
  intros Hb. pose proof (pct_byte_pct b r ltac:(lia)) as E. destruct (pct_head b r) as (t & Et). rewrite Et in *. cbn [decode_uri].
  change (37 =? 37) with true. cbv iota. rewrite E. by destruct (Z.ltb_spec b 128); [|lia].
Qed.
Lemma decode_multi f bs cs r : multi bs cs -> decode_uri (S f) (pcts bs ++ r) = (x ← decode_uri f r; Ok (cs ++ x)).
Proof.
  intros (b & t & -> & Hb & Hl & Ht & Ho). unfold pcts. rewrite fmap_cons, concat_cons, <- app_assoc. fold (pcts t).
  pose proof (pct_byte_pct b (pcts t ++ r) ltac:(lia)) as E. destruct (pct_head b (pcts t ++ r)) as (t' & Et). rewrite Et in *. cbn [decode_uri].
  change (37 =? 37) with true. cbv iota. rewrite E. destruct (Z.ltb_spec b 128); [lia|]. rewrite Hl, pct_tail_pcts by done. cbn [mbind option_bind].
  by rewrite Ho.
Qed.

Lemma unreserved_ascii c : unreserved c = true -> 0 <= c < 128.
Proof.
  unfold unreserved, is_digit, between. intros H. destruct (existsb _ _) eqn:E; [|lia]. apply existsb_exists in E as (x & Hx & <-%Z.eqb_eq).
  assert (Forall (fun c => 0 <= c < 128) (js "-_.!~*'()")) as F by (vm_compute; repeat constructor; congruence).
  rewrite Forall_forall in F. by apply F, list_elem_of_In.
Qed.
(** One piece of the encoding, and what it stands for. *)
Definition coded (p cs : jstr) : Prop :=
  Forall (fun c => uri_safe c = true) p /\ p <> [] /\ forall f r, decode_uri (S f) (p ++ r) = (x ← decode_uri f r; Ok (cs ++ x)).
Lemma coded_plain c : unreserved c = true -> coded [c] [c].
Proof.
  intros Hc. split; [apply Forall_cons_2; [unfold uri_safe; by rewrite Hc|done]|]. split; [done|]. intros f r. cbn [app]. rewrite decode_plain; [by destruct (decode_uri f r)|].
  by intros ->.
Qed.
Lemma coded_enc1 c : 0 <= c <= 65535 -> is_hi c = false -> is_lo c = false -> coded (pcts (enc1 c)) [c].
Proof.
  intros Hc Hh Hl. destruct (enc1_range c ltac:(lia)) as [Hb _]. split; [by apply pcts_safe|]. split.
  { unfold enc1. by destruct (c <? 128), (c <? 2048). }
  intros f r. destruct (Z.lt_ge_cases c 128).
  - rewrite enc1_ascii by lia. change (pcts [c]) with (pct c). by apply decode_byte; lia.
  - apply decode_multi, multi_enc1; done || lia.
Qed.
Lemma coded_enc2 c d : is_hi c = true -> is_lo d = true -> coded (pcts (enc2 c d)) [c; d].
Proof.
  intros Hh Hl. destruct (enc2_range c d Hh Hl) as [Hb _]. split; [by apply pcts_safe|]. split; [done|]. intros f r. by apply decode_multi, multi_enc2.
Qed.

Definition encodes (e s : jstr) : Prop :=
  encodeURIComponent s = Ok e /\ Forall (fun c => uri_safe c = true) e /\ forall f, (length e <= f)%nat -> decode_uri f e = Ok s.
Lemma encodes_piece p cs e t : coded p cs -> encodeURIComponent (cs ++ t) = (r ← encodeURIComponent t; Ok (p ++ r)) -> encodes e t -> encodes (p ++ e) (cs ++ t).
Proof.
  intros (Hp & Hne & Hd) E (Et & He & Hf). split; [by rewrite E, Et|]. split; [by apply Forall_app|]. intros f Hl. rewrite length_app in Hl.
  assert (1 <= length p)%nat by (destruct p; [done|simpl; lia]). destruct f as [|f]; [lia|]. rewrite Hd, Hf by lia. done.
Qed.
Lemma encode_ok s : usv s = true -> exists e, encodes e s.
Proof.
  induction s as [|c t IH IH2] using jstr_pair_ind; [exists []; split; [done|]; split; [done|]; by intros []|]. intros Hu.
  destruct (usv_cases _ _ Hu) as [(Hh & Hl & Hc & Ht & _)|(d & t' & -> & Hh & Hl & Ht & _)].
  - destruct (IH Ht) as (e & He). destruct (unreserved c) eqn:Er.
    + exists ([c] ++ e). apply (encodes_piece [c] [c]); [by apply coded_plain| |done]. cbn [app encodeURIComponent]. by rewrite Er.
    + exists (pcts (enc1 c) ++ e). apply (encodes_piece _ [c]); [by apply coded_enc1| |done]. cbn [app encodeURIComponent]. by rewrite Er, Hh, Hl.
  - destruct (IH2 d t' eq_refl Ht) as (e & He). exists (pcts (enc2 c d) ++ e). apply (encodes_piece _ [c; d]); [by apply coded_enc2| |done].
    cbn [app encodeURIComponent]. assert (unreserved c = false) as ->.
    { destruct (unreserved c) eqn:Eu; [|done]. apply unreserved_ascii in Eu. unfold is_hi in Hh. lia. }
    by rewrite Hh, Hl.
Qed.
Lemma decode_encodes e s : encodes e s -> decodeURIComponent e = Ok s.
Proof. intros (_ & _ & Hf). by apply Hf. Qed.

(** ** What a connection string is built from *)

(** Host names that the parser takes as they are. *)
Definition host_char (c : Z) : bool := is_digit c || between 97 122 c || (c =? 45) || (c =? 46).
Definition safe (s : jstr) : Prop := Forall (fun c => uri_safe c = true) s.
Definition host_ok (h : jstr) : Prop := h <> [] /\ Forall (fun c => host_char c = true) h.
Definition tail_of (c : Z) (s : jstr) : jstr := match s with [] => [] | _ => c :: s end.
Definition port_digits (n : Z) : jstr := if n =? 0 then [] else show_Z n.
Definition no_dots (d : jstr) : Prop := d <> [46] /\ d <> [46; 46].
Definition pg_url (u p h port d : jstr) : jstr := js "postgresql://" ++ u ++ tail_of 58 p ++ [64] ++ h ++ tail_of 58 port ++ [47] ++ d.
(** What the platform's parser makes of a string of such parts (the URL standard, for a scheme it has no
    special rules for): it splits it, and keeps the escapes. *)
Definition splits (URL : jstr -> option Url) : Prop := forall u p h n d,
  u <> [] -> safe u -> safe p -> host_ok h -> 0 <= n <= 65535 -> safe d -> no_dots d ->
  URL (pg_url u p h (port_digits n) d) = Some (mkUrl (js "postgresql:") u p h (port_digits n) (47 :: d) []).

Definition user_of (t : Target) : jstr := default (js "postgres") (g_user t).
Definition password_of (t : Target) : jstr := default [] (g_password t).
Definition port_of (t : Target) : Z := default 0 (g_port t).
Definition database_of (t : Target) : jstr := default (user_of t) (g_database t).
Definition str_prop (k : string) (s : jstr) : obj := match s with [] => [] | _ => [(js k, VStr s)] end.
Definition target_obj (t : Target) : obj :=
  str_prop "user" (user_of t) ++ str_prop "password" (password_of t) ++ str_prop "host" (default [] (g_host t))
  ++ (if port_of t =? 0 then [] else [(js "port", VNum (of_Z (port_of t)))]) ++ str_prop "database" (database_of t).

Lemma encodes_nil e s : encodes e s -> e = [] -> s = [].
Proof. intros (_ & _ & Hf) ->. specialize (Hf 0%nat (le_n _)). cbn in Hf. congruence. Qed.
Lemma encodes_dots e s : encodes e s -> no_dots s -> no_dots e.
Proof. intros He [H1 H2]. split; intros ->; apply decode_encodes in He; vm_compute in He; congruence. Qed.
Lemma if_given_part (what k : string) url e s : encodes e s -> if_given (Some e) (fun x => y ← decodePart x what url; Ok [(js k, VStr y)]) = Ok (str_prop k s).
Proof.
  intros He. unfold if_given, given. destruct e as [|c e].
  - by rewrite (encodes_nil _ _ He eq_refl).
  - unfold decodePart. rewrite (decode_encodes _ _ He). cbn [mbind res_bind]. unfold str_prop. destruct s; [|done].
    destruct He as (E & _). done.
Qed.
Lemma host_plain h : host_ok h -> strip_brackets h = h.
Proof.
  intros [_ Hh]. unfold strip_brackets. assert (match h with 91 :: t => t | _ => h end = h) as ->.
  { destruct Hh as [|c h Hc _]; [done|]. destruct c as [|p|p]; try done. repeat (destruct p as [p|p|]; try done). }
  destruct (rev h) as [|c t] eqn:E; [done|]. assert (host_char c = true) as Hc.
  { rewrite Forall_forall in Hh. apply Hh. apply list_elem_of_In, in_rev. rewrite E. by left. }
  destruct c as [|p|p]; try done. repeat (destruct p as [p|p|]; try done).
Qed.
Lemma host_part h : host_ok h -> if_given (Some h) (fun h => Ok [(js "host", VStr (strip_brackets h))]) = Ok (str_prop "host" h).
Proof. intros Hh. pose proof (host_plain h Hh) as E. destruct Hh as [Hne _]. unfold if_given, given. destruct h; [done|]. by rewrite E. Qed.
Lemma skip_spaces_none s : Forall (fun c => StrWhiteSpace c = false) s -> skip_spaces s = s.
Proof. destruct 1 as [|c s Hc _]; [done|]. cbn [skip_spaces]. by rewrite Hc. Qed.
Lemma trim_none s : Forall (fun c => StrWhiteSpace c = false) s -> trim s = s.
Proof. intros H. unfold trim. rewrite (skip_spaces_none s H), skip_spaces_none by (by apply Forall_rev). apply rev_involutive. Qed.
Lemma ToNumber_show n : 0 < n -> ToNumber (show_Z n) = of_Z n.
Proof.
  intros Hn. unfold show_Z. destruct (Z.ltb_spec n 0); [lia|]. destruct (digits_spec n ltac:(lia)) as (Hv & Hd & Hne & H0).
  unfold ToNumber. rewrite trim_none.
  2:{ eapply Forall_impl; [exact Hd|]. intros c Hc. cbv beta in Hc. assert (Forall (fun c => StrWhiteSpace c = false) (seqZ 48 10)) as F by (vm_compute; repeat constructor).
      rewrite Forall_forall in F. apply F, elem_of_seqZ. lia. }
  pose proof (Number_dec (mkDec false (digits n) None None)) as E. unfold dec_ok, dec_text, body_text, dec_num, frac, exp_val in E.
  cbn [dneg ip fp ex exp_text default app] in E. rewrite !app_nil_r in E. rewrite Hv in E. change (0 - blen []) with 0 in E.
  assert (Number (digits n) = of_Z n) as En.
  { rewrite E by done. unfold scaled, of_Z. change (0 <=? 0) with true. cbv iota. destruct (Z.ltb_spec n 0); [lia|]. rewrite Z.abs_eq by lia. f_equal. lia. }
  destruct (digits n) as [|c t]; [done|]. cbn [hd] in H0. destruct (Z.eq_dec c 48) as [->|Hc]; [specialize (H0 eq_refl); lia|].
  rewrite <- En. destruct c as [|p|p]; try done. repeat (destruct p as [p|p|]; try done).
Qed.
Lemma port_part n : 0 <= n -> if_given (Some (port_digits n)) (fun p => Ok [(js "port", VNum (ToNumber p))]) = Ok (if n =? 0 then [] else [(js "port", VNum (of_Z n))]).
Proof.
  intros Hn. unfold port_digits. destruct (Z.eqb_spec n 0); [done|]. unfold if_given, given.
  destruct (digits_spec n Hn) as (_ & _ & Hne & _). assert (show_Z n = digits n) as Es by (unfold show_Z; destruct (Z.ltb_spec n 0); [lia|done]).
  rewrite <- (ToNumber_show n) by lia. destruct (show_Z n); [congruence|done].
Qed.

Section Built.
Context (URL : jstr -> option Url).

(** C19: A connection string that is built from a user, password, host, port and database gives them back,
    whatever characters the user, the password and the database are made of. *)
Theorem connString_roundtrip t host :
  splits URL -> usv (user_of t) = true -> usv (password_of t) = true -> usv (database_of t) = true ->
  user_of t <> [] -> g_host t = Some host -> host_ok host -> 0 <= port_of t <= 65535 -> no_dots (database_of t) ->
  exists s, buildConnString t = Ok s /\ parseConnectionString URL s = Ok (target_obj t).
Proof.
  intros HU Hu Hp Hd Hne Eh Hh Hn Hdots. destruct (encode_ok _ Hu) as (u & Eu), (encode_ok _ Hp) as (p & Ep), (encode_ok _ Hd) as (d & Ed).
  exists (pg_url u p host (port_digits (port_of t)) d). split.
  - unfold buildConnString. fold (user_of t). rewrite (proj1 Eu). cbn [mbind res_bind]. fold (database_of t). rewrite (proj1 Ed).
    assert ((match g_password t with None | Some [] => Ok [] | Some w => e ← encodeURIComponent w; Ok (58 :: e) end : res jstr) = Ok (tail_of 58 p)) as ->.
    { unfold password_of in Ep. destruct (g_password t) as [[|c w]|]; unfold default, id in Ep.
      - destruct Ep as ([= <-] & _). done.
      - rewrite (proj1 Ep). cbn [mbind res_bind]. destruct p; [by pose proof (encodes_nil _ _ Ep eq_refl)|done].
      - destruct Ep as ([= <-] & _). done. }
    cbn [mbind res_bind]. unfold pg_url. rewrite Eh. unfold default at 1, id. do 6 f_equal. unfold port_digits, port_of in *. destruct (g_port t) as [n|]; [|done].
    unfold default, id in *. destruct (Z.eqb_spec n 0); [done|]. destruct (digits_spec n) as (_ & _ & Hnd & _); [lia|].
    destruct (show_Z n) eqn:E; [|done]. unfold show_Z in E. by destruct (n <? 0).
  - unfold parseConnectionString. rewrite HU; [|by intros ->; pose proof (encodes_nil _ _ Eu eq_refl)|apply Eu|apply Ep|done|done|apply Ed|by eapply encodes_dots].
    cbn [u_protocol u_username u_password u_hostname u_port u_pathname u_params strip_slash].
    rewrite (if_given_part "username" "user" _ u (user_of t) Eu), (if_given_part "password" "password" _ p (password_of t) Ep),
      (if_given_part "database" "database" _ d (database_of t) Ed), port_part by lia.
    unfold param. cbn [u_params List.find]. cbn [fmap option_fmap option_map].
    rewrite (host_part _ Hh). unfold target_obj. rewrite Eh. cbn. by rewrite app_nil_r.
Qed.
End Built.

(** A parser that splits. *)
Definition cut (c : Z) (s : jstr) : jstr * jstr := let '(a, b) := span (fun d => negb (d =? c)) s in (a, tl b).
Definition split_url (s : jstr) : option Url :=
  if prefix_of (js "postgresql://") s then
    let '(info, r) := cut 64 (drop 13 s) in
    let '(authority, path) := span (fun d => negb (d =? 47)) r in
    let '(u, p) := cut 58 info in
    let '(h, n) := cut 58 authority in
    Some (mkUrl (js "postgresql:") u p h n path [])
  else None.
Definition lacks (c : Z) (s : jstr) : Prop := Forall (fun d => negb (d =? c) = true) s.
Lemma span_lacks c a t : lacks c a -> span (fun d => negb (d =? c)) (a ++ c :: t) = (a, c :: t).
Proof. induction 1 as [|d a Hd _ IH]; [cbn; by rewrite Z.eqb_refl|]. cbn [app span]. by rewrite Hd, IH. Qed.
Lemma cut_tail c a b : lacks c a -> cut c (a ++ tail_of c b) = (a, b).
Proof.
  intros Ha. unfold cut. destruct b as [|x b].
  - cbn [tail_of]. rewrite app_nil_r. assert (span (fun d => negb (d =? c)) a = (a, [])) as ->; [|done].
    induction Ha as [|d a Hd _ IH]; [done|]. cbn [span]. by rewrite Hd, IH.
  - cbn [tail_of]. by rewrite span_lacks.
Qed.
Lemma lacks_impl (P : Z -> bool) c s : P c = false -> Forall (fun d => P d = true) s -> lacks c s.
Proof. intros Hc Hs. eapply Forall_impl; [exact Hs|]. intros d Hd. cbv beta in Hd. destruct (Z.eqb_spec d c) as [->|]; [congruence|done]. Qed.
Lemma lacks_tail c d s : c <> d -> lacks c s -> lacks c (tail_of d s).
Proof. intros Hd Hs. destruct s; [done|]. apply Forall_cons_2; [by destruct (Z.eqb_spec d c)|done]. Qed.
Lemma split_url_splits : splits split_url.
Proof.
  intros u p h n d _ Hu Hp [_ Hh] Hn Hd _. unfold split_url, pg_url. cbn [app]. change (prefix_of (js "postgresql://") _) with true. cbv iota.
  assert (lacks 64 (u ++ tail_of 58 p) /\ lacks 58 u) as [H1 H2].
  { split; [apply Forall_app; split; [|apply lacks_tail; [done|]]|]; by eapply (lacks_impl uri_safe). }
  assert (Forall (fun c => host_char c = true) (port_digits n)) as Hpd.
  { unfold port_digits. destruct (n =? 0); [done|]. unfold show_Z. destruct (Z.ltb_spec n 0); [lia|]. destruct (digits_spec n ltac:(lia)) as (_ & F & _).
    eapply Forall_impl; [exact F|]. intros c Hc. cbv beta in Hc. unfold host_char, is_digit. destruct (Z.leb_spec 48 c), (Z.leb_spec c 57); lia || done. }
  assert (lacks 47 (h ++ tail_of 58 (port_digits n)) /\ lacks 58 h) as [H3 H4].
  { split; [apply Forall_app; split; [|apply lacks_tail; [done|]]|]; by eapply (lacks_impl host_char). }
  set (r := h ++ tail_of 58 (port_digits n) ++ 47 :: d).
  change (drop 13 (js "postgresql://" ++ u ++ tail_of 58 p ++ 64 :: r)) with (u ++ tail_of 58 p ++ 64 :: r).
  rewrite app_assoc. unfold cut at 1. rewrite span_lacks by done. cbn [tl]. unfold r. rewrite app_assoc, span_lacks by done.
  by rewrite !cut_tail.
Qed.

Definition demo_target : Target :=
  mkTarget (Some (js "al:ice")) (Some (js "p@s/w %" ++ [8364])) (Some (js "db.example.com")) (Some 6543) (Some (js "x y")).
Lemma connString_roundtrip_witness : exists s, buildConnString demo_target = Ok s /\ parseConnectionString split_url s = Ok (target_obj demo_target).
Proof.
  apply (connString_roundtrip split_url demo_target (js "db.example.com")).
  - apply split_url_splits.
  - reflexivity.
  - reflexivity.
  - reflexivity.
  - discriminate.
  - reflexivity.
  - split; [discriminate|]. apply Forall_forall. intros c Hc. apply list_elem_of_In in Hc.
    revert c Hc. apply (proj1 (forallb_forall host_char (js "db.example.com"))). reflexivity.
  - vm_compute. split; discriminate.
  - split; discriminate.
Defined.

(** ** Explicit settings *)

Lemma get_key_None k (l : obj) : k ∉ l.*1 -> get_key k l = None.
Proof.
  intros Hk. unfold get_key. induction l as [|[k' v] l IH]; [done|]. rewrite fmap_cons, not_elem_of_cons in Hk. destruct Hk as [Hne Hk].
  cbn [List.find fst]. rewrite bool_decide_false by (by intros ->). by apply IH.
Qed.
Lemma get_put_all k (l o : obj) : NoDup l.*1 -> get_key k (put_all o l) = match get_key k l with Some v => Some v | None => get_key k o end.
Proof.
  revert o. induction l as [|[k' v] l IH]; intros o Hl; [done|]. rewrite fmap_cons in Hl. apply NoDup_cons in Hl as [Hk Hl].
  unfold put_all in *. cbn [foldl fst snd]. rewrite IH by done. destruct (decide (k' = k)) as [->|Hne].
  - rewrite (get_key_None k l Hk), get_set_same. unfold get_key. cbn [List.find fst]. by rewrite bool_decide_true.
  - rewrite get_set_other by congruence. unfold get_key at 3. cbn [List.find fst]. by rewrite bool_decide_false.
Qed.
Lemma filter_keys (P : jstr * value -> bool) (l : obj) : NoDup l.*1 -> NoDup (List.filter P l).*1.
Proof.
  induction l as [|kv l IH]; intros Hl; [done|]. rewrite fmap_cons in Hl. apply NoDup_cons in Hl as [Hk Hl]. cbn [List.filter].
  destruct (P kv); [|by apply IH]. rewrite fmap_cons. apply NoDup_cons. split; [|by apply IH].
  intros (x & E & Hx)%list_elem_of_fmap. apply Hk. apply list_elem_of_fmap. exists x. split; [done|].
  apply list_elem_of_In, filter_In in Hx as [Hx _]. by apply list_elem_of_In.
Qed.
Lemma get_filter k (P : jstr * value -> bool) (l : obj) : NoDup l.*1 ->
  get_key k (List.filter P l) = match get_key k l with Some v => if P (k, v) then Some v else None | None => None end.
Proof.
  induction l as [|[k' v] l IH]; intros Hl; [done|]. rewrite fmap_cons in Hl. apply NoDup_cons in Hl as [Hk Hl]. cbn [List.filter].
  destruct (decide (k' = k)) as [->|Hne].
  - unfold get_key at 2. cbn [List.find fst]. rewrite bool_decide_true by done. cbn [fmap option_fmap option_map snd].
    destruct (P (k, v)); [unfold get_key; cbn [List.find fst]; by rewrite bool_decide_true|]. rewrite IH, (get_key_None k l) by done. done.
  - unfold get_key at 2. cbn [List.find fst]. rewrite bool_decide_false by done. specialize (IH Hl). unfold get_key in IH |- * at 1.
    destruct (P (k', v)); [|exact IH]. cbn [List.find fst]. by rewrite bool_decide_false.
Qed.

Section Explicit.
Context (URL : jstr -> option Url).
(** What a setting is once the connection string is read. *)
Definition setting (k : string) (config o : obj) : value := match own k config with VUndef => own k o | v => v end.
Lemma own_explicit k config o : NoDup config.*1 -> js k <> js "url" -> own k (put_all o (explicit config)) = setting k config o.
Proof.
  intros Hn Hk. unfold own, setting, explicit. rewrite get_put_all by (by apply filter_keys). rewrite get_filter by done. unfold own.
  destruct (get_key (js k) config) as [v|]; [|done]. cbn [fst snd default]. rewrite bool_decide_false by done. cbn [negb andb]. unfold defined. cbn [snd]. by destruct v.
Qed.
Lemma own_set_same k v o : own k (set_key (js k) v o) = v.
Proof. unfold own. by rewrite get_set_same. Qed.
Lemma own_set_other k k' v o : js k <> js k' -> own k (set_key (js k') v o) = own k o.
Proof. intros Hk. unfold own. by rewrite get_set_other. Qed.
Lemma set_key_keys k v (o : obj) : (set_key k v o).*1 = if bool_decide (k ∈ o.*1) then o.*1 else o.*1 ++ [k].
Proof.
  induction o as [|[k1 v1] o IH]; [done|]. cbn [set_key]. rewrite !fmap_cons. cbn [fst]. destruct (bool_decide_reflect (k1 = k)) as [->|Hn].
  - rewrite bool_decide_true by (by left). done.
  - rewrite fmap_cons, IH. cbn [fst]. destruct (decide (k ∈ o.*1)) as [Hk|Hk].
    + rewrite !bool_decide_true by (done || by right). done.
    + rewrite !bool_decide_false; [done|rewrite elem_of_cons; by intros [<-|?]|done].
Qed.
Lemma set_key_NoDup k v (o : obj) : NoDup o.*1 -> NoDup (set_key k v o).*1.
Proof.
  intros Ho. rewrite set_key_keys. destruct (bool_decide_reflect (k ∈ o.*1)) as [|Hk]; [done|]. apply NoDup_app. split; [done|].
  split; [|apply NoDup_singleton]. intros x Hx ->%list_elem_of_singleton. done.
Qed.

Lemma resolve_url config url : url_of config = Some url -> resolveUrl URL config = (o ← parseConnectionString URL url; Ok (put_all o (explicit config))).
Proof. intros E. unfold resolveUrl. by rewrite E. Qed.
Lemma url_of_set v config : url_of (set_key (js "channelBinding") v config) = url_of config.
Proof. unfold url_of. by rewrite own_set_other. Qed.

(** A relaxed configuration never asks for channel binding, by itself or in its connection string, and is
    the same configuration in every other setting. *)
Theorem relaxed_never_requires config config' r :
  NoDup config.*1 -> relaxChannelBinding URL config = Ok config' -> resolveUrl URL config = Ok r ->
  exists r', resolveUrl URL config' = Ok r' /\ own "channelBinding" r' <> VStr (js "require") /\
    forall k, js k <> js "channelBinding" -> js k <> js "url" -> own k r' = own k r.
Proof.
  intros Hn Hx Hr. unfold relaxChannelBinding in Hx. apply bind_res_Ok_inv in Hx as (cb & Ecb & [= <-]). unfold effectiveChannelBinding in Ecb.
  assert (js "channelBinding" <> js "url") as Hcu by done.
  destruct (require_cb cb) eqn:Eq.
  - pose proof (set_key_NoDup (js "channelBinding") (VStr (js "prefer")) config Hn) as Hn'. unfold resolveUrl in *. rewrite url_of_set.
    destruct (url_of config) as [url|].
    + apply bind_res_Ok_inv in Hr as (o & Eo & [= <-]). rewrite Eo. eexists. split; [reflexivity|]. split.
      * rewrite own_explicit by done. unfold setting. by rewrite own_set_same.
      * intros k Hk Hku. rewrite !own_explicit by done. unfold setting. by rewrite own_set_other.
    + injection Hr as <-. eexists. split; [reflexivity|]. split; [by rewrite own_set_same|]. intros k Hk _. by rewrite own_set_other.
  - exists r. split; [done|]. split; [|done]. intros E. assert (require_cb (VStr (js "require")) = true) as Hreq by done.
    unfold resolveUrl in Hr. destruct (url_of config) as [url|].
    + apply bind_res_Ok_inv in Hr as (o & Eo & [= <-]). rewrite own_explicit in E by done. unfold setting in E.
      destruct (own "channelBinding" config); cbn [nullish] in Ecb; try (injection Ecb as <-; congruence); try done.
      rewrite Eo in Ecb. injection Ecb as <-. by rewrite E in Eq.
    + injection Hr as <-. destruct (own "channelBinding" config); cbn [nullish] in Ecb; try done; injection Ecb as <-; congruence.
Qed.
End Explicit.

Lemma relaxed_never_requires_witness :
  let URL := fun _ => Some (mkUrl (js "postgres:") (js "u") (js "p") (js "h") [] (js "/d") [(js "channel_binding", js "require")]) in
  exists r', resolveUrl URL [(js "url", VStr (js "x")); (js "channelBinding", VStr (js "prefer"))] = Ok r' /\ own "channelBinding" r' <> VStr (js "require").
Proof.
  intros URL. destruct (relaxed_never_requires URL [(js "url", VStr (js "x"))] [(js "url", VStr (js "x")); (js "channelBinding", VStr (js "prefer"))]
    [(js "user", VStr (js "u")); (js "password", VStr (js "p")); (js "host", VStr (js "h")); (js "database", VStr (js "d")); (js "channelBinding", VStr (js "require"))])
    as (r' & E & H & _).
  - apply NoDup_singleton.
  - vm_compute. reflexivity.
  - vm_compute. reflexivity.
  - by exists r'.
Defined.
