(* ===== verification/NeonProofs.v ===== *)
(** * What the Neon HTTP client makes of a response

    The scratch row holds exactly the DataRow of the cells that were pushed, and the byte scan reads from a
    response the rows that JSON.parse reads, whatever the strings, escapes and white space. *)

From S2P Require Import Prelude Utf8 Text Buf Num Dates Value NumText Faults Json JsonBig JsonBuffer ExtTypes JsonSpec Protocol Messages Parse Errors Encode Decode Mapper Spec Plans Rest Url NeonHttp.

(** ** The scratch row *)

Section Row.
Context `{Alloc}.

(** The scratch holds a row of these cells' bytes. *)
Definition holds (rb : RowBuf) (w : bytes) : Prop :=
  exists h, length h = 2%nat /\ rb_pos rb = 2 + blen w /\ exists t, rb_buf rb = (h ++ w) ++ t.

Lemma holds_pos rb w : holds rb w -> 2 <= rb_pos rb <= blen (rb_buf rb).
Proof.
  intros (h & Hh & -> & t & ->). pose proof (blen_nonneg w). pose proof (blen_nonneg t). rewrite !blen_app.
  assert (blen h = 2) by (unfold blen; lia). lia.
Qed.
Lemma holds_prefix rb : (2 <= length (rb_buf rb))%nat -> holds (reset rb) [].
Proof.
  intros Hl. exists (take 2 (rb_buf rb)). split; [rewrite length_take; lia|]. split; [done|]. exists (drop 2 (rb_buf rb)). rewrite app_nil_r. by rewrite take_drop.
Qed.
Lemma holds_new : holds (reset new_rowbuf) [].
Proof. apply holds_prefix. cbn [rb_buf new_rowbuf]. rewrite length_allocUnsafe. lia. Qed.
Lemma holds_reset rb w : holds rb w -> holds (reset rb) [].
Proof. intros Hh%holds_pos. apply holds_prefix. unfold blen in Hh. lia. Qed.

Lemma ensure_holds n rb w : holds rb w -> 0 <= n -> holds (ensure n rb) w /\ rb_pos rb + n <= blen (rb_buf (ensure n rb)).
Proof.
  intros Hh Hn. pose proof (holds_pos _ _ Hh) as Hp. unfold ensure. destruct (Z.ltb_spec (blen (rb_buf rb)) (rb_pos rb + n)) as [Hlt|]; [|done].
  set (m := Z.max _ _). cbn [rb_buf rb_pos]. pose proof (length_allocUnsafe (Z.to_nat m)) as La.
  assert (list_inserts 0 (rb_buf rb) (allocUnsafe (Z.to_nat m)) = rb_buf rb ++ drop (length (rb_buf rb)) (allocUnsafe (Z.to_nat m))) as Ei.
  { rewrite inserts_app by (rewrite La; unfold blen in *; lia). done. }
  split.
  - destruct Hh as (h & Hl & Hw & t & E). exists h. split; [done|]. split; [done|]. cbn [rb_buf]. rewrite Ei, E. eexists. by rewrite <- app_assoc.
  - rewrite Ei, blen_app. unfold blen at 2. rewrite length_drop, La. unfold blen in *. lia.
Qed.
Lemma put_holds bs n rb w : holds rb w -> n = blen bs -> rb_pos rb + n <= blen (rb_buf rb) ->
  holds (put bs n rb) (w ++ bs) /\ rb_pos (put bs n rb) = rb_pos rb + n /\ blen (rb_buf (put bs n rb)) = blen (rb_buf rb).
Proof.
  intros (h & Hh & Hp & t & E) -> Hl. unfold put. cbn [rb_pos rb_buf]. rewrite Hp in *. rewrite E in *.
  assert (Z.to_nat (2 + blen w) = length (h ++ w)) as Ep by (rewrite length_app; unfold blen; lia).
  assert (length bs <= length t)%nat as Hbt by (rewrite !blen_app in Hl; unfold blen in *; rewrite Hh in Hl; lia).
  rewrite Ep, inserts_app by (rewrite !length_app; lia). rewrite take_app_length.
  split; [|split; [done|]].
  - exists h. split; [done|]. cbn [rb_pos]. split; [rewrite blen_app; lia|]. eexists. rewrite <- !app_assoc. reflexivity.
  - unfold blen. rewrite !length_app, length_drop, !length_app. lia.
Qed.
Lemma pushNull_holds rb w : holds rb w -> holds (pushNull rb) (w ++ cell_bytes None).
Proof. intros Hh. destruct (ensure_holds 4 rb w Hh ltac:(lia)) as [He Hc]. apply put_holds; [done|done|]. by unfold ensure in *; destruct (_ <? _). Qed.
Lemma ensure_pos n rb : rb_pos (ensure n rb) = rb_pos rb.
Proof. unfold ensure. by destruct (_ <? _). Qed.
Lemma pushSlice_holds src start stop x rb w : holds rb w -> 0 <= start <= stop -> stop <= blen src -> subarray src start stop = x -> blen x <= 2147483647 ->
  exists rb', pushSlice src start stop rb = Ok rb' /\ holds rb' (w ++ cell_bytes (Some x)).
Proof.
  intros Hh Hs Hstop Ex Hx. assert (blen x = stop - start) as Lx.
  { rewrite <- Ex. unfold subarray, rel_index. zif. zif. rewrite !Z.min_l by lia. unfold blen in *. rewrite length_take, length_drop. lia. }
  unfold pushSlice, int32_be, int_be, copied. zif. cbn [mbind res_bind]. zif. rewrite Z.max_r by lia. rewrite Ex. cbn [mbind res_bind].
  destruct (ensure_holds (4 + (stop - start)) rb w Hh ltac:(lia)) as [He Hc].
  destruct (put_holds (be 4 (stop - start)) 4 _ w He) as (H1 & P1 & L1); [by rewrite blen_be|rewrite ensure_pos; lia|].
  destruct (put_holds x (stop - start) _ _ H1) as (H2 & _ & _); [done|rewrite P1, L1, ensure_pos; lia|].
  eexists. split; [reflexivity|]. cbn [cell_bytes]. by rewrite Lx, app_assoc.
Qed.
Lemma pushText_holds s rb w : holds rb w -> wf_cell (utf8 <$> s) ->
  exists rb', pushText s rb = Ok rb' /\ holds rb' (w ++ cell_bytes (utf8 <$> s)).
Proof.
  intros Hh Hs. destruct s as [s|]; [|eexists; split; [done|by apply pushNull_holds]]. pose proof (blen_nonneg (utf8 s)).
  apply pushSlice_holds; [done|lia|lia| |done]. pose proof (subarray_app [] (utf8 s) []) as E. by rewrite app_nil_r in E.
Qed.
Lemma finish_holds n rb w : holds rb w -> Z.of_nat n <= 32767 ->
  exists rb', finish n rb = Ok (rb', be 2 (Z.of_nat n) ++ w) /\ holds rb' w.
Proof.
  intros (h & Hh & Hp & t & E) Hn. unfold finish, int_be. zif. cbn [mbind res_bind]. pose proof (length_be 2 (Z.of_nat n)) as L2.
  assert (list_inserts 0 (be 2 (Z.of_nat n)) (rb_buf rb) = (be 2 (Z.of_nat n) ++ w) ++ t) as ->.
  { rewrite E, inserts_app by (rewrite !length_app; lia). rewrite L2, <- app_assoc. change (0 + 2)%nat with 2%nat. replace 2%nat with (length h) at 2 by done.
    rewrite drop_app_length. by rewrite <- app_assoc. }
  eexists. split.
  - f_equal. f_equal. rewrite Hp.
    pose proof (subarray_app [] (be 2 (Z.of_nat n) ++ w) t) as S. cbn [app] in S. rewrite blen_nil, blen_app, blen_be, Z.add_0_l in S. done.
  - exists (be 2 (Z.of_nat n)). split; [done|]. split; [done|]. by exists t.
Qed.

(** The rows of a parsed result are decoded from the rows a server would have sent. *)
Definition cells_of (ncols : nat) (row : list (option jstr)) : list (option bytes) := (fun i => utf8 <$> default None (row !! i)) <$> seq 0 ncols.
Lemma cells_of_S n row : cells_of (S n) row = (utf8 <$> default None (head row)) :: cells_of n (tl row).
Proof.
  unfold cells_of. cbn [seq]. rewrite fmap_cons. f_equal; [by destruct row|]. rewrite <- seq_shift, <- list_fmap_compose. apply list_fmap_ext.
  intros i x _. cbn. destruct row; [|done]. by rewrite lookup_nil.
Qed.
Lemma push_cells_holds n row rb w : holds rb w -> Forall wf_cell (cells_of n row) ->
  exists rb', push_cells n row rb = Ok rb' /\ holds rb' (w ++ concat (cell_bytes <$> cells_of n row)).
Proof.
  revert row rb w. induction n as [|n IH]; intros row rb w Hh Hw; cbn [push_cells]; [eexists; split; [done|]; by rewrite app_nil_r|].
  rewrite cells_of_S in *. apply Forall_cons in Hw as [Hc Hw]. destruct (pushText_holds _ _ _ Hh Hc) as (rb1 & -> & H1). cbn [mbind res_bind].
  destruct (IH (tl row) rb1 _ H1 Hw) as (rb2 & E & H2). exists rb2. split; [done|]. by rewrite fmap_cons, concat_cons, app_assoc.
Qed.
Lemma length_cells_of n row : length (cells_of n row) = n.
Proof. unfold cells_of. by rewrite length_fmap, length_seq. Qed.
Lemma finish_row n cs rb : holds rb (concat (cell_bytes <$> cs)) -> length cs = n -> Z.of_nat n <= 32767 ->
  exists rb' w, finish n rb = Ok (rb', data_row cs) /\ holds rb' w.
Proof. intros Hh Hl Hn. destruct (finish_holds n rb _ Hh Hn) as (rb' & E & H'). exists rb', (concat (cell_bytes <$> cs)). unfold data_row. by rewrite Hl. Qed.
End Row.

Section Parsed.
Context `{Env} `{Alloc} (mode : ResultMode) (mapper : option (bytes -> res value)) (n : nat).
Definition wire_row (row : list (option jstr)) : res value := rowFrom mode mapper (data_row (cells_of n row)).
Lemma parsed_rows_wire rows rb w : Z.of_nat n <= 32767 -> Forall (fun row => Forall wf_cell (cells_of n row)) rows -> holds rb w ->
  parsed_rows n mode mapper rows rb = mapM wire_row rows.
Proof.
  intros Hn Hr. revert rb w. induction Hr as [|row rows Hw _ IH]; intros rb w Hh; [done|]. cbn [parsed_rows mapM].
  destruct (push_cells_holds n row (reset rb) [] (holds_reset _ _ Hh) Hw) as (rb1 & -> & H1). cbn [mbind res_bind app] in *.
  destruct (finish_row n (cells_of n row) rb1 H1 (length_cells_of _ _) Hn) as (rb2 & w2 & -> & H2). cbn [mbind res_bind].
  change (rowFrom mode mapper (data_row (cells_of n row))) with (wire_row row). destruct (wire_row row); [|done|done].
  cbn [mbind res_bind]. by rewrite (IH rb2 w2).
Qed.
End Parsed.

(** ** Positions in the response *)

(** A string's end does not depend on how \u is stepped over. *)
Lemma run_string_scan t x r : quoted t x r -> forall w e,
  run_string (utf8 t ++ w) e = ((str_scan (utf8 t ++ w) e).1 + 1, (str_scan (utf8 t ++ w) e).2).
Proof.
  assert (forall l w e, Forall (fun b => b <> 34 /\ b <> 92) l -> run_string (l ++ w) e = (blen l + (run_string w e).1, (run_string w e).2)) as Hplain.
  { intros l w e F. induction F as [|b l [H1 H2] _ IH]; [cbn [app]; rewrite blen_nil, Z.add_0_l; by destruct (run_string w e)|].
    cbn [app run_string]. destruct (Z.eqb_spec b 92); [done|]. destruct (Z.eqb_spec b 34); [done|]. rewrite IH, blen_cons. f_equal. lia. }
  induction 1 as [r Hr|a b' c d u t x r Eh _ IH|e u t x r He Es _ IH|c t x r Hc H1 H2 Hh Hl _ IH|c d t x r Hh Hl _ IH]; intros w e0.
  - by rewrite utf8_ascii_cons by lia.
  - pose proof (hex4_ascii _ _ _ _ _ Eh) as Ha. rewrite utf8_app_ascii, <- !app_assoc by (by eapply hex_piece_ascii).
    change ([92; 117] ++ [a; b'; c; d] ++ utf8 t ++ w) with (92 :: 117 :: [a; b'; c; d] ++ utf8 t ++ w).
    rewrite str_scan_esc, str_scan_plain by (eapply Forall_impl; [exact Ha|]; by intros ? [_ ?]).
    cbn [run_string app]. change (92 =? 92) with true. change (117 =? 117) with true. cbv iota. rewrite IH. cbn [fst snd].
    change (blen [a; b'; c; d]) with 4. f_equal. lia.
  - rewrite utf8_app_ascii, <- app_assoc by (by eapply esc_piece_ascii). change ([92; e] ++ utf8 t ++ w) with (92 :: e :: utf8 t ++ w).
    rewrite str_scan_esc. cbn [run_string]. change (92 =? 92) with true. cbv iota. destruct (Z.eqb_spec e 117); [done|]. rewrite IH. cbn [fst snd]. f_equal. lia.
  - rewrite utf8_one, <- app_assoc by done. rewrite Hplain, str_scan_plain by (apply enc1_plain; done || lia). rewrite IH. cbn [fst snd]. f_equal. lia.
  - rewrite utf8_two, <- app_assoc by done. rewrite Hplain, str_scan_plain by (by apply enc2_plain). rewrite IH. cbn [fst snd]. f_equal. lia.
Qed.

Section Scan.
Context (raw : bytes) (stop : Z) (post : bytes).
Abbreviation sees := (sees raw stop post).

Lemma sees_suffix p s : sees p s -> subarray raw p (blen raw) = utf8 s ++ post /\ 0 <= p <= blen raw /\ blen raw - p = blen (utf8 s) + blen post.
Proof.
  intros (_ & _ & HR). pose proof HR as (Hp & Hl & Hd). assert (p + blen (utf8 s ++ post) = blen raw) as E.
  { pose proof (f_equal blen Hd) as E. unfold blen in *. rewrite length_drop in E. lia. }
  split; [|rewrite blen_app in E; pose proof (blen_nonneg (utf8 s)); pose proof (blen_nonneg post); lia].
  rewrite <- E. rewrite <- (app_nil_r (utf8 s ++ post)) in HR. by apply rest_at_sub in HR.
Qed.
Lemma sees_skip p s c t : sees p s -> skip_ws s = c :: t -> sees (skipWs raw p) (c :: t) /\ p <= skipWs raw p.
Proof.
  intros Hs E. pose proof (sees_ws raw stop post p s Hs) as Hw. rewrite E in Hw. assert (skipWs raw p = ws raw stop p) as ->.
  { unfold skipWs, ws. f_equal. rewrite (proj1 (sees_suffix _ _ Hs)), (sees_window raw stop post p s Hs).
    destruct (skip_ws_split s) as (x & Ex & Hx & Hc). rewrite E in Ex, Hc. destruct Hs as (Hu & _).
    assert (ascii x) as Ha by (eapply Forall_impl; [exact Hx|]; intros ?; apply is_ws_ascii).
    rewrite Ex, utf8_app_ascii, <- app_assoc by done. rewrite Ex, usv_app_ascii in Hu by done. rewrite !run_app by done. f_equal.
    destruct (utf8_head _ _ Hu) as (b0 & w & -> & Hb). cbn [app].
    rewrite ?run_app by done. rewrite !run_stop; [lia|..]; (destruct Hb as [[-> _]|[Hb _]]; [done|by apply is_ws_low]). }
  split; [done|]. unfold ws. assert (forall f w, 0 <= run f w) as Hr; [|specialize (Hr is_ws (subarray raw p stop)); lia].
  clear. intros f w. induction w as [|c w IH]; cbn [run]; [done|]. destruct (f c); lia.
Qed.
Lemma sees_is_at p c s d : 0 <= d < 128 -> sees p (c :: s) -> is_at raw p d = (c =? d).
Proof. apply sees_at. Qed.

(** The scan of a string. *)
Lemma sees_string p t x r : sees p (34 :: t) -> unquote t = Ok (x, r) ->
  exists y esc, t = y ++ 34 :: r /\ scanString raw p = (p + 1 + blen (utf8 y) + 1, esc) /\ sees (p + 1 + blen (utf8 y) + 1) r
    /\ (esc = false -> x = y) /\ unquote (y ++ [34]) = Ok (x, []) /\ usv y = true.
Proof.
  intros Hs E. destruct (sees_char _ _ _ p 34 t ltac:(lia) Hs) as [_ Ht]. pose proof (unquote_quoted t x r (proj1 Ht) E) as Hq.
  pose proof (run_string_scan _ _ _ Hq) as Hrun. apply quoted_scanned in Hq as (y & esc & -> & Hy & Hr & Hscan & Hv & Hun).
  exists y, esc. split; [done|]. rewrite utf8_break_ascii in Hrun by lia. split; [|split; [|done]].
  - unfold scanString. rewrite (proj1 (sees_suffix _ _ Ht)), utf8_break_ascii, Hrun by lia. rewrite <- app_assoc. cbn [app]. rewrite Hscan. cbn [fst snd orb]. f_equal. lia.
  - destruct Ht as (_ & Hp & HR). rewrite utf8_break_ascii in Hp, HR by lia. rewrite blen_app in Hp. rewrite <- app_assoc in HR. apply rest_at_app in HR.
    apply (sees_char raw stop post _ 34 r); [lia|]. split; [|split].
    + change (34 :: r) with ([34] ++ r). by rewrite usv_app_ascii by (by constructor).
    + rewrite utf8_ascii_cons by lia. lia.
    + by rewrite utf8_ascii_cons by lia.
Qed.

(** ** The end of a bracketed value *)

Inductive parsed (f : nat) (s r : jstr) : value -> Prop :=
| pv_obj0 t : skip_ws s = 123 :: t -> skip_ws t = 125 :: r -> parsed f s r (VObj [])
| pv_obj t fs : skip_ws s = 123 :: t -> jmembers plain_num f t [] = Ok (fs, r) -> parsed f s r (VObj fs)
| pv_arr0 t : skip_ws s = 91 :: t -> skip_ws t = 93 :: r -> parsed f s r (VArr [])
| pv_arr t d t' l : skip_ws s = 91 :: t -> skip_ws t = d :: t' -> d <> 93 -> jelems plain_num f t = Ok (l, r) -> parsed f s r (VArr l)
| pv_str t x : skip_ws s = 34 :: t -> unquote t = Ok (x, r) -> parsed f s r (VStr x)
| pv_true : skip_ws s = js "true" ++ r -> parsed f s r (VBool true)
| pv_false : skip_ws s = js "false" ++ r -> parsed f s r (VBool false)
| pv_null : skip_ws s = js "null" ++ r -> parsed f s r VNull
| pv_num x : json_number (skip_ws s) = Ok (x, r) -> parsed f s r (VNum x).

Lemma word_inv w v s x r : word w v s = Ok (x, r) -> x = v /\ s = w ++ r.
Proof.
  unfold word. destruct (bool_decide_reflect (take (length w) s = w)) as [E|]; [|done]. intros [= <- <-]. split; [done|]. rewrite <- E at 1. by rewrite take_drop.
Qed.
Lemma jval_parsed f s v r : jval plain_num (S f) s = Ok (v, r) -> parsed f s r v.
Proof.
  cbn [jval]. destruct (skip_ws s) as [|c t] eqn:Es; [done|]. destruct (Z.eqb_spec c 123) as [->|].
  { destruct (skip_ws t) as [|d t'] eqn:Et; [done|]. destruct (Z.eqb_spec d 125) as [->|]; [intros [= <- <-]; by eapply pv_obj0|].
    intros ([fs r1] & E & [= <- <-])%bind_res_Ok_inv. by eapply pv_obj. }
  destruct (Z.eqb_spec c 91) as [->|].
  { destruct (skip_ws t) as [|d t'] eqn:Et; [done|]. destruct (Z.eqb_spec d 93) as [->|]; [intros [= <- <-]; by eapply pv_arr0|].
    intros ([l r1] & E & [= <- <-])%bind_res_Ok_inv. by eapply pv_arr. }
  destruct (Z.eqb_spec c 34) as [->|]; [intros ([x r1] & E & [= <- <-])%bind_res_Ok_inv; by eapply pv_str|].
  destruct (Z.eqb_spec c 116) as [->|]; [intros [-> E]%word_inv; apply pv_true; by rewrite Es|].
  destruct (Z.eqb_spec c 102) as [->|]; [intros [-> E]%word_inv; apply pv_false; by rewrite Es|].
  destruct (Z.eqb_spec c 110) as [->|]; [intros [-> E]%word_inv; apply pv_null; by rewrite Es|].
  intros ([x r1] & E & [= <- <-])%bind_res_Ok_inv. apply pv_num. by rewrite Es.
Qed.

(** The bracket loop gets from one position and depth to another. *)
Definition reaches (p d q d' : Z) : Prop :=
  p <= q /\ exists k, (k <= Z.to_nat (q - p))%nat /\ forall f, nest_end (k + f) raw 91 93 p d = nest_end f raw 91 93 q d'.
Lemma reaches_refl p d : reaches p d p d.
Proof. split; [lia|]. exists 0%nat. by split; [lia|]. Qed.
Lemma reaches_trans p d q d1 r d2 : reaches p d q d1 -> reaches q d1 r d2 -> reaches p d r d2.
Proof.
  intros [H1 (k1 & L1 & E1)] [H2 (k2 & L2 & E2)]. split; [lia|]. exists (k1 + k2)%nat. split; [lia|]. intros f. by rewrite <- Nat.add_assoc, E1.
Qed.
Lemma reaches_step p d q d' : p < q -> (forall f, nest_end (S f) raw 91 93 p d = nest_end f raw 91 93 q d') -> reaches p d q d'.
Proof. intros Hq E. split; [lia|]. exists 1%nat. split; [lia|apply E]. Qed.
Lemma sees_inside p c t : sees p (c :: t) -> blen raw <=? p = false.
Proof.
  intros Hs. destruct (sees_suffix _ _ Hs) as (_ & Hp & Hl). destruct (utf8_head c t (proj1 Hs)) as (b0 & w & E & _). rewrite E, blen_cons in Hl.
  pose proof (blen_nonneg w). pose proof (blen_nonneg post). apply Z.leb_gt. lia.
Qed.
Lemma reaches_char p d c t d' : sees p (c :: t) -> 0 <= c < 128 -> c <> 34 ->
  d' = (if c =? 91 then d + 1 else if c =? 93 then d - 1 else d) -> (c = 93 -> d' <> 0) -> reaches p d (p + 1) d' /\ sees (p + 1) t.
Proof.
  intros Hs Hc H34 -> Hz. destruct (sees_char raw stop post p c t Hc Hs) as [_ Ht]. split; [|done].
  apply reaches_step; [lia|]. intros f. cbn [nest_end]. rewrite (sees_inside _ _ _ Hs), !(sees_is_at p c t) by (done || lia).
  destruct (Z.eqb_spec c 34); [done|]. destruct (Z.eqb_spec c 91); [done|]. destruct (Z.eqb_spec c 93) as [->|]; [|done].
  destruct (Z.eqb_spec (d - 1) 0); [by destruct Hz|done].
Qed.
Definition neutral (x : jstr) : Prop := Forall (fun c => 0 <= c < 128 /\ c <> 34 /\ c <> 91 /\ c <> 93) x.
Lemma reaches_neutral p d x t : neutral x -> sees p (x ++ t) -> reaches p d (p + blen x) d /\ sees (p + blen x) t.
Proof.
  intros Hx. revert p. induction Hx as [|c x (Hc & H1 & H2 & H3) _ IH]; intros p Hs.
  - rewrite blen_nil, Z.add_0_r. split; [apply reaches_refl|done].
  - destruct (reaches_char p d c (x ++ t) d Hs Hc H1) as [Hr Hs1]; [by destruct (Z.eqb_spec c 91), (Z.eqb_spec c 93)|done|].
    destruct (IH _ Hs1) as [Hr2 Hs2]. rewrite blen_cons, Z.add_assoc. split; [by eapply reaches_trans|done].
Qed.
Lemma reaches_ws p d s : sees p s -> exists q, reaches p d q d /\ sees q (skip_ws s).
Proof.
  intros Hs. destruct (skip_ws_split s) as (x & E & Hx & _). rewrite E in Hs.
  exists (p + blen x). apply reaches_neutral; [|done]. eapply Forall_impl; [exact Hx|]. intros c Hc. pose proof (is_ws_ascii c Hc).
  split; [done|]. repeat split; intros ->; done.
Qed.
Lemma reaches_string p d t x r : sees p (34 :: t) -> unquote t = Ok (x, r) -> exists q, reaches p d q d /\ sees q r.
Proof.
  intros Hs E. destruct (sees_string _ _ _ _ Hs E) as (y & esc & _ & Hscan & Hr & _). eexists. split; [|exact Hr].
  pose proof (blen_nonneg (utf8 y)). apply reaches_step; [lia|]. intros f. cbn [nest_end].
  rewrite (sees_inside _ _ _ Hs), (sees_is_at p 34 t) by (done || lia). change (34 =? 34) with true. cbv iota. by rewrite Hscan.
Qed.

Definition value_reach (f : nat) : Prop := forall s p v r d, 1 <= d -> sees p s -> jval plain_num f s = Ok (v, r) -> exists q, reaches p d q d /\ sees q r.
Definition elems_reach (f : nat) : Prop := forall s p l r d, 1 <= d -> sees p s -> jelems plain_num f s = Ok (l, r) -> exists q, reaches p d q d /\ sees q (93 :: r).
Definition members_reach (f : nat) : Prop := forall s p acc l r d, 1 <= d -> sees p s -> jmembers plain_num f s acc = Ok (l, r) -> exists q, reaches p d q d /\ sees q (125 :: r).

Lemma number_neutral s x r : json_number s = Ok (x, r) -> exists y, s = y ++ r /\ neutral y.
Proof.
  intros (d & -> & Hok & _)%json_number_inv. exists (jtok_text d). split; [done|]. destruct (tok_body_chars d Hok) as [Hb _].
  assert (Forall (fun c => num_char c = true) (jtok_text d)) as Hn.
  { change (Forall (fun c => num_char c = true) ((if jneg d then [45] else []) ++ tok_body d)). apply Forall_app. split; [by destruct (jneg d); repeat constructor|done]. }
  pose proof (num_chars_ascii _ Hn) as Ha. unfold ascii in Ha. apply Forall_forall. intros c Hc. rewrite Forall_forall in Hn, Ha.
  specialize (Hn c Hc). specialize (Ha c Hc). split; [done|]. repeat split; intros ->; done.
Qed.
Lemma reaches_then p d q0 c t d1 : reaches p d q0 d -> sees q0 (c :: t) -> 0 <= c < 128 -> c <> 34 ->
  d1 = (if c =? 91 then d + 1 else if c =? 93 then d - 1 else d) -> (c = 93 -> d1 <> 0) -> reaches p d (q0 + 1) d1 /\ sees (q0 + 1) t.
Proof. intros Hr Hs Hc H1 H2 H3. destruct (reaches_char q0 d c t d1 Hs Hc H1 H2 H3) as [Hr2 Hs2]. split; [by eapply reaches_trans|done]. Qed.

Lemma word_neutral w : forallb (fun c => between 97 122 c) w = true -> neutral w.
Proof.
  intros H. apply Forall_forall. intros c Hc. rewrite forallb_forall in H. apply list_elem_of_In in Hc. specialize (H c Hc).
  unfold between in H. lia.
Qed.
Lemma value_reach_step f : elems_reach f -> members_reach f -> value_reach (S f).
Proof.
  intros IHe IHm s p v r d Hd Hs E%jval_parsed. destruct (reaches_ws p d s Hs) as (q0 & R0 & S0).
  assert (forall w, skip_ws s = w ++ r -> neutral w -> exists q, reaches p d q d /\ sees q r) as Hword.
  { intros w Ew Hw. rewrite Ew in S0. destruct (reaches_neutral q0 d w r Hw S0) as [R1 S1]. eexists. split; [by eapply reaches_trans|done]. }
  destruct E as [t Et Er|t fs Et Em|t Et Er|t c t' l Et _ _ El|t x Et Eu|Ew|Ew|Ew|x En].
  - rewrite Et in S0. destruct (reaches_then p d q0 123 t d R0 S0) as [R1 S1]; [lia|lia|done|done|].
    destruct (reaches_ws _ d t S1) as (q1 & R2 & S2). rewrite Er in S2.
    destruct (reaches_then p d q1 125 r d (reaches_trans _ _ _ _ _ _ R1 R2) S2) as [R3 S3]; [lia|lia|done|done|]. by eexists.
  - rewrite Et in S0. destruct (reaches_then p d q0 123 t d R0 S0) as [R1 S1]; [lia|lia|done|done|].
    destruct (IHm _ _ _ _ _ d Hd S1 Em) as (q1 & R2 & S2).
    destruct (reaches_then p d q1 125 r d (reaches_trans _ _ _ _ _ _ R1 R2) S2) as [R3 S3]; [lia|lia|done|done|]. by eexists.
  - rewrite Et in S0. destruct (reaches_then p d q0 91 t (d + 1) R0 S0) as [R1 S1]; [lia|lia|done|done|].
    destruct (reaches_ws _ (d + 1) t S1) as (q1 & R2 & S2). rewrite Er in S2.
    destruct (reaches_char q1 (d + 1) 93 r d S2) as [R3 S3]; [lia|lia|cbn; lia|lia|]. eexists. split; [|exact S3].
    eapply reaches_trans; [exact R1|]. by eapply reaches_trans.
  - rewrite Et in S0. destruct (reaches_then p d q0 91 t (d + 1) R0 S0) as [R1 S1]; [lia|lia|done|done|].
    destruct (IHe _ _ _ _ (d + 1) ltac:(lia) S1 El) as (q1 & R2 & S2).
    destruct (reaches_char q1 (d + 1) 93 r d S2) as [R3 S3]; [lia|lia|cbn; lia|lia|]. eexists. split; [|exact S3].
    eapply reaches_trans; [exact R1|]. by eapply reaches_trans.
  - rewrite Et in S0. destruct (reaches_string q0 d t x r S0 Eu) as (q1 & R1 & S1). exists q1. split; [by eapply reaches_trans|done].
  - by apply (Hword _ Ew), word_neutral.
  - by apply (Hword _ Ew), word_neutral.
  - by apply (Hword _ Ew), word_neutral.
  - destruct (number_neutral _ _ _ En) as (y & Ey & Hy). by apply (Hword y).
Qed.
Lemma elems_reach_step f : value_reach f -> elems_reach f -> elems_reach (S f).
Proof.
  intros IHv IHe s p l r d Hd Hs E. cbn [jelems] in E. apply bind_res_Ok_inv in E as ([v r1] & Ev & E). cbn beta iota in E.
  destruct (IHv _ _ _ _ d Hd Hs Ev) as (q0 & R0 & S0). destruct (reaches_ws q0 d r1 S0) as (q1 & R1 & S1).
  pose proof (reaches_trans _ _ _ _ _ _ R0 R1) as R2. destruct (skip_ws r1) as [|c t]; [done|]. destruct (Z.eqb_spec c 44) as [->|].
  - apply bind_res_Ok_inv in E as ([l' r2] & E & [= <- <-]). destruct (reaches_then p d q1 44 t d R2 S1) as [R3 S3]; [lia|lia|done|done|].
    destruct (IHe _ _ _ _ d Hd S3 E) as (q & R4 & S4). exists q. split; [by eapply reaches_trans|done].
  - destruct (Z.eqb_spec c 93) as [->|]; [|done]. injection E as <- <-. by exists q1.
Qed.
Lemma members_reach_step f : value_reach f -> members_reach f -> members_reach (S f).
Proof.
  intros IHv IHm s p acc l r d Hd Hs E. cbn [jmembers] in E. destruct (reaches_ws p d s Hs) as (q0 & R0 & S0).
  destruct (skip_ws s) as [|c t]; [done|]. destruct (Z.eqb_spec c 34) as [->|]; [|done].
  apply bind_res_Ok_inv in E as ([k r1] & Ek & E). cbn beta iota in E. destruct (reaches_string q0 d t _ _ S0 Ek) as (q1 & R1 & S1).
  destruct (reaches_ws q1 d r1 S1) as (q2 & R2 & S2). destruct (skip_ws r1) as [|c r2]; [done|]. destruct (Z.eqb_spec c 58) as [->|]; [|done].
  destruct (reaches_then q0 d q2 58 r2 d (reaches_trans _ _ _ _ _ _ R1 R2) S2) as [R3 S3]; [lia|lia|done|done|].
  apply bind_res_Ok_inv in E as ([v r3] & Ev & E). cbn beta iota in E. destruct (IHv _ _ _ _ d Hd S3 Ev) as (q4 & R4 & S4).
  destruct (reaches_ws q4 d r3 S4) as (q5 & R5 & S5).
  pose proof (reaches_trans _ _ _ _ _ _ R0 (reaches_trans _ _ _ _ _ _ R3 (reaches_trans _ _ _ _ _ _ R4 R5))) as R6.
  destruct (skip_ws r3) as [|c t']; [done|]. destruct (Z.eqb_spec c 44) as [->|].
  - destruct (reaches_then p d q5 44 t' d R6 S5) as [R7 S7]; [lia|lia|done|done|].
    destruct (IHm _ _ _ _ _ d Hd S7 E) as (q & R8 & S8). exists q. split; [by eapply reaches_trans|done].
  - destruct (Z.eqb_spec c 125) as [->|]; [|done]. injection E as <- <-. by exists q5.
Qed.
Lemma reach_all f : value_reach f /\ elems_reach f /\ members_reach f.
Proof.
  induction f as [|f (IHv & IHe & IHm)]; [done|].
  split; [by apply value_reach_step|]. split; [by apply elems_reach_step|by apply members_reach_step].
Qed.

(** The text of an array, from bracket to bracket. *)
Lemma endOfValue_array p t l f : sees p (91 :: t) -> jval plain_num f (91 :: t) = Ok (VArr l, []) -> endOfValue raw p = Ok stop.
Proof.
  intros Hs E. destruct f as [|f]; [done|]. apply jval_parsed in E. unfold endOfValue. rewrite !(sees_is_at p 91 t) by (done || lia).
  change (91 =? 34) with false. change (91 =? 123) with false. change (91 =? 91) with true. cbv iota.
  destruct (reaches_char p 0 91 t 1 Hs) as [R1 S1]; [lia|lia|done|done|].
  assert (exists q, reaches p 0 q 1 /\ sees q [93]) as (q & [Hle Hr] & Hq).
  { inversion E as [| |t' Et Er|t' c t'' l' Et _ _ El| | | | |]; injection Et as <-.
    - destruct (reaches_ws _ 1 t S1) as (q & R2 & S2). rewrite Er in S2. exists q. split; [by eapply reaches_trans|done].
    - destruct (proj1 (proj2 (reach_all f)) _ _ _ _ 1 ltac:(lia) S1 El) as (q & R2 & S2). exists q. split; [by eapply reaches_trans|done]. }
  destruct (sees_suffix _ _ Hq) as (_ & Hb & _). pose proof (sees_inside _ _ _ Hq) as Hin%Z.leb_gt. destruct (sees_suffix _ _ Hs) as (_ & Hb0 & _).
  destruct Hr as (k & Hk & E1). assert (exists g, S (length raw) = (k + S g)%nat) as (g & ->) by (exists (length raw - k)%nat; unfold blen in *; lia).
  rewrite E1. cbn [nest_end]. rewrite (sees_inside _ _ _ Hq), !(sees_is_at q 93 []) by (done || lia). cbn. f_equal.
  destruct Hq as (_ & Hq & _). change (blen (utf8 [93])) with 1 in Hq. lia.
Qed.

(** ** Rows *)

Lemma parsed_head f s r v : parsed f s r v -> exists c t, skip_ws s = c :: t /\ c <> 44 /\ c <> 93.
Proof.
  destruct 1 as [t Et Er|t fs Et Em|t Et Er|t c t' l Et _ _ El|t x Et Eu|Ew|Ew|Ew|x En]; try (rewrite Et; by eexists _, _); try (rewrite Ew; by eexists _, _).
  destruct (skip_ws s) as [|c t]; [done|]. exists c, t. split; [done|]. by split; intros ->.
Qed.
Lemma jelems_inv f t l r : jelems plain_num (S f) t = Ok (l, r) ->
  exists v r1 l', jval plain_num f t = Ok (v, r1) /\ l = v :: l' /\
    ((exists t', skip_ws r1 = 44 :: t' /\ jelems plain_num f t' = Ok (l', r)) \/ (skip_ws r1 = 93 :: r /\ l' = [])).
Proof.
  cbn [jelems]. intros ([v r1] & Ev & E)%bind_res_Ok_inv. cbn beta iota in E. destruct (skip_ws r1) as [|c t'] eqn:Er; [done|].
  destruct (Z.eqb_spec c 44) as [->|].
  - apply bind_res_Ok_inv in E as ([l' r2] & E & [= <- <-]). exists v, r1, l'. split; [done|]. split; [done|]. left. by exists t'.
  - destruct (Z.eqb_spec c 93) as [->|]; [|done]. injection E as <- <-. exists v, r1, []. split; [done|]. split; [done|]. by right.
Qed.
Lemma jelems_head f t l r : jelems plain_num f t = Ok (l, r) -> exists c t', skip_ws t = c :: t' /\ c <> 44 /\ c <> 93.
Proof.
  destruct f as [|f]; [done|]. intros (v & r1 & l' & Ev & _)%jelems_inv. destruct f as [|f]; [done|]. by eapply parsed_head, jval_parsed.
Qed.

Lemma next_elem p s c t : sees p s -> skip_ws s = c :: t -> c <> 44 -> exists q, next raw p = Ok q /\ sees q (c :: t) /\ p <= q.
Proof.
  intros Hs E Hc. destruct (sees_skip _ _ _ _ Hs E) as [Hq Hle]. exists (skipWs raw p). split; [|done]. unfold next. cbn [next_value].
  rewrite (sees_is_at _ c t 44) by (done || lia). by destruct (Z.eqb_spec c 44).
Qed.
Lemma next_comma p s t c t' : sees p s -> skip_ws s = 44 :: t -> skip_ws t = c :: t' -> c <> 44 ->
  exists q, next raw p = Ok q /\ sees q (c :: t') /\ p < q.
Proof.
  intros Hs E E' Hc. destruct (sees_skip _ _ _ _ Hs E) as [Hq Hle]. pose proof (sees_inside _ _ _ Hq) as Hin%Z.leb_gt.
  destruct (sees_char _ _ _ _ 44 t ltac:(lia) Hq) as [_ Ht]. destruct (sees_skip _ _ _ _ Ht E') as [Hq2 Hle2].
  exists (skipWs raw (skipWs raw p + 1)). split; [|split; [done|lia]]. unfold next.
  destruct (sees_suffix _ _ Hq) as (_ & Hb & _). assert (exists n, S (length raw) = S (S n)) as (n & ->) by (exists (length raw - 1)%nat; unfold blen in *; lia).
  cbn [next_value]. rewrite (sees_is_at _ 44 t 44) by (done || lia).
  change (44 =? 44) with true. cbv iota. rewrite (sees_is_at _ c t' 44) by (done || lia). by destruct (Z.eqb_spec c 44).
Qed.

(** The bytes of a string's text. *)
Lemma string_bytes p y r : sees p (34 :: y ++ 34 :: r) -> usv y = true ->
  utf8_decode (subarray raw p (p + 1 + blen (utf8 y) + 1)) = 34 :: y ++ [34] /\ subarray raw (p + 1) (p + 1 + blen (utf8 y)) = utf8 y.
Proof.
  intros Hs Hy. destruct (sees_char _ _ _ p 34 _ ltac:(lia) Hs) as [_ (_ & _ & HRt)]. destruct Hs as (_ & _ & HR).
  rewrite utf8_ascii_cons, utf8_break_ascii in HR by lia. rewrite utf8_break_ascii, <- app_assoc in HRt by lia. split; [|by apply rest_at_sub in HRt].
  replace ((34 :: utf8 y ++ 34 :: utf8 r) ++ post) with ((([34] ++ utf8 y) ++ [34]) ++ utf8 r ++ post) in HR by (cbn [app]; by rewrite <- !app_assoc).
  apply rest_at_sub in HR. replace (p + blen (([34] ++ utf8 y) ++ [34])) with (p + 1 + blen (utf8 y) + 1) in HR by (rewrite !blen_app; change (blen [34]) with 1; lia).
  rewrite HR. assert (([34] ++ utf8 y) ++ [34] = utf8 (34 :: y ++ [34])) as ->.
  { rewrite utf8_ascii_cons, utf8_break_ascii by lia. done. }
  apply utf8_roundtrip. change (34 :: y ++ [34]) with ([34] ++ y ++ [34]). rewrite usv_app_ascii by (by constructor). apply usv_snoc; [done|lia].
Qed.

Context `{Env} `{Alloc}.
Definition json_cell (c : option jstr) : value := match c with Some s => VStr s | None => VNull end.
Definition json_row (row : list (option jstr)) : value := VArr (json_cell <$> row).

Lemma scan_cell f t c r1 q0 rb w : jval plain_num f t = Ok (json_cell c, r1) -> sees q0 (skip_ws t) -> holds rb w -> wf_cell (utf8 <$> c) ->
  exists q rb', (forall n p, next raw p = Ok q0 -> scan_cells raw (S n) p rb = scan_cells raw n q rb')
    /\ holds rb' (w ++ cell_bytes (utf8 <$> c)) /\ sees q r1 /\ q0 < q.
Proof.
  intros Ev Hq Hh Hw. destruct f as [|f]; [done|]. apply jval_parsed in Ev. destruct c as [x|]; inversion Ev; subst.
  - match goal with E : skip_ws t = 34 :: ?t1, U : unquote ?t1 = _ |- _ => rewrite E in Hq; rename U into Eu; rename t1 into t1' end.
    destruct (sees_string _ _ _ _ Hq Eu) as (y & esc & -> & Hscan & Hr & Hxy & Hun & Hy). destruct (string_bytes _ _ _ Hq Hy) as [Hdec Hsub].
    pose proof (blen_nonneg (utf8 y)). destruct (sees_suffix _ _ Hr) as (_ & Hb & _). destruct (sees_suffix _ _ Hq) as (_ & Hb0 & _).
    assert (exists rb', (if esc then s ← parsed_cell raw q0 (q0 + 1 + blen (utf8 y) + 1); pushText (Some s) rb
        else pushSlice raw (q0 + 1) (q0 + 1 + blen (utf8 y) + 1 - 1) rb) = Ok rb' /\ holds rb' (w ++ cell_bytes (Some (utf8 x)))) as (rb' & Ep & H').
    { destruct esc.
      - unfold parsed_cell. rewrite Hdec, (JSON_parse_string y x Hun). cbn [mbind res_bind]. by apply (pushText_holds (Some x)).
      - rewrite (Hxy eq_refl) in *. apply pushSlice_holds; [done|lia|lia|by rewrite Z.add_simpl_r|done]. }
    exists (q0 + 1 + blen (utf8 y) + 1), rb'. split; [|split; [done|split; [done|lia]]]. intros n p Hn. cbn [scan_cells]. rewrite Hn. cbn [mbind res_bind].
    rewrite (sees_is_at _ 34 _ 110) by (done || lia). change (34 =? 110) with false. cbv iota. rewrite Hscan. by rewrite Ep.
  - match goal with E : skip_ws t = js "null" ++ r1 |- _ => rewrite E in Hq end.
    exists (q0 + 4), (pushNull rb). split; [|split; [by apply pushNull_holds|split; [|lia]]].
    + intros n p Hn. cbn [scan_cells]. rewrite Hn. cbn [mbind res_bind]. by rewrite (sees_is_at q0 110 (js "ull" ++ r1) 110) by (done || lia).
    + apply (sees_ascii raw stop post q0 (js "null") r1); [|done]. change (js "null") with [110; 117; 108; 108]. repeat (apply Forall_cons_2; [lia|]). apply Forall_nil_2.
Qed.

(** The bytes of a row's cells. *)
Definition row_cells (row : list (option jstr)) : list (option bytes) := (fun c : option jstr => utf8 <$> c) <$> row.

Lemma scan_cells_spec cs : forall f t r p rb w q0, jelems plain_num f t = Ok (json_cell <$> cs, r) ->
  next raw p = Ok q0 -> sees q0 (skip_ws t) -> holds rb w -> Forall wf_cell (row_cells cs) ->
  exists q rb' u, scan_cells raw (length cs) p rb = Ok (q, rb') /\ holds rb' (w ++ concat (cell_bytes <$> row_cells cs))
    /\ sees q u /\ skip_ws u = 93 :: r /\ q0 < q.
Proof.
  induction cs as [|c cs IH]; intros f t r p rb w q0 E Hn Hq Hh Hw; (destruct f as [|f]; [done|]); apply jelems_inv in E as (v & r1 & l' & Ev & El & Hr); [done|].
  rewrite fmap_cons in El. injection El as <- <-. apply Forall_cons in Hw as [Hwc Hw].
  destruct (scan_cell f t c r1 q0 rb w Ev Hq Hh Hwc) as (q & rb1 & Hstep & H1 & Hs1 & Hlt). cbn [length]. rewrite (Hstep _ _ Hn).
  unfold row_cells in *. rewrite !fmap_cons, concat_cons, app_assoc. destruct Hr as [(t' & Er & Hr)|[Er El]].
  - destruct (jelems_head _ _ _ _ Hr) as (c' & t2 & Et & Hc & _). destruct (next_comma _ _ _ _ _ Hs1 Er Et Hc) as (q1 & Hn1 & Hq1 & Hle). rewrite <- Et in Hq1.
    destruct (IH _ _ _ _ _ _ _ Hr Hn1 Hq1 H1 Hw) as (q2 & rb2 & u & E2 & H2 & Hs2 & Hu & Hlt2). exists q2, rb2, u. do 4 (split; [done|]). lia.
  - destruct cs; [|done]. cbn. exists q, rb1, r1. rewrite app_nil_r. done.
Qed.

Lemma scan_row f t row r1 q0 rb w : jval plain_num f t = Ok (json_row row, r1) -> sees q0 (skip_ws t) -> holds rb w -> Forall wf_cell (row_cells row) ->
  is_at raw q0 93 = false /\
  exists q rb' u, scan_cells raw (length row) (q0 + 1) (reset rb) = Ok (q, rb') /\ holds rb' (concat (cell_bytes <$> row_cells row))
    /\ sees q u /\ skip_ws u = 93 :: r1 /\ q0 < q.
Proof.
  intros Ev Hq Hh Hw. destruct f as [|f]; [done|]. apply jval_parsed in Ev. pose proof (holds_reset _ _ Hh) as Hr.
  inversion Ev as [| |t1 Et Er El|t1 d t2 l Et Ed Hd El Ell| | | | |].
  - rewrite Et in Hq. split; [by apply (sees_is_at q0 91 t1 93); [lia|]|]. symmetry in El. destruct row; [|done]. exists (q0 + 1), (reset rb), t1.
    destruct (sees_char _ _ _ _ 91 t1 ltac:(lia) Hq) as [_ Ht]. do 4 (split; [done|]). lia.
  - rewrite Et in Hq. split; [by apply (sees_is_at q0 91 t1 93); [lia|]|]. subst l.
    destruct (sees_char _ _ _ _ 91 t1 ltac:(lia) Hq) as [_ Ht]. destruct (jelems_head _ _ _ _ El) as (c' & t3 & Et3 & Hc & _).
    destruct (next_elem _ _ _ _ Ht Et3 Hc) as (q1 & Hn1 & Hq1 & Hle). rewrite <- Et3 in Hq1.
    destruct (scan_cells_spec row _ _ _ _ _ _ _ El Hn1 Hq1 Hr Hw) as (q & rb' & u & E & H' & Hs & Hu & Hlt). exists q, rb', u. do 4 (split; [done|]). lia.
Qed.

Lemma cells_of_row row : cells_of (length row) row = row_cells row.
Proof.
  induction row as [|c row IH]; [done|]. cbn [length]. rewrite cells_of_S. unfold row_cells in *. rewrite fmap_cons. cbn [tl head default]. by rewrite IH.
Qed.

Lemma scan_rows_spec ncols mode mapper rows : forall f t r p rb w q0 fuel, jelems plain_num f t = Ok (json_row <$> rows, r) ->
  next raw p = Ok q0 -> sees q0 (skip_ws t) -> holds rb w -> Z.of_nat ncols <= 32767 ->
  Forall (fun row => length row = ncols /\ Forall wf_cell (row_cells row)) rows -> (Z.to_nat (blen raw - q0) < fuel)%nat ->
  exists e, sees e r /\ scan_rows raw ncols mode mapper fuel p rb = (l ← mapM (wire_row mode mapper ncols) rows; Ok (l, e)).
Proof.
  induction rows as [|row rows IH]; intros f t r p rb w q0 fuel E Hn Hq Hh Hc Hw Hf; (destruct f as [|f]; [done|]); apply jelems_inv in E as (v & r1 & l' & Ev & El & Hr); [done|].
  rewrite fmap_cons in El. injection El as <- <-. apply Forall_cons in Hw as [[Hl Hwr] Hw]. subst ncols.
  destruct (scan_row f t row r1 q0 rb w Ev Hq Hh Hwr) as (H93 & q & rb1 & u & Ec & H1 & Hs1 & Hu & Hlt).
  destruct fuel as [|fuel]; [lia|]. cbn [scan_rows]. rewrite Hn. cbn [mbind res_bind]. rewrite H93, Ec. cbn [mbind res_bind].
  destruct (sees_skip _ _ _ _ Hs1 Hu) as [Hq1 Hle1]. rewrite (sees_is_at _ 93 r1 93) by (done || lia). change (93 =? 93) with true. cbv iota.
  destruct (sees_char _ _ _ _ 93 r1 ltac:(lia) Hq1) as [_ Hs2]. set (i := skipWs raw q + 1) in *.
  destruct (finish_row (length row) (row_cells row) rb1 H1) as (rb2 & w2 & -> & H2); [by unfold row_cells; rewrite length_fmap|done|]. cbn [mbind res_bind].
  assert (wire_row mode mapper (length row) row = rowFrom mode mapper (data_row (row_cells row))) as Ew by (unfold wire_row; by rewrite cells_of_row).
  destruct (sees_suffix _ _ Hs1) as (_ & Hb & _).
  assert (exists e, sees e r /\ scan_rows raw (length row) mode mapper fuel i rb2 = (l ← mapM (wire_row mode mapper (length row)) rows; Ok (l, e))) as (e & He & ->).
  { destruct Hr as [(t' & Er & Hr)|[Er El]].
    - destruct (jelems_head _ _ _ _ Hr) as (c' & t2 & Et & Hc' & _). destruct (next_comma _ _ _ _ _ Hs2 Er Et Hc') as (q1 & Hn1 & Hq3 & Hle). rewrite <- Et in Hq3.
      apply (IH _ _ _ _ _ _ _ _ Hr Hn1 Hq3 H2 Hc Hw). lia.
    - destruct rows; [|done]. destruct (next_elem _ _ _ _ Hs2 Er ltac:(lia)) as (q1 & Hn1 & Hq3 & Hle). exists (q1 + 1).
      destruct (sees_char _ _ _ _ 93 r ltac:(lia) Hq3) as [_ Hs3]. split; [done|]. pose proof (sees_inside _ _ _ Hq3) as Hin%Z.leb_gt.
      destruct fuel as [|fuel]; [lia|]. cbn [scan_rows]. rewrite Hn1. cbn [mbind res_bind]. rewrite (sees_is_at _ 93 r 93) by (done || lia). done. }
  exists e. split; [done|]. cbn [mapM]. rewrite Ew. destruct (rowFrom mode mapper (data_row (row_cells row))); [|done|done]. cbn [mbind res_bind].
  by destruct (mapM _ rows).
Qed.

(** The rows of a response, from the bracket that opens them. *)
Lemma scan_rows_array ncols mode mapper rows p t f rb w : sees p (91 :: t) -> jval plain_num f (91 :: t) = Ok (VArr (json_row <$> rows), []) ->
  holds rb w -> Z.of_nat ncols <= 32767 -> Forall (fun row => length row = ncols /\ Forall wf_cell (row_cells row)) rows ->
  scan_rows raw ncols mode mapper (S (length raw)) (p + 1) rb = (l ← mapM (wire_row mode mapper ncols) rows; Ok (l, stop)).
Proof.
  intros Hs E Hh Hc Hw. destruct f as [|f]; [done|]. apply jval_parsed in E. destruct (sees_char _ _ _ p 91 t ltac:(lia) Hs) as [_ Ht].
  assert (forall e, sees e [] -> e = stop) as Hstop by (intros e (_ & He & _); change (blen (utf8 [])) with 0 in He; lia).
  inversion E as [| |t1 Et Er El|t1 d t2 l Et Ed Hd El Ell| | | | |]; injection Et as <-.
  - symmetry in El. destruct rows; [|done]. destruct (next_elem _ _ _ _ Ht Er ltac:(lia)) as (q & Hn & Hq & _).
    cbn [scan_rows]. rewrite Hn. cbn [mbind res_bind]. rewrite (sees_is_at _ 93 [] 93) by (done || lia).
    destruct (sees_char _ _ _ _ 93 [] ltac:(lia) Hq) as [_ He]. cbn. by rewrite (Hstop _ He).
  - subst l. destruct (jelems_head _ _ _ _ El) as (c & t3 & Et3 & Hc' & _). destruct (next_elem _ _ _ _ Ht Et3 Hc') as (q & Hn & Hq & Hle).
    rewrite <- Et3 in Hq. destruct (sees_suffix _ _ Hs) as (_ & Hb & _).
    destruct (scan_rows_spec ncols mode mapper rows _ _ _ _ _ _ _ (S (length raw)) El Hn Hq Hh Hc Hw) as (e & He & Es); [unfold blen in *; lia|].
    by rewrite <- (Hstop e He).
Qed.
End Scan.

(** ** Whole responses *)

Lemma sees_after pre s post : usv s = true -> sees (pre ++ utf8 s ++ post) (blen pre + blen (utf8 s)) post (blen pre) s.
Proof. intros Hu. split; [done|]. split; [done|]. pose proof (rest_at_0 (pre ++ utf8 s ++ post)) as HR. by apply rest_at_app in HR. Qed.
Lemma find_key_at b k from n : 0 <= from <= blen b -> find_key k (drop (Z.to_nat from) b) = Some n -> index_of b k from = from + n.
Proof.
  intros Hf E. unfold index_of. replace (subarray b from (blen b)) with (drop (Z.to_nat from) b); [by rewrite E|].
  unfold subarray, rel_index. zif. zif. rewrite !Z.min_l by lia. symmetry. apply take_ge. rewrite length_drop. unfold blen in *. lia.
Qed.
Lemma skip_ws_app w c t : Forall (fun c => is_ws c = true) w -> is_ws c = false -> skip_ws (w ++ c :: t) = c :: t.
Proof. intros Hw Hc. induction Hw as [|d w Hd _ IH]; cbn [app skip_ws]; [by rewrite Hc|by rewrite Hd]. Qed.

(** An array's text, from bracket to bracket. *)
Definition array_text (s : jstr) (l : list value) : Prop :=
  usv s = true /\ (exists t, s = 91 :: t) /\ jval plain_num (2 * length s + 2) s = Ok (VArr l, []).
Lemma array_text_parse s l : array_text s l -> JSON_parse s = Ok (VArr l).
Proof. intros (_ & _ & E). unfold JSON_parse, JSON_parse_with. by rewrite E. Qed.

Lemma array_at raw stop post p s l : sees raw stop post p s -> array_text s l ->
  endOfValue raw p = Ok stop /\ JSON_parse (utf8_decode (subarray raw p stop)) = Ok (VArr l).
Proof.
  intros Hs Ht. pose proof Ht as (Hu & (t & Et) & E). rewrite (sees_window _ _ _ _ _ Hs), utf8_roundtrip by done. split; [|by apply array_text_parse].
  rewrite Et in Hs, E. by eapply endOfValue_array.
Qed.

(** After a key and white space comes the text. *)
Lemma sees_value pre k w s l post : array_text s l -> Forall (fun c => is_ws c = true) w ->
  let raw := pre ++ k ++ w ++ utf8 s ++ post in
  let stop := blen (pre ++ k ++ w) + blen (utf8 s) in
  skipWs raw (blen pre + blen k) = blen (pre ++ k ++ w) /\ sees raw stop post (blen (pre ++ k ++ w)) s.
Proof.
  intros (Hu & (t & ->) & _) Hw raw stop. assert (ascii w) as Ha by (eapply Forall_impl; [exact Hw|]; intros ?; apply is_ws_ascii).
  pose proof (sees_after (pre ++ k) (w ++ 91 :: t) post ltac:(by rewrite usv_app_ascii)) as Hs.
  pose proof (sees_after (pre ++ k ++ w) (91 :: t) post Hu) as Hs2. rewrite <- !app_assoc in Hs2. split; [|done].
  rewrite utf8_app_ascii, <- !app_assoc in Hs by done. fold raw in Hs.
  rewrite <- blen_app. unfold skipWs, ws. rewrite (proj1 (sees_suffix _ _ _ _ _ Hs)), utf8_app_ascii, <- app_assoc by done.
  rewrite run_app by done. rewrite utf8_ascii_cons by lia. cbn [app]. rewrite run_stop by done. rewrite (app_assoc pre k w), (blen_app (pre ++ k) w). lia.
Qed.

Section Response.
Context `{Env} `{Alloc} (cfg : NeonConfig) (mode : ResultMode) (shape : Shape).

(** Rows decoded from the DataRows a server would have sent. *)
Definition as_wire (fields : list NeonField) (rows : list (list (option jstr))) (k : list CodegenCol -> list value -> out NeonResult) : out NeonResult :=
  cols ← of_res (planCols cfg fields shape);
  mapper ← of_res (mapper_of cfg mode cols);
  rs ← of_res (mapM (wire_row mode mapper (length cols)) rows);
  k cols rs.

End Response.

(** ** Concrete responses *)

Definition neon_env : Env :=
  {| reg := Registry.init; user_decoder := fun _ b => Ok (VBuf b); jsonSourceSupported := true; Date_parse := fun _ => None |}.
#[local] Existing Instances neon_env zero_alloc.
Definition neon_cfg : NeonConfig := mkNeonConfig false defaultDecoders jitMapper.
(** A text with single quotes for double ones. *)
Definition text (s : string) : jstr := (fun c => if c =? 39 then 34 else c) <$> js s.

Definition two_fields : jstr := text "[{'name':'a','dataTypeID':23},{'name':'b\u005b','dataTypeID':25}]".
Definition two_rows : jstr := text "[ ['7' , 'x\'],\u00e9\\'],[null,'plain']]".
Definition rows_parsed : list (list (option jstr)) :=
  [[Some (js "7"); Some (js "x" ++ [34; 93; 44; 233; 92])]; [None; Some (js "plain")]].
Definition two_raw (tail : string) : bytes :=
  [123] ++ FKEY ++ [32] ++ utf8 two_fields ++ [44] ++ RKEY ++ [10] ++ utf8 two_rows ++ text tail.
Definition values_of (o : out NeonResult) : option (list value) := match o with inr r => Some (nr_rows r) | inl _ => None end.


(** A shape of one column over a result of two: the second cell is taken for a row. *)
Definition first_column : Shape := Some (Ok [mkCol (js "a") 23 None None false None None [] None false]).
Example extra_column_scanned :
  match fields_of (match JSON_parse two_fields with Ok v => v | _ => VNull end) with
  | Some fields =>
    (values_of (decodeParsed neon_cfg (mkParsed fields [[Some (js "7"); Some (js "0123")]; [Some (js "8"); Some (js "45")]] None None) RArray first_column),
     values_of (decodeSingleRaw neon_cfg ([123] ++ FKEY ++ utf8 two_fields ++ [44] ++ RKEY ++ text "[['7','0123'],['8','45']]}") RArray first_column))
  | None => (None, None)
  end = (Some [VArr [VNum (of_Z 7)]; VArr [VNum (of_Z 8)]],
         Some [VArr [VNum (of_Z 7)]; VArr [VNum (of_Z 123)]; VArr [VNum (of_Z 8)]; VArr [VNum (of_Z 5)]]).
Proof. vm_compute. reflexivity. Qed.

(** The command and the count are looked for after the rows only. *)
Example early_members_missed :
  let q := text "'command':'SELECT','rowCount':1," in
  match decodeSingleRaw neon_cfg ([123] ++ q ++ FKEY ++ utf8 two_fields ++ [44] ++ RKEY ++ text "[['7','x']]}") RArray None with
  | inr r => (nr_command r, nr_rowCount r)
  | inl _ => (Some VNull, None)
  end = (None, None).
Proof. vm_compute. reflexivity. Qed.
