(* ===== verification/Connection.v ===== *)
(** * A connection (src/connection.ts)

    [conn] is the state of a Connection together with its tasks, which callers, the queue and the
    pipeline share by reference and which are therefore kept in a store by number. Every handler of the
    class is a function on it; [step] is one of the things that can happen to a connection: a call of
    the public API, bytes from the socket, a timer, an abort signal, the end of a cancel request.
    The messages it sends are values ([wmsg]); [encoded] gives their bytes by the write functions
    of Protocol and the encoders of Encode. *)

From S2P Require Import Prelude Utf8 Text Buf Num Dates Value NumText Faults Auth Json JsonBig ExtTypes JsonSpec JsonScan ArrayText Temporal Protocol Framing Messages Errors Encode Decode Mapper Spec Plans.

(** ** Requests, tasks and messages *)

Inductive ResultMode := MArray | MObject | MRaw | MBuffer | MWire.
Inductive Kind := KQuery | KStream | KCopyFrom | KCopyTo.
Inductive ConnState := CIdle | CConnecting | CReady | CReconnecting | CClosed.
#[global] Instance ConnState_eq_dec : EqDecision ConnState.
Proof. solve_decision. Defined.
#[global] Instance Kind_eq_dec : EqDecision Kind.
Proof. solve_decision. Defined.

(** An error a caller can see: from the server, thrown by the driver's own code, made by the driver or the
    transport, or the reason of an abort signal. *)
Inductive err :=
| PgErr (fields : gmap jstr jstr) (isLateCancel : bool)
| Thrown (e : exn)
| Failure_ (f : fault)
| Reason (id : Z).
Definition err_code (e : err) : option jstr :=
  match e with PgErr f _ => f !! js "code" | Failure_ f => fcode f | _ => None end.
(** What isFatalAuth looks at. *)
Definition err_fault (e : err) : fault :=
  match e with
  | PgErr f _ => mkFault (f !! js "code") (f !! js "message") (Some (js "PgError")) false
  | Failure_ f => f
  | _ => mkFault None None None false
  end.
Definition plain_error (m : jstr) : err := Failure_ (mkFault None (Some m) (Some (js "Error")) false).
Definition fatal_error (m : jstr) : err := Failure_ (mkFault None (Some m) (Some (js "Error")) true).

Inductive outcome :=
| Resolved (rows : list value) (columns : list jstr) (rowCount : option Z) (command : option jstr)
| Frames (b : bytes)
| StreamEnd (command : option jstr) (rowCount : option Z)
| Rejected (e : err).

Abbreviation RowMapper := (bytes -> res value).
Record PreparedEntry := mkPrepared { psql : jstr; pfields : list Field; pparamOids : option (list Z) }.
Record PendingCancel := mkPending { phead : option nat; isConfirmed : bool; hasFailed : bool; ptimer : bool }.

(** The part of a task that its creation fixes. *)
Record Request := mkRequest {
  rsql : jstr; rparams : list value; rraw : option RawParams; rname : option jstr; rmode : ResultMode; rkind : Kind;
  rtyped : bool; rshapeCols : option (list CodegenCol); rbinary : bool; rparamTypes : option (list Z); rtimeout : option Z }.

(** Bind, Execute and Sync of one execution, by the values or the pre-encoded bytes; [plan]: the types a
    binary plan was compiled from; [jit]: by the compiled encoder. *)
Inductive payload :=
| PRaw (r : RawParams)
| PValues (vs : list value) (plan : option (list Z)) (jit : bool).
Inductive wmsg :=
| MHandshake (b : bytes)
| MClose (name : jstr)
| MParse (name sql : jstr) (oids : list Z)
| MDescribe (name : jstr)
| MRun (name : jstr) (p : payload) (rf : result_format)
| MQuery (sql : jstr)
| MCopyFail (reason : jstr)
| MSync
| MTerminate.

(** What a reader of the model can look back at. *)
Inductive action :=
| Dispatched (id : nat)
| Discarded (ms : list wmsg)
| CancelSent (p : nat)
| CancelUsed (p : nat)
| CancelConfirmed (p : nat)
| CancelFailed (p : nat)
| SocketDown.

(** startReconnect: asleep before attempt [n], or waiting for it. *)
Inductive ReconnectLoop := NoLoop | Sleeping (n : nat) (last : err) | Attempting (n : nat) (last : err).

(** ** Bytes of a message *)

Section Bytes.
Context `{Alloc}.

Definition plan_encoder_of (plan : option (list Z)) : ParamsEncoder value :=
  match plan ≫= compileParamPlan with Some e => e | None => fun v _ => encodeValueInto v end.
Definition generic_run (name : jstr) (vs : list value) (plan : option (list Z)) (rf : result_format) : M writer unit :=
  _ ← writeBindWith [] name vs (plan_encoder_of plan) rf; _ ← writeExecute [] 0; writeSync.
Definition write_run (name : jstr) (p : payload) (rf : result_format) : M writer unit :=
  match p with
  | PRaw r => _ ← writeBindRaw [] name (rformats r) (rvalues r) rf; _ ← writeExecute [] 0; writeSync
  | PValues vs (Some oids) true =>
    f ← lift (compileBindEncoder name oids rf);
    match f with Some f => f vs | None => generic_run name vs (Some oids) rf end
  | PValues vs plan _ => generic_run name vs plan rf
  end.
Definition write_wmsg (m : wmsg) : M writer unit :=
  match m with
  | MHandshake b => Writer.bytes_ b
  | MClose n => writeClose (js "S") n
  | MParse n s oids => writeParse n s oids
  | MDescribe n => writeDescribe (js "S") n
  | MRun n p rf => write_run n p rf
  | MQuery s => writeQuery s
  | MCopyFail r => b ← lift (W.copyFail r); Writer.bytes_ b
  | MSync => writeSync
  | MTerminate => b ← lift W.terminate; Writer.bytes_ b
  end.
(** The bytes that a write appends to the batch, wherever it starts. *)
Definition encoded (m : wmsg) : res bytes :=
  match write_wmsg m (Writer.new 256) with
  | (w, Ok _) => Ok (contents w)
  | (_, Throw e) => Throw e
  | (_, NoFuel) => NoFuel
  end.
End Bytes.

Record Task := mkTask {
  t_req : Request;
  t_rows : list value;
  t_fields : option (list Field);
  t_mapper : option RowMapper;
  t_wire : option bytes;
  t_command : option jstr;
  t_rowCount : option Z;
  t_error : option err;
  t_cancelled : bool;
  t_cacheName : option jstr;
  t_resultFormat : option result_format;
  t_reused : bool;
  t_paramOids : option (list Z);
  t_timer : bool;
  t_graceTimer : bool;
  t_settled : bool;
  t_retries : nat;
  t_listening : bool;
  t_stopped : bool;
  t_outcome : option outcome }.
Definition set_t_req (x : Request) (t : Task) : Task := mkTask x (t_rows t) (t_fields t) (t_mapper t) (t_wire t) (t_command t) (t_rowCount t) (t_error t) (t_cancelled t) (t_cacheName t) (t_resultFormat t) (t_reused t) (t_paramOids t) (t_timer t) (t_graceTimer t) (t_settled t) (t_retries t) (t_listening t) (t_stopped t) (t_outcome t).
Definition set_t_rows (x : list value) (t : Task) : Task := mkTask (t_req t) x (t_fields t) (t_mapper t) (t_wire t) (t_command t) (t_rowCount t) (t_error t) (t_cancelled t) (t_cacheName t) (t_resultFormat t) (t_reused t) (t_paramOids t) (t_timer t) (t_graceTimer t) (t_settled t) (t_retries t) (t_listening t) (t_stopped t) (t_outcome t).
Definition set_t_fields (x : option (list Field)) (t : Task) : Task := mkTask (t_req t) (t_rows t) x (t_mapper t) (t_wire t) (t_command t) (t_rowCount t) (t_error t) (t_cancelled t) (t_cacheName t) (t_resultFormat t) (t_reused t) (t_paramOids t) (t_timer t) (t_graceTimer t) (t_settled t) (t_retries t) (t_listening t) (t_stopped t) (t_outcome t).
Definition set_t_mapper (x : option RowMapper) (t : Task) : Task := mkTask (t_req t) (t_rows t) (t_fields t) x (t_wire t) (t_command t) (t_rowCount t) (t_error t) (t_cancelled t) (t_cacheName t) (t_resultFormat t) (t_reused t) (t_paramOids t) (t_timer t) (t_graceTimer t) (t_settled t) (t_retries t) (t_listening t) (t_stopped t) (t_outcome t).
Definition set_t_wire (x : option bytes) (t : Task) : Task := mkTask (t_req t) (t_rows t) (t_fields t) (t_mapper t) x (t_command t) (t_rowCount t) (t_error t) (t_cancelled t) (t_cacheName t) (t_resultFormat t) (t_reused t) (t_paramOids t) (t_timer t) (t_graceTimer t) (t_settled t) (t_retries t) (t_listening t) (t_stopped t) (t_outcome t).
Definition set_t_command (x : option jstr) (t : Task) : Task := mkTask (t_req t) (t_rows t) (t_fields t) (t_mapper t) (t_wire t) x (t_rowCount t) (t_error t) (t_cancelled t) (t_cacheName t) (t_resultFormat t) (t_reused t) (t_paramOids t) (t_timer t) (t_graceTimer t) (t_settled t) (t_retries t) (t_listening t) (t_stopped t) (t_outcome t).
Definition set_t_rowCount (x : option Z) (t : Task) : Task := mkTask (t_req t) (t_rows t) (t_fields t) (t_mapper t) (t_wire t) (t_command t) x (t_error t) (t_cancelled t) (t_cacheName t) (t_resultFormat t) (t_reused t) (t_paramOids t) (t_timer t) (t_graceTimer t) (t_settled t) (t_retries t) (t_listening t) (t_stopped t) (t_outcome t).
Definition set_t_error (x : option err) (t : Task) : Task := mkTask (t_req t) (t_rows t) (t_fields t) (t_mapper t) (t_wire t) (t_command t) (t_rowCount t) x (t_cancelled t) (t_cacheName t) (t_resultFormat t) (t_reused t) (t_paramOids t) (t_timer t) (t_graceTimer t) (t_settled t) (t_retries t) (t_listening t) (t_stopped t) (t_outcome t).
Definition set_t_cancelled (x : bool) (t : Task) : Task := mkTask (t_req t) (t_rows t) (t_fields t) (t_mapper t) (t_wire t) (t_command t) (t_rowCount t) (t_error t) x (t_cacheName t) (t_resultFormat t) (t_reused t) (t_paramOids t) (t_timer t) (t_graceTimer t) (t_settled t) (t_retries t) (t_listening t) (t_stopped t) (t_outcome t).
Definition set_t_cacheName (x : option jstr) (t : Task) : Task := mkTask (t_req t) (t_rows t) (t_fields t) (t_mapper t) (t_wire t) (t_command t) (t_rowCount t) (t_error t) (t_cancelled t) x (t_resultFormat t) (t_reused t) (t_paramOids t) (t_timer t) (t_graceTimer t) (t_settled t) (t_retries t) (t_listening t) (t_stopped t) (t_outcome t).
Definition set_t_resultFormat (x : option result_format) (t : Task) : Task := mkTask (t_req t) (t_rows t) (t_fields t) (t_mapper t) (t_wire t) (t_command t) (t_rowCount t) (t_error t) (t_cancelled t) (t_cacheName t) x (t_reused t) (t_paramOids t) (t_timer t) (t_graceTimer t) (t_settled t) (t_retries t) (t_listening t) (t_stopped t) (t_outcome t).
Definition set_t_reused (x : bool) (t : Task) : Task := mkTask (t_req t) (t_rows t) (t_fields t) (t_mapper t) (t_wire t) (t_command t) (t_rowCount t) (t_error t) (t_cancelled t) (t_cacheName t) (t_resultFormat t) x (t_paramOids t) (t_timer t) (t_graceTimer t) (t_settled t) (t_retries t) (t_listening t) (t_stopped t) (t_outcome t).
Definition set_t_paramOids (x : option (list Z)) (t : Task) : Task := mkTask (t_req t) (t_rows t) (t_fields t) (t_mapper t) (t_wire t) (t_command t) (t_rowCount t) (t_error t) (t_cancelled t) (t_cacheName t) (t_resultFormat t) (t_reused t) x (t_timer t) (t_graceTimer t) (t_settled t) (t_retries t) (t_listening t) (t_stopped t) (t_outcome t).
Definition set_t_timer (x : bool) (t : Task) : Task := mkTask (t_req t) (t_rows t) (t_fields t) (t_mapper t) (t_wire t) (t_command t) (t_rowCount t) (t_error t) (t_cancelled t) (t_cacheName t) (t_resultFormat t) (t_reused t) (t_paramOids t) x (t_graceTimer t) (t_settled t) (t_retries t) (t_listening t) (t_stopped t) (t_outcome t).
Definition set_t_graceTimer (x : bool) (t : Task) : Task := mkTask (t_req t) (t_rows t) (t_fields t) (t_mapper t) (t_wire t) (t_command t) (t_rowCount t) (t_error t) (t_cancelled t) (t_cacheName t) (t_resultFormat t) (t_reused t) (t_paramOids t) (t_timer t) x (t_settled t) (t_retries t) (t_listening t) (t_stopped t) (t_outcome t).
Definition set_t_settled (x : bool) (t : Task) : Task := mkTask (t_req t) (t_rows t) (t_fields t) (t_mapper t) (t_wire t) (t_command t) (t_rowCount t) (t_error t) (t_cancelled t) (t_cacheName t) (t_resultFormat t) (t_reused t) (t_paramOids t) (t_timer t) (t_graceTimer t) x (t_retries t) (t_listening t) (t_stopped t) (t_outcome t).
Definition set_t_retries (x : nat) (t : Task) : Task := mkTask (t_req t) (t_rows t) (t_fields t) (t_mapper t) (t_wire t) (t_command t) (t_rowCount t) (t_error t) (t_cancelled t) (t_cacheName t) (t_resultFormat t) (t_reused t) (t_paramOids t) (t_timer t) (t_graceTimer t) (t_settled t) x (t_listening t) (t_stopped t) (t_outcome t).
Definition set_t_listening (x : bool) (t : Task) : Task := mkTask (t_req t) (t_rows t) (t_fields t) (t_mapper t) (t_wire t) (t_command t) (t_rowCount t) (t_error t) (t_cancelled t) (t_cacheName t) (t_resultFormat t) (t_reused t) (t_paramOids t) (t_timer t) (t_graceTimer t) (t_settled t) (t_retries t) x (t_stopped t) (t_outcome t).
Definition set_t_stopped (x : bool) (t : Task) : Task := mkTask (t_req t) (t_rows t) (t_fields t) (t_mapper t) (t_wire t) (t_command t) (t_rowCount t) (t_error t) (t_cancelled t) (t_cacheName t) (t_resultFormat t) (t_reused t) (t_paramOids t) (t_timer t) (t_graceTimer t) (t_settled t) (t_retries t) (t_listening t) x (t_outcome t).
Definition set_t_outcome (x : option outcome) (t : Task) : Task := mkTask (t_req t) (t_rows t) (t_fields t) (t_mapper t) (t_wire t) (t_command t) (t_rowCount t) (t_error t) (t_cancelled t) (t_cacheName t) (t_resultFormat t) (t_reused t) (t_paramOids t) (t_timer t) (t_graceTimer t) (t_settled t) (t_retries t) (t_listening t) (t_stopped t) x.

Record conn := mkConn {
  state : ConnState;
  txStatus : Z;
  serverParams : gmap jstr jstr;
  backendKey : option (Z * Z);
  socket : bool;
  parser : bytes;
  queue : list nat;
  inflight : list nat;
  tasks : gmap nat Task;
  outbuf : list (wmsg * bytes);
  flushScheduled : bool;
  writeBackedUp : bool;
  prepared : gmap jstr PreparedEntry;
  staleStatements : gset jstr;
  parseInflight : gmap jstr jstr;
  scramState : option Scram;
  pendingCancel : option nat;
  pendings : gmap nat PendingCancel;
  isRetiring : bool;
  lateCancel : option (nat * gset nat);
  cancelDone : bool;
  connectPromise : bool;
  connecting : bool;
  attempt : option err;
  loop : ReconnectLoop;
  ended : bool;
  everConnected : bool;
  full : bool;
  wire : list wmsg;
  log : list action;
  next : nat;
  hung : bool }.
Definition set_state (x : ConnState) (c : conn) : conn := mkConn x (txStatus c) (serverParams c) (backendKey c) (socket c) (parser c) (queue c) (inflight c) (tasks c) (outbuf c) (flushScheduled c) (writeBackedUp c) (prepared c) (staleStatements c) (parseInflight c) (scramState c) (pendingCancel c) (pendings c) (isRetiring c) (lateCancel c) (cancelDone c) (connectPromise c) (connecting c) (attempt c) (loop c) (ended c) (everConnected c) (full c) (wire c) (log c) (next c) (hung c).
Definition set_txStatus (x : Z) (c : conn) : conn := mkConn (state c) x (serverParams c) (backendKey c) (socket c) (parser c) (queue c) (inflight c) (tasks c) (outbuf c) (flushScheduled c) (writeBackedUp c) (prepared c) (staleStatements c) (parseInflight c) (scramState c) (pendingCancel c) (pendings c) (isRetiring c) (lateCancel c) (cancelDone c) (connectPromise c) (connecting c) (attempt c) (loop c) (ended c) (everConnected c) (full c) (wire c) (log c) (next c) (hung c).
Definition set_serverParams (x : gmap jstr jstr) (c : conn) : conn := mkConn (state c) (txStatus c) x (backendKey c) (socket c) (parser c) (queue c) (inflight c) (tasks c) (outbuf c) (flushScheduled c) (writeBackedUp c) (prepared c) (staleStatements c) (parseInflight c) (scramState c) (pendingCancel c) (pendings c) (isRetiring c) (lateCancel c) (cancelDone c) (connectPromise c) (connecting c) (attempt c) (loop c) (ended c) (everConnected c) (full c) (wire c) (log c) (next c) (hung c).
Definition set_backendKey (x : option (Z * Z)) (c : conn) : conn := mkConn (state c) (txStatus c) (serverParams c) x (socket c) (parser c) (queue c) (inflight c) (tasks c) (outbuf c) (flushScheduled c) (writeBackedUp c) (prepared c) (staleStatements c) (parseInflight c) (scramState c) (pendingCancel c) (pendings c) (isRetiring c) (lateCancel c) (cancelDone c) (connectPromise c) (connecting c) (attempt c) (loop c) (ended c) (everConnected c) (full c) (wire c) (log c) (next c) (hung c).
Definition set_socket (x : bool) (c : conn) : conn := mkConn (state c) (txStatus c) (serverParams c) (backendKey c) x (parser c) (queue c) (inflight c) (tasks c) (outbuf c) (flushScheduled c) (writeBackedUp c) (prepared c) (staleStatements c) (parseInflight c) (scramState c) (pendingCancel c) (pendings c) (isRetiring c) (lateCancel c) (cancelDone c) (connectPromise c) (connecting c) (attempt c) (loop c) (ended c) (everConnected c) (full c) (wire c) (log c) (next c) (hung c).
Definition set_parser (x : bytes) (c : conn) : conn := mkConn (state c) (txStatus c) (serverParams c) (backendKey c) (socket c) x (queue c) (inflight c) (tasks c) (outbuf c) (flushScheduled c) (writeBackedUp c) (prepared c) (staleStatements c) (parseInflight c) (scramState c) (pendingCancel c) (pendings c) (isRetiring c) (lateCancel c) (cancelDone c) (connectPromise c) (connecting c) (attempt c) (loop c) (ended c) (everConnected c) (full c) (wire c) (log c) (next c) (hung c).
Definition set_queue (x : list nat) (c : conn) : conn := mkConn (state c) (txStatus c) (serverParams c) (backendKey c) (socket c) (parser c) x (inflight c) (tasks c) (outbuf c) (flushScheduled c) (writeBackedUp c) (prepared c) (staleStatements c) (parseInflight c) (scramState c) (pendingCancel c) (pendings c) (isRetiring c) (lateCancel c) (cancelDone c) (connectPromise c) (connecting c) (attempt c) (loop c) (ended c) (everConnected c) (full c) (wire c) (log c) (next c) (hung c).
Definition set_inflight (x : list nat) (c : conn) : conn := mkConn (state c) (txStatus c) (serverParams c) (backendKey c) (socket c) (parser c) (queue c) x (tasks c) (outbuf c) (flushScheduled c) (writeBackedUp c) (prepared c) (staleStatements c) (parseInflight c) (scramState c) (pendingCancel c) (pendings c) (isRetiring c) (lateCancel c) (cancelDone c) (connectPromise c) (connecting c) (attempt c) (loop c) (ended c) (everConnected c) (full c) (wire c) (log c) (next c) (hung c).
Definition set_tasks (x : gmap nat Task) (c : conn) : conn := mkConn (state c) (txStatus c) (serverParams c) (backendKey c) (socket c) (parser c) (queue c) (inflight c) x (outbuf c) (flushScheduled c) (writeBackedUp c) (prepared c) (staleStatements c) (parseInflight c) (scramState c) (pendingCancel c) (pendings c) (isRetiring c) (lateCancel c) (cancelDone c) (connectPromise c) (connecting c) (attempt c) (loop c) (ended c) (everConnected c) (full c) (wire c) (log c) (next c) (hung c).
Definition set_outbuf (x : list (wmsg * bytes)) (c : conn) : conn := mkConn (state c) (txStatus c) (serverParams c) (backendKey c) (socket c) (parser c) (queue c) (inflight c) (tasks c) x (flushScheduled c) (writeBackedUp c) (prepared c) (staleStatements c) (parseInflight c) (scramState c) (pendingCancel c) (pendings c) (isRetiring c) (lateCancel c) (cancelDone c) (connectPromise c) (connecting c) (attempt c) (loop c) (ended c) (everConnected c) (full c) (wire c) (log c) (next c) (hung c).
Definition set_flushScheduled (x : bool) (c : conn) : conn := mkConn (state c) (txStatus c) (serverParams c) (backendKey c) (socket c) (parser c) (queue c) (inflight c) (tasks c) (outbuf c) x (writeBackedUp c) (prepared c) (staleStatements c) (parseInflight c) (scramState c) (pendingCancel c) (pendings c) (isRetiring c) (lateCancel c) (cancelDone c) (connectPromise c) (connecting c) (attempt c) (loop c) (ended c) (everConnected c) (full c) (wire c) (log c) (next c) (hung c).
Definition set_writeBackedUp (x : bool) (c : conn) : conn := mkConn (state c) (txStatus c) (serverParams c) (backendKey c) (socket c) (parser c) (queue c) (inflight c) (tasks c) (outbuf c) (flushScheduled c) x (prepared c) (staleStatements c) (parseInflight c) (scramState c) (pendingCancel c) (pendings c) (isRetiring c) (lateCancel c) (cancelDone c) (connectPromise c) (connecting c) (attempt c) (loop c) (ended c) (everConnected c) (full c) (wire c) (log c) (next c) (hung c).
Definition set_prepared (x : gmap jstr PreparedEntry) (c : conn) : conn := mkConn (state c) (txStatus c) (serverParams c) (backendKey c) (socket c) (parser c) (queue c) (inflight c) (tasks c) (outbuf c) (flushScheduled c) (writeBackedUp c) x (staleStatements c) (parseInflight c) (scramState c) (pendingCancel c) (pendings c) (isRetiring c) (lateCancel c) (cancelDone c) (connectPromise c) (connecting c) (attempt c) (loop c) (ended c) (everConnected c) (full c) (wire c) (log c) (next c) (hung c).
Definition set_staleStatements (x : gset jstr) (c : conn) : conn := mkConn (state c) (txStatus c) (serverParams c) (backendKey c) (socket c) (parser c) (queue c) (inflight c) (tasks c) (outbuf c) (flushScheduled c) (writeBackedUp c) (prepared c) x (parseInflight c) (scramState c) (pendingCancel c) (pendings c) (isRetiring c) (lateCancel c) (cancelDone c) (connectPromise c) (connecting c) (attempt c) (loop c) (ended c) (everConnected c) (full c) (wire c) (log c) (next c) (hung c).
Definition set_parseInflight (x : gmap jstr jstr) (c : conn) : conn := mkConn (state c) (txStatus c) (serverParams c) (backendKey c) (socket c) (parser c) (queue c) (inflight c) (tasks c) (outbuf c) (flushScheduled c) (writeBackedUp c) (prepared c) (staleStatements c) x (scramState c) (pendingCancel c) (pendings c) (isRetiring c) (lateCancel c) (cancelDone c) (connectPromise c) (connecting c) (attempt c) (loop c) (ended c) (everConnected c) (full c) (wire c) (log c) (next c) (hung c).
Definition set_scramState (x : option Scram) (c : conn) : conn := mkConn (state c) (txStatus c) (serverParams c) (backendKey c) (socket c) (parser c) (queue c) (inflight c) (tasks c) (outbuf c) (flushScheduled c) (writeBackedUp c) (prepared c) (staleStatements c) (parseInflight c) x (pendingCancel c) (pendings c) (isRetiring c) (lateCancel c) (cancelDone c) (connectPromise c) (connecting c) (attempt c) (loop c) (ended c) (everConnected c) (full c) (wire c) (log c) (next c) (hung c).
Definition set_pendingCancel (x : option nat) (c : conn) : conn := mkConn (state c) (txStatus c) (serverParams c) (backendKey c) (socket c) (parser c) (queue c) (inflight c) (tasks c) (outbuf c) (flushScheduled c) (writeBackedUp c) (prepared c) (staleStatements c) (parseInflight c) (scramState c) x (pendings c) (isRetiring c) (lateCancel c) (cancelDone c) (connectPromise c) (connecting c) (attempt c) (loop c) (ended c) (everConnected c) (full c) (wire c) (log c) (next c) (hung c).
Definition set_pendings (x : gmap nat PendingCancel) (c : conn) : conn := mkConn (state c) (txStatus c) (serverParams c) (backendKey c) (socket c) (parser c) (queue c) (inflight c) (tasks c) (outbuf c) (flushScheduled c) (writeBackedUp c) (prepared c) (staleStatements c) (parseInflight c) (scramState c) (pendingCancel c) x (isRetiring c) (lateCancel c) (cancelDone c) (connectPromise c) (connecting c) (attempt c) (loop c) (ended c) (everConnected c) (full c) (wire c) (log c) (next c) (hung c).
Definition set_isRetiring (x : bool) (c : conn) : conn := mkConn (state c) (txStatus c) (serverParams c) (backendKey c) (socket c) (parser c) (queue c) (inflight c) (tasks c) (outbuf c) (flushScheduled c) (writeBackedUp c) (prepared c) (staleStatements c) (parseInflight c) (scramState c) (pendingCancel c) (pendings c) x (lateCancel c) (cancelDone c) (connectPromise c) (connecting c) (attempt c) (loop c) (ended c) (everConnected c) (full c) (wire c) (log c) (next c) (hung c).
Definition set_lateCancel (x : option (nat * gset nat)) (c : conn) : conn := mkConn (state c) (txStatus c) (serverParams c) (backendKey c) (socket c) (parser c) (queue c) (inflight c) (tasks c) (outbuf c) (flushScheduled c) (writeBackedUp c) (prepared c) (staleStatements c) (parseInflight c) (scramState c) (pendingCancel c) (pendings c) (isRetiring c) x (cancelDone c) (connectPromise c) (connecting c) (attempt c) (loop c) (ended c) (everConnected c) (full c) (wire c) (log c) (next c) (hung c).
Definition set_cancelDone (x : bool) (c : conn) : conn := mkConn (state c) (txStatus c) (serverParams c) (backendKey c) (socket c) (parser c) (queue c) (inflight c) (tasks c) (outbuf c) (flushScheduled c) (writeBackedUp c) (prepared c) (staleStatements c) (parseInflight c) (scramState c) (pendingCancel c) (pendings c) (isRetiring c) (lateCancel c) x (connectPromise c) (connecting c) (attempt c) (loop c) (ended c) (everConnected c) (full c) (wire c) (log c) (next c) (hung c).
Definition set_connectPromise (x : bool) (c : conn) : conn := mkConn (state c) (txStatus c) (serverParams c) (backendKey c) (socket c) (parser c) (queue c) (inflight c) (tasks c) (outbuf c) (flushScheduled c) (writeBackedUp c) (prepared c) (staleStatements c) (parseInflight c) (scramState c) (pendingCancel c) (pendings c) (isRetiring c) (lateCancel c) (cancelDone c) x (connecting c) (attempt c) (loop c) (ended c) (everConnected c) (full c) (wire c) (log c) (next c) (hung c).
Definition set_connecting (x : bool) (c : conn) : conn := mkConn (state c) (txStatus c) (serverParams c) (backendKey c) (socket c) (parser c) (queue c) (inflight c) (tasks c) (outbuf c) (flushScheduled c) (writeBackedUp c) (prepared c) (staleStatements c) (parseInflight c) (scramState c) (pendingCancel c) (pendings c) (isRetiring c) (lateCancel c) (cancelDone c) (connectPromise c) x (attempt c) (loop c) (ended c) (everConnected c) (full c) (wire c) (log c) (next c) (hung c).
Definition set_attempt (x : option err) (c : conn) : conn := mkConn (state c) (txStatus c) (serverParams c) (backendKey c) (socket c) (parser c) (queue c) (inflight c) (tasks c) (outbuf c) (flushScheduled c) (writeBackedUp c) (prepared c) (staleStatements c) (parseInflight c) (scramState c) (pendingCancel c) (pendings c) (isRetiring c) (lateCancel c) (cancelDone c) (connectPromise c) (connecting c) x (loop c) (ended c) (everConnected c) (full c) (wire c) (log c) (next c) (hung c).
Definition set_loop (x : ReconnectLoop) (c : conn) : conn := mkConn (state c) (txStatus c) (serverParams c) (backendKey c) (socket c) (parser c) (queue c) (inflight c) (tasks c) (outbuf c) (flushScheduled c) (writeBackedUp c) (prepared c) (staleStatements c) (parseInflight c) (scramState c) (pendingCancel c) (pendings c) (isRetiring c) (lateCancel c) (cancelDone c) (connectPromise c) (connecting c) (attempt c) x (ended c) (everConnected c) (full c) (wire c) (log c) (next c) (hung c).
Definition set_ended (x : bool) (c : conn) : conn := mkConn (state c) (txStatus c) (serverParams c) (backendKey c) (socket c) (parser c) (queue c) (inflight c) (tasks c) (outbuf c) (flushScheduled c) (writeBackedUp c) (prepared c) (staleStatements c) (parseInflight c) (scramState c) (pendingCancel c) (pendings c) (isRetiring c) (lateCancel c) (cancelDone c) (connectPromise c) (connecting c) (attempt c) (loop c) x (everConnected c) (full c) (wire c) (log c) (next c) (hung c).
Definition set_everConnected (x : bool) (c : conn) : conn := mkConn (state c) (txStatus c) (serverParams c) (backendKey c) (socket c) (parser c) (queue c) (inflight c) (tasks c) (outbuf c) (flushScheduled c) (writeBackedUp c) (prepared c) (staleStatements c) (parseInflight c) (scramState c) (pendingCancel c) (pendings c) (isRetiring c) (lateCancel c) (cancelDone c) (connectPromise c) (connecting c) (attempt c) (loop c) (ended c) x (full c) (wire c) (log c) (next c) (hung c).
Definition set_full (x : bool) (c : conn) : conn := mkConn (state c) (txStatus c) (serverParams c) (backendKey c) (socket c) (parser c) (queue c) (inflight c) (tasks c) (outbuf c) (flushScheduled c) (writeBackedUp c) (prepared c) (staleStatements c) (parseInflight c) (scramState c) (pendingCancel c) (pendings c) (isRetiring c) (lateCancel c) (cancelDone c) (connectPromise c) (connecting c) (attempt c) (loop c) (ended c) (everConnected c) x (wire c) (log c) (next c) (hung c).
Definition set_wire (x : list wmsg) (c : conn) : conn := mkConn (state c) (txStatus c) (serverParams c) (backendKey c) (socket c) (parser c) (queue c) (inflight c) (tasks c) (outbuf c) (flushScheduled c) (writeBackedUp c) (prepared c) (staleStatements c) (parseInflight c) (scramState c) (pendingCancel c) (pendings c) (isRetiring c) (lateCancel c) (cancelDone c) (connectPromise c) (connecting c) (attempt c) (loop c) (ended c) (everConnected c) (full c) x (log c) (next c) (hung c).
Definition set_log (x : list action) (c : conn) : conn := mkConn (state c) (txStatus c) (serverParams c) (backendKey c) (socket c) (parser c) (queue c) (inflight c) (tasks c) (outbuf c) (flushScheduled c) (writeBackedUp c) (prepared c) (staleStatements c) (parseInflight c) (scramState c) (pendingCancel c) (pendings c) (isRetiring c) (lateCancel c) (cancelDone c) (connectPromise c) (connecting c) (attempt c) (loop c) (ended c) (everConnected c) (full c) (wire c) x (next c) (hung c).
Definition set_next (x : nat) (c : conn) : conn := mkConn (state c) (txStatus c) (serverParams c) (backendKey c) (socket c) (parser c) (queue c) (inflight c) (tasks c) (outbuf c) (flushScheduled c) (writeBackedUp c) (prepared c) (staleStatements c) (parseInflight c) (scramState c) (pendingCancel c) (pendings c) (isRetiring c) (lateCancel c) (cancelDone c) (connectPromise c) (connecting c) (attempt c) (loop c) (ended c) (everConnected c) (full c) (wire c) (log c) x (hung c).
Definition set_hung (x : bool) (c : conn) : conn := mkConn (state c) (txStatus c) (serverParams c) (backendKey c) (socket c) (parser c) (queue c) (inflight c) (tasks c) (outbuf c) (flushScheduled c) (writeBackedUp c) (prepared c) (staleStatements c) (parseInflight c) (scramState c) (pendingCancel c) (pendings c) (isRetiring c) (lateCancel c) (cancelDone c) (connectPromise c) (connecting c) (attempt c) (loop c) (ended c) (everConnected c) (full c) (wire c) (log c) (next c) x.

Record Config := mkConfig {
  user : jstr; password : jstr; database : jstr; applicationName : jstr; startup_options : option jstr;
  statementTimeout : option Z; idleInTransactionSessionTimeout : option Z; connectTimeout : Z;
  prepare : bool; binaryParams : bool; pipelineDepth : nat; microtask : bool; temporalString : bool;
  decoders : gmap Z Decoder; reuseBinaryOids : Z -> bool; jitEncode : bool;
  mapperFactory : list CodegenCol -> bool -> gmap Z Decoder -> res RowMapper;
  rcEnabled : bool; rcMaxRetries : option nat;
  isBehindPooler : bool; hasTransport : bool; hasCancel : bool; channelBinding : channelBinding_; certDer : option bytes }.

Definition no_request : Request := mkRequest [] [] None None MArray KQuery false None false None None.
Definition new_task (r : Request) : Task :=
  mkTask r [] None None (match rmode r with MWire => Some [] | _ => None end) None None None false None None false None
    false false false 0 false false None.

Section Connection.
Context `{Env, Alloc, Crypto} (cfg : Config).

Definition the (id : nat) (c : conn) : Task := default (new_task no_request) (tasks c !! id).
Definition upd (id : nat) (f : Task -> Task) (c : conn) : conn := set_tasks (alter f id (tasks c)) c.
Definition note (a : action) (c : conn) : conn := set_log (log c ++ [a]) c.
Definition current (c : conn) : option nat := head (inflight c).
(** A name in use: the empty one is no name. *)
Definition named (r : Request) : option jstr := match rname r with Some [] => None | n => n end.
Definition is_stream (r : Request) : bool := bool_decide (rkind r = KStream) || bool_decide (rkind r = KCopyTo).
Definition is_copy (r : Request) : bool := bool_decide (rkind r = KCopyFrom).
Definition inTransaction (c : conn) : bool := (txStatus c =? 84) || (txStatus c =? 69).

(** ** Promises *)

(** A promise keeps its first outcome. *)
Definition settle (o : outcome) (t : Task) : Task := match t_outcome t with Some _ => t | None => set_t_outcome (Some o) t end.
Definition rejectTask (id : nat) (e : err) : conn -> conn :=
  upd id (fun t => settle (Rejected e) (set_t_stopped true t)).

(** ** Column plans *)

Definition resolve_col (c0 : CodegenCol) : CodegenCol :=
  let c := tagArrayCol c0 in
  if negb (temporalString cfg) then c
  else
    match js_ c, json c with
    | None, None => if INSTANT_OIDS (oid c) then as_text c
                    else match array c with Some (e, None) => if INSTANT_OIDS e then array_as_text c e else c | _ => c end
    | _, _ => match array c with Some (e, None) => if INSTANT_OIDS e then array_as_text c e else c | _ => c end
    end.
Definition resolveCols (cols : list CodegenCol) : list CodegenCol := resolve_col <$> cols.
(** The cache of mappers is elided: a mapper is a function of the plan. *)
Definition getMapper (cols : list CodegenCol) (mode : ResultMode) : res (option RowMapper) :=
  match mode with
  | MArray => Some <$> mapperFactory cfg (resolveCols cols) true (decoders cfg)
  | MObject => Some <$> mapperFactory cfg (resolveCols cols) false (decoders cfg)
  | _ => Ok None
  end.
Definition assignMapper (id : nat) (cols : list CodegenCol) : M conn unit :=
  t ← gets (the id);
  m ← lift (getMapper cols (rmode (t_req t)));
  modify (upd id (set_t_mapper m)).
Definition field_col (bin : Z -> bool) (f : Field) : CodegenCol :=
  mkCol (fname f) (dataTypeOid f) None None (bin (dataTypeOid f)) None None [] None false.
Definition mergeUnknown (cols : list CodegenCol) (fs : list Field) : list CodegenCol := mergeUnknownCols cols (dataTypeOid <$> fs).
Definition formats (cols : list CodegenCol) : result_format := PerColumn ((fun c => if binary c then 1 else 0) <$> cols).

(** ** Serialization of a task *)

Definition put (m : wmsg) : M conn unit := fun c =>
  match encoded m with
  | Ok b => (set_outbuf (outbuf c ++ [(m, b)]) c, Ok tt)
  | Throw e => (c, Throw e)
  | NoFuel => (c, NoFuel)
  end.
Definition parseKey (r : Request) : jstr :=
  match rparamTypes r with Some ((_ :: _) as l) => rsql r ++ 0 :: join (js ",") (show_Z <$> l) | _ => rsql r end.

(** Reuse of a cached statement: fields, mapper and formats. *)
Definition reuse_statement (id : nat) (e : PreparedEntry) : M conn unit :=
  _ ← modify (upd id (set_t_fields (Some (pfields e))));
  t ← gets (the id);
  let r := t_req t in
  if rtyped r then
    match rshapeCols r, t_mapper t with
    | Some cols, None => assignMapper id (mergeUnknown cols (pfields e))
    | _, _ => mret tt
    end
  else if rbinary r then assignMapper id (field_col (fun _ => true) <$> pfields e)
  else match rmode r with
       | MArray | MObject =>
         let cols := resolveCols (field_col (reuseBinaryOids cfg) <$> pfields e) in
         _ ← assignMapper id cols;
         modify (upd id (set_t_resultFormat (Some (formats cols))))
       | _ => assignMapper id (field_col (fun _ => false) <$> pfields e)
       end.
Definition cached_statement (id : nat) (n : jstr) : M conn (option PreparedEntry) :=
  r ← gets (fun c => t_req (the id c));
  cached ← gets (fun c => prepared c !! n);
  match cached with
  | Some e =>
    if bool_decide (psql e = rsql r) then _ ← reuse_statement id e; mret (Some e)
    else _ ← put (MClose n); _ ← modify (fun c => set_prepared (delete n (prepared c)) c); mret None
  | None => mret None
  end.
(** Parse (unless one is in flight) and Describe; answers the name that a Parse was written for. *)
Definition new_statement (id : nat) (name : option jstr) : M conn (option jstr) :=
  r ← gets (fun c => t_req (the id c));
  let oids := default [] (rparamTypes r) in
  match name with
  | None => _ ← put (MParse [] (rsql r) oids); _ ← put (MDescribe []); mret None
  | Some n =>
    stale ← gets (fun c => bool_decide (n ∈ staleStatements c));
    _ ← (if (stale : bool) then _ ← put (MClose n); modify (fun c => set_staleStatements (staleStatements c ∖ {[n]}) c) else mret tt);
    inflightKey ← gets (fun c => parseInflight c !! n);
    parsed ← (if bool_decide (inflightKey = Some (parseKey r)) then mret None
              else
                _ ← (match inflightKey with
                     | Some _ => _ ← put (MClose n); modify (fun c => set_parseInflight (delete n (parseInflight c)) c)
                     | None => mret tt
                     end);
                _ ← put (MParse n (rsql r) oids); mret (Some n));
    _ ← put (MDescribe n);
    _ ← modify (upd id (set_t_cacheName (Some n)));
    mret parsed
  end.
(** The types that the binary plan is compiled from, when there is one. *)
Definition plan_types (r : Request) (entry : option PreparedEntry) : option (list Z) :=
  if binaryParams cfg && bool_decide (is_Some (rraw r)) then None
  else if binaryParams cfg then
    oids ← (match entry ≫= pparamOids with Some o => Some o | None => rparamTypes r end);
    if compileParamPlan oids then Some oids else None
  else None.
Definition execution (r : Request) (entry : option PreparedEntry) : payload :=
  match rraw r with
  | Some raw => PRaw raw
  | None =>
    let plan := plan_types r entry in
    PValues (rparams r) plan (jitEncode cfg && match plan with Some o => (length (rparams r) =? length o)%nat | None => false end)
  end.
Definition serialize (id : nat) : M conn unit :=
  r ← gets (fun c => t_req (the id c));
  if is_copy r || bool_decide (rkind r = KCopyTo) then put (MQuery (rsql r))
  else
    entry ← (match named r with Some n => cached_statement id n | None => mret None end);
    parsed ← (match entry with Some _ => mret None | None => new_statement id (named r) end);
    _ ← modify (upd id (set_t_reused (bool_decide (is_Some entry))));
    rf ← gets (fun c => default (OneFormat 0) (t_resultFormat (the id c)));
    _ ← put (MRun (default [] (rname r)) (execution r entry) rf);
    match parsed with
    | Some n => modify (fun c => set_parseInflight (<[n := parseKey r]> (parseInflight c)) c)
    | None => mret tt
    end.
Definition startTask (id : nat) (c : conn) : conn :=
  let mark := length (outbuf c) in
  match serialize id c with
  | (c', Ok _) =>
    let c' := note (Dispatched id) (set_inflight (inflight c' ++ [id]) c') in
    if bool_decide (is_Some (rtimeout (t_req (the id c')))) then upd id (set_t_timer true) c' else c'
  | (c', Throw e) =>
    rejectTask id (Thrown e) (note (Discarded (drop mark (outbuf c')).*1) (set_outbuf (take mark (outbuf c')) c'))
  | (c', NoFuel) => set_hung true c'
  end.

(** ** Writing *)

Definition FLUSH_THRESHOLD : Z := 65536.
Definition batch_bytes (c : conn) : Z := foldr (fun mb n => blen mb.2 + n) 0 (outbuf c).
(** [full c]: whether the socket's buffer is full after a write. *)
Definition flushWrites (c : conn) : conn :=
  match outbuf c with
  | [] => c
  | l =>
    let c := set_outbuf [] c in
    if socket c then
      let c := set_wire (wire c ++ l.*1) c in
      if full c then set_writeBackedUp true c else c
    else c
  end.
(** A write that goes past the batch. *)
Definition write_now (ms : list wmsg) (c : conn) : conn := if socket c then set_wire (wire c ++ ms) c else c.

(** ** The end of a connection *)

Definition clearPendingCancel (c : conn) : conn := set_cancelDone false (set_isRetiring false (set_pendingCancel None c)).
(** What every task in flight gets: an error it had already received, or [e]. *)
Definition fail_inflight (e : err) (id : nat) : conn -> conn := fun c =>
  let t := the id c in
  let c := upd id (fun t => set_t_timer false (set_t_graceTimer false (set_t_listening false t))) c in
  if t_settled t then c else rejectTask id (default e (t_error t)) c.
Definition reject_inflight (e : err) (c : conn) : conn := foldl (fun c id => fail_inflight e id c) (set_inflight [] c) (inflight c).
Definition rejectQueue (e : err) (c : conn) : conn := foldl (fun c id => rejectTask id e c) (set_queue [] c) (queue c).
Definition settle_queued (e : err) (id : nat) : conn -> conn := fun c =>
  let t := the id c in
  let c := upd id (set_t_listening false) c in
  if t_settled t then c else rejectTask id e c.
Definition settlePending (e : err) (c : conn) : conn :=
  let c := reject_inflight e (set_lateCancel None (set_parseInflight ∅ (set_outbuf [] c))) in
  foldl (fun c id => settle_queued e id c) (set_queue [] c) (queue c).

Definition failAttempt (e : err) (c : conn) : conn :=
  if negb (connecting c) then c else set_attempt (Some e) (set_socket false (set_connecting false c)).
Definition error_message (e : err) : jstr :=
  match e with
  | PgErr f _ => default (js "PostgreSQL error") (f !! js "message")
  | Failure_ f => default [] (fmessage f)
  | Thrown (Error m) | Thrown (TypeError m) => m
  | _ => []
  end.
Definition reconnect_failed (n : nat) (last : err) : err :=
  plain_error (js "reconnect failed after " ++ show_Z (Z.of_nat n) ++ js " attempts: " ++ error_message last).
(** The head of the reconnect loop, up to its sleep. *)
Definition reconnect_round (n : nat) (last : err) (c : conn) : conn :=
  if ended c || bool_decide (state c = CClosed) then set_loop NoLoop c
  else if match rcMaxRetries cfg with Some m => (m <=? n)%nat | None => false end
  then rejectQueue (reconnect_failed n last) (set_state CClosed (set_loop NoLoop c))
  else set_loop (Sleeping n last) c.
Definition onSocketDown (e : err) (c : conn) : conn :=
  if bool_decide (state c = CClosed) then c
  else if connecting c then failAttempt e c
  else
    let c := note SocketDown (set_outbuf [] (set_socket false (clearPendingCancel c))) in
    let c := reject_inflight e c in
    if rcEnabled cfg && negb (ended c) then
      reconnect_round 0 e
        (set_parseInflight ∅ (set_staleStatements ∅ (set_prepared ∅ (set_state CReconnecting c))))
    else rejectQueue e (set_state CClosed c).

Definition retired : err := plain_error (js "minipg: the connection was closed because a cancel request could still stop a later query on it. Run the query again on a new connection.").
Definition retire (c : conn) : conn := onSocketDown retired (write_now [MTerminate] c).

(** ** Dispatching *)

(** A stream or COPY owns the connection, and nothing starts while a cancel is pending. *)
Definition solo (r : Request) : bool := is_stream r || is_copy r.
Definition canStartNext (c : conn) : bool :=
  if bool_decide (is_Some (pendingCancel c)) then false
  else match inflight c with
       | [] => true
       | h :: _ => if solo (t_req (the h c)) then false
                   else match queue c with n :: _ => negb (solo (t_req (the n c))) | [] => true end
       end.
Definition can_dispatch (c : conn) : bool :=
  (length (inflight c) <? pipelineDepth cfg)%nat && negb (writeBackedUp c) && canStartNext c.
Definition dispatch_one (c : conn) : conn :=
  match queue c with
  | id :: rest =>
    let c := startTask id (set_queue rest c) in
    if FLUSH_THRESHOLD <=? batch_bytes c then flushWrites c else c
  | [] => c
  end.
Fixpoint dispatch_loop (fuel : nat) (c : conn) : conn :=
  match fuel, queue c with
  | S f, _ :: _ => if can_dispatch c && negb (hung c) then dispatch_loop f (dispatch_one c) else c
  | _, _ => c
  end.
Definition processQueue (c : conn) : conn :=
  if negb (bool_decide (state c = CReady)) then c
  else if isRetiring c then match inflight c with [] => retire c | _ => c end
  else
    let c := dispatch_loop (length (queue c)) c in
    if microtask cfg && (1 <? pipelineDepth cfg)%nat && (batch_bytes c <? FLUSH_THRESHOLD)
    then set_flushScheduled true c
    else flushWrites c.

(** ** Cancellation *)

Definition pending (p : nat) (c : conn) : PendingCancel := default (mkPending None false false false) (pendings c !! p).
Definition upd_pending (p : nat) (f : PendingCancel -> PendingCancel) (c : conn) : conn := set_pendings (alter f p (pendings c)) c.
Definition no_head (p : PendingCancel) : PendingCancel := mkPending None (isConfirmed p) (hasFailed p) (ptimer p).
Definition confirmed (p : PendingCancel) : PendingCancel := mkPending (phead p) true (hasFailed p) (ptimer p).
Definition failed (p : PendingCancel) : PendingCancel := mkPending (phead p) (isConfirmed p) true (ptimer p).
Definition with_timer (p : PendingCancel) : PendingCancel := mkPending (phead p) (isConfirmed p) (hasFailed p) true.

Definition resolveCanceledHead (p : nat) (c : conn) : conn :=
  let x := pending p c in
  if isRetiring c then c
  else if hasFailed x || (isConfirmed x && isBehindPooler cfg) then processQueue (set_isRetiring true c)
  else if isConfirmed x then processQueue (clearPendingCancel c)
  else c.
Definition is_57014 (t : Task) : bool := bool_decide (t_error t ≫= err_code = Some (js "57014")).
Definition endCanceledHead (id : nat) (c : conn) : conn :=
  match pendingCancel c with
  | None => c
  | Some p =>
    let c := upd_pending p no_head c in
    let isStopped := is_57014 (the id c) in
    let c := if negb isStopped && (0 <? length (inflight c))%nat then set_lateCancel (Some (p, list_to_set (inflight c))) c else c in
    if isRetiring c then c
    else if isStopped then clearPendingCancel (note (CancelUsed p) c)
    else
      let c := resolveCanceledHead p c in
      if bool_decide (pendingCancel c = Some p) && negb (isRetiring c) then upd_pending p with_timer c else c
  end.
Definition late_hint : jstr := js "A cancel request for an earlier query in the pipeline most likely reached the server after that query ended, and it stopped this query. The server rolled this query back, so it can run again.".
Definition mark_late (t : Task) : Task :=
  match t_error t with
  | Some (PgErr f _) => set_t_error (Some (PgErr (<[js "hint" := late_hint]> f) true)) t
  | _ => t
  end.
Definition checkLateCancel (id : nat) (c : conn) : conn :=
  match lateCancel c with
  | None => c
  | Some (p, suspects) =>
    let suspects := suspects ∖ {[id]} in
    let t := the id c in
    let '(suspects, c) :=
      if is_57014 t && negb (t_settled t) then
        let c := upd id mark_late c in
        (∅, if bool_decide (pendingCancel c = Some p) && negb (isRetiring c) then clearPendingCancel (note (CancelUsed p) c) else c)
      else (suspects, c) in
    set_lateCancel (if bool_decide (suspects = ∅) then None else Some (p, suspects)) c
  end.
Definition sendCancelRequest (head : nat) (c : conn) : conn :=
  if bool_decide (backendKey c = None) || negb (hasCancel cfg) then c
  else
    let c := if bool_decide (is_Some (pendingCancel c)) then set_isRetiring true c else c in
    let p := next c in
    note (CancelSent p) (set_pendingCancel (Some p) (set_pendings (<[p := mkPending (Some head) false false false]> (pendings c)) (set_next (S p) c))).
(** The cancel connection was closed by the server, or it failed or timed out. *)
Definition onCancelEnd (ok : bool) (p : nat) (c : conn) : conn :=
  let c := note (if ok then CancelConfirmed p else CancelFailed p) (upd_pending p (if ok then confirmed else failed) c) in
  if bool_decide (pendingCancel c = Some p) && bool_decide (phead (pending p c) = None) then resolveCanceledHead p c else c.
(** The wait for the confirmation is over. *)
Definition onPendingTimer (p : nat) (c : conn) : conn :=
  if ptimer (pending p c) then
    if bool_decide (pendingCancel c = Some p) then processQueue (set_isRetiring true c) else c
  else c.
Definition cancelTask (id : nat) (reason : err) (c : conn) : conn :=
  if t_settled (the id c) then c
  else
    let c := upd id (fun t => set_t_timer false (set_t_settled true t)) c in
    if bool_decide (id ∈ inflight c) then
      let c := rejectTask id reason c in
      if bool_decide (current c = Some id) then
        upd id (set_t_graceTimer true) (if is_copy (t_req (the id c)) then c else sendCancelRequest id c)
      else c
    else
      rejectTask id reason (upd id (set_t_listening false) (set_queue (filter (fun i => i <> id) (queue c)) c)).

(** ** The end of a query *)

Definition cacheStatement (id : nat) (n : jstr) (c : conn) : conn :=
  let t := the id c in
  set_parseInflight (delete n (parseInflight c))
    (set_prepared (<[n := mkPrepared (rsql (t_req t)) (default [] (t_fields t)) (t_paramOids t)]> (prepared c)) c).
(** The error of a cycle that should have described a statement. *)
Definition forget_parse (id : nat) (c : conn) : conn :=
  let t := the id c in
  match t_error t, t_cacheName t with
  | Some _, Some n =>
    if bool_decide (prepared c !! n = None) then
      set_staleStatements ({[n]} ∪ staleStatements c)
        (if bool_decide (parseInflight c !! n = Some (parseKey (t_req t))) then set_parseInflight (delete n (parseInflight c)) c else c)
    else c
  | _, _ => c
  end.
Definition invalidated (e : err) : bool :=
  bool_decide (err_code e = Some (js "0A000")) || bool_decide (err_code e = Some (js "26000")).
Definition for_retry (t : Task) : Task :=
  mkTask (t_req t) [] None (t_mapper t) (t_wire t) None None None (t_cancelled t) (t_cacheName t)
             (if rbinary (t_req t) then t_resultFormat t else None) false None false false (t_settled t) (S (t_retries t))
             (t_listening t) (t_stopped t) (t_outcome t).
Definition retryable (t : Task) (c : conn) : bool :=
  let r := t_req t in
  negb (t_settled t) && negb (is_stream r) && negb (rtyped r) && bool_decide (t_wire t = None)
  && negb (inTransaction c) && (t_retries t <? 1)%nat.
Definition settle_result (id : nat) (c : conn) : conn :=
  let t := the id c in
  if t_settled t then c
  else match t_wire t, t_error t with
       | Some w, None => upd id (settle (Frames w)) c
       | Some w, Some (PgErr _ _) => upd id (settle (Frames w)) c
       | _, Some e => rejectTask id e c
       | None, None =>
         if is_stream (t_req t) then upd id (settle (StreamEnd (t_command t) (t_rowCount t))) c
         else upd id (settle (Resolved (t_rows t) (fname <$> default [] (t_fields t)) (t_rowCount t) (t_command t))) c
       end.
Definition complete (id : nat) (c : conn) : conn :=
  processQueue (settle_result id (upd id (fun t => set_t_timer false (set_t_graceTimer false (set_t_listening false t))) c)).
(** The cancels that the end of [id] decides. *)
Definition late_check (id : nat) (c : conn) : conn :=
  match lateCancel c with Some (_, s) => if bool_decide (id ∈ s) then checkLateCancel id c else c | None => c end.
Definition head_check (id : nat) (c : conn) : conn :=
  match pendingCancel c with
  | Some p => if bool_decide (phead (pending p c) = Some id) then endCanceledHead id c else c
  | None => c
  end.
(** Runs the query again when its prepared statement was invalidated; otherwise answers its caller. *)
Definition retry_or_complete (id : nat) (c : conn) : conn :=
  let t := the id c in
  match named (t_req t), t_error t with
  | Some n, Some e =>
    if invalidated e then
      let c := set_staleStatements ({[n]} ∪ staleStatements c) (set_prepared (delete n (prepared c)) c) in
      if retryable t c then processQueue (set_queue (queue c ++ [id]) (upd id for_retry c)) else complete id c
    else complete id c
  | _, _ => complete id c
  end.
Definition finishTask (c : conn) : conn :=
  match inflight c with
  | [] => processQueue c
  | id :: rest => retry_or_complete id (forget_parse id (head_check id (late_check id (set_inflight rest c))))
  end.

(** ** Rows *)

Definition cell_value (f : Field) (c : option bytes) : res value :=
  match c with None => Ok VNull | Some b => run_decoder (decoderFor (dataTypeOid f) (decoders cfg)) b end.
Definition makeRow (cells : list (option bytes)) (body : bytes) (mode : ResultMode) (fs : list Field) : res value :=
  match mode with
  | MRaw => Ok (VBuf body)
  | MBuffer => Ok (VArr ((fun c => match c with Some b => VBuf b | None => VNull end) <$> cells))
  | MObject => kvs ← mapM (fun fc => v ← cell_value fc.1 fc.2; Ok (fname fc.1, v)) (imap (fun i f => (f, mjoin (cells !! i))) fs);
               Ok (VObj (foldl (fun o kv => set_key kv.1 kv.2 o) [] kvs))
  | _ => vs ← mapM (fun fc => cell_value fc.1 fc.2) (imap (fun i f => (f, mjoin (cells !! i))) fs); Ok (VArr vs)
  end.
Definition row_of (t : Task) (body : bytes) : res value :=
  match t_mapper t with
  | Some m => m body
  | None => cells ← Parser.parseDataRow body; makeRow cells body (rmode (t_req t)) (default [] (t_fields t))
  end.
Definition dataRow (body : bytes) (c : conn) : conn :=
  match current c with
  | None => c
  | Some id =>
    let t := the id c in
    if t_cancelled t || bool_decide (is_Some (t_error t)) || t_settled t then c
    else match row_of t body with
         | Ok row => upd id (set_t_rows (t_rows t ++ [row])) c
         | Throw e => upd id (set_t_error (Some (Thrown e))) c
         | NoFuel => set_hung true c
         end
  end.

(** ** Authentication *)

Definition no_socket : exn := TypeError (js "Cannot read properties of null (reading 'write')").
Definition send_now (b : res bytes) : M conn unit :=
  x ← lift b; live ← gets socket; if (live : bool) then modify (write_now [MHandshake x]) else throw no_socket.
Fixpoint readCstrings (fuel : nat) (body : bytes) (i : Z) : list jstr :=
  match fuel with
  | O => []
  | S f =>
    if negb (i <? blen body) || bool_decide (at_ body i = Some 0) then []
    else
      let z := indexOf body 0 i in
      let e := if z =? -1 then blen body else z in
      utf8_decode (subarray body i e) :: readCstrings f body (e + 1)
  end.
Definition fail_fatal (m : jstr) : M conn unit := modify (failAttempt (fatal_error m)).
Definition exn_message (e : exn) : jstr := match e with Error m | TypeError m => m | _ => [] end.
(** A method of a SCRAM state that is not there. *)
Definition no_scram : exn := TypeError (js "Cannot read properties of undefined").
(** [rnd]: what randomBytes returns if it is called. *)
Definition auth (rnd : bytes) (body : bytes) : M conn unit :=
  code ← lift (readInt32BE body 0);
  let text := utf8_decode (drop 4 body) in
  if code =? 0 then mret tt
  else if code =? 3 then send_now (W.password (password cfg))
  else if code =? 5 then send_now (W.password (md5Password (user cfg) (password cfg) (subarray body 4 8)))
  else if code =? 10 then
    let mechs := readCstrings (length body) (drop 4 body) 0 in
    if negb (bool_decide (js "SCRAM-SHA-256" ∈ mechs)) then fail_fatal (js "unsupported SASL mechanisms: " ++ join (js ", ") mechs)
    else match scramForChannel rnd (password cfg) mechs (channelBinding cfg) (certDer cfg) with
         | Ok s => _ ← modify (set_scramState (Some s)); send_now (W.saslInitial (mechanism s) (clientFirst s))
         | Throw e => fail_fatal (exn_message e)
         | NoFuel => mret tt
         end
  else if code =? 11 then
    s ← gets scramState;
    match s with
    | None => throw no_scram
    | Some s => let '(s', r) := continue_ text s in
                _ ← modify (set_scramState (Some s')); cf ← lift r; send_now (W.saslResponse cf)
    end
  else if code =? 12 then
    s ← gets scramState;
    match s with
    | None => fail_fatal (exn_message no_scram)
    | Some s => match Auth.final s text with Ok _ => mret tt | Throw e => fail_fatal (exn_message e) | NoFuel => mret tt end
    end
  else fail_fatal (js "unsupported authentication request: " ++ show_Z code).

Definition ready (body : bytes) (c : conn) : conn :=
  let c := set_txStatus (default 73 (head body)) c in
  if connecting c then
    processQueue (set_loop NoLoop (set_state CReady (set_everConnected true (set_connecting false c))))
  else finishTask c.

(** ** Backend messages *)

(** b.toString('utf8', start, stop): nothing when the range is empty or its end negative. *)
Definition text_at (b : bytes) (start stop : Z) : jstr := if stop <=? start then [] else utf8_decode (subarray b start stop).
Definition no_copy_in : wmsg := MCopyFail (js "use copyFrom() for COPY FROM STDIN").
Definition no_copy_both : wmsg := MCopyFail (js "CopyBoth is not supported by minipg").
Definition no_copy_out : err := plain_error (js "minipg: this statement is COPY " ++ [8230] ++ js " TO STDOUT " ++ [8212] ++ js " use copyTo() (a plain query() cannot return the copy payload and would silently discard it)").

Definition describe_row (id : nat) (body : bytes) : M conn unit :=
  fs ← lift (Parser.parseRowDescription body);
  _ ← modify (upd id (set_t_fields (Some fs)));
  t ← gets (the id);
  let r := t_req t in
  let cache := match t_cacheName t with Some n => modify (cacheStatement id n) | None => mret tt end in
  let try_assign (cols : list CodegenCol) : M conn unit := fun c =>
    match assignMapper id cols c with
    | (c', Throw e) => (upd id (set_t_error (Some (Thrown e))) c', Ok tt)
    | x => x
    end in
  match t_wire t with
  | Some _ => cache
  | None =>
    _ ← (if rtyped r then
           match rshapeCols r, t_mapper t with
           | Some cols, None => try_assign (mergeUnknown cols fs)
           | _, _ => mret tt
           end
         else try_assign (field_col (fun _ => rbinary r) <$> fs));
    cache
  end.
Definition with_current (f : nat -> M conn unit) : M conn unit :=
  h ← gets current; match h with Some id => f id | None => mret tt end.
Definition is_char (c : Z) (s : string) : bool := bool_decide ([c] = js s).
Definition handle (rnd : bytes) (m : RawMessage) : M conn unit :=
  let type := mtype m in let body := mbody m in
  w ← gets (fun c => match current c with Some id => t_wire (the id c) | None => None end);
  let wired := bool_decide (is_Some w) in
  _ ← (if wired && (is_char type "T" || is_char type "D" || is_char type "C" || is_char type "E" || is_char type "I")
       then with_current (fun id => modify (upd id (fun t => set_t_wire ((fun b => b ++ type :: be 4 (blen body + 4) ++ body) <$> t_wire t) t)))
       else mret tt);
  if is_char type "R" then auth rnd body
  else if is_char type "S" then
    let z := indexOf body 0 0 in
    modify (fun c => set_serverParams (<[text_at body 0 z := text_at body (z + 1) (indexOf body 0 (z + 1))]> (serverParams c)) c)
  else if is_char type "K" then
    pid ← lift (readInt32BE body 0); secret ← lift (readInt32BE body 4); modify (set_backendKey (Some (pid, secret)))
  else if is_char type "Z" then modify (ready body)
  else if is_char type "G" then
    c ← get;
    if match current c with Some id => is_copy (t_req (the id c)) | None => false end then mret tt
    else modify (write_now [no_copy_in; MSync])
  else if is_char type "W" then modify (write_now [no_copy_both; MSync])
  else if is_char type "H" then
    with_current (fun id => modify (upd id (fun t =>
      if bool_decide (rkind (t_req t) = KCopyTo) || bool_decide (is_Some (t_error t)) then t else set_t_error (Some no_copy_out) t)))
  else if is_char type "d" then
    with_current (fun id => modify (upd id (fun t =>
      if bool_decide (rkind (t_req t) = KCopyTo) && negb (t_cancelled t) && negb (bool_decide (is_Some (t_error t))) && negb (t_settled t)
      then set_t_rows (t_rows t ++ [VBuf body]) t else t)))
  else if is_char type "t" then
    with_current (fun id => os ← lift (Parser.parseParameterDescription body); modify (upd id (set_t_paramOids (Some os))))
  else if is_char type "T" then with_current (fun id => describe_row id body)
  else if is_char type "n" then
    with_current (fun id =>
      _ ← modify (upd id (set_t_fields (Some [])));
      t ← gets (the id);
      match t_cacheName t with Some n => modify (cacheStatement id n) | None => mret tt end)
  else if is_char type "D" then (if wired then mret tt else modify (dataRow body))
  else if is_char type "C" then
    if wired then mret tt
    else with_current (fun id => modify (upd id (fun t =>
           let tag := firstCstr body in set_t_rowCount (tag_rows tag) (set_t_command (Some (tag_command tag)) t))))
  else if is_char type "E" then
    fs ← lift (parseErrorFields body);
    let e := PgErr (PgError fs) false in
    c ← get;
    if connecting c then modify (failAttempt e) else with_current (fun id => modify (upd id (set_t_error (Some e))))
  else mret tt.
(** The messages of a chunk; an exception of a handler takes the connection down, and the rest is not read. *)
Fixpoint handle_all (rnd : bytes) (ms : list RawMessage) (c : conn) : conn :=
  match ms with
  | [] => c
  | m :: t =>
    match handle rnd m c with
    | (c', Ok _) => if hung c' then c' else handle_all rnd t c'
    | (c', Throw e) => onSocketDown (Thrown e) c'
    | (c', NoFuel) => set_hung true c'
    end
  end.
Definition onData (rnd chunk : bytes) (c : conn) : conn :=
  let '(b, r) := Parser.push chunk (parser c) in
  let c := set_parser b c in
  match r with
  | Ok ms => handle_all rnd ms c
  | Throw e => onSocketDown (Thrown e) c
  | NoFuel => set_hung true c
  end.

(** ** Establishing *)

Definition no_transport : err := fatal_error (js "no transport: import from minipg/node (net/tls), or pass config.transport or config.socket").
Definition establish (c : conn) : conn :=
  let c := set_attempt None (set_scramState None (set_parser []
             (set_state (if everConnected c then CReconnecting else CConnecting) (set_connecting true c)))) in
  if hasTransport cfg then c else failAttempt no_transport c.
Definition connect (c : conn) : conn := if connectPromise c then c else establish (set_connectPromise true c).
Definition startup_params : list (jstr * option jstr) :=
  [(js "user", Some (user cfg)); (js "database", Some (database cfg)); (js "application_name", Some (applicationName cfg));
   (js "client_encoding", Some (js "UTF8")); (js "options", startup_options cfg);
   (js "statement_timeout", show_Z <$> statementTimeout cfg);
   (js "idle_in_transaction_session_timeout", show_Z <$> idleInTransactionSessionTimeout cfg)].
Definition onTransport (c : conn) : conn :=
  if negb (connecting c) then c
  else
    let c := set_wire [] (set_writeBackedUp false (set_socket true c)) in
    match W.startup startup_params with Ok b => write_now [MHandshake b] c | _ => c end.
(** What waits for a failed attempt: connect(), or the reconnect loop. *)
Definition onAttempt (c : conn) : conn :=
  match attempt c with
  | None => c
  | Some e =>
    let c := set_attempt None c in
    match loop c with
    | Attempting n _ =>
      if isFatalAuth (err_fault e) then rejectQueue e (set_state CClosed (set_loop NoLoop c))
      else reconnect_round (S n) e c
    | _ => if everConnected c then c else rejectQueue e (set_state CClosed c)
    end
  end.
Definition onBackoff (c : conn) : conn :=
  match loop c with
  | Sleeping n e =>
    if ended c || bool_decide (state c = CClosed) then set_loop NoLoop c else establish (set_loop (Attempting n e) c)
  | _ => c
  end.
Definition connect_timeout : err := plain_error (js "connect timeout after " ++ show_Z (connectTimeout cfg) ++ js "ms").
Definition onClose (e : option err) (c : conn) : conn :=
  if socket c
  then set_writeBackedUp false (onSocketDown (default (plain_error (js "connection terminated unexpectedly")) e) c)
  else c.
Definition onDrain (c : conn) : conn := if writeBackedUp c then processQueue (set_writeBackedUp false c) else c.
Definition onMicrotask (c : conn) : conn := flushWrites (set_flushScheduled false c).
Definition ended_error : err := plain_error (js "connection ended (end() called)").
Definition end_ (c : conn) : conn :=
  if bool_decide (state c = CClosed) then c
  else
    let c := set_state CClosed (write_now [MTerminate] (set_ended true c)) in
    let c := if connecting c then set_attempt (Some ended_error) (set_connecting false c) else c in
    note SocketDown (set_socket false (clearPendingCancel (settlePending ended_error c))).

(** ** The query API *)

Definition closed_error : err := plain_error (js "connection is closed").
Definition add_task (t : Task) (c : conn) : conn := set_next (S (next c)) (set_tasks (<[next c := t]> (tasks c)) c).
Definition reject_new (e : err) : conn -> conn := add_task (settle (Rejected e) (new_task no_request)).
(** [signal]: no signal, one that is already aborted, or one to listen to. *)
Definition submit (t : Task) (signal : option (option Z)) (c : conn) : conn :=
  match signal with
  | Some (Some reason) => add_task (settle (Rejected (Reason reason)) (set_t_settled true t)) c
  | s =>
    let id := next c in
    let c := add_task (set_t_listening (bool_decide (is_Some s)) t) c in
    processQueue (set_queue (queue c ++ [id]) c)
  end.

Inductive shape_arg := ShapeOf (entries_form : bool) (spec : list (jstr * ShapeValue)) | ShapeMapper (cols : list CodegenCol).
Record QueryOptions := mkQueryOptions {
  o_name : option jstr; o_mode : option ResultMode; o_params : option (list ParamType); o_shape : option shape_arg;
  o_binary : bool; o_timeout : option Z; o_signal : option (option Z) }.
Definition mismatch (n m : nat) : exn :=
  Error (js "minipg: " ++ show_Z (Z.of_nat n) ++ js " param value(s) but " ++ show_Z (Z.of_nat m) ++ js " type(s) declared in params:["
         ++ [8230] ++ js "] " ++ [8212] ++ js " they must match one-to-one").
Definition wire_options : exn := Error (js "minipg: mode:'wire' returns undecoded backend frames " ++ [8212]
  ++ js " shape/binary decode options don't apply (and binary would make the frames lie about their format)").
Definition shape_columns (s : shape_arg) : res (list CodegenCol) :=
  match s with ShapeOf form spec => shapeCols form spec | ShapeMapper cols => Ok cols end.
Definition bool_res (b : bool) (e : exn) : res unit := if b then Throw e else Ok tt.
Definition query_task (sql : jstr) (params : list value + RawParams) (o : QueryOptions) : res Task :=
  let name := if prepare cfg then o_name o else None in
  let mode := default (if o_shape o then MObject else MArray) (o_mode o) in
  let '(vs, raw) := match params with inl vs => (vs, None) | inr r => ([], Some r) end in
  let nParams := match raw with Some r => length (rvalues r) | None => length vs end in
  _ ← match o_params o with
      | Some ts => bool_res (negb (length ts =? nParams)%nat) (mismatch nParams (length ts))
      | None => Ok tt
      end;
  types ← match o_params o with Some ts => Some <$> resolveParamTypes ts | None => Ok None end;
  let request typed sc bin := mkRequest sql vs raw name mode KQuery typed sc bin types (o_timeout o) in
  match mode with
  | MWire => _ ← bool_res (bool_decide (is_Some (o_shape o)) || o_binary o) wire_options; Ok (new_task (request false None false))
  | _ =>
    match o_shape o with
    | Some s =>
      cols0 ← shape_columns s;
      let cols := resolveCols cols0 in
      let rf := Some (formats cols) in
      if existsb (fun c => oid c =? 0) cols
      then Ok (set_t_resultFormat rf (new_task (request true (Some cols) false)))
      else m ← getMapper cols mode; Ok (set_t_resultFormat rf (set_t_mapper m (new_task (request true None false))))
    | None =>
      Ok (if o_binary o then set_t_resultFormat (Some (OneFormat 1)) (new_task (request false None true))
          else new_task (request false None false))
    end
  end.
Definition open_task (t : res Task) (signal : option (option Z)) (c : conn) : conn :=
  if bool_decide (state c = CClosed) then reject_new closed_error c
  else match t with
       | Ok t => submit t signal c
       | Throw e => reject_new (Thrown e) c
       | NoFuel => set_hung true c
       end.
Definition query (sql : jstr) (params : list value + RawParams) (o : QueryOptions) : conn -> conn :=
  open_task (query_task sql params o) (o_signal o).
Definition queryTyped (sql : jstr) (params : list value) (columns : list CodegenCol) (mode : option ResultMode) (timeout : option Z)
    (signal : option (option Z)) : conn -> conn :=
  let mode := default MObject mode in
  let cols := resolveCols columns in
  open_task (m ← getMapper cols mode;
             Ok (set_t_resultFormat (Some (formats cols)) (set_t_mapper m
                   (new_task (mkRequest sql params None None mode KQuery true None false None timeout))))) signal.
Definition plain_task (k : Kind) (sql : jstr) (params : list value) (name : option jstr) (mode : ResultMode) (timeout : option Z) : Task :=
  new_task (mkRequest sql params None name mode k false None false None timeout).
Definition copyFrom (sql : jstr) (timeout : option Z) (signal : option (option Z)) : conn -> conn :=
  open_task (Ok (plain_task KCopyFrom sql [] None MArray timeout)) signal.
Definition stream (sql : jstr) (params : list value) (name : option jstr) (mode : option ResultMode) (timeout : option Z)
    (signal : option (option Z)) : conn -> conn :=
  open_task (Ok (plain_task KStream sql params name (default MArray mode) timeout)) signal.
Definition copyTo (sql : jstr) (timeout : option Z) (signal : option (option Z)) : conn -> conn :=
  open_task (Ok (plain_task KCopyTo sql [] None MArray timeout)) signal.
Definition closed_early (k : Kind) : err :=
  plain_error (match k with KCopyTo => js "copy closed early" | _ => js "stream closed early" end).
(** return() of the iterator of a stream or copyTo. *)
Definition return_ (id : nat) (c : conn) : conn :=
  let running := bool_decide (t_outcome (the id c) = None :> option outcome) in
  let c := upd id (set_t_cancelled true) c in
  if running && negb (inTransaction c) then cancelTask id (closed_early (rkind (t_req (the id c)))) c else c.

(** ** Events *)

Inductive event :=
| EConnect | ETransport | ETransportFailed (e : err) | EConnTimeout | EAttempt | EBackoff
| EData (rnd chunk : bytes) | EClose (e : option err) | EDrain | EMicrotask | EFull (b : bool)
| EQuery (sql : jstr) (params : list value + RawParams) (o : QueryOptions)
| EQueryTyped (sql : jstr) (params : list value) (columns : list CodegenCol) (mode : option ResultMode) (timeout : option Z) (signal : option (option Z))
| ECopyFrom (sql : jstr) (timeout : option Z) (signal : option (option Z))
| EStream (sql : jstr) (params : list value) (name : option jstr) (mode : option ResultMode) (timeout : option Z) (signal : option (option Z))
| ECopyTo (sql : jstr) (timeout : option Z) (signal : option (option Z))
| ETimeout (id : nat) | EAbort (id : nat) (reason : Z) | EGrace (id : nat)
| ECancelEnd (ok : bool) (p : nat) | EPendingTimer (p : nat) | EReturn (id : nat) | EEnd.
Definition timed_out (ms : Z) : err :=
  Failure_ (mkFault (Some (js "QUERY_TIMEOUT")) (Some (js "query timed out after " ++ show_Z ms ++ js "ms")) (Some (js "Error")) false).
Definition step (ev : event) (c : conn) : conn :=
  if hung c then c
  else match ev with
       | EConnect => connect c
       | ETransport => onTransport c
       | ETransportFailed e => failAttempt e c
       | EConnTimeout => failAttempt connect_timeout c
       | EAttempt => onAttempt c
       | EBackoff => onBackoff c
       | EData rnd chunk => if socket c then onData rnd chunk c else c
       | EClose e => onClose e c
       | EDrain => onDrain c
       | EMicrotask => if flushScheduled c then onMicrotask c else c
       | EFull b => set_full b c
       | EQuery sql ps o => query sql ps o c
       | EQueryTyped sql ps cols m t s => queryTyped sql ps cols m t s c
       | ECopyFrom sql t s => copyFrom sql t s c
       | EStream sql ps n m t s => stream sql ps n m t s c
       | ECopyTo sql t s => copyTo sql t s c
       | ETimeout id => if t_timer (the id c) then cancelTask id (timed_out (default 0 (rtimeout (t_req (the id c))))) c else c
       | EAbort id r => if t_listening (the id c) then cancelTask id (Reason r) (upd id (set_t_listening false) c) else c
       | EGrace id => upd id (set_t_graceTimer false) c
       | ECancelEnd ok p =>
         if bool_decide (is_Some (pendings c !! p)) && negb (isConfirmed (pending p c)) && negb (hasFailed (pending p c))
         then onCancelEnd ok p c else c
       | EPendingTimer p => onPendingTimer p c
       | EReturn id => if bool_decide (is_Some (tasks c !! id)) then return_ id c else c
       | EEnd => end_ c
       end.
Definition run_events (evs : list event) (c : conn) : conn := foldl (fun c ev => step ev c) c evs.
Definition initial : conn :=
  mkConn CIdle 73 ∅ None false [] [] [] ∅ [] false false ∅ ∅ ∅ None None ∅ false None false false false None NoLoop false false false [] [] 0 false.
End Connection.
