(* ===== verification/ConnDemo.v ===== *)
(** * Sessions with a server, for the examples of Connection

    A configuration, the events of a session and the bytes that a server answers with; every field of the
    configuration is a concrete function, and the server's messages are made by the encoders that the parsers are proved against. *)

From S2P Require Import Prelude Utf8 Text Buf Num Dates Value NumText Faults Auth Json JsonBig ExtTypes JsonSpec JsonScan ArrayText Temporal Protocol Framing Messages Parse Errors Encode Decode Mapper Spec Connection.

Definition demo_env : Env :=
  {| reg := Registry.init; user_decoder := fun _ b => Ok (VBuf b); jsonSourceSupported := true; Date_parse := fun _ => None |}.
#[local] Existing Instances demo_env zero_alloc demo_crypto.

Definition demo_config (pooler : bool) : Config := mkConfig (js "u") (js "p") (js "d") (js "minipg") None None None 30000 true true 100 true false
  defaultDecoders BINARY_FAST true jitMapper false None pooler true true CbPrefer None.
Definition demo_cfg : Config := demo_config false.
Definition server (t : string) (b : bytes) : bytes := frame_bytes (mkMsg (hd 0 (js t)) b).
Definition server_error (code : string) : bytes := server "E" (error_body [(67, js code); (77, js "m")]).
Definition ready_for_query : bytes := server "Z" (js "I").
Definition described : bytes := server "t" [0; 0] ++ server "T" (row_description [mkField (js "a") 0 0 23 4 (-1) 0]).
Definition completed : bytes := server "C" (js "SELECT 0" ++ [0]).
Definition answers (bs : list bytes) : event := EData [] (concat bs).
Definition named_query (n sql : string) : event := EQuery (js sql) (inl []) (mkQueryOptions (Some (js n)) None None None false None None).
Definition handshake : list event :=
  [EConnect; ETransport; answers [server "R" [0;0;0;0]; server "K" [0;0;0;1;0;0;0;2]; ready_for_query]].
Abbreviation demo_run evs := (@run_events demo_env zero_alloc demo_crypto demo_cfg evs initial).
Definition kind_of (m : wmsg) : string :=
  match m with
  | MHandshake _ => "handshake" | MClose _ => "Close" | MParse _ _ _ => "Parse" | MDescribe _ => "Describe" | MRun _ _ _ => "Run"
  | MQuery _ => "Query" | MCopyFail _ => "CopyFail" | MSync => "Sync" | MTerminate => "Terminate"
  end.

(** Two queries of one statement, answered one after the other. *)
Definition two_queries : list event :=
  handshake ++ [named_query "n" "s"; EMicrotask; answers [described; completed; ready_for_query]; named_query "n" "s"; EMicrotask].
Example two_queries_wire : kind_of <$> wire (demo_run two_queries) = ["handshake"; "Parse"; "Describe"; "Run"; "Run"]%string.
Proof. vm_compute. reflexivity. Qed.
