(* ===== verification/ConnProofs.v ===== *)
(** * A connection loses no caller (src/connection.ts)

    [weak] is what holds of a connection at every point of a handler, [strong] what holds between
    handlers. Together they say that every task is queued, in flight or settled, and that
    whatever a queued task waits for is going to happen. *)

From S2P Require Import Prelude Utf8 Text Buf Num Dates Value NumText Faults Auth Json JsonBig ExtTypes JsonSpec JsonScan ArrayText Temporal Protocol Framing Messages Errors Encode Decode Mapper Spec Connection.

(** ** Handlers written in the monad *)

Record stable {A} (P : conn -> Prop) (m : M conn A) : Prop := Stable { stable_run : forall c, P c -> P (m c).1 }.

Lemma stable_ret {A} P (a : A) : stable P (mret a).
Proof. by constructor. Qed.
Lemma stable_bind {A B} P (m : M conn A) (f : A -> M conn B) : stable P m -> (forall a, stable P (f a)) -> stable P (m ≫= f).
Proof.
  intros [Hm] Hf. constructor. intros c Hc. unfold mbind, M_bind. specialize (Hm c Hc). destruct (m c) as [c' [a|e|]]; [|done..]. by apply (stable_run _ _ (Hf a)).
Qed.
Lemma stable_gets {A} P (f : conn -> A) : stable P (gets f).
Proof. by constructor. Qed.
Lemma stable_get P : stable P get.
Proof. by constructor. Qed.
Lemma stable_lift {A} P (r : res A) : stable P (lift r).
Proof. by constructor. Qed.
Lemma stable_throw {A} P e : stable (A := A) P (throw e).
Proof. by constructor. Qed.
Lemma stable_modify P f : (forall c, P c -> P (f c)) -> stable P (modify f).
Proof. by constructor. Qed.
Lemma stable_ext {A} P (m m' : M conn A) : (forall c, m c = m' c) -> stable P m -> stable P m'.
Proof. intros E [Hm]. constructor. intros c Hc. rewrite <- E. by apply Hm. Qed.

(** Breaks a monadic body into its [modify]s. *)
Ltac stable_step :=
  first [ apply stable_ret | apply stable_gets | apply stable_get | apply stable_lift | apply stable_throw
        | apply stable_bind; [|intros ?] | apply stable_modify; intros ? ?
        | progress cbv zeta
        | match goal with |- stable _ (match ?x with _ => _ end) => destruct x end ].

(** An update of a task that its caller cannot see. *)
Definition benign (f : Task -> Task) : Prop :=
  forall t, t_req (f t) = t_req t /\ t_outcome (f t) = t_outcome t /\ t_settled (f t) = t_settled t /\ t_retries (f t) = t_retries t.
Ltac benign := intros ?; repeat case_match; repeat split; done.

Section Connection.
Context `{Env, Alloc, Crypto} (cfg : Config).
(** [live]: connect() is known to have been called. *)
Context (live : bool).

(** ** The invariant inside handlers *)

(** A connection that is not closed serves its queue, waits for connect() to be called, or tries to connect. *)
Definition waiting (st : ConnState) (cn : bool) (att : option err) (lp : ReconnectLoop) (cp : bool) : Prop :=
  st = CReady \/ (st = CIdle /\ cp = false) \/ cn = true \/ is_Some att \/ exists n e, lp = Sleeping n e.

Definition pending_in (pd : gmap nat PendingCancel) (p : nat) : PendingCancel := default (mkPending None false false false) (pd !! p).
(** Every task is accounted for. [X]: tasks in the hands of a handler, in neither list. *)
Record accounted (X q inf : list nat) (tk : gmap nat Task) (nx : nat) (hg : bool)
    (pc : option nat) (pd : gmap nat PendingCancel) : Prop := {
  w_nodup : NoDup (X ++ q ++ inf);
  w_dom : forall id, id ∈ X ++ q ++ inf -> is_Some (tk !! id);
  w_all : hg = false -> forall id t, tk !! id = Some t -> id ∈ X ++ q ++ inf \/ is_Some (t_outcome t);
  w_settled : forall id t, tk !! id = Some t -> t_settled t = true -> is_Some (t_outcome t);
  w_fresh : forall id, is_Some (tk !! id) -> (id < nx)%nat;
  w_heads : forall p h t, pc = Some p -> phead (pending_in pd p) = Some h -> tk !! h = Some t -> t_settled t = true }.
Definition acct (X : list nat) (c : conn) : Prop := accounted X (queue c) (inflight c) (tasks c) (next c) (hung c) (pendingCancel c) (pendings c).

(** The life of the socket, the reconnect loop and the cancel in progress. [Y]: queries that a handler has taken
    off the pipeline and that the cancel may still be for; [ex]: the handler is about to decide on the cancel
    whose query has ended. *)
Definition cancel_waits (inf : list nat) (ex ir : bool) (x : PendingCancel) : Prop :=
  (exists h, phead x = Some h /\ h ∈ inf) \/ (phead x = None /\ (ir = true \/ ex = true \/ ptimer x = true)).
Record phases (Y : list nat) (ex : bool) (st : ConnState) (q inf : list nat) (nx : nat) (cn : bool) (att : option err)
    (lp : ReconnectLoop) (en ev cp : bool) (pc : option nat) (pd : gmap nat PendingCancel) (ir : bool) (ob : list (wmsg * bytes)) (sk : bool) : Prop := {
  w_inflight : inf <> [] -> st = CReady;
  w_queue : q <> [] -> st <> CClosed;
  w_conn : cn = true -> (st = CConnecting \/ st = CReconnecting) /\ ((exists n e, lp = Attempting n e) \/ ev = false) /\ att = None /\ cp = true;
  w_attempt : is_Some att -> st <> CReady /\ cp = true /\
    ((exists n e, lp = Attempting n e) \/ ev = false \/ (exists n e, lp = Sleeping n e) \/ st = CClosed);
  w_loop : lp <> NoLoop -> cp = true /\ st <> CReady /\ (en = true -> st = CClosed);
  w_cancel : forall p, pc = Some p -> st = CReady /\ cancel_waits (Y ++ inf) ex ir (pending_in pd p);
  w_pending : forall p, is_Some (pd !! p) -> (p < nx)%nat;
  w_calm : st <> CReady -> ob = [] /\ ir = false;
  w_promise : st = CReady \/ sk = true \/ ev = true -> cp = true;
  w_known : forall p, pc = Some p -> is_Some (pd !! p);
  w_live : live = true -> cp = true;
  w_wait : st <> CClosed -> waiting st cn att lp cp }.
Definition phase (Y : list nat) (ex : bool) (c : conn) : Prop :=
  phases Y ex (state c) (queue c) (inflight c) (next c) (connecting c) (attempt c) (loop c) (ended c)
     (everConnected c) (connectPromise c) (pendingCancel c) (pendings c) (isRetiring c) (outbuf c) (socket c).
Definition weak (X Y : list nat) (ex : bool) (c : conn) : Prop := acct X c /\ phase Y ex c.

(** ** Updates of tasks *)

(** An update that takes no outcome away, and settles only with one. *)
Definition keeps_outcome (f : Task -> Task) : Prop :=
  forall t, (is_Some (t_outcome t) -> is_Some (t_outcome (f t))) /\
            (t_settled (f t) = true -> t_settled t = true \/ is_Some (t_outcome (f t))) /\
            (t_settled t = true -> t_settled (f t) = true).
Lemma benign_keeps f : benign f -> keeps_outcome f.
Proof. intros Hf t. destruct (Hf t) as (_ & Eo & Es & _). rewrite Eo, Es. auto. Qed.

Lemma upd_acct X id f c : keeps_outcome f -> acct X c -> acct X (upd id f c).
Proof.
  intros Hf [Hn Hd Ha Hs Hfr Hhd]. unfold acct, upd. cbn. split; try done.
  - intros i Hin. apply lookup_alter_is_Some. auto.
  - intros Hh i t Et. apply lookup_alter_Some in Et as [(-> & t0 & E0 & ->)|[Hne E0]]; [|by eapply Ha].
    destruct (Ha Hh _ _ E0); [by left|right]. by apply Hf.
  - intros i t Et Hst. apply lookup_alter_Some in Et as [(-> & t0 & E0 & ->)|[Hne E0]]; [|by eapply Hs].
    destruct (proj1 (proj2 (Hf t0)) Hst) as [Hst'|?]; [|done]. apply Hf. by eapply Hs.
  - intros i Hi'. apply Hfr. by apply lookup_alter_is_Some in Hi'.
  - intros p h t Ep Eh Et. apply lookup_alter_Some in Et as [(-> & t0 & E0 & ->)|[Hne E0]]; [apply Hf|]; by eapply Hhd.
Qed.
Lemma upd_weak X Y ex id f c : keeps_outcome f -> weak X Y ex c -> weak X Y ex (upd id f c).
Proof. intros Hf [Ha Hp]. split; [by apply upd_acct|exact Hp]. Qed.
Lemma benign_weak X Y ex id f c : benign f -> weak X Y ex c -> weak X Y ex (upd id f c).
Proof. intros Hf. by apply upd_weak, benign_keeps. Qed.

Lemma settle_outcome o t : is_Some (t_outcome (settle o t)).
Proof. unfold settle. destruct (t_outcome t) eqn:E; [by rewrite E|done]. Qed.
Lemma settle_settled o t : t_settled (settle o t) = t_settled t.
Proof. unfold settle. by destruct (t_outcome t). Qed.
Lemma settle_keeps o f : (forall t, t_settled t = true -> t_settled (f t) = true) -> keeps_outcome (fun t => settle o (f t)).
Proof. intros Hf t. split; [intros _; apply settle_outcome|]. split; [intros _; right; apply settle_outcome|]. rewrite settle_settled. apply Hf. Qed.
Lemma reject_acct X id e c : acct X c -> acct X (rejectTask id e c).
Proof. apply upd_acct. by apply (settle_keeps (Rejected e) (set_t_stopped true)). Qed.
Lemma the_upd id f c t : tasks c !! id = Some t -> tasks (upd id f c) !! id = Some (f t).
Proof. intros E. unfold upd. cbn. by rewrite lookup_alter_eq, E. Qed.

(** A task leaves the hands of a handler once it has an outcome. *)
Definition settled_in (id : nat) (c : conn) : Prop := forall t, tasks c !! id = Some t -> is_Some (t_outcome t).
Lemma acct_done X id c : acct (id :: X) c -> settled_in id c -> acct X c.
Proof.
  intros [Hn Hd Ha Hs Hfr Hhd] Ho. split; try done.
  - by apply NoDup_cons in Hn as [_ ?].
  - intros i Hin. apply Hd. by right.
  - intros Hh i t Et. destruct (Ha Hh _ _ Et) as [Hin|?]; [|by right].
    cbn in Hin. apply elem_of_cons in Hin as [->|Hin]; [right; by apply Ho|by left].
Qed.
Lemma reject_settles id e c : settled_in id (rejectTask id e c).
Proof.
  intros t E. unfold rejectTask, upd in E. cbn in E. apply lookup_alter_Some in E as [(_ & t0 & _ & ->)|[? _]]; [|done]. apply settle_outcome.
Qed.
Lemma reject_done X id e c : acct (id :: X) c -> acct X (rejectTask id e c).
Proof. intros Ha. eapply acct_done; [by apply reject_acct|apply reject_settles]. Qed.

Lemma the_settled X id c t : acct X c -> tasks c !! id = Some t -> t_settled (the id c) = true -> is_Some (t_outcome t).
Proof. intros Ha E. unfold the. rewrite E. cbn. by apply (w_settled _ _ _ _ _ _ _ _ Ha id). Qed.
Lemma benign_settled id f c : benign f -> t_settled (the id (upd id f c)) = t_settled (the id c).
Proof.
  intros Hf. unfold the, upd. cbn. rewrite lookup_alter_eq. destruct (tasks c !! id) as [t|]; [|done]. cbn. apply Hf.
Qed.
(** Settles unless the caller was answered already. *)
Lemma unless_settled X id f e c : benign f -> acct (id :: X) c ->
  acct X (let c' := upd id f c in if t_settled (the id c) then c' else rejectTask id e c').
Proof.
  intros Hf Ha. cbv zeta. assert (acct (id :: X) (upd id f c)) as Ha' by (by apply upd_acct, Ha; apply benign_keeps).
  destruct (t_settled (the id c)) eqn:Es; [|by apply reject_done]. apply (acct_done _ id); [done|].
  intros t Et. eapply the_settled; [exact Ha'|exact Et|]. by rewrite benign_settled.
Qed.
Lemma fail_inflight_done X id e c : acct (id :: X) c -> acct X (fail_inflight e id c).
Proof. intros Ha. unfold fail_inflight. apply (unless_settled X id (fun t => set_t_timer false (set_t_graceTimer false (set_t_listening false t)))); [benign|done]. Qed.
Lemma settle_queued_done X id e c : acct (id :: X) c -> acct X (settle_queued e id c).
Proof. intros Ha. unfold settle_queued. apply (unless_settled X id (set_t_listening false)); [benign|done]. Qed.

Lemma fold_done X (f : nat -> conn -> conn) l c :
  (forall Y id c, acct (id :: Y) c -> acct Y (f id c)) -> acct (l ++ X) c -> acct X (foldl (fun c id => f id c) c l).
Proof. intros Hf. revert c. induction l as [|id l IH]; intros c Hc; [done|]. cbn. by apply IH, Hf. Qed.
Lemma accounted_perm X X' q q' i i' tk nx hg pc pd : X ++ q ++ i ≡ₚ X' ++ q' ++ i' ->
  accounted X q i tk nx hg pc pd -> accounted X' q' i' tk nx hg pc pd.
Proof.
  intros E [Hn Hd Ha Hs Hf Hhd]. split; try done; [by rewrite <- E|..].
  - intros id. rewrite <- E. apply Hd.
  - intros Hh id t. rewrite <- E. by apply Ha.
Qed.
Abbreviation acct' X q i c := (accounted X q i (tasks c) (next c) (hung c) (pendingCancel c) (pendings c)).
Lemma acct_perm X X' q q' i i' c : X ++ q ++ i ≡ₚ X' ++ q' ++ i' -> acct' X q i c -> acct' X' q' i' c.
Proof. apply accounted_perm. Qed.
Lemma reject_inflight_acct X e c : acct X c -> acct X (reject_inflight e c).
Proof.
  intros Ha. unfold reject_inflight. apply fold_done; [intros; by apply fail_inflight_done|]. unfold acct. cbn.
  eapply acct_perm; [|exact Ha]. rewrite app_nil_r, <- app_assoc, (app_assoc X). apply Permutation_app_comm.
Qed.
Lemma rejectQueue_acct X e c : acct X c -> acct X (rejectQueue e c).
Proof.
  intros Ha. unfold rejectQueue. apply fold_done; [intros; by apply reject_done|]. unfold acct. cbn.
  eapply acct_perm; [|exact Ha]. cbn [app]. by rewrite app_assoc, (Permutation_app_comm X).
Qed.
Lemma settleQueue_acct X e c : acct X c -> acct X (foldl (fun c id => settle_queued e id c) (set_queue [] c) (queue c)).
Proof.
  intros Ha. apply fold_done; [intros; by apply settle_queued_done|]. unfold acct. cbn.
  eapply acct_perm; [|exact Ha]. cbn [app]. by rewrite app_assoc, (Permutation_app_comm X).
Qed.

(** Settling tasks changes nothing else. *)
Definition only_tasks (f : conn -> conn) : Prop := forall c, exists tk, f c = set_tasks tk c.
Lemma only_tasks_upd id f : only_tasks (upd id f).
Proof. intros c. by eexists. Qed.
Lemma only_tasks_fold (f : nat -> conn -> conn) l : (forall id, only_tasks (f id)) -> only_tasks (fun c => foldl (fun c id => f id c) c l).
Proof.
  intros Hf. induction l as [|id l IH]; intros c; cbn [foldl]; [exists (tasks c); by destruct c|].
  destruct (Hf id c) as [tk ->]. destruct (IH (set_tasks tk c)) as [tk' ->]. by exists tk'.
Qed.
Lemma only_tasks_fail e id : only_tasks (fail_inflight e id).
Proof. intros c. unfold fail_inflight. destruct (t_settled _); by eexists. Qed.
Lemma only_tasks_settle e id : only_tasks (settle_queued e id).
Proof. intros c. unfold settle_queued. destruct (t_settled _); by eexists. Qed.
Lemma reject_inflight_eq e c : exists tk, reject_inflight e c = set_tasks tk (set_inflight [] c).
Proof. apply (only_tasks_fold (fail_inflight e)), only_tasks_fail. Qed.
Lemma rejectQueue_eq e c : exists tk, rejectQueue e c = set_tasks tk (set_queue [] c).
Proof. apply (only_tasks_fold (fun id => rejectTask id e)). intros id. apply only_tasks_upd. Qed.
Lemma settlePending_eq e c : exists tk, settlePending e c
  = set_tasks tk (set_queue [] (set_inflight [] (set_lateCancel None (set_parseInflight ∅ (set_outbuf [] c))))).
Proof.
  unfold settlePending. destruct (reject_inflight_eq e (set_lateCancel None (set_parseInflight ∅ (set_outbuf [] c)))) as [tk ->].
  destruct (only_tasks_fold (settle_queued e) (queue c) (only_tasks_settle e)
    (set_queue [] (set_tasks tk (set_inflight [] (set_lateCancel None (set_parseInflight ∅ (set_outbuf [] c))))))) as [tk' E].
  exists tk'. exact E.
Qed.

(** ** Serialization changes nothing that a caller can see *)

Record unseen (P : conn -> Prop) : Prop := {
  u_upd id f c : benign f -> P c -> P (upd id f c);
  u_outbuf l c : P c -> P (set_outbuf l c);
  u_prepared m c : P c -> P (set_prepared m c);
  u_stale m c : P c -> P (set_staleStatements m c);
  u_parse m c : P c -> P (set_parseInflight m c) }.

Section Unseen.
Context (P : conn -> Prop) (HP : unseen P).

Lemma put_stable m : stable P (put m).
Proof using HP. constructor. intros c Hc. unfold put. destruct (encoded m); cbn; [by apply (u_outbuf P HP)|done..]. Qed.
Lemma modify_upd_stable id f : benign f -> stable P (modify (upd id f)).
Proof using HP. intros Hf. apply stable_modify. intros c. by apply (u_upd P HP). Qed.
Lemma assignMapper_stable id cols : stable P (assignMapper cfg id cols).
Proof using HP. unfold assignMapper. repeat stable_step. apply (u_upd P HP); [benign|done]. Qed.
Lemma reuse_stable id e : stable P (reuse_statement cfg id e).
Proof using HP.
  unfold reuse_statement.
  repeat first [ apply assignMapper_stable | apply modify_upd_stable; benign | stable_step ].
Qed.
Lemma cached_stable id n : stable P (cached_statement cfg id n).
Proof using HP.
  unfold cached_statement.
  repeat first [ apply reuse_stable | apply put_stable | apply modify_upd_stable; benign | stable_step ]. by apply (u_prepared P HP).
Qed.
Lemma new_statement_stable id n : stable P (new_statement id n).
Proof using HP.
  unfold new_statement.
  repeat first [ apply put_stable | apply modify_upd_stable; benign | stable_step ];
    first [by apply (u_stale P HP)|by apply (u_parse P HP)].
Qed.
Lemma serialize_stable id : stable P (serialize cfg id).
Proof using HP.
  unfold serialize.
  repeat first [ apply put_stable | apply cached_stable | apply new_statement_stable | apply modify_upd_stable; benign | stable_step ];
    by apply (u_parse P HP).
Qed.
End Unseen.

Lemma acct_unseen X : unseen (acct X).
Proof. split; try (intros; assumption). intros id f c Hf. by apply upd_acct, benign_keeps. Qed.
Lemma phase_unseen Y ex : unseen (fun c => state c = CReady /\ phase Y ex c).
Proof. split; try (intros; assumption). intros l c [Hr [H1' H2' H3' H4' H5' H6' H7' H8' H9' H10' H11' H12']]. split; [done|]. by split. Qed.

(** ** Dispatching *)

Lemma startTask_acct X id c : acct (id :: X) c -> acct X (startTask cfg id c).
Proof.
  intros Ha. unfold startTask. pose proof (stable_run _ _ (serialize_stable _ (acct_unseen (id :: X)) id) c Ha) as Hs.
  destruct (serialize cfg id c) as [c' [[]|e|]]; cbn [fst] in Hs.
  - cbv zeta. destruct (bool_decide _); [apply upd_acct; [apply benign_keeps; benign|]|];
      (eapply acct_perm; [|exact Hs]); cbn; (rewrite !app_assoc, <- Permutation_cons_append; by rewrite <- app_assoc).
  - by apply reject_done.
  - destruct Hs as [Hn Hd _ Hs Hf Hhd]. split; try done; [by apply NoDup_cons in Hn as [_ ?]|]. intros i Hi. apply Hd. by right.
Qed.
(** Everything but the lists of tasks and the cursor of a dispatch. *)
Lemma startTask_phase Y ex id c : state c = CReady -> phase Y ex c -> phase Y ex (startTask cfg id c).
Proof.
  intros Hr Hp. unfold startTask.
  pose proof (stable_run _ _ (serialize_stable _ (phase_unseen Y ex) id) c (conj Hr Hp)) as [Hs Hps].
  destruct (serialize cfg id c) as [c' [[]|e|]]; cbn [fst] in Hs, Hps;
    [|destruct Hps as [H1' H2' H3' H4' H5' H6' H7' H8' H9' H10' H11' H12']; by split|exact Hps].
  assert (phase Y ex (set_inflight (inflight c' ++ [id]) c')) as Hi; [|by destruct (bool_decide _)].
  destruct Hps as [H1' H2' H3' H4' H5' H6' H7' H8' H9' H10' H11' H12']. unfold phase. cbn. split; try done.
  intros p Ep. destruct (H6' p Ep) as [E [(h & Eh & Hh)|Hn]]; (split; [done|]); [left; exists h; split; [done|]; rewrite app_assoc; apply elem_of_app; by left|by right].
Qed.
Lemma startTask_queue id c : queue (startTask cfg id c) = queue c /\ state (startTask cfg id c) = state c.
Proof.
  unfold startTask. pose proof (stable_run _ _ (serialize_stable (fun c' => queue c' = queue c /\ state c' = state c)
    ltac:(split; intros; assumption) id) c (conj eq_refl eq_refl)) as Hs.
  destruct (serialize cfg id c) as [c' [[]|e|]]; cbn [fst] in Hs; [|exact Hs..]. by destruct (bool_decide _).
Qed.
Lemma flush_eq c : exists o b w, flushWrites c = set_wire w (set_writeBackedUp b (set_outbuf o c)).
Proof.
  unfold flushWrites. destruct (outbuf c) eqn:E.
  - exists (outbuf c), (writeBackedUp c), (wire c). by destruct c.
  - destruct (socket _) eqn:Es; [destruct (full _)|]; do 3 eexists; try reflexivity.
    all: try (instantiate (1 := writeBackedUp c)); try (instantiate (1 := wire c)); by destruct c.
Qed.
Lemma flush_empty c : outbuf (flushWrites c) = [].
Proof. unfold flushWrites. destruct (outbuf c) eqn:E; [done|]. destruct (socket _); [|done]. by destruct (full _). Qed.
Lemma flush_weak X Y ex c : weak X Y ex c -> weak X Y ex (flushWrites c).
Proof.
  intros [Ha [H1' H2' H3' H4' H5' H6' H7' H8' H9' H10' H11' H12']]. pose proof (flush_empty c) as He. destruct (flush_eq c) as (o & b & w & E). rewrite E in *. cbn in He. subst o.
  split; [exact Ha|]. split; try done. intros Hn. split; [done|]. by apply H8'.
Qed.

Lemma phase_queue Y ex q c : (q <> [] -> queue c <> []) -> phase Y ex c -> phase Y ex (set_queue q c).
Proof. intros Hq [H1' H2' H3' H4' H5' H6' H7' H8' H9' H10' H11' H12']. unfold phase; cbn. split; try done. intros Hne. apply H2'. auto. Qed.
Lemma dispatch_one_weak X Y ex c : state c = CReady -> weak X Y ex c -> weak X Y ex (dispatch_one cfg c) /\ state (dispatch_one cfg c) = CReady.
Proof.
  intros Hr [Ha Hp]. unfold dispatch_one. destruct (queue c) as [|id rest] eqn:Eq; [done|]. cbv zeta.
  assert (weak X Y ex (startTask cfg id (set_queue rest c)) /\ state (startTask cfg id (set_queue rest c)) = CReady) as [Hw Hs].
  { split; [split|by destruct (startTask_queue id (set_queue rest c)) as [_ ->]].
    - apply startTask_acct. eapply acct_perm; [|exact Ha]. rewrite Eq. cbn. by rewrite <- Permutation_middle.
    - apply startTask_phase; [done|]. apply phase_queue; [by rewrite Eq|done]. }
  destruct (_ <=? _); [|done]. split; [by apply flush_weak|].
  by destruct (flush_eq (startTask cfg id (set_queue rest c))) as (o & b & w & ->).
Qed.
Lemma dispatch_loop_weak X Y ex f c : state c = CReady -> weak X Y ex c -> weak X Y ex (dispatch_loop cfg f c) /\ state (dispatch_loop cfg f c) = CReady.
Proof.
  revert c. induction f as [|f IH]; intros c Hr Hw; [done|]. cbn [dispatch_loop]. destruct (queue c); [done|].
  destruct (_ && _); [|done]. destruct (dispatch_one_weak X Y ex c Hr Hw). by apply IH.
Qed.
(** What stops the loop. *)
Definition stuck (c : conn) : Prop := queue c = [] \/ can_dispatch cfg c = false \/ hung c = true.
Lemma flush_queue c : queue (flushWrites c) = queue c.
Proof. by destruct (flush_eq c) as (o & b & w & ->). Qed.
Lemma dispatch_one_queue c : queue (dispatch_one cfg c) = tail (queue c).
Proof.
  unfold dispatch_one. destruct (queue c) as [|id rest] eqn:Eq; [done|]. cbv zeta.
  destruct (_ <=? _); rewrite ?flush_queue; by destruct (startTask_queue id (set_queue rest c)) as [-> _].
Qed.
Lemma dispatch_loop_stuck f c : (length (queue c) <= f)%nat -> stuck (dispatch_loop cfg f c).
Proof.
  revert c. induction f as [|f IH]; intros c Hf; cbn [dispatch_loop].
  - left. destruct (queue c); [done|cbn in Hf; lia].
  - destruct (queue c) as [|id rest] eqn:Eq; [by left|]. destruct (can_dispatch cfg c) eqn:Ec; cbn [andb].
    + destruct (hung c) eqn:Eh; cbn [negb]; [by right; right|]. apply IH. rewrite dispatch_one_queue, Eq. cbn in *. lia.
    + by right; left.
Qed.

(** ** The end of a connection *)

Ltac phase_tac := unfold phase; cbn; split; try done.

Lemma phase_idle Y Y' ex ex' c : state c <> CReady -> phase Y ex c -> phase Y' ex' c.
Proof. intros Hn [H1' H2' H3' H4' H5' H6' H7' H8' H9' H10' H11' H12']. split; try done. intros p Ep. by destruct (H6' p Ep). Qed.
Lemma failAttempt_phase Y ex e c : phase Y ex c -> phase Y ex (failAttempt e c).
Proof.
  intros Hp. unfold failAttempt. destruct (connecting c) eqn:Ec; [|done]. destruct Hp as [H1' H2' H3' H4' H5' H6' H7' H8' H9' H10' H11' H12']. cbn [negb].
  destruct (H3' Ec) as (Hs & Hl & Eat & Ecp). phase_tac.
  - intros _. split; [by destruct Hs as [-> | ->]|]. split; [done|]. destruct Hl; auto.
  - intros _. right; right; right; left. by eexists.
Qed.
Lemma failAttempt_weak X Y ex e c : weak X Y ex c -> weak X Y ex (failAttempt e c).
Proof. intros [Ha Hp]. split; [|by apply failAttempt_phase]. unfold failAttempt. by destruct (connecting c). Qed.

(** A connection whose socket has died and whose queries in flight have been answered. *)
Record dead (X : list nat) (c : conn) : Prop := {
  d_acct : acct X c;
  d_inflight : inflight c = [];
  d_connecting : connecting c = false;
  d_pending : pendingCancel c = None;
  d_outbuf : outbuf c = [];
  d_retiring : isRetiring c = false;
  d_promise : connectPromise c = true;
  d_fresh : forall p, is_Some (pendings c !! p) -> (p < next c)%nat }.
Lemma rejectQueue_weak X Y ex e c : dead X c -> state c = CClosed -> weak X Y ex (rejectQueue e c).
Proof.
  intros [Ha Ei Ec Ep Eo Er Ecp Hf] Es. split; [by apply rejectQueue_acct|]. destruct (rejectQueue_eq e c) as [tk ->].
  phase_tac; rewrite ?Es, ?Ec, ?Ep, ?Ei, ?Eo, ?Er; try done; naive_solver.
Qed.
Lemma dead_state X st c : dead X c -> dead X (set_state st c).
Proof. by intros [Ha Ei Ec Ep Eo Er Ecp Hf]; split. Qed.
Lemma dead_loop X l c : dead X c -> dead X (set_loop l c).
Proof. by intros [Ha Ei Ec Ep Eo Er Ecp Hf]; split. Qed.
Lemma dead_forget X c : dead X c -> dead X (set_parseInflight ∅ (set_staleStatements ∅ (set_prepared ∅ c))).
Proof. by intros [Ha Ei Ec Ep Eo Er Ecp Hf]; split. Qed.
Lemma reconnect_weak X Y ex n e c : dead X c -> state c <> CReady -> state c <> CClosed -> ended c = false -> weak X Y ex (reconnect_round cfg n e c).
Proof.
  intros Hd Es Es' Ee. unfold reconnect_round. rewrite Ee, (bool_decide_eq_false_2 (state c = CClosed)) by done. cbn [orb].
  destruct (match rcMaxRetries cfg with Some m => _ | None => _ end).
  - apply rejectQueue_weak; [|done]. by apply dead_state, dead_loop.
  - destruct Hd as [Ha Ei Ec Ep Eo Er Ecp Hf]. split; [exact Ha|]. phase_tac; rewrite ?Ec, ?Ep, ?Ei, ?Eo, ?Er, ?Ecp, ?Ee; try done.
    + intros _. split; [done|]. split; [done|]. right; right; left. by do 2 eexists.
    + intros _. right; right; right; right. by do 2 eexists.
Qed.
Definition cut (c : conn) : conn := note SocketDown (set_outbuf [] (set_socket false (clearPendingCancel c))).
Lemma clear_acct X c : acct X c -> acct X (clearPendingCancel c).
Proof. by intros [Hn Hd Ha Hs Hf Hhd]; split. Qed.
Lemma cut_acct X c : acct X c -> acct X (cut c).
Proof. apply clear_acct. Qed.
Lemma reject_inflight_dead X Y ex e c : weak X Y ex c -> connecting c = false -> connectPromise c = true -> dead X (reject_inflight e (cut c)).
Proof.
  intros [Ha Hp] Ec Ecp. pose proof (reject_inflight_acct X e (cut c) (cut_acct X c Ha)) as Ha2.
  pose proof (w_pending _ _ _ _ _ _ _ _ _ _ _ _ _ _ _ _ _ Hp) as Hf.
  assert (connecting (cut c) = false /\ pendingCancel (cut c) = None /\ outbuf (cut c) = [] /\ isRetiring (cut c) = false /\ socket (cut c) = false
    /\ connectPromise (cut c) = true /\ pendings (cut c) = pendings c /\ next (cut c) = next c) as Hc by (by repeat split).
  generalize dependent (cut c). intros c1 Ha2 (E1 & E2 & E3 & E4 & E5 & E6 & E7 & E8).
  destruct (reject_inflight_eq e c1) as [tk Eq]. split; [done|..]; rewrite Eq; cbn; try done. intros p. by rewrite E7, E8; apply Hf.
Qed.
Lemma reject_inflight_state e c : state (reject_inflight e c) = state c /\ ended (reject_inflight e c) = ended c.
Proof. by destruct (reject_inflight_eq e c) as [tk ->]. Qed.
Lemma down_weak X Y ex e c : connectPromise c = true -> weak X Y ex c -> weak X [] false (onSocketDown cfg e c).
Proof.
  intros Ecp Hw. unfold onSocketDown. case_bool_decide as Ecl.
  { destruct Hw. split; [done|]. eapply phase_idle; [|done]. by rewrite Ecl. }
  destruct (connecting c) eqn:Ec.
  { destruct Hw as [Ha Hp]. split; [by apply (failAttempt_weak X Y ex)|]. eapply phase_idle; [|by apply failAttempt_phase].
    destruct Hp as [_ _ Hcn _ _ _ _ _ _ _ _ _]. destruct (Hcn Ec) as [Hs _]. unfold failAttempt. rewrite Ec. cbn. by destruct Hs as [-> | ->]. }
  cbv zeta. fold (cut c). pose proof (reject_inflight_dead X Y ex e c Hw Ec Ecp) as Hd.
  generalize dependent (reject_inflight e (cut c)). intros c2 Hd.
  destruct (rcEnabled cfg && negb (ended c2)) eqn:Er.
  - apply andb_true_iff in Er as [_ Hen]. apply negb_true_iff in Hen. apply reconnect_weak; [by apply dead_forget, dead_state|done..].
  - apply rejectQueue_weak; [by apply dead_state|done].
Qed.

Lemma promise_ready Y ex c : phase Y ex c -> state c = CReady -> connectPromise c = true.
Proof. intros Hp Hr. apply (w_promise _ _ _ _ _ _ _ _ _ _ _ _ _ _ _ _ _ Hp). by left. Qed.
Lemma write_now_weak X Y ex ms c : weak X Y ex c -> weak X Y ex (write_now ms c).
Proof. unfold write_now. by destruct (socket c). Qed.
Lemma retire_weak X Y ex c : state c = CReady -> weak X Y ex c -> weak X [] false (retire cfg c).
Proof.
  intros Hr Hw. unfold retire. apply (down_weak X Y ex); [|by apply write_now_weak].
  destruct Hw as [_ Hp]. unfold write_now. destruct (socket c); by eapply promise_ready.
Qed.
Lemma phase_weaken Y ex ex' c : (ex = true -> ex' = true) -> phase Y ex c -> phase Y ex' c.
Proof.
  intros He [H1' H2' H3' H4' H5' H6' H7' H8' H9' H10' H11' H12']. split; try done. intros p Ep.
  destruct (H6' p Ep) as [? [?|[? [?|[?|?]]]]]; (split; [done|]); [by left|right..]; (split; [done|]); auto.
Qed.
(** A step that may end in the loss of the socket. *)
Lemma weak_down X Y ex c : weak X [] false c -> weak X Y ex c.
Proof.
  intros [Ha Hp]. split; [done|]. destruct Hp as [H1' H2' H3' H4' H5' H6' H7' H8' H9' H10' H11' H12']. split; try done. intros p Ep.
  destruct (H6' p Ep) as [? [(h & Eh & Hh)|[? [?|[?|?]]]]]; (split; [done|]); [left; exists h; split; [done|]; apply elem_of_app; by right|right; split; auto; done..].
Qed.
Lemma processQueue_weak X Y ex c : weak X Y ex c -> weak X Y ex (processQueue cfg c).
Proof.
  intros Hw. unfold processQueue. case_bool_decide as Hr; cbn [negb]; [|done].
  destruct (isRetiring c) eqn:Ei. { destruct (inflight c) eqn:El; [|done]. by apply weak_down, (retire_weak X Y ex). }
  cbv zeta. destruct (dispatch_loop_weak X Y ex (length (queue c)) c Hr Hw) as [Hl _].
  destruct (_ && _ && _); [exact Hl|by apply flush_weak].
Qed.

(** ** Cancellation *)

Lemma upd_pending_acct X p f c : (forall x h, phead (f x) = Some h -> phead x = Some h) -> acct X c -> acct X (upd_pending p f c).
Proof.
  intros Hp [Hn Hd Ha Hs Hf Hhd]. split; try done. intros q h t Eq Eh. apply (Hhd q h t Eq). unfold pending_in in *. cbn in Eh.
  destruct (decide (q = p)) as [-> |Hne]; [|by rewrite lookup_alter_ne in Eh]. rewrite lookup_alter_eq in Eh.
  destruct (pendings c !! p) as [x|]; [|done]. cbn in *. by apply Hp.
Qed.
Lemma upd_pending_phase Y ex p f c : (forall x, phead (f x) = phead x /\ (ptimer x = true -> ptimer (f x) = true)) ->
  phase Y ex c -> phase Y ex (upd_pending p f c).
Proof.
  intros Hf [H1' H2' H3' H4' H5' H6' H7' H8' H9' H10' H11' H12']. unfold phase, upd_pending. cbn. split; try done.
  - intros q Eq. destruct (H6' q Eq) as [Hs Hc]. split; [done|]. unfold pending_in in *.
    destruct (decide (q = p)) as [-> |Hn]; [|by rewrite lookup_alter_ne]. rewrite lookup_alter_eq. destruct (pendings c !! p) as [x|]; [|done].
    cbn in *. unfold cancel_waits in *. destruct (Hf x) as [-> Ht]. naive_solver.
  - intros q Hq. apply H7'. by apply lookup_alter_is_Some in Hq.
  - intros q Eq. apply lookup_alter_is_Some. auto.
Qed.
Lemma upd_pending_weak X Y ex p f c : (forall x, phead (f x) = phead x /\ (ptimer x = true -> ptimer (f x) = true)) ->
  weak X Y ex c -> weak X Y ex (upd_pending p f c).
Proof. intros Hf [Ha Hp]. split; [|by apply upd_pending_phase]. apply upd_pending_acct; [|done]. intros x h. by destruct (Hf x) as [-> _]. Qed.
Lemma note_weak X Y ex a c : weak X Y ex c -> weak X Y ex (note a c).
Proof. done. Qed.
Lemma clear_weak X Y Y' ex ex' c : weak X Y ex c -> weak X Y' ex' (clearPendingCancel c).
Proof.
  intros [Ha [H1' H2' H3' H4' H5' H6' H7' H8' H9' H10' H11' H12']]. split; [by apply clear_acct|]. phase_tac. intros Hn. split; [|done]. by apply H8'.
Qed.
Lemma late_weak X Y ex l c : weak X Y ex c -> weak X Y ex (set_lateCancel l c).
Proof. done. Qed.
(** Retiring is a decision on the cancel. *)
Lemma retiring_weak X Y ex c p : pendingCancel c = Some p -> phead (pending p c) = None \/ ex = false ->
  weak X Y ex c -> weak X Y false (set_isRetiring true c).
Proof.
  intros Ep Hd [Ha [H1' H2' H3' H4' H5' H6' H7' H8' H9' H10' H11' H12']]. split; [exact Ha|]. phase_tac.
  - intros q Eq. destruct (H6' q Eq) as [Hs [?|[Hn _]]]; (split; [done|]); [by left|right; auto].
  - intros Hn. by destruct (H6' p Ep).
Qed.
Lemma resolve_weak X Y ex p c : pendingCancel c = Some p -> phead (pending p c) = None \/ ex = false ->
  weak X Y ex c -> weak X Y ex (resolveCanceledHead cfg p c).
Proof.
  intros Ep Hd Hw. unfold resolveCanceledHead. cbv zeta. destruct (isRetiring c); [done|].
  destruct (_ || _). { apply processQueue_weak. destruct (retiring_weak X Y ex c p Ep Hd Hw) as [Ha Hp]. split; [done|]. by eapply phase_weaken; [|exact Hp]. }
  destruct (isConfirmed _); [|done]. apply processQueue_weak. by apply (clear_weak X Y Y ex ex).
Qed.

Lemma pending_upd p f c : is_Some (pendings c !! p) -> pending p (upd_pending p f c) = f (pending p c).
Proof. intros [x E]. unfold pending, upd_pending. cbn. by rewrite lookup_alter_eq, E. Qed.
Lemma no_head_weak X Y ex p c : pendingCancel c = Some p -> weak X Y ex c -> weak X [] true (upd_pending p no_head c).
Proof.
  intros Ep [Ha [H1' H2' H3' H4' H5' H6' H7' H8' H9' H10' H11' H12']]. split; [by apply upd_pending_acct|]. unfold phase, upd_pending. cbn. split; try done.
  - intros q Eq. assert (q = p) as -> by congruence. destruct (H6' p Ep) as [Hs _]. split; [done|]. right. split; [|by auto]. unfold pending_in.
    rewrite lookup_alter_eq. by destruct (H10' p Ep) as [x ->].
  - intros q Hq. apply H7'. by apply lookup_alter_is_Some in Hq.
  - intros q Eq. apply lookup_alter_is_Some. auto.
Qed.
Lemma timer_weak X Y ex p c : pendingCancel c = Some p -> phead (pending p c) = None -> weak X Y ex c -> weak X Y false (upd_pending p with_timer c).
Proof.
  intros Ep Hn [Ha [H1' H2' H3' H4' H5' H6' H7' H8' H9' H10' H11' H12']]. split; [by apply upd_pending_acct|]. unfold phase, upd_pending. cbn. split; try done.
  - intros q Eq. assert (q = p) as -> by congruence. destruct (H6' p Ep) as [Hs _]. split; [done|]. right. unfold pending_in, pending in *.
    rewrite lookup_alter_eq. destruct (H10' p Ep) as [x Ex]. rewrite Ex in *. cbn in *. auto.
  - intros q Hq. apply H7'. by apply lookup_alter_is_Some in Hq.
  - intros q Eq. apply lookup_alter_is_Some. auto.
Qed.
Lemma retired_weak X Y ex c : isRetiring c = true -> weak X Y ex c -> weak X Y false c.
Proof.
  intros Er [Ha [H1' H2' H3' H4' H5' H6' H7' H8' H9' H10' H11' H12']]. split; [exact Ha|]. split; try done.
  intros p Ep. destruct (H6' p Ep) as [Hs [?|[Hn _]]]; (split; [done|]); [by left|right; auto].
Qed.
(** What endCanceledHead decides once the query of the cancel has ended. *)
Definition decide_cancel (p : nat) (c : conn) : conn :=
  let c := resolveCanceledHead cfg p c in
  if bool_decide (pendingCancel c = Some p) && negb (isRetiring c) then upd_pending p with_timer c else c.
Lemma with_timer_keeps x : phead (with_timer x) = phead x /\ (ptimer x = true -> ptimer (with_timer x) = true).
Proof. done. Qed.
Lemma decide_weak X Y p c : pendingCancel c = Some p -> phead (pending p c) = None -> isRetiring c = false ->
  weak X Y true c -> weak X Y false (decide_cancel p c).
Proof.
  intros Ep Hn Er Hw. unfold decide_cancel, resolveCanceledHead. rewrite Er. cbv zeta.
  assert (forall c', weak X Y false c' ->
    weak X Y false (if bool_decide (pendingCancel c' = Some p) && negb (isRetiring c') then upd_pending p with_timer c' else c')) as Hd.
  { intros c' Hc. destruct (_ && _); [by apply upd_pending_weak|done]. }
  destruct (_ || _). { apply Hd, processQueue_weak. apply (retiring_weak X Y true c p); auto. }
  destruct (isConfirmed _). { apply Hd, processQueue_weak. by apply (clear_weak X Y Y true false). }
  rewrite Ep, Er, bool_decide_eq_true_2 by done. by apply (timer_weak X Y true).
Qed.
Lemma endCanceledHead_weak X Y ex id c p : pendingCancel c = Some p -> weak X Y ex c -> weak X [] false (endCanceledHead cfg id c).
Proof.
  intros Ep Hw. unfold endCanceledHead. rewrite Ep. cbv zeta.
  pose proof (no_head_weak X Y ex p c Ep Hw) as Hw'.
  assert (pendingCancel (upd_pending p no_head c) = Some p /\ phead (pending p (upd_pending p no_head c)) = None) as [Ep' Hn].
  { split; [done|]. rewrite pending_upd; [done|]. destruct Hw as [_ Hp]. by apply (w_known _ _ _ _ _ _ _ _ _ _ _ _ _ _ _ _ _ Hp). }
  generalize dependent (upd_pending p no_head c). intros c1 Hw1 Ep1 Hn1. destruct (negb _ && _) eqn:El.
  - destruct (is_57014 _); [done|]. cbn [isRetiring set_lateCancel]. destruct (isRetiring c1) eqn:Er; [by apply (retired_weak X [] true)|].
    by apply decide_weak.
  - destruct (isRetiring c1) eqn:Er; [by apply (retired_weak X [] true)|].
    destruct (is_57014 _); [by apply (clear_weak X [] [] true false)|]. by apply decide_weak.
Qed.
Lemma mark_late_benign : benign mark_late.
Proof. intros t. unfold mark_late. destruct (t_error t) as [[]|]; done. Qed.
Lemma checkLate_eq id c : checkLateCancel id c = c \/ exists l, checkLateCancel id c = set_lateCancel l c
  \/ checkLateCancel id c = set_lateCancel l (upd id mark_late c)
  \/ exists a, checkLateCancel id c = set_lateCancel l (clearPendingCancel (note a (upd id mark_late c))).
Proof.
  unfold checkLateCancel. destruct (lateCancel c) as [[p s]|]; [|by left]. cbv zeta. destruct (_ && _); cbv iota; [|right; eexists; by left].
  destruct (_ && _); right; eexists; right; [right; by eexists|by left].
Qed.
Lemma checkLate_weak X Y ex id c : weak X Y ex c -> weak X Y ex (checkLateCancel id c).
Proof.
  intros Hw. destruct (checkLate_eq id c) as [-> |(l & [-> |[-> |[a ->]]])]; [done|exact Hw|by apply late_weak, benign_weak; [apply mark_late_benign|]|].
  apply late_weak, (clear_weak X Y Y ex ex), note_weak, benign_weak; [apply mark_late_benign|done].
Qed.
Lemma sendCancel_weak X Y ex id c : state c = CReady -> id ∈ inflight c ->
  (forall t, tasks c !! id = Some t -> t_settled t = true) -> weak X Y ex c -> weak X Y ex (sendCancelRequest cfg id c).
Proof.
  intros Hr Hi Hst Hw. unfold sendCancelRequest. destruct (_ || _); [done|]. cbv zeta. destruct Hw as [Ha [H1' H2' H3' H4' H5' H6' H7' H8' H9' H10' H11' H12']].
  assert (forall ir, accounted X (queue c) (inflight c) (tasks c) (S (next c)) (hung c)
       (Some (next c)) (<[next c := mkPending (Some id) false false false]> (pendings c)) /\
     phases Y ex (state c) (queue c) (inflight c) (S (next c)) (connecting c) (attempt c) (loop c) (ended c) (everConnected c) (connectPromise c)
       (Some (next c)) (<[next c := mkPending (Some id) false false false]> (pendings c)) ir (outbuf c) (socket c)) as Hx.
  { intros ir. split. { destruct Ha as [Hn Hd Ha Hs Hf Hhd]; split; try done; [intros i Hi'; specialize (Hf i Hi'); lia|].
      intros p h t [= <-]. unfold pending_in. rewrite lookup_insert_eq. cbn. intros [= <-]. apply Hst. }
    split; try done.
    - intros p [= <-]. split; [done|]. left. exists id. split; [by unfold pending_in; rewrite lookup_insert_eq|apply elem_of_app; by right].
    - intros p Hp. destruct (decide (p = next c)) as [-> |Hn]; [lia|]. rewrite lookup_insert_ne in Hp by done. specialize (H7' p Hp). lia.
    - intros p [= <-]. by rewrite lookup_insert_eq. }
  destruct (bool_decide _); [exact (Hx true)|exact (Hx (isRetiring c))].
Qed.
Lemma onCancelEnd_weak ok p c : weak [] [] false c -> weak [] [] false (onCancelEnd cfg ok p c).
Proof.
  intros Hw. unfold onCancelEnd. cbv zeta.
  assert (weak [] [] false (note (if ok then CancelConfirmed p else CancelFailed p) (upd_pending p (if ok then confirmed else failed) c))) as Hw'.
  { apply note_weak, upd_pending_weak; [by destruct ok|done]. }
  generalize dependent (note (if ok then CancelConfirmed p else CancelFailed p) (upd_pending p (if ok then confirmed else failed) c)). intros c' Hw'.
  destruct (_ && _) eqn:E; [|done]. apply andb_true_iff in E as [E _]. apply bool_decide_eq_true in E. apply resolve_weak; auto.
Qed.
Lemma onPendingTimer_weak p c : weak [] [] false c -> weak [] [] false (onPendingTimer cfg p c).
Proof.
  intros Hw. unfold onPendingTimer. destruct (ptimer _); [|done]. case_bool_decide as E; [|done].
  apply processQueue_weak. apply (retiring_weak [] [] false c p E); auto.
Qed.

Lemma alter_compose {A} (f g : A -> A) (i : nat) (m : gmap nat A) : alter g i (alter f i m) = alter (fun x => g (f x)) i m.
Proof.
  apply map_eq. intros j. destruct (decide (i = j)) as [<- |Hn]; [|by rewrite !lookup_alter_ne].
  rewrite !lookup_alter_eq. by destruct (m !! i).
Qed.
Lemma upd_upd id f g c : upd id g (upd id f c) = upd id (fun t => g (f t)) c.
Proof. unfold upd. cbn [tasks set_tasks]. by rewrite alter_compose. Qed.
Lemma settle_upd_settles id o f c : settled_in id (upd id (fun t => settle o (f t)) c).
Proof. intros t E. unfold upd in E. cbn in E. apply lookup_alter_Some in E as [(_ & t0 & _ & ->)|[? _]]; [apply settle_outcome|done]. Qed.
Lemma unqueue_acct id c : settled_in id c -> acct [] c -> acct [] (set_queue (filter (fun i => i <> id) (queue c)) c).
Proof.
  intros Ho [Hn Hd Ha Hs Hf Hhd]. cbn in *. split; cbn; try done.
  - apply NoDup_app in Hn as (H1' & H2' & H3'). apply NoDup_app. split; [by apply NoDup_filter|]. split; [|done].
    intros i Hi. apply list_elem_of_filter in Hi as [_ Hi]. by apply H2'.
  - intros i Hi. apply Hd. apply elem_of_app in Hi as [Hi|Hi]; apply elem_of_app; [|by right]. apply list_elem_of_filter in Hi as [_ Hi]. by left.
  - intros Hh i t Et. destruct (decide (i = id)) as [-> |Hne]; [right; by apply Ho|]. destruct (Ha Hh i t Et) as [Hi|?]; [left|by right].
    apply elem_of_app in Hi as [Hi|Hi]; apply elem_of_app; [left|by right]. by apply list_elem_of_filter.
Qed.
Lemma cancelTask_weak id r c : weak [] [] false c -> weak [] [] false (cancelTask cfg id r c).
Proof.
  intros Hw. unfold cancelTask. destruct (t_settled _); [done|]. cbv zeta. set (f := fun t => set_t_timer false (set_t_settled true t)).
  change (inflight (upd id f c)) with (inflight c). case_bool_decide as Hi.
  - set (c1 := rejectTask id r (upd id f c)).
    assert (weak [] [] false c1) as Hw1 by (unfold c1, rejectTask; rewrite upd_upd; apply upd_weak; [by apply (settle_keeps (Rejected r) (fun t => set_t_stopped true (f t)))|done]).
    assert (forall t, tasks c1 !! id = Some t -> t_settled t = true) as Hst.
    { intros t E. unfold c1, rejectTask in E. rewrite upd_upd in E. unfold upd in E. cbn in E.
      apply lookup_alter_Some in E as [(_ & t0 & _ & ->)|[? _]]; [by rewrite settle_settled|done]. }
    assert (inflight c1 = inflight c) as E by done. generalize dependent c1. intros c1 Hw1 Hst E. rewrite <- E in Hi.
    case_bool_decide; [|done]. apply benign_weak; [benign|]. destruct (is_copy _); [done|]. apply sendCancel_weak; [|done..].
    destruct Hw1 as [_ Hp]. apply (w_inflight _ _ _ _ _ _ _ _ _ _ _ _ _ _ _ _ _ Hp). by destruct (inflight c1); [apply elem_of_nil in Hi|].
  - set (g := fun t => set_t_stopped true (set_t_listening false (f t))).
    assert (rejectTask id r (upd id (set_t_listening false) (set_queue (filter (fun i => i <> id) (queue (upd id f c))) (upd id f c)))
      = set_queue (filter (fun i => i <> id) (queue (upd id (fun t => settle (Rejected r) (g t)) c))) (upd id (fun t => settle (Rejected r) (g t)) c)) as ->.
    { unfold rejectTask. rewrite upd_upd. unfold upd. cbn [tasks queue set_tasks set_queue]. by rewrite !alter_compose. }
    assert (weak [] [] false (upd id (fun t => settle (Rejected r) (g t)) c)) as [Ha Hp] by (apply upd_weak; [by apply (settle_keeps (Rejected r) g)|done]).
    pose proof (settle_upd_settles id (Rejected r) g c) as Ho. generalize dependent (upd id (fun t => settle (Rejected r) (g t)) c).
    intros c1 Ha1 Hp1 Ho. split; [by apply unqueue_acct|]. apply phase_queue; [|done]. intros Hne E. by rewrite E in Hne.
Qed.

(** ** Nothing of a task is taken back *)

Record task_le (t t' : Task) : Prop := {
  le_req : t_req t' = t_req t;
  le_settled : t_settled t = true -> t_settled t' = true;
  le_outcome : forall o, t_outcome t = Some o -> t_outcome t' = Some o;
  le_retries : (t_retries t <= t_retries t')%nat;
  le_once : (t_retries t' <= 1 `max` t_retries t)%nat }.
#[global] Instance task_le_preorder : PreOrder task_le.
Proof.
  split; [by intros t; split; auto; lia|]. intros t1 t2 t3 [H1' H2' H3' H4' H5'] [H6' H7' H8' H9' H10'].
  split; [by rewrite H6'|by auto|by auto|lia|lia].
Qed.
Definition grows (c c' : conn) : Prop := forall id, option_Forall2 task_le (tasks c !! id) (tasks c' !! id).
#[global] Instance grows_preorder : PreOrder grows.
Proof.
  split; [by intros c id; destruct (tasks c !! id); constructor|]. intros c1 c2 c3 H12 H23 id. specialize (H12 id). specialize (H23 id).
  destruct H12; inversion H23; subst; constructor. by etransitivity.
Qed.
Lemma grows_lookup c c' id t : grows c c' -> tasks c !! id = Some t -> exists t', tasks c' !! id = Some t' /\ task_le t t'.
Proof. intros Hg E. specialize (Hg id). rewrite E in Hg. inversion Hg; subst. eauto. Qed.
Lemma grows_same c c' : tasks c' = tasks c -> grows c c'.
Proof. intros E id. rewrite E. destruct (tasks c !! id); by constructor. Qed.
Lemma grows_upd id f c : (forall t, task_le t (f t)) -> grows c (upd id f c).
Proof.
  intros Hf i. unfold upd. cbn. destruct (decide (i = id)) as [-> |Hn]; [rewrite lookup_alter_eq|rewrite lookup_alter_ne by done];
    by destruct (tasks c !! _); constructor.
Qed.
Lemma benign_le f t : benign f -> task_le t (f t).
Proof. intros Hf. destruct (Hf t) as (Er & Eo & Es & Hr). split; [done|by rewrite Es|by rewrite Eo|by rewrite Hr|rewrite Hr; lia]. Qed.
Lemma settle_le o t : task_le t (settle o t).
Proof. unfold settle. destruct (t_outcome t) eqn:E; [done|]. split; cbn; auto; [by rewrite E|lia]. Qed.
Lemma benign_grows id f c : benign f -> grows c (upd id f c).
Proof. intros Hf. apply grows_upd. intros t. by apply benign_le. Qed.
Lemma reject_grows id e c : grows c (rejectTask id e c).
Proof. apply grows_upd. intros t. etransitivity; [|apply settle_le]. split; cbn; auto; lia. Qed.
Lemma grows_fold (f : nat -> conn -> conn) l c : (forall id c, grows c (f id c)) -> grows c (foldl (fun c id => f id c) c l).
Proof. intros Hf. revert c. induction l as [|id l IH]; intros c; [done|]. cbn. etransitivity; [apply Hf|apply IH]. Qed.
Lemma fail_inflight_grows e id c : grows c (fail_inflight e id c).
Proof.
  unfold fail_inflight. cbv zeta. assert (grows c (upd id (fun t => set_t_timer false (set_t_graceTimer false (set_t_listening false t))) c)) as Hg
    by (apply benign_grows; benign). destruct (t_settled _); [done|]. etransitivity; [exact Hg|apply reject_grows].
Qed.
Lemma settle_queued_grows e id c : grows c (settle_queued e id c).
Proof.
  unfold settle_queued. cbv zeta. assert (grows c (upd id (set_t_listening false) c)) as Hg
    by (apply benign_grows; benign). destruct (t_settled _); [done|]. etransitivity; [exact Hg|apply reject_grows].
Qed.
Lemma reject_inflight_grows e c : grows c (reject_inflight e c).
Proof. apply (grows_fold (fail_inflight e) (inflight c) (set_inflight [] c)), fail_inflight_grows. Qed.
Lemma rejectQueue_grows e c : grows c (rejectQueue e c).
Proof. apply (grows_fold (fun id => rejectTask id e) (queue c) (set_queue [] c)). intros id c'. apply reject_grows. Qed.
Lemma unseen_grows c0 : unseen (grows c0).
Proof. split; try (intros; assumption). intros id f c Hf Hg. etransitivity; [exact Hg|by apply benign_grows]. Qed.
Lemma startTask_grows id c : grows c (startTask cfg id c).
Proof.
  unfold startTask. pose proof (stable_run _ _ (serialize_stable _ (unseen_grows c) id) c (reflexivity c)) as Hs.
  destruct (serialize cfg id c) as [c' [[]|e|]]; cbn [fst] in Hs; [|by etransitivity; [|apply reject_grows]|exact Hs].
  cbv zeta. destruct (bool_decide _); [|exact Hs].
  etransitivity; [exact Hs|]. apply (benign_grows id (set_t_timer true) (note (Dispatched id) (set_inflight (inflight c' ++ [id]) c'))). benign.
Qed.
Lemma flush_grows c : grows c (flushWrites c).
Proof. apply grows_same. by destruct (flush_eq c) as (o & b & w & ->). Qed.
Lemma dispatch_one_grows c : grows c (dispatch_one cfg c).
Proof.
  unfold dispatch_one. destruct (queue c) as [|id rest]; [done|]. cbv zeta. pose proof (startTask_grows id (set_queue rest c)) as Hg.
  destruct (_ <=? _); [etransitivity; [exact Hg|apply flush_grows]|exact Hg].
Qed.
Lemma dispatch_loop_grows f c : grows c (dispatch_loop cfg f c).
Proof.
  revert c. induction f as [|f IH]; intros c; cbn [dispatch_loop]; [done|]. destruct (queue c); [done|]. destruct (_ && _); [|done].
  etransitivity; [apply dispatch_one_grows|apply IH].
Qed.
Lemma reconnect_grows n e c : grows c (reconnect_round cfg n e c).
Proof.
  unfold reconnect_round. destruct (_ || _); [by apply grows_same|]. destruct (match rcMaxRetries cfg with Some m => _ | None => _ end); [|by apply grows_same].
  apply (rejectQueue_grows _ (set_state CClosed (set_loop NoLoop c))).
Qed.
Lemma down_grows e c : grows c (onSocketDown cfg e c).
Proof.
  unfold onSocketDown. case_bool_decide; [done|]. destruct (connecting c) eqn:Ec; [apply grows_same; unfold failAttempt; by rewrite Ec|]. cbv zeta. fold (cut c).
  pose proof (reject_inflight_grows e (cut c)) as Hg. change (grows c (reject_inflight e (cut c))) in Hg. generalize dependent (reject_inflight e (cut c)).
  intros c2 Hg. destruct (_ && _).
  - etransitivity; [exact Hg|]. apply (reconnect_grows 0 e (set_parseInflight ∅ (set_staleStatements ∅ (set_prepared ∅ (set_state CReconnecting c2))))).
  - etransitivity; [exact Hg|]. apply (rejectQueue_grows e (set_state CClosed c2)).
Qed.
Lemma write_now_tasks ms c : tasks (write_now ms c) = tasks c.
Proof. unfold write_now. by destruct (socket c). Qed.
Lemma processQueue_grows c : grows c (processQueue cfg c).
Proof.
  unfold processQueue. destruct (negb _); [done|]. destruct (isRetiring c).
  - destruct (inflight c); [|done]. unfold retire. etransitivity; [|apply down_grows]. apply grows_same, write_now_tasks.
  - cbv zeta. pose proof (dispatch_loop_grows (length (queue c)) c) as Hg. destruct (_ && _ && _); [exact Hg|].
    etransitivity; [exact Hg|apply flush_grows].
Qed.
Lemma resolve_grows p c : grows c (resolveCanceledHead cfg p c).
Proof.
  unfold resolveCanceledHead. cbv zeta. destruct (isRetiring c); [done|]. destruct (_ || _); [apply (processQueue_grows (set_isRetiring true c))|].
  destruct (isConfirmed _); [apply (processQueue_grows (clearPendingCancel c))|done].
Qed.
Lemma decide_grows p c : grows c (decide_cancel p c).
Proof. unfold decide_cancel. cbv zeta. destruct (_ && _); apply (resolve_grows p c). Qed.
Lemma endCanceledHead_grows id c : grows c (endCanceledHead cfg id c).
Proof.
  unfold endCanceledHead. destruct (pendingCancel c) as [p|]; [|done]. cbv zeta. destruct (negb _ && _).
  - destruct (isRetiring _); [by apply grows_same|]. destruct (is_57014 _); [by apply grows_same|]. apply (decide_grows p (set_lateCancel _ (upd_pending p no_head c))).
  - destruct (isRetiring _); [by apply grows_same|]. destruct (is_57014 _); [by apply grows_same|]. apply (decide_grows p (upd_pending p no_head c)).
Qed.

(** ** The end of a query *)

Lemma head_check_weak id c : weak [id] [id] false c -> weak [id] [] false (head_check cfg id c).
Proof.
  intros Hw. unfold head_check.
  assert ((forall p, pendingCancel c = Some p -> phead (pending p c) <> Some id) -> weak [id] [] false c) as Hother.
  { intros Hne. destruct Hw as [Ha [H1' H2' H3' H4' H5' H6' H7' H8' H9' H10' H11' H12']]. split; [done|]. split; try done. intros p Ep.
    destruct (H6' p Ep) as [Hs [(h & Eh & Hh)|?]]; (split; [done|]); [left|by right]. exists h. split; [done|].
    apply elem_of_cons in Hh as [->|Hh]; [by destruct (Hne p Ep)|done]. }
  destruct (pendingCancel c) as [p|] eqn:Ep; [|apply Hother; naive_solver].
  case_bool_decide as Eh; [by apply (endCanceledHead_weak [id] [id] false id c p)|]. apply Hother. intros q [= <-]. exact Eh.
Qed.
(** A cancel may take the connection down, but then the query it was for is settled. *)
Lemma head_check_state id c : acct [id] c -> state c = CReady ->
  state (head_check cfg id c) = CReady \/ t_settled (the id (head_check cfg id c)) = true.
Proof.
  intros Ha Hr. unfold head_check. destruct (pendingCancel c) as [p|] eqn:Ep; [|by left]. case_bool_decide as Eh; [|by left]. right.
  destruct (w_dom _ _ _ _ _ _ _ _ Ha id) as [t Et]; [by left|].
  pose proof (w_heads _ _ _ _ _ _ _ _ Ha p id t Ep Eh Et) as Hst.
  destruct (grows_lookup _ _ id t (endCanceledHead_grows id c) Et) as (t' & Et' & Hle). unfold the. rewrite Et'. by apply Hle.
Qed.
Lemma late_check_weak X Y ex id c : weak X Y ex c -> weak X Y ex (late_check id c).
Proof. intros Hw. unfold late_check. destruct (lateCancel c) as [[p s]|]; [|done]. case_bool_decide; [by apply checkLate_weak|done]. Qed.
Lemma late_check_state id c : state (late_check id c) = state c.
Proof.
  unfold late_check. destruct (lateCancel c) as [[p s]|]; [|done]. case_bool_decide; [|done].
  by destruct (checkLate_eq id c) as [-> |(l & [-> |[-> |[a ->]]])].
Qed.
Lemma forget_parse_eq id c : exists p s, forget_parse id c = set_parseInflight p (set_staleStatements s c).
Proof.
  assert (exists p s, c = set_parseInflight p (set_staleStatements s c)) as Hc by (exists (parseInflight c), (staleStatements c); by destruct c).
  unfold forget_parse. cbv zeta. destruct (t_error (the id c)), (t_cacheName (the id c)) as [n|]; try exact Hc. case_bool_decide; [|exact Hc].
  case_bool_decide; [by do 2 eexists|]. exists (parseInflight c), ({[n]} ∪ staleStatements c). by destruct c.
Qed.
Lemma settle_result_acct X id c : acct (id :: X) c -> acct X (settle_result id c).
Proof.
  intros Ha. unfold settle_result. cbv zeta. assert (forall o, acct X (upd id (settle o) c)) as Hs.
  { intros o. eapply acct_done; [|apply (settle_upd_settles id o (fun t => t))]. apply upd_acct; [|done]. by apply (settle_keeps o (fun t => t)). }
  destruct (t_settled _) eqn:Es.
  - apply (acct_done _ id); [done|]. intros t Et. by eapply the_settled.
  - destruct (t_wire (the id c)), (t_error (the id c)) as [[]|]; try apply Hs; try (by apply reject_done). by destruct (is_stream _).
Qed.
Lemma settle_result_tasks id : only_tasks (settle_result id).
Proof.
  intros c. assert (exists tk, c = set_tasks tk c) as Hc by (exists (tasks c); by destruct c). unfold settle_result. cbv zeta.
  destruct (t_settled _); [done|]. destruct (t_wire (the id c)), (t_error (the id c)) as [[]|]; try by eexists. by destruct (is_stream _); eexists.
Qed.
(** Nothing was written since. *)
Definition kept (c c' : conn) : Prop := outbuf c' = outbuf c /\ flushScheduled c' = flushScheduled c.
Lemma complete_start id c : weak [id] [] false c ->
  exists c', complete cfg id c = processQueue cfg c' /\ weak [] [] false c' /\ kept c c'.
Proof.
  intros Hw. unfold complete.
  assert (weak [id] [] false (upd id (fun t => set_t_timer false (set_t_graceTimer false (set_t_listening false t))) c)) as [Ha Hp]
    by (apply benign_weak; [benign|done]).
  assert (kept c (upd id (fun t => set_t_timer false (set_t_graceTimer false (set_t_listening false t))) c)) as Hk by done.
  generalize dependent (upd id (fun t => set_t_timer false (set_t_graceTimer false (set_t_listening false t))) c). intros c1 Ha Hp Hk.
  exists (settle_result id c1). split; [done|]. split; [split; [by apply settle_result_acct|]|]; by destruct (settle_result_tasks id c1) as [tk ->].
Qed.
Lemma for_retry_keeps : keeps_outcome for_retry.
Proof. intros t. split; [done|split; [by left|done]]. Qed.
Lemma requeue_weak id c : state c = CReady -> weak [id] [] false c -> weak [] [] false (set_queue (queue c ++ [id]) (upd id for_retry c)).
Proof.
  intros Hr Hw. destruct (upd_weak _ _ _ id for_retry c for_retry_keeps Hw) as [Ha Hp]. split.
  - eapply acct_perm; [|exact Ha]. cbn. rewrite <- Permutation_middle, app_nil_r. done.
  - destruct Hp as [H1' H2' H3' H4' H5' H6' H7' H8' H9' H10' H11' H12']. unfold phase. cbn in *. split; try done.
    by rewrite Hr.
Qed.
Lemma retry_or_complete_start id c : state c = CReady \/ t_settled (the id c) = true -> weak [id] [] false c ->
  exists c', retry_or_complete cfg id c = processQueue cfg c' /\ weak [] [] false c' /\ kept c c'.
Proof.
  intros Hs Hw. pose proof (complete_start id c Hw) as Hc. unfold retry_or_complete. cbv zeta.
  destruct (named (t_req (the id c))) as [n|], (t_error (the id c)) as [e|]; try exact Hc. destruct (invalidated e); [|exact Hc].
  assert (weak [id] [] false (set_staleStatements ({[n]} ∪ staleStatements c) (set_prepared (delete n (prepared c)) c))) as Hw' by exact Hw.
  destruct (retryable _ _) eqn:Er; [|exact (complete_start id _ Hw')].
  eexists. split; [done|]. split; [|done]. apply requeue_weak; [|done]. destruct Hs as [|Hs]; [done|]. unfold retryable in Er. by rewrite Hs in Er.
Qed.
Lemma pull_weak id rest c : inflight c = id :: rest -> weak [] [] false c -> weak [id] [id] false (set_inflight rest c).
Proof.
  intros Ei [Ha Hp]. split.
  - eapply acct_perm; [|exact Ha]. rewrite Ei. cbn. by rewrite Permutation_middle.
  - destruct Hp as [H1' H2' H3' H4' H5' H6' H7' H8' H9' H10' H11' H12']. rewrite Ei in *. unfold phase. cbn in *. split; try done. intros _. by apply H1'.
Qed.
Lemma finishTask_weak c : weak [] [] false c -> weak [] [] false (finishTask cfg c).
Proof.
  intros Hw. unfold finishTask. destruct (inflight c) as [|id rest] eqn:Ei; [by apply processQueue_weak|].
  assert (state c = CReady) as Hr.
  { destruct Hw as [_ Hp]. apply (w_inflight _ _ _ _ _ _ _ _ _ _ _ _ _ _ _ _ _ Hp). by rewrite Ei. }
  pose proof (late_check_weak _ _ _ id _ (pull_weak id rest c Ei Hw)) as Hw1.
  assert (state (late_check id (set_inflight rest c)) = CReady) as Hr1 by by rewrite late_check_state.
  generalize dependent (late_check id (set_inflight rest c)). intros c1 Hw1 Hr1.
  pose proof (head_check_weak id c1 Hw1) as Hw2. pose proof (head_check_state id c1 (proj1 Hw1) Hr1) as Hs2.
  generalize dependent (head_check cfg id c1). intros c2 Hw2 Hs2. destruct (forget_parse_eq id c2) as (p & s & ->).
  destruct (retry_or_complete_start id (set_parseInflight p (set_staleStatements s c2)) Hs2 Hw2) as (c' & -> & Hw' & _). by apply processQueue_weak.
Qed.

(** ** Messages *)

Abbreviation inv := (weak [] [] false).

(** The handshake is over. *)
Lemma connected_weak c : connecting c = true -> inv c -> inv (set_loop NoLoop (set_state CReady (set_everConnected true (set_connecting false c)))).
Proof.
  intros Ec [Ha [H1' H2' H3' H4' H5' H6' H7' H8' H9' H10' H11' H12']]. split; [exact Ha|]. destruct (H3' Ec) as (Hs & Hl & Eat & Ecp).
  phase_tac.
  - rewrite Eat. by intros [? ?].
  - intros p Ep. destruct (H6' p Ep) as [E _]. by destruct Hs; congruence.
  - intros _. by left.
Qed.
Lemma ready_weak body c : inv c -> inv (ready cfg body c).
Proof.
  intros Hw. unfold ready. cbv zeta. assert (inv (set_txStatus (default 73 (head body)) c)) as Hw1 by exact Hw.
  generalize dependent (set_txStatus (default 73 (head body)) c). intros c1 Hw1. destruct (connecting c1) eqn:Ec; [|by apply finishTask_weak].
  by apply processQueue_weak, connected_weak.
Qed.

Lemma hung_weak X Y ex c : weak X Y ex c -> weak X Y ex (set_hung true c).
Proof. intros [[Hn Hd Ha Hs Hf Hhd] Hp]. by split. Qed.
End Connection.

(** A property that every handler of a message keeps. *)
Section Messages.
Context `{Env, Alloc, Crypto} (cfg : Config) (P : conn -> Prop).
Record message_invariant : Prop := {
  m_upd id f c : benign f -> P c -> P (upd id f c);
  m_ready body c : P c -> P (ready cfg body c);
  m_write ms c : P c -> P (write_now ms c);
  m_fail e c : P c -> P (failAttempt e c);
  m_down e c : P c -> P (onSocketDown cfg e c);
  m_cache id n c : P c -> P (cacheStatement id n c);
  m_params m c : P c -> P (set_serverParams m c);
  m_key k c : P c -> P (set_backendKey k c);
  m_scram s c : P c -> P (set_scramState s c);
  m_parser b c : P c -> P (set_parser b c);
  m_hung c : P c -> P (set_hung true c) }.
Context (HP : message_invariant).

Lemma upd_stable id f : benign f -> stable P (modify (upd id f)).
Proof using HP. intros Hf. apply stable_modify. intros c. by apply (m_upd HP). Qed.
Lemma assign_stable id cols : stable P (assignMapper cfg id cols).
Proof using HP. unfold assignMapper. repeat first [apply upd_stable; benign | stable_step]. Qed.
Lemma try_assign_stable id cols : stable P (fun c =>
  match assignMapper cfg id cols c with
  | (c', Throw e) => (upd id (set_t_error (Some (Thrown e))) c', Ok tt)
  | x => x
  end).
Proof using HP.
  constructor. intros c Hc. pose proof (stable_run _ _ (assign_stable id cols) c Hc) as Ha.
  destruct (assignMapper cfg id cols c) as [c' [[]|e|]]; [exact Ha|apply (m_upd HP); [benign|exact Ha]|exact Ha].
Qed.
Lemma describe_row_stable id body : stable P (describe_row cfg id body).
Proof using HP.
  unfold describe_row.
  repeat first [ apply try_assign_stable | apply upd_stable; benign | apply stable_modify; intros ?; apply (m_cache HP) | stable_step ].
Qed.
Lemma with_current_stable f : (forall id, stable P (f id)) -> stable P (with_current f).
Proof using Type. intros Hf. unfold with_current. apply stable_bind; [apply stable_gets|]. intros [id|]; [apply Hf|apply stable_ret]. Qed.
Lemma send_now_stable b : stable P (send_now b).
Proof using HP. unfold send_now. repeat stable_step. by apply (m_write HP). Qed.
Lemma fail_fatal_stable m : stable P (fail_fatal m).
Proof using HP. apply stable_modify. intros c. apply (m_fail HP). Qed.
Lemma auth_stable rnd body : stable P (auth cfg rnd body).
Proof using HP.
  unfold auth. repeat first [ apply send_now_stable | apply fail_fatal_stable | stable_step ]; by apply (m_scram HP).
Qed.
Lemma dataRow_closed body c : P c -> P (dataRow cfg body c).
Proof using HP.
  intros Hw. unfold dataRow. destruct (current c) as [id|]; [|done]. cbv zeta. destruct (_ || _); [done|].
  destruct (row_of _ _ _); [apply (m_upd HP); [benign|done]|apply (m_upd HP); [benign|done]|by apply (m_hung HP)].
Qed.
Lemma handle_stable rnd m : stable P (handle cfg rnd m).
Proof using HP.
  unfold handle. cbv zeta.
  repeat first [ apply auth_stable | apply describe_row_stable | apply with_current_stable; intros ? | apply upd_stable; benign
    | apply stable_modify; intros ?; first [apply (m_ready HP) | apply dataRow_closed | apply (m_write HP)
        | apply (m_fail HP) | apply (m_cache HP) | apply (m_params HP) | apply (m_key HP)]
    | stable_step ].
Qed.
Lemma handle_all_closed rnd ms c : P c -> P (handle_all cfg rnd ms c).
Proof using HP.
  revert c. induction ms as [|m ms IH]; intros c Hw; [done|]. cbn [handle_all].
  pose proof (stable_run _ _ (handle_stable rnd m) c Hw) as Hh. destruct (handle cfg rnd m c) as [c' [[]|e|]]; cbn [fst] in Hh.
  - destruct (hung c'); [done|by apply IH].
  - by apply (m_down HP).
  - by apply (m_hung HP).
Qed.
Lemma onData_closed rnd chunk c : P c -> P (onData cfg rnd chunk c).
Proof using HP.
  intros Hw. unfold onData. destruct (Parser.push chunk (parser c)) as [b r]. cbv zeta.
  pose proof (m_parser HP b c Hw) as Hw1. generalize dependent (set_parser b c). intros c1 Hw1. destruct r as [ms|e|].
  - by apply handle_all_closed.
  - by apply (m_down HP).
  - by apply (m_hung HP).
Qed.
End Messages.

Section Events.
Context `{Env, Alloc, Crypto} (cfg : Config) (live : bool).
Abbreviation inv := (weak live [] [] false).
Ltac phase_tac := unfold phase; cbn; split; try done.

Lemma inv_message : live = true -> message_invariant cfg inv.
Proof.
  intros Hl. split; try (intros; assumption).
  - intros. by apply benign_weak.
  - intros. by apply ready_weak.
  - intros. by apply write_now_weak.
  - intros. by apply failAttempt_weak.
  - intros e c Hw. apply (down_weak cfg live [] [] false); [|done]. by apply (w_live _ _ _ _ _ _ _ _ _ _ _ _ _ _ _ _ _ _ (proj2 Hw)).
  - intros. by apply hung_weak.
Qed.

(** ** Establishing and closing *)

(** Everything but who waits for the attempt. *)
Record startable (c : conn) : Prop := {
  s_acct : acct [] c;
  s_promise : connectPromise c = true;
  s_inflight : inflight c = [];
  s_loop : loop c <> NoLoop -> ended c = false;
  s_who : everConnected c = false \/ exists n e, loop c = Attempting n e;
  s_pending : pendingCancel c = None;
  s_outbuf : outbuf c = [];
  s_retiring : isRetiring c = false;
  s_fresh : forall p, is_Some (pendings c !! p) -> (p < next c)%nat }.
Lemma establish_weak c : startable c -> inv (establish cfg c).
Proof.
  intros [Ha Ecp Ei El Hwho Ep Eo Er Hf]. unfold establish. cbv zeta.
  set (c1 := set_attempt None _). assert (inv c1) as Hw1.
  { split; [exact Ha|]. unfold c1. phase_tac; rewrite ?Ei, ?Eo, ?Ep, ?Er; try done.
    - intros _. by destruct (everConnected c).
    - intros _. split; [destruct (everConnected c); auto|]. by destruct Hwho; auto.
    - intros Hl. split; [done|]. split; [by destruct (everConnected c)|]. by rewrite El.
    - intros _. by right; right; left. }
  destruct (hasTransport cfg); [exact Hw1|by apply failAttempt_weak].
Qed.
Lemma inflight_nil c : inv c -> state c <> CReady -> inflight c = [] /\ pendingCancel c = None.
Proof.
  intros [_ Hp] Hr. destruct Hp as [H1' H2' H3' H4' H5' H6' H7' H8' H9' H10' H11' H12']. split.
  - destruct (inflight c); [done|]. by destruct Hr; apply H1'.
  - destruct (pendingCancel c) as [p|]; [|done]. by destruct (H6' p eq_refl).
Qed.
Lemma connect_weak c : inv c -> inv (connect cfg c).
Proof.
  intros Hw. unfold connect. destruct (connectPromise c) eqn:Ecp; [done|]. apply establish_weak.
  assert (state c <> CReady) as Hr. { intros E. destruct Hw as [_ Hp]. by rewrite (promise_ready live [] false c) in Ecp. }
  destruct (inflight_nil c Hw Hr) as [Ei Ep]. destruct Hw as [Ha [H1' H2' H3' H4' H5' H6' H7' H8' H9' H10' H11' H12']].
  destruct (H8' Hr). split; cbn; try done.
  - intros Hl. by destruct (H5' Hl); congruence.
  - left. destruct (everConnected c); [|done]. rewrite Ecp in H9'. by ospecialize (H9' _); [auto|].
Qed.
Lemma onTransport_weak c : inv c -> inv (onTransport cfg c).
Proof.
  intros [Ha Hp]. unfold onTransport. destruct (connecting c) eqn:Ec; [|done]. cbn [negb]. cbv zeta.
  assert (inv (set_wire [] (set_writeBackedUp false (set_socket true c)))) as Hw1.
  { split; [exact Ha|]. destruct Hp as [H1' H2' H3' H4' H5' H6' H7' H8' H9' H10' H11' H12']. destruct (H3' Ec) as (_ & _ & _ & Ecp). phase_tac. }
  destruct (W.startup _); [by apply write_now_weak|done..].
Qed.
(** The end of a wait: the connection is closed, or nobody is left waiting. *)
Lemma loop_over c : inv c -> ended c || bool_decide (state c = CClosed) = true -> loop c <> NoLoop -> state c = CClosed /\ queue c = [].
Proof.
  intros [_ [H1' H2' H3' H4' H5' H6' H7' H8' H9' H10' H11' H12']] He Hl. destruct (H5' Hl) as (_ & _ & Hen).
  assert (state c = CClosed) as Ec. { apply orb_true_iff in He as [He|He]; [by apply Hen|by apply bool_decide_eq_true in He]. }
  split; [done|]. destruct (queue c); [done|]. by destruct H2'.
Qed.
Lemma noloop_weak c : inv c -> state c = CClosed -> queue c = [] -> inv (set_loop NoLoop c).
Proof.
  intros [Ha [H1' H2' H3' H4' H5' H6' H7' H8' H9' H10' H11' H12']] Ec Eq. split; [exact Ha|]. phase_tac; rewrite ?Ec, ?Eq in *; try done.
  - intros Hc. by destruct (H3' Hc) as [[]].
  - intros Hat. destruct (H4' Hat) as (? & ? & _). repeat split; try done. by right; right; right.
Qed.
Lemma onBackoff_weak c : inv c -> inv (onBackoff cfg c).
Proof.
  intros Hw. unfold onBackoff. destruct (loop c) as [|n e|] eqn:El; try done. assert (loop c <> NoLoop) as Hl by by rewrite El.
  destruct (ended c || _) eqn:Ee.
  { destruct (loop_over c Hw Ee Hl). by apply noloop_weak. }
  apply orb_false_iff in Ee as [Ee Ecl]. apply bool_decide_eq_false in Ecl. apply establish_weak.
  assert (state c <> CReady) as Hr by (destruct Hw as [_ Hp]; by apply (w_loop _ _ _ _ _ _ _ _ _ _ _ _ _ _ _ _ _ _ Hp)).
  destruct (inflight_nil c Hw Hr) as [Ei Ep]. destruct Hw as [Ha [H1' H2' H3' H4' H5' H6' H7' H8' H9' H10' H11' H12']].
  destruct (H8' Hr). destruct (H5' Hl). split; cbn; try done. right. by do 2 eexists.
Qed.
Lemma attempt_dead c e : attempt c = Some e -> inv c -> dead [] (set_attempt None c) /\ state c <> CReady.
Proof.
  intros Ea Hw. assert (state c <> CReady) as Hr. { destruct Hw as [_ Hp]. apply (w_attempt _ _ _ _ _ _ _ _ _ _ _ _ _ _ _ _ _ _ Hp). by rewrite Ea. }
  split; [|done]. destruct (inflight_nil c Hw Hr) as [Ei Ep]. destruct Hw as [Ha [H1' H2' H3' H4' H5' H6' H7' H8' H9' H10' H11' H12']].
  destruct (H8' Hr). destruct H4' as (_ & Ecp & _); [by rewrite Ea|]. split; cbn; try done.
  destruct (connecting c) eqn:Ec; [|done]. destruct (H3' eq_refl) as (_ & _ & En & _). by rewrite Ea in En.
Qed.
Lemma onAttempt_weak c : inv c -> inv (onAttempt cfg c).
Proof.
  intros Hw. unfold onAttempt. destruct (attempt c) as [e|] eqn:Ea; [|done]. cbv zeta. destruct (attempt_dead c e Ea Hw) as [Hd Hr].
  change (loop (set_attempt None c)) with (loop c). change (everConnected (set_attempt None c)) with (everConnected c).
  assert ((everConnected c = true \/ state c = CClosed) -> (forall n e, loop c <> Attempting n e) \/ state c = CClosed -> inv (set_attempt None c)) as Hdrop.
  { intros Hev Hnl. destruct Hw as [Ha [H1' H2' H3' H4' H5' H6' H7' H8' H9' H10' H11' H12']]. split; [exact Ha|]. phase_tac.
    - intros Hc. by destruct (H3' Hc) as (? & ? & _ & ?).
    - intros Hc. destruct H4' as (_ & _ & [(n & e' & El)|[Hf|[(n & e' & El)|?]]]); [by rewrite Ea|..]; try done.
      + by destruct Hnl as [Hnl|]; [destruct (Hnl n e')|].
      + by destruct Hev; congruence.
      + right; right; right; right. eauto. }
  destruct (loop c) as [|n e'|n e'] eqn:El.
  - destruct (everConnected c) eqn:Ev; [apply Hdrop; auto|]. apply rejectQueue_weak; [|done]. by apply dead_state.
  - destruct (everConnected c) eqn:Ev; [apply Hdrop; auto|]. apply rejectQueue_weak; [|done]. by apply dead_state.
  - destruct (isFatalAuth _). { apply rejectQueue_weak; [|done]. by apply dead_state, dead_loop. }
    destruct (ended c || bool_decide (state c = CClosed)) eqn:Ee.
    + destruct (loop_over c Hw Ee ltac:(by rewrite El)) as [Ecl Eq]. unfold reconnect_round. cbn [ended state set_attempt]. rewrite Ee.
      apply (noloop_weak (set_attempt None c)); [apply Hdrop; auto|done..].
    + apply orb_false_iff in Ee as [Ee Ecl]. apply bool_decide_eq_false in Ecl. by apply reconnect_weak.
Qed.

Lemma onClose_weak e c : inv c -> inv (onClose cfg e c).
Proof.
  intros Hw. unfold onClose. destruct (socket c) eqn:Es; [|done].
  assert (connectPromise c = true) as Ecp by (apply (w_promise _ _ _ _ _ _ _ _ _ _ _ _ _ _ _ _ _ _ (proj2 Hw)); auto).
  exact (down_weak cfg live [] [] false _ c Ecp Hw).
Qed.
Lemma onDrain_weak c : inv c -> inv (onDrain cfg c).
Proof. intros Hw. unfold onDrain. destruct (writeBackedUp c); [|done]. by apply processQueue_weak. Qed.
Lemma onMicrotask_weak c : inv c -> inv (onMicrotask c).
Proof. intros Hw. unfold onMicrotask. by apply flush_weak. Qed.
Lemma settlePending_acct e c : acct [] c -> acct [] (settlePending e c).
Proof. intros Ha. unfold settlePending. cbv zeta. by apply settleQueue_acct, reject_inflight_acct. Qed.
(** The state in which end() answers everyone. *)
Definition ending (c : conn) : conn :=
  let c := set_state CClosed (write_now [MTerminate] (set_ended true c)) in
  if connecting c then set_attempt (Some ended_error) (set_connecting false c) else c.
Lemma ending_spec c : inv c -> let c' := ending c in
  acct [] c' /\ state c' = CClosed /\ connecting c' = false /\ pendings c' = pendings c /\ next c' = next c /\
  connectPromise c' = connectPromise c /\ everConnected c' = everConnected c /\ loop c' = loop c /\
  (is_Some (attempt c') -> connectPromise c = true).
Proof.
  intros [Ha Hp]. unfold ending, write_now. cbv zeta. cbn. destruct (socket c); cbn; (destruct (connecting c) eqn:Ec; cbn;
    (split; [exact Ha|]; repeat (split; [done|])); intros Hat).
  1,3: by destruct (w_conn _ _ _ _ _ _ _ _ _ _ _ _ _ _ _ _ _ _ Hp Ec) as (_ & _ & _ & ?).
  all: by destruct (w_attempt _ _ _ _ _ _ _ _ _ _ _ _ _ _ _ _ _ _ Hp Hat) as (_ & ? & _).
Qed.
(** What settlePending leaves. *)
Lemma settlePending_spec e c : let c' := settlePending e c in
  state c' = state c /\ queue c' = [] /\ inflight c' = [] /\ outbuf c' = [] /\ connecting c' = connecting c /\ pendings c' = pendings c /\ next c' = next c /\
  connectPromise c' = connectPromise c /\ everConnected c' = everConnected c /\ loop c' = loop c /\ attempt c' = attempt c.
Proof. destruct (settlePending_eq e c) as [tk ->]. by repeat split. Qed.
Lemma end_weak c : inv c -> inv (end_ c).
Proof.
  intros Hw. unfold end_. case_bool_decide; [done|]. cbv zeta. fold (ending c).
  pose proof (ending_spec c Hw) as Hs. cbv zeta in Hs. generalize dependent (ending c).
  intros c1 (Ha & Es & Ec & Epd & En & Ecp & Eev & El & Hat). apply (settlePending_acct ended_error) in Ha.
  pose proof (settlePending_spec ended_error c1) as Hs. cbv zeta in Hs. generalize dependent (settlePending ended_error c1).
  intros c2 Ha (Es2 & Eq2 & Ei2 & Eo2 & Ec2 & Epd2 & En2 & Ecp2 & Eev2 & El2 & Eat2).
  destruct Hw as [_ [H1' H2' H3' H4' H5' H6' H7' H8' H9' H10' H11' H12']]. split; [apply (clear_acct [] c2 Ha)|].
  phase_tac; rewrite ?Eq2, ?Ei2, ?Eo2, ?Eat2, ?Es2, ?Es, ?Ec2, ?Ec, ?Epd2, ?Epd, ?En2, ?En, ?Ecp2, ?Ecp, ?Eev2, ?Eev, ?El2, ?El; try done.
  - intros Hx. split; [done|]. split; [by apply Hat|by right; right; right].
  - intros Hl. by destruct (H5' Hl) as [? _].
  - intros [?|[?|?]]; [done..|]. auto.
Qed.

(** ** The query API *)

Lemma add_weak t c : (t_settled t = true -> is_Some (t_outcome t)) -> inv c ->
  accounted [next c] (queue c) (inflight c) (<[next c := t]> (tasks c)) (S (next c)) (hung c) (pendingCancel c) (pendings c).
Proof.
  intros Hst [[Hn Hd Ha Hs Hf Hhd] Hp]. assert (tasks c !! next c = None) as Hnone.
  { destruct (tasks c !! next c) eqn:E; [|done]. assert (next c < next c)%nat by (apply Hf; by rewrite E). lia. }
  assert (forall i, is_Some (tasks c !! i) -> i <> next c) as Hne by (intros i [x Ei] ->; congruence). split.
  - cbn. apply NoDup_cons. split; [|done]. intros Hin. by apply Hd in Hin as [? ?]; congruence.
  - intros i Hi. cbn in Hi. apply elem_of_cons in Hi as [-> |Hi]; [by rewrite lookup_insert_eq|].
    rewrite lookup_insert_ne; [by apply Hd|]. apply not_eq_sym, Hne. by apply Hd.
  - intros Hh i t' E. destruct (decide (i = next c)) as [-> |Hi]; [left; by left|]. rewrite lookup_insert_ne in E by done.
    destruct (Ha Hh i t' E) as [?|?]; [left; by right|by right].
  - intros i t' E. destruct (decide (i = next c)) as [-> |Hi].
    + rewrite lookup_insert_eq in E. by simplify_eq.
    + rewrite lookup_insert_ne in E by done. by eapply Hs.
  - intros i Hi. destruct (decide (i = next c)) as [-> |Hne']; [lia|]. rewrite lookup_insert_ne in Hi by done. specialize (Hf i Hi). lia.
  - intros p h t' Ep Eh E. destruct (decide (h = next c)) as [-> |Hne'].
    + destruct (w_cancel _ _ _ _ _ _ _ _ _ _ _ _ _ _ _ _ _ _ Hp p Ep) as [_ [(h & Eh' & Hh)|[Eh' _]]]; [|by rewrite Eh in Eh'].
      assert (h = next c) as -> by congruence. cbn in Hh. destruct (Hne (next c)); [|done].
      apply Hd. cbn. apply elem_of_app. by right.
    + rewrite lookup_insert_ne in E by done. by eapply Hhd.
Qed.
Lemma next_phase st q c : (q = queue c \/ state c <> CClosed) -> st = state c -> phase live [] false c ->
  phases live [] false st q (inflight c) (S (next c)) (connecting c) (attempt c) (loop c) (ended c) (everConnected c) (connectPromise c)
    (pendingCancel c) (pendings c) (isRetiring c) (outbuf c) (socket c).
Proof.
  intros Hq -> [H1' H2' H3' H4' H5' H6' H7' H8' H9' H10' H11' H12']. split; try done.
  - by destruct Hq as [-> |].
  - intros p Hp. specialize (H7' p Hp). lia.
Qed.
Lemma reject_new_weak t e c : inv c -> inv (add_task (settle (Rejected e) t) c).
Proof.
  intros Hw. split; [|apply (next_phase (state c) (queue c) c); [by left|done|apply Hw]].
  pose proof (add_weak (settle (Rejected e) t) c ltac:(intros _; apply settle_outcome) Hw) as Hadd.
  apply (acct_done [] (next c) (add_task (settle (Rejected e) t) c)); [exact Hadd|]. intros t' E. cbn in E. rewrite lookup_insert_eq in E. simplify_eq. apply settle_outcome.
Qed.
Lemma submitted_weak t c : t_settled t = false -> state c <> CClosed -> inv c ->
  inv (set_queue (queue (add_task t c) ++ [next c]) (add_task t c)).
Proof.
  intros Hst Hc Hw. pose proof (add_weak t c ltac:(congruence) Hw) as Hadd.
  split; [|apply (next_phase (state c) (queue c ++ [next c]) c); [by right|done|apply Hw]].
  unfold acct. cbn. eapply (accounted_perm [next c] []); [|exact Hadd]. cbn. rewrite <- app_assoc. cbn. by rewrite <- Permutation_middle.
Qed.
Lemma submit_weak t s c : t_settled t = false -> state c <> CClosed -> inv c -> inv (submit cfg t s c).
Proof.
  intros Hst Hc Hw. unfold submit. destruct s as [[r|]|]; cbv zeta; [by apply reject_new_weak|..];
    by apply processQueue_weak, submitted_weak.
Qed.

(** What every task that is made satisfies. *)
Definition yields {A} (P : A -> Prop) (r : res A) : Prop := match r with Ok a => P a | _ => True end.
Lemma yields_bind {A B} (P : B -> Prop) (r : res A) (f : A -> res B) : (forall a, yields P (f a)) -> yields P (r ≫= f).
Proof. intros Hf. by destruct r; cbn. Qed.
Definition fresh_task (t : Task) : Prop := t_settled t = false /\ t_outcome t = None /\ t_retries t = 0%nat.
Lemma query_task_fresh sql ps o : yields fresh_task (query_task cfg sql ps o).
Proof.
  unfold query_task. cbv zeta. destruct ps as [vs|r]; (apply yields_bind; intros ?; apply yields_bind; intros ?;
    destruct (default _ _); try (apply yields_bind; intros ?; done);
    (destruct (o_shape o); [|by destruct (o_binary o)]); (apply yields_bind; intros ?); destruct (existsb _ _); try done; by apply yields_bind).
Qed.
Lemma queryTyped_fresh r m cols : yields fresh_task (mp ← getMapper cfg cols m; Ok (set_t_resultFormat (Some (formats cols)) (set_t_mapper mp (new_task r)))).
Proof. by apply yields_bind. Qed.
Lemma open_task_weak r s c : yields fresh_task r -> inv c -> inv (open_task cfg r s c).
Proof.
  intros Hr Hw. unfold open_task. case_bool_decide as Hc; [by apply reject_new_weak|].
  destruct r as [t|e|]; [|by apply reject_new_weak|by apply hung_weak]. destruct Hr. by apply submit_weak.
Qed.
Lemma return_weak id c : inv c -> inv (return_ cfg id c).
Proof.
  intros Hw. unfold return_. cbv zeta. assert (inv (upd id (set_t_cancelled true) c)) as Hw1 by (apply benign_weak; [benign|done]).
  destruct (_ && _); [by apply cancelTask_weak|done].
Qed.
End Events.
