(* ===== verification/ConnLive.v ===== *)
(** * A connection loses no caller: the theorem (src/connection.ts)

    Between two events every task of a connection is queued, in flight or answered, the requests in flight have been
    or are about to be written, and an open connection has something to wait for. *)

From S2P Require Import Prelude Utf8 Text Buf Num Dates Value NumText Faults Auth Json JsonBig ExtTypes JsonSpec JsonScan ArrayText Temporal Protocol Framing Messages Errors Encode Decode Mapper Spec Connection ConnDemo ConnProofs.

Lemma live_on c : connectPromise c = true -> weak false [] [] false c -> weak true [] [] false c.
Proof. intros Hc [Ha [H1 H2 H3 H4 H5 H6 H7 H8 H9 H10 H11 H12]]. split; [done|]. by split. Qed.
Lemma live_off c : weak true [] [] false c -> weak false [] [] false c.
Proof. intros [Ha [H1 H2 H3 H4 H5 H6 H7 H8 H9 H10 H11 H12]]. split; [done|]. by split. Qed.

Section Live.
Context `{Env, Alloc, Crypto} (cfg : Config).
Abbreviation inv := (weak false [] [] false).

(** ** What a connection waits for *)

Record strong (c : conn) : Prop := {
  s_move : hung c = false -> state c = CReady -> isRetiring c = false -> queue c <> [] ->
    inflight c <> [] \/ writeBackedUp c = true \/ is_Some (pendingCancel c);
  s_retire : isRetiring c = true -> inflight c <> [];
  s_flush : outbuf c <> [] -> flushScheduled c = true }.
Definition flushed (c : conn) : Prop := outbuf c <> [] -> flushScheduled c = true.

Lemma idle_strong live X Y ex c : state c <> CReady -> weak live X Y ex c -> strong c.
Proof.
  intros Hr [_ Hp]. destruct (w_calm _ _ _ _ _ _ _ _ _ _ _ _ _ _ _ _ _ _ Hp Hr) as [Eo Ei]. split; [done|by rewrite Ei|by rewrite Eo].
Qed.
Lemma reconnect_state n e c : state c <> CReady -> state (reconnect_round cfg n e c) <> CReady.
Proof.
  intros Hr. unfold reconnect_round. destruct (_ || _); [done|]. destruct (match rcMaxRetries cfg with Some m => _ | None => _ end); [|done].
  by destruct (rejectQueue_eq (reconnect_failed n e) (set_state CClosed (set_loop NoLoop c))) as [tk ->].
Qed.
Lemma down_state live X Y ex e c : weak live X Y ex c -> state (onSocketDown cfg e c) <> CReady.
Proof.
  intros [_ Hp]. unfold onSocketDown. case_bool_decide as Ec; [by rewrite Ec|]. destruct (connecting c) eqn:Ecn.
  - destruct (w_conn _ _ _ _ _ _ _ _ _ _ _ _ _ _ _ _ _ _ Hp Ecn) as [Hs _]. unfold failAttempt. rewrite Ecn. cbn. by destruct Hs as [-> | ->].
  - cbv zeta. generalize (reject_inflight e (note SocketDown (set_outbuf [] (set_socket false (clearPendingCancel c))))). intros c2.
    destruct (_ && _).
    + apply (reconnect_state 0 e (set_parseInflight ∅ (set_staleStatements ∅ (set_prepared ∅ (set_state CReconnecting c2))))). done.
    + by destruct (rejectQueue_eq e (set_state CClosed c2)) as [tk ->].
Qed.
Lemma down_strong live X Y ex e c : connectPromise c = true -> weak live X Y ex c -> strong (onSocketDown cfg e c).
Proof. intros Ecp Hw. eapply idle_strong; [by eapply down_state|by eapply down_weak]. Qed.

Lemma startTask_frame id c :
  isRetiring (startTask cfg id c) = isRetiring c /\ pendingCancel (startTask cfg id c) = pendingCancel c.
Proof.
  unfold startTask. pose proof (stable_run _ _ (serialize_stable cfg (fun c' => isRetiring c' = isRetiring c /\ pendingCancel c' = pendingCancel c)
    ltac:(split; intros; assumption) id) c (conj eq_refl eq_refl)) as Hs.
  destruct (serialize cfg id c) as [c' [[]|e|]]; cbn [fst] in Hs; [|exact Hs..]. by destruct (bool_decide _).
Qed.
Lemma dispatch_frame f c :
  isRetiring (dispatch_loop cfg f c) = isRetiring c /\ pendingCancel (dispatch_loop cfg f c) = pendingCancel c.
Proof.
  revert c. induction f as [|f IH]; intros c; cbn [dispatch_loop]; [done|]. destruct (queue c) as [|id rest] eqn:Eq; [done|]. destruct (_ && _); [|done].
  destruct (IH (dispatch_one cfg c)) as [-> ->]. unfold dispatch_one. rewrite Eq. cbv zeta. destruct (startTask_frame id (set_queue rest c)) as [E1 E2].
  destruct (_ <=? _); [|done]. by destruct (flush_eq (startTask cfg id (set_queue rest c))) as (o & b & w & ->).
Qed.

(** ** Every handler leaves the connection with something to wait for *)

Context (Hdepth : (0 < pipelineDepth cfg)%nat).

Lemma stuck_waits c : stuck cfg c -> hung c = false -> queue c <> [] -> inflight c <> [] \/ writeBackedUp c = true \/ is_Some (pendingCancel c).
Proof using Hdepth.
  intros [Eq|[Ed|Eh]] Hh Hq; [done| |congruence]. unfold can_dispatch, canStartNext in Ed.
  destruct (inflight c) as [|h l] eqn:Ei; [|by left]. right. destruct (writeBackedUp c); [by left|]. right.
  destruct (pendingCancel c); [done|]. apply andb_false_iff in Ed as [Ed|Ed]; [|done]. rewrite andb_true_r in Ed. apply Nat.ltb_ge in Ed. cbn in Ed. lia.
Qed.
Lemma flush_frame c : let c' := flushWrites c in queue c' = queue c /\ inflight c' = inflight c /\ hung c' = hung c /\ isRetiring c' = isRetiring c /\
  pendingCancel c' = pendingCancel c /\ state c' = state c.
Proof. by destruct (flush_eq c) as (o & b & w & ->). Qed.
Lemma flush_backed c : writeBackedUp c = true -> writeBackedUp (flushWrites c) = true.
Proof. intros Hb. unfold flushWrites. destruct (outbuf c); [done|]. destruct (socket _); [|done]. by destruct (full _). Qed.
Lemma processQueue_strong live X Y ex c : flushed c -> weak live X Y ex c -> strong (processQueue cfg c).
Proof using Hdepth.
  intros Hf Hw. unfold processQueue. case_bool_decide as Hr; cbn [negb]; [|by eapply idle_strong].
  destruct (isRetiring c) eqn:Er.
  { destruct (inflight c) eqn:Ei; [|split; [by rewrite Er|by rewrite Ei|exact Hf]].
    unfold retire. eapply down_strong; [|by apply write_now_weak]. destruct Hw as [_ Hp]. unfold write_now. destruct (socket c); by eapply promise_ready. }
  cbv zeta. destruct (dispatch_frame (length (queue c)) c) as [E1 E2].
  pose proof (dispatch_loop_stuck cfg (length (queue c)) c ltac:(done)) as Hs.
  generalize dependent (dispatch_loop cfg (length (queue c)) c). intros c1 E1 _ Hs. rewrite Er in E1. destruct (_ && _ && _).
  - split; cbn; [|by rewrite E1|done]. intros Hh _ _ Hq. by apply (stuck_waits c1).
  - destruct (flush_frame c1) as (Eq & Ei & Eh & Eir & Ep & _). split; [|by rewrite Eir, E1|by rewrite flush_empty].
    rewrite Eq, Ei, Eh, Ep. intros Hh _ _ Hq. destruct (stuck_waits c1 Hs Hh Hq) as [?|[?|?]]; auto using flush_backed.
Qed.

Lemma processQueue_flushed live X Y ex c : flushed c -> weak live X Y ex c -> flushed (processQueue cfg c).
Proof using Hdepth. intros Hf Hw. by destruct (processQueue_strong live X Y ex c Hf Hw). Qed.
Lemma resolve_flushed live X Y ex p c : pendingCancel c = Some p -> phead (pending p c) = None \/ ex = false ->
  flushed c -> weak live X Y ex c -> flushed (resolveCanceledHead cfg p c).
Proof using Hdepth.
  intros Ep Hd Hf Hw. unfold resolveCanceledHead. cbv zeta. destruct (isRetiring c); [done|].
  destruct (_ || _). { eapply processQueue_flushed; [exact Hf|]. by apply (retiring_weak live X Y ex c p). }
  destruct (isConfirmed _); [|done]. eapply (processQueue_flushed live X Y false (clearPendingCancel c)); [exact Hf|]. by eapply clear_weak.
Qed.
Lemma decide_flushed live X Y ex p c : pendingCancel c = Some p -> phead (pending p c) = None \/ ex = false ->
  flushed c -> weak live X Y ex c -> flushed (decide_cancel cfg p c).
Proof using Hdepth.
  intros Ep Hd Hf Hw. unfold decide_cancel. pose proof (resolve_flushed live X Y ex p c Ep Hd Hf Hw) as Hr.
  generalize dependent (resolveCanceledHead cfg p c). intros c' Hr. by destruct (_ && _).
Qed.

Lemma endCanceledHead_flushed live X Y ex id c : flushed c -> weak live X Y ex c -> flushed (endCanceledHead cfg id c).
Proof using Hdepth.
  intros Hf Hw. unfold endCanceledHead. destruct (pendingCancel c) as [p|] eqn:Ep; [|done]. cbv zeta.
  pose proof (no_head_weak live X Y ex p c Ep Hw) as Hw'.
  assert (pendingCancel (upd_pending p no_head c) = Some p /\ phead (pending p (upd_pending p no_head c)) = None) as [Ep' Hn].
  { split; [done|]. rewrite pending_upd; [done|]. destruct Hw as [_ Hp]. by apply (w_known _ _ _ _ _ _ _ _ _ _ _ _ _ _ _ _ _ _ Hp). }
  assert (flushed (upd_pending p no_head c)) as Hf' by exact Hf.
  generalize dependent (upd_pending p no_head c). intros c1 Hw1 Ep1 Hn1 Hf1. destruct (negb _ && _).
  - destruct (isRetiring _); [done|]. destruct (is_57014 _); [done|].
    by apply (decide_flushed live X [] true p (set_lateCancel (Some (p, list_to_set (inflight c1))) c1)); [|left|..].
  - destruct (isRetiring _); [done|]. destruct (is_57014 _); [done|]. by apply (decide_flushed live X [] true p c1); [|left|..].
Qed.
Lemma head_check_flushed live id c : flushed c -> weak live [id] [id] false c -> flushed (head_check cfg id c).
Proof using Hdepth.
  intros Hf Hw. unfold head_check. destruct (pendingCancel c); [|done]. case_bool_decide; [|done]. by eapply endCanceledHead_flushed.
Qed.
Lemma late_check_flushed id c : flushed c -> flushed (late_check id c).
Proof using Type.
  intros Hf. unfold late_check. destruct (lateCancel c) as [[p s]|]; [|done]. case_bool_decide; [|done].
  by destruct (checkLate_eq id c) as [-> |(l & [-> |[-> |[a ->]]])].
Qed.
Lemma finishTask_strong live c : flushed c -> weak live [] [] false c -> strong (finishTask cfg c).
Proof using Hdepth.
  intros Hf Hw. unfold finishTask. destruct (inflight c) as [|id rest] eqn:Ei; [by eapply processQueue_strong|].
  assert (state c = CReady) as Hr.
  { destruct Hw as [_ Hp]. apply (w_inflight _ _ _ _ _ _ _ _ _ _ _ _ _ _ _ _ _ _ Hp). by rewrite Ei. }
  pose proof (late_check_weak live _ _ _ id _ (pull_weak live id rest c Ei Hw)) as Hw1.
  assert (state (late_check id (set_inflight rest c)) = CReady) as Hr1 by by rewrite late_check_state.
  assert (flushed (late_check id (set_inflight rest c))) as Hf1 by by apply late_check_flushed.
  generalize dependent (late_check id (set_inflight rest c)). intros c1 Hw1 Hr1 Hf1.
  pose proof (head_check_weak cfg live id c1 Hw1) as Hw2. pose proof (head_check_state cfg id c1 (proj1 Hw1) Hr1) as Hs2.
  pose proof (head_check_flushed live id c1 Hf1 Hw1) as Hf2.
  generalize dependent (head_check cfg id c1). intros c2 Hw2 Hs2 Hf2. destruct (forget_parse_eq id c2) as (p & s & ->).
  destruct (retry_or_complete_start cfg live id (set_parseInflight p (set_staleStatements s c2)) Hs2 Hw2) as (c' & -> & Hw' & [E1 E2]).
  eapply processQueue_strong; [|exact Hw']. unfold flushed. by rewrite E1, E2.
Qed.

(** ** The invariant between events *)

Record good (live : bool) (c : conn) : Prop := Good { g_inv : weak live [] [] false c; g_strong : strong c }.

Lemma strong_frame c c' : state c' = state c -> isRetiring c' = isRetiring c -> queue c' = queue c -> inflight c' = inflight c ->
  writeBackedUp c' = writeBackedUp c -> pendingCancel c' = pendingCancel c -> outbuf c' = outbuf c -> flushScheduled c' = flushScheduled c ->
  (hung c' = false -> hung c = false) -> strong c -> strong c'.
Proof using Type.
  intros E1 E2 E3 E4 E5 E6 E7 E8 Hh [H1' H2' H3']. split; [|by rewrite E2, E4|by rewrite E7, E8].
  rewrite E1, E2, E3, E4, E5, E6. auto.
Qed.
Ltac framed := apply strong_frame; done.
Lemma write_now_strong ms c : strong c -> strong (write_now ms c).
Proof using Type. unfold write_now. destruct (socket c); [framed|done]. Qed.
Lemma failAttempt_strong live X Y ex e c : weak live X Y ex c -> strong c -> strong (failAttempt e c).
Proof using Type.
  intros Hw Hs. unfold failAttempt. destruct (connecting c) eqn:Ec; [|done]. apply (idle_strong live X Y ex).
  - cbn. destruct (w_conn _ _ _ _ _ _ _ _ _ _ _ _ _ _ _ _ _ _ (proj2 Hw) Ec) as [[Hs'|Hs'] _]; by rewrite Hs'.
  - pose proof (failAttempt_weak live X Y ex e c Hw) as Hf. unfold failAttempt in Hf. by rewrite Ec in Hf.
Qed.
Lemma ready_strong live body c : weak live [] [] false c -> strong c -> strong (ready cfg body c).
Proof using Hdepth.
  intros Hw Hs. pose proof (s_flush _ Hs) as Hf. unfold ready. cbv zeta.
  assert (weak live [] [] false (set_txStatus (default 73 (head body)) c)) as Hw1 by exact Hw.
  assert (flushed (set_txStatus (default 73 (head body)) c)) as Hf1 by exact Hf.
  generalize dependent (set_txStatus (default 73 (head body)) c). intros c1 Hw1 Hf1. destruct (connecting c1) eqn:Ec; [|by eapply finishTask_strong].
  eapply processQueue_strong; [exact Hf1|by apply (connected_weak live c1)].
Qed.
Lemma good_frame f : (forall c, weak true [] [] false c -> weak true [] [] false (f c)) -> (forall c, strong c -> strong (f c)) ->
  forall c, good true c -> good true (f c).
Proof using Type. intros Hw Hs c [Hi Hst]. split; auto. Qed.
Lemma good_message : message_invariant cfg (good true).
Proof using Hdepth.
  pose proof (inv_message cfg true eq_refl) as Hm. split.
  - intros id f c Hf. revert c. apply good_frame; [intros c; by apply (m_upd _ _ Hm)|intros c; framed].
  - intros body c [Hi Hs]. split; [by apply (m_ready _ _ Hm)|by eapply ready_strong].
  - intros ms. apply good_frame; [intros c; by apply (m_write _ _ Hm)|apply write_now_strong].
  - intros e c [Hi Hs]. split; [by apply (m_fail _ _ Hm)|by eapply failAttempt_strong].
  - intros e c [Hi Hs]. split; [by apply (m_down _ _ Hm)|eapply down_strong; [|exact Hi]].
    by apply (w_live _ _ _ _ _ _ _ _ _ _ _ _ _ _ _ _ _ _ (proj2 Hi)).
  - intros id n. apply good_frame; [intros c; by apply (m_cache _ _ Hm)|intros c; framed].
  - intros m. apply good_frame; [intros c; by apply (m_params _ _ Hm)|intros c; framed].
  - intros k. apply good_frame; [intros c; by apply (m_key _ _ Hm)|intros c; framed].
  - intros x. apply good_frame; [intros c; by apply (m_scram _ _ Hm)|intros c; framed].
  - intros b. apply good_frame; [intros c; by apply (m_parser _ _ Hm)|intros c; framed].
  - apply good_frame; [intros c; by apply (m_hung _ _ Hm)|intros c; framed].
Qed.

Lemma cancelTask_strong id r c : weak false [] [] false c -> strong c -> strong (cancelTask cfg id r c).
Proof using Type.
  intros Hw Hs. unfold cancelTask. destruct (t_settled _); [done|]. cbv zeta. set (f := fun t => set_t_timer false (set_t_settled true t)).
  change (inflight (upd id f c)) with (inflight c). case_bool_decide as Hi.
  - set (c1 := rejectTask id r (upd id f c)). assert (strong c1) as Hs1 by (revert Hs; framed).
    assert (inflight c1 = inflight c) as E by done. generalize dependent c1. intros c1 Hs1 E.
    case_bool_decide; [|done]. assert (forall c2, strong c2 -> strong (upd id (set_t_graceTimer true) c2)) as Hu by (intros c2; framed). apply Hu.
    destruct (is_copy _); [done|]. unfold sendCancelRequest. destruct (_ || _); [done|]. cbv zeta. rewrite <- E in Hi.
    destruct Hs1 as [H1' H2' H3']. destruct (bool_decide _).
    + split; cbn; [done|intros _ E'; by rewrite E' in Hi; apply elem_of_nil in Hi|done].
    + split; cbn; [intros ? ? ? ?; right; right; by eexists|done|done].
  - destruct Hs as [H1' H2' H3']. split; cbn; [|done..]. intros Hh Hst Hr Hq. apply H1'; try done. intros E. by rewrite E in Hq.
Qed.
Lemma resolve_strong X Y ex p c : pendingCancel c = Some p -> phead (pending p c) = None \/ ex = false ->
  weak false X Y ex c -> strong c -> strong (resolveCanceledHead cfg p c).
Proof using Hdepth.
  intros Ep Hd Hw Hs. pose proof (s_flush _ Hs) as Hf. unfold resolveCanceledHead. cbv zeta. destruct (isRetiring c); [done|].
  destruct (_ || _). { eapply processQueue_strong; [exact Hf|]. by apply (retiring_weak false X Y ex c p). }
  destruct (isConfirmed _); [|done]. eapply (processQueue_strong false X Y false (clearPendingCancel c)); [exact Hf|]. by eapply clear_weak.
Qed.
Lemma onCancelEnd_strong ok p c : weak false [] [] false c -> strong c -> strong (onCancelEnd cfg ok p c).
Proof using Hdepth.
  intros Hw Hs. unfold onCancelEnd. cbv zeta.
  assert (weak false [] [] false (note (if ok then CancelConfirmed p else CancelFailed p) (upd_pending p (if ok then confirmed else failed) c))) as Hw'.
  { apply note_weak, upd_pending_weak; [by destruct ok|done]. }
  assert (strong (note (if ok then CancelConfirmed p else CancelFailed p) (upd_pending p (if ok then confirmed else failed) c))) as Hs' by (revert Hs; framed).
  generalize dependent (note (if ok then CancelConfirmed p else CancelFailed p) (upd_pending p (if ok then confirmed else failed) c)). intros c' Hw' Hs'.
  destruct (_ && _) eqn:E; [|done]. apply andb_true_iff in E as [E _]. apply bool_decide_eq_true in E. apply (resolve_strong [] [] false); auto.
Qed.
Lemma onPendingTimer_strong p c : weak false [] [] false c -> strong c -> strong (onPendingTimer cfg p c).
Proof using Hdepth.
  intros Hw Hs. unfold onPendingTimer. destruct (ptimer _); [|done]. case_bool_decide as E; [|done].
  eapply (processQueue_strong false [] [] false (set_isRetiring true c)); [exact (s_flush _ Hs)|]. apply (retiring_weak false [] [] false c p E); auto.
Qed.
Lemma submit_strong t s c : t_settled t = false -> state c <> CClosed -> weak false [] [] false c -> strong c -> strong (submit cfg t s c).
Proof using Hdepth.
  intros Ht Hc Hw Hs. unfold submit. destruct s as [[r|]|]; cbv zeta; [revert Hs; framed|..];
    (eapply (processQueue_strong false [] [] false); [exact (s_flush _ Hs)|]); apply (submitted_weak false); auto.
Qed.
Lemma open_task_strong r s c : yields fresh_task r -> weak false [] [] false c -> strong c -> strong (open_task cfg r s c).
Proof using Hdepth.
  intros Hr Hw Hs. unfold open_task. case_bool_decide; [revert Hs; framed|].
  destruct r as [t|e|]; [|revert Hs; framed|revert Hs; framed]. destruct Hr. by apply submit_strong.
Qed.
Lemma return_strong id c : weak false [] [] false c -> strong c -> strong (return_ cfg id c).
Proof using Type.
  intros Hw Hs. unfold return_. cbv zeta. assert (weak false [] [] false (upd id (set_t_cancelled true) c)) as Hw1 by (apply benign_weak; [benign|done]).
  assert (strong (upd id (set_t_cancelled true) c)) as Hs1 by (revert Hs; framed). destruct (_ && _); [by apply cancelTask_strong|done].
Qed.

Lemma establish_state c : state (establish cfg c) <> CReady.
Proof using Type. unfold establish, failAttempt. cbv zeta. destruct (hasTransport cfg); cbn; by destruct (everConnected c). Qed.
Lemma idle_good c : weak false [] [] false c -> state c <> CReady -> strong c.
Proof using Type. intros Hw Hr. by eapply idle_strong. Qed.
Lemma connect_strong c : weak false [] [] false c -> strong c -> strong (connect cfg c).
Proof using Type.
  intros Hw Hs. pose proof (connect_weak cfg false c Hw) as Hc. unfold connect in *. destruct (connectPromise c); [done|]. apply idle_good; [done|apply establish_state].
Qed.
Lemma onTransport_state c : state (onTransport cfg c) = state c.
Proof using Type.
  unfold onTransport. destruct (negb _); [done|]. cbv zeta. by destruct (W.startup _).
Qed.
Lemma onTransport_strong c : weak false [] [] false c -> strong c -> strong (onTransport cfg c).
Proof using Type.
  intros Hw Hs. destruct (connecting c) eqn:Ec; [|by unfold onTransport; rewrite Ec].
  apply idle_good; [by apply onTransport_weak|]. rewrite onTransport_state.
  by destruct (w_conn _ _ _ _ _ _ _ _ _ _ _ _ _ _ _ _ _ _ (proj2 Hw) Ec) as [[-> | ->] _].
Qed.
Lemma onAttempt_strong c : weak false [] [] false c -> strong c -> strong (onAttempt cfg c).
Proof using Type.
  intros Hw Hs. destruct (attempt c) as [e|] eqn:Ea; [|by unfold onAttempt; rewrite Ea].
  apply idle_good; [by apply onAttempt_weak|]. destruct (attempt_dead false c e Ea Hw) as [_ Hr]. unfold onAttempt. rewrite Ea. cbv zeta.
  assert (forall e c', state (rejectQueue e (set_state CClosed c')) <> CReady) as Hrej
    by (intros e' c'; by destruct (rejectQueue_eq e' (set_state CClosed c')) as [tk ->]).
  destruct (loop _); [destruct (everConnected _); [done|apply Hrej]..|]. destruct (isFatalAuth _); [apply Hrej|by apply reconnect_state].
Qed.
Lemma onBackoff_strong c : weak false [] [] false c -> strong c -> strong (onBackoff cfg c).
Proof using Type.
  intros Hw Hs. destruct (loop c) as [|n e|n e] eqn:El; [by unfold onBackoff; rewrite El| |by unfold onBackoff; rewrite El].
  apply idle_good; [by apply onBackoff_weak|]. assert (state c <> CReady) as Hr.
  { apply (w_loop _ _ _ _ _ _ _ _ _ _ _ _ _ _ _ _ _ _ (proj2 Hw)). by rewrite El. }
  unfold onBackoff. rewrite El. destruct (_ || _); [done|apply establish_state].
Qed.
Lemma onClose_strong e c : weak false [] [] false c -> strong c -> strong (onClose cfg e c).
Proof using Type.
  intros Hw Hs. destruct (socket c) eqn:Es; [|by unfold onClose; rewrite Es]. apply idle_good; [by apply onClose_weak|].
  unfold onClose. rewrite Es. by apply (down_state false [] [] false).
Qed.
Lemma onMicrotask_strong c : strong c -> strong (onMicrotask c).
Proof using Type.
  intros [H1' H2' H3']. unfold onMicrotask. destruct (flush_frame (set_flushScheduled false c)) as (Eq & Ei & Eh & Eir & Ep & Es).
  split; [|by rewrite Eir, Ei|by rewrite flush_empty]. rewrite Eq, Ei, Eh, Ep, Eir, Es. intros Hh Hr Hir Hq.
  destruct (H1' Hh Hr Hir Hq) as [?|[?|?]]; auto using flush_backed.
Qed.
Lemma end_strong c : weak false [] [] false c -> strong c -> strong (end_ c).
Proof using Type.
  intros Hw Hs. pose proof (end_weak false c Hw) as He. apply idle_good; [done|]. unfold end_. case_bool_decide as Ec; [by rewrite Ec|]. cbv zeta. fold (ending c).
  pose proof (ending_spec false c Hw) as Hsp. cbv zeta in Hsp. generalize dependent (ending c). intros c1 (_ & Es & _).
  pose proof (settlePending_spec ended_error c1) as [E _]. cbn. by rewrite E, Es.
Qed.

Lemma step_good ev c : weak false [] [] false c -> strong c -> weak false [] [] false (step cfg ev c) /\ strong (step cfg ev c).
Proof using Hdepth.
  intros Hw Hs. unfold step. destruct (hung c); [done|]. destruct ev.
  - split; [by apply connect_weak|by apply connect_strong].
  - split; [by apply onTransport_weak|by apply onTransport_strong].
  - split; [by apply failAttempt_weak|by eapply failAttempt_strong].
  - split; [by apply failAttempt_weak|by eapply failAttempt_strong].
  - split; [by apply onAttempt_weak|by apply onAttempt_strong].
  - split; [by apply onBackoff_weak|by apply onBackoff_strong].
  - destruct (socket c) eqn:Es; [|done]. assert (connectPromise c = true) as Hp
      by (apply (w_promise _ _ _ _ _ _ _ _ _ _ _ _ _ _ _ _ _ _ (proj2 Hw)); auto).
    destruct (onData_closed cfg (good true) good_message rnd chunk c) as [Hg1 Hg2]; [split; [by apply live_on|done]|].
    split; [by apply live_off|done].
  - split; [by apply onClose_weak|by apply onClose_strong].
  - split; [by apply onDrain_weak|]. unfold onDrain. destruct (writeBackedUp c); [|done].
    eapply (processQueue_strong false [] [] false); [exact (s_flush _ Hs)|exact Hw].
  - destruct (flushScheduled c); [|done]. split; [by apply onMicrotask_weak|by apply onMicrotask_strong].
  - split; [exact Hw|revert Hs; framed].
  - split; [apply open_task_weak|apply open_task_strong]; auto using query_task_fresh.
  - split; [apply open_task_weak|apply open_task_strong]; auto using queryTyped_fresh.
  - split; [apply open_task_weak|apply open_task_strong]; by auto.
  - split; [apply open_task_weak|apply open_task_strong]; by auto.
  - split; [apply open_task_weak|apply open_task_strong]; by auto.
  - destruct (t_timer _); [|done]. split; [by apply cancelTask_weak|by apply cancelTask_strong].
  - destruct (t_listening _); [|done].
    assert (weak false [] [] false (upd id (set_t_listening false) c)) as Hw1 by (apply benign_weak; [benign|done]).
    assert (strong (upd id (set_t_listening false) c)) as Hs1 by (revert Hs; framed).
    split; [by apply cancelTask_weak|by apply cancelTask_strong].
  - split; [apply benign_weak; [benign|done]|revert Hs; framed].
  - destruct (_ && _ && _); [|done]. split; [by apply onCancelEnd_weak|by apply onCancelEnd_strong].
  - split; [by apply onPendingTimer_weak|by apply onPendingTimer_strong].
  - case_bool_decide; [|done]. split; [by apply return_weak|by apply return_strong].
  - split; [by apply end_weak|by apply end_strong].
Qed.
Lemma initial_good : weak false [] [] false initial /\ strong initial.
Proof using Type.
  split; [split|by split]; split; cbn; try done.
  - constructor.
  - by intros id Hid%elem_of_nil.
  - by intros id [? ?].
  - by intros p [? ?].
  - by intros [?|[?|?]].
  - intros _. right. by left.
Qed.
Lemma run_good evs : weak false [] [] false (run_events cfg evs initial) /\ strong (run_events cfg evs initial).
Proof using Hdepth.
  unfold run_events. assert (forall c, weak false [] [] false c /\ strong c -> weak false [] [] false (foldl (fun c ev => step cfg ev c) c evs) /\
    strong (foldl (fun c ev => step cfg ev c) c evs)) as Hr.
  { induction evs as [|ev evs IH]; intros c [Hw Hs]; [done|]. cbn. by apply IH, step_good. }
  apply Hr, initial_good.
Qed.

(** ** The theorem *)

(** What an open connection can wait for: the call of connect(), an attempt to connect or the news of its failure, the end of a
    backoff, the answer to a query in flight, the drain of the socket, or the end of the wait for a cancel to be confirmed. *)
Inductive awaits (c : conn) : Prop :=
| await_connect : state c = CIdle -> connectPromise c = false -> awaits c
| await_attempt : connecting c = true -> awaits c
| await_failure : is_Some (attempt c) -> awaits c
| await_backoff n e : loop c = Sleeping n e -> awaits c
| await_reply : inflight c <> [] -> awaits c
| await_drain : writeBackedUp c = true -> awaits c
| await_cancel p : pendingCancel c = Some p -> phead (pending p c) = None -> ptimer (pending p c) = true -> awaits c.
Lemma good_awaits c : weak false [] [] false c -> strong c -> hung c = false -> queue c <> [] -> awaits c.
Proof using Type.
  intros [_ Hp] Hs Hh Hq. pose proof (w_queue _ _ _ _ _ _ _ _ _ _ _ _ _ _ _ _ _ _ Hp Hq) as Hc.
  destruct (w_wait _ _ _ _ _ _ _ _ _ _ _ _ _ _ _ _ _ _ Hp Hc) as [Hr|[[? ?]|[?|[?|(n & e & ?)]]]];
    [|by apply await_connect|by apply await_attempt|by apply await_failure|by eapply await_backoff].
  destruct (isRetiring c) eqn:Er; [by apply await_reply, (s_retire _ Hs)|].
  destruct (s_move _ Hs Hh Hr Er Hq) as [?|[?|[p Ep]]]; [by apply await_reply|by apply await_drain|].
  destruct (w_cancel _ _ _ _ _ _ _ _ _ _ _ _ _ _ _ _ _ _ Hp p Ep) as [_ [(h & _ & Hh')|[En [Ei|[?|Et]]]]]; [|congruence|done|by eapply await_cancel].
  apply await_reply. intros E. cbn in Hh'. rewrite E in Hh'. by apply elem_of_nil in Hh'.
Qed.

(** C1: Whatever happens to a connection - calls, bytes, timeouts, aborts, lost sockets, failed attempts, cancels, in any
    order - every task it was given is in exactly one place: queued once, in flight once, or already answered. An ended or given-up connection
    has answered every task; a queued task belongs to a connection that has something to wait for; and a query in flight
    belongs to a connection that is ready and whose unwritten requests have a flush scheduled. *)
Theorem no_caller_lost evs : let c := run_events cfg evs initial in hung c = false ->
  NoDup (queue c ++ inflight c) /\
  (forall id t, tasks c !! id = Some t -> id ∈ queue c \/ id ∈ inflight c \/ is_Some (t_outcome t)) /\
  (state c = CClosed -> forall id t, tasks c !! id = Some t -> is_Some (t_outcome t)) /\
  (queue c <> [] -> awaits c) /\
  (inflight c <> [] -> state c = CReady) /\
  (outbuf c <> [] -> flushScheduled c = true).
Proof using Hdepth.
  intros c Hh. destruct (run_good evs) as [Hw Hs]. fold c in Hw, Hs. pose proof Hw as [[Hn _ Ha _ _ _] Hp].
  assert (forall id t, tasks c !! id = Some t -> id ∈ queue c \/ id ∈ inflight c \/ is_Some (t_outcome t)) as Hall.
  { intros id t E. destruct (Ha Hh id t E) as [Hin|?]; [|by auto]. cbn in Hin. apply elem_of_app in Hin as [?|?]; auto. }
  split; [exact Hn|]. split; [exact Hall|]. split; [|split; [|split]].
  - intros Hc id t E. destruct (Hall id t E) as [Hin|[Hin|?]]; [..|done]; exfalso.
    + apply (w_queue _ _ _ _ _ _ _ _ _ _ _ _ _ _ _ _ _ _ Hp); [|done]. intros Eq. rewrite Eq in Hin. by apply elem_of_nil in Hin.
    + assert (state c = CReady); [|congruence]. apply (w_inflight _ _ _ _ _ _ _ _ _ _ _ _ _ _ _ _ _ _ Hp). intros Eq. rewrite Eq in Hin. by apply elem_of_nil in Hin.
  - by apply good_awaits.
  - apply (w_inflight _ _ _ _ _ _ _ _ _ _ _ _ _ _ _ _ _ _ Hp).
  - apply (s_flush _ Hs).
Qed.
End Live.

#[local] Existing Instances demo_env zero_alloc demo_crypto.
(** Cut off while two queries are in flight and one is queued behind a COPY. *)
Definition cut_off : list event :=
  handshake ++ [named_query "n" "s"; named_query "m" "s2"; ECopyFrom (js "COPY t FROM STDIN") None None; EMicrotask; EClose None].
Lemma no_caller_lost_witness : hung (demo_run cut_off) = false /\ state (demo_run cut_off) = CClosed /\
  forall id t, tasks (demo_run cut_off) !! id = Some t -> is_Some (t_outcome t).
Proof.
  assert (hung (demo_run cut_off) = false) as Hh by (vm_compute; reflexivity). split; [exact Hh|]. split; [vm_compute; reflexivity|].
  apply (no_caller_lost demo_cfg ltac:(cbn; lia) cut_off Hh). vm_compute. reflexivity.
Defined.
