(* ===== verification/ConnOnce.v ===== *)
(** * An answer is final, and a query is sent at most twice (src/connection.ts)

    [grows] relates the tasks of a connection before and after a handler: nothing that a task has is taken back. [turns]
    counts what a task was sent and will be sent: one turn to begin with and one more for a retry, of which there is at most one. *)

From S2P Require Import Prelude Utf8 Text Buf Num Dates Value NumText Faults Auth Json JsonBig ExtTypes JsonSpec JsonScan ArrayText Temporal Protocol Framing Messages Errors Encode Decode Mapper Spec Connection ConnDemo ConnProofs ConnLive.

Definition is_dispatch (id : nat) (a : action) : bool := match a with Dispatched i => (i =? id)%nat | _ => false end.
Definition times_sent (id : nat) (l : list action) : nat := length (filter (fun a => is_dispatch id a = true) l).
Definition times_queued (id : nat) (q : list nat) : nat := length (filter (fun i => i = id) q).
(** How often a task was sent and how often it waits to be sent. *)
Definition turns (id : nat) (c : conn) : nat := (times_sent id (log c) + times_queued id (queue c))%nat.

Section Once.
Context `{Env, Alloc, Crypto} (cfg : Config).

(** ** Handlers that give no turn *)

Definition no_more (c c' : conn) : Prop := forall id, (turns id c' <= turns id c)%nat.
#[local] Instance no_more_preorder : PreOrder no_more.
Proof. split; [by intros c id|]. intros c1 c2 c3 H12 H23 id. specialize (H12 id). specialize (H23 id). lia. Qed.
Lemma no_more_frame c c' : queue c' = queue c -> log c' = log c -> no_more c c'.
Proof. intros Eq El id. unfold turns. by rewrite Eq, El. Qed.
Ltac framed := apply no_more_frame; done.
Lemma no_more_drop c c' : queue c' = [] -> log c' = log c -> no_more c c'.
Proof. intros Eq El id. unfold turns, times_queued. rewrite Eq, El. cbn. lia. Qed.
Lemma times_sent_app id l l' : times_sent id (l ++ l') = (times_sent id l + times_sent id l')%nat.
Proof. unfold times_sent. by rewrite filter_app, length_app. Qed.
Lemma times_sent_one id a : times_sent id [a] = if is_dispatch id a then 1%nat else 0%nat.
Proof. unfold times_sent. rewrite filter_cons. by destruct (is_dispatch id a); case_decide. Qed.
Lemma times_queued_app id l l' : times_queued id (l ++ l') = (times_queued id l + times_queued id l')%nat.
Proof. unfold times_queued. by rewrite filter_app, length_app. Qed.
Lemma times_queued_cons i id q : times_queued i (id :: q) = ((if decide (i = id) then 1 else 0) + times_queued i q)%nat.
Proof. unfold times_queued. rewrite filter_cons. destruct (decide (id = i)), (decide (i = id)); first [done|congruence]. Qed.
Lemma times_queued_filter i id q : (times_queued i (filter (fun j => j <> id) q) <= times_queued i q)%nat.
Proof. induction q as [|j q IH]; [done|]. rewrite filter_cons, times_queued_cons. case_decide; [rewrite times_queued_cons|]; lia. Qed.
Lemma note_no_more a c : (forall id, is_dispatch id a = false) -> no_more c (note a c).
Proof.
  intros Ha id. unfold turns, note. cbn [log queue set_log set_inflight set_outbuf set_tasks rejectTask upd]. rewrite times_sent_app, times_sent_one, Ha. lia.
Qed.
Lemma reject_inflight_no_more e c : no_more c (reject_inflight e c).
Proof. destruct (reject_inflight_eq e c) as [tk ->]. framed. Qed.
Lemma rejectQueue_no_more e c : no_more c (rejectQueue e c).
Proof. destruct (rejectQueue_eq e c) as [tk ->]. by apply no_more_drop. Qed.
Lemma reconnect_no_more n e c : no_more c (reconnect_round cfg n e c).
Proof.
  unfold reconnect_round. destruct (_ || _); [framed|]. destruct (match rcMaxRetries cfg with Some m => _ | None => _ end); [|framed].
  etransitivity; [|apply rejectQueue_no_more]. framed.
Qed.
Lemma failAttempt_no_more e c : no_more c (failAttempt e c).
Proof. unfold failAttempt. destruct (negb _); framed. Qed.
Lemma cut_no_more c : no_more c (cut c).
Proof. unfold cut. etransitivity; [|by apply note_no_more]. framed. Qed.
Lemma down_no_more e c : no_more c (onSocketDown cfg e c).
Proof.
  unfold onSocketDown. case_bool_decide; [done|]. destruct (connecting c); [apply failAttempt_no_more|]. cbv zeta. fold (cut c).
  assert (no_more c (reject_inflight e (cut c))) as Hc by (etransitivity; [apply cut_no_more|apply reject_inflight_no_more]).
  generalize dependent (reject_inflight e (cut c)). intros c2 Hc. etransitivity; [exact Hc|]. destruct (_ && _).
  - etransitivity; [|apply reconnect_no_more]. framed.
  - etransitivity; [|apply rejectQueue_no_more]. framed.
Qed.
Lemma write_now_no_more ms c : no_more c (write_now ms c).
Proof. unfold write_now. destruct (socket c); framed. Qed.
Lemma flush_no_more c : no_more c (flushWrites c).
Proof. destruct (flush_eq c) as (o & b & w & ->). framed. Qed.
(** Sending a task takes the turn it waited for. *)
Lemma unseen_turns c : unseen (fun c' => queue c' = queue c /\ log c' = log c).
Proof. split; intros; assumption. Qed.
Lemma startTask_turns id c i : (turns i (startTask cfg id c) <= turns i c + (if decide (i = id) then 1 else 0))%nat.
Proof.
  unfold startTask. pose proof (stable_run _ _ (serialize_stable cfg _ (unseen_turns c) id) c (conj eq_refl eq_refl)) as Hs.
  destruct (serialize cfg id c) as [c' [[]|e|]]; cbn [fst] in Hs; destruct Hs as [Eq El].
  - assert (turns i (note (Dispatched id) (set_inflight (inflight c' ++ [id]) c')) <= turns i c + (if decide (i = id) then 1 else 0))%nat as Ht.
    { unfold turns, note. cbn [log queue set_log set_inflight set_outbuf set_tasks rejectTask upd]. rewrite Eq, El, times_sent_app, times_sent_one. cbn [is_dispatch].
      destruct (Nat.eqb_spec id i), (decide (i = id)); first [congruence|lia]. }
    cbv zeta. destruct (bool_decide _); exact Ht.
  - assert (turns i (rejectTask id (Thrown e) (note (Discarded (drop (length (outbuf c)) (outbuf c')).*1) (set_outbuf (take (length (outbuf c)) (outbuf c')) c')))
      <= turns i c)%nat; [|by destruct (decide _); lia].
    unfold turns, note. cbn [log queue set_log set_inflight set_outbuf set_tasks rejectTask upd]. rewrite Eq, El, times_sent_app, times_sent_one. cbn [is_dispatch]. lia.
  - unfold turns. cbn [log queue set_hung]. rewrite Eq, El. lia.
Qed.
Lemma dispatch_one_no_more c : no_more c (dispatch_one cfg c).
Proof.
  unfold dispatch_one. destruct (queue c) as [|id rest] eqn:Eq; [done|]. cbv zeta.
  assert (no_more c (startTask cfg id (set_queue rest c))) as Hs.
  { intros i. pose proof (startTask_turns id (set_queue rest c) i) as Ht. unfold turns in *. cbn [log queue set_queue] in Ht.
    rewrite Eq, times_queued_cons. destruct (decide (i = id)); lia. }
  destruct (_ <=? _); [|exact Hs]. etransitivity; [exact Hs|apply flush_no_more].
Qed.
Lemma dispatch_loop_no_more f c : no_more c (dispatch_loop cfg f c).
Proof.
  revert c. induction f as [|f IH]; intros c; cbn [dispatch_loop]; [done|]. destruct (queue c); [done|]. destruct (_ && _); [|done].
  etransitivity; [apply dispatch_one_no_more|apply IH].
Qed.
Lemma processQueue_no_more c : no_more c (processQueue cfg c).
Proof.
  unfold processQueue. destruct (negb _); [done|]. destruct (isRetiring c).
  - destruct (inflight c); [|done]. unfold retire. etransitivity; [apply write_now_no_more|apply down_no_more].
  - cbv zeta. etransitivity; [apply dispatch_loop_no_more|]. destruct (_ && _ && _); [framed|apply flush_no_more].
Qed.

(** ** The end of a query *)

Lemma resolve_no_more p c : no_more c (resolveCanceledHead cfg p c).
Proof.
  unfold resolveCanceledHead. cbv zeta. destruct (isRetiring c); [done|].
  destruct (_ || _); [etransitivity; [|apply processQueue_no_more]; framed|].
  destruct (isConfirmed _); [etransitivity; [|apply processQueue_no_more]; framed|done].
Qed.
Lemma decide_no_more p c : no_more c (decide_cancel cfg p c).
Proof. unfold decide_cancel. cbv zeta. pose proof (resolve_no_more p c) as Hr. destruct (_ && _); exact Hr. Qed.
Lemma clear_no_more c : no_more c (clearPendingCancel c).
Proof. framed. Qed.
Lemma endCanceledHead_no_more id c : no_more c (endCanceledHead cfg id c).
Proof.
  unfold endCanceledHead. destruct (pendingCancel c) as [p|]; [|done]. cbv zeta.
  assert (no_more c (upd_pending p no_head c)) as H0' by framed.
  assert (forall c', no_more c' (if isRetiring c' then c' else if is_57014 (the id (upd_pending p no_head c)) then clearPendingCancel (note (CancelUsed p) c') else decide_cancel cfg p c')) as Hd.
  { intros c'. destruct (isRetiring c'); [done|]. destruct (is_57014 _); [|apply decide_no_more].
    etransitivity; [by apply (note_no_more (CancelUsed p))|apply clear_no_more]. }
  etransitivity; [exact H0'|]. destruct (negb _ && _); [|apply Hd].
  etransitivity; [|apply Hd]. framed.
Qed.
Lemma head_check_no_more id c : no_more c (head_check cfg id c).
Proof. unfold head_check. destruct (pendingCancel c); [|done]. case_bool_decide; [apply endCanceledHead_no_more|done]. Qed.
Lemma checkLate_no_more id c : no_more c (late_check id c).
Proof.
  unfold late_check. destruct (lateCancel c) as [[p s]|] eqn:El; [|done]. case_bool_decide; [|done].
  unfold checkLateCancel. rewrite El. cbv zeta. destruct (_ && _); cbv iota; [|framed]. destruct (_ && _); [|framed].
  etransitivity; [|etransitivity; [by apply (note_no_more (CancelUsed p) (upd id mark_late c))|framed]]. framed.
Qed.
Lemma complete_no_more id c : no_more c (complete cfg id c).
Proof.
  unfold complete. etransitivity; [|apply processQueue_no_more].
  destruct (settle_result_tasks id (upd id (fun t => set_t_timer false (set_t_graceTimer false (set_t_listening false t))) c)) as [tk ->]. framed.
Qed.

(** ** Turns and retries *)

Record evolves (c c' : conn) : Prop := {
  e_grows : grows c c';
  e_turns : forall id, (turns id c' + t_retries (the id c) <= turns id c + t_retries (the id c'))%nat }.
#[local] Instance evolves_preorder : PreOrder evolves.
Proof.
  split; [intros c; split; [reflexivity|done]|]. intros c1 c2 c3 [G12 T12] [G23 T23]. split; [by etransitivity|].
  intros id. specialize (T12 id). specialize (T23 id). lia.
Qed.
Lemma grows_retries c c' id : grows c c' -> (t_retries (the id c) <= t_retries (the id c'))%nat.
Proof.
  intros Hg. unfold the. destruct (tasks c !! id) as [t|] eqn:E; [|cbn; lia]. destruct (grows_lookup _ _ id t Hg E) as (t' & -> & Hle). apply (le_retries _ _ Hle).
Qed.
Lemma evolves_intro c c' : grows c c' -> no_more c c' -> evolves c c'.
Proof. intros Hg Hn. split; [done|]. intros id. specialize (Hn id). pose proof (grows_retries c c' id Hg). lia. Qed.
Lemma for_retry_le t : (t_retries t < 1)%nat -> task_le t (for_retry t).
Proof. intros Hr. split; cbn; auto; lia. Qed.
Lemma requeue_evolves id t c : tasks c !! id = Some t -> (t_retries t < 1)%nat -> evolves c (set_queue (queue c ++ [id]) (upd id for_retry c)).
Proof.
  intros E Hr. split.
  - intros i. unfold upd. cbn. destruct (decide (i = id)) as [-> |Hn].
    + rewrite lookup_alter_eq, E. constructor. by apply for_retry_le.
    + rewrite lookup_alter_ne by done. by destruct (tasks c !! i); constructor.
  - intros i. unfold turns, the, upd. cbn [log queue tasks set_queue set_tasks]. rewrite times_queued_app, (times_queued_cons i id []).
    unfold times_queued at 2. cbn. destruct (decide (i = id)) as [-> |Hn].
    + rewrite lookup_alter_eq, E. cbn. lia.
    + rewrite lookup_alter_ne by done. lia.
Qed.
Lemma processQueue_evolves c : evolves c (processQueue cfg c).
Proof. apply evolves_intro; [apply processQueue_grows|apply processQueue_no_more]. Qed.
Lemma settle_result_grows id c : grows c (settle_result id c).
Proof.
  unfold settle_result. cbv zeta. destruct (t_settled _); [done|]. assert (forall o, grows c (upd id (settle o) c)) as Hs
    by (intros o; apply grows_upd; intros t; apply settle_le).
  destruct (t_wire (the id c)), (t_error (the id c)) as [[]|]; try apply Hs; try apply reject_grows. destruct (is_stream _); apply Hs.
Qed.
Lemma complete_evolves id c : evolves c (complete cfg id c).
Proof.
  apply evolves_intro; [|apply complete_no_more]. unfold complete. etransitivity; [|apply processQueue_grows].
  etransitivity; [|apply settle_result_grows]. apply benign_grows. benign.
Qed.
Lemma retry_or_complete_evolves id t c : tasks c !! id = Some t -> evolves c (retry_or_complete cfg id c).
Proof.
  intros E. pose proof (complete_evolves id c) as Hc. unfold retry_or_complete. cbv zeta.
  destruct (named (t_req (the id c))) as [n|], (t_error (the id c)) as [e|]; try exact Hc. destruct (invalidated e); [|exact Hc].
  set (c1 := set_staleStatements ({[n]} ∪ staleStatements c) (set_prepared (delete n (prepared c)) c)).
  assert (evolves c c1) as H1' by (apply evolves_intro; [by apply grows_same|framed]).
  assert (tasks c1 !! id = Some t /\ the id c1 = the id c) as [E1 Et] by (split; [exact E|done]). clearbody c1.
  destruct (retryable (the id c) c1) eqn:Er; [|etransitivity; [exact H1'|apply complete_evolves]].
  etransitivity; [exact H1'|]. etransitivity; [|apply processQueue_evolves]. apply (requeue_evolves id t); [done|].
  unfold retryable in Er. repeat (apply andb_true_iff in Er as [Er ?]). unfold the in *. rewrite E in *. cbn in *. by apply Nat.ltb_lt.
Qed.
Lemma late_check_grows id c : grows c (late_check id c).
Proof.
  unfold late_check. destruct (lateCancel c) as [[p s]|]; [|done]. case_bool_decide; [|done].
  assert (grows c (upd id mark_late c)) as Hm by (apply benign_grows, mark_late_benign).
  destruct (checkLate_eq id c) as [-> |(l & [-> |[-> |[a ->]]])]; [done|by apply grows_same|exact Hm|exact Hm].
Qed.
Lemma head_check_grows id c : grows c (head_check cfg id c).
Proof. unfold head_check. destruct (pendingCancel c); [|done]. case_bool_decide; [apply endCanceledHead_grows|done]. Qed.
Lemma finishTask_evolves c : (forall id, id ∈ inflight c -> is_Some (tasks c !! id)) -> evolves c (finishTask cfg c).
Proof.
  intros Hd. unfold finishTask. destruct (inflight c) as [|id rest]; [apply processQueue_evolves|].
  destruct (Hd id ltac:(by left)) as [t Et].
  assert (evolves c (head_check cfg id (late_check id (set_inflight rest c)))) as He.
  { apply evolves_intro.
    - etransitivity; [|apply head_check_grows]. apply (late_check_grows id (set_inflight rest c)).
    - etransitivity; [|apply head_check_no_more]. etransitivity; [|apply checkLate_no_more]. framed. }
  generalize dependent (head_check cfg id (late_check id (set_inflight rest c))). intros c1 He.
  destruct (grows_lookup _ _ id t (e_grows _ _ He) Et) as (t1 & Et1 & _). destruct (forget_parse_eq id c1) as (p & s & ->).
  etransitivity; [exact He|]. etransitivity; [|exact (retry_or_complete_evolves id t1 (set_parseInflight p (set_staleStatements s c1)) Et1)].
  apply evolves_intro; [by apply grows_same|framed].
Qed.

(** ** Events *)

Lemma same_evolves c c' : tasks c' = tasks c -> queue c' = queue c -> log c' = log c -> evolves c c'.
Proof. intros Et Eq El. apply evolves_intro; [by apply grows_same|by apply no_more_frame]. Qed.
Lemma benign_evolves id f c : benign f -> evolves c (upd id f c).
Proof. intros Hf. apply evolves_intro; [by apply benign_grows|framed]. Qed.
Lemma write_now_evolves ms c : evolves c (write_now ms c).
Proof. apply evolves_intro; [by apply grows_same, write_now_tasks|apply write_now_no_more]. Qed.
Lemma failAttempt_evolves e c : evolves c (failAttempt e c).
Proof. unfold failAttempt. destruct (negb _); by apply same_evolves. Qed.
Lemma down_evolves e c : evolves c (onSocketDown cfg e c).
Proof. apply evolves_intro; [apply down_grows|apply down_no_more]. Qed.
Lemma inflight_known live X Y ex c id : weak live X Y ex c -> id ∈ inflight c -> is_Some (tasks c !! id).
Proof. intros [Ha _] Hi. apply (w_dom _ _ _ _ _ _ _ _ Ha). apply elem_of_app. right. apply elem_of_app. by right. Qed.
Lemma ready_evolves live body c : weak live [] [] false c -> evolves c (ready cfg body c).
Proof.
  intros Hw. unfold ready. cbv zeta. assert (evolves c (set_txStatus (default 73 (head body)) c)) as H1' by by apply same_evolves.
  assert (weak live [] [] false (set_txStatus (default 73 (head body)) c)) as Hw1 by exact Hw.
  generalize dependent (set_txStatus (default 73 (head body)) c). intros c1 H1' Hw1. etransitivity; [exact H1'|]. destruct (connecting c1).
  - etransitivity; [|apply processQueue_evolves]. by apply same_evolves.
  - apply finishTask_evolves. intros id. by eapply inflight_known.
Qed.
Lemma evolving_message c0 : message_invariant cfg (fun c => weak true [] [] false c /\ evolves c0 c).
Proof.
  pose proof (inv_message cfg true eq_refl) as Hm.
  assert (forall f : conn -> conn, (forall c, weak true [] [] false c -> weak true [] [] false (f c)) -> (forall c, weak true [] [] false c -> evolves c (f c)) ->
    forall c, weak true [] [] false c /\ evolves c0 c -> weak true [] [] false (f c) /\ evolves c0 (f c)) as Hf.
  { intros f Hw He c [H1' H2']. split; [by apply Hw|]. etransitivity; [exact H2'|by apply He]. }
  split.
  - intros id f c Hb. revert c. apply Hf; [intros c; by apply (m_upd _ _ Hm)|intros; by apply benign_evolves].
  - intros body. apply Hf; [intros c; by apply (m_ready _ _ Hm)|intros c; by apply ready_evolves].
  - intros ms. apply Hf; [intros c; by apply (m_write _ _ Hm)|intros; apply write_now_evolves].
  - intros e. apply Hf; [intros c; by apply (m_fail _ _ Hm)|intros; apply failAttempt_evolves].
  - intros e. apply Hf; [intros c; by apply (m_down _ _ Hm)|intros; apply down_evolves].
  - intros id n. apply Hf; [intros c; by apply (m_cache _ _ Hm)|intros; by apply same_evolves].
  - intros m. apply Hf; [intros c; by apply (m_params _ _ Hm)|intros; by apply same_evolves].
  - intros k. apply Hf; [intros c; by apply (m_key _ _ Hm)|intros; by apply same_evolves].
  - intros x. apply Hf; [intros c; by apply (m_scram _ _ Hm)|intros; by apply same_evolves].
  - intros b. apply Hf; [intros c; by apply (m_parser _ _ Hm)|intros; by apply same_evolves].
  - apply Hf; [intros c; by apply (m_hung _ _ Hm)|intros; by apply same_evolves].
Qed.
Lemma establish_evolves c : evolves c (establish cfg c).
Proof. unfold establish. cbv zeta. destruct (hasTransport cfg); [by apply same_evolves|]. etransitivity; [|apply failAttempt_evolves]. by apply same_evolves. Qed.
Lemma rejectQueue_evolves e c : evolves c (rejectQueue e c).
Proof. apply evolves_intro; [apply rejectQueue_grows|apply rejectQueue_no_more]. Qed.
Lemma reconnect_evolves n e c : evolves c (reconnect_round cfg n e c).
Proof. apply evolves_intro; [apply reconnect_grows|apply reconnect_no_more]. Qed.
Lemma onAttempt_evolves c : evolves c (onAttempt cfg c).
Proof.
  unfold onAttempt. destruct (attempt c) as [e|]; [|done]. cbv zeta.
  assert (forall c', evolves c c' -> evolves c (rejectQueue e c')) as Hr by (intros c' Hc; etransitivity; [exact Hc|apply rejectQueue_evolves]).
  destruct (loop _); [destruct (everConnected _); [|apply Hr]; by apply same_evolves..|].
  destruct (isFatalAuth _); [apply Hr; by apply same_evolves|]. etransitivity; [|apply reconnect_evolves]. by apply same_evolves.
Qed.
Lemma onBackoff_evolves c : evolves c (onBackoff cfg c).
Proof.
  unfold onBackoff. destruct (loop c); [done| |done]. destruct (_ || _); [by apply same_evolves|].
  etransitivity; [|apply establish_evolves]. by apply same_evolves.
Qed.
Lemma settlePending_evolves e c : evolves c (settlePending e c).
Proof.
  apply evolves_intro.
  - unfold settlePending. cbv zeta. etransitivity; [apply (reject_inflight_grows e (set_lateCancel None (set_parseInflight ∅ (set_outbuf [] c))))|].
    generalize (reject_inflight e (set_lateCancel None (set_parseInflight ∅ (set_outbuf [] c)))). intros c1.
    apply (grows_fold (settle_queued e) (queue c1) (set_queue [] c1)), settle_queued_grows.
  - destruct (settlePending_eq e c) as [tk ->]. by apply no_more_drop.
Qed.
Lemma end_evolves c : evolves c (end_ c).
Proof.
  unfold end_. case_bool_decide; [done|]. cbv zeta. fold (ending c).
  assert (evolves c (ending c)) as He.
  { unfold ending, write_now. cbv zeta. cbn. destruct (socket c); cbn; destruct (connecting c); by apply same_evolves. }
  generalize dependent (ending c). intros c1 He. assert (evolves c (settlePending ended_error c1)) as Hs
    by (etransitivity; [exact He|apply settlePending_evolves]).
  generalize dependent (settlePending ended_error c1). intros c2 Hs. etransitivity; [exact Hs|].
  apply evolves_intro; [by apply grows_same|]. etransitivity; [|by apply note_no_more]. framed.
Qed.
Lemma cancelTask_evolves id r c : evolves c (cancelTask cfg id r c).
Proof.
  unfold cancelTask. destruct (t_settled _); [done|]. cbv zeta.
  assert (evolves c (upd id (fun t => set_t_timer false (set_t_settled true t)) c)) as H1'.
  { apply evolves_intro; [|framed]. apply grows_upd. intros t. split; cbn; auto; lia. }
  generalize dependent (upd id (fun t => set_t_timer false (set_t_settled true t)) c). intros c1 H1'. etransitivity; [exact H1'|].
  assert (forall c', evolves c' (rejectTask id r c')) as Hr by (intros c'; apply evolves_intro; [apply reject_grows|framed]).
  case_bool_decide.
  - etransitivity; [apply Hr|]. generalize (rejectTask id r c1). intros c2. case_bool_decide; [|done].
    etransitivity; [|apply benign_evolves; benign]. destruct (is_copy _); [done|]. unfold sendCancelRequest. destruct (_ || _); [done|]. cbv zeta.
    apply evolves_intro; [apply grows_same; by destruct (bool_decide _)|]. etransitivity; [|by apply note_no_more].
    destruct (bool_decide _); framed.
  - etransitivity; [|apply Hr]. etransitivity; [|apply benign_evolves; benign]. apply evolves_intro; [by apply grows_same|].
    intros i. unfold turns. cbn [log queue set_queue]. pose proof (times_queued_filter i id (queue c1)). lia.
Qed.

(** A task is never sent more often than its retries allow. *)
Definition bounded (c : conn) : Prop :=
  forall id, match tasks c !! id with Some t => (turns id c <= 1 + t_retries t)%nat /\ (t_retries t <= 1)%nat | None => turns id c = 0%nat end.
Lemma evolves_bounded c c' : evolves c c' -> bounded c -> bounded c'.
Proof.
  intros [Hg Ht] Hb id. specialize (Hb id). specialize (Ht id). specialize (Hg id). unfold the in Ht.
  destruct Hg as [t t' Hle|]; cbn in Ht; [|lia]. pose proof (le_once _ _ Hle). lia.
Qed.
Lemma add_bounded t c : tasks c !! next c = None -> (t_retries t <= 1)%nat -> bounded c -> bounded (add_task t c).
Proof.
  intros En Hr Hb id. pose proof (Hb id) as Hi. unfold add_task. cbn [tasks set_next set_tasks].
  change (turns id _) with (turns id c). destruct (decide (id = next c)) as [-> |Hn].
  - rewrite lookup_insert_eq. rewrite En in Hi. lia.
  - by rewrite lookup_insert_ne.
Qed.
Lemma push_bounded t c : tasks c !! next c = None -> (t_retries t <= 1)%nat -> bounded c ->
  bounded (set_queue (queue (add_task t c) ++ [next c]) (add_task t c)).
Proof.
  intros En Hr Hb id. pose proof (Hb id) as Hi. unfold add_task, turns in *. cbn [tasks log queue set_queue set_next set_tasks] in *.
  rewrite times_queued_app, (times_queued_cons id (next c) []). destruct (decide (id = next c)) as [-> |Hn].
  - rewrite lookup_insert_eq. rewrite En in Hi. cbn. lia.
  - rewrite lookup_insert_ne by done. cbn. destruct (tasks c !! id); lia.
Qed.
Lemma next_fresh live X Y ex c : weak live X Y ex c -> tasks c !! next c = None.
Proof. intros [Ha _]. destruct (tasks c !! next c) eqn:E; [|done]. pose proof (w_fresh _ _ _ _ _ _ _ _ Ha (next c) ltac:(by rewrite E)). lia. Qed.

(** ** The theorem *)

Definition kept_tasks (c c' : conn) : Prop := forall id t, tasks c !! id = Some t -> exists t', tasks c' !! id = Some t' /\ task_le t t'.
#[local] Instance kept_tasks_preorder : PreOrder kept_tasks.
Proof.
  split; [intros c id t E; by exists t|]. intros c1 c2 c3 H12 H23 id t E. destruct (H12 id t E) as (t2 & E2 & L2).
  destruct (H23 id t2 E2) as (t3 & E3 & L3). exists t3. split; [done|by etransitivity].
Qed.
Record onward (c c' : conn) : Prop := { o_bounded : bounded c'; o_kept : kept_tasks c c' }.
Lemma evolves_onward c c' : bounded c -> evolves c c' -> onward c c'.
Proof. intros Hb He. split; [by eapply evolves_bounded|]. intros id t. by apply grows_lookup, He. Qed.
Lemma add_kept t c : tasks c !! next c = None -> kept_tasks c (add_task t c).
Proof.
  intros En id t' E. exists t'. split; [|done]. unfold add_task. cbn. rewrite lookup_insert_ne; [done|]. intros <-. congruence.
Qed.
Lemma reject_onward t e c : t_retries t = 0%nat -> tasks c !! next c = None -> bounded c -> onward c (add_task (settle (Rejected e) t) c).
Proof.
  intros Hr En Hb. split; [|by apply add_kept]. apply add_bounded; [done| |done]. unfold settle. destruct (t_outcome t); cbn; lia.
Qed.
Lemma open_task_onward r s c : yields fresh_task r -> tasks c !! next c = None -> bounded c -> onward c (open_task cfg r s c).
Proof.
  intros Hr En Hb. unfold open_task. case_bool_decide; [by apply reject_onward|].
  destruct r as [t|e|]; [|by apply reject_onward|by apply evolves_onward; [|apply same_evolves]].
  destruct Hr as (_ & _ & Hr0). unfold submit.
  assert (forall b, onward c (processQueue cfg (set_queue (queue (add_task (set_t_listening b t) c) ++ [next c]) (add_task (set_t_listening b t) c)))) as Hp.
  { intros b. pose proof (processQueue_evolves (set_queue (queue (add_task (set_t_listening b t) c) ++ [next c]) (add_task (set_t_listening b t) c))) as He.
    split; [eapply evolves_bounded; [exact He|]; apply push_bounded; [done|cbn; lia|done]|].
    transitivity (set_queue (queue (add_task (set_t_listening b t) c) ++ [next c]) (add_task (set_t_listening b t) c)); [exact (add_kept (set_t_listening b t) c En)|].
    intros id t'. by apply grows_lookup, He. }
  destruct s as [[x|]|]; cbv zeta; [by apply reject_onward|apply Hp..].
Qed.
Lemma step_onward ev c : weak false [] [] false c -> bounded c -> onward c (step cfg ev c).
Proof.
  intros Hw Hb. pose proof (next_fresh _ _ _ _ _ Hw) as En. unfold step. destruct (hung c); [by apply evolves_onward|]. destruct ev.
  all: try (apply open_task_onward; auto using query_task_fresh, queryTyped_fresh; done).
  all: apply evolves_onward; [done|].
  - unfold connect. destruct (connectPromise c); [done|]. etransitivity; [|apply establish_evolves]. by apply same_evolves.
  - unfold onTransport. destruct (negb _); [done|]. cbv zeta. destruct (W.startup _); [|by apply same_evolves..].
    etransitivity; [|apply write_now_evolves]. by apply same_evolves.
  - apply failAttempt_evolves.
  - apply failAttempt_evolves.
  - apply onAttempt_evolves.
  - apply onBackoff_evolves.
  - destruct (socket c) eqn:Es; [|done]. assert (connectPromise c = true) as Hp
      by (apply (w_promise _ _ _ _ _ _ _ _ _ _ _ _ _ _ _ _ _ _ (proj2 Hw)); auto).
    by apply (onData_closed cfg _ (evolving_message c) rnd chunk c); split; [apply live_on|].
  - unfold onClose. destruct (socket c); [|done]. etransitivity; [apply down_evolves|by apply same_evolves].
  - unfold onDrain. destruct (writeBackedUp c); [|done]. etransitivity; [|apply processQueue_evolves]. by apply same_evolves.
  - destruct (flushScheduled c); [|done]. unfold onMicrotask. apply evolves_intro; [apply (flush_grows (set_flushScheduled false c))|].
    etransitivity; [|apply flush_no_more]. framed.
  - by apply same_evolves.
  - destruct (t_timer _); [apply cancelTask_evolves|done].
  - destruct (t_listening _); [|done]. etransitivity; [|apply cancelTask_evolves]. apply benign_evolves. benign.
  - apply benign_evolves. benign.
  - destruct (_ && _ && _); [|done]. unfold onCancelEnd. cbv zeta.
    set (c1 := note (if ok then CancelConfirmed p else CancelFailed p) (upd_pending p (if ok then confirmed else failed) c)).
    assert (evolves c c1) as He. { apply evolves_intro; [by apply grows_same|]. etransitivity; [|apply note_no_more; by destruct ok]. framed. }
    clearbody c1. etransitivity; [exact He|]. destruct (_ && _); [|done]. apply evolves_intro; [apply resolve_grows|apply resolve_no_more].
  - unfold onPendingTimer. destruct (ptimer _); [|done]. case_bool_decide; [|done]. etransitivity; [|apply processQueue_evolves]. by apply same_evolves.
  - case_bool_decide; [|done]. unfold return_. cbv zeta. assert (evolves c (upd id (set_t_cancelled true) c)) as He by (apply benign_evolves; benign).
    destruct (_ && _); [|exact He]. etransitivity; [exact He|apply cancelTask_evolves].
  - apply end_evolves.
Qed.

Lemma run_onward evs c : (0 < pipelineDepth cfg)%nat -> weak false [] [] false c -> strong c -> bounded c ->
  onward c (run_events cfg evs c) .
Proof.
  intros Hd. revert c. induction evs as [|ev evs IH]; intros c Hw Hs Hb; [by split|]. change (run_events cfg (ev :: evs) c) with (run_events cfg evs (step cfg ev c)).
  destruct (step_good cfg Hd ev c Hw Hs) as [Hw' Hs']. destruct (step_onward ev c Hw Hb) as [Hb' Hk].
  destruct (IH _ Hw' Hs' Hb') as [Hb2 Hk2]. split; [done|by etransitivity].
Qed.
Lemma run_events_app evs evs' : run_events cfg (evs ++ evs') initial = run_events cfg evs' (run_events cfg evs initial).
Proof. unfold run_events. by rewrite foldl_app. Qed.

End Once.

#[local] Existing Instances demo_env zero_alloc demo_crypto.
(** The statement is invalidated between the two executions: the second one is sent again, and then answered. *)
Definition retried : list event :=
  two_queries ++ [answers [server_error "0A000"; ready_for_query]; EMicrotask].
Example retried_twice : times_sent 1 (log (demo_run retried)) = 2%nat /\ inflight (demo_run retried) = [1%nat].
Proof. vm_compute. by split. Qed.
