(* ===== verification/ConnCancel.v ===== *)
(** * A cancel request stops no other query (src/connection.ts)

    The server stops whatever the session runs when a cancel request reaches it. [exposed] reads the log of a connection and
    answers the requests that may still do so; the theorem says that no query is sent while there is one. *)

From S2P Require Import Prelude Utf8 Text Buf Num Dates Value NumText Faults Auth Json JsonBig ExtTypes JsonSpec JsonScan ArrayText Temporal Protocol Framing Messages Errors Encode Decode Mapper Spec Connection ConnDemo ConnProofs ConnLive.

(** The cancel requests that may still take effect. One that stopped a query is spent; one that the server has confirmed by closing its
    connection has been acted on, unless a pooler stands between; and none outlives the session. *)
Definition exposed_step (pooler : bool) (s : gset nat) (a : action) : gset nat :=
  match a with
  | CancelSent p => {[p]} ∪ s
  | CancelUsed p => s ∖ {[p]}
  | CancelConfirmed p => if pooler then s else s ∖ {[p]}
  | SocketDown => ∅
  | _ => s
  end.
Definition exposed (pooler : bool) (l : list action) : gset nat := foldl (exposed_step pooler) ∅ l.
(** Nothing was sent to a session that a cancel request could still reach. *)
Definition sheltered (pooler : bool) (l : list action) : Prop :=
  forall l1 id l2, l = l1 ++ Dispatched id :: l2 -> exposed pooler l1 = ∅.

Section Cancel.
Context `{Env, Alloc, Crypto} (cfg : Config).
Abbreviation open_cancels c := (exposed (isBehindPooler cfg) (log c)).

Record guarded (c : conn) : Prop := {
  gd_open : forall p, p ∈ open_cancels c -> pendingCancel c = Some p \/ isRetiring c = true;
  gd_confirmed : forall p, isConfirmed (pending p c) = true -> isBehindPooler cfg = false -> p ∉ open_cancels c;
  gd_safe : sheltered (isBehindPooler cfg) (log c) }.

Lemma exposed_snoc b l a : exposed b (l ++ [a]) = exposed_step b (exposed b l) a.
Proof. unfold exposed. by rewrite foldl_app. Qed.
Lemma sheltered_snoc b l a : (forall id, a = Dispatched id -> exposed b l = ∅) -> sheltered b l -> sheltered b (l ++ [a]).
Proof.
  intros Ha Hl l1 id l2 E. destruct l2 as [|x l2 _] using rev_ind.
  - apply app_inj_tail in E as [-> ->]. by eapply Ha.
  - rewrite app_comm_cons, app_assoc in E. apply app_inj_tail in E as [-> _]. by eapply Hl.
Qed.
Lemma guarded_frame c c' : log c' = log c -> pendingCancel c' = pendingCancel c -> isRetiring c' = isRetiring c -> pendings c' = pendings c ->
  guarded c -> guarded c'.
Proof.
  intros El Ep Er Epd [H1' H2' H3']. unfold pending in *. split; rewrite ?El; [intros p; rewrite Ep, Er; auto| |done].
  intros p. unfold pending. rewrite Epd. auto.
Qed.
Ltac framed := apply guarded_frame; done.

(** ** The moves of a cancel *)

Lemma guarded_note a c : (forall id, a <> Dispatched id) -> (forall p, a <> CancelSent p) -> guarded c -> guarded (note a c).
Proof.
  intros Hd Hs [H1' H2' H3']. unfold note. split; cbn [log pendingCancel isRetiring set_log].
  - intros p. rewrite exposed_snoc. intros Hp. apply H1'. destruct a; cbn in Hp; try done; [by destruct (Hs p0)|set_solver|]. destruct (isBehindPooler cfg); set_solver.
  - intros p Hc Hb. rewrite exposed_snoc. intros Hp. apply (H2' p Hc Hb). destruct a; cbn in Hp; try done; [by destruct (Hs p0)|set_solver|]. destruct (isBehindPooler cfg); set_solver.
  - apply sheltered_snoc; [|done]. intros id ->. by destruct (Hd id).
Qed.
Lemma guarded_retiring c : guarded c -> guarded (set_isRetiring true c).
Proof. intros [H1' H2' H3']. split; [intros p _; by right|exact H2'|exact H3']. Qed.
(** The cancel in progress is over. *)
Lemma guarded_clear c : open_cancels c = ∅ -> guarded c -> guarded (clearPendingCancel c).
Proof. intros E [H1' H2' H3']. split; [|exact H2'|exact H3']. intros p Hp. change (log (clearPendingCancel c)) with (log c) in Hp. rewrite E in Hp. set_solver. Qed.
Lemma guarded_upd p f c : (forall x, isConfirmed (f x) = isConfirmed x) -> guarded c -> guarded (upd_pending p f c).
Proof.
  intros Hf [H1' H2' H3']. split; [exact H1'| |exact H3']. intros q Hc Hb. apply H2'; [|done]. unfold pending, upd_pending in *. cbn in Hc.
  destruct (decide (q = p)) as [-> |Hn]; [|by rewrite lookup_alter_ne in Hc]. rewrite lookup_alter_eq in Hc.
  destruct (pendings c !! p); [|done]. cbn in *. by rewrite Hf in Hc.
Qed.
Lemma guarded_used p c : pendingCancel c = Some p -> isRetiring c = false -> guarded c -> guarded (clearPendingCancel (note (CancelUsed p) c)).
Proof.
  intros Ep Er Hg. apply guarded_clear; [|by apply guarded_note]. unfold note. cbn [log set_log]. rewrite exposed_snoc. cbn.
  destruct Hg as [H1' _ _]. apply set_eq. intros q. split; [|set_solver]. intros Hq. apply elem_of_difference in Hq as [Hq Hn].
  destruct (H1' q Hq) as [E|E]; [|congruence]. rewrite Ep in E. injection E as ->. set_solver.
Qed.
Lemma guarded_over p c : pendingCancel c = Some p -> isRetiring c = false -> isConfirmed (pending p c) = true -> isBehindPooler cfg = false ->
  guarded c -> guarded (clearPendingCancel c).
Proof.
  intros Ep Er Hc Hb Hg. apply guarded_clear; [|done]. destruct Hg as [H1' H2' _]. apply set_eq. intros q. split; [|set_solver]. intros Hq.
  destruct (H1' q Hq) as [E|E]; [|congruence]. rewrite Ep in E. injection E as ->. by destruct (H2' q).
Qed.
Lemma guarded_confirm p c : guarded c -> guarded (note (CancelConfirmed p) (upd_pending p confirmed c)).
Proof.
  intros Hg. unfold note, upd_pending, pending. destruct Hg as [H1' H2' H3']. split; unfold pending; cbn [log pendings pendingCancel isRetiring set_log set_pendings].
  - intros q. rewrite exposed_snoc. cbn. intros Hq. apply H1'. destruct (isBehindPooler cfg); set_solver.
  - intros q Hc Hb. rewrite exposed_snoc. cbn. rewrite Hb in *. intros Hq. destruct (decide (q = p)) as [-> |Hn]; [set_solver|].
    rewrite lookup_alter_ne in Hc by done. apply (H2' q Hc eq_refl). set_solver.
  - by apply sheltered_snoc.
Qed.
Lemma guarded_down c : guarded c -> guarded (note SocketDown (clearPendingCancel c)).
Proof.
  intros [H1' H2' H3']. unfold note. split; cbn [log pendingCancel isRetiring set_log].
  - intros p. rewrite exposed_snoc. set_solver.
  - intros p _ _. rewrite exposed_snoc. set_solver.
  - by apply sheltered_snoc.
Qed.
Lemma guarded_sent h c : guarded c -> guarded (sendCancelRequest cfg h c).
Proof.
  intros [H1' H2' H3']. unfold sendCancelRequest. destruct (_ || _); [by split|]. cbv zeta.
  assert (forall c', log c' = log c -> pendings c' = pendings c -> next c' = next c -> (is_Some (pendingCancel c) -> isRetiring c' = true) -> (isRetiring c = true -> isRetiring c' = true) ->
    guarded (note (CancelSent (next c')) (set_pendingCancel (Some (next c')) (set_pendings (<[next c' := mkPending (Some h) false false false]> (pendings c')) (set_next (S (next c')) c'))))) as Hs.
  { intros c' El Epd En Hr Hr'. unfold note. split; unfold pending; cbn [log pendings pendingCancel isRetiring set_log set_pendings set_pendingCancel set_next].
    - intros q. rewrite exposed_snoc, El. cbn. intros Hq. apply elem_of_union in Hq as [->%elem_of_singleton|Hq]; [by left|].
      right. destruct (H1' q Hq) as [E|E]; [apply Hr; by rewrite E|by apply Hr'].
    - intros q Hc Hb. rewrite exposed_snoc, El. cbn. destruct (decide (q = next c')) as [-> |Hn]; [by rewrite lookup_insert_eq in Hc|].
      rewrite lookup_insert_ne, Epd in Hc by done. pose proof (H2' q Hc Hb). set_solver.
    - rewrite El. by apply sheltered_snoc. }
  case_bool_decide; [apply (Hs (set_isRetiring true c)); by auto|]. by apply (Hs c).
Qed.

(** ** Handlers *)

Lemma reject_inflight_guarded e c : guarded c -> guarded (reject_inflight e c).
Proof. destruct (reject_inflight_eq e c) as [tk ->]. framed. Qed.
Lemma rejectQueue_guarded e c : guarded c -> guarded (rejectQueue e c).
Proof. destruct (rejectQueue_eq e c) as [tk ->]. framed. Qed.
Lemma reconnect_guarded n e c : guarded c -> guarded (reconnect_round cfg n e c).
Proof.
  intros Hg. unfold reconnect_round. destruct (_ || _); [revert Hg; framed|]. destruct (match rcMaxRetries cfg with Some m => _ | None => _ end); [|revert Hg; framed].
  apply rejectQueue_guarded. revert Hg. framed.
Qed.
Lemma failAttempt_guarded e c : guarded c -> guarded (failAttempt e c).
Proof. unfold failAttempt. destruct (negb _); framed. Qed.
Lemma cut_guarded c : guarded c -> guarded (cut c).
Proof. intros Hg. pose proof (guarded_down c Hg) as Hd. revert Hd. unfold cut. framed. Qed.
Lemma down_guarded e c : guarded c -> guarded (onSocketDown cfg e c).
Proof.
  intros Hg. unfold onSocketDown. case_bool_decide; [done|]. destruct (connecting c); [by apply failAttempt_guarded|]. cbv zeta. fold (cut c).
  pose proof (reject_inflight_guarded e _ (cut_guarded c Hg)) as Hc. generalize dependent (reject_inflight e (cut c)). intros c2 Hc. destruct (_ && _).
  - apply reconnect_guarded. revert Hc. framed.
  - apply rejectQueue_guarded. revert Hc. framed.
Qed.
Lemma write_now_guarded ms c : guarded c -> guarded (write_now ms c).
Proof. unfold write_now. destruct (socket c); framed. Qed.
Lemma flush_guarded c : guarded c -> guarded (flushWrites c).
Proof. destruct (flush_eq c) as (o & b & w & ->). framed. Qed.
Lemma unseen_guarded c : unseen (fun c' => log c' = log c /\ pendingCancel c' = pendingCancel c /\ isRetiring c' = isRetiring c /\ pendings c' = pendings c).
Proof. split; intros; assumption. Qed.
(** The guard of the dispatch: no cancel is in progress. *)
Lemma startTask_guarded id c : pendingCancel c = None -> isRetiring c = false -> guarded c -> guarded (startTask cfg id c).
Proof.
  intros Ep Er Hg. unfold startTask.
  pose proof (stable_run _ _ (serialize_stable cfg _ (unseen_guarded c) id) c ltac:(done)) as Hs.
  destruct (serialize cfg id c) as [c' [[]|e|]]; cbn [fst] in Hs; destruct Hs as (E1 & E2 & E3 & E4).
  - assert (guarded (note (Dispatched id) (set_inflight (inflight c' ++ [id]) c'))) as Hd.
    { assert (open_cancels c = ∅) as Eo.
      { apply set_eq. intros q. split; [|set_solver]. intros Hq. destruct (gd_open _ Hg q Hq); congruence. }
      destruct Hg as [H1' H2' H3']. unfold note. split; cbn [log pendingCancel isRetiring set_log set_inflight]; rewrite E1.
      - intros q. rewrite exposed_snoc, Eo. set_solver.
      - intros q _ _. rewrite exposed_snoc, Eo. set_solver.
      - by apply sheltered_snoc. }
    cbv zeta. destruct (bool_decide _); [revert Hd; framed|exact Hd].
  - assert (guarded c') as Hg' by (revert Hg; by apply guarded_frame).
    assert (guarded (note (Discarded (drop (length (outbuf c)) (outbuf c')).*1) (set_outbuf (take (length (outbuf c)) (outbuf c')) c'))) as Hd
      by (apply guarded_note; [done..|revert Hg'; framed]). revert Hd. framed.
  - revert Hg. by apply guarded_frame.
Qed.
Lemma dispatch_one_guarded c : pendingCancel c = None -> isRetiring c = false -> guarded c -> guarded (dispatch_one cfg c).
Proof.
  intros Ep Er Hg. unfold dispatch_one. destruct (queue c) as [|id rest]; [done|]. cbv zeta.
  assert (guarded (startTask cfg id (set_queue rest c))) as Hs by (apply startTask_guarded; [done..|revert Hg; framed]).
  destruct (_ <=? _); [by apply flush_guarded|done].
Qed.
Lemma dispatch_loop_guarded f c : isRetiring c = false -> guarded c -> guarded (dispatch_loop cfg f c).
Proof.
  revert c. induction f as [|f IH]; intros c Er Hg; cbn [dispatch_loop]; [done|]. destruct (queue c) as [|id rest] eqn:Eq; [done|].
  destruct (can_dispatch cfg c) eqn:Ec; [|done]. destruct (hung c) eqn:Eh; [done|]. cbn [andb negb].
  unfold can_dispatch, canStartNext in Ec. apply andb_true_iff in Ec as [_ Ec]. case_bool_decide as Ep; [done|].
  assert (pendingCancel c = None) as Ep' by (destruct (pendingCancel c); [by destruct Ep|done]).
  apply IH; [|by apply dispatch_one_guarded]. unfold dispatch_one. rewrite Eq. cbv zeta.
  destruct (startTask_frame cfg id (set_queue rest c)) as [E1 _]. cbn [isRetiring set_queue] in E1.
  destruct (_ <=? _); [|by rewrite E1]. destruct (flush_frame (startTask cfg id (set_queue rest c))) as (_ & _ & _ & -> & _). by rewrite E1.
Qed.
Lemma processQueue_guarded c : guarded c -> guarded (processQueue cfg c).
Proof.
  intros Hg. unfold processQueue. destruct (negb _); [done|]. destruct (isRetiring c) eqn:Er.
  - destruct (inflight c); [|done]. unfold retire. by apply down_guarded, write_now_guarded.
  - cbv zeta. pose proof (dispatch_loop_guarded (length (queue c)) c Er Hg) as Hd. destruct (_ && _ && _); [revert Hd; framed|by apply flush_guarded].
Qed.
Lemma resolve_guarded p c : pendingCancel c = Some p -> guarded c -> guarded (resolveCanceledHead cfg p c).
Proof.
  intros Ep Hg. unfold resolveCanceledHead. cbv zeta. destruct (isRetiring c) eqn:Er; [done|].
  destruct (hasFailed (pending p c) || _) eqn:Ef; [by apply processQueue_guarded, guarded_retiring|].
  destruct (isConfirmed (pending p c)) eqn:Ec; [|done]. apply processQueue_guarded, (guarded_over p); try done.
  apply orb_false_iff in Ef as [_ Ef]. by destruct (isBehindPooler cfg).
Qed.
Lemma decide_guarded p c : pendingCancel c = Some p -> guarded c -> guarded (decide_cancel cfg p c).
Proof.
  intros Ep Hg. unfold decide_cancel. cbv zeta. pose proof (resolve_guarded p c Ep Hg) as Hr. destruct (_ && _); [by apply guarded_upd|done].
Qed.
Lemma endCanceledHead_guarded id c : guarded c -> guarded (endCanceledHead cfg id c).
Proof.
  intros Hg. unfold endCanceledHead. destruct (pendingCancel c) as [p|] eqn:Ep; [|done]. cbv zeta.
  pose proof (guarded_upd p no_head c ltac:(done) Hg) as H1'.
  assert (forall c', pendingCancel c' = Some p -> guarded c' ->
    guarded (if isRetiring c' then c' else if is_57014 (the id (upd_pending p no_head c)) then clearPendingCancel (note (CancelUsed p) c') else decide_cancel cfg p c')) as Hd.
  { intros c' Ep' Hg'. destruct (isRetiring c') eqn:Er; [done|]. destruct (is_57014 _); [by apply guarded_used|by apply decide_guarded]. }
  destruct (negb _ && _); [|by apply Hd]. apply (Hd (set_lateCancel _ (upd_pending p no_head c))); [done|]. revert H1'. framed.
Qed.
Lemma head_check_guarded id c : guarded c -> guarded (head_check cfg id c).
Proof. intros Hg. unfold head_check. destruct (pendingCancel c); [|done]. case_bool_decide; [by apply endCanceledHead_guarded|done]. Qed.
Lemma late_check_guarded id c : guarded c -> guarded (late_check id c).
Proof.
  intros Hg. unfold late_check. destruct (lateCancel c) as [[p s]|] eqn:El; [|done]. case_bool_decide; [|done].
  assert (guarded (upd id mark_late c)) as Hm by (revert Hg; framed).
  unfold checkLateCancel. rewrite El. cbv zeta. destruct (_ && _); cbv iota; [|revert Hg; framed].
  change (pendingCancel (upd id mark_late c)) with (pendingCancel c). change (isRetiring (upd id mark_late c)) with (isRetiring c).
  destruct (bool_decide (pendingCancel c = Some p)) eqn:Ep; cbn [andb]; [|revert Hm; framed]. apply bool_decide_eq_true in Ep.
  destruct (isRetiring c) eqn:Er; cbn [negb]; [revert Hm; framed|].
  pose proof (guarded_used p (upd id mark_late c) Ep Er Hm) as Hu. revert Hu. framed.
Qed.
Lemma settle_result_guarded id c : guarded c -> guarded (settle_result id c).
Proof. destruct (settle_result_tasks id c) as [tk ->]. framed. Qed.
Lemma complete_guarded id c : guarded c -> guarded (complete cfg id c).
Proof. intros Hg. unfold complete. apply processQueue_guarded, settle_result_guarded. revert Hg. framed. Qed.
Lemma finishTask_guarded c : guarded c -> guarded (finishTask cfg c).
Proof.
  intros Hg. unfold finishTask. destruct (inflight c) as [|id rest]; [by apply processQueue_guarded|].
  assert (guarded (set_inflight rest c)) as H1' by (revert Hg; framed).
  pose proof (head_check_guarded id _ (late_check_guarded id _ H1')) as H2'. generalize dependent (head_check cfg id (late_check id (set_inflight rest c))).
  intros c2 Hg2. destruct (forget_parse_eq id c2) as (p & s & ->).
  assert (guarded (set_parseInflight p (set_staleStatements s c2))) as Hg3 by (revert Hg2; framed).
  generalize dependent (set_parseInflight p (set_staleStatements s c2)). intros c3 Hg3. pose proof (complete_guarded id c3 Hg3) as Hc.
  unfold retry_or_complete. cbv zeta. destruct (named (t_req (the id c3))) as [n|], (t_error (the id c3)) as [e|]; try exact Hc. destruct (invalidated e); [|exact Hc].
  assert (guarded (set_staleStatements ({[n]} ∪ staleStatements c3) (set_prepared (delete n (prepared c3)) c3))) as H3' by (revert Hg3; framed).
  destruct (retryable _ _); [|by apply complete_guarded]. apply processQueue_guarded. revert H3'. framed.
Qed.
Lemma ready_guarded body c : guarded c -> guarded (ready cfg body c).
Proof.
  intros Hg. unfold ready. cbv zeta. assert (guarded (set_txStatus (default 73 (head body)) c)) as H1' by (revert Hg; framed).
  generalize dependent (set_txStatus (default 73 (head body)) c). intros c1 H1'. destruct (connecting c1); [|by apply finishTask_guarded].
  apply processQueue_guarded. revert H1'. framed.
Qed.
Lemma guarded_message : message_invariant cfg guarded.
Proof.
  split; try (intros until c; framed).
  - intros id f c _. framed.
  - intros. by apply ready_guarded.
  - intros. by apply write_now_guarded.
  - intros. by apply failAttempt_guarded.
  - intros. by apply down_guarded.
Qed.
Lemma establish_guarded c : guarded c -> guarded (establish cfg c).
Proof. intros Hg. unfold establish. cbv zeta. destruct (hasTransport cfg); [revert Hg; framed|]. apply failAttempt_guarded. revert Hg. framed. Qed.
Lemma onAttempt_guarded c : guarded c -> guarded (onAttempt cfg c).
Proof.
  intros Hg. unfold onAttempt. destruct (attempt c) as [e|]; [|done]. cbv zeta.
  assert (forall c', guarded c' -> guarded (rejectQueue e c')) as Hr by (intros c'; apply rejectQueue_guarded).
  destruct (loop _); [destruct (everConnected _); [|apply Hr]; revert Hg; framed..|].
  destruct (isFatalAuth _); [apply Hr; revert Hg; framed|]. apply reconnect_guarded. revert Hg. framed.
Qed.
Lemma end_guarded c : guarded c -> guarded (end_ c).
Proof.
  intros Hg. unfold end_. case_bool_decide; [done|]. cbv zeta. fold (ending c).
  assert (guarded (ending c)) as He. { unfold ending, write_now. cbv zeta. cbn. destruct (socket c); cbn; destruct (connecting c); revert Hg; framed. }
  generalize dependent (ending c). intros c1 He. destruct (settlePending_eq ended_error c1) as [tk ->].
  assert (forall c', guarded c' -> guarded (note SocketDown (set_socket false (clearPendingCancel c')))) as Hd.
  { intros c' Hc. pose proof (guarded_down c' Hc) as Hd. revert Hd. framed. }
  apply Hd. revert He. framed.
Qed.
Lemma cancelTask_guarded id r c : guarded c -> guarded (cancelTask cfg id r c).
Proof.
  intros Hg. unfold cancelTask. destruct (t_settled _); [done|]. cbv zeta.
  assert (guarded (upd id (fun t => set_t_timer false (set_t_settled true t)) c)) as H1' by (revert Hg; framed).
  generalize dependent (upd id (fun t => set_t_timer false (set_t_settled true t)) c). intros c1 H1'.
  case_bool_decide; [|revert H1'; framed]. assert (guarded (rejectTask id r c1)) as H2' by (revert H1'; framed).
  generalize dependent (rejectTask id r c1). intros c2 H2'. case_bool_decide; [|done].
  assert (forall c', guarded c' -> guarded (upd id (set_t_graceTimer true) c')) as Hu by (intros c'; framed). apply Hu.
  destruct (is_copy _); [done|by apply guarded_sent].
Qed.
Lemma open_task_guarded r s c : guarded c -> guarded (open_task cfg r s c).
Proof.
  intros Hg. assert (forall t, guarded (add_task t c)) as Ha by (intros t; revert Hg; framed).
  unfold open_task. case_bool_decide; [apply Ha|]. destruct r as [t|e|]; [|apply Ha|revert Hg; framed].
  unfold submit. destruct s as [[x|]|]; cbv zeta; [apply Ha|..]; apply processQueue_guarded; revert Hg; framed.
Qed.
Lemma onCancelEnd_guarded ok p c : guarded c -> guarded (onCancelEnd cfg ok p c).
Proof.
  intros Hg. unfold onCancelEnd. cbv zeta.
  assert (guarded (note (if ok then CancelConfirmed p else CancelFailed p) (upd_pending p (if ok then confirmed else failed) c))) as H1'.
  { destruct ok; [by apply guarded_confirm|]. apply guarded_note; [done..|]. by apply guarded_upd. }
  generalize dependent (note (if ok then CancelConfirmed p else CancelFailed p) (upd_pending p (if ok then confirmed else failed) c)). intros c1 H1'.
  case_bool_decide as Ep; [|done]. cbn [andb]. destruct (bool_decide _); [by apply resolve_guarded|done].
Qed.
Lemma step_guarded ev c : guarded c -> guarded (step cfg ev c).
Proof.
  intros Hg. unfold step. destruct (hung c); [done|]. destruct ev; try (by apply open_task_guarded).
  - unfold connect. destruct (connectPromise c); [done|]. apply establish_guarded. revert Hg. framed.
  - unfold onTransport. destruct (negb _); [done|]. cbv zeta. destruct (W.startup _); [apply write_now_guarded|..]; revert Hg; framed.
  - by apply failAttempt_guarded.
  - by apply failAttempt_guarded.
  - by apply onAttempt_guarded.
  - unfold onBackoff. destruct (loop c); [done| |done]. destruct (_ || _); [revert Hg; framed|]. apply establish_guarded. revert Hg. framed.
  - destruct (socket c); [|done]. by apply (onData_closed cfg _ guarded_message).
  - unfold onClose. destruct (socket c); [|done]. pose proof (down_guarded (default (plain_error (js "connection terminated unexpectedly")) e) c Hg) as Hd. revert Hd. framed.
  - unfold onDrain. destruct (writeBackedUp c); [|done]. apply processQueue_guarded. revert Hg. framed.
  - destruct (flushScheduled c); [|done]. unfold onMicrotask. apply flush_guarded. revert Hg. framed.
  - revert Hg. framed.
  - destruct (t_timer _); [by apply cancelTask_guarded|done].
  - destruct (t_listening _); [|done]. apply cancelTask_guarded. revert Hg. framed.
  - revert Hg. framed.
  - destruct (_ && _ && _); [by apply onCancelEnd_guarded|done].
  - unfold onPendingTimer. destruct (ptimer _); [|done]. case_bool_decide; [|done]. by apply processQueue_guarded, guarded_retiring.
  - case_bool_decide; [|done]. unfold return_. cbv zeta. assert (guarded (upd id (set_t_cancelled true) c)) as Hu by (revert Hg; framed).
    destruct (_ && _); [by apply cancelTask_guarded|exact Hu].
  - by apply end_guarded.
Qed.

End Cancel.

#[local] Existing Instances demo_env zero_alloc demo_crypto.
(** A query is aborted while it runs and another waits behind it: the second one is only sent after the cancel is spent. *)
Definition aborted_query : event :=
  EQuery (js "select 1") (inl []) (mkQueryOptions None None None None false None (Some None)).
Definition aborted (tail : list event) : list event := handshake ++ [aborted_query; EMicrotask; EAbort 0 7; named_query "n" "s"; EMicrotask] ++ tail.
Example cancel_holds_queue : queue (demo_run (aborted [])) = [2%nat] /\ exposed false (log (demo_run (aborted []))) = {[1%nat]}.
Proof. vm_compute. by split. Qed.
Example cancel_releases_queue : inflight (demo_run (aborted [answers [server_error "57014"; ready_for_query]; EMicrotask])) = [2%nat].
Proof. vm_compute. reflexivity. Qed.
(** The query ended by itself: the connection waits for the confirmation of the cancel. *)
Example confirmed_releases_queue :
  queue (demo_run (aborted [answers [completed; ready_for_query]])) = [2%nat] /\
  inflight (demo_run (aborted [answers [completed; ready_for_query]; ECancelEnd true 1; EMicrotask])) = [2%nat] /\
  state (demo_run (aborted [answers [completed; ready_for_query]; ECancelEnd false 1])) = CClosed.
Proof. vm_compute. by repeat split. Qed.
