(* ===== verification/Bulk.v ===== *)
(** * Transactions and bulk loads (src/connection.ts, begin to copyMany)

    The calls of Connection that are programs over its queries: [runTx], [bulkInsert], [bulkUpdate] and
    [copyMany]. What they need from a connection is an interface ([Session]): commands are executed by the
    server in the order they are submitted and each is answered, which ConnLive and ConnOnce prove of the
    connection itself. A program is a computation over the session and the connection's own caches that ends
    in a value or a failure; [documented] states the transaction rules of the server. *)

From S2P Require Import Prelude Utf8 Text Buf Num Dates Value Json JsonBig Protocol Faults Encode Decode Spec.

(** ** Commands and results *)

Record Statement := mkStatement { sql : jstr; params : list value; sname : option jstr; oids : option (list Z) }.
(** [query] of a statement, or [copyFrom] of the chunks that a source yields and how it ends. *)
Inductive Command := Query (s : Statement) | Copy (sql : jstr) (source : list bytes * res unit).
Definition text (s : jstr) : Command := Query (mkStatement s [] None None).
Definition command_sql (c : Command) : jstr := match c with Query s => sql s | Copy s _ => s end.

Record QueryResult := mkResult { rows : list value; columns : list jstr; rowCount : option Z; command : option jstr }.
(** [r.rowCount ?? 0] *)
Definition count (r : QueryResult) : Z := default 0 (rowCount r).
Definition mergeResults (rs : list QueryResult) : QueryResult :=
  mkResult (concat (rows <$> rs)) (default [] (columns <$> head rs)) (Some (foldl (fun s r => s + count r) 0 rs))
           (head rs ≫= command).

Class Session (T E : Type) := {
  exec : Command -> T -> T * (E + QueryResult);
  inTransaction : T -> bool;
}.

(** The fields of a Connection that these calls write, and the reports given to [onProgress]. *)
Record Meta := mkMeta { m_sql : jstr; m_oids : list Z; m_name : jstr }.
Record Progress := mkProgress { p_rows : Z; p_affected : Z; p_chunk : Z; p_chunks : Z }.
Record Client := mkClient {
  insertMeta : gmap jstr Meta; valuesMeta : gmap jstr jstr; spCounter : Z; reports : list Progress }.
Definition set_insertMeta x c := mkClient x (valuesMeta c) (spCounter c) (reports c).
Definition set_valuesMeta x c := mkClient (insertMeta c) x (spCounter c) (reports c).
Definition set_spCounter x c := mkClient (insertMeta c) (valuesMeta c) x (reports c).
Definition set_reports x c := mkClient (insertMeta c) (valuesMeta c) (spCounter c) x.

Section Programs.
Context {T E : Type} `{Session T E}.

Inductive cause := FromQuery (e : E) | Local (e : exn).
(** [insertedRows] or [updatedRows], assigned to the error of a bulk call that committed chunks. *)
Record failure := mkFailure { reason : cause; committedRows : option Z }.
Definition World : Type := T * Client.
Definition proc (A : Type) : Type := World -> World * (failure + A).
#[global] Instance proc_ret : MRet proc := fun A a w => (w, inr a).
#[global] Instance proc_bind : MBind proc := fun A B f p w =>
  match p w with (w', inr a) => f a w' | (w', inl e) => (w', inl e) end.

Definition raise {A} (e : failure) : proc A := fun w => (w, inl e).
Definition reject {A} (m : jstr) : proc A := raise (mkFailure (Local (Error m)) None).
Definition of_res {A} (r : res A) : proc A := fun w =>
  match r with Ok a => (w, inr a) | Throw e => (w, inl (mkFailure (Local e) None)) | NoFuel => (w, inl (mkFailure (Local RangeError) None)) end.
Definition client {A} (f : Client -> A) : proc A := fun w => (w, inr (f w.2)).
Definition update (f : Client -> Client) : proc unit := fun w => ((w.1, f w.2), inr tt).
Definition open_tx : proc bool := fun w => (w, inr (inTransaction w.1)).
(** try { p } catch: the outcome as a value. *)
Definition attempt {A} (p : proc A) : proc (failure + A) := fun w => let '(w', r) := p w in (w', inr r).

Definition submit (c : Command) : proc QueryResult := fun w =>
  let '(s, r) := exec c w.1 in
  ((s, w.2), match r with inr q => inr q | inl e => inl (mkFailure (FromQuery e) None) end).

(** ** begin() *)

Inductive TxOptions := TxText (s : jstr) | TxObject (isolation : option jstr) (readOnly deferrable : option bool).
(** /[^a-zA-Z ]/g *)
Definition letter (c : Z) : bool := ((97 <=? c) && (c <=? 122)) || ((65 <=? c) && (c <=? 90)) || (c =? 32).
Definition beginClause (o : option TxOptions) : jstr :=
  match o with
  | None => js "begin"
  | Some (TxText t) => match trim (List.filter letter t) with [] => js "begin" | s => js "begin " ++ s end
  | Some (TxObject iso ro de) =>
    match (match iso with None | Some [] => [] | Some i => [js "isolation level " ++ i] end)
          ++ (match ro with None => [] | Some b => [js (if b then "read only" else "read write")] end)
          ++ (match de with None => [] | Some b => [js (if b then "deferrable" else "not deferrable")] end) with
    | [] => js "begin"
    | parts => js "begin " ++ join (js " ") parts
    end
  end.

Definition savepoint_name (n : Z) : jstr := js "minipg_sp_" ++ show_Z n.
(** try { const r = await fn(this); await keep; return r } catch (e) { try { await undo } catch {} throw e } *)
Definition keep_or_undo {A} (fn : proc A) (keep undo : proc QueryResult) : proc A :=
  r ← attempt (a ← fn; _ ← keep; mret a);
  match r : failure + A with
  | inr a => mret a
  | inl e => _ ← attempt undo; raise e
  end.
Definition runTx {A} (o : option TxOptions) (fn : proc A) : proc A :=
  t ← open_tx;
  if (t : bool) then
    _ ← update (fun c => set_spCounter (spCounter c + 1) c);
    n ← client spCounter;
    let sp := savepoint_name n in
    _ ← submit (text (js "savepoint " ++ sp));
    keep_or_undo fn (submit (text (js "release savepoint " ++ sp)))
      (_ ← submit (text (js "rollback to savepoint " ++ sp)); submit (text (js "release savepoint " ++ sp)))
  else
    _ ← submit (text (beginClause o));
    keep_or_undo fn (submit (text (js "commit"))) (submit (text (js "rollback"))).

(** ** The snapshot option of query() *)

(** Promise.allSettled of four queries: the first failure wins, else the third's answer. *)
Definition snapshot_query (snapshot : jstr) (st : Statement) : proc QueryResult :=
  t ← open_tx;
  if (t : bool) then reject (js "snapshot queries need a fresh transaction " ++ [8212] ++ js " use them outside begin()")
  else
    b ← attempt (submit (text (js "begin isolation level repeatable read read only")));
    s ← attempt (submit (text (js "set transaction snapshot '" ++ (snapshot ≫= (fun x => if x =? 39 then [39; 39] else [x])) ++ js "'")));
    q ← attempt (submit (Query st));
    c ← attempt (submit (text (js "commit")));
    match b : failure + QueryResult, s : failure + QueryResult, q : failure + QueryResult, c : failure + QueryResult with
    | inl e, _, _, _ | _, inl e, _, _ | _, _, inl e, _ | _, _, _, inl e => raise e
    | inr _, inr _, inr r, inr _ => mret r
    end.

(** ** Statements of a bulk load *)

Definition qIdent (s : jstr) : jstr := 34 :: (s ≫= (fun x => if x =? 34 then [34; 34] else [x])) ++ [34].
(** table.split('.').map(qIdent).join('.') *)
Definition qualified (table : jstr) : jstr := join [46] (qIdent <$> split 46 table []).
Definition comma_list (l : list jstr) : jstr := join [44] l.
(** A column record: names in key order with their type aliases. *)
Definition Columns : Type := list (jstr * jstr).
Definition placeholder (i : nat) : jstr := 36 :: show_Z (Z.of_nat i + 1).
Definition bulkCasts (cols : Columns) : res (list jstr * list Z) :=
  os ← mapM (fun c => paramTypeOid (PText (c.2 ++ js "[]"))) cols;
  Ok (imap (fun i c => placeholder i ++ js "::" ++ toLowerCase c.2 ++ js "[]") cols, os).
Definition returning_clause (r : option jstr) : jstr := match r with None | Some [] => [] | Some t => js " returning " ++ t end.
Definition insert_sql (table : jstr) (names casts : list jstr) (returning : option jstr) : jstr :=
  js "insert into " ++ qualified table ++ js " (" ++ comma_list (qIdent <$> names) ++ js ") select * from unnest("
  ++ comma_list casts ++ js ")" ++ returning_clause returning.
Definition index_of (c : jstr) (names : list jstr) : Z :=
  match list_find (eq c) names with Some (i, _) => Z.of_nat i | None => -1 end.
Definition update_sql (table : jstr) (names by_ casts : list jstr) (returning : option jstr) : jstr :=
  let pos c := js "_c" ++ show_Z (index_of c names) in
  let set_ := List.filter (fun n => negb (bool_decide (n ∈ by_))) names in
  js "update " ++ qualified table ++ js " _t set " ++ join (js ", ") ((fun c => qIdent c ++ js " = _u." ++ pos c) <$> set_)
  ++ js " from unnest(" ++ comma_list casts ++ js ") as _u(" ++ comma_list (pos <$> names) ++ js ")"
  ++ js " where " ++ join (js " and ") ((fun k => js "_t." ++ qIdent k ++ js " = _u." ++ pos k) <$> by_) ++ returning_clause returning.

(** One array per column of the rows [start, end). *)
Definition slice (l : list value) (start stop : nat) : list value := take (stop - start) (drop start l).
Definition pivotRows (names : list jstr) (rws : list value) (start stop : nat) : list value :=
  (fun c => VArr ((fun row => cell row names c) <$> slice rws start stop)) <$> seq 0 (length names).

(** The tuples of the VALUES form, with the parameters collected so far. *)
Definition values_cell (acc : list value * list jstr) (v : value) : list value * list jstr :=
  match v with
  | VUndef => (acc.1, acc.2 ++ [js "DEFAULT"])
  | _ => (acc.1 ++ [v], acc.2 ++ [placeholder (length acc.1)])
  end.
Definition values_row (names : list jstr) (acc : list value * list jstr) (row : value) : list value * list jstr :=
  let '(ps, cells) := foldl values_cell (acc.1, []) ((fun c => cell row names c) <$> seq 0 (length names)) in
  (ps, acc.2 ++ [40 :: comma_list cells ++ [41]]).
Definition values_sql (table : jstr) (names tuples : list jstr) (returning : option jstr) : jstr :=
  js "insert into " ++ qualified table ++ js " (" ++ comma_list (qIdent <$> names) ++ js ") values "
  ++ comma_list tuples ++ returning_clause returning.

(** ** Chunks *)

Record BulkOptions := mkBulkOptions {
  o_returning : option jstr; o_name : option jstr; o_chunk : option Z; o_atomic : option bool; o_progress : bool }.

(** Bytes that a row is estimated at, by the first one. *)
Definition cell_size (v : value) : Z :=
  match v with VStr s => Z.of_nat (length s) + 4 | VBuf b => Z.of_nat (length b) + 4 | _ => 12 end.
Definition defaultChunk (names : list jstr) (rws : list value) : Z :=
  match rws with
  | [] => 64
  | row :: _ =>
    let b := foldl (fun b c => b + cell_size (cell row names c)) 24 (seq 0 (length names)) in
    Z.max 16 (Z.min 64 (32768 / b))
  end.

(** The bounds of the chunks: for (let i = 0; i < n; i += chunk), each ending at min(i + chunk, n).
    [n] rounds are enough since a chunk has at least one row. *)
Fixpoint ranges (fuel i chunk n : nat) : list (nat * nat) :=
  match fuel with
  | O => []
  | S f => if (i <? n)%nat then (i, Nat.min (i + chunk) n) :: ranges f (i + chunk) chunk n else []
  end.
Definition chunks (chunk n : nat) : list (nat * nat) := ranges n 0 chunk n.

(** onProgress, when it is given, after [n] more rows were confirmed. *)
Definition last_progress (c : Client) : Progress := default (mkProgress 0 0 0 0) (last (reports c)).
Definition report (on : bool) (n affected nChunks : Z) : proc unit :=
  if on then
    p ← client last_progress;
    update (fun c => set_reports (reports c ++ [mkProgress (p_rows p + n) (p_affected p + affected) (p_chunk p + 1) nChunks]) c)
  else mret tt.
Definition range_rows (r : nat * nat) : Z := Z.of_nat r.2 - Z.of_nat r.1.

Definition submit_reported (on : bool) (nChunks : Z) (rc : (nat * nat) * Command) : proc QueryResult :=
  q ← submit rc.2;
  _ ← report on (range_rows rc.1) (match rc.2 with Query _ => count q | Copy _ _ => range_rows rc.1 end) nChunks;
  mret q.

(** await Promise.all(ps): every command has been submitted and is executed, whatever the others do. *)
Fixpoint pipeline (on : bool) (nChunks : Z) (l : list ((nat * nat) * Command)) : proc (list QueryResult) :=
  match l with
  | [] => mret []
  | rc :: t =>
    r ← attempt (submit_reported on nChunks rc);
    rs ← attempt (pipeline on nChunks t);
    match r : failure + QueryResult, rs : failure + list QueryResult with
    | inl e, _ => raise e
    | _, inl e => raise e
    | inr q, inr qs => mret (q :: qs)
    end
  end.

(** One command at a time; a failure carries the rows of those before it when [mark] is set. *)
Fixpoint sequential (on mark : bool) (nChunks done : Z) (rs : list QueryResult)
    (l : list ((nat * nat) * proc Command)) : proc (list QueryResult) :=
  match l with
  | [] => mret rs
  | (r, mk) :: t =>
    a ← attempt (c ← mk; submit_reported on nChunks (r, c));
    match a : failure + QueryResult with
    | inl e => raise (if mark then mkFailure (reason e) (Some done) else e)
    | inr q => sequential on mark nChunks (done + count q) (rs ++ [q]) t
    end
  end.

Fixpoint build (l : list ((nat * nat) * proc Command)) : proc (list ((nat * nat) * Command)) :=
  match l with
  | [] => mret []
  | (r, mk) :: t => c ← mk; cs ← build t; mret ((r, c) :: cs)
  end.

(** [makeChunk] of a range; the chunk size is at least one. *)
Definition no_effect (label : jstr) : jstr :=
  label ++ js ": atomic:false inside an open transaction has no effect " ++ [8212] ++ js " chunks could not commit".
Definition runBulk (label : jstr) (names : list jstr) (rws : list value) (o : BulkOptions) (makeChunk : nat -> nat -> proc Command) : proc QueryResult :=
  let n := length rws in
  let chunk := Z.to_nat (Z.max 1 (default (defaultChunk names rws) (o_chunk o))) in
  let parts := (fun r => (r, makeChunk r.1 r.2)) <$> chunks chunk n in
  let nChunks := Z.of_nat (length parts) in
  let runAll := cs ← build parts; rs ← pipeline (o_progress o) nChunks cs; mret (mergeResults rs) in
  _ ← update (set_reports []);
  if (n <=? chunk)%nat then c ← makeChunk 0%nat n; submit_reported (o_progress o) 1 ((0%nat, n), c)
  else
    t ← open_tx;
    if bool_decide (o_atomic o = Some false) then
      if (t : bool) then reject (no_effect label)
      else rs ← sequential (o_progress o) true nChunks 0 [] parts; mret (mergeResults rs)
    else if (t : bool) then runAll else runTx None runAll.

(** ** The caches of generated statements *)

Definition nul_join (l : list jstr) : jstr := join [0] l.
Definition insert_key (table : jstr) (cols : Columns) (returning : option jstr) : jstr :=
  73 :: 0 :: table ++ 0 :: nul_join (fst <$> cols) ++ 0 :: nul_join (snd <$> cols)
  ++ match returning with None | Some [] => [] | Some t => 0 :: t end.
Definition update_key (table : jstr) (cols : Columns) (by_ : list jstr) (returning : option jstr) : jstr :=
  85 :: 0 :: table ++ 0 :: nul_join (fst <$> cols) ++ 0 :: nul_join (snd <$> cols) ++ 0 :: nul_join by_
  ++ match returning with None | Some [] => [] | Some t => 0 :: t end.
Definition map_size {A} (m : gmap jstr A) : Z := Z.of_nat (size m).
(** The entry of [key], made on first use and named by the size of the cache. *)
Definition cached_meta (key pre : jstr) (make : res (jstr * list Z)) : proc Meta :=
  known ← client (fun c => insertMeta c !! key);
  match known : option Meta with
  | Some m => mret m
  | None =>
    so ← of_res make;
    n ← client (fun c => map_size (insertMeta c));
    let m := mkMeta (so : jstr * list Z).1 so.2 (pre ++ show_Z n) in
    _ ← update (fun c => set_insertMeta (<[key := m]> (insertMeta c)) c);
    mret m
  end.
Definition values_name (s : jstr) : proc jstr :=
  known ← client (fun c => valuesMeta c !! s);
  match known : option jstr with
  | Some n => mret n
  | None =>
    k ← client (fun c => map_size (valuesMeta c));
    let n := js "_iv" ++ show_Z k in
    _ ← update (fun c => set_valuesMeta (<[s := n]> (valuesMeta c)) c);
    mret n
  end.

(** ** bulkInsert, bulkUpdate, copyMany *)

Definition unnest_chunk (names : list jstr) (rws : list value) (o : BulkOptions) (m : Meta) (start stop : nat) : proc Command :=
  mret (Query (mkStatement (m_sql m) (pivotRows names rws start stop) (Some (default (m_name m) (o_name o))) (Some (m_oids m)))).
Definition values_statement (table : jstr) (names : list jstr) (rws : list value) (returning : option jstr) (start stop : nat) : jstr * list value :=
  let '(ps, tuples) := foldl (values_row names) ([], []) (slice rws start stop) in
  (values_sql table names tuples returning, ps).
Definition values_chunk (table : jstr) (names : list jstr) (rws : list value) (returning : option jstr) (start stop : nat) : proc Command :=
  let '(s, ps) := values_statement table names rws returning start stop in
  n ← values_name s;
  mret (Query (mkStatement s ps (Some n) None)).
Definition bulkInsert (table : jstr) (cols : Columns) (rws : list value) (defaults : bool) (o : BulkOptions) : proc QueryResult :=
  let names := fst <$> cols in
  if (length names =? 0)%nat then reject (js "bulkInsert: columns must not be empty")
  else if defaults then runBulk (js "bulkInsert") names rws o (values_chunk table names rws (o_returning o))
  else
    m ← cached_meta (insert_key table cols (o_returning o)) (js "_im")
          (co ← bulkCasts cols; let '(casts, os) := (co : list jstr * list Z) in Ok (insert_sql table names casts (o_returning o), os));
    runBulk (js "bulkInsert") names rws o (unnest_chunk names rws o m).

Definition bulkUpdate (table : jstr) (cols : Columns) (rws : list value) (by_ : list jstr) (o : BulkOptions) : proc QueryResult :=
  let names := fst <$> cols in
  if (length names =? 0)%nat then reject (js "bulkUpdate: columns must not be empty")
  else if (length by_ =? 0)%nat then reject (js "bulkUpdate: `by` must name at least one key column")
  else match List.find (fun k => negb (bool_decide (k ∈ names))) by_ with Some k => reject (js "bulkUpdate: `by` column " ++ (34 :: k ++ [34]) ++ js " is not in columns") | None =>
  if forallb (fun n => bool_decide (n ∈ by_)) names then reject (js "bulkUpdate: no SET columns (every column is in `by`)")
  else
    m ← cached_meta (update_key table cols by_ (o_returning o)) (js "_um")
          (co ← bulkCasts cols; let '(casts, os) := (co : list jstr * list Z) in Ok (update_sql table names by_ casts (o_returning o), os));
    runBulk (js "bulkUpdate") names rws o (unnest_chunk names rws o m)
  end.

Inductive CopyFormat := CopyBinary | CopyText.
Definition copy_sql (table : jstr) (names : list jstr) (f : CopyFormat) : jstr :=
  js "copy " ++ qualified table ++ js " (" ++ comma_list (qIdent <$> names) ++ js ") from stdin"
  ++ match f with CopyBinary => js " (format binary)" | CopyText => [] end.
Definition copyMany `{Alloc} (chunkBytes : Z) (table : jstr) (cols : Columns) (rws : list value) (format : option CopyFormat) (o : BulkOptions) : proc QueryResult :=
  let names := fst <$> cols in
  let n := length rws in
  if (length names =? 0)%nat then reject (js "copyMany: columns must not be empty")
  else
    os ← of_res (mapM (fun c => paramTypeOid (PText c.2)) cols);
    let f := default (if copyBinarySupported os then CopyBinary else CopyText) format in
    let enc part := match f with CopyBinary => copyRowsBinary os names part chunkBytes | CopyText => copyRowsText names part chunkBytes end in
    let one start stop := Copy (copy_sql table names f) (enc (slice rws start stop)) in
    let chunk := Z.to_nat (default 0 (o_chunk o)) in
    let parts := (fun r => (r, mret (one r.1 r.2))) <$> chunks chunk n in
    let runSeq mark := rs ← sequential (o_progress o) mark (Z.of_nat (length parts)) 0 [] parts; mret (mergeResults rs) in
    _ ← update (set_reports []);
    if (chunk =? 0)%nat || (n <=? chunk)%nat then submit_reported (o_progress o) 1 ((0%nat, n), one 0%nat n)
    else
      t ← open_tx;
      if bool_decide (o_atomic o = Some false) then
        if (t : bool) then reject (no_effect (js "copyMany"))
        else runSeq true
      else if (t : bool) then runSeq false else runTx None (runSeq false).
End Programs.
