(* ===== verification/BulkProofs.v ===== *)
(** * Transactions and bulk loads are all or nothing

    [documented] is what PostgreSQL documents of transactions, as one relation between what a session shows
    before and after a command; [Transactional] is a session that keeps to it. Against any such server:
    begin() commits what its callback did or nothing, a nested begin() takes back to its savepoint, and a
    bulk load writes every row once, all or (with atomic: false) up to the chunk that failed. *)

From S2P Require Import Prelude Utf8 Text Buf Num Dates Value Json JsonBig Protocol Faults Encode Decode Spec Bulk.

(** ** Every row is in one chunk *)

Lemma ranges_cover rws chunk fuel i : (1 <= chunk)%nat -> (length rws - i <= fuel)%nat ->
  concat ((fun r => slice rws r.1 r.2) <$> ranges fuel i chunk (length rws)) = drop i rws.
Proof.
  intros Hc. revert i. induction fuel as [|f IH]; intros i Hf; simpl.
  - by rewrite drop_ge by lia.
  - destruct (Nat.ltb_spec i (length rws)); [|by rewrite drop_ge by lia].
    csimpl. rewrite IH by lia. unfold slice. destruct (Nat.leb_spec (length rws) (i + chunk)).
    + rewrite Nat.min_r by done. rewrite (drop_ge rws (i + chunk)), app_nil_r by done. apply take_ge. rewrite length_drop. lia.
    + rewrite Nat.min_l by lia. replace (i + chunk - i)%nat with chunk by lia. rewrite <- drop_drop. apply take_drop.
Qed.
Lemma chunks_cover rws chunk : (1 <= chunk)%nat ->
  concat ((fun r => slice rws r.1 r.2) <$> chunks chunk (length rws)) = rws.
Proof. intros Hc. unfold chunks. by rewrite ranges_cover by lia. Qed.

(** The rows of a statement, as the server reads them: element i of each array, or the tuples of the text. *)
Definition cells (names : list jstr) (row : value) : list value := (fun c => cell row names c) <$> seq 0 (length names).
Definition element (i : nat) (v : value) : value := match v with VArr l => nth i l VUndef | _ => VUndef end.
Definition unnest (ps : list value) : list (list value) :=
  match ps with VArr l :: _ => (fun i => element i <$> ps) <$> seq 0 (length l) | _ => [] end.

Lemma unnest_pivot names rws i j : names <> [] ->
  unnest (pivotRows names rws i j) = cells names <$> slice rws i j.
Proof.
  intros Hn. unfold pivotRows, unnest. destruct names as [|n0 names]; [done|]. cbn [length seq fmap list_fmap].
  rewrite length_fmap. apply list_eq. intros k. rewrite !list_lookup_fmap.
  destruct (decide (k < length (slice rws i j))%nat) as [Hk|Hk].
  - rewrite lookup_seq_lt by done. destruct (lookup_lt_is_Some_2 _ _ Hk) as [row Er]. rewrite Er. cbn [fmap option_fmap option_map].
    f_equal. unfold cells. rewrite <- list_fmap_compose. cbn [length seq fmap list_fmap]. f_equal.
    + simpl. by rewrite (nth_lookup_Some _ k VUndef (cell row (n0 :: names) 0)) by (by rewrite list_lookup_fmap, Er).
    + apply list_fmap_ext. intros m c _. simpl. by rewrite (nth_lookup_Some _ k VUndef (cell row (n0 :: names) c)) by (by rewrite list_lookup_fmap, Er).
  - rewrite lookup_ge_None_2 by (rewrite length_seq; lia). by rewrite lookup_ge_None_2 by lia.
Qed.

(** ** The transaction rules *)

Section Rules.
Context {D E : Type} (apply : Command -> D -> E + (D * QueryResult)).

(** The data outside a transaction; inside one, what is committed, what the transaction sees, and its
    savepoints; a failed transaction; a session that is lost, with what stays committed. *)
Inductive View :=
| Idle (d : D)
| Open (base work : D) (saved : list (jstr * D))
| Broken (base : D) (saved : list (jstr * D))
| Lost (d : D).
Definition committed (v : View) : D := match v with Idle d | Lost d => d | Open b _ _ | Broken b _ => b end.

(** What a command does to the transaction; everything that is not written by the driver for that purpose
    and is known to leave transactions alone is data. *)
Inductive Control := CBegin | CCommit | CRollback | CSavepoint (n : jstr) | CRelease (n : jstr) | CRollbackTo (n : jstr) | CData | COther.
Definition after (p s : jstr) : option jstr := if prefix_of p s then Some (drop (length p) s) else None.
Definition tx_control (s : jstr) : option Control :=
  if bool_decide (s = js "commit") then Some CCommit
  else if bool_decide (s = js "rollback") then Some CRollback
  else match after (js "savepoint ") s, after (js "release savepoint ") s, after (js "rollback to savepoint ") s with
       | Some n, _, _ => Some (CSavepoint n)
       | _, Some n, _ => Some (CRelease n)
       | _, _, Some n => Some (CRollbackTo n)
       | _, _, _ => if prefix_of (js "begin") s then Some CBegin else None
       end.
(** INSERT, UPDATE and COPY never start or end a transaction. *)
Definition loads (c : Command) : bool :=
  match c with
  | Query s => prefix_of (js "insert into ") (sql s) || prefix_of (js "update ") (sql s)
  | Copy s _ => prefix_of (js "copy ") s
  end.
Definition control (plain : Command -> bool) (c : Command) : Control :=
  match tx_control (command_sql c) with
  | Some k => k
  | None => if loads c || plain c then CData else COther
  end.

Inductive answered (k : Control) (c : Command) : View -> View -> E + QueryResult -> Prop :=
| a_begin d q : k = CBegin -> answered k c (Idle d) (Open d d []) (inr q)
| a_begin_refused d e : k = CBegin -> answered k c (Idle d) (Idle d) (inl e)
| a_data d d' q : k = CData -> apply c d = inr (d', q) -> answered k c (Idle d) (Idle d') (inr q)
| a_data_error d e : k = CData -> apply c d = inl e -> answered k c (Idle d) (Idle d) (inl e)
| a_data_lost d d' q e : k = CData -> apply c d = inr (d', q) -> answered k c (Idle d) (Lost d') (inl e)
| a_work b w s w' q : k = CData -> apply c w = inr (w', q) -> answered k c (Open b w s) (Open b w' s) (inr q)
| a_work_error b w s e : k = CData -> apply c w = inl e -> answered k c (Open b w s) (Broken b s) (inl e)
| a_broken b s e : k <> CCommit -> k <> CRollback -> (forall n, k <> CRollbackTo n) ->
    answered k c (Broken b s) (Broken b s) (inl e)
| a_commit b w s q : k = CCommit -> answered k c (Open b w s) (Idle w) (inr q)
| a_commit_refused b w s e : k = CCommit -> answered k c (Open b w s) (Idle b) (inl e)
| a_commit_broken b s q : k = CCommit -> answered k c (Broken b s) (Idle b) (inr q)
| a_commit_lost b w s e : k = CCommit -> answered k c (Open b w s) (Lost w) (inl e)
| a_rollback v q : k = CRollback -> (forall d, v <> Lost d) -> answered k c v (Idle (committed v)) (inr q)
| a_savepoint b w s n q : k = CSavepoint n -> answered k c (Open b w s) (Open b w ((n, w) :: s)) (inr q)
| a_release b w s n x q : k = CRelease n -> answered k c (Open b w ((n, x) :: s)) (Open b w s) (inr q)
| a_back b w s n x q : k = CRollbackTo n -> answered k c (Open b w ((n, x) :: s)) (Open b x ((n, x) :: s)) (inr q)
| a_back_broken b s n x q : k = CRollbackTo n -> answered k c (Broken b ((n, x) :: s)) (Open b x ((n, x) :: s)) (inr q)
| a_lost v e : answered k c v (Lost (committed v)) (inl e).

(** The commands whose effect the rules tell: not a BEGIN inside a transaction, a savepoint outside one or
    the name of a savepoint that is not the last. *)
Definition ruled (k : Control) (v : View) : bool :=
  match k, v with
  | COther, _ => false
  | CBegin, Open _ _ _ => false
  | (CCommit | CSavepoint _ | CRelease _ | CRollbackTo _), Idle _ => false
  | CRelease n, Open _ _ s | CRollbackTo n, (Open _ _ s | Broken _ s) => bool_decide (fst <$> head s = Some n)
  | _, _ => true
  end.
End Rules.
Arguments Idle {D} d. Arguments Open {D} base work saved. Arguments Broken {D} base saved. Arguments Lost {D} d.

(** A server session that keeps the rules; [view] and [plain] are free. *)
Class Transactional (T E D : Type) `{Session T E} := {
  view : T -> View (D := D);
  apply : Command -> D -> E + (D * QueryResult);
  plain : Command -> bool;
  in_tx : forall t, inTransaction t = match view t with Open _ _ _ | Broken _ _ => true | Idle _ => false | Lost _ => inTransaction t end;
  exec_answered : forall c t, ruled (control plain c) (view t) = true -> answered apply (control plain c) c (view t) (view (exec c t).1) (exec c t).2;
}.

Section Scopes.
Context {T E D : Type} `{Transactional T E D}.
Implicit Types (w : World (T := T)) (v : View (D := D)) (c : Command).
Abbreviation proc := (Bulk.proc (T := T) (E := E)).

Definition vw w : View (D := D) := view w.1.
Definition data c : Prop := control plain c = CData.

(** *** One command *)

Lemma submit_answered c w v : vw w = v -> ruled (control plain c) v = true ->
  exists r, answered apply (control plain c) c v (vw (submit c w).1) r /\
  (submit c w).2 = match r with inr q => inr q | inl e => inl (mkFailure (FromQuery e) None) end /\ (submit c w).1.2 = w.2.
Proof.
  intros <- R. pose proof (exec_answered c w.1 R) as A. unfold submit, vw.
  destruct (exec c w.1) as [t r] eqn:Ex. exists r. by repeat split.
Qed.

(** A computation that leaves the level of the transaction it is run in as it found it. *)
Definition within v v' : Prop :=
  match v with
  | Open b _ s => (exists x, v' = Open b x s) \/ v' = Broken b s \/ v' = Lost b
  | Broken b s => v' = Broken b s \/ v' = Lost b
  | Lost d => v' = Lost d
  | Idle _ => True
  end.
Definition scoped {A} (p : proc A) : Prop := forall w, within (vw w) (vw (p w).1).

Lemma within_refl v : within v v.
Proof. destruct v; simpl; eauto. Qed.
Lemma within_trans v1 v2 v3 : within v1 v2 -> within v2 v3 -> within v1 v3.
Proof. destruct v1 as [d|b x s|b s|d]; simpl; [done|intros [[y ->]|[->| ->]]|intros [->| ->]|intros ->]; simpl; naive_solver. Qed.

Lemma scoped_same {A} (p : proc A) : (forall w, (p w).1.1 = w.1) -> scoped p.
Proof. intros Hp w. unfold vw. rewrite Hp. apply within_refl. Qed.
Lemma scoped_bind {A B} (p : proc A) (f : A -> proc B) : scoped p -> (forall a, scoped (f a)) -> scoped (p ≫= f).
Proof.
  intros Hp Hf w. unfold mbind, proc_bind. specialize (Hp w). destruct (p w) as [w1 [e|a]]; [done|].
  by eapply within_trans; [exact Hp|apply Hf].
Qed.
Lemma scoped_attempt {A} (p : proc A) : scoped p -> scoped (attempt p).
Proof. intros Hp w. specialize (Hp w). unfold attempt. by destruct (p w). Qed.
Lemma scoped_submit c : data c -> scoped (submit c).
Proof.
  intros Hc w. destruct (vw w) as [d|b x s|b s|d] eqn:Ew; [done|..];
    (destruct (submit_answered c w _ Ew) as (r & A & _); [by rewrite Hc|]; rewrite Hc in A;
     inversion A; simplify_eq; try (exfalso; match goal with N : forall _, CRollbackTo _ <> _ |- _ => by eapply N end);
  cbn [fst snd committed] in *; simpl; eauto).
Qed.

(** *** What the texts of the driver ask for *)

Lemma beginClause_text o : exists t, beginClause o = js "begin" ++ t.
Proof.
  unfold beginClause. destruct o as [[t|iso ro de]|]; [..|by exists []].
  - destruct (trim _); [by exists []|by eexists (32 :: _)].
  - destruct (_ ++ _ ++ _); [by exists []|by eexists (32 :: _)].
Qed.
Lemma begin_control o : control plain (text (beginClause o)) = CBegin.
Proof. destruct (beginClause_text o) as [t E0]. unfold control, command_sql, text. cbn [sql]. by rewrite E0. Qed.
Lemma savepoint_control n : control plain (text (js "savepoint " ++ n)) = CSavepoint n.
Proof. done. Qed.
Lemma release_control n : control plain (text (js "release savepoint " ++ n)) = CRelease n.
Proof. done. Qed.
Lemma back_control n : control plain (text (js "rollback to savepoint " ++ n)) = CRollbackTo n.
Proof. done. Qed.
Lemma commit_control : control plain (text (js "commit")) = CCommit.
Proof. done. Qed.
Lemma rollback_control : control plain (text (js "rollback")) = CRollback.
Proof. done. Qed.

(** *** begin() *)

Lemma keep_or_undo_eq {A} (fn : proc A) keep undo w :
  keep_or_undo fn keep undo w =
  match fn w with
  | (w1, inl e) => ((undo w1).1, inl e)
  | (w1, inr a) => match keep w1 with (w2, inr _) => (w2, inr a) | (w2, inl e) => ((undo w2).1, inl e) end
  end.
Proof.
  unfold keep_or_undo, attempt, raise, mbind, proc_bind, mret, proc_ret. destruct (fn w) as [w1 [e|a]].
  - by destruct (undo w1) as [w2 [?|?]].
  - destruct (keep w1) as [w2 [e|q]]; [|done]. by destruct (undo w2) as [w3 [?|?]].
Qed.

(** The command [c] from a known view: its possible answers. *)
Ltac answer c w E0 :=
  let r := fresh "r" in let A := fresh "A" in let R := fresh "R" in let C := fresh "C" in
  destruct (submit_answered c w _ E0) as (r & A & R & C);
  [by rewrite ?begin_control, ?savepoint_control, ?release_control, ?back_control; simpl; rewrite ?bool_decide_eq_true_2|];
  rewrite ?begin_control, ?savepoint_control, ?release_control, ?back_control, ?commit_control, ?rollback_control in A;
  destruct (submit c w) as [? ?]; cbn [fst snd] in A, R, C |- *; inversion A; simplify_eq; try (exfalso; match goal with N : forall _, CRollbackTo _ <> _ |- _ => by eapply N end);
  cbn [fst snd committed] in *;
  repeat match goal with V : _ = vw ?w |- _ => is_var w; symmetry in V end.
(** Where a transaction stands after its callback, and what COMMIT made of it. *)
Definition settled_as (d : D) v' (v : View (D := D)) : Prop :=
  match v' with Open _ x _ => v = Idle x | _ => v = Idle d end.
Definition undone (d : D) v' (v : View (D := D)) : Prop :=
  v = Idle d \/ v = Lost d \/ exists x, v' = Open d x [] /\ v = Lost x.

Lemma rollback_from w v : vw w = v ->
  vw (submit (text (js "rollback")) w).1 = Lost (committed v) \/
  (forall d, v <> Lost d) /\ vw (submit (text (js "rollback")) w).1 = Idle (committed v).
Proof. intros E0. destruct v; answer (text (js "rollback")) w E0; eauto. Qed.

Lemma commit_phase {A} (fn : proc A) w d x : scoped fn -> vw w = Open d x [] ->
  let '(w', r) := keep_or_undo fn (submit (text (js "commit"))) (submit (text (js "rollback"))) w in
  match r with
  | inr b => (fn w).2 = inr b /\ settled_as d (vw (fn w).1) (vw w')
  | inl e => undone d (vw (fn w).1) (vw w')
  end.
Proof.
  intros Hs Ew. rewrite keep_or_undo_eq. specialize (Hs w). rewrite Ew in Hs. simpl in Hs. unfold undone, settled_as.
  destruct (fn w) as [w1 [e|a]]; cbn [fst snd] in *.
  - destruct Hs as [[x' E1]|[E1|E1]]; rewrite E1; destruct (rollback_from w1 _ E1) as [->|[? ->]]; eauto.
  - destruct Hs as [[x' E1]|[E1|E1]]; rewrite E1; answer (text (js "commit")) w1 E1; try done;
      match goal with V : vw ?w0 = _ |- context [submit (text (js "rollback")) ?w0] =>
        destruct (rollback_from w0 _ V) as [->|[? ->]] end; simpl; naive_solver.
Qed.

(** The callback is run in a transaction of its own. *)
Lemma runTx_top {A} o (fn : proc A) w d : scoped fn -> vw w = Idle d ->
  let '(w', r) := runTx o fn w in
  (exists e, r = inl e /\ (vw w' = Idle d \/ vw w' = Lost d)) \/
  exists w1, vw w1 = Open d d [] /\ w1.2 = w.2 /\
  match r with
  | inr b => (fn w1).2 = inr b /\ settled_as d (vw (fn w1).1) (vw w')
  | inl e => undone d (vw (fn w1).1) (vw w')
  end.
Proof.
  intros Hs Ew. unfold runTx, open_tx. unfold mbind at 1, proc_bind at 1.
  rewrite in_tx. unfold vw in Ew. rewrite Ew. fold (vw w) in Ew.
  unfold mbind, proc_bind. answer (text (beginClause o)) w Ew.
  - match goal with V : vw ?w0 = Open _ _ _ |- _ => pose proof (commit_phase fn w0 d d Hs V) as P end.
    destruct (keep_or_undo _ _ _ w0) as [w' r]. right. by exists w0.
  - left. eauto.
  - left. eauto.
Qed.

(** A nested callback: its savepoint is the last one when it is done. *)
Lemma nested_undo w b x n s v : (exists x', v = Open b x' ((n, x) :: s)) \/ v = Broken b ((n, x) :: s) \/ v = Lost b -> vw w = v ->
  let w' := ((_ ← submit (text (js "rollback to savepoint " ++ n)); submit (text (js "release savepoint " ++ n))) w).1 in
  vw w' = Open b x s \/ vw w' = Lost b.
Proof.
  intros Hv Ew. unfold mbind, proc_bind. destruct Hv as [[x' ->]|[->| ->]]; answer (text (js "rollback to savepoint " ++ n)) w Ew; eauto;
    match goal with V : vw ?w0 = _ |- context [submit _ ?w0] => answer (text (js "release savepoint " ++ n)) w0 V end; eauto.
Qed.

Lemma nested_phase {A} (fn : proc A) w b x n s : scoped fn -> vw w = Open b x ((n, x) :: s) ->
  let '(w', r) := keep_or_undo fn (submit (text (js "release savepoint " ++ n)))
      (_ ← submit (text (js "rollback to savepoint " ++ n)); submit (text (js "release savepoint " ++ n))) w in
  match r with
  | inr c => (fn w).2 = inr c /\ exists x', vw (fn w).1 = Open b x' ((n, x) :: s) /\ vw w' = Open b x' s
  | inl e => vw w' = Open b x s \/ vw w' = Lost b
  end.
Proof.
  intros Hs Ew. rewrite keep_or_undo_eq. specialize (Hs w). rewrite Ew in Hs. simpl in Hs.
  destruct (fn w) as [w1 [e|a]]; cbn [fst snd] in *.
  - destruct Hs as [[x' E1]|[E1|E1]]; (eapply nested_undo; [|exact E1]); eauto.
  - destruct Hs as [[x' E1]|[E1|E1]]; answer (text (js "release savepoint " ++ n)) w1 E1; eauto;
      match goal with V : vw ?w0 = _ |- _ => eapply nested_undo; [|exact V] end; eauto.
Qed.

Lemma runTx_nested {A} o (fn : proc A) w b x s : scoped fn -> vw w = Open b x s ->
  let '(w', r) := runTx o fn w in
  match r with
  | inr c => exists w1 n x', vw w1 = Open b x ((n, x) :: s) /\ (fn w1).2 = inr c /\
             vw (fn w1).1 = Open b x' ((n, x) :: s) /\ vw w' = Open b x' s
  | inl e => vw w' = Open b x s \/ vw w' = Lost b
  end.
Proof.
  intros Hs Ew. unfold runTx, open_tx. unfold mbind at 1, proc_bind at 1.
  rewrite in_tx. unfold vw in Ew. rewrite Ew. fold (vw w) in Ew. unfold update, client.
  set (w2 := (w.1, set_spCounter (spCounter w.2 + 1) w.2)). assert (vw w2 = Open b x s) as E2 by done.
  unfold mbind at 1, proc_bind at 1. fold w2. unfold mbind at 1, proc_bind at 1. set (n := savepoint_name (spCounter w2.2)).
  clearbody w2. clearbody n. unfold mbind at 1, proc_bind at 1. answer (text (js "savepoint " ++ n)) w2 E2; [|eauto].
  match goal with V : vw ?u = Open _ _ (_ :: _) |- _ => pose proof (nested_phase fn u b x _ s Hs V) as P; destruct (keep_or_undo _ _ _ u) as [w' [e|c]]; [done|]; destruct P as (? & ? & ? & ?); eauto 8 end.
Qed.

(** A callback may begin transactions itself. *)
Lemma scoped_update f : scoped (update f). Proof. by apply scoped_same. Qed.
Lemma scoped_client {A} (f : Client -> A) : scoped (client f). Proof. by apply scoped_same. Qed.
Lemma scoped_open_tx : scoped open_tx. Proof. by apply scoped_same. Qed.
Lemma scoped_ret {A} (a : A) : scoped (mret a : proc A). Proof. by apply scoped_same. Qed.
Lemma scoped_raise {A} e : scoped (raise e : proc A). Proof. by apply scoped_same. Qed.

Lemma scoped_runTx {A} o (fn : proc A) : scoped fn -> scoped (runTx o fn).
Proof.
  intros Hs w. destruct (vw w) as [d|b x s|b s|d] eqn:Ew; [done|..].
  - pose proof (runTx_nested o fn w b x s Hs Ew) as P. destruct (runTx o fn w) as [w' [e|a]]; simpl in *; [naive_solver|].
    destruct P as (_ & _ & x' & _ & _ & _ & ->). eauto.
  - unfold runTx, open_tx. unfold mbind at 1, proc_bind at 1. rewrite in_tx. unfold vw in Ew. rewrite Ew.
    unfold mbind, proc_bind, update, client. match goal with |- context [submit ?c ?u] => assert (vw u = Broken b s) as E2 by done;
      answer c u E2 end; simpl; eauto.
  - unfold runTx, open_tx. unfold mbind at 1, proc_bind at 1. unfold mbind, proc_bind, update, client.
    destruct (inTransaction w.1); (match goal with |- context [submit ?c ?u] => assert (vw u = Lost d) as E2 by done; answer c u E2 end); done.
Qed.

(** *** Many commands *)

Fixpoint applies (cs : list Command) (d : D) : E + (D * list QueryResult) :=
  match cs with
  | [] => inr (d, [])
  | c :: t => match apply c d with
              | inl e => inl e
              | inr (d', q) => match applies t d' with inl e => inl e | inr (d'', qs) => inr (d'', q :: qs) end
              end
  end.
Definition from_query (e : E) : failure := mkFailure (FromQuery e) None.

Lemma report_eq on n a k w : exists cl, (report on n a k : proc unit) w = ((w.1, cl), inr tt).
Proof. unfold report. destruct on; [by eexists|]. exists w.2. by destruct w. Qed.
Lemma submit_reported_eq on n rc w : exists cl, submit_reported on n rc w =
  match submit rc.2 w with (w', inr q) => ((w'.1, cl), inr q) | (w', inl e) => (w', inl e) end.
Proof.
  unfold submit_reported. unfold mbind at 1, proc_bind at 1. destruct (submit rc.2 w) as [w' [e|q]]; [by exists w.2|].
  match goal with |- context [report ?a ?b ?c ?d] => destruct (report_eq a b c d w') as [cl Er] end.
  exists cl. unfold mbind, proc_bind. by rewrite Er.
Qed.
Lemma submit_reported_cause on n rc w : match (submit_reported on n rc w).2 with inl f => committedRows f = None | inr _ => True end.
Proof.
  destruct (submit_reported_eq on n rc w) as [cl ->]. unfold submit. by destruct (exec rc.2 w.1) as [t [e|q]].
Qed.
Lemma scoped_submit_reported on n rc : data rc.2 -> scoped (submit_reported on n rc).
Proof.
  intros Hc w. pose proof (scoped_submit rc.2 Hc w) as S. destruct (submit_reported_eq on n rc w) as [cl ->].
  by destruct (submit rc.2 w) as [w' [e|q]].
Qed.
Lemma scoped_pipeline on n l : Forall (fun rc => data rc.2) l -> scoped (pipeline on n l).
Proof.
  induction 1 as [|rc l Hc _ IH]; [apply scoped_ret|]. simpl.
  apply scoped_bind; [by apply scoped_attempt, scoped_submit_reported|]. intros r.
  apply scoped_bind; [by apply scoped_attempt|]. intros rs. destruct r, rs; (apply scoped_raise || apply scoped_ret).
Qed.
Lemma pipeline_cons on n rc l w : pipeline on n (rc :: l) w =
  let '(w1, r) := submit_reported on n rc w in
  let '(w2, rs) := pipeline on n l w1 in
  (w2, match r, rs with inl e, _ => inl e | _, inl e => inl e | inr q, inr qs => inr (q :: qs) end).
Proof.
  simpl. unfold mbind, proc_bind, attempt, raise, mret, proc_ret. destruct (submit_reported on n rc w) as [w1 r].
  destruct (pipeline on n l w1) as [w2 rs]. by destruct r, rs.
Qed.

Lemma pipeline_open on n l w b x s : Forall (fun rc => data rc.2) l -> vw w = Open b x s ->
  let '(w', r) := pipeline on n l w in
  match r with
  | inr qs => exists x', applies (snd <$> l) x = inr (x', qs) /\ vw w' = Open b x' s
  | inl f => vw w' = Lost b \/ vw w' = Broken b s /\ exists e, f = from_query e /\ applies (snd <$> l) x = inl e
  end.
Proof.
  intros Hl. revert w x. induction Hl as [|rc l Hc Hl IH]; intros w x Ew; [simpl; eauto|].
  rewrite pipeline_cons. destruct (submit_reported_eq on n rc w) as [cl ->].
  destruct (submit_answered rc.2 w _ Ew) as (r & A & R & _); [by rewrite Hc|]. rewrite Hc in A.
  destruct (submit rc.2 w) as [w1 r1]. cbn [fst snd] in *. subst r1. inversion A; simplify_eq; csimpl.
  - match goal with V : Open b ?y s = vw w1, Ea : apply _ _ = _ |- _ => symmetry in V; specialize (IH (w1.1, cl) y V); rewrite Ea end.
    destruct (pipeline on n l (w1.1, cl)) as [w2 [f|qs]].
    { destruct IH as [?|(? & e & ? & ->)]; eauto 6. }
    destruct IH as (x' & -> & ->). eauto.
  - match goal with V : Broken _ _ = vw w1, Ea : apply _ _ = _ |- _ => rewrite Ea; pose proof (scoped_pipeline on n l Hl w1) as P; rewrite <- V in P end.
    destruct (pipeline on n l w1) as [w2 rs]. simpl in P. destruct P as [->| ->]; eauto 6.
  - match goal with V : Lost _ = vw w1 |- _ => pose proof (scoped_pipeline on n l Hl w1) as P; rewrite <- V in P end.
    destruct (pipeline on n l w1) as [w2 rs]. simpl in P. eauto.
Qed.
End Scopes.

(** ** Reading the VALUES form *)

Fixpoint in_tuple (s cur : jstr) (row : list jstr) : list (list jstr) :=
  match s with
  | [] => []
  | c :: t =>
    if c =? 44 then in_tuple t [] (row ++ [cur])
    else if c =? 41 then
      (row ++ [cur]) :: match t with a :: u => match u with b :: t' => if (a =? 44) && (b =? 40) then in_tuple t' [] [] else [] | [] => [] end | [] => [] end
    else in_tuple t (cur ++ [c]) row
  end.
Definition tuples_of (s : jstr) : list (list jstr) := match s with c :: t => if c =? 40 then in_tuple t [] [] else [] | [] => [] end.
Definition value_of (ps : list value) (s : jstr) : value :=
  if bool_decide (s = js "DEFAULT") then VUndef else nth (Z.to_nat (digits_val (drop 1 s) - 1)) ps VUndef.
Definition clean (s : jstr) : Prop := Forall (fun c => c <> 44 /\ c <> 41) s.

Lemma in_tuple_cell s t cur row : clean s -> in_tuple (s ++ t) cur row = in_tuple t (cur ++ s) row.
Proof.
  intros Hs. revert cur. induction Hs as [|c s [H44 H41] _ IH]; intros cur; simpl; [by rewrite app_nil_r|].
  destruct (Z.eqb_spec c 44), (Z.eqb_spec c 41); try done. by rewrite IH, <- app_assoc.
Qed.
Lemma in_tuple_row cs t cur row : cs <> [] -> Forall clean cs ->
  in_tuple (comma_list cs ++ 41 :: t) cur row =
  (row ++ match cs with [] => [] | c :: u => (cur ++ c) :: u end)
  :: match t with a :: u => match u with b :: t' => if (a =? 44) && (b =? 40) then in_tuple t' [] [] else [] | [] => [] end | [] => [] end.
Proof.
  intros Hne Hc. revert cur row. induction Hc as [|c [|d cs] Hcl Hc IH]; intros cur row; [done|..].
  - simpl. rewrite in_tuple_cell by done. simpl. done.
  - change (comma_list (c :: d :: cs)) with (c ++ 44 :: comma_list (d :: cs)). rewrite <- app_assoc, in_tuple_cell by done.
    cbn [app in_tuple]. rewrite Z.eqb_refl, IH by done. cbn [app]. by rewrite <- app_assoc.
Qed.

Definition tuple_text (cs : list jstr) : jstr := 40 :: comma_list cs ++ [41].
Lemma tuple_text_cons cs t T rest : comma_list (tuple_text cs :: t :: T) ++ rest =
  40 :: comma_list cs ++ 41 :: 44 :: comma_list (t :: T) ++ rest.
Proof.
  change (comma_list (tuple_text cs :: t :: T)) with (tuple_text cs ++ 44 :: comma_list (t :: T)).
  generalize (comma_list (t :: T)). intros u. unfold tuple_text. cbn [app]. by rewrite <- !app_assoc.
Qed.
Lemma tuples_of_text css rest : css <> [] -> Forall (fun cs => cs <> [] /\ Forall clean cs) css ->
  (match rest with c :: _ => c <> 44 | [] => True end) ->
  tuples_of (comma_list (tuple_text <$> css) ++ rest) = css.
Proof.
  intros Hne Hc Hr. unfold tuples_of. induction Hc as [|cs [|ds css] [Hcs Hcl] Hc IH]; [done|..].
  - csimpl. rewrite <- app_assoc. cbn [app]. rewrite in_tuple_row by done. cbn [app]. destruct cs; [done|].
    destruct rest as [|a u]; [done|]. destruct (Z.eqb_spec a 44); [done|]. by destruct u.
  - rewrite !fmap_cons in *. rewrite tuple_text_cons. cbn [Z.eqb Pos.eqb]. rewrite in_tuple_row by done. rewrite Z.eqb_refl. cbn [app].
    specialize (IH ltac:(done)). destruct cs; [done|]. cbn [app]. f_equal.
    destruct (comma_list (tuple_text ds :: (tuple_text <$> css)) ++ rest) as [|b t']; [done|]. by cbn [andb] in *.
Qed.

Lemma placeholder_reads ps v more : value_of (ps ++ v :: more) (placeholder (length ps)) = v.
Proof.
  unfold value_of, placeholder. rewrite bool_decide_eq_false_2 by done. cbn [drop].
  unfold show_Z. destruct (Z.ltb_spec (Z.of_nat (length ps) + 1) 0); [lia|].
  rewrite drop_0. destruct (digits_spec (Z.of_nat (length ps) + 1)) as [-> _]; [lia|].
  replace (Z.to_nat _) with (length ps) by lia. by rewrite nth_middle.
Qed.
Lemma placeholder_clean n : clean (placeholder n).
Proof.
  constructor; [done|]. unfold show_Z. destruct (Z.ltb_spec (Z.of_nat n + 1) 0); [lia|].
  destruct (digits_spec (Z.of_nat n + 1)) as (_ & F & _); [lia|]. eapply Forall_impl; [exact F|]. simpl. lia.
Qed.

Lemma default_clean : clean (js "DEFAULT").
Proof. repeat (apply List.Forall_cons; [vm_compute; split; discriminate|]). apply List.Forall_nil. Qed.

(** Cells read back whatever parameters follow. *)
Definition texts_read (ps : list value) (ts : list jstr) (vs : list value) : Prop :=
  Forall clean ts /\ forall more, value_of (ps ++ more) <$> ts = vs.
Lemma values_cells vs ps ts : exists new texts,
  foldl values_cell (ps, ts) vs = (ps ++ new, ts ++ texts) /\ texts_read (ps ++ new) texts vs.
Proof.
  revert ps ts. induction vs as [|v vs IH]; intros ps ts; [exists [], []; by rewrite !app_nil_r|].
  cbn [foldl]. assert (v = VUndef \/ v <> VUndef) as [->|Hv] by (destruct v; auto).
  - destruct (IH ps (ts ++ [js "DEFAULT"])) as (new & texts & E & C & R). exists new, (js "DEFAULT" :: texts).
    cbn [values_cell fst snd]. rewrite E, <- app_assoc. split; [done|]. split; [constructor; [apply default_clean|done]|].
    intros more. rewrite fmap_cons, R. done.
  - destruct (IH (ps ++ [v]) (ts ++ [placeholder (length ps)])) as (new & texts & E & C & R).
    exists (v :: new), (placeholder (length ps) :: texts).
    assert (values_cell (ps, ts) v = (ps ++ [v], ts ++ [placeholder (length ps)])) as -> by (by destruct v).
    rewrite E, <- !app_assoc. split; [done|]. split; [constructor; [apply placeholder_clean|done]|].
    intros more. csimpl. f_equal.
    + rewrite <- app_assoc. by apply placeholder_reads.
    + rewrite <- (R more). by rewrite <- !app_assoc.
Qed.
Lemma values_rows names rws ps ts : names <> [] -> exists new css,
  foldl (values_row names) (ps, ts) rws = (ps ++ new, ts ++ (tuple_text <$> css)) /\
  Forall (fun cs => cs <> [] /\ Forall clean cs) css /\
  forall more, (fun cs : list jstr => value_of (ps ++ new ++ more) <$> cs) <$> css = cells names <$> rws.
Proof.
  intros Hn. revert ps ts. induction rws as [|row rws IH]; intros ps ts; [exists [], []; by rewrite !app_nil_r|].
  cbn [foldl]. unfold values_row at 2. cbn [fst snd].
  destruct (values_cells (cells names row) ps []) as (new & texts & E & C & R). unfold cells in E. rewrite E. cbn [app].
  destruct (IH (ps ++ new) (ts ++ [tuple_text texts])) as (new' & css & E' & C' & R').
  exists (new ++ new'), (texts :: css). unfold tuple_text in E' at 1. rewrite E', <- !app_assoc. split; [done|].
  split.
  - constructor; [|done]. split; [|done]. intros ->. specialize (R []). unfold cells in R. by destruct names.
  - intros more. csimpl. f_equal; [rewrite <- (R (new' ++ more)); by rewrite <- !app_assoc|].
    rewrite <- (R' more). by rewrite <- !app_assoc.
Qed.

(** What the statement of a chunk asks the server to insert. *)
Definition values_prefix (table : jstr) (names : list jstr) : jstr :=
  js "insert into " ++ qualified table ++ js " (" ++ comma_list (qIdent <$> names) ++ js ") values ".
Definition rows_sent (table : jstr) (names : list jstr) (c : Command) : list (list value) :=
  match c with
  | Query st =>
    match oids st with
    | Some _ => unnest (params st)
    | None => (fun cs : list jstr => value_of (params st) <$> cs) <$> tuples_of (drop (length (values_prefix table names)) (sql st))
    end
  | Copy _ _ => []
  end.
Lemma values_statement_sent table names rws ret i j n : names <> [] ->
  let '(s, ps) := values_statement table names rws ret i j in
  rows_sent table names (Query (mkStatement s ps n None)) = cells names <$> slice rws i j.
Proof.
  intros Hn. unfold values_statement. destruct (values_rows names (slice rws i j) [] [] Hn) as (new & css & E & C & R).
  rewrite E. cbn [app]. unfold rows_sent. cbn [oids sql params].
  replace (values_sql _ _ _ _) with (values_prefix table names ++ comma_list (tuple_text <$> css) ++ returning_clause ret)
    by (unfold values_sql, values_prefix; by rewrite <- !app_assoc).
  rewrite drop_app_length, <- (R []). rewrite app_nil_r. f_equal. destruct (decide (css = [])) as [->|Hc].
  - by destruct ret as [[|]|].
  - apply tuples_of_text; [done|done|]. by destruct ret as [[|]|].
Qed.

Section Loads.
Context {T E D : Type} `{Transactional T E D}.
Implicit Types (w : World (T := T)) (c : Command).
Abbreviation proc := (Bulk.proc (T := T) (E := E)).

(** A maker of statements touches the caches only and makes what [P] says. *)
Definition makes (mk : nat -> nat -> proc Command) (P : nat -> nat -> Command -> Prop) : Prop :=
  forall i j w, exists cl c, mk i j w = ((w.1, cl), inr c) /\ P i j c.
Definition made (P : nat -> nat -> Command -> Prop) (r : nat * nat) (c : Command) : Prop := P r.1 r.2 c.

Lemma build_made mk P rs w : makes mk P -> exists cl cs,
  build ((fun r => (r, mk r.1 r.2)) <$> rs) w = ((w.1, cl), inr (zip rs cs)) /\ Forall2 (made P) rs cs.
Proof.
  intros Hm. revert w. induction rs as [|r rs IH]; intros w; [exists w.2, []; by destruct w|].
  csimpl. destruct (Hm r.1 r.2 w) as (cl & c & Em & Pc). unfold mbind, proc_bind. rewrite Em.
  destruct (IH (w.1, cl)) as (cl' & cs & Eb & F). rewrite Eb. exists cl', (c :: cs). split; [done|by constructor].
Qed.

(** The commands of a load and what became of them: all of them, none, or (when the answer to COMMIT or to
    the only command is lost) one of the two. *)
Definition whole (cs : list Command) (d : D) (w' : World) (r : failure (E := E) + QueryResult) : Prop :=
  match r with
  | inr q => exists d' qs, applies cs d = inr (d', qs) /\ vw w' = Idle d' /\ rows q = concat (rows <$> qs)
  | inl f => vw w' = Idle d \/ vw w' = Lost d \/ exists d' qs, applies cs d = inr (d', qs) /\ vw w' = Lost d'
  end.
Definition chunked (P : nat -> nat -> Command -> Prop) (rws : list value) (cs : list Command) : Prop :=
  exists rs, Forall2 (made P) rs cs /\ concat ((fun r => slice rws r.1 r.2) <$> rs) = rws.

Lemma made_data P rs cs : (forall i j c, P i j c -> data c) -> Forall2 (made P) rs cs -> Forall (fun rc => data rc.2) (zip rs cs).
Proof. intros Hp. induction 1; simpl; constructor; [by eapply Hp|done]. Qed.

Lemma run_all_eq mk P rs on n w : makes mk P -> exists cl cs, Forall2 (made P) rs cs /\
  (cs ← build ((fun r => (r, mk r.1 r.2)) <$> rs); qs ← pipeline on n cs; mret (mergeResults qs) : proc QueryResult) w =
  let '(w', r) := pipeline on n (zip rs cs) (w.1, cl) in (w', match r with inl e => inl e | inr qs => inr (mergeResults qs) end).
Proof.
  intros Hm. destruct (build_made mk P rs w Hm) as (cl & cs & Eb & F). exists cl, cs. split; [done|].
  unfold mbind, proc_bind. rewrite Eb. destruct (pipeline on n (zip rs cs) (w.1, cl)) as [w' [e|qs]]; done.
Qed.
Lemma run_all_scoped mk P rs on n : makes mk P -> (forall i j c, P i j c -> data c) ->
  scoped (cs ← build ((fun r => (r, mk r.1 r.2)) <$> rs); qs ← pipeline on n cs; mret (mergeResults qs) : proc QueryResult).
Proof.
  intros Hm Hp w. destruct (run_all_eq mk P rs on n w Hm) as (cl & cs & F & ->).
  pose proof (scoped_pipeline on n (zip rs cs) (made_data P rs cs Hp F) (w.1, cl)) as S.
  by destruct (pipeline on n (zip rs cs) (w.1, cl)).
Qed.

Lemma one_whole on n rc w d : data rc.2 -> vw w = Idle d -> let '(w', r) := submit_reported on n rc w in whole [rc.2] d w' r.
Proof.
  intros Hc Ew. destruct (submit_reported_eq on n rc w) as [cl ->].
  destruct (submit_answered rc.2 w _ Ew) as (r & A & R & _); [by rewrite Hc|]. rewrite Hc in A.
  destruct (submit rc.2 w) as [w1 r1]. cbn [fst snd] in *. subst r1.
  inversion A; simplify_eq; simpl; repeat match goal with Ea : apply _ _ = _ |- _ => rewrite Ea end; eauto 8.
  eexists _, [q]. split; [done|]. split; [done|]. simpl. by rewrite app_nil_r.
Qed.

Lemma pipeline_whole on n rs cs w b x : Forall (fun rc => data rc.2) (zip rs cs) -> length rs = length cs -> vw w = Open b x [] ->
  let '(w', r) := pipeline on n (zip rs cs) w in
  match r with
  | inr qs => exists x', applies cs x = inr (x', qs) /\ vw w' = Open b x' []
  | inl f => vw w' = Lost b \/ vw w' = Broken b []
  end.
Proof.
  intros Hd Hl Ew. pose proof (pipeline_open on n (zip rs cs) w b x [] Hd Ew) as P. rewrite snd_zip in P by lia.
  destruct (pipeline on n (zip rs cs) w) as [w' [f|qs]]; [tauto|done].
Qed.

Lemma run_all_tx mk P rws rs on n w d : makes mk P -> (forall i j c, P i j c -> data c) ->
  concat ((fun r => slice rws r.1 r.2) <$> rs) = rws -> vw w = Idle d ->
  let '(w', r) := runTx None (cs ← build ((fun r => (r, mk r.1 r.2)) <$> rs); qs ← pipeline on n cs; mret (mergeResults qs) : proc QueryResult) w in
  exists cs, chunked P rws cs /\ whole cs d w' r.
Proof.
  intros Hm Hp Hr Ew. pose proof (runTx_top None _ w d (run_all_scoped mk P rs on n Hm Hp) Ew) as Tx.
  destruct (runTx None _ w) as [w' r]. destruct Tx as [(e & -> & V)|(w1 & E1 & _ & Tx)].
  - destruct (build_made mk P rs w Hm) as (cl & cs & _ & F). exists cs. split; [by exists rs|]. simpl. tauto.
  - destruct (run_all_eq mk P rs on n w1 Hm) as (cl & cs & F & Er). exists cs. split; [by exists rs|].
    rewrite Er in Tx. clear Er.
    pose proof (pipeline_whole on n rs cs (w1.1, cl) d d (made_data P rs cs Hp F) (Forall2_length _ _ _ F) E1) as Q.
    destruct (pipeline on n (zip rs cs) (w1.1, cl)) as [w2 [e|qs]]; cbn [fst snd] in *.
    + destruct r as [f|q]; [|by destruct Tx]. unfold undone in Tx. destruct Q as [Q|Q]; rewrite Q in Tx; simpl; naive_solver.
    + destruct Q as (x' & Ea & Q). rewrite Q in Tx. unfold undone, settled_as in Tx. destruct r as [f|q]; simpl; [naive_solver|].
      destruct Tx as [[= <-] V]. by exists x', qs.
Qed.

Lemma runBulk_atomic label names rws o mk P w d : makes mk P -> (forall i j c, P i j c -> data c) ->
  o_atomic o <> Some false -> vw w = Idle d ->
  let '(w', r) := runBulk label names rws o mk w in exists cs, chunked P rws cs /\ whole cs d w' r.
Proof.
  intros Hm Hp Ho Ew. unfold runBulk. set (chunk := Z.to_nat _).
  unfold mbind at 1, proc_bind at 1. unfold update. cbn [fst snd].
  set (w0 := (w.1, set_reports [] w.2)). assert (vw w0 = Idle d) as E0 by done. clearbody w0.
  destruct (Nat.leb_spec (length rws) chunk) as [Hle|Hlt].
  - destruct (Hm 0%nat (length rws) w0) as (cl & c & Em & Pc). unfold mbind at 1, proc_bind at 1. rewrite Em.
    pose proof (one_whole (o_progress o) 1 ((0%nat, length rws), c) (w0.1, cl) d (Hp _ _ _ Pc) E0) as W.
    destruct (submit_reported _ _ _ _) as [w' r]. exists [c]. split; [|done].
    exists [(0%nat, length rws)]. split; [by constructor|]. simpl. unfold slice. rewrite app_nil_r, Nat.sub_0_r. by apply firstn_all.
  - unfold mbind at 1, proc_bind at 1, open_tx. rewrite bool_decide_eq_false_2 by done.
    rewrite in_tx. unfold vw in E0. rewrite E0. fold (vw w0) in E0.
    eapply run_all_tx; [done|done| |done]. apply chunks_cover. lia.
Qed.

(** *** Chunks that commit one by one *)

Definition counts (qs : list QueryResult) : Z := foldl (fun s r => s + count r) 0 qs.
Lemma counts_cons q qs : counts (q :: qs) = count q + counts qs.
Proof.
  unfold counts. cbn [foldl]. generalize 0. induction qs as [|p qs IH]; intros z; simpl; [lia|].
  rewrite <- (IH (z + count p)). f_equal. lia.
Qed.

(** [cs] of the first [k] chunks are committed; of the next one nothing is known when its answer is lost. *)
Definition prefix_committed (P : nat -> nat -> Command -> Prop) (rs : list (nat * nat)) (k : nat) (cs : list Command)
    (d : D) (qs : list QueryResult) (w' : World) : Prop :=
  Forall2 (made P) (take k rs) cs /\ exists d', applies cs d = inr (d', qs) /\
  (vw w' = Idle d' \/ vw w' = Lost d' \/ exists r c d'' q, rs !! k = Some r /\ made P r c /\ apply c d' = inr (d'', q) /\ vw w' = Lost d'').

Lemma stopped_first P rs d done w' (f : failure (E := E)) mark : (0 < length rs)%nat ->
  (vw w' = Idle d \/ vw w' = Lost d \/ exists r c d'' q, rs !! 0%nat = Some r /\ made P r c /\ apply c d = inr (d'', q) /\ vw w' = Lost d'') ->
  (mark = true -> committedRows f = Some done) ->
  exists k cs new, (k < length rs)%nat /\ prefix_committed P rs k cs d new w' /\ (mark = true -> committedRows f = Some (done + counts new)).
Proof.
  intros Hl V Hf. exists 0%nat, [], []. split; [done|]. split; [|by rewrite Z.add_0_r].
  split; [constructor|]. by exists d.
Qed.
Lemma sequential_idle on mark n mk P rs : makes mk P -> (forall i j c, P i j c -> data c) -> forall w d done qs0, vw w = Idle d ->
  let '(w', r) := sequential on mark n done qs0 ((fun r => (r, mk r.1 r.2)) <$> rs) w in
  match r with
  | inr qs => exists cs d' new, Forall2 (made P) rs cs /\ qs = qs0 ++ new /\ applies cs d = inr (d', new) /\ vw w' = Idle d'
  | inl f => exists k cs new, (k < length rs)%nat /\ prefix_committed P rs k cs d new w' /\
             (mark = true -> committedRows f = Some (done + counts new))
  end.
Proof.
  intros Hm Hp. induction rs as [|r rs IH]; intros w d done qs0 Ew; [exists [], d, []; by rewrite app_nil_r|].
  csimpl. destruct (Hm r.1 r.2 w) as (cl & c & Em & Pc). unfold mbind at 1, proc_bind at 1, attempt, mbind at 1, proc_bind at 1. rewrite Em.
  pose proof (Hp _ _ _ Pc) as Hc. assert (vw (w.1, cl) = Idle d) as E1 by done.
  destruct (submit_reported_eq on n (r, c) (w.1, cl)) as [cl' ->]. cbn [fst snd].
  destruct (submit_answered c _ _ E1) as (a & A & R & _); [by rewrite Hc|]. rewrite Hc in A.
  destruct (submit c (w.1, cl)) as [w1 r1]. cbn [fst snd] in *. subst r1. inversion A; simplify_eq; cbn [committed] in *.
  1: match goal with V : Idle ?d' = vw w1, Ea : apply c d = _ |- _ =>
       symmetry in V; specialize (IH (w1.1, cl') d' (done + count q) (qs0 ++ [q]) V); rename Ea into Hap end.
  1: destruct (sequential _ _ _ _ _ _ _) as [w' [f|qs]].
  - destruct IH as (k & cs & new & Hk & (F & d1 & Ea & V) & Hmk). exists (S k), (c :: cs), (q :: new).
    split; [lia|]. split; [|intros M; rewrite (Hmk M), counts_cons; f_equal; lia].
    split; [by constructor|]. exists d1. simpl. by rewrite Hap, Ea.
  - destruct IH as (cs & d1 & new & F & -> & Ea & V). exists (c :: cs), d1, (q :: new).
    split; [by constructor|]. split; [by rewrite <- app_assoc|]. simpl. by rewrite Hap, Ea.
  - refine (stopped_first P (r :: rs) d done w1 _ mark _ _ _); [simpl; lia|auto|by intros ->].
  - refine (stopped_first P (r :: rs) d done w1 _ mark _ _ _); [simpl; lia|eauto 12|by intros ->].
  - refine (stopped_first P (r :: rs) d done w1 _ mark _ _ _); [simpl; lia|auto|by intros ->].
Qed.

(** *** bulkInsert *)

Definition loading (s : jstr) : Prop := exists t, s = js "insert into " ++ t \/ s = js "update " ++ t.
Lemma loading_data s ps n os : loading s -> data (Query (mkStatement s ps n os)).
Proof. by intros (t & [->| ->]). Qed.
(** Every statement that the connection remembers is one of its own. *)
Definition remembered (cl : Client) : Prop := map_Forall (fun _ m => loading (m_sql m)) (insertMeta cl).

Definition sends (table : jstr) (names : list jstr) (rws : list value) (i j : nat) (c : Command) : Prop :=
  data c /\ rows_sent table names c = cells names <$> slice rws i j.
Lemma makes_unnest table names rws o m : names <> [] -> loading (m_sql m) -> makes (unnest_chunk names rws o m) (sends table names rws).
Proof.
  intros Hn Hl i j w. exists w.2. eexists. split; [by destruct w|]. split; [by apply loading_data|].
  by apply unnest_pivot.
Qed.
Lemma values_name_eq s w : exists cl n, (values_name s : proc jstr) w = ((w.1, cl), inr n).
Proof.
  unfold values_name, client, update, mbind, proc_bind, mret, proc_ret.
  destruct (valuesMeta w.2 !! s) as [n|]; [exists w.2, n; by destruct w|by do 2 eexists].
Qed.
Lemma makes_values table names rws ret : names <> [] -> makes (values_chunk table names rws ret) (sends table names rws).
Proof.
  intros Hn i j w. unfold values_chunk. destruct (values_statement table names rws ret i j) as [s ps] eqn:Es.
  destruct (values_name_eq s w) as (cl & n & En). exists cl. eexists. unfold mbind, proc_bind. rewrite En. split; [done|]. split.
  - apply loading_data. unfold values_statement, values_sql in Es. destruct (foldl _ _ _). simplify_eq. eexists. by left.
  - pose proof (values_statement_sent table names rws ret i j (Some n) Hn) as V. by rewrite Es in V.
Qed.

Lemma cached_meta_ok key pre (make : res (jstr * list Z)) w : remembered w.2 -> (forall so, make = Ok so -> loading so.1) ->
  exists cl, ((cached_meta key pre make : proc Meta) w).1 = (w.1, cl) /\ remembered cl /\
  match ((cached_meta key pre make : proc Meta) w).2 with inr m => loading (m_sql m) | inl f => committedRows f = None end.
Proof.
  intros Hr Hm. unfold cached_meta, client, update, mbind, proc_bind, mret, proc_ret.
  destruct (insertMeta w.2 !! key) as [m|] eqn:Ek; [exists w.2; split; [by destruct w|]; split; [done|by eapply Hr]|].
  destruct make as [so|e|]; simpl; [|exists w.2; by destruct w..].
  eexists. split; [done|]. split; [|by apply Hm]. intros k m'. cbn [insertMeta set_insertMeta]. intros [[<- <-]|[_ Hk]]%lookup_insert_Some; [by apply (Hm so)|by eapply Hr].
Qed.

Lemma sends_chunked table names rws cs : chunked (sends table names rws) rws cs -> concat (rows_sent table names <$> cs) = cells names <$> rws.
Proof.
  intros (rs & F & <-). induction F as [|r c rs cs [_ Hs] F IH]; [done|]. csimpl. by rewrite Hs, IH, fmap_app.
Qed.

Lemma insert_sql_loading table names casts ret : loading (insert_sql table names casts ret).
Proof. eexists. by left. Qed.

(** bulkInsert is [runBulk] of a maker whose statements carry the rows. *)
Lemma bulkInsert_runs table cols rws defaults o w : remembered w.2 ->
  (exists f cl, bulkInsert table cols rws defaults o w = ((w.1, cl), inl f) /\ committedRows f = None) \/
  exists mk cl, makes mk (sends table (fst <$> cols) rws) /\
    bulkInsert table cols rws defaults o w = runBulk (js "bulkInsert") (fst <$> cols) rws o mk (w.1, cl).
Proof.
  intros Hr. unfold bulkInsert. destruct cols as [|c0 cols0]; [left; exists (mkFailure (Local (Error (js "bulkInsert: columns must not be empty"))) None), w.2; by destruct w|].
  set (cols := c0 :: cols0). assert (fst <$> cols <> []) as Hn by done. cbn [length Nat.eqb]. generalize dependent cols. clear c0 cols0. intros cols Hn.
  destruct (length (fst <$> cols) =? 0)%nat eqn:El; [by destruct (fst <$> cols)|].
  destruct defaults.
  - right. exists (values_chunk table (fst <$> cols) rws (o_returning o)), w.2. split; [by apply makes_values|by destruct w].
  - match goal with |- context [cached_meta ?k ?p ?m] => destruct (cached_meta_ok k p m w Hr) as (cl & E1 & _ & E2) end.
    { destruct (bulkCasts cols) as [[casts os]|e|]; [|done..]. intros so [= <-]. apply insert_sql_loading. }
    unfold mbind, proc_bind. destruct (cached_meta _ _ _ w) as [w1 [f|m]]; cbn [fst snd] in *; subst w1; [left; eauto|].
    right. exists (unnest_chunk (fst <$> cols) rws o m), cl. split; [by apply makes_unnest|done].
Qed.


Lemma take_of_app {A} (k l m : list A) : k ++ l = m -> take (length k) m = k.
Proof. intros <-. apply take_app_length. Qed.
(** The rows that the first chunks cover are the first rows. *)
Lemma sends_prefix table names rws rs k cs : concat ((fun r => slice rws r.1 r.2) <$> rs) = rws ->
  Forall2 (made (sends table names rws)) (take k rs) cs ->
  concat (rows_sent table names <$> cs) = cells names <$> take (length (concat ((fun r => slice rws r.1 r.2) <$> take k rs))) rws.
Proof.
  intros Hr F. rewrite (take_of_app _ (concat ((fun r => slice rws r.1 r.2) <$> drop k rs))) by (by rewrite <- concat_app, <- fmap_app, take_drop).
  clear Hr. induction F as [|r c rs' cs [_ Hs] F IH]; [done|]. csimpl. by rewrite Hs, IH, fmap_app.
Qed.

(** What is committed when a load that commits chunk by chunk stops. *)
Definition stopped (table : jstr) (names : list jstr) (rws : list value) (d : D) (w' : World) (f : failure (E := E)) : Prop :=
  let inserts cs n := concat (rows_sent table names <$> cs) = cells names <$> take n rws in
  exists n cs d' qs, inserts cs n /\ applies cs d = inr (d', qs) /\
    (cs <> [] -> committedRows f = Some (counts qs)) /\ (forall k, committedRows f = Some k -> k = counts qs) /\
    (vw w' = Idle d' \/ vw w' = Lost d' \/
     exists m c d'' q, inserts (cs ++ [c]) m /\ apply c d' = inr (d'', q) /\ vw w' = Lost d'').

Lemma stopped_at_once table names rws d w' (f : failure (E := E)) : committedRows f = None \/ committedRows f = Some 0 ->
  (vw w' = Idle d \/ vw w' = Lost d \/
   exists m c d'' q, rows_sent table names c = cells names <$> take m rws /\ apply c d = inr (d'', q) /\ vw w' = Lost d'') ->
  stopped table names rws d w' f.
Proof.
  intros Hf V. exists 0%nat, [], d, []. repeat split; [done| |].
  - intros k. destruct Hf as [->| ->]; [done|]. by intros [= <-].
  - destruct V as [?|[?|(m & c & d'' & q & Hs & Ha & ?)]]; [auto|auto|]. right. right. exists m, c, d'', q. csimpl. by rewrite app_nil_r.
Qed.

Lemma prefix_stopped table names rws rs k cs d qs w' (f : failure (E := E)) :
  concat ((fun r => slice rws r.1 r.2) <$> rs) = rws -> prefix_committed (sends table names rws) rs k cs d qs w' ->
  committedRows f = Some (counts qs) -> stopped table names rws d w' f.
Proof.
  intros Hr (F & d' & Ea & V) Hf. eexists _, cs, d', qs. split; [by eapply sends_prefix|]. split; [done|].
  split; [done|]. split; [intros j; rewrite Hf; congruence|].
  destruct V as [?|[?|(r & c & d'' & q & Er & Mc & Ha & ?)]]; [auto|auto|]. right. right.
  eexists _, c, d'', q. split; [|done]. eapply (sends_prefix _ _ _ rs (S k)); [done|]. erewrite take_S_r by done.
  apply Forall2_app; [done|by constructor].
Qed.

Lemma one_stopped table names rws c w' d (f : failure (E := E)) : sends table names rws 0 (length rws) c ->
  committedRows f = None -> whole [c] d w' (inl f) -> stopped table names rws d w' f.
Proof.
  intros [_ Hs] Hf V. apply stopped_at_once; [auto|]. destruct V as [?|[?|(d' & qs & Ea & ?)]]; [auto|auto|].
  right. right. exists (length rws), c, d'. rewrite Hs, firstn_all. unfold slice. rewrite Nat.sub_0_r, drop_0, firstn_all.
  simpl in Ea. destruct (apply c d) as [e|[d1 q]]; simplify_eq. by exists q.
Qed.

Lemma runBulk_sequential label table names rws o mk w d : makes mk (sends table names rws) ->
  o_atomic o = Some false -> vw w = Idle d ->
  let '(w', r) := runBulk label names rws o mk w in
  match r with
  | inr q => exists cs d' qs, chunked (sends table names rws) rws cs /\ applies cs d = inr (d', qs) /\ vw w' = Idle d' /\ rows q = concat (rows <$> qs)
  | inl f => stopped table names rws d w' f
  end.
Proof.
  intros Hm Ho Ew. unfold runBulk. set (chunk := Z.to_nat _).
  unfold mbind at 1, proc_bind at 1. unfold update. cbn [fst snd].
  set (w0 := (w.1, set_reports [] w.2)). assert (vw w0 = Idle d) as E0 by done. clearbody w0.
  destruct (Nat.leb_spec (length rws) chunk) as [Hle|Hlt].
  - destruct (Hm 0%nat (length rws) w0) as (cl & c & Em & Pc). unfold mbind at 1, proc_bind at 1. rewrite Em.
    pose proof (one_whole (o_progress o) 1 ((0%nat, length rws), c) (w0.1, cl) d (proj1 Pc) E0) as W.
    pose proof (submit_reported_cause (o_progress o) 1 ((0%nat, length rws), c) (w0.1, cl)) as Hf.
    destruct (submit_reported _ _ _ _) as [w' [f|q]]; [by eapply one_stopped|].
    destruct W as (d' & qs & Ea & V & Er). exists [c], d', qs. split; [|done].
    exists [(0%nat, length rws)]. split; [by constructor|]. simpl. unfold slice. rewrite app_nil_r, Nat.sub_0_r. by apply firstn_all.
  - unfold mbind at 1, proc_bind at 1, open_tx. rewrite bool_decide_eq_true_2 by done.
    rewrite in_tx. unfold vw in E0. rewrite E0. fold (vw w0) in E0. unfold mbind, proc_bind.
    pose proof (chunks_cover rws chunk ltac:(lia)) as Hr.
    match goal with |- context [sequential ?a ?b ?n _ _ _ _] =>
      pose proof (sequential_idle a b n mk (sends table names rws) (chunks chunk (length rws)) Hm ltac:(by intros i j c [? _]) w0 d 0 [] E0) as S end.
    destruct (sequential _ _ _ _ _ _ _) as [w' [f|qs]].
    + destruct S as (k & cs & new & _ & Pk & Hf). by eapply prefix_stopped; [exact Hr|exact Pk|exact (Hf eq_refl)].
    + destruct S as (cs & d' & new & F & -> & Ea & V). exists cs, d', new. split; [by eexists|done].
Qed.


End Loads.

(** ** A server to run the loads on *)

(** Its data are the rows received; a row with a null is refused. *)
Definition demo_apply (c : Command) (d : list (list value)) : jstr + (list (list value) * QueryResult) :=
  let rws := rows_sent (js "t") [js "a"] c in
  if existsb (existsb (fun v => match v with VNull => true | _ => false end)) rws then inl (js "23502")
  else inr (d ++ rws, mkResult [] [] (Some (Z.of_nat (length rws))) (Some (js "INSERT"))).
Definition ok_result : QueryResult := mkResult [] [] None None.
Definition demo_exec (c : Command) (v : View (D := list (list value))) : View (D := list (list value)) * (jstr + QueryResult) :=
  match control (fun _ => false) c, v with
  | _, Lost d => (Lost d, inl (js "08006"))
  | CBegin, Idle d => (Open d d [], inr ok_result)
  | CData, Idle d => match demo_apply c d with inr (d', q) => (Idle d', inr q) | inl e => (Idle d, inl e) end
  | CData, Open b w s => match demo_apply c w with inr (w', q) => (Open b w' s, inr q) | inl e => (Broken b s, inl e) end
  | CCommit, Open b w s => (Idle w, inr ok_result)
  | CCommit, Broken b s => (Idle b, inr ok_result)
  | CRollback, v => (Idle (committed v), inr ok_result)
  | CSavepoint n, Open b w s => (Open b w ((n, w) :: s), inr ok_result)
  | CRelease n, Open b w ((m, x) :: s) => (Open b w s, inr ok_result)
  | CRollbackTo n, (Open b _ ((m, x) :: s) | Broken b ((m, x) :: s)) => (Open b x ((m, x) :: s), inr ok_result)
  | _, Broken b s => (Broken b s, inl (js "25P02"))
  | _, v => (v, inl (js "0A000"))
  end.
#[export] Instance demo_session : Session (View (D := list (list value))) jstr :=
  {| exec := demo_exec; inTransaction v := match v with Open _ _ _ | Broken _ _ => true | _ => false end |}.
#[export] Instance demo_server : Transactional (View (D := list (list value))) jstr (list (list value)).
Proof.
  refine {| view := id; apply := demo_apply; plain := fun _ => false |}.
  - by intros [].
  - intros c v R. unfold exec, demo_session, id in *. unfold demo_exec. revert R. generalize (control (fun _ => false) c). intros k R.
    destruct k, v as [d|b x [|[m y] s]|b [|[m y] s]|d]; simpl in R; try done; try (apply bool_decide_eq_true in R; simplify_eq);
      try (destruct (demo_apply c _) as [?|[??]] eqn:Ea; simpl); try (by econstructor); try (by eapply a_lost); try (by eapply a_broken).
Defined.

Definition demo_client : Client := mkClient ∅ ∅ 0 [].
Definition demo_world : World (T := View (D := list (list value))) := (Idle [], demo_client).
Definition demo_columns : Columns := [(js "a", js "int4")].
Definition demo_row (v : value) : value := VArr [v].
Definition numbers (n : nat) : list value := (fun i => demo_row (VNum (of_Z (Z.of_nat i)))) <$> seq 0 n.
Definition by_two (atomic : option bool) : BulkOptions := mkBulkOptions None None (Some 2) atomic true.
Definition demo_insert rws defaults atomic := bulkInsert (E := jstr) (js "t") demo_columns rws defaults (by_two atomic) demo_world.
Lemma demo_remembered : remembered demo_world.2.
Proof. apply map_Forall_empty. Qed.



(** A callback that inserts, and begins a transaction of its own around a row that is refused. *)
Definition plain_insert (v : value) : proc QueryResult (T := View (D := list (list value))) (E := jstr) :=
  submit (Query (mkStatement (js "insert into t") [VArr [v]] None (Some [1007]))).
Definition nested_callback : proc unit (T := View (D := list (list value))) (E := jstr) :=
  _ ← plain_insert (VNum (of_Z 1));
  _ ← attempt (runTx None (_ ← plain_insert (VNum (of_Z 2)); plain_insert VNull));
  mret tt.
Lemma nested_callback_scoped : scoped nested_callback.
Proof.
  apply scoped_bind; [by apply scoped_submit|]. intros _. apply scoped_bind; [|intros; apply scoped_ret].
  apply scoped_attempt, scoped_runTx, scoped_bind; [by apply scoped_submit|]. intros _. by apply scoped_submit.
Qed.

(** A callback that goes on after a statement failed: begin() resolves, and COMMIT has rolled everything back. *)
Example swallowed_failure : exists cl,
  runTx None (_ ← plain_insert (VNum (of_Z 1)); _ ← attempt (plain_insert VNull); mret tt) demo_world = ((Idle [], cl), inr tt).
Proof. eexists. vm_compute. reflexivity. Qed.

(** ** The caches of statements *)

(** Two updates that the cache takes for one: by the columns a and b, and by a alone with "returning b". *)
Definition abc : Columns := [(js "a", js "int4"); (js "b", js "int4"); (js "c", js "int4")].
Example update_key_collision : update_key (js "t") abc [js "a"; js "b"] None = update_key (js "t") abc [js "a"] (Some (js "b")).
Proof. reflexivity. Qed.
Example update_by_wrong_statement :
  let upd by_ ret : proc QueryResult (T := View (D := list (list value))) (E := jstr) :=
    bulkUpdate (js "t") abc [] by_ (mkBulkOptions ret None None None false) in
  let w := (_ ← upd [js "a"; js "b"] None; upd [js "a"] (Some (js "b"))) demo_world in
  (m_sql <$> insertMeta w.1.2 !! update_key (js "t") abc [js "a"] (Some (js "b"))) =
  Some (update_sql (js "t") [js "a"; js "b"; js "c"] [js "a"; js "b"] [js "$1::int4[]"; js "$2::int4[]"; js "$3::int4[]"] None).
Proof. vm_compute. reflexivity. Qed.
