(* ===== verification/Aurora.v ===== *)
(** * The RDS Data API client (src/aurora.ts)

    Parameters become the API's typed fields; the fields of a result become text again, and every record the
    DataRow that a server would have sent. Transactions are threaded by an id that the service hands out: a
    program is a computation over the service and the clients' savepoint counters. A request is its operation
    and body; signing (sigv4.ts or the caller's own) and the pauses between retries are not modelled. *)

From S2P Require Import Prelude Utf8 Text Buf Num Dates Value NumText Faults Auth Json JsonBig JsonSpec Protocol Parse Errors Encode Decode Mapper Spec Bulk Plans Rest Url.

(** ** Parameters *)

Inductive BindType := BInt | BBigint | BFloat | BNumeric | BText | BBool | BUuid | BJson | BDate | BTime | BTimestamp | BBytea.
Inductive Param := Raw (v : value) | Bound (t : BindType) (v : value) (name : option jstr).

Definition field (k : string) (v : value) : value := VObj [(js k, v)].
Definition parameter (name : jstr) (hint : option string) (v : value) : value :=
  VObj ([(js "name", VStr name)] ++ match hint with Some h => [(js "typeHint", VStr (js h))] | None => [] end ++ [(js "value", v)]).
Definition stringValue (s : jstr) : value := field "stringValue" (VStr s).

(** Number(v) *)
Definition Number_of (v : value) : num :=
  match v with
  | VUndef => NaN
  | VNull => of_Z 0
  | VBool b => of_Z (if b then 1 else 0)
  | VNum x => x
  | VBig z => of_Z z
  | VDate d => match d with Some t => of_Z t | None => NaN end
  | v => ToNumber (String_ v)
  end.
(** BigInt(v) of a string or a number. *)
Definition BigInt_of (v : value) : res Z :=
  match v with
  | VBig z => Ok z
  | VNum x => match int_of x with Some z => Ok z | None => Throw RangeError end
  | VStr s => b ← BigInt_text (trim s); match b with VBig z => Ok z | _ => Throw SyntaxError end
  | _ => Throw (TypeError (js "Cannot convert to a BigInt"))
  end.
(** Number.isSafeInteger(Number(v)) *)
Definition longOrString (z : Z) : value :=
  match safe_int (of_Z z) with Some _ => field "longValue" (VNum (of_Z z)) | None => stringValue (show_Z z) end.
(** toISOString().replace('T', ' ').replace('Z', '') *)
Fixpoint replace1 (c : Z) (by_ s : jstr) : jstr :=
  match s with [] => [] | d :: t => if d =? c then by_ ++ t else d :: replace1 c by_ t end.
Definition tsText (v : value) : res jstr :=
  match v with VDate d => s ← toISOString d; Ok (replace1 90 [] (replace1 84 [32] s)) | v => Ok (String_ v) end.
(** A member that is undefined is left out by JSON.stringify. *)
Definition json_text (v : value) : res value :=
  match v with
  | VStr s => Ok (VStr s)
  | v => o ← stringify v; Ok (match o with Some s => VStr s | None => VUndef end)
  end.
Definition toB64 (v : value) : res jstr :=
  match v with VBuf b => Ok (base64 b) | _ => Throw (TypeError (js "not bytes")) end.

Definition encodeBound (t : BindType) (v : value) (name : jstr) : res value :=
  match t with
  | BInt => Ok (parameter name None (field "longValue" (VNum (Number_of v))))
  | BBigint => z ← BigInt_of v; Ok (parameter name None (longOrString z))
  | BFloat => Ok (parameter name None (field "doubleValue" (VNum (Number_of v))))
  | BNumeric => Ok (parameter name (Some "DECIMAL"%string) (stringValue (String_ v)))
  | BText => Ok (parameter name None (stringValue (String_ v)))
  | BBool => Ok (parameter name None (field "booleanValue" (VBool (truthy v))))
  | BUuid => Ok (parameter name (Some "UUID"%string) (stringValue (String_ v)))
  | BJson => x ← json_text v; Ok (parameter name (Some "JSON"%string) (field "stringValue" x))
  | BDate => Ok (parameter name (Some "DATE"%string) (stringValue (String_ v)))
  | BTime => Ok (parameter name (Some "TIME"%string) (stringValue (String_ v)))
  | BTimestamp => s ← tsText v; Ok (parameter name (Some "TIMESTAMP"%string) (stringValue s))
  | BBytea => s ← toB64 v; Ok (parameter name None (field "blobValue" (VStr s)))
  end.
Definition encodeRaw (v : value) (name : jstr) : res value :=
  match v with
  | VUndef | VNull => Ok (parameter name None (field "isNull" (VBool true)))
  | VBool b => Ok (parameter name None (field "booleanValue" (VBool b)))
  | VBig z => Ok (parameter name None (longOrString z))
  | VNum x => Ok (parameter name None (field (match int_of x with Some _ => "longValue"%string | None => "doubleValue"%string end) (VNum x)))
  | VBuf b => Ok (parameter name None (field "blobValue" (VStr (base64 b))))
  | VDate _ => s ← tsText v; Ok (parameter name (Some "TIMESTAMP"%string) (stringValue s))
  | VArr l => s ← arrayLiteral l; Ok (parameter name None (stringValue s))
  | VObj _ => x ← json_text v; Ok (parameter name (Some "JSON"%string) (field "stringValue" x))
  | _ => Ok (parameter name None (stringValue (String_ v)))
  end.
Definition position_name (i : nat) : jstr := 112 :: show_Z (Z.of_nat i + 1).
Definition toParameters (ps : list Param) : res (list value) :=
  mapM (fun ip : nat * Param => match ip.2 with
                  | Raw v => encodeRaw v (position_name ip.1)
                  | Bound t v name => encodeBound t v (default (position_name ip.1) name)
                  end) (imap pair ps).

(** ** Types by name *)

Definition TYPENAME_OID_table : list (string * Z) := [
  ("bool", 16); ("bytea", 17); ("char", 18); ("name", 19); ("int8", 20); ("int2", 21); ("int4", 23); ("text", 25); ("oid", 26); ("json", 114); ("xml", 142);
  ("point", 600); ("lseg", 601); ("path", 602); ("box", 603); ("polygon", 604); ("line", 628); ("cidr", 650); ("float4", 700); ("float8", 701);
  ("circle", 718); ("macaddr8", 774); ("money", 790); ("macaddr", 829); ("inet", 869); ("bpchar", 1042); ("varchar", 1043); ("date", 1082);
  ("time", 1083); ("timestamp", 1114); ("timestamptz", 1184); ("interval", 1186); ("timetz", 1266); ("bit", 1560); ("varbit", 1562);
  ("numeric", 1700); ("uuid", 2950); ("jsonb", 3802); ("int4range", 3904); ("numrange", 3906); ("tsrange", 3908); ("tstzrange", 3910);
  ("daterange", 3912); ("int8range", 3926); ("serial", 23); ("bigserial", 20); ("smallserial", 21)]%string.
(** Of names other than those every object inherits, such as 'constructor'. *)
Definition TYPENAME_OID (t : jstr) : option Z := snd <$> List.find (fun p => bool_decide (js p.1 = t)) TYPENAME_OID_table.
Definition oidForTypeName (t : jstr) : Z :=
  match TYPENAME_OID t with
  | Some oid => oid
  | None => match t with 95 :: elem => default 25 (TYPENAME_OID elem ≫= ARRAY_OID) | _ => 25 end
  end.

(** ** Fields as text *)

Inductive ArrayValue :=
| ANested (l : list ArrayValue)
| AStrings (l : list jstr)
| ALongs (l : list (num + jstr))
| ADoubles (l : list num)
| ABooleans (l : list bool)
| ANone.
Inductive Field :=
| FNull | FString (s : jstr) | FLong (x : num + jstr) | FDouble (x : num) | FBoolean (b : bool) | FBlob (s : jstr) | FArray (a : ArrayValue)
| FNone.
Record ColumnMetadata := mkMeta_ { c_name : option jstr; c_label : option jstr; c_typeName : jstr }.

Definition UTC_TYPENAMES (t : jstr) : bool :=
  existsb (fun n => bool_decide (js n = t)) ["timestamptz"; "timetz"; "_timestamptz"; "_timetz"]%string.
(** [+-]\d\d(?::?\d\d){0,2}$, from the end. *)
Fixpoint offset_end (groups : nat) (r : jstr) : bool :=
  match r with
  | d2 :: d1 :: t =>
    is_digit d2 && is_digit d1 &&
    match t with
    | c :: t' =>
      if (c =? 43) || (c =? 45) then true
      else match groups with O => false | S g => offset_end g (if c =? 58 then t' else t) end
    | [] => false
    end
  | _ => false
  end.
Definition HAS_OFFSET (s : jstr) : bool :=
  let r := rev s in offset_end 2 (match r with 67 :: 66 :: 32 :: t => t | _ => r end).
Definition withUtc (s : jstr) : jstr :=
  if HAS_OFFSET s || negb (match s with c :: _ => is_digit c | [] => false end) then s
  else if endsWith s (js " BC") then take (length s - 3) s ++ js "+00 BC" else s ++ js "+00".
Definition utc_text (utc : bool) (s : jstr) : jstr := if utc then withUtc s else s.

(** NEEDS_QUOTE: empty, null in any case, or with a delimiter, quote, backslash, brace or white space. *)
Definition special_char (delim c : Z) : bool := existsb (Z.eqb c) [34; delim; 92; 123; 125; 32; 9; 10; 13; 11; 12].
Definition NEEDS_QUOTE (delim : Z) (s : jstr) : bool :=
  bool_decide (s = []) || bool_decide (lower s = js "null") || existsb (special_char delim) s.
Definition quoteEl (delim : Z) (s : jstr) : jstr := if NEEDS_QUOTE delim s then 34 :: esc_quoted s ++ [34] else s.
Definition long_text (x : num + jstr) : jstr := match x with inl x => num_str x | inr s => s end.
Fixpoint arrayToLiteral (a : ArrayValue) (utc : bool) (delim : Z) : jstr :=
  let els := match a with
             | ANested l => (fun x => arrayToLiteral x utc delim) <$> l
             | AStrings l => (fun s => quoteEl delim (utc_text utc s)) <$> l
             | ALongs l => long_text <$> l
             | ADoubles l => num_str <$> l
             | ABooleans l => (fun b : bool => js (if b then "t" else "f")) <$> l
             | ANone => []
             end in
  123 :: join [delim] els ++ [125].
Definition fieldToText (f : Field) (utc : bool) (delim : Z) : option bytes :=
  match f with
  | FNull | FNone => None
  | FString s => Some (utf8 (utc_text utc s))
  | FLong x => Some (utf8 (long_text x))
  | FDouble x => Some (utf8 (num_str x))
  | FBoolean b => Some (js (if b then "t" else "f"))
  | FBlob s => Some (js "\x" ++ hex (base64_decode s))
  | FArray a => Some (utf8 (arrayToLiteral a utc delim))
  end.

(** ** The body of a response *)

Fixpoint digits16 (n : nat) (s : jstr) : bool :=
  match n with O => true | S n' => match s with c :: t => is_digit c && digits16 n' t | [] => false end end.
Definition long_here (s : jstr) : bool := digits16 16 (match s with 45 :: t => t | _ => s end).
Fixpoint long_in_array (s : jstr) : bool :=
  long_here s || match s with c :: t => (is_digit c || (c =? 45) || (c =? 44) || StrWhiteSpace c) && long_in_array t | [] => false end.
Definition long_after_key (s : jstr) : bool :=
  let s := match s with 115 :: 34 :: t => Some t | 34 :: t => Some t | _ => None end in
  match s with
  | Some t => match skip_spaces t with
              | 58 :: r => let r := skip_spaces r in match r with 91 :: r' => long_in_array r' | _ => long_here r end
              | _ => false
              end
  | None => false
  end.
Definition long_key : jstr := 34 :: js "longValue".
Fixpoint LONG_BIG (s : jstr) : bool :=
  (prefix_of long_key s && long_after_key (drop (length long_key) s)) || match s with [] => false | _ :: t => LONG_BIG t end.
Definition parseBody (b : bytes) : res value :=
  let s := utf8_decode b in if LONG_BIG s then parseJsonBuffer b 0 (blen b) JString else JSON_parse s.

(** The types that the code asserts of a body. *)
Definition get (k : string) (o : obj) : option value := match own k o with VUndef => None | v => Some v end.
Definition set_ (k : string) (o : obj) : option value := if truthy (own k o) then Some (own k o) else None.
Definition as_str (v : value) : option jstr := match v with VStr s => Some s | _ => None end.
Definition as_num (v : value) : option num := match v with VNum x => Some x | _ => None end.
Definition as_bool (v : value) : option bool := match v with VBool b => Some b | _ => None end.
Definition as_long (v : value) : option (num + jstr) := match v with VNum x => Some (inl x) | VStr s => Some (inr s) | _ => None end.
Definition as_list {A} (f : value -> option A) (v : value) : option (list A) := match v with VArr l => mapM f l | _ => None end.
(** PostgreSQL's arrays have at most 6 dimensions. *)
Fixpoint array_of (fuel : nat) (v : value) : option ArrayValue :=
  match fuel, v with
  | S f, VObj o =>
    match set_ "arrayValues" o, set_ "stringValues" o, set_ "longValues" o, set_ "doubleValues" o, set_ "booleanValues" o with
    | Some l, _, _, _, _ => ANested <$> as_list (array_of f) l
    | _, Some l, _, _, _ => AStrings <$> as_list as_str l
    | _, _, Some l, _, _ => ALongs <$> as_list as_long l
    | _, _, _, Some l, _ => ADoubles <$> as_list as_num l
    | _, _, _, _, Some l => ABooleans <$> as_list as_bool l
    | _, _, _, _, _ => Some ANone
    end
  | _, _ => None
  end.
Definition field_of (v : value) : option Field :=
  match v with
  | VObj o =>
    if truthy (own "isNull" o) then Some FNull
    else match get "stringValue" o, get "longValue" o, get "doubleValue" o, get "booleanValue" o, get "blobValue" o, get "arrayValue" o with
         | Some x, _, _, _, _, _ => FString <$> as_str x
         | _, Some x, _, _, _, _ => FLong <$> as_long x
         | _, _, Some x, _, _, _ => FDouble <$> as_num x
         | _, _, _, Some x, _, _ => FBoolean <$> as_bool x
         | _, _, _, _, Some x, _ => FBlob <$> as_str x
         | _, _, _, _, _, Some x => FArray <$> array_of 64 x
         | _, _, _, _, _, _ => Some FNone
         end
  | _ => None
  end.

(** ** Results *)

Record AuroraConfig := mkAuroraConfig {
  u_resourceArn : jstr; u_secretArn : jstr; u_database : option jstr; u_maxRetries : nat; u_temporalString : bool; u_decoders : gmap Z Decoder;
  u_mapperFactory : list CodegenCol -> bool -> gmap Z Decoder -> res (bytes -> res value) }.
Record Statement_ := mkStatement_ { r_meta : option (list ColumnMetadata); r_records : option (list (list Field)); r_updated : option num }.
Record AuroraResult := mkAuroraResult { ar_rows : list value; ar_columns : list jstr; ar_rowCount : option num; ar_command : option jstr }.

(** /^[\s(]*([a-zA-Z]+)/ *)
Fixpoint skip_open (s : jstr) : jstr := match s with c :: t => if StrWhiteSpace c || (c =? 40) then skip_open t else s | [] => [] end.
Definition ascii_letter (c : Z) : bool := between 97 122 c || between 65 90 c.
Definition firstKeyword (sql : jstr) : option jstr :=
  match (span ascii_letter (skip_open sql)).1 with [] => None | w => Some (upper <$> w) end.

Section Results.
Context `{Env} (cfg : AuroraConfig).

Definition Shape : Type := option (res (list CodegenCol)).
Definition column_name (c : ColumnMetadata) : option jstr := match c_label c with Some l => Some l | None => c_name c end.
Definition meta_col (c : ColumnMetadata) : CodegenCol :=
  mkCol (default [63] (column_name c)) (oidForTypeName (c_typeName c)) None None false None None [] None false.
Definition resolveCols (cols : list CodegenCol) : list CodegenCol :=
  if u_temporalString cfg then (fun c => default c (temporal_col c)) <$> cols else cols.
Definition planCols (meta : list ColumnMetadata) (shape : Shape) : res (list CodegenCol) :=
  cols ← (match shape with
          | Some given => l ← given; Ok (mergeUnknownCols (unbinary <$> (l : list CodegenCol)) (oidForTypeName ∘ c_typeName <$> meta))
          | None => Ok (meta_col <$> meta)
          end : res (list CodegenCol));
  Ok (resolveCols (tagArrayCol <$> (cols : list CodegenCol))).

(** A record as a DataRow; int16 and int32 writes check their ranges. *)
Definition row_bytes (ncols : nat) (cells : list (option bytes)) : res bytes :=
  h ← int_be 2 (-32768) 32767 (Z.of_nat ncols);
  l ← mapM (fun c : option bytes => match c with None => Ok (be 4 (-1)) | Some b => n ← int32_be (blen b); Ok (n ++ b) end) cells;
  Ok (h ++ concat l).
Definition record_cells (meta : list ColumnMetadata) (rec : list Field) : list (option bytes) :=
  imap (fun i f => let t := c_typeName <$> meta !! i in
                   fieldToText f (match t with Some t => UTC_TYPENAMES t | None => false end)
                     (if bool_decide (t = Some (js "_box")) then 59 else 44)) rec.
Definition mapper_of (mode : ResultMode) (cols : list CodegenCol) : res (option (bytes -> res value)) :=
  match mode return res (option (bytes -> res value)) with
  | RArray => m ← u_mapperFactory cfg cols true (u_decoders cfg); Ok (Some m)
  | RObject => m ← u_mapperFactory cfg cols false (u_decoders cfg); Ok (Some m)
  | _ => Ok None
  end.
Definition cell_value (c : option bytes) : value := match c with None => VNull | Some b => VBuf b end.
Definition map_row (mode : ResultMode) (mapper : option (bytes -> res value)) (b : bytes) : res value :=
  match mapper with
  | Some m => m b
  | None => match mode return res value with
            | RBuffer => cs ← Parser.parseDataRow b; Ok (VArr (cell_value <$> (cs : list (option bytes))))
            | _ => Ok (VBuf b)
            end
  end.
Definition wrong_columns (n k : nat) (meta : list ColumnMetadata) : jstr :=
  js "minipg/aurora: shape declares " ++ show_Z (Z.of_nat n) ++ js " column(s) but the statement returned " ++ show_Z (Z.of_nat k)
  ++ js " (" ++ join (js ", ") ((fun c => default [] (column_name c)) <$> meta) ++ js ")" ++ dash
  ++ js "a shape is positional, so a mismatch would decode the wrong column".
Definition decodeResult (r : Statement_) (sql : jstr) (mode : ResultMode) (shape : Shape) : out AuroraResult :=
  match r_meta r, r_records r with
  | Some meta, Some records =>
    cols ← of_res (planCols meta shape);
    if match shape with Some _ => negb (length cols =? length meta)%nat | None => false end
    then fail (wrong_columns (length cols) (length meta) meta)
    else
      mapper ← of_res (mapper_of mode cols);
      rs ← of_res (mapM (fun rec => b ← row_bytes (length cols) (record_cells meta rec); map_row mode mapper b) records);
      inr (mkAuroraResult rs (name <$> cols) (Some (of_Z (Z.of_nat (length records)))) (firstKeyword sql))
  | _, _ => inr (mkAuroraResult [] [] (r_updated r) (firstKeyword sql))
  end.

(** The asserted types of a statement's response; null stands for a member that is left out. *)
Definition opt_of {A} (f : value -> option A) (v : value) : option (option A) := if nullish v then Some None else Some <$> f v.
Definition meta_of (v : value) : option ColumnMetadata :=
  match v with
  | VObj o => n ← opt_of as_str (own "name" o); l ← opt_of as_str (own "label" o); t ← as_str (own "typeName" o); Some (mkMeta_ n l t)
  | _ => None
  end.
Definition statement_of (v : value) : option Statement_ :=
  match v with
  | VObj o =>
    m ← opt_of (as_list meta_of) (own "columnMetadata" o);
    r ← opt_of (as_list (as_list field_of)) (own "records" o);
    n ← opt_of as_num (own "numberOfRecordsUpdated" o);
    Some (mkStatement_ m r n)
  | _ => None
  end.
End Results.

(** ** Calls *)

Record Request := mkRequest { q_op : jstr; q_body : obj }.
Record Reply := mkReply { y_ok : bool; y_status : Z; y_statusText : jstr; y_errType : option jstr; y_body : bytes }.

(** /\bERROR:/i *)
Fixpoint error_word (word_before : bool) (s : jstr) : bool :=
  (negb word_before && prefix_of (js "error:") (lower s)) || match s with [] => false | c :: t => error_word (word_char c) t end.
Definition looksPg (m : jstr) : bool :=
  error_word false m || includes (lower m) (js "database error code") || includes (lower m) (js "sqlstate").
(** /^Database error code:\s*-?\d+\.\s*Message:\s*/i *)
Definition strip_code (m : jstr) : jstr :=
  if prefix_of (js "database error code:") (lower m) then
    let r := skip_spaces (drop 20 m) in
    let r := match r with 45 :: t => t | _ => r end in
    match span is_digit r with
    | (_ :: _, 46 :: t) => let t := skip_spaces t in if prefix_of (js "message:") (lower t) then skip_spaces (drop 8 t) else m
    | _ => m
    end
  else m.
(** /^ERROR:\s*/ *)
Definition strip_error (m : jstr) : jstr := if prefix_of (js "ERROR:") m then skip_spaces (drop 6 m) else m.

Inductive TxOptions := TxText (s : jstr) | TxObject (isolation : option jstr) (readOnly deferrable : option bool).
Definition beginOptions (o : TxOptions) : jstr :=
  match o with
  | TxText t => trim (List.filter letter t)
  | TxObject iso ro de =>
    join (js " ") (match iso with None | Some [] => [] | Some i => [js "isolation level " ++ i] end
                   ++ match ro with None => [] | Some b => [js (if b then "read only" else "read write")] end
                   ++ match de with None => [] | Some b => [js (if b then "deferrable" else "not deferrable")] end)
  end.

Section Calls.
Context {T E : Type} `{Env} (cfg : AuroraConfig) (fetch : Request -> T -> T * (E + Reply)).

Inductive aws_error :=
| AwsPg (message errType : jstr)
| AwsError (message code : jstr)
| AwsFetch (e : E)
| AwsLocal (e : http_error).
(** The service, the counters of the clients' savepoints, and (for the theorems) the requests that were sent. *)
Record World := mkWorld { srv : T; counters : list Z; sent : list Request }.
Definition proc (A : Type) : Type := World -> World * (aws_error + A).
#[global] Instance proc_ret : MRet proc := fun A a w => (w, inr a).
#[global] Instance proc_bind : MBind proc := fun A B f p w => match p w with (w', inr a) => f a w' | (w', inl e) => (w', inl e) end.
Definition raise {A} (e : aws_error) : proc A := fun w => (w, inl e).
Definition lift {A} (o : out A) : proc A := fun w => (w, match o with inr a => inr a | inl e => inl (AwsLocal e) end).
Definition attempt {A} (p : proc A) : proc (aws_error + A) := fun w => let '(w', r) := p w in (w', inr r).

Definition retryable (errType : jstr) (status : Z) : bool :=
  includes errType (js "DatabaseResuming") || includes errType (js "Throttling") || (status =? 429).
(** (res.headers.get('x-amzn-errortype') ?? '').split(':')[0] *)
Definition errType_of (r : Reply) : jstr := (span (fun c => negb (c =? 58)) (default [] (y_errType r))).1.
(** parsed.message of the body, when it is JSON; a message that is not a text is not modelled. *)
Definition message_of (r : Reply) : jstr :=
  match res_json (y_body r) with
  | Ok (VObj o) => match own "message" o with VStr m => m | _ => show_Z (y_status r) ++ [32] ++ y_statusText r end
  | _ => show_Z (y_status r) ++ [32] ++ y_statusText r
  end.
Definition call_error (r : Reply) : aws_error :=
  let errType := errType_of r in
  let m := message_of r in
  if looksPg m || includes errType (js "Database") || includes errType (js "BadRequest") || includes errType (js "Statement")
  then AwsPg (strip_error (strip_code m)) errType
  else AwsError (js "minipg/aurora: " ++ match errType with [] => js "HTTP " ++ show_Z (y_status r) | t => t end ++ dash ++ m) errType.
Definition send (q : Request) : proc Reply := fun w =>
  let '(s, r) := fetch q (srv w) in
  (mkWorld s (counters w) (sent w ++ [q]), match r with inr y => inr y | inl e => inl (AwsFetch e) end).
Fixpoint call_loop (retries : nat) (q : Request) : proc value :=
  r ← send q;
  if y_ok r then lift (of_res (parseBody (y_body r)))
  else match retries with
       | S n => if retryable (errType_of r) (y_status r) then call_loop n q else raise (call_error r)
       | O => raise (call_error r)
       end.
Definition call (op : string) (body : obj) : proc value :=
  _ ← lift (of_res (stringify (VObj body)));
  call_loop (u_maxRetries cfg) (mkRequest (js op) body).

(** A client of a transaction: its id and where its counter is. *)
Definition Client : Type := option (jstr * nat).
Definition txId (c : Client) : option jstr := fst <$> c.
Definition arns : obj := [(js "resourceArn", VStr (u_resourceArn cfg)); (js "secretArn", VStr (u_secretArn cfg))].
Definition base : obj := arns ++ match u_database cfg with None | Some [] => [] | Some d => [(js "database", VStr d)] end.
Definition tx_member (c : Client) : obj := match txId c with Some id => [(js "transactionId", VStr id)] | None => [] end.
Definition bypasses (w : jstr) (rest : string) : jstr :=
  js "minipg/aurora: " ++ (34 :: (upper <$> w) ++ [34]) ++ js " bypasses the Data API's transaction threading" ++ dash ++ js rest.
Definition RESULT_SET_OPTIONS : value := VObj [(js "longReturnType", VStr (js "STRING")); (js "decimalReturnType", VStr (js "STRING"))].

Definition query (c : Client) (sql : jstr) (params : list Param) (mode : option ResultMode) (shape : Shape) : proc AuroraResult :=
  _ ← (match TX_SQL sql with
       | Some w => lift (fail (bypasses w
           "outside begin() each statement auto-commits (a textual BEGIN silently does nothing), and inside begin() it would desync the threaded transactionId; use begin(fn)/transaction(fn)"))
       | None => mret tt
       end);
  ps ← (match params with [] => mret [] | _ => l ← lift (of_res (toParameters params)); mret [(js "parameters", VArr l)] end);
  r ← call "Execute" (base ++ [(js "sql", VStr sql)] ++ ps
        ++ [(js "includeResultMetadata", VBool true); (js "resultSetOptions", RESULT_SET_OPTIONS)] ++ tx_member c);
  st ← lift (typed (statement_of r));
  lift (decodeResult cfg st sql (match mode with Some m => m | None => match shape with Some _ => RObject | None => RArray end end) shape).
Definition batch (c : Client) (sql : jstr) (sets : list (list Param)) : proc value :=
  _ ← (match TX_SQL sql with Some w => lift (fail (bypasses w "use begin(fn)/transaction(fn)")) | None => mret tt end);
  l ← lift (of_res (mapM (fun ps => l ← toParameters ps; Ok (VArr l)) sets));
  call "BatchExecute" (base ++ [(js "sql", VStr sql); (js "parameterSets", VArr l)] ++ tx_member c).

Definition command (c : Client) (sql : jstr) : proc unit := _ ← query c sql [] None None; mret tt.
(** try { const r = await fn(..); await keep; return r } catch (e) { try { await undo } catch {} throw e } *)
Definition keep_or_undo {A} (fn : proc A) (keep undo : proc unit) : proc A :=
  r ← attempt (a ← fn; _ ← keep; mret a);
  match r : aws_error + A with
  | inr a => mret a
  | inl e => _ ← attempt undo; raise e
  end.
Definition savepoint_name (n : Z) : jstr := js "minipg_sp_" ++ show_Z n.
Definition bump (cell : nat) : proc Z := fun w =>
  let n := default 0 (counters w !! cell) + 1 in (mkWorld (srv w) (<[cell := n]> (counters w)) (sent w), inr n).
Definition new_counter : proc nat := fun w => (mkWorld (srv w) (counters w ++ [0]) (sent w), inr (length (counters w))).
Definition end_tx (op : string) (id : jstr) : proc unit := _ ← call op (arns ++ [(js "transactionId", VStr id)]); mret tt.
Definition transaction_id (v : value) : option jstr := match v with VObj o => given (as_str (own "transactionId" o)) | _ => None end.
Definition runTx {A} (c : Client) (o : option TxOptions) (fn : Client -> proc A) : proc A :=
  match c with
  | Some (_, cell) =>
    n ← bump cell;
    let sp := savepoint_name n in
    _ ← command c (js "savepoint " ++ sp);
    keep_or_undo (fn c) (command c (js "release savepoint " ++ sp))
      (_ ← command c (js "rollback to savepoint " ++ sp); command c (js "release savepoint " ++ sp))
  | None =>
    v ← call "BeginTransaction" base;
    id ← lift (typed (transaction_id v));
    cell ← new_counter;
    let tx := Some (id, cell) in
    _ ← (match o with Some o => command tx (js "set transaction " ++ beginOptions o) | None => mret tt end);
    keep_or_undo (fn tx) (end_tx "CommitTransaction" id) (end_tx "RollbackTransaction" id)
  end.
End Calls.
