(* ===== verification/AuroraProofs.v ===== *)
(** * What the Data API client sends and reads

    An array of typed lists becomes a literal that the array parser reads back; records are decoded from the
    DataRows a server would have sent; a transaction's callback sends nothing outside the transaction, and
    the transaction is ended however the callback ends. *)

From S2P Require Import Prelude Utf8 Text Buf Num Dates Value NumText Faults Auth Json JsonBig ExtTypes JsonSpec Protocol Parse Errors Encode ArrayText Decode Mapper Spec Bulk Plans Rest Url Aurora.

(** ** Arrays *)

Section Arrays.
Context (leaf : jstr -> res value) (utc : bool) (delim : Z).

(** What the elements of an array decode to. *)
Fixpoint read (a : ArrayValue) : res (list value) :=
  match a with
  | ANested l =>
    (fix all (l : list ArrayValue) : res (list value) :=
       match l with [] => Ok [] | x :: t => v ← read x; vs ← all t; Ok (VArr v :: vs) end) l
  | AStrings l => mapM (fun s => leaf (utc_text utc s)) l
  | ALongs l => mapM (fun x => leaf (long_text x)) l
  | ADoubles l => mapM (fun x => leaf (num_str x)) l
  | ABooleans l => mapM (fun b : bool => leaf (js (if b then "t" else "f"))) l
  | ANone => Ok []
  end.

(** A text that stands for itself between delimiters. *)
Definition bare_char (c : Z) : Prop := c <> delim /\ c <> 34 /\ c <> 123 /\ c <> 125.
Definition bare_text (s : jstr) : Prop := s <> [] /\ s <> js "NULL" /\ Forall bare_char s.
(** Integers that arrive as texts, numbers and booleans are such texts; they are not written between ';'. *)
Fixpoint well_formed (a : ArrayValue) : Prop :=
  match a with
  | ANested l => (fix all (l : list ArrayValue) : Prop := match l with [] => True | x :: t => well_formed x /\ all t end) l
  | AStrings _ | ANone => True
  | ALongs l => Forall bare_text (long_text <$> l)
  | ADoubles _ | ABooleans _ => delim = 44
  end.

Lemma bare_until s t : Forall bare_char s -> ArrayText.stops delim t -> ArrayText.bare delim (s ++ t) = (s, t).
Proof.
  intros Hs Ht. induction Hs as [|c s (H1 & _ & _ & H2) _ IH].
  - destruct t as [|c t]; [done|]. cbn [app ArrayText.bare]. destruct Ht as [-> | ->]; [by rewrite Z.eqb_refl|by rewrite orb_true_r].
  - cbn [app ArrayText.bare]. destruct (Z.eqb_spec c delim); [done|]. destruct (Z.eqb_spec c 125); [done|]. simpl. by rewrite IH.
Qed.

(** From an element's text the parser gets its value. *)
Definition gives (s : jstr) (y : value) : Prop := forall t, ArrayText.stops delim t -> exists f, forall g, (f <= g)%nat ->
  forall xs r, arr g leaf delim t = Ok (xs, r) -> arr (S g) leaf delim (s ++ t) = Ok (y :: xs, r).
Lemma gives_bare s y : bare_text s -> leaf s = Ok y -> gives s y.
Proof.
  intros (Hne & Hn & Hs) Hl t Ht. exists 0%nat. intros g _ xs r E. pose proof (bare_until s t Hs Ht) as Hb.
  destruct s as [|c s]; [done|]. apply Forall_cons in Hs as [(H1 & H2 & H3 & H4) _]. cbn [app arr] in *.
  destruct (Z.eqb_spec c 125); [done|]. destruct (Z.eqb_spec c delim); [done|]. destruct (Z.eqb_spec c 123); [done|]. destruct (Z.eqb_spec c 34); [done|].
  rewrite Hb, bool_decide_false by done. rewrite Hl. cbn [mbind res_bind]. by rewrite E.
Qed.
Lemma gives_quoted s y : delim <> 34 -> leaf s = Ok y -> gives (34 :: esc_quoted s ++ [34]) y.
Proof.
  intros Hd Hl t Ht. exists 0%nat. intros g _ xs r E. cbn [app arr]. change (34 =? 125) with false. destruct (Z.eqb_spec 34 delim); [done|].
  change (34 =? 123) with false. change (34 =? 34) with true. cbv iota. rewrite <- app_assoc. cbn [app]. rewrite quoted_esc, Hl. cbn [mbind res_bind]. by rewrite E.
Qed.

Lemma existsb_none f (s : jstr) : existsb f s = false -> Forall (fun c => f c = false) s.
Proof. induction s as [|c s IH]; [done|]. cbn [existsb]. intros [H1 H2]%orb_false_iff. constructor; auto. Qed.
Lemma quoteEl_gives s y : (delim = 44 \/ delim = 59) -> leaf s = Ok y -> gives (quoteEl delim s) y.
Proof.
  intros Hd Hl. unfold quoteEl, NEEDS_QUOTE. destruct (bool_decide_reflect (s = [])) as [|Hne]; [apply gives_quoted; [lia|done]|].
  destruct (bool_decide_reflect (lower s = js "null")) as [|Hn]; [apply gives_quoted; [lia|done]|].
  cbn [orb]. destruct (existsb (special_char delim) s) eqn:Es; [apply gives_quoted; [lia|done]|].
  apply gives_bare; [|done]. split; [done|]. split; [by intros ->|]. eapply Forall_impl; [by apply existsb_none|].
  intros c Hc. unfold special_char in Hc. unfold bare_char. cbn [existsb] in Hc.
  repeat split; intros ->; rewrite ?Z.eqb_refl, ?orb_true_r in Hc; done.
Qed.

Lemma stops_join s l : ArrayText.stops delim (match l with [] => [] | _ => delim :: join [delim] l end ++ 125 :: s).
Proof. destruct l; [by right|by left]. Qed.
(** A list of elements and the brace that closes it. *)
Lemma list_gives els ys t : delim <> 125 -> Forall2 gives els ys ->
  exists f, forall g, (f <= g)%nat -> arr g leaf delim (join [delim] els ++ 125 :: t) = Ok (ys, t).
Proof.
  intros Hd F. induction F as [|s y els ys Hs F (f & IH)].
  - exists 1%nat. intros [|g] Hg; [lia|]. cbn. done.
  - set (rest := match els with [] => [] | _ => delim :: join [delim] els end ++ 125 :: t).
    destruct (Hs rest (stops_join t els)) as (f1 & H1). exists (S (S (Nat.max f1 (S f)))). intros g Hg.
    assert (join [delim] (s :: els) ++ 125 :: t = s ++ rest) as -> by (unfold rest; destruct els; [cbn [join]; by rewrite ?app_nil_r|cbn [join app]; by rewrite <- app_assoc]).
    destruct g as [|g]; [lia|]. apply H1; [lia|]. unfold rest. destruct els as [|s2 els].
    + specialize (IH g ltac:(lia)). cbn [join app] in *. done.
    + destruct g as [|g]; [lia|]. specialize (IH g ltac:(lia)). cbn [app arr]. destruct (Z.eqb_spec delim 125); [done|]. rewrite Z.eqb_refl. done.
Qed.

Definition elements (a : ArrayValue) : list jstr :=
  match a with
  | ANested l => (fun x => arrayToLiteral x utc delim) <$> l
  | AStrings l => (fun s => quoteEl delim (utc_text utc s)) <$> l
  | ALongs l => long_text <$> l
  | ADoubles l => num_str <$> l
  | ABooleans l => (fun b : bool => js (if b then "t" else "f")) <$> l
  | ANone => []
  end.
Lemma literal_elements a : arrayToLiteral a utc delim = 123 :: join [delim] (elements a) ++ [125].
Proof. by destruct a. Qed.
Lemma braces_give els ys : delim <> 125 -> delim <> 123 -> Forall2 gives els ys -> gives (123 :: join [delim] els ++ [125]) (VArr ys).
Proof.
  intros H1 H2 F t Ht. destruct (list_gives els ys t H1 F) as (f & Hf). exists f. intros g Hg xs r E.
  cbn [app arr]. change (123 =? 125) with false. destruct (Z.eqb_spec 123 delim); [done|]. change (123 =? 123) with true. cbv iota.
  rewrite <- app_assoc. cbn [app]. rewrite (Hf g Hg). cbn [mbind res_bind]. by rewrite E.
Qed.

Section Ind.
Context (P : ArrayValue -> Prop) (Hn : forall l, Forall P l -> P (ANested l)) (Ho : forall a, (forall l, a <> ANested l) -> P a).
Fixpoint array_ind (a : ArrayValue) : P a :=
  match a with
  | ANested l => Hn l ((fix all (l : list ArrayValue) : Forall P l :=
      match l with [] => Forall_nil_2 P | x :: t => Forall_cons_2 P x t (array_ind x) (all t) end) l)
  | AStrings l => Ho (AStrings l) (fun _ E => eq_ind (AStrings l) (fun a => match a with ANested _ => False | _ => True end) I _ E)
  | ALongs l => Ho (ALongs l) (fun _ E => eq_ind (ALongs l) (fun a => match a with ANested _ => False | _ => True end) I _ E)
  | ADoubles l => Ho (ADoubles l) (fun _ E => eq_ind (ADoubles l) (fun a => match a with ANested _ => False | _ => True end) I _ E)
  | ABooleans l => Ho (ABooleans l) (fun _ E => eq_ind (ABooleans l) (fun a => match a with ANested _ => False | _ => True end) I _ E)
  | ANone => Ho ANone (fun _ E => eq_ind ANone (fun a => match a with ANested _ => False | _ => True end) I _ E)
  end.
End Ind.

Lemma mapM_gives {A} (f : A -> jstr) (h : A -> jstr) l ys : (forall x y, x ∈ l -> leaf (f x) = Ok y -> gives (h x) y) ->
  mapM (fun x => leaf (f x)) l = Ok ys -> Forall2 gives (h <$> l) ys.
Proof.
  revert ys. induction l as [|x l IH]; intros ys Hh E; cbn [mapM] in E; [injection E as <-; constructor|].
  apply bind_res_Ok_inv in E as (y & Ey & E). apply bind_res_Ok_inv in E as (ys' & Eys & E). injection E as <-. rewrite fmap_cons.
  constructor; [apply Hh; [by left|done]|]. apply IH; [|done]. intros x' y' Hx. apply Hh. by right.
Qed.
Lemma num_str_bare_44 x : delim = 44 -> bare_text (num_str x).
Proof.
  intros Hd. destruct (num_str_bare x) as [Hne Hn]. split; [done|]. split; [done|]. eapply Forall_impl; [apply num_str_plain|].
  intros c Hc. unfold plain in Hc. unfold bare_char. lia.
Qed.
Lemma elements_give a : (delim = 44 \/ delim = 59) -> forall ys, well_formed a -> read a = Ok ys -> Forall2 gives (elements a) ys.
Proof.
  intros Hd. induction a as [l IH|a Hn] using array_ind; intros ys Hw Hr.
  - cbn [elements]. revert ys Hw Hr. induction IH as [|x l Hx _ IHl]; intros ys Hw Hr; [injection Hr as <-; constructor|].
    cbn in Hw. destruct Hw as [Hwx Hw]. cbn [read] in Hr. apply bind_res_Ok_inv in Hr as (v & Ev & Hr). apply bind_res_Ok_inv in Hr as (vs & Evs & Hr).
    injection Hr as <-. rewrite fmap_cons. constructor; [|by apply IHl]. rewrite literal_elements. apply braces_give; [lia|lia|by apply Hx].
  - destruct a as [l|l|l|l|l|]; [by destruct (Hn l)|..]; cbn [elements read well_formed] in *.
    + apply (mapM_gives (utc_text utc) (fun s => quoteEl delim (utc_text utc s))); [|done]. intros s y _ E. by apply quoteEl_gives.
    + apply (mapM_gives long_text long_text); [|done]. intros x y Hx E. apply gives_bare; [|done]. rewrite Forall_forall in Hw. apply Hw, list_elem_of_fmap_2, Hx.
    + apply (mapM_gives num_str num_str); [|done]. intros x y _ E. apply gives_bare; [by apply num_str_bare_44|done].
    + apply (mapM_gives (fun b : bool => js (if b then "t" else "f")) (fun b : bool => js (if b then "t" else "f"))); [|done].
      intros b y _ E. apply gives_bare; [|done].
      destruct b; [change (js "t") with [116]|change (js "f") with [102]]; (split; [done|]; split; [done|]; apply Forall_cons_2; [unfold bare_char; lia|by apply Forall_nil_2]).
    + injection Hr as <-. constructor.
Qed.

(** The array parser reads from the literal of a typed list the elements of that list, nested dimensions,
    empty texts, NULL as a text, quotes, backslashes, braces and white space included, for both delimiters. *)
Theorem aurora_array_reads_back a ys : (forall x, leaf x <> NoFuel) -> (delim = 44 \/ delim = 59) -> well_formed a ->
  read a = Ok ys -> parseArrayLiteral leaf delim (arrayToLiteral a utc delim) = Ok ys.
Proof.
  intros Hl Hd Hw Hr. destruct (list_gives _ _ [] ltac:(lia) (elements_give a Hd ys Hw Hr)) as (f & Hf).
  unfold parseArrayLiteral. rewrite literal_elements. cbn [skip_dims]. change (123 =? 91) with false. cbv iota. cbn [tail].
  set (body := join [delim] (elements a) ++ [125]) in *. pose proof (arr_total leaf delim Hl (S (length (123 :: body))) body ltac:(simpl; lia)) as Ht.
  specialize (Hf (Nat.max f (S (length (123 :: body)))) ltac:(lia)). fold body in Hf.
  destruct (arr (S (length (123 :: body))) leaf delim body) as [p|e|] eqn:E; [| |done].
  - rewrite (arr_mono _ _ _ _ _ E) in Hf by (done || lia). injection Hf as ->. done.
  - rewrite (arr_mono _ _ _ _ _ E) in Hf by (done || lia). done.
Qed.
End Arrays.

Definition text_of_leaf : jstr -> res value := fun s => Ok (VStr s).
Definition demo_array : ArrayValue :=
  ANested [AStrings [js "a,b"; []; js "null"; [34; 92; 125]]; AStrings [js "2024-01-05 10:00:00"; js "x"; js "infinity"; js "y z"]].
Lemma aurora_array_reads_back_witness :
  parseArrayLiteral text_of_leaf 44 (arrayToLiteral demo_array true 44)
  = Ok [VArr (VStr <$> [js "a,b"; []; js "null"; [34; 92; 125]]); VArr (VStr <$> [js "2024-01-05 10:00:00+00"; js "x"; js "infinity"; js "y z"])].
Proof. apply aurora_array_reads_back; [done|by left|done|]. vm_compute. reflexivity. Defined.

(** ** Transactions *)

Section Transactions.
Context {T E : Type} `{Env} (cfg : AuroraConfig) (fetch : Request -> T -> T * (E + Aurora.Reply)).
Abbreviation proc := (Aurora.proc (T := T) (E := E)).
Abbreviation failure := (aws_error (E := E)).
Abbreviation world := (Aurora.World (T := T)).

(** A callback: what it calls on the client it is given, and what it does with the answers. *)
Inductive Script :=
| SDone (r : failure + value)
| SQuery (sql : jstr) (params : list Param) (mode : option Rest.ResultMode) (shape : Aurora.Shape) (k : failure + AuroraResult -> Script)
| SBatch (sql : jstr) (sets : list (list Param)) (k : failure + value -> Script)
| SBegin (o : option Aurora.TxOptions) (body : Script) (k : failure + value -> Script).
Fixpoint run (s : Script) (c : Aurora.Client) : proc value :=
  match s with
  | SDone (inr v) => mret v
  | SDone (inl e) => Aurora.raise e
  | SQuery q ps mode shape k => r ← Aurora.attempt (Aurora.query cfg fetch c q ps mode shape); run (k r) c
  | SBatch q sets k => r ← Aurora.attempt (Aurora.batch cfg fetch c q sets); run (k r) c
  | SBegin o body k => r ← Aurora.attempt (Aurora.runTx cfg fetch c o (run body)); run (k r) c
  end.

(** The requests that a program sends. *)
Definition sends (P : Request -> Prop) {A} (p : proc A) : Prop :=
  forall w w' r, p w = (w', r) -> exists l, sent w' = sent w ++ l /\ Forall P l.
Lemma sends_ret P {A} (a : A) : sends P (mret a : proc A).
Proof. intros w w' r [= <- <-]. exists []. by rewrite app_nil_r. Qed.
Lemma sends_bind P {A B} (p : proc A) (f : A -> proc B) : sends P p -> (forall a, sends P (f a)) -> sends P (x ← p; f x).
Proof.
  intros Hp Hf w w' r Er. unfold mbind, Aurora.proc_bind in Er. destruct (p w) as [w1 [e|a]] eqn:E1.
  - injection Er as <- <-. by eapply Hp.
  - destruct (Hp _ _ _ E1) as (l1 & H1 & F1). destruct (Hf a _ _ _ Er) as (l2 & H2 & F2). exists (l1 ++ l2). rewrite H2, H1, app_assoc. split; [done|]. by apply Forall_app.
Qed.
Lemma sends_map P {A B C} (p : proc A) (h : A -> B) (f : B -> proc C) : sends P p -> (forall a, sends P (f (h a))) -> sends P (x ← (a ← p; mret (h a)); f x).
Proof.
  intros Hp Hf. assert (forall w, (x ← (a ← p; mret (h a)); f x) w = (a ← p; f (h a)) w) as Heq.
  { intros w. unfold mbind, Aurora.proc_bind. by destruct (p w) as [w1 [e|a]]. }
  intros w w' r Er. rewrite Heq in Er. revert Er. by apply sends_bind.
Qed.
Lemma sends_attempt P {A} (p : proc A) : sends P p -> sends P (Aurora.attempt p).
Proof. intros Hp w w' r Er. unfold Aurora.attempt in Er. destruct (p w) as [w1 r1] eqn:E1. injection Er as <- <-. by eapply Hp. Qed.
Lemma sends_raise P {A} e : sends P (Aurora.raise e : proc A).
Proof. intros w w' r [= <- <-]. exists []. by rewrite app_nil_r. Qed.
Lemma sends_lift P {A} (o : out A) : sends P (Aurora.lift o : proc A).
Proof. intros w w' r [= <- <-]. exists []. by rewrite app_nil_r. Qed.
Lemma sends_send (P : Request -> Prop) q : P q -> sends P (Aurora.send fetch q : proc _).
Proof. intros Hq w w' r Er. unfold Aurora.send in Er. destruct (fetch q (srv w)). injection Er as <- <-. exists [q]. split; [done|]. by apply Forall_cons_2. Qed.
Lemma sends_bump P cell : sends P (bump cell : proc _).
Proof. intros w w' r [= <- <-]. exists []. by rewrite app_nil_r. Qed.
Lemma sends_new P : sends P (new_counter : proc _).
Proof. intros w w' r [= <- <-]. exists []. by rewrite app_nil_r. Qed.
Lemma sends_loop (P : Request -> Prop) n q : P q -> sends P (call_loop fetch n q : proc _).
Proof.
  intros Hq. induction n as [|n IH]; cbn [call_loop]; (apply sends_bind; [by apply sends_send|]); intros r; (destruct (y_ok r); [apply sends_lift|]).
  - apply sends_raise.
  - destruct (retryable _ _); [done|apply sends_raise].
Qed.
Lemma sends_call (P : Request -> Prop) op body : P (mkRequest (js op) body) -> sends P (Aurora.call cfg fetch op body : proc _).
Proof. intros Hq. unfold Aurora.call. apply sends_bind; [apply sends_lift|]. intros _. by apply sends_loop. Qed.

(** A statement of the transaction [id]. *)
Definition inside (id : jstr) (q : Request) : Prop :=
  (q_op q = js "Execute" \/ q_op q = js "BatchExecute") /\ own "transactionId" (q_body q) = VStr id.
Lemma sends_query id cell sql ps mode shape : sends (inside id) (Aurora.query cfg fetch (Some (id, cell)) sql ps mode shape : proc _).
Proof.
  unfold Aurora.query. apply sends_bind; [destruct (TX_SQL sql); [apply sends_lift|apply sends_ret]|]. intros _.
  assert (forall l : obj, l = [] \/ (exists v, l = [(js "parameters", v)]) ->
    sends (inside id) (r ← Aurora.call cfg fetch "Execute" (base cfg ++ [(js "sql", VStr sql)] ++ l
        ++ [(js "includeResultMetadata", VBool true); (js "resultSetOptions", RESULT_SET_OPTIONS)] ++ tx_member (Some (id, cell)));
      st ← Aurora.lift (typed (statement_of r));
      Aurora.lift (decodeResult cfg st sql (match mode with Some m => m | None => match shape with Some _ => RObject | None => RArray end end) shape) : proc _)) as G.
  { intros l Hl. apply sends_bind; [|intros v; apply sends_bind; [apply sends_lift|intros st; apply sends_lift]]. apply sends_call.
    split; [by left|]. unfold base. destruct (u_database cfg) as [[|]|]; destruct Hl as [-> | (v & ->)]; reflexivity. }
  destruct ps as [|p ps].
  - apply (G []). by left.
  - apply sends_map; [apply sends_lift|]. intros l. apply G. right. by eexists.
Qed.
Lemma sends_batch id cell sql sets : sends (inside id) (Aurora.batch cfg fetch (Some (id, cell)) sql sets : proc _).
Proof.
  unfold Aurora.batch. apply sends_bind; [destruct (TX_SQL sql); [apply sends_lift|apply sends_ret]|]. intros _.
  apply sends_bind; [apply sends_lift|]. intros l. apply sends_call. split; [by right|]. unfold base. by destruct (u_database cfg) as [[|]|].
Qed.
Lemma sends_command id cell sql : sends (inside id) (Aurora.command cfg fetch (Some (id, cell)) sql : proc _).
Proof. apply sends_bind; [apply sends_query|]. intros _. apply sends_ret. Qed.
Lemma sends_keep P {A} (fn : proc A) keep undo : sends P fn -> sends P keep -> sends P undo -> sends P (Aurora.keep_or_undo fn keep undo).
Proof.
  intros H1 H2 H3. unfold Aurora.keep_or_undo. apply sends_bind.
  - apply sends_attempt, sends_bind; [done|]. intros a. apply sends_bind; [done|]. intros _. apply sends_ret.
  - intros [e|a]; [|apply sends_ret]. apply sends_bind; [by apply sends_attempt|]. intros _. apply sends_raise.
Qed.
(** A callback sends only statements of the transaction it runs in, nested begin()s included. *)
Lemma sends_run id cell s : sends (inside id) (run s (Some (id, cell))).
Proof.
  induction s as [[e|v]|q ps mode shape k IH|q sets k IH|o body IHb k IH]; cbn [run].
  - apply sends_raise.
  - apply sends_ret.
  - apply sends_bind; [apply sends_attempt, sends_query|]. intros r. apply IH.
  - apply sends_bind; [apply sends_attempt, sends_batch|]. intros r. apply IH.
  - apply sends_bind; [apply sends_attempt|]; [|intros r; apply IH]. unfold Aurora.runTx. apply sends_bind; [apply sends_bump|]. intros n.
    apply sends_bind; [apply sends_command|]. intros _. apply sends_keep; [done|apply sends_command|].
    apply sends_bind; [apply sends_command|]. intros _. apply sends_command.
Qed.

(** A call is sent at least once, and at most once more than there are retries. *)
Lemma call_loop_sent n q w w' r : call_loop fetch n q w = (w', r) ->
  exists k, sent w' = sent w ++ replicate (S k) q /\ (k <= n)%nat.
Proof.
  revert w w' r. induction n as [|n IH]; intros w w' r; cbn [call_loop]; unfold mbind, Aurora.proc_bind, Aurora.send; destruct (fetch q (srv w)) as [t [e|y]].
  - intros [= <- <-]. by exists 0%nat.
  - destruct (y_ok y); intros [= <- <-]; by exists 0%nat.
  - intros [= <- <-]. exists 0%nat. split; [done|lia].
  - destruct (y_ok y); [intros [= <- <-]; exists 0%nat; split; [done|lia]|]. destruct (retryable _ _).
    + intros (k & Hs & Hk)%IH. exists (S k). split; [|lia]. rewrite Hs. cbn [sent replicate]. by rewrite <- app_assoc.
    + intros [= <- <-]. exists 0%nat. split; [done|lia].
Qed.
Lemma end_tx_sent op id w w' r : end_tx cfg fetch op id w = (w', r) ->
  exists k, sent w' = sent w ++ replicate (S k) (mkRequest (js op) (arns cfg ++ [(js "transactionId", VStr id)])).
Proof.
  unfold end_tx, Aurora.call. intros Er. unfold mbind, Aurora.proc_bind in Er. cbn [Aurora.lift] in Er.
  destruct (of_res (stringify (VObj (arns cfg ++ [(js "transactionId", VStr id)])))) as [e|o] eqn:Es; [done|].
  destruct (call_loop _ _ _ w) as [w1 [e|v]] eqn:Ec; apply call_loop_sent in Ec as (k & Hs & _); injection Er as <- <-; by exists k.
Qed.

Definition commit_of (id : jstr) : Request := mkRequest (js "CommitTransaction") (arns cfg ++ [(js "transactionId", VStr id)]).
Definition rollback_of (id : jstr) : Request := mkRequest (js "RollbackTransaction") (arns cfg ++ [(js "transactionId", VStr id)]).
Definition begin_of : Request := mkRequest (js "BeginTransaction") (base cfg).

Lemma keep_or_undo_sent id fn w w' r : sends (inside id) (fn : proc value) ->
  Aurora.keep_or_undo fn (end_tx cfg fetch "CommitTransaction" id) (end_tx cfg fetch "RollbackTransaction" id) w = (w', r) ->
  exists work ends, sent w' = sent w ++ work ++ ends /\ Forall (inside id) work /\
    match r with
    | inr _ => exists k, ends = replicate (S k) (commit_of id)
    | inl _ => exists j k, ends = replicate j (commit_of id) ++ replicate (S k) (rollback_of id)
    end.
Proof.
  intros Hfn Er. unfold Aurora.keep_or_undo, Aurora.attempt, mbind, Aurora.proc_bind in Er. destruct (fn w) as [w1 [e|a]] eqn:E1.
  - destruct (Hfn _ _ _ E1) as (work & Hs & Hw). destruct (end_tx cfg fetch "RollbackTransaction" id w1) as [w2 r2] eqn:E2.
    apply end_tx_sent in E2 as (k & H2). injection Er as <- <-. exists work, (replicate (S k) (rollback_of id)). rewrite H2, Hs, <- app_assoc.
    split; [done|]. split; [done|]. by exists 0%nat, k.
  - destruct (Hfn _ _ _ E1) as (work & Hs & Hw). destruct (end_tx cfg fetch "CommitTransaction" id w1) as [w2 [e|u]] eqn:E2; apply end_tx_sent in E2 as (j & H2).
    + destruct (end_tx cfg fetch "RollbackTransaction" id w2) as [w3 r3] eqn:E3. apply end_tx_sent in E3 as (k & H3). injection Er as <- <-.
      exists work, (replicate (S j) (commit_of id) ++ replicate (S k) (rollback_of id)). rewrite H3, H2, Hs, <- !app_assoc. split; [done|]. split; [done|]. by exists (S j), k.
    + injection Er as <- <-. exists work, (replicate (S j) (commit_of id)). rewrite H2, Hs, <- app_assoc. split; [done|]. split; [done|]. by exists j.
Qed.

End Transactions.

(** ** A service that answers from a list *)

Definition aurora_env : Env :=
  {| reg := Registry.init; user_decoder := fun _ b => Ok (VBuf b); jsonSourceSupported := true; Date_parse := fun _ => None |}.
#[local] Existing Instance aurora_env.
Definition aurora_cfg : AuroraConfig := mkAuroraConfig (js "arn:c") (js "arn:s") (Some (js "db")) 5 false defaultDecoders jitMapper.
Definition answer_next (_ : Request) (l : list Aurora.Reply) : list Aurora.Reply * (unit + Aurora.Reply) :=
  match l with r :: t => (t, inr r) | [] => ([], inl tt) end.
Definition json (s : string) : jstr := (fun c => if c =? 39 then 34 else c) <$> js s.
Definition answered (s : string) : Aurora.Reply := Aurora.mkReply true 200 (js "OK") None (json s).
Definition throttled : Aurora.Reply := Aurora.mkReply false 400 (js "Bad Request") (Some (js "ThrottlingException:http://x")) (json "{'message':'Rate exceeded'}").
Definition refused : Aurora.Reply :=
  Aurora.mkReply false 400 (js "Bad Request") (Some (js "DatabaseErrorException")) (json "{'message':'ERROR: unrecognized mode'}").
Definition two_statements : Script (E := unit) :=
  SQuery (js "insert into t values (1)") [] None None (fun _ =>
    SBegin None (SQuery (js "select 1") [] None None (fun r => SDone (match r with inl e => inl e | inr _ => inr VNull end))) (fun r => SDone r)).
Definition begun : Aurora.Reply := answered "{'transactionId':'t1'}".
Definition start_world (l : list Aurora.Reply) : Aurora.World := mkWorld l [] [].
Definition nothing : Aurora.Reply := answered "{'numberOfRecordsUpdated':0}".
Definition committed : Aurora.Reply := answered "{'transactionStatus':'Transaction Committed'}".


(** The options are refused: nothing ends the transaction that was begun. *)
Example leaked_transaction :
  let p := Aurora.runTx aurora_cfg answer_next None (Some (Aurora.TxText (js "sometimes"))) (run aurora_cfg answer_next two_statements) (start_world [begun; refused]) in
  (q_op <$> sent p.1, match p.2 with inl (AwsPg m _) => Some m | _ => None end)
  = (js <$> ["BeginTransaction"; "Execute"]%string, Some (js "unrecognized mode")).
Proof. vm_compute. reflexivity. Qed.
