(* ===== verification/Sigv4.v ===== *)
(** * AWS request signing (src/sigv4.ts)

    The canonical request, the derived key and the header set of Signature Version 4. The hash and the MAC
    are those of the class [Crypto]; the WHATWG URL is a parameter. Objects of headers are their own
    properties in order. *)

From stdpp Require Import sorting.
From S2P Require Import Prelude Utf8 Text Buf Num Dates Value NumText Auth Json JsonBig JsonSpec Protocol Spec Url.

(** Keys in the order of Array.prototype.sort(), which is stable. *)
Fixpoint insert_by {A} (key : A -> jstr) (x : A) (l : list A) : list A :=
  match l with
  | [] => [x]
  | y :: t => match buf_compare (key x) (key y) with Gt => y :: insert_by key x t | _ => x :: l end
  end.
Definition sort_by {A} (key : A -> jstr) (l : list A) : list A := foldr (insert_by key) [] l.

Record AwsCredentials := mkCredentials { accessKeyId : jstr; secretAccessKey : jstr; sessionToken : option jstr }.
Definition Headers : Type := list (jstr * jstr).
Record SigV4Input := mkSigV4 {
  i_method : jstr; i_path : jstr; i_query : jstr; i_headers : Headers; i_body : jstr; i_service : jstr; i_region : jstr;
  i_credentials : AwsCredentials; i_amzDate : jstr }.

(** toISOString().replace(/[:-]|\.\d{3}/g, '') *)
Fixpoint strip_marks (s : jstr) : jstr :=
  match s with
  | c :: t =>
    if (c =? 58) || (c =? 45) then strip_marks t
    else match t with
         | x :: y :: z :: r => if (c =? 46) && is_digit x && is_digit y && is_digit z then strip_marks r else c :: strip_marks t
         | _ => c :: strip_marks t
         end
  | [] => []
  end.
Definition amzDateNow (now : Z) : jstr := strip_marks (iso now).

(** o[k] = v *)
Definition put (k v : jstr) (h : Headers) : Headers :=
  if existsb (fun p => bool_decide (p.1 = k)) h then (fun p => if bool_decide (p.1 = k) then (k, v) else p) <$> h else h ++ [(k, v)].
Definition value_of (k : jstr) (h : Headers) : jstr := default [] (snd <$> List.find (fun p => bool_decide (p.1 = k)) h).
(** trim().replace(/\s+/g, ' ') *)
Fixpoint one_space (in_run : bool) (s : jstr) : jstr :=
  match s with
  | [] => []
  | c :: t => if StrWhiteSpace c then if in_run then one_space true t else 32 :: one_space true t else c :: one_space false t
  end.
Definition lower_names (h : Headers) : Headers := foldl (fun o p => put (toLowerCase p.1) p.2 o) [] h.
(** One pair of the query. *)
Definition query_pair (p : jstr) : res (jstr * jstr) :=
  let '(k, r) := span (fun c => negb (c =? 61)) p in
  dk ← decodeURIComponent k; ek ← encodeURIComponent dk;
  dv ← decodeURIComponent (tl r); ev ← encodeURIComponent dv;
  Ok (ek, ev).
Definition canonical_query (q : jstr) : res jstr :=
  match q with
  | [] => Ok []
  | _ => l ← mapM query_pair (split 38 q []); Ok (join [38] ((fun p : jstr * jstr => p.1 ++ 61 :: p.2) <$> sort_by fst l))
  end.

Section Signing.
Context `{Crypto}.

Definition sha256Hex (s : jstr) : jstr := hex (createHash "sha256" (utf8 s)).
Definition hmac (key : bytes) (data : jstr) : bytes := createHmac key (utf8 data).
Definition signingKey (secret date region service : jstr) : bytes :=
  hmac (hmac (hmac (hmac (utf8 (js "AWS4" ++ secret)) date) region) service) (js "aws4_request").

Record Signed := mkSigned { authorization : jstr; signature : jstr; canonicalHash : jstr; signedHeaders : jstr }.
Definition signV4 (i : SigV4Input) : res Signed :=
  let date := take 8 (i_amzDate i) in
  let lc := lower_names (i_headers i) in
  let names := sort_by id (fst <$> lc) in
  let canonicalHeaders := concat ((fun n => n ++ 58 :: one_space false (trim (value_of n lc)) ++ [10]) <$> names) in
  let signedHeaders := join [59] names in
  q ← canonical_query (i_query i);
  let canonicalRequest := join [10] [i_method i; match i_path i with [] => [47] | p => p end; q; canonicalHeaders; signedHeaders; sha256Hex (i_body i)] in
  let canonicalHash := sha256Hex canonicalRequest in
  let scope := date ++ 47 :: i_region i ++ 47 :: i_service i ++ js "/aws4_request" in
  let stringToSign := join [10] [js "AWS4-HMAC-SHA256"; i_amzDate i; scope; canonicalHash] in
  let signature := hex (hmac (signingKey (secretAccessKey (i_credentials i)) date (i_region i) (i_service i)) stringToSign) in
  Ok (mkSigned (js "AWS4-HMAC-SHA256 Credential=" ++ accessKeyId (i_credentials i) ++ 47 :: scope ++ js ", SignedHeaders=" ++ signedHeaders
                ++ js ", Signature=" ++ signature) signature canonicalHash signedHeaders).

(** The parts of a request's URL. *)
Record Location := mkLocation { l_host : jstr; l_pathname : jstr; l_search : jstr }.
Definition strip_mark (s : jstr) : jstr := match s with 63 :: t => t | _ => s end.
Definition signRequest (u : Location) (method body service region : jstr) (c : AwsCredentials) (headers : Headers) (date : jstr) : res Headers :=
  let payloadHash := sha256Hex body in
  let with_token (k : jstr) (h : Headers) := match given (sessionToken c) with Some t => put k t h | None => h end in
  let toSign := with_token (js "x-amz-security-token")
    (put (js "x-amz-content-sha256") payloadHash (put (js "x-amz-date") date (put (js "host") (l_host u) headers))) in
  s ← signV4 (mkSigV4 method (l_pathname u) (strip_mark (l_search u)) toSign body service region c date);
  Ok (with_token (js "X-Amz-Security-Token")
    (put (js "Authorization") (authorization s) (put (js "X-Amz-Content-Sha256") payloadHash (put (js "X-Amz-Date") date headers)))).
End Signing.

(** ** What the service recomputes *)

Ltac decided := apply (bool_decide_unpack _); vm_compute; exact I.

Section Sorted.
Context {A : Type} (key : A -> jstr).
Lemma insert_by_perm x l : insert_by key x l ≡ₚ x :: l.
Proof. induction l as [|y t IH]; [done|]. cbn [insert_by]. destruct (buf_compare _ _); [done|done|]. rewrite IH. constructor. Qed.
Lemma sort_by_perm l : sort_by key l ≡ₚ l.
Proof. induction l as [|x l IH]; [done|]. cbn [sort_by foldr]. fold (sort_by key l). by rewrite insert_by_perm, IH. Qed.
End Sorted.

Lemma buf_compare_refl a : buf_compare a a = Eq.
Proof. induction a as [|x a IH]; [done|]. cbn [buf_compare]. by rewrite Z.compare_refl. Qed.
Definition before (a b : jstr) : Prop := buf_compare a b <> Gt.
#[global] Instance before_trans : Transitive before.
Proof. intros a b c. apply buf_compare_trans. Qed.
#[global] Instance before_anti : AntiSymm (=) before.
Proof.
  intros a b H1 H2. unfold before in *. rewrite buf_compare_antisym in H2. destruct (buf_compare a b) eqn:E; [by apply buf_compare_eq|done|done].
Qed.
Lemma insert_by_sorted x l : StronglySorted before l -> StronglySorted before (insert_by id x l).
Proof.
  induction 1 as [|y t Ht IH Hy]; [by repeat constructor|]. cbn [insert_by]. unfold id.
  destruct (buf_compare x y) eqn:E.
  1,2: constructor; [by constructor|]; assert (before x y) by (unfold before; by rewrite E);
    constructor; [done|]; eapply Forall_impl; [exact Hy|]; intros z Hz; by transitivity y.
  constructor; [done|]. rewrite Forall_forall in *. intros z. rewrite insert_by_perm, elem_of_cons. intros [->|]; [|auto].
  unfold before. by rewrite buf_compare_antisym, E.
Qed.
Lemma sort_by_sorted l : StronglySorted before (sort_by id l).
Proof. induction l as [|x l IH]; [constructor|]. by apply insert_by_sorted. Qed.
#[global] Instance sort_by_proper : Proper ((≡ₚ) ==> (=)) (sort_by (A := jstr) id).
Proof.
  intros l1 l2 Hl. apply (StronglySorted_unique before); [apply sort_by_sorted..|]. by rewrite !sort_by_perm.
Qed.

Definition lowered (h : Headers) : Headers := (fun p : jstr * jstr => (toLowerCase p.1, p.2)) <$> h.
Lemma put_new k v h : k ∉ h.*1 -> put k v h = h ++ [(k, v)].
Proof.
  intros Hk. unfold put. destruct (existsb _ h) eqn:Ex; [|done]. apply existsb_exists in Ex as ((k', v') & Hin & E).
  apply bool_decide_eq_true in E. cbn in E. subst k'. destruct Hk. apply list_elem_of_fmap. exists (k, v'). split; [done|]. by apply list_elem_of_In.
Qed.
Lemma lowered_names h : (lowered h).*1 = toLowerCase <$> h.*1.
Proof. unfold lowered. by rewrite <- !list_fmap_compose. Qed.
Lemma lower_names_lowered h : NoDup (lowered h).*1 -> lower_names h = lowered h.
Proof.
  unfold lower_names. induction h as [|[k v] h IH] using rev_ind; [done|]. unfold lowered. rewrite fmap_app, foldl_app. cbn [fmap list_fmap].
  fold (lowered h). rewrite fmap_app. intros (H1 & H2 & _)%NoDup_app. rewrite IH by done. apply put_new.
  intros Hk. apply (H2 _ Hk). by left.
Qed.
Lemma value_of_map k h : value_of k h = default [] ((list_to_map h : gmap jstr jstr) !! k).
Proof.
  unfold value_of. f_equal. induction h as [|[k' v] h IH]; [done|]. cbn [List.find list_to_map foldr fst snd uncurry].
  destruct (bool_decide_reflect (k' = k)) as [->|Hk]; [by rewrite lookup_insert_eq|]. by rewrite lookup_insert_ne.
Qed.
Lemma value_of_perm k h1 h2 : NoDup h1.*1 -> h1 ≡ₚ h2 -> value_of k h1 = value_of k h2.
Proof. intros Hn Hp. rewrite !value_of_map. by rewrite (list_to_map_proper _ _ Hn Hp). Qed.

(** The service: the request's path and query, the headers it received, those among them that the Authorization
    header names, its own copy of the secret. *)
Section Service.
Context `{Crypto}.

Definition named (names : list jstr) (h : Headers) : Headers := List.filter (fun p => bool_decide (toLowerCase p.1 ∈ names)) h.
Definition recompute (u : Location) (method body service region : jstr) (c : AwsCredentials) (signed : list jstr) (date : jstr) (received : Headers) : res Signed :=
  signV4 (mkSigV4 method (l_pathname u) (strip_mark (l_search u)) (named signed received) body service region c date).

Lemma signV4_perm i h : NoDup (lowered (i_headers i)).*1 -> lowered (i_headers i) ≡ₚ lowered h ->
  signV4 i = signV4 (mkSigV4 (i_method i) (i_path i) (i_query i) h (i_body i) (i_service i) (i_region i) (i_credentials i) (i_amzDate i)).
Proof.
  intros Hn Hp. assert (NoDup (lowered h).*1) as Hn2 by (by rewrite <- Hp). unfold signV4. cbn [i_method i_path i_query i_headers i_body i_service i_region i_credentials i_amzDate].
  rewrite !lower_names_lowered by done. set (l1 := lowered (i_headers i)) in *. set (l2 := lowered h) in *.
  assert (sort_by id l1.*1 = sort_by id l2.*1) as -> by (by rewrite Hp).
  assert (forall l, concat ((fun n => n ++ 58 :: one_space false (trim (value_of n l1)) ++ [10]) <$> l)
                  = concat ((fun n => n ++ 58 :: one_space false (trim (value_of n l2)) ++ [10]) <$> l)) as Hc.
  { intros l. f_equal. apply list_fmap_ext. intros _ n _. by rewrite (value_of_perm n l1 l2). }
  by rewrite Hc.
Qed.
Definition reserved : list jstr := js <$> ["host"; "x-amz-date"; "x-amz-content-sha256"; "x-amz-security-token"; "authorization"]%string.
Definition token_header (name : jstr) (c : AwsCredentials) : Headers := match given (sessionToken c) with Some t => [(name, t)] | None => [] end.
Definition signed_headers (u : Location) (body : jstr) (c : AwsCredentials) (headers : Headers) (date : jstr) : Headers :=
  headers ++ [(js "host", l_host u); (js "x-amz-date", date); (js "x-amz-content-sha256", sha256Hex body)] ++ token_header (js "x-amz-security-token") c.
Definition sent_headers (body : jstr) (c : AwsCredentials) (headers : Headers) (date auth : jstr) : Headers :=
  headers ++ [(js "X-Amz-Date", date); (js "X-Amz-Content-Sha256", sha256Hex body); (js "Authorization", auth)] ++ token_header (js "X-Amz-Security-Token") c.

Section Request.
Context (u : Location) (method body service region : jstr) (c : AwsCredentials) (headers : Headers) (date : jstr).
Context (Hd : NoDup (lowered headers).*1) (Hr : Forall (fun n => n ∉ reserved) (lowered headers).*1).

Lemma not_given k : toLowerCase k ∈ reserved -> k ∉ headers.*1.
Proof.
  intros Hk Hin. rewrite Forall_forall in Hr. apply (Hr (toLowerCase k)); [|done]. rewrite lowered_names. by apply list_elem_of_fmap_2.
Qed.
Lemma put_first k v : toLowerCase k ∈ reserved -> put k v headers = headers ++ [(k, v)].
Proof. intros Hk. apply put_new. by apply not_given. Qed.
Lemma put_reserved k v h : toLowerCase k ∈ reserved -> k ∉ h.*1 -> put k v (headers ++ h) = headers ++ (h ++ [(k, v)]).
Proof. intros Hk Hh. rewrite put_new, app_assoc; [done|]. rewrite fmap_app, elem_of_app. intros [?|?]; [by apply (not_given k)|done]. Qed.
Lemma signRequest_unfold : signRequest u method body service region c headers date =
  s ← signV4 (mkSigV4 method (l_pathname u) (strip_mark (l_search u)) (signed_headers u body c headers date) body service region c date);
  Ok (sent_headers body c headers date (authorization s)).
Proof.
  unfold signRequest, signed_headers, sent_headers, token_header.
  destruct (given (sessionToken c)) as [t|]; rewrite !put_first by decided; rewrite !put_reserved by decided; cbn [app];
    (destruct (signV4 _) as [s| |]; [|done|done]); cbn [mbind res_bind]; by rewrite !put_reserved by decided.
Qed.
Lemma signed_lowered : lowered (signed_headers u body c headers date)
  = lowered headers ++ [(js "host", l_host u); (js "x-amz-date", date); (js "x-amz-content-sha256", sha256Hex body)] ++ token_header (js "x-amz-security-token") c.
Proof. unfold signed_headers, token_header, lowered. rewrite fmap_app. f_equal. by destruct (given (sessionToken c)). Qed.
Lemma signed_distinct : NoDup (lowered (signed_headers u body c headers date)).*1.
Proof.
  rewrite signed_lowered, fmap_app. apply NoDup_app. split; [done|]. rewrite Forall_forall in Hr.
  assert (forall l, l = given (sessionToken c) -> NoDup (([(js "host", l_host u); (js "x-amz-date", date); (js "x-amz-content-sha256", sha256Hex body)]
    ++ match l with Some t => [(js "x-amz-security-token", t)] | None => [] end).*1) /\
    (([(js "host", l_host u); (js "x-amz-date", date); (js "x-amz-content-sha256", sha256Hex body)]
    ++ match l with Some t => [(js "x-amz-security-token", t)] | None => [] end).*1 ⊆ reserved)) as Hk.
  { intros [t|] _; split; try decided; cbn; intros x; unfold reserved; cbn; rewrite !elem_of_cons; tauto. }
  destruct (Hk _ eq_refl) as [H1 H2]. split; [|done]. intros x Hx Hx'. apply (Hr x Hx). by apply H2.
Qed.

Definition signed_names : list jstr := (lowered (signed_headers u body c headers date)).*1.
Definition received (auth : jstr) : Headers := (js "host", l_host u) :: sent_headers body c headers date auth.
Lemma named_all h : Forall (fun p : jstr * jstr => toLowerCase p.1 ∈ signed_names) h -> named signed_names h = h.
Proof. induction 1 as [|p h Hp _ IH]; [done|]. unfold named in *. cbn [List.filter]. rewrite bool_decide_true by done. by rewrite IH. Qed.
Lemma named_app h1 h2 : named signed_names (h1 ++ h2) = named signed_names h1 ++ named signed_names h2.
Proof. apply List.filter_app. Qed.
Lemma signed_names_eq : signed_names = (lowered headers).*1
  ++ (js <$> ["host"; "x-amz-date"; "x-amz-content-sha256"]%string) ++ (token_header (js "x-amz-security-token") c).*1.
Proof. unfold signed_names. rewrite signed_lowered, !fmap_app. done. Qed.
Lemma caller_named : named signed_names headers = headers.
Proof.
  apply named_all, Forall_forall. intros p Hp. rewrite signed_names_eq, elem_of_app. left. rewrite lowered_names.
  apply list_elem_of_fmap_2. by apply list_elem_of_fmap_2.
Qed.
Lemma added_named l : Forall (fun p : jstr * jstr => toLowerCase p.1 ∈ (js <$> ["host"; "x-amz-date"; "x-amz-content-sha256"]%string)) l -> named signed_names l = l.
Proof.
  intros Hl. apply named_all. eapply Forall_impl; [exact Hl|]. intros p Hp. rewrite signed_names_eq, !elem_of_app. auto.
Qed.
Lemma token_named : named signed_names (token_header (js "X-Amz-Security-Token") c) = token_header (js "X-Amz-Security-Token") c.
Proof.
  apply named_all. unfold token_header. rewrite signed_names_eq. unfold token_header. destruct (given (sessionToken c)); [|constructor].
  repeat constructor. rewrite !elem_of_app. right; right. by left.
Qed.
Lemma authorization_unnamed auth : named signed_names [(js "Authorization", auth)] = [].
Proof.
  unfold named. cbn [List.filter]. rewrite bool_decide_false; [done|]. cbn [fst]. change (toLowerCase (js "Authorization")) with (js "authorization").
  rewrite signed_names_eq, !elem_of_app. intros [Hin|[Hin|Hin]].
  - rewrite Forall_forall in Hr. apply (Hr _ Hin). decided.
  - revert Hin. decided.
  - revert Hin. unfold token_header. destruct (given _); decided.
Qed.
Lemma named_received auth : lowered (named signed_names (received auth)) ≡ₚ lowered (signed_headers u body c headers date).
Proof.
  unfold received, sent_headers. change (?a :: ?b ++ [?x; ?y; ?z] ++ ?t) with ([a] ++ b ++ [x; y] ++ [z] ++ t).
  rewrite !named_app, caller_named, token_named, authorization_unnamed.
  rewrite !added_named by (repeat constructor; decided). rewrite signed_lowered. unfold lowered. rewrite !fmap_app. cbn [app].
  change (?f <$> [?a]) with [f a]. cbn [app fst snd]. rewrite Permutation_middle. apply Permutation_app_head.
  unfold token_header. destruct (given (sessionToken c)); cbn [fmap list_fmap app fst snd]; reflexivity.
Qed.
End Request.

Lemma lowered_named names h : lowered (named names h) = List.filter (fun p => bool_decide (p.1 ∈ names)) (lowered h).
Proof. induction h as [|p h IH]; [done|]. unfold named, lowered in *. cbn [List.filter fmap list_fmap fst]. case_bool_decide; cbn [fmap list_fmap]; by rewrite IH. Qed.
#[global] Instance filter_perm {A} (f : A -> bool) : Proper ((≡ₚ) ==> (≡ₚ)) (List.filter f).
Proof.
  induction 1 as [|x l1 l2 _ IH|x y l|l1 l2 l3 _ IH1 _ IH2]; cbn [List.filter]; [done| |by destruct (f x), (f y); (done || constructor)|by etransitivity].
  destruct (f x); [by constructor|done].
Qed.

End Service.

Definition no_crypto : Crypto := {| createHash := fun _ b => take 2 b; createHmac := fun k b => take 2 k ++ take 3 b; pbkdf2Sync := fun p s _ => p; NFKC := id |}.
#[local] Existing Instance no_crypto.
Definition demo_url : Location := mkLocation (js "rds-data.eu-west-1.amazonaws.com") (js "/Execute") (js "?b=2&a=%20x").
Definition demo_keys : AwsCredentials := mkCredentials (js "AKID") (js "secret") (Some (js "token")).
Definition demo_out : res Headers :=
  signRequest demo_url (js "POST") (js "{}") (js "rds-data") (js "eu-west-1") demo_keys [(js "Content-Type", js "application/json")] (js "20240105T100000Z").

(** AWS wants every character but letters, digits and - _ . ~ encoded, and equal names in the order of their values. *)
Example marks_unencoded : canonical_query (js "a=(!*)") = Ok (js "a=(!*)").
Proof. vm_compute. reflexivity. Qed.
Example values_unsorted : canonical_query (js "k=b&k=a&j=1") = Ok (js "j=1&k=b&k=a").
Proof. vm_compute. reflexivity. Qed.
