(* ===== verification/Geometry.v ===== *)
(** * PostGIS types (src/geometry.ts)

    The parser of (E)WKB, the points of declared columns and the texts of boxes. The counts that the parser
    reads come from the bytes: a loop stops because every element that is read lies within them, and the
    recursion because every part starts further on. *)

From S2P Require Import Prelude Utf8 Text Buf Num Dates Value NumText Json JsonBig ExtTypes JsonSpec JsonScan ArrayText Temporal Protocol Framing Messages Encode Decode Url.

(** ** Boxes *)

(** split(/\s+/) *)
Fixpoint split_spaces (s cur : jstr) (in_run : bool) : list jstr :=
  match s with
  | [] => [cur]
  | c :: t =>
    if StrWhiteSpace c then if in_run then split_spaces t cur true else cur :: split_spaces t [] true
    else split_spaces t (cur ++ [c]) false
  end.
Definition parseBox (s : jstr) : res (list num) :=
  match split 44 (slice s (indexOf s 40 0 + 1) (-1)) [] with
  | lo :: hi :: _ => Ok (Number <$> (split_spaces (trim lo) [] false ++ split_spaces (trim hi) [] false))
  | _ => Throw (TypeError (js "Cannot read properties of undefined (reading 'trim')"))
  end.
(** An array read past its end is undefined. *)
Definition nth_value (l : list value) (i : nat) : value := default VUndef (l !! i).
Definition boxTargets (is3d : bool) : list (string * Leaf) :=
  [("tuple"%string, fun s => n ← parseBox s; Ok (VArr (VNum <$> n)));
   ("xy"%string, fun s =>
      n ← parseBox s;
      Ok (VObj (imap (fun i k => (js k, nth_value (VNum <$> n) i))
            (if is3d then ["xmin"; "ymin"; "zmin"; "xmax"; "ymax"; "zmax"] else ["xmin"; "ymin"; "xmax"; "ymax"])%string)))].

(** ** (E)WKB *)

Definition GEO_TYPES : list string := [""; "Point"; "LineString"; "Polygon"; "MultiPoint"; "MultiLineString"; "MultiPolygon"; "GeometryCollection"]%string.
Definition has (raw mask : Z) : bool := negb (Z.land raw mask =? 0).
Definition isoBase (raw : Z) : Z := Z.land raw 268435455 mod 1000.
Definition isoDims (raw : Z) : Z := Z.land raw 268435455 / 1000.
Definition dims_of (raw : Z) : nat :=
  2 + (if has raw 2147483648 || (isoDims raw =? 1) || (isoDims raw =? 3) then 1 else 0)
    + (if has raw 1073741824 || (isoDims raw =? 2) || (isoDims raw =? 3) then 1 else 0).

Section Reader.
Context (b : bytes).

Definition u32 (le : bool) (o : Z) : res Z := if le then readUInt32LE b o else readUInt32BE b o.
Definition f64 (le : bool) (o : Z) : res value :=
  z ← (if le then readUIntLE 8 b o else readBigUInt64BE b o); Ok (VNum (f64_of_bits z)).
Fixpoint point_loop (le : bool) (dims : nat) (p : Z) : res (list value * Z) :=
  match dims with
  | O => Ok ([], p)
  | S d => x ← f64 le p; r ← point_loop le d (p + 8); Ok (x :: r.1, r.2)
  end.
Definition point (le : bool) (dims : nat) (p : Z) : res (value * Z) := r ← point_loop le dims p; Ok (VArr r.1, r.2).
(** for (let i = 0; i < n; i++) out.push(f()) *)
Fixpoint times (fuel : nat) (n : Z) (f : Z -> res (value * Z)) (p : Z) : res (list value * Z) :=
  if n <=? 0 then Ok ([], p)
  else match fuel with
       | O => NoFuel
       | S k => x ← f p; r ← times k (n - 1) f x.2; Ok (x.1 :: r.1, r.2)
       end.
Definition rounds : nat := S (length b).
(** A count and that many elements. *)
Definition counted (le : bool) (f : Z -> res (value * Z)) (p : Z) : res (list value * Z) := n ← u32 le p; times rounds n f (p + 4).
Definition ring (le : bool) (dims : nat) (p : Z) : res (value * Z) := r ← counted le (point le dims) p; Ok (VArr r.1, r.2).

Definition coordinates_of (g : value) : value := match g with VObj o => own "coordinates" o | _ => VUndef end.
Definition type_member (t : string) : jstr * value := (js "type", VStr (js t)).
(** The switch; a part is read by [rec]. *)
Definition shape (rec : Z -> res (value * Z)) (le : bool) (t : Z) (dims : nat) (p : Z) : res (obj * Z) :=
  match nth (Z.to_nat t) GEO_TYPES ""%string with
  | ""%string => Throw (Error (js "minipg: unsupported WKB geometry type " ++ show_Z t))
  | "Point"%string as ty => r ← point le dims p; Ok ([type_member ty; (js "coordinates", r.1)], r.2)
  | "LineString"%string as ty => r ← ring le dims p; Ok ([type_member ty; (js "coordinates", r.1)], r.2)
  | "Polygon"%string as ty => r ← counted le (ring le dims) p; Ok ([type_member ty; (js "coordinates", VArr r.1)], r.2)
  | ty =>
    r ← counted le rec p;
    Ok ([type_member ty; if String.eqb ty "GeometryCollection" then (js "geometries", VArr r.1)
                         else (js "coordinates", VArr (coordinates_of <$> r.1))], r.2)
  end.
Fixpoint parse (fuel : nat) (pos : Z) : res (value * Z) :=
  match fuel with
  | O => NoFuel
  | S f =>
    let le := bool_decide (at_ b pos = Some 1) in
    raw ← u32 le (pos + 1);
    srid ← (if has raw 536870912 then z ← u32 le (pos + 5); Ok (Some z) else Ok None);
    r ← shape (parse f) le (isoBase raw) (dims_of raw) (pos + 5 + (if has raw 536870912 then 4 else 0));
    Ok (VObj (r.1 ++ match srid with Some z => [(js "srid", VNum (of_Z z))] | None => [] end), r.2)
  end.
End Reader.
Definition parseWkb (b : bytes) (pos : Z) : res (value * Z) := parse b (S (S (length b))) pos.
Definition parseEwkbHex (hex : jstr) : res value := r ← parseWkb (from_hex hex) 0; Ok r.1.

(** ** Targets *)

Definition not_a_point (t : jstr) : jstr :=
  js "minipg/geometry: :xy/:tuple expect a Point geometry, got " ++ (match t with [] => js "an empty geometry" | _ => t end)
  ++ [32; 8212; 32] ++ js "use :geojson for mixed geometry columns".
Definition text_member (k : string) (g : value) : jstr := match g with VObj o => match own k o with VStr t => t | _ => [] end | _ => [] end.
Definition ewkbPointCoords (s : jstr) : res (list value) :=
  g ← parseEwkbHex s;
  if bool_decide (text_member "type" g = js "Point") then Ok (match coordinates_of g with VArr c => c | _ => [] end)
  else Throw (Error (not_a_point (text_member "type" g))).
Definition GEO_TARGETS : list (string * Leaf) :=
  [("geojson"%string, parseEwkbHex);
   ("wkb"%string, fun s => Ok (VBuf (from_hex s)));
   ("hex"%string, fun s => Ok (VStr s));
   ("xy"%string, fun s => c ← ewkbPointCoords s; Ok (VObj [(js "x", nth_value c 0); (js "y", nth_value c 1)]));
   ("tuple"%string, fun s => c ← ewkbPointCoords s; Ok (VArr c))].
Definition geometry_spec : Registry.spec := Registry.mkSpec (Some true) (Some [58]) GEO_TARGETS [].
Definition box_spec (is3d : bool) : Registry.spec := Registry.mkSpec (Some true) None (boxTargets is3d) [].
(** The four types, in the order the module defines them. *)
Definition define_all (r : Registry.registry) : Registry.registry :=
  foldl (fun r d => (Registry.defineType d.1 d.2 r).1) r
    [(js "geometry", geometry_spec); (js "geography", geometry_spec); (js "box2d", box_spec false); (js "box3d", box_spec true)].

(** ** The format *)

(** What PostGIS writes of a geometry, in either byte order at each level, with the dimensions as flags (EWKB)
    or as an offset of the type (ISO): [h_iso] is 0, 1 (Z), 2 (M) or 3 (ZM). *)
Record Head := mkHead { h_le : bool; h_iso : Z; h_z : bool; h_m : bool; h_srid : option Z }.
Inductive kind := MultiPoint | MultiLineString | MultiPolygon | Collection.
Inductive geo :=
| GPoint (h : Head) (c : list num)
| GLine (h : Head) (l : list (list num))
| GPolygon (h : Head) (l : list (list (list num)))
| GParts (h : Head) (k : kind) (parts : list geo).

Definition flag (b : bool) (v : Z) : Z := if b then v else 0.
Definition word (h : Head) (ty : Z) : Z :=
  ty + 1000 * h_iso h + flag (h_z h) (2 ^ 31) + flag (h_m h) (2 ^ 30) + flag (match h_srid h with Some _ => true | None => false end) (2 ^ 29).
Definition dims (h : Head) : nat :=
  2 + (if h_z h || (h_iso h =? 1) || (h_iso h =? 3) then 1 else 0) + (if h_m h || (h_iso h =? 2) || (h_iso h =? 3) then 1 else 0).
Definition order (le : bool) (bs : bytes) : bytes := if le then rev bs else bs.
Definition w32 (le : bool) (v : Z) : bytes := order le (be 4 v).
Definition w64 (le : bool) (x : num) : bytes := order le (f64_be x).
Definition wpoint (le : bool) (c : list num) : bytes := concat (w64 le <$> c).
Definition wlist {A} (le : bool) (f : A -> bytes) (l : list A) : bytes := w32 le (Z.of_nat (length l)) ++ concat (f <$> l).
Definition head_bytes (h : Head) (ty : Z) : bytes :=
  (if h_le h then 1 else 0) :: w32 (h_le h) (word h ty) ++ match h_srid h with Some z => w32 (h_le h) z | None => [] end.
Definition kind_type (k : kind) : Z := match k with MultiPoint => 4 | MultiLineString => 5 | MultiPolygon => 6 | Collection => 7 end.
Fixpoint wkb (g : geo) : bytes :=
  match g with
  | GPoint h c => head_bytes h 1 ++ wpoint (h_le h) c
  | GLine h l => head_bytes h 2 ++ wlist (h_le h) (wpoint (h_le h)) l
  | GPolygon h l => head_bytes h 3 ++ wlist (h_le h) (wlist (h_le h) (wpoint (h_le h))) l
  | GParts h k l => head_bytes h (kind_type k) ++ wlist (h_le h) wkb l
  end.

Definition vpoint (c : list num) : value := VArr (VNum <$> c).
Definition vline (l : list (list num)) : value := VArr (vpoint <$> l).
Definition with_srid (h : Head) (o : obj) : value := VObj (o ++ match h_srid h with Some z => [(js "srid", VNum (of_Z z))] | None => [] end).
Fixpoint geojson (g : geo) : value :=
  match g with
  | GPoint h c => with_srid h [type_member "Point"; (js "coordinates", vpoint c)]
  | GLine h l => with_srid h [type_member "LineString"; (js "coordinates", vline l)]
  | GPolygon h l => with_srid h [type_member "Polygon"; (js "coordinates", VArr (vline <$> l))]
  | GParts h k l =>
    with_srid h
      (match k with
       | Collection => [type_member "GeometryCollection"; (js "geometries", VArr (geojson <$> l))]
       | _ => [type_member (match k with MultiPoint => "MultiPoint" | MultiLineString => "MultiLineString" | _ => "MultiPolygon" end);
               (js "coordinates", VArr ((fun g => coordinates_of (geojson g)) <$> l))]
       end)
  end.

Definition head_ok (h : Head) : Prop := 0 <= h_iso h <= 3 /\ match h_srid h with Some z => u32_range z | None => True end.
Definition point_ok (h : Head) (c : list num) : Prop := length c = dims h /\ Forall num_ok c.
Definition short {A} (l : list A) : Prop := u32_range (Z.of_nat (length l)).
Fixpoint geo_ok (g : geo) : Prop :=
  match g with
  | GPoint h c => head_ok h /\ point_ok h c
  | GLine h l => head_ok h /\ short l /\ Forall (point_ok h) l
  | GPolygon h l => head_ok h /\ short l /\ Forall (fun r => short r /\ Forall (point_ok h) r) l
  | GParts h _ l => head_ok h /\ short l /\ (fix all (l : list geo) : Prop := match l with [] => True | g :: t => geo_ok g /\ all t end) l
  end.

(** ** Reading what was written *)

Lemma word_fields h ty : head_ok h -> 1 <= ty <= 7 ->
  u32_range (word h ty) /\ isoBase (word h ty) = ty /\ dims_of (word h ty) = dims h
  /\ has (word h ty) 536870912 = match h_srid h with Some _ => true | None => false end.
Proof.
  intros [Hi _] Ht. unfold word, dims. destruct h as [le iso z m srid]. cbn [h_iso h_z h_m h_srid] in *.
  assert (iso = 0 \/ iso = 1 \/ iso = 2 \/ iso = 3) as Hiso by lia.
  assert (ty = 1 \/ ty = 2 \/ ty = 3 \/ ty = 4 \/ ty = 5 \/ ty = 6 \/ ty = 7) as Hty by lia. clear Hi Ht.
  assert (forall n, (0 <=? n) && (n <=? 4294967295) = true -> u32_range n) as Hu by (intros n; unfold u32_range; lia).
  destruct Hiso as [->|[->|[->| ->]]], Hty as [->|[->|[->|[->|[->|[->| ->]]]]]], z, m, srid;
    (split; [apply Hu; reflexivity|split; [reflexivity|split; reflexivity]]).
Qed.

Section Read.
Context (b : bytes).

Lemma length_order le bs : length (order le bs) = length bs.
Proof. unfold order. destruct le; [by rewrite length_rev|done]. Qed.
Lemma blen_w32 le v : blen (w32 le v) = 4.
Proof. unfold blen, w32. by rewrite length_order, length_be. Qed.
Lemma blen_w64 le x : blen (w64 le x) = 8.
Proof. unfold blen, w64, f64_be. by rewrite length_order, length_be. Qed.
Lemma read_order n le o v r : rest_at b o (order le (be n v) ++ r) -> 0 <= v < 256 ^ Z.of_nat n ->
  (if le then readUIntLE n b o else readUIntBE n b o) = Ok v.
Proof.
  intros HR Hv. destruct le; [|by apply (rest_at_uint n b o v r)]. apply rest_at_window in HR. unfold order in HR. rewrite length_rev, length_be in HR.
  unfold readUIntLE. rewrite HR. cbn [fmap res_fmap]. by rewrite rev_involutive, unbe_be, Z.mod_small.
Qed.
Lemma read_u32 le o v r : rest_at b o (w32 le v ++ r) -> u32_range v -> u32 b le o = Ok v /\ rest_at b (o + 4) r.
Proof.
  intros HR Hv. split; [|apply rest_at_app in HR; by rewrite blen_w32 in HR].
  apply (read_order 4 le o v r HR). change (256 ^ _) with 4294967296. unfold u32_range in Hv. lia.
Qed.
Lemma read_f64 le o x r : rest_at b o (w64 le x ++ r) -> num_ok x -> f64 b le o = Ok (VNum x) /\ rest_at b (o + 8) r.
Proof.
  intros HR Hx. split; [|apply rest_at_app in HR; by rewrite blen_w64 in HR]. destruct (f64_roundtrip x Hx) as [E Hv].
  unfold f64, readBigUInt64BE. rewrite (read_order 8 le o (f64_bits x) r HR); [|change (256 ^ _) with (2 ^ 64); done].
  cbn [mbind res_bind]. by rewrite E.
Qed.

Lemma read_point le c o r : rest_at b o (wpoint le c ++ r) -> Forall num_ok c ->
  point b le (length c) o = Ok (vpoint c, o + blen (wpoint le c)) /\ rest_at b (o + blen (wpoint le c)) r.
Proof.
  intros HR Hc. split; [|by apply rest_at_app]. unfold point, vpoint.
  assert (point_loop b le (length c) o = Ok (VNum <$> c, o + blen (wpoint le c))) as ->; [|done].
  revert o HR. unfold wpoint. induction Hc as [|x c Hx _ IH]; intros o HR; [cbn; by rewrite Z.add_0_r|].
  rewrite fmap_cons in HR. rewrite !fmap_cons. cbn [concat] in HR |- *. rewrite <- app_assoc in HR. destruct (read_f64 _ _ _ _ HR Hx) as [E HR'].
  cbn [length point_loop]. rewrite E. cbn [mbind res_bind]. rewrite (IH _ HR'). cbn [mbind res_bind fst snd].
  rewrite blen_app, blen_w64. do 2 f_equal. lia.
Qed.

(** From [lo] on, [enc x] reads as [val x]. *)
Definition reads {A} (lo : Z) (f : Z -> res (value * Z)) (enc : A -> bytes) (val : A -> value) (x : A) : Prop :=
  forall o r, lo <= o -> rest_at b o (enc x ++ r) -> f o = Ok (val x, o + blen (enc x)).
Lemma read_times {A} lo f enc val (l : list A) fuel o r : lo <= o -> (length l <= fuel)%nat -> Forall (reads lo f enc val) l -> rest_at b o (concat (enc <$> l) ++ r) ->
  times fuel (Z.of_nat (length l)) f o = Ok (val <$> l, o + blen (concat (enc <$> l))).
Proof.
  intros Ho Hf Hl. revert fuel Hf o Ho. induction Hl as [|x l Hx _ IH]; intros fuel Hf o Ho HR.
  - destruct fuel; cbn; by rewrite Z.add_0_r.
  - cbn [length] in *. destruct fuel as [|k]; [lia|]. rewrite fmap_cons in HR. rewrite !fmap_cons. cbn [concat] in HR |- *. rewrite <- app_assoc in HR. cbn [times].
    destruct (Z.leb_spec (Z.of_nat (S (length l))) 0); [lia|]. rewrite (Hx _ _ Ho HR). cbn [mbind res_bind fst snd].
    replace (Z.of_nat (S (length l)) - 1) with (Z.of_nat (length l)) by lia. rewrite (IH k ltac:(lia) (o + blen (enc x)) ltac:(pose proof (blen_nonneg (enc x)); lia) (rest_at_app _ _ _ _ HR)).
    cbn [mbind res_bind fst snd]. rewrite blen_app. do 2 f_equal. lia.
Qed.

Lemma rest_at_length o r : rest_at b o r -> blen r <= blen b - o.
Proof. intros (H1 & H2 & <-). unfold blen in *. rewrite length_drop. lia. Qed.
Lemma read_list {A} lo le f enc val (l : list A) o r : lo <= o -> Forall (fun x => (1 <= length (enc x))%nat) l -> short l -> Forall (reads lo f enc val) l ->
  rest_at b o (wlist le enc l ++ r) -> counted b le f o = Ok (val <$> l, o + blen (wlist le enc l)).
Proof.
  intros Ho He Hs Hl HR. unfold wlist in *. rewrite <- app_assoc in HR. destruct (read_u32 _ _ _ _ HR Hs) as [E HR']. unfold counted. rewrite E. cbn [mbind res_bind].
  rewrite (read_times lo f enc val l (rounds b) (o + 4) r); [|lia|.. |done|done].
  - rewrite blen_app, blen_w32. do 2 f_equal. lia.
  - apply rest_at_length in HR'. rewrite blen_app in HR'. unfold rounds, blen in *.
    assert (length l <= length (concat (enc <$> l)))%nat; [|destruct HR; lia]. clear - He. induction He as [|x l Hx _ IH]; [cbn; lia|].
    rewrite fmap_cons. cbn [concat length]. rewrite length_app. lia.
Qed.

Lemma read_head h ty f o body r : head_ok h -> 1 <= ty <= 7 -> rest_at b o ((head_bytes h ty ++ body) ++ r) ->
  parse b (S f) o = (x ← shape b (parse b f) (h_le h) ty (dims h) (o + blen (head_bytes h ty)); Ok (with_srid h x.1, x.2))
  /\ rest_at b (o + blen (head_bytes h ty)) (body ++ r).
Proof.
  intros Hh Ht HR. rewrite <- app_assoc in HR. split; [|by apply rest_at_app].
  destruct (word_fields h ty Hh Ht) as (Hu & Hi & Hd & Hs). unfold head_bytes in *. cbn [app] in HR.
  apply rest_at_byte in HR as [Ea HR]. rewrite <- app_assoc in HR. destruct (read_u32 _ _ _ _ HR Hu) as [E HR'].
  cbn [parse]. assert (bool_decide (at_ b o = Some 1) = h_le h) as -> by (rewrite Ea; by destruct (h_le h)).
  rewrite E. cbn [mbind res_bind]. rewrite Hi, Hd, Hs, blen_cons, blen_app, blen_w32. destruct Hh as [_ Hz]. unfold with_srid.
  destruct (h_srid h) as [z|].
  - replace (o + 1 + 4) with (o + 5) in HR' by lia. destruct (read_u32 _ _ _ _ HR' Hz) as [E2 _]. rewrite E2. cbn [mbind res_bind].
    rewrite blen_w32. replace (o + (1 + (4 + 4))) with (o + 5 + 4) by lia. done.
  - cbn [mbind res_bind]. rewrite blen_nil. replace (o + (1 + (4 + 0))) with (o + 5 + 0) by lia. done.
Qed.

Lemma wlist_nonempty {A} le (f : A -> bytes) l : (1 <= length (wlist le f l))%nat.
Proof. unfold wlist, w32. rewrite length_app, length_order, length_be. lia. Qed.
Lemma head_positive h ty : 1 <= blen (head_bytes h ty).
Proof. unfold head_bytes. rewrite blen_cons. match goal with |- context [blen ?l] => pose proof (blen_nonneg l) end. lia. Qed.
Lemma wkb_nonempty g : (1 <= length (wkb g))%nat.
Proof. destruct g; cbn [wkb]; unfold head_bytes; cbn [app length]; lia. Qed.
Lemma wpoint_nonempty h c : point_ok h c -> (1 <= length (wpoint (h_le h) c))%nat.
Proof.
  intros [Hc _]. unfold dims in Hc. destruct c as [|x c]; [done|]. unfold wpoint. rewrite fmap_cons. cbn [concat]. rewrite length_app.
  unfold w64, f64_be. rewrite length_order, length_be. lia.
Qed.
Lemma point_reads h c : point_ok h c -> reads 0 (point b (h_le h) (dims h)) (wpoint (h_le h)) vpoint c.
Proof. intros [<- Hc] o r _ HR. by apply (read_point _ _ _ r). Qed.
Lemma line_reads h l : short l -> Forall (point_ok h) l -> reads 0 (ring b (h_le h) (dims h)) (wlist (h_le h) (wpoint (h_le h))) vline l.
Proof.
  intros Hs Hl o r Ho HR. unfold ring. rewrite (read_list 0 _ _ (wpoint (h_le h)) vpoint l o r); [done|done| |done| |done].
  - eapply Forall_impl; [exact Hl|]. intros c. apply wpoint_nonempty.
  - eapply Forall_impl; [exact Hl|]. intros c. apply point_reads.
Qed.
End Read.

Section Ind.
Context (P : geo -> Prop) (H1 : forall h c, P (GPoint h c)) (H2 : forall h l, P (GLine h l)) (H3 : forall h l, P (GPolygon h l))
  (H4 : forall h k l, Forall P l -> P (GParts h k l)).
Fixpoint geo_ind' (g : geo) : P g :=
  match g with
  | GPoint h c => H1 h c
  | GLine h l => H2 h l
  | GPolygon h l => H3 h l
  | GParts h k l => H4 h k l ((fix all (l : list geo) : Forall P l :=
      match l with [] => Forall_nil_2 P | x :: t => Forall_cons_2 P x t (geo_ind' x) (all t) end) l)
  end.
End Ind.

Lemma parse_reads b g : geo_ok g -> forall f o r, rest_at b o (wkb g ++ r) -> blen b - o < Z.of_nat f -> parse b f o = Ok (geojson g, o + blen (wkb g)).
Proof.
  induction g as [h c|h l|h l|h k l IH] using geo_ind'; intros Hg f o r HR Hf; (destruct f as [|f]; [destruct HR as (? & ? & _); lia|]); cbn [wkb] in *;
    destruct Hg as (Hh & Hg).
  - destruct (read_head b h 1 f _ _ _ Hh ltac:(lia) HR) as [-> HR']. unfold shape. change (Z.to_nat 1) with 1%nat. cbn [nth GEO_TYPES].
    destruct (read_point b (h_le h) c _ _ HR' (proj2 Hg)) as [E _]. destruct Hg as [<- _]. rewrite E. cbn [mbind res_bind fst snd geojson].
    rewrite blen_app. do 2 f_equal. lia.
  - destruct Hg as [Hs Hl]. destruct (read_head b h 2 f _ _ _ Hh ltac:(lia) HR) as [-> HR']. unfold shape. change (Z.to_nat 2) with 2%nat. cbn [nth GEO_TYPES].
    rewrite (line_reads b h l Hs Hl _ _ (proj1 HR') HR'). cbn [mbind res_bind fst snd geojson]. rewrite blen_app. do 2 f_equal. lia.
  - destruct Hg as [Hs Hl]. destruct (read_head b h 3 f _ _ _ Hh ltac:(lia) HR) as [-> HR']. unfold shape. change (Z.to_nat 3) with 3%nat. cbn [nth GEO_TYPES].
    rewrite (read_list b 0 _ _ (wlist (h_le h) (wpoint (h_le h))) vline l _ r); [|exact (proj1 HR')|.. |exact HR'].
    + cbn [mbind res_bind fst snd geojson]. rewrite blen_app. do 2 f_equal. lia.
    + apply Forall_true. intros x. apply wlist_nonempty.
    + done.
    + eapply Forall_impl; [exact Hl|]. intros x [Hx Hx']. by apply line_reads.
  - destruct Hg as [Hs Hl]. assert (1 <= kind_type k <= 7) as Hk by (destruct k; cbn; lia).
    destruct (read_head b h (kind_type k) f _ _ _ Hh Hk HR) as [-> HR'].
    assert (counted b (h_le h) (parse b f) (o + blen (head_bytes h (kind_type k))) = Ok (geojson <$> l, o + blen (head_bytes h (kind_type k)) + blen (wlist (h_le h) wkb l))) as E.
    { apply (read_list b (o + 1) _ _ wkb geojson l _ r); [|apply Forall_true, wkb_nonempty|done| |done].
      { pose proof (head_positive h (kind_type k)). lia. }
      clear HR HR' Hs. induction IH as [|x l Hx _ IHl]; [constructor|]. destruct Hl as [Hlx Hl]. constructor; [|by apply IHl].
      intros o' r' Ho HR. apply (Hx Hlx f o' r' HR). lia. }
    unfold shape. destruct k; cbn [kind_type] in *; change (Z.to_nat 4) with 4%nat; change (Z.to_nat 5) with 5%nat;
      change (Z.to_nat 6) with 6%nat; change (Z.to_nat 7) with 7%nat; cbn [nth GEO_TYPES]; rewrite E; cbn [mbind res_bind fst snd geojson String.eqb];
      rewrite blen_app; rewrite <- ?list_fmap_compose; do 2 f_equal; lia.
Qed.

(** ** Reading ends *)

Section Total.
Context (b : bytes).

Definition advances (r : res (value * Z)) (p : Z) : Prop := r <> NoFuel /\ forall x, r = Ok x -> p < x.2 <= blen b.
Lemma u32_ends le o : u32 b le o <> NoFuel /\ forall z, u32 b le o = Ok z -> o + 4 <= blen b /\ -1 < o.
Proof.
  unfold u32, readUInt32LE, readUIntLE, readUInt32BE, readUIntBE. destruct (window 4 b o) as [x| |] eqn:E.
  - apply window_range in E as (? & ? & _). destruct le; (split; [done|]); intros z _; lia.
  - by destruct le.
  - exfalso. unfold window in E. by destruct (_ && _).
Qed.
Lemma f64_ends le o : f64 b le o <> NoFuel /\ forall x, f64 b le o = Ok x -> o + 8 <= blen b.
Proof.
  unfold f64, readUIntLE, readBigUInt64BE, readUIntBE. destruct (window 8 b o) as [x| |] eqn:E.
  - apply window_range in E as (? & ? & _). destruct le; (split; [done|]); intros z _; lia.
  - by destruct le.
  - exfalso. unfold window in E. by destruct (_ && _).
Qed.
Lemma point_loop_ends le d p : point_loop b le d p <> NoFuel /\ forall r, point_loop b le d p = Ok r -> r.2 = p + 8 * Z.of_nat d /\ (d = 0%nat \/ r.2 <= blen b).
Proof.
  revert p. induction d as [|d IH]; intros p; cbn [point_loop]; [split; [done|]; intros r [= <-]; cbn; lia|].
  destruct (f64_ends le p) as [F1 F2]. destruct (f64 b le p) as [x| |]; [|done..]. specialize (F2 x eq_refl). cbn [mbind res_bind].
  destruct (IH (p + 8)) as [I1 I2]. destruct (point_loop b le d (p + 8)) as [r'| |]; [|done..]. cbn [mbind res_bind]. split; [done|].
  intros r [= <-]. cbn [snd]. destruct (I2 r' eq_refl) as [-> H]. split; [lia|]. right. destruct H as [->|?]; lia.
Qed.
Lemma point_ends le h p : advances (point b le (S h) p) p.
Proof.
  unfold advances, point. destruct (point_loop_ends le (S h) p) as [P1 P2]. destruct (point_loop b le (S h) p) as [r| |]; [|done..].
  cbn [mbind res_bind]. split; [done|]. intros x [= <-]. cbn [snd]. destruct (P2 r eq_refl) as [? [?|?]]; lia.
Qed.
Lemma times_ends lo f fuel n p : (forall q, lo <= q -> advances (f q) q) -> lo <= p <= blen b -> blen b - p < Z.of_nat fuel ->
  times fuel n f p <> NoFuel /\ forall r, times fuel n f p = Ok r -> p <= r.2 <= blen b.
Proof.
  intros Hf. revert n p. induction fuel as [|k IH]; intros n p Hp Hk; [lia|]. cbn [times].
  destruct (Z.leb_spec n 0); [split; [done|]; intros r [= <-]; cbn; lia|].
  destruct (Hf p ltac:(lia)) as [F1 F2]. destruct (f p) as [x| |]; [|done..]. specialize (F2 x eq_refl). cbn [mbind res_bind].
  destruct (IH (n - 1) x.2 ltac:(lia) ltac:(lia)) as [I1 I2]. destruct (times k (n - 1) f x.2) as [r'| |]; [|done..]. cbn [mbind res_bind].
  split; [done|]. intros r [= <-]. cbn [snd]. specialize (I2 r' eq_refl). lia.
Qed.
Lemma counted_ends lo le f p : (forall q, lo <= q -> advances (f q) q) -> lo <= p + 4 ->
  counted b le f p <> NoFuel /\ forall r, counted b le f p = Ok r -> p < r.2 <= blen b.
Proof.
  intros Hf Hp. unfold counted. destruct (u32_ends le p) as [U1 U2]. destruct (u32 b le p) as [n| |]; [|done..]. destruct (U2 n eq_refl) as [? ?].
  cbn [mbind res_bind]. destruct (times_ends lo f (rounds b) n (p + 4) Hf) as [T1 T2]; [lia|unfold rounds, blen; lia|]. split; [done|].
  intros r Er. specialize (T2 r Er). lia.
Qed.
Lemma ring_ends le h p : advances (ring b le (S h) p) p.
Proof.
  unfold advances, ring. destruct (counted_ends (p + 4) le (point b le (S h)) p) as [C1 C2]; [intros; apply point_ends|lia|].
  destruct (counted b le (point b le (S h)) p) as [r| |]; [|done..]. cbn [mbind res_bind]. split; [done|]. intros x [= <-]. by apply C2.
Qed.

Lemma shape_ends rec le t d p : (forall q, p < q -> advances (rec q) q) ->
  shape b rec le t (S d) p <> NoFuel /\ forall r, shape b rec le t (S d) p = Ok r -> p < r.2 <= blen b.
Proof.
  intros Hr. unfold shape.
  assert (forall (r : res (value * Z)) (g : value * Z -> obj), advances r p ->
    (x ← r; Ok (g x, x.2)) <> NoFuel /\ forall y, (x ← r; Ok (g x, x.2)) = Ok y -> p < y.2 <= blen b) as G1.
  { intros r g [A1 A2]. destruct r as [x| |]; [|done..]. cbn [mbind res_bind]. split; [done|]. intros y [= <-]. by apply A2. }
  assert (forall (r : res (list value * Z)) (g : list value * Z -> obj), r <> NoFuel /\ (forall x, r = Ok x -> p < x.2 <= blen b) ->
    (x ← r; Ok (g x, x.2)) <> NoFuel /\ forall y, (x ← r; Ok (g x, x.2)) = Ok y -> p < y.2 <= blen b) as G2.
  { intros r g [A1 A2]. destruct r as [x| |]; [|done..]. cbn [mbind res_bind]. split; [done|]. intros y [= <-]. by apply A2. }
  pose proof (counted_ends (p + 4) le rec p (fun q Hq => Hr q ltac:(lia)) ltac:(lia)) as Hc.
  pose proof (counted_ends (p + 4) le (ring b le (S d)) p (fun q _ => ring_ends le d q) ltac:(lia)) as Hg.
  destruct (Z.to_nat t) as [|[|[|[|[|[|[|[|n]]]]]]]]; cbn [nth GEO_TYPES]; [done|..].
  - apply G1, point_ends.
  - apply G1, ring_ends.
  - by apply (G2 _ (fun r => [type_member "Polygon"; (js "coordinates", VArr r.1)])).
  - by apply (G2 _ (fun r => [type_member "MultiPoint"; (js "coordinates", VArr (coordinates_of <$> r.1))])).
  - by apply (G2 _ (fun r => [type_member "MultiLineString"; (js "coordinates", VArr (coordinates_of <$> r.1))])).
  - by apply (G2 _ (fun r => [type_member "MultiPolygon"; (js "coordinates", VArr (coordinates_of <$> r.1))])).
  - by apply (G2 _ (fun r => [type_member "GeometryCollection"; (js "geometries", VArr r.1)])).
  - by destruct n.
Qed.

Lemma parse_ends f pos : (0 < f)%nat -> blen b - pos < Z.of_nat f -> advances (parse b f pos) pos.
Proof.
  revert pos. induction f as [|f IH]; intros pos Hf Hp; [lia|]. unfold advances. cbn [parse]. set (le := bool_decide _). clearbody le.
  destruct (u32_ends le (pos + 1)) as [U1 U2]. destruct (u32 b le (pos + 1)) as [raw| |]; [|done..]. destruct (U2 raw eq_refl) as [? ?]. clear U1 U2.
  cbn [mbind res_bind]. assert (exists d, dims_of raw = S d) as [d Hd] by (unfold dims_of; eexists; reflexivity).
  assert (forall o, pos + 5 <= o -> forall q, o < q -> advances (parse b f q) q) as Hr by (intros o Ho q Hq; apply IH; lia).
  destruct (has raw 536870912).
  - destruct (u32_ends le (pos + 5)) as [U1 U2]. destruct (u32 b le (pos + 5)) as [z| |]; [|done..]. cbn [mbind res_bind].
    destruct (shape_ends (parse b f) le (isoBase raw) d (pos + 5 + 4) (Hr (pos + 5 + 4) ltac:(lia))) as [S1 S2]. rewrite Hd.
    destruct (shape b (parse b f) le (isoBase raw) (S d) (pos + 5 + 4)) as [r| |]; [|done..]. cbn [mbind res_bind]. split; [done|].
    intros x [= <-]. specialize (S2 r eq_refl). destruct r as [g e]. cbn [snd] in *. lia.
  - cbn [mbind res_bind]. destruct (shape_ends (parse b f) le (isoBase raw) d (pos + 5 + 0) (Hr (pos + 5 + 0) ltac:(lia))) as [S1 S2]. rewrite Hd.
    destruct (shape b (parse b f) le (isoBase raw) (S d) (pos + 5 + 0)) as [r| |]; [|done..]. cbn [mbind res_bind]. split; [done|].
    intros x [= <-]. specialize (S2 r eq_refl). destruct r as [g e]. cbn [snd] in *. lia.
Qed.
End Total.

(** C39: The parser of (E)WKB ends on every sequence of bytes and every start, whatever counts and nesting they
    claim: it throws, or it returns a geometry that ends within the bytes, after its start. *)
Theorem parseWkb_ends b pos : parseWkb b pos <> NoFuel /\ forall g, parseWkb b pos = Ok g -> pos < g.2 <= blen b.
Proof.
  unfold parseWkb. destruct (Z.ltb_spec pos (-1)).
  - cbn [parse]. set (le := bool_decide _). clearbody le. destruct (u32_ends b le (pos + 1)) as [U1 U2].
    destruct (u32 b le (pos + 1)) as [raw| |]; [|done..]. destruct (U2 raw eq_refl). lia.
  - apply parse_ends; [lia|]. unfold blen. lia.
Qed.

(** A text of hex digits, in either case, of some bytes. *)
Inductive spelled : jstr -> bytes -> Prop :=
| spelled_nil : spelled [] []
| spelled_cons a c x y t l : hex_val a = Some x -> hex_val c = Some y -> spelled t l -> spelled (a :: c :: t) (x * 16 + y :: l).
Lemma from_hex_spelled s l : spelled s l -> from_hex s = l.
Proof. induction 1 as [|a c x y t l Ha Hc _ IH]; [done|]. cbn [from_hex]. by rewrite Ha, Hc, IH. Qed.

(** C38: The hex text of a geometry, with any byte order and either way of marking dimensions and SRID at each
    level of nesting, decodes to its GeoJSON object; as a declared point it decodes to its coordinates, all of
    them in :tuple, or throws when it is not a point. *)
Theorem ewkb_roundtrip g s : geo_ok g -> spelled s (wkb g) ->
  parseEwkbHex s = Ok (geojson g) /\
  match g with
  | GPoint h c => ewkbPointCoords s = Ok (VNum <$> c)
  | _ => exists m, ewkbPointCoords s = Throw (Error m)
  end.
Proof.
  intros Hg Hs. assert (parseEwkbHex s = Ok (geojson g)) as E.
  { unfold parseEwkbHex, parseWkb. rewrite (from_hex_spelled _ _ Hs). rewrite (parse_reads _ g Hg _ 0 []); [done| |unfold blen; lia].
    rewrite app_nil_r. apply rest_at_0. }
  split; [done|]. unfold ewkbPointCoords. rewrite E. cbn [mbind res_bind].
  destruct g as [h c|h l|h l|h k l]; cbn [geojson]; unfold with_srid; [|eexists; reflexivity..|destruct k; eexists; reflexivity].
  reflexivity.
Qed.

Definition demo_head (le : bool) : Head := mkHead le 0 true false None.
Definition demo_geo : geo :=
  GParts (mkHead true 0 false false (Some 4326)) Collection
    [GPoint (demo_head false) [of_Z 1; of_Z (-2); Fin false 4503599627370496 (-53)];
     GParts (mkHead false 3 false false None) MultiPoint [GPoint (mkHead true 2 false false None) [of_Z 5; of_Z 6; of_Z 7]];
     GPolygon (mkHead true 0 false false None) [[[of_Z 0; of_Z 0]; [of_Z 1; of_Z 0]; [of_Z 1; of_Z 1]; [of_Z 0; of_Z 0]]]].
Lemma spelled_hex l : Forall (fun x => 0 <= x < 256) l -> spelled (hex l) l.
Proof.
  unfold hex. induction 1 as [|x l Hx _ IH]; [constructor|]. rewrite fmap_cons. cbn [concat app]. rewrite (Z.div_mod x 16) at 3 by lia. rewrite (Z.mul_comm 16).
  assert (forall d, 0 <= d < 16 -> hex_val (hex_digit d) = Some d) as Hd.
  { intros d Hd. unfold hex_digit, hex_val, is_digit. destruct (Z.ltb_spec d 10); repeat (case_match; b2p_all); f_equal; lia. }
  constructor; [apply Hd|apply Hd|done]; Z.to_euclidean_division_equations; lia.
Qed.
Lemma ewkb_roundtrip_witness : parseEwkbHex (hex (wkb demo_geo)) = Ok (geojson demo_geo) /\ length (hex (wkb demo_geo)) = 314%nat.
Proof.
  split; [|vm_compute; reflexivity]. apply (ewkb_roundtrip demo_geo).
  - cbn [demo_geo geo_ok]. unfold head_ok, point_ok, short, u32_range. cbn [h_iso h_srid length].
    repeat match goal with |- _ /\ _ => split | |- Forall _ (_ :: _) => apply Forall_cons_2 | |- Forall _ [] => apply Forall_nil_2 end;
      try lia; try done; vm_compute; repeat split; first [congruence|left; congruence|right; reflexivity].
  - apply spelled_hex. apply (bool_decide_unpack _). vm_compute. exact I.
Defined.
