(* ===== verification/ConnFaults.v ===== *)
(** * Sessions in which a connection does the wrong thing (src/connection.ts)

    Concrete runs of the model, for the findings about connection.ts that the invariants do not exclude. *)

From S2P Require Import Prelude Utf8 Text Buf Num Dates Value NumText Faults Auth Json JsonBig ExtTypes JsonSpec JsonScan ArrayText Temporal Protocol Framing Messages Parse Errors Encode Decode Mapper Spec Connection ConnDemo.
#[local] Existing Instances demo_env zero_alloc demo_crypto.

(** ** A transaction that goes on after a reconnect

    Reconnect is on and two queries may be in flight. The queries of one transaction (what begin() and an
    atomic bulkInsert submit) are queued together. *)

Definition rc_cfg : Config := mkConfig (js "u") (js "p") (js "d") (js "minipg") None None None 30000 true true 2 true false
  defaultDecoders BINARY_FAST true jitMapper true None false true true CbPrefer None.
Abbreviation rc_run evs := (@run_events demo_env zero_alloc demo_crypto rc_cfg evs initial).
Definition plain_query (sql : string) : event := EQuery (js sql) (inl []) (mkQueryOptions None None None None false None None).
Definition in_transaction : bytes := server "Z" (js "T").
Definition began : bytes := server "t" [0; 0] ++ server "n" [] ++ server "C" (js "BEGIN" ++ [0]) ++ in_transaction.
Definition transaction : list event :=
  handshake ++ [plain_query "begin"; EMicrotask; answers [began];
                plain_query "insert 1"; plain_query "insert 2"; plain_query "insert 3"; plain_query "commit"; EMicrotask].
(** The socket goes down with the first two in flight, and the connection comes back. *)
Definition reconnected : list event :=
  transaction ++ [EClose None; EBackoff; ETransport; answers [server "R" [0;0;0;0]; server "K" [0;0;0;1;0;0;0;2]; ready_for_query]; EMicrotask].
Definition sql_of (m : wmsg) : option jstr := match m with MParse _ s _ => Some s | MHandshake _ => Some (js "handshake") | _ => None end.

Example transaction_sent : omap sql_of (wire (rc_run transaction)) = js <$> ["handshake"; "begin"; "insert 1"; "insert 2"]%string.
Proof. vm_compute. reflexivity. Qed.
(** On the new connection the rest of the transaction is sent without its BEGIN, so "insert 3" commits by itself. *)
Example transaction_resumed : omap sql_of (wire (rc_run reconnected)) = js <$> ["handshake"; "insert 3"; "commit"]%string.
Proof. vm_compute. reflexivity. Qed.

(** ** Two queries of one statement, both told to prepare it again *)

Definition two_stale : list event :=
  two_queries ++ [named_query "n" "s"; EMicrotask; answers [server_error "0A000"; ready_for_query];
                  answers [server_error "0A000"; ready_for_query]; EMicrotask].
(** The first retry closes and parses the statement; the second closes it again and runs it without a Parse. *)
Example second_retry_unparsed : drop 6 (kind_of <$> wire (demo_run two_stale)) =
  ["Close"; "Parse"; "Describe"; "Run"; "Close"; "Describe"; "Run"]%string.
Proof. vm_compute. reflexivity. Qed.

(** ** One name, two statements in the pipeline *)

(** The texts a session prepared and the executions, in order. *)
Definition prepared_and_run (m : wmsg) : option jstr :=
  match m with MParse _ s _ => Some (js "parse " ++ s) | MClose _ => Some (js "close") | MRun _ _ _ => Some (js "run") | _ => None end.
(** "n" is used for s1 and at once for s2; when the answer to the first arrives, a third query asks for s1. *)
Definition renamed : list event :=
  handshake ++ [named_query "n" "s1"; named_query "n" "s2"; EMicrotask; answers [described; completed; ready_for_query];
                named_query "n" "s1"; EMicrotask].
(** The third query runs what the server holds under the name, which is s2. *)
Example renamed_runs_other : omap prepared_and_run (wire (demo_run renamed)) =
  js <$> ["parse s1"; "run"; "close"; "parse s2"; "run"; "run"]%string.
Proof. vm_compute. reflexivity. Qed.

(** ** A parameter that cannot be encoded, under a name in use *)

Definition bad_query (n sql : string) : event := EQuery (js sql) (inl [VStr [0]]) (mkQueryOptions (Some (js n)) None None None false None None).
Definition unclosed : list event :=
  handshake ++ [named_query "n" "s1"; EMicrotask; answers [described; completed; ready_for_query];
                bad_query "n" "s2"; named_query "n" "s3"; EMicrotask].
(** The failed task forgot the statement but its Close was taken back, so "n" is parsed over itself. *)
Example unclosed_parsed_again : omap prepared_and_run (wire (demo_run unclosed)) = js <$> ["parse s1"; "run"; "parse s3"; "run"]%string.
Proof. vm_compute. reflexivity. Qed.

(** ** A channel binding that is required and not made

    The binding is checked when the server asks for SCRAM. A server, or whoever sits between, that asks for the
    password in the clear is given it, and connect() resolves. *)

Definition required_cfg : Config := mkConfig (js "u") (js "secret") (js "d") (js "minipg") None None None 30000 true true 100 true false
  defaultDecoders BINARY_FAST true jitMapper false None false true true CbRequire (Some [1; 2; 3]).
Definition asked_in_the_clear : list event :=
  [EConnect; ETransport; answers [server "R" [0;0;0;3]]; answers [server "R" [0;0;0;0]; server "K" [0;0;0;1;0;0;0;2]; ready_for_query]].
Example required_binding_skipped :
  let c := @run_events demo_env zero_alloc demo_crypto required_cfg asked_in_the_clear initial in
  state c = CReady /\ drop 1 (wire c) = [MHandshake (112 :: be 4 11 ++ js "secret" ++ [0])] /\ scramState c = None.
Proof. vm_compute. by repeat split. Qed.
