(* ===== verification/ConnCaches.v ===== *)
(** * The caches of a connection (src/connection.ts, getMapper and jitFor) and the shifted arguments of query()

    Connection.v takes a mapper as a function of its columns and an encoder as a function of its plan. Here are the
    caches in front of them: what their keys tell apart, and what they do not. *)

From S2P Require Import Prelude Utf8 Text Buf Num Dates Value NumText Faults Auth Json JsonBig ExtTypes JsonSpec JsonScan ArrayText Temporal Protocol Framing Messages Errors Encode Jit Decode Mapper Spec Url Connection.

(** ** query(sql, opts) *)

Definition OPTION_KEYS : list jstr :=
  js <$> ["name"; "snapshot"; "mode"; "params"; "shape"; "binary"; "metrics"; "debug"; "timeout"; "signal"; "trace"]%string.
(** An object in the place of the parameters, all of whose keys are options, with no third argument. *)
Definition shift_options (params : value) (opts : obj) : value * obj :=
  match params, opts with
  | VObj ((_ :: _) as o), [] => if forallb (fun k => bool_decide (k ∈ OPTION_KEYS)) o.*1 then (VArr [], o) else (params, opts)
  | _, _ => (params, opts)
  end.
(** rawParams() makes an object too; it is not taken for options. *)
Lemma raw_params_kept formats values opts :
  shift_options (VObj [(js "formats", formats); (js "values", values)]) opts = (VObj [(js "formats", formats); (js "values", values)], opts).
Proof. by destruct opts. Qed.
Lemma shifted params opts p o : shift_options params opts = (p, o) ->
  (p, o) = (params, opts) \/ opts = [] /\ p = VArr [] /\ params = VObj o /\ o <> [] /\ Forall (fun k => k ∈ OPTION_KEYS) o.*1.
Proof.
  unfold shift_options. destruct params as [| | | | | | | | |[|kv l]|]; try (intros [= <- <-]; by left).
  destruct opts; [|intros [= <- <-]; by left]. destruct (forallb _ _) eqn:E; [|intros [= <- <-]; by left]. intros [= <- <-].
  right. split; [done|]. split; [done|]. split; [done|]. split; [done|]. rewrite forallb_forall in E. apply Forall_forall. intros k Hk%list_elem_of_In.
  exact (bool_decide_eq_true_1 _ (E k Hk)).
Qed.

(** ** The mapper cache *)

(** A column with the number of its Transform marker, which only the key looks at. *)
Record keyed := mkKeyed { column : CodegenCol; xformId : option Z }.
Section Mappers.
(** [text]: JSON.stringify of a json marker. [show]: the name of a decode target, empty when there is none. *)
Context (text : JsonSpec.JsonMarker -> jstr) (show : Target -> jstr) (factory : list CodegenCol -> ResultMode -> res RowMapper).

Definition column_key (k : keyed) : jstr :=
  let c := column k in
  join (js ":") [name c; show_Z (oid c); if binary c then js "binary" else js "t"; show (js_ c);
    match json c with Some m => text m | None => [] end;
    match array c with Some (e, t) => js "a" ++ show_Z e ++ show t | None => [] end;
    match path c with Some p => join (js ".") p | None => [] end;
    ((fun b : bool => if b then 49 else 48) <$> groupNullable c);
    if nullable c then js "n" else [];
    match xformId k with Some i => show_Z i | None => [] end].
Definition mode_text (m : ResultMode) : jstr :=
  match m with MArray => js "array" | MObject => js "object" | MRaw => js "raw" | MBuffer => js "buffer" | MWire => js "wire" end.
Definition mapper_key (mode : ResultMode) (cols : list keyed) : jstr := mode_text mode ++ js "|" ++ join (js ",") (column_key <$> cols).
Definition cached_mapper (mode : ResultMode) (cols : list keyed) : M (gmap jstr RowMapper) (option RowMapper) := fun cache =>
  match mode with
  | MArray | MObject =>
    let key := mapper_key mode cols in
    match cache !! key with
    | Some m => (cache, Ok (Some m))
    | None => match factory (column <$> cols) mode with
              | Ok m => (<[key := m]> cache, Ok (Some m))
              | Throw e => (cache, Throw e)
              | NoFuel => (cache, NoFuel)
              end
    end
  | _ => (cache, Ok None)
  end.
(** A cache that only holds what the factory made of the lists in [asked]. *)
Definition honest (asked : list (ResultMode * list keyed)) (cache : gmap jstr RowMapper) : Prop :=
  forall key m, cache !! key = Some m -> exists q, q ∈ asked /\ mapper_key q.1 q.2 = key /\ factory (column <$> q.2) q.1 = Ok m.
(** The cache is transparent as long as no two of the lists that were asked for share a key: a mapper comes out as the factory
    would make it. *)
Lemma cache_transparent asked mode cols cache : honest asked cache -> (mode = MArray \/ mode = MObject) ->
  (forall q, q ∈ asked -> mapper_key q.1 q.2 = mapper_key mode cols -> q = (mode, cols)) ->
  (cached_mapper mode cols cache).2 = Some <$> factory (column <$> cols) mode
  /\ honest ((mode, cols) :: asked) (cached_mapper mode cols cache).1.
Proof.
  intros Hc Hm Hk. assert (forall key m, honest asked cache -> cache !! key = Some m -> exists q, q ∈ (mode, cols) :: asked /\ mapper_key q.1 q.2 = key /\ factory (column <$> q.2) q.1 = Ok m) as Hl.
  { intros key m H E. destruct (H key m E) as (q & Hq & Q). exists q. split; [by right|exact Q]. }
  assert (forall mode, mode = MArray \/ mode = MObject -> cached_mapper mode cols cache =
    match cache !! mapper_key mode cols with Some m => (cache, Ok (Some m)) | None => match factory (column <$> cols) mode with
    | Ok m => (<[mapper_key mode cols := m]> cache, Ok (Some m)) | Throw e => (cache, Throw e) | NoFuel => (cache, NoFuel) end end) as E by by intros ? [-> | ->].
  rewrite E by done. destruct (cache !! mapper_key mode cols) as [m|] eqn:Em.
  - destruct (Hc _ _ Em) as (q & Hq & Ek & Ef). specialize (Hk q Hq Ek) as ->. cbn [fst snd] in Ef |- *. rewrite Ef. split; [done|]. intros key m'. by apply Hl.
  - destruct (factory (column <$> cols) mode) as [m|e|] eqn:Ef; (split; [done|]); cbn [fst]; intros key m'; [|by apply Hl..].
    destruct (decide (key = mapper_key mode cols)) as [->|Hne].
    + rewrite lookup_insert_eq. intros [= <-]. exists (mode, cols). split; [by left|]. by split.
    + rewrite lookup_insert_ne by congruence. by apply Hl.
Qed.
End Mappers.

(** Two statements whose results share a key and are not alike: the names of columns may hold the separators. *)
Definition text_col (n : jstr) (o : Z) : keyed := mkKeyed (mkCol n o None None false None None [] None false) None.
Definition one_column : list keyed := [text_col (js "a:25:t:::::::,b") 23].
Definition two_columns : list keyed := [text_col (js "a") 25; text_col (js "b") 23].
Example mapper_key_shared text : mapper_key text (fun _ => []) MObject one_column = mapper_key text (fun _ => []) MObject two_columns.
Proof. vm_compute. reflexivity. Qed.

(** ** The cache of compiled encoders *)

(** What is kept for a plan: the encoder of one statement name and one choice of result formats. *)
Definition rfSig (rf : result_format) : jstr := match rf with OneFormat f => show_Z f | PerColumn fs => join (js ",") (show_Z <$> fs) end.
Record jit_entry := mkJitEntry { e_name : jstr; e_rfSig : jstr; e_jit : option (list value -> M writer unit) }.
Section Encoders.
Context `{Alloc}.
Definition jitFor (name : jstr) (oids : list Z) (rf : result_format) : M (option jit_entry) (option (list value -> M writer unit)) := fun cache =>
  match cache with
  | Some je => if bool_decide (e_name je = name) && bool_decide (e_rfSig je = rfSig rf) then (cache, Ok (e_jit je))
               else match compileBindEncoder name oids rf with Ok jit => (Some (mkJitEntry name (rfSig rf) jit), Ok jit) | Throw e => (cache, Throw e) | NoFuel => (cache, NoFuel) end
  | None => match compileBindEncoder name oids rf with Ok jit => (Some (mkJitEntry name (rfSig rf) jit), Ok jit) | Throw e => (cache, Throw e) | NoFuel => (cache, NoFuel) end
  end.
(** The formats that are asked for: text or binary, for all columns at once or for each. *)
Definition format_codes (rf : result_format) : list Z := match rf with OneFormat f => [f] | PerColumn fs => fs end.
Definition is_code (f : Z) : Prop := f = 0 \/ f = 1.
Lemma rfSig_codes rf : rfSig rf = join (js ",") (show_Z <$> format_codes rf).
Proof. by destruct rf. Qed.
Lemma codes_inj l1 : forall l2, Forall is_code l1 -> Forall is_code l2 -> join (js ",") (show_Z <$> l1) = join (js ",") (show_Z <$> l2) -> l1 = l2.
Proof.
  assert (forall f, is_code f -> show_Z f = [48 + f]) as Hs by (by intros f [-> | ->]).
  induction l1 as [|a l1 IH]; intros l2 H1 H2 E.
  - destruct l2 as [|b [|b' l2]]; [done|..]; apply Forall_cons in H2 as [Hb _]; cbn in E; rewrite (Hs b Hb) in E; discriminate.
  - apply Forall_cons in H1 as [Ha H1]. destruct l2 as [|b l2].
    + destruct l1; cbn in E; rewrite (Hs a Ha) in E; discriminate.
    + apply Forall_cons in H2 as [Hb H2]. destruct l1 as [|a' l1], l2 as [|b' l2]; cbn in E; rewrite (Hs a Ha), (Hs b Hb) in E; cbn in E; try discriminate.
      * f_equal. injection E. lia.
      * injection E as E1 E2. f_equal; [lia|]. by apply IH.
Qed.
Lemma write_format_codes rf : jit_result_format rf = jit_result_format (PerColumn (format_codes rf)).
Proof. destruct rf as [f|fs]; [|done]. cbn. destruct (uint16_be f) as [b| |]; [|done..]. cbn. by rewrite app_nil_r. Qed.
Lemma compile_codes name oids rf1 rf2 : format_codes rf1 = format_codes rf2 -> compileBindEncoder name oids rf1 = compileBindEncoder name oids rf2.
Proof. intros E. unfold compileBindEncoder. by rewrite (write_format_codes rf1), (write_format_codes rf2), E. Qed.
(** The cached encoder is the one that would be compiled: the signature tells apart all choices of formats that put different bytes
    on the wire. *)
Definition jit_honest (oids : list Z) (cache : option jit_entry) : Prop :=
  forall je, cache = Some je -> exists rf, Forall is_code (format_codes rf) /\ rfSig rf = e_rfSig je /\ compileBindEncoder (e_name je) oids rf = Ok (e_jit je).
Lemma jit_transparent name oids rf cache : Forall is_code (format_codes rf) -> jit_honest oids cache ->
  (jitFor name oids rf cache).2 = compileBindEncoder name oids rf /\ jit_honest oids (jitFor name oids rf cache).1.
Proof.
  intros Hf Hc. assert (forall jit, compileBindEncoder name oids rf = Ok jit -> jit_honest oids (Some (mkJitEntry name (rfSig rf) jit))) as Hn.
  { intros jit E je [= <-]. by exists rf. }
  unfold jitFor. destruct cache as [je|].
  - destruct (bool_decide_reflect (e_name je = name)) as [En|En]; [destruct (bool_decide_reflect (e_rfSig je = rfSig rf)) as [Er|Er]|]; cbn [andb].
    + destruct (Hc je eq_refl) as (rf' & Hf' & Es & Ec). split; [|done]. cbn [snd]. rewrite <- Ec, En. apply compile_codes.
      apply codes_inj; [done|done|]. rewrite <- !rfSig_codes. congruence.
    + destruct (compileBindEncoder name oids rf) eqn:E; (split; [done|]); cbn [fst]; [by apply Hn|done..].
    + destruct (compileBindEncoder name oids rf) eqn:E; (split; [done|]); cbn [fst]; [by apply Hn|done..].
  - destruct (compileBindEncoder name oids rf) eqn:E; (split; [done|]); cbn [fst]; [by apply Hn|done..].
Qed.
End Encoders.
