(* ===== verification/Cursor.v ===== *)
(** * Server-side cursors (src/cursor.ts)

    The class Cursor as a state shared by the calls on it. A call of open(), next() or close(), and the
    continuation of a timer, is a thread: the [pc] at which it awaits and, for a method awaited by another, what
    the caller does next ([cont]). A thread runs to its next await; threads may interleave at every await. *)

From S2P Require Import Prelude Utf8 Text Buf Num Dates Value.

Record CursorOptions := mkCursorOptions {
  o_sql : jstr; o_params : list value; o_fetchSize : option Z; o_snapshot : option jstr; o_fullScan : bool;
  o_idleTimeoutMs : option Z; o_maxDurationMs : option Z }.
Inductive cursor_error :=
| Refused (id : Z)
| IdleFor (ms : Z)
| ExceededMax (ms : Z)
| NoLease.
Inductive cursor_state := CIdle | COpen | CDone.
#[global] Instance cursor_state_eq : EqDecision cursor_state. Proof. solve_decision. Defined.
(** [this.opening]: null, pending, resolved, rejected. *)
Inductive opening := NotOpening | Opening | Opened | OpenFailed (e : cursor_error).
Inductive act := Acquire | Query (sql : jstr) | EndConn | Release.

(** [c_idle] and [c_deadline]: the timer whose handle the cursor keeps is armed. [c_stray]: armed idle timers whose
    handle was overwritten. [c_log] is a ghost: what was done to the connection. *)
Record cursor := mkCursor {
  c_state : cursor_state; c_err : option cursor_error; c_lease : bool; c_idle : bool; c_stray : nat; c_deadline : bool; c_opening : opening; c_fetching : bool;
  c_log : list act }.
Definition new_cursor : cursor := mkCursor CIdle None false false 0 false NotOpening false [].
Definition with_state x s := mkCursor x (c_err s) (c_lease s) (c_idle s) (c_stray s) (c_deadline s) (c_opening s) (c_fetching s) (c_log s).
Definition with_err x s := mkCursor (c_state s) x (c_lease s) (c_idle s) (c_stray s) (c_deadline s) (c_opening s) (c_fetching s) (c_log s).
Definition with_lease x s := mkCursor (c_state s) (c_err s) x (c_idle s) (c_stray s) (c_deadline s) (c_opening s) (c_fetching s) (c_log s).
Definition with_idle x s := mkCursor (c_state s) (c_err s) (c_lease s) x (c_stray s) (c_deadline s) (c_opening s) (c_fetching s) (c_log s).
Definition with_stray x s := mkCursor (c_state s) (c_err s) (c_lease s) (c_idle s) x (c_deadline s) (c_opening s) (c_fetching s) (c_log s).
Definition with_deadline x s := mkCursor (c_state s) (c_err s) (c_lease s) (c_idle s) (c_stray s) x (c_opening s) (c_fetching s) (c_log s).
Definition with_opening x s := mkCursor (c_state s) (c_err s) (c_lease s) (c_idle s) (c_stray s) (c_deadline s) x (c_fetching s) (c_log s).
Definition with_fetching x s := mkCursor (c_state s) (c_err s) (c_lease s) (c_idle s) (c_stray s) (c_deadline s) (c_opening s) x (c_log s).
Definition act_ (a : act) s := mkCursor (c_state s) (c_err s) (c_lease s) (c_idle s) (c_stray s) (c_deadline s) (c_opening s) (c_fetching s) (c_log s ++ [a]).

(** Where a thread awaits: the steps of open(), the opening of another call, a FETCH, the steps of close() and of cleanup(). *)
Inductive pc :=
| OAcquire | OBegin | OIdle | OFullScan | OSnapshot | ODeclare
| NOpening | NFetch
| CClose | CCommit | CRollback
| KRollback | KEnd.
#[global] Instance pc_eq : EqDecision pc. Proof. solve_decision. Defined.
Inductive cont :=
(** next(), after close(): return rows or null *)
| KReturn (rows : option (list value))
(** next(), after cleanup(): the finally, then throw this.err *)
| KThrowErr
(** open(), after cleanup(): throw e, which rejects the opening *)
| KOpenFailed (e : cursor_error).
Inductive outcome := Await (p : pc) (k : list cont) | Return (rows : option (list value)) | Reject (e : cursor_error).
Inductive answer := Fine (rows : list value) | Bad (e : cursor_error).

Section Cursor.
Context (opts : CursorOptions) (name : jstr).

Definition idleMs : Z := default 300000 (o_idleTimeoutMs opts).
(** Math.max(1, fetchSize ?? 5_000) *)
Definition fetch_size : Z := Z.max 1 (default 5000 (o_fetchSize opts)).
(** maxDurationMs and snapshot are tested as truth values. *)
Definition maxDuration : option Z := match o_maxDurationMs opts with Some 0 => None | m => m end.
Definition snapshot : option jstr := match o_snapshot opts with Some [] => None | s => s end.
Definition escaped (s : jstr) : jstr := s ≫= (fun c => if c =? 39 then [39; 39] else [c]).

Definition query (sql : jstr) (p : pc) (k : list cont) (s : cursor) : cursor * outcome := (act_ (Query sql) s, Await p k).
Definition clearTimers (s : cursor) : cursor := with_deadline false (with_idle false s).
(** A method that another one awaits has returned, or thrown. *)
Definition returned (k : list cont) (s : cursor) : cursor * outcome :=
  match k with
  | [] => (s, Return None)
  | KReturn r :: _ => (s, Return r)
  | KThrowErr :: _ => (with_fetching false s, Reject (default NoLease (c_err s)))
  | KOpenFailed e :: _ => (with_opening (OpenFailed e) s, Reject e)
  end.
Definition threw (e : cursor_error) (k : list cont) (s : cursor) : cursor * outcome :=
  match k with
  | KThrowErr :: _ => (with_fetching false s, Reject e)
  | KOpenFailed _ :: _ => (with_opening (OpenFailed e) s, Reject e)
  | _ => (s, Reject e)
  end.
(** this.lease?.release(); this.lease = null *)
Definition release (s : cursor) : cursor := if c_lease s then with_lease false (act_ Release s) else s.

Definition close_sql : jstr := js "close " ++ name.
Definition close (k : list cont) (s : cursor) : cursor * outcome :=
  match c_state s with
  | CDone => returned k s
  | st =>
    let was_open := bool_decide (st = COpen) && c_lease s in
    let s := clearTimers (with_state CDone s) in
    match c_err s with
    | None => if was_open then query close_sql CClose k s else returned k (release s)
    | Some _ => returned k (release s)
    end
  end.
Definition cleanup (e : cursor_error) (k : list cont) (s : cursor) : cursor * outcome :=
  let s := clearTimers (with_state CDone (with_err (Some e) s)) in
  if c_lease s then if c_fetching s then (act_ EndConn s, Await KEnd k) else query (js "rollback") KRollback k s
  else returned k s.
(** this.lease.release(), without the question mark *)
Definition cleaned (k : list cont) (s : cursor) : cursor * outcome :=
  if c_lease s then returned k (release s) else threw NoLease k s.

(** ** open() *)

Definition declare (s : cursor) : cursor * outcome := query (js "declare " ++ name ++ js " no scroll cursor for " ++ o_sql opts) ODeclare [] s.
Definition after_full_scan (s : cursor) : cursor * outcome :=
  match snapshot with Some x => query (js "set transaction snapshot '" ++ escaped x ++ js "'") OSnapshot [] s | None => declare s end.
Definition after_idle (s : cursor) : cursor * outcome :=
  if o_fullScan opts then query (js "set local cursor_tuple_fraction = 1.0") OFullScan [] s else after_full_scan s.
Definition after_begin (s : cursor) : cursor * outcome :=
  if 0 <? idleMs then query (js "set local idle_in_transaction_session_timeout = " ++ show_Z idleMs) OIdle [] s else after_idle s.
Definition after_acquire (s : cursor) : cursor * outcome :=
  query (match snapshot with Some _ => js "begin isolation level repeatable read read only" | None => js "begin" end) OBegin [] (with_lease true s).
Definition after_declare (s : cursor) : cursor * outcome :=
  (with_opening Opened (match maxDuration with Some _ => with_deadline true s | None => s end), Return None).
(** The calls of open() while it is not idle share its promise; the first starts the steps. *)
Definition open (s : cursor) : cursor * outcome :=
  (with_opening Opening (with_state COpen (act_ Acquire s)), Await OAcquire []).

(** ** next() *)

Definition fetch_sql : jstr := js "fetch " ++ show_Z fetch_size ++ js " from " ++ name.
Definition fetch (s : cursor) : cursor * outcome :=
  match c_err s with
  | Some e => (s, Reject e)
  | None =>
    let s := with_fetching true (with_idle false s) in
    if c_lease s then query fetch_sql NFetch [] s else cleanup NoLease [KThrowErr] s
  end.
(** Arming a timer over an armed one: the first is never cleared. *)
Definition arm (s : cursor) : cursor := with_idle true (if c_idle s then with_stray (S (c_stray s)) s else s).
Definition fetched (rows : list value) (s : cursor) : cursor * outcome :=
  let s := with_fetching false s in
  if Z.of_nat (length rows) <? fetch_size then close [KReturn (match rows with [] => None | _ => Some rows end)] s
  else (if 0 <? idleMs then arm s else s, Return (Some rows)).
(** The catch runs before the finally: [fetching] is still set. *)
Definition fetch_failed (e : cursor_error) (s : cursor) : cursor * outcome := cleanup (default e (c_err s)) [KThrowErr] s.

(** ** Threads *)

Definition resume (p : pc) (k : list cont) (a : answer) (s : cursor) : cursor * outcome :=
  let opening_failed e := cleanup e [KOpenFailed e] s in
  match p, a with
  | OAcquire, Fine _ => after_acquire s
  | OAcquire, Bad e => (with_opening (OpenFailed e) s, Reject e)
  | OBegin, Fine _ => after_begin s
  | OIdle, Fine _ => after_idle s
  | OFullScan, Fine _ => after_full_scan s
  | OSnapshot, Fine _ => declare s
  | ODeclare, Fine _ => after_declare s
  | (OBegin | OIdle | OFullScan | OSnapshot | ODeclare), Bad e => opening_failed e
  | NOpening, _ => match c_opening s with Opened => fetch s | OpenFailed e => (s, Reject e) | _ => (s, Await NOpening k) end
  | NFetch, Fine rows => fetched rows s
  | NFetch, Bad e => fetch_failed e s
  | CClose, Fine _ => query (js "commit") CCommit k s
  | CCommit, Fine _ => returned k (release s)
  | (CClose | CCommit), Bad _ => query (js "rollback") CRollback k s
  | CRollback, _ => returned k (release s)
  | (KRollback | KEnd), _ => cleaned k s
  end.
(** this.opening of a cursor that was closed before it was opened is null. *)
Definition next (s : cursor) : cursor * list outcome :=
  match c_err s with
  | Some e => (s, [Reject e])
  | None =>
    match c_state s with
    | CDone => (s, [Return None])
    | CIdle => let '(s, o) := open s in (s, [o; Await NOpening []])
    | COpen => (s, [Await NOpening []])
    end
  end.
Definition abort (e : cursor_error) (s : cursor) : cursor * list outcome :=
  match c_state s, c_err s with
  | CDone, _ | _, Some _ => (s, [])
  | _, None => let '(s, o) := cleanup e [] s in (s, [o])
  end.

Inductive event := CallOpen | CallNext | CallClose | IdleTimer | StrayTimer | Deadline | Resume (i : nat) (a : answer).
Record machine := mkMachine { shared : cursor; threads : list outcome }.
Definition start_machine : machine := mkMachine new_cursor [].
Definition spawn (r : cursor * list outcome) (m : machine) : machine := mkMachine r.1 (threads m ++ r.2).
Definition step (e : event) (m : machine) : machine :=
  let s := shared m in
  match e with
  | CallOpen => match c_err s, c_state s with None, CIdle => let '(s, o) := open s in spawn (s, [o]) m | _, _ => m end
  | CallNext => spawn (next s) m
  | CallClose => let '(s, o) := close [] s in spawn (s, [o]) m
  | IdleTimer => if c_idle s then spawn (abort (IdleFor idleMs) (with_idle false s)) m else m
  | StrayTimer => match c_stray s with S n => spawn (abort (IdleFor idleMs) (with_stray n s)) m | O => m end
  | Deadline => if c_deadline s then spawn (abort (ExceededMax (default 0 maxDuration)) (with_deadline false s)) m else m
  | Resume i a =>
    match threads m !! i with
    | Some (Await p k) => let '(s, o) := resume p k a s in mkMachine s (<[i := o]> (threads m))
    | _ => m
    end
  end.
Definition run (es : list event) (m : machine) : machine := foldl (fun m e => step e m) m es.

(** ** One call at a time

    The calls of one consumer, against a server that answers what the thread at a [pc] awaits. A call awaits a
    bounded number of times: [finish] is given [call_fuel]. *)
Section Calls.
Context {W : Type} (serve : W -> pc -> answer * W).
Fixpoint finish (fuel : nat) (w : W) (s : cursor) (o : outcome) : option (cursor * outcome * W) :=
  match o, fuel with
  | Await _ _, O => None
  | Await p k, S n => let '(a, w) := serve w p in let '(s, o) := resume p k a s in finish n w s o
  | _, _ => Some (s, o, w)
  end.
Fixpoint finish_each (fuel : nat) (w : W) (s : cursor) (os : list outcome) (last : outcome) : option (cursor * outcome * W) :=
  match os with
  | [] => Some (s, last, w)
  | o :: os => match finish fuel w s o with Some (s, o, w) => finish_each fuel w s os o | None => None end
  end.
Definition call_fuel : nat := 12.
Definition call_next (w : W) (s : cursor) : option (cursor * outcome * W) :=
  let '(s, os) := next s in finish_each call_fuel w s os (Return None).
(** all(): [n] bounds the calls of next(). *)
Fixpoint all (n : nat) (w : W) (s : cursor) (rows : list value) : option (cursor * (list value + cursor_error) * W) :=
  match n with
  | O => None
  | S n =>
    match call_next w s with
    | Some (s, Return None, w) => Some (s, inl rows, w)
    | Some (s, Return (Some b), w) => all n w s (rows ++ b)
    | Some (s, Reject e, w) => Some (s, inr e, w)
    | _ => None
    end
  end.
(** The finally of the generators: await this.close(). *)
Definition closing {A} (w : W) (s : cursor) (got : A) (e : option cursor_error) : option (cursor * (A * option cursor_error) * W) :=
  let '(s, o) := close [] s in
  match finish call_fuel w s o with
  | Some (s, Reject e', w) => Some (s, (got, Some e'), w)
  | Some (s, _, w) => Some (s, (got, e), w)
  | None => None
  end.
(** for await over the rows, left when the consumer has taken [m] of them. *)
Fixpoint iterate (n m : nat) (w : W) (s : cursor) (rows : list value) : option (cursor * (list value * option cursor_error) * W) :=
  match n with
  | O => None
  | S n =>
    match call_next w s with
    | Some (s, Return None, w) => closing w s rows None
    | Some (s, Return (Some b), w) =>
      if (m <=? length b)%nat then closing w s (rows ++ take m b) None else iterate n (m - length b) w s (rows ++ b)
    | Some (s, Reject e, w) => closing w s rows (Some e)
    | _ => None
    end
  end.
(** for await over the batches, left when the consumer has taken [m] of them. *)
Fixpoint batches (n m : nat) (w : W) (s : cursor) (bs : list (list value)) : option (cursor * (list (list value) * option cursor_error) * W) :=
  match n with
  | O => None
  | S n =>
    match call_next w s with
    | Some (s, Return None, w) => closing w s bs None
    | Some (s, Return (Some b), w) =>
      if (m <=? 1)%nat then closing w s (bs ++ [b]) None else batches n (m - 1) w s (bs ++ [b])
    | Some (s, Reject e, w) => closing w s bs (Some e)
    | _ => None
    end
  end.
End Calls.
End Cursor.

(** A server that holds the rows of the query: a FETCH takes the next ones, and the rest succeeds. *)
Definition row_server (n : Z) (rows : list value) (p : pc) : answer * list value :=
  match p with NFetch => (Fine (take (Z.to_nat n) rows), drop (Z.to_nat n) rows) | _ => (Fine [], rows) end.
(** The statements that open a cursor. *)
Definition opening_sql (opts : CursorOptions) (name : jstr) : list jstr :=
  [match snapshot opts with Some _ => js "begin isolation level repeatable read read only" | None => js "begin" end]
  ++ (if 0 <? idleMs opts then [js "set local idle_in_transaction_session_timeout = " ++ show_Z (idleMs opts)] else [])
  ++ (if o_fullScan opts then [js "set local cursor_tuple_fraction = 1.0"] else [])
  ++ match snapshot opts with Some x => [js "set transaction snapshot '" ++ escaped x ++ js "'"] | None => [] end
  ++ [js "declare " ++ name ++ js " no scroll cursor for " ++ o_sql opts].
