(* ===== verification/CursorProofs.v ===== *)
(** * What a cursor guarantees

    Whatever calls, timers and answers interleave, the connection is given back at most once. Used by one call
    at a time, a cursor gives it back as soon as it is done, sends nothing afterwards, and all() returns the rows
    of the query. The examples at the end are interleavings in which it does not. *)

From S2P Require Import Prelude Utf8 Text Buf Num Dates Value Cursor.

Definition releases (l : list act) : nat := length (List.filter (fun a => match a with Release => true | _ => false end) l).
Lemma releases_snoc l a : releases (l ++ [a]) = (releases l + match a with Release => 1 | _ => 0 end)%nat.
Proof. unfold releases. rewrite List.filter_app, length_app. by destruct a. Qed.
(** A connection that is held, and one that was given back. *)
Definition weight (s : cursor) : nat := ((if c_lease s then 1 else 0) + releases (c_log s))%nat.
Definition acquiring (o : outcome) : bool := match o with Await OAcquire _ => true | _ => false end.
Definition pending (l : list outcome) : nat := length (List.filter acquiring l).

Section Invariant.
Context (opts : CursorOptions) (name : jstr).

(** One step of a thread other than the first of open(). *)
Definition keeps (s : cursor) (r : cursor * outcome) : Prop :=
  weight r.1 = weight s /\ acquiring r.2 = false /\ (c_state r.1 = CIdle -> c_state s = CIdle).
Lemma keeps_query sql p k s : p <> OAcquire -> keeps s (Cursor.query sql p k s).
Proof.
  intros Hp. split; [unfold weight, Cursor.query; cbn [fst act_ c_lease c_log]; by rewrite releases_snoc, Nat.add_0_r|].
  split; [by destruct p|done].
Qed.
Lemma keeps_via s s' r : weight s' = weight s -> (c_state s' = CIdle -> c_state s = CIdle) -> keeps s' r -> keeps s r.
Proof. intros H1 H2 (A & B & C). split; [congruence|]. split; [done|auto]. Qed.
Lemma keeps_returned k s : keeps s (returned k s).
Proof. by destruct k as [|[]]. Qed.
Lemma keeps_threw e k s : keeps s (threw e k s).
Proof. by destruct k as [|[]]. Qed.
Lemma weight_release s : weight (release s) = weight s.
Proof. unfold release, weight. destruct (c_lease s) eqn:E; [|by rewrite E]. cbn [with_lease act_ c_lease c_log]. rewrite releases_snoc. lia. Qed.
Lemma state_release s : c_state (release s) = c_state s.
Proof. unfold release. by destruct (c_lease s). Qed.
Lemma keeps_released k s : keeps s (returned k (release s)).
Proof. apply (keeps_via s (release s)); [apply weight_release|by rewrite state_release|apply keeps_returned]. Qed.
Lemma keeps_close k s : keeps s (close name k s).
Proof.
  unfold close. assert (forall s', weight s' = weight s -> c_state s' = CDone -> keeps s (returned k (release s'))) as G.
  { intros s' H1 H2. apply (keeps_via s s'); [done|by rewrite H2|apply keeps_released]. }
  destruct (c_state s); [| |apply keeps_returned]; (destruct (c_err _); [by apply G|]); (destruct (_ && _); [|by apply G]);
    (apply (keeps_via s (clearTimers (with_state CDone s))); [done|done|by apply keeps_query]).
Qed.
Lemma keeps_cleanup e k s : keeps s (cleanup e k s).
Proof.
  unfold cleanup. set (s1 := clearTimers _). apply (keeps_via s s1); [done|done|]. clearbody s1.
  destruct (c_lease s1); [|apply keeps_returned]. destruct (c_fetching s1); [|by apply keeps_query].
  split; [unfold weight; cbn [fst act_ c_lease c_log]; by rewrite releases_snoc, Nat.add_0_r|done].
Qed.
Lemma keeps_fetch s : keeps s (fetch opts name s).
Proof.
  unfold fetch. destruct (c_err s); [done|]. set (s1 := with_fetching true _). apply (keeps_via s s1); [done|done|]. clearbody s1.
  destruct (c_lease s1); [by apply keeps_query|apply keeps_cleanup].
Qed.
#[local] Hint Resolve keeps_query keeps_returned keeps_threw keeps_released keeps_close keeps_cleanup keeps_fetch : keeps.
Lemma keeps_declare s : keeps s (declare opts name s).
Proof. by apply keeps_query. Qed.
Lemma keeps_full_scan s : keeps s (after_full_scan opts name s).
Proof. unfold after_full_scan. destruct (snapshot opts); [by apply keeps_query|apply keeps_declare]. Qed.
Lemma keeps_idle s : keeps s (after_idle opts name s).
Proof. unfold after_idle. destruct (o_fullScan opts); [by apply keeps_query|apply keeps_full_scan]. Qed.
Lemma keeps_begin s : keeps s (after_begin opts name s).
Proof. unfold after_begin. destruct (_ <? _); [by apply keeps_query|apply keeps_idle]. Qed.
Lemma keeps_fetched rows s : keeps s (fetched opts name rows s).
Proof.
  unfold fetched. apply (keeps_via s (with_fetching false s)); [done|done|]. destruct (_ <? _); [apply keeps_close|].
  unfold arm. destruct (_ <? _); [|done]. cbn [with_fetching c_idle]. by destruct (c_idle s).
Qed.
#[local] Hint Resolve keeps_declare keeps_full_scan keeps_idle keeps_begin keeps_fetched : keeps.
Lemma keeps_resume p k a s : p <> OAcquire -> keeps s (resume opts name p k a s).
Proof.
  intros Hp. assert (keeps s (cleaned k s)) as Hc by (unfold cleaned; destruct (c_lease s); auto with keeps).
  destruct p; try done; destruct a as [rows|e]; cbn [resume]; try (by apply keeps_query); auto with keeps.
  - unfold after_declare. by destruct (maxDuration opts).
  - by destruct (c_opening s) eqn:E; auto with keeps.
  - by destruct (c_opening s) eqn:E; auto with keeps.
  - unfold fetch_failed. auto with keeps.
Qed.

Definition Inv (m : machine) : Prop :=
  (pending (threads m) + weight (shared m) <= 1)%nat /\ (c_state (shared m) = CIdle -> pending (threads m) + weight (shared m) = 0)%nat.
Lemma pending_app l1 l2 : pending (l1 ++ l2) = (pending l1 + pending l2)%nat.
Proof. unfold pending. by rewrite List.filter_app, length_app. Qed.
Lemma pending_cons o l : pending (o :: l) = ((if acquiring o then 1 else 0) + pending l)%nat.
Proof. unfold pending. cbn [List.filter]. by destruct (acquiring o). Qed.
Lemma pending_insert i o o' l : l !! i = Some o -> (pending (<[i := o']> l) + (if acquiring o then 1 else 0) = pending l + (if acquiring o' then 1 else 0))%nat.
Proof.
  revert i. induction l as [|x l IH]; intros [|i] E; try done.
  - injection E as ->. change (<[0%nat := o']> (o :: l)) with (o' :: l). rewrite !pending_cons. lia.
  - cbn in E. specialize (IH i E). change (<[S i := o']> (x :: l)) with (x :: <[i := o']> l). rewrite !pending_cons. lia.
Qed.
Lemma held_spawn s l m : weight s = weight (shared m) -> pending l = 0%nat -> (c_state s = CIdle -> c_state (shared m) = CIdle) -> Inv m -> Inv (spawn (s, l) m).
Proof. intros H1 H2 H3 [I1 I2]. unfold Inv, spawn. cbn [threads shared fst snd]. rewrite pending_app, H1, H2. split; [lia|]. intros E. specialize (I2 (H3 E)). lia. Qed.
Lemma held_spawn_keeps r m : keeps (shared m) r -> Inv m -> Inv (spawn (r.1, [r.2]) m).
Proof. intros (A & B & C) Hi. apply held_spawn; [done| |done|done]. by rewrite pending_cons, B. Qed.
Lemma held_open o m : pending o = 0%nat -> c_state (shared m) = CIdle -> Inv m -> Inv (spawn ((open (shared m)).1, (open (shared m)).2 :: o) m).
Proof.
  intros Ho Hs [I1 I2]. specialize (I2 Hs). unfold Inv, spawn. cbn [threads shared fst snd]. rewrite pending_app, pending_cons, Ho. split; [|done].
  unfold weight, open in *. cbn [fst snd acquiring with_opening with_state act_ c_lease c_log]. rewrite releases_snoc. lia.
Qed.
Lemma held_abort e s m : weight s = weight (shared m) -> c_state s = c_state (shared m) -> Inv m -> Inv (spawn (abort e s) m).
Proof.
  intros Hw Hs Hi. assert (Inv (spawn (s, []) m)) as Hn by (apply held_spawn; [done|done|by rewrite Hs|done]).
  pose proof (keeps_via (shared m) s _ Hw (fun E => eq_trans (eq_sym Hs) E) (keeps_cleanup e [] s)) as Hk.
  unfold abort. destruct (cleanup e [] s) as [s' o]. destruct (c_state s), (c_err s); try done; by apply (held_spawn_keeps (s', o)).
Qed.
Lemma held_step e m : Inv m -> Inv (step opts name e m).
Proof.
  intros Hi. destruct e as [| | | | | |i a]; cbn [step].
  - destruct (c_err (shared m)), (c_state (shared m)) eqn:E; try done. by apply (held_open [] m).
  - unfold next. destruct (c_err (shared m)); [by apply held_spawn|]. destruct (c_state (shared m)) eqn:E; [|by apply held_spawn|by apply held_spawn].
    by apply (held_open [Await NOpening []] m).
  - pose proof (keeps_close [] (shared m)) as Hk. destruct (close name [] (shared m)) as [s o]. by apply (held_spawn_keeps (s, o)).
  - destruct (c_idle (shared m)); [|done]. by apply held_abort.
  - destruct (c_stray (shared m)); [done|]. by apply held_abort.
  - destruct (c_deadline (shared m)); [|done]. by apply held_abort.
  - destruct (threads m !! i) as [[p k| |]|] eqn:Et; try done. destruct (decide (p = OAcquire)) as [->|Hp].
    + pose proof (fun o => pending_insert i _ o _ Et) as Hins. cbn [acquiring] in Hins. destruct Hi as [I1 I2]. cbn [resume]. destruct a as [rows|e].
      * specialize (Hins (Await OBegin [])). cbn [acquiring] in Hins. unfold Inv, after_acquire, Cursor.query, weight in *.
        cbn [threads shared with_lease act_ c_lease c_log c_state] in *. rewrite releases_snoc.
        split; [destruct (c_lease (shared m)); lia|]. intros E. specialize (I2 E). lia.
      * specialize (Hins (Reject e)). cbn [acquiring] in Hins. unfold Inv, weight in *. cbn [threads shared with_opening c_lease c_log c_state] in *.
        split; [lia|]. intros E. specialize (I2 E). lia.
    + pose proof (keeps_resume p k a (shared m) Hp) as (A & B & C). destruct (resume opts name p k a (shared m)) as [s o]. cbn in A, B, C.
      pose proof (pending_insert i _ o _ Et) as Hins. rewrite B in Hins. assert (acquiring (Await p k) = false) as Ha by by destruct p. rewrite Ha in Hins.
      destruct Hi as [I1 I2]. unfold Inv. cbn [threads shared]. rewrite A. split; [lia|]. intros E. specialize (I2 (C E)). lia.
Qed.
Lemma held_run es m : Inv m -> Inv (run opts name es m).
Proof. revert m. induction es as [|e es IH]; intros m Hi; [done|]. apply IH. by apply held_step. Qed.

(** C6: Whatever calls, timers and answers interleave, the connection of a cursor is given back at most once, and
    not while the cursor holds it or waits for it. *)
Theorem released_once es :
  let m := run opts name es start_machine in
  (releases (c_log (shared m)) <= 1)%nat
  /\ (releases (c_log (shared m)) = 1%nat -> c_lease (shared m) = false /\ Forall (fun o => acquiring o = false) (threads m)).
Proof.
  cbv zeta. assert (Inv (run opts name es start_machine)) as [I1 _] by (by apply held_run; split; cbn; [lia|]).
  unfold weight in I1. split; [lia|]. intros E. rewrite E in I1. destruct (c_lease _); [lia|]. split; [done|].
  assert (pending (threads (run opts name es start_machine)) = 0%nat) as Hp by lia. revert Hp. generalize (threads (run opts name es start_machine)).
  intros l. induction l as [|o l IH]; [constructor|]. rewrite pending_cons. intros Hp. destruct (acquiring o) eqn:Eo; [lia|]. constructor; [done|]. apply IH. lia.
Qed.
End Invariant.

(** ** all() *)

Section All.
Context (opts : CursorOptions) (name : jstr).
Notation size := (fetch_size opts).
Notation serve := (row_server size).
Lemma fetch_size_pos : 1 <= size.
Proof. unfold fetch_size. lia. Qed.

(** An open cursor between two calls. *)
Definition between (s : cursor) : Prop :=
  c_state s = COpen /\ c_err s = None /\ c_lease s = true /\ c_opening s = Opened /\ c_fetching s = false.
(** A cursor that is closed, its connection given back. *)
Definition over (l : list act) (s : cursor) : Prop :=
  c_state s = CDone /\ c_err s = None /\ c_lease s = false /\ c_deadline s = false /\ c_idle s = false /\ c_log s = l.

Definition drive (n : nat) (rows : list value) (r : cursor * outcome) : option (cursor * outcome * list value) := finish opts name serve n rows r.1 r.2.
Lemma drive_query n rows sql p k s : p <> NFetch -> drive (S n) rows (Cursor.query sql p k s) = drive n rows (resume opts name p k (Fine []) (act_ (Query sql) s)).
Proof.
  intros Hp. unfold drive, Cursor.query. cbn [fst snd finish]. assert (serve rows p = (Fine [], rows)) as -> by by destruct p.
  by destruct (resume _ _ _ _ _ _).
Qed.

(** The rest of open(), from a cursor that holds its connection: it opens, sending these statements. *)
Definition opens (n : nat) (sqls : list jstr) (f : cursor -> cursor * outcome) : Prop := forall m s rows,
  (n <= m)%nat -> c_state s = COpen -> c_err s = None -> c_lease s = true -> c_fetching s = false ->
  exists s', drive m rows (f s) = Some (s', Return None, rows) /\ between s' /\ c_log s' = c_log s ++ map Query sqls.
Lemma opens_query n sqls sql p f :
  p <> NFetch -> (forall s, resume opts name p [] (Fine []) s = f s) -> opens n sqls f -> opens (S n) (sql :: sqls) (Cursor.query sql p []).
Proof.
  intros Hp Hf Ho [|m] s rows Hm H1 H2 H3 H4; [lia|]. rewrite drive_query, Hf by done.
  destruct (Ho m (act_ (Query sql) s) rows) as (s' & E & Hb & Hl); [lia|done..|]. exists s'. split; [done|]. split; [done|].
  rewrite Hl. cbn [act_ c_log map]. by rewrite <- app_assoc.
Qed.
Lemma opens_skip n sqls f : opens n sqls f -> opens (S n) sqls f.
Proof. intros Ho m s rows Hm. apply Ho. lia. Qed.
Lemma opens_declared : opens 0 [] (after_declare opts).
Proof.
  intros m s rows _ H1 H2 H3 H4. unfold after_declare, drive. eexists. cbn [fst snd]. split; [by destruct m|].
  split; [by destruct (maxDuration opts)|]. rewrite app_nil_r. by destruct (maxDuration opts).
Qed.
Lemma opens_declare : opens 1 [js "declare " ++ name ++ js " no scroll cursor for " ++ o_sql opts] (declare opts name).
Proof. by apply (opens_query 0 [] _ ODeclare (after_declare opts)); [..|apply opens_declared]. Qed.
Lemma opens_begin : opens 4 (tail (opening_sql opts name)) (after_begin opts name).
Proof.
  unfold opening_sql. cbn [tail app].
  assert (opens 2 (match snapshot opts with Some x => [js "set transaction snapshot '" ++ escaped x ++ js "'"] | None => [] end
    ++ [js "declare " ++ name ++ js " no scroll cursor for " ++ o_sql opts]) (after_full_scan opts name)) as H2.
  { unfold after_full_scan. destruct (snapshot opts); [|apply opens_skip, opens_declare]. by apply (opens_query 1 _ _ OSnapshot (declare opts name)); [..|apply opens_declare]. }
  set (l2 := _ ++ [_]) in H2 |- *. clearbody l2.
  assert (opens 3 ((if o_fullScan opts then [js "set local cursor_tuple_fraction = 1.0"] else []) ++ l2) (after_idle opts name)) as H3.
  { unfold after_idle. destruct (o_fullScan opts); [|by apply opens_skip]. by apply (opens_query 2 _ _ OFullScan (after_full_scan opts name)). }
  set (l3 := _ ++ l2) in H3 |- *. clearbody l3.
  unfold after_begin. destruct (0 <? idleMs opts); [|by apply opens_skip]. by apply (opens_query 3 _ _ OIdle (after_idle opts name)).
Qed.
Lemma drive_open s rows :
  c_err s = None -> c_fetching s = false ->
  exists s', drive call_fuel rows (open s) = Some (s', Return None, rows) /\ between s' /\ c_log s' = c_log s ++ Acquire :: map Query (opening_sql opts name).
Proof.
  intros He Hf. unfold drive, open, call_fuel. cbn [fst snd]. set (s1 := with_opening Opening _).
  destruct (opens_query 4 _ (match snapshot opts with Some _ => js "begin isolation level repeatable read read only" | None => js "begin" end)
    OBegin (after_begin opts name) (ltac:(done)) (fun s => eq_refl) opens_begin 11%nat (with_lease true s1) rows) as (s' & E & Hb & Hl); [lia|done..|].
  exists s'. split; [|split; [done|]].
  - rewrite <- E. unfold drive. cbn [finish row_server resume]. unfold after_acquire. by destruct (Cursor.query _ _ _ _).
  - rewrite Hl. unfold s1. cbn [with_lease with_opening with_state act_ c_log]. by rewrite <- app_assoc.
Qed.

(** A call of next() on an open cursor. *)
Lemma drive_close n s rows r :
  between s -> drive (S (S n)) rows (close name [KReturn r] s) =
    let s := with_lease false (act_ Release (act_ (Query (js "commit")) (act_ (Query (close_sql name)) (clearTimers (with_state CDone s))))) in
    drive n rows (s, Return r).
Proof.
  intros (H1 & H2 & H3 & H4 & H5). unfold close. rewrite H1. cbn [clearTimers with_idle with_deadline with_state c_err c_lease]. rewrite H2, H3.
  cbn [andb bool_decide]. rewrite bool_decide_true by done. cbn [andb]. rewrite drive_query by done. cbn [resume]. rewrite drive_query by done. cbn [resume].
  unfold release, clearTimers. cbn [act_ c_lease with_idle with_deadline with_state]. by rewrite H3.
Qed.
Lemma next_full s rows :
  between s -> (Z.to_nat size <= length rows)%nat ->
  exists s', call_next opts name serve rows s = Some (s', Return (Some (take (Z.to_nat size) rows)), drop (Z.to_nat size) rows)
    /\ between s' /\ c_log s' = c_log s ++ [Query (fetch_sql opts name)].
Proof.
  intros (H1 & H2 & H3 & H4 & H5) Hn. pose proof fetch_size_pos as Hp. unfold call_next, next. rewrite H2, H1. cbn [finish_each].
  unfold call_fuel. cbn [finish row_server resume]. rewrite H4. unfold fetch. rewrite H2. cbn [with_fetching with_idle c_lease]. rewrite H3.
  cbn [Cursor.query finish row_server resume]. unfold fetched. rewrite length_take, Nat.min_l by lia. rewrite (proj2 (Z.ltb_ge _ _)) by lia.
  cbn [finish finish_each]. eexists. split; [reflexivity|].
  unfold arm. by destruct (0 <? idleMs opts).
Qed.
Lemma next_last s rows :
  between s -> (length rows < Z.to_nat size)%nat ->
  exists s', call_next opts name serve rows s = Some (s', Return (match rows with [] => None | _ => Some rows end), [])
    /\ over (c_log s ++ [Query (fetch_sql opts name); Query (close_sql name); Query (js "commit"); Release]) s'.
Proof.
  intros (H1 & H2 & H3 & H4 & H5) Hn. pose proof fetch_size_pos as Hp. unfold call_next, next. rewrite H2, H1. cbn [finish_each].
  unfold call_fuel. cbn [finish row_server resume]. rewrite H4. unfold fetch. rewrite H2. cbn [with_fetching with_idle c_lease]. rewrite H3.
  cbn [Cursor.query finish row_server resume]. unfold fetched. rewrite take_ge, drop_ge by lia. rewrite (proj2 (Z.ltb_lt _ _)) by lia.
  set (s1 := with_fetching false _). assert (between s1) as Hb by by unfold between.
  pose proof (drive_close 8%nat s1 [] (match rows with [] => None | _ => Some rows end) Hb) as E. unfold drive in E.
  destruct (close name _ s1) as [s2 o]. cbn [fst snd finish row_server resume] in E |- *.
  rewrite E. cbn. eexists. split; [reflexivity|].
  unfold over, s1. cbn. by rewrite <- !app_assoc.
Qed.
Lemma next_first s rows :
  c_state s = CIdle -> c_err s = None -> c_fetching s = false ->
  exists s', call_next opts name serve rows s = call_next opts name serve rows s' /\ between s'
    /\ c_log s' = c_log s ++ Acquire :: map Query (opening_sql opts name).
Proof.
  intros H1 H2 H3. destruct (drive_open s rows H2 H3) as (s' & E & Hb & Hl). exists s'. split; [|done].
  unfold call_next at 1, next. rewrite H2, H1. unfold drive in E. destruct (open s) as [s1 o]. cbn [fst snd] in E. cbn [finish_each]. rewrite E.
  destruct Hb as (B1 & B2 & _). unfold call_next, next. by rewrite B2, B1.
Qed.

(** The fetches that read [n] rows: the last one is short. *)
Definition fetches (n : nat) : nat := S (n / Z.to_nat size).
Definition session (rows : list value) : list act :=
  Acquire :: map Query (opening_sql opts name) ++ repeat (Query (fetch_sql opts name)) (fetches (length rows))
  ++ [Query (close_sql name); Query (js "commit"); Release].
Lemma all_open n : forall s rows acc, (length rows < n)%nat -> between s ->
  exists s', all opts name serve (S n) rows s acc = Some (s', inl (acc ++ rows), [])
    /\ over (c_log s ++ repeat (Query (fetch_sql opts name)) (fetches (length rows)) ++ [Query (close_sql name); Query (js "commit"); Release]) s'.
Proof.
  induction n as [|n IH]; intros s rows acc Hn Hb; [lia|]. pose proof fetch_size_pos as Hp. change (all opts name serve (S (S n)) rows s acc) with
    (match call_next opts name serve rows s with
     | Some (s, Return None, w) => Some (s, inl acc, w) | Some (s, Return (Some b), w) => all opts name serve (S n) w s (acc ++ b)
     | Some (s, Reject e, w) => Some (s, inr e, w) | _ => None end).
  destruct (decide (Z.to_nat size <= length rows)%nat) as [Hl|Hl].
  - destruct (next_full s rows Hb Hl) as (s1 & -> & Hb1 & Hg).
    destruct (IH s1 (drop (Z.to_nat size) rows) (acc ++ take (Z.to_nat size) rows)) as (s2 & -> & Ho); [rewrite length_drop; lia|done|].
    exists s2. rewrite <- app_assoc, take_drop. split; [done|]. rewrite Hg, length_drop in Ho. unfold fetches in *.
    replace (length rows / Z.to_nat size)%nat with (S ((length rows - Z.to_nat size) / Z.to_nat size)); [by rewrite <- app_assoc in Ho|].
    replace (length rows) with ((length rows - Z.to_nat size) + 1 * Z.to_nat size)%nat at 2 by lia. rewrite Nat.div_add by lia. lia.
  - assert (length rows < Z.to_nat size)%nat as Hs by lia. destruct (next_last s rows Hb Hs) as (s1 & -> & Ho).
    unfold fetches. rewrite Nat.div_small by done. exists s1. split; [|done].
    destruct rows as [|x rows]; [by rewrite app_nil_r|]. destruct Ho as (O1 & O2 & _).
    cbn [all]. unfold call_next, next. by rewrite O2, O1.
Qed.
(** all() returns the rows of the query, in order, whatever the batch size: the cursor takes a connection,
    opens the transaction with its guards, declares the cursor, fetches until a batch is short, commits, gives the
    connection back, and ends closed with its timers off. *)
Theorem all_exact rows :
  exists s', all opts name serve (S (S (length rows))) rows new_cursor [] = Some (s', inl rows, []) /\ over (session rows) s'.
Proof.
  destruct (next_first new_cursor rows eq_refl eq_refl eq_refl) as (s & E & Hb & Hl).
  destruct (all_open (S (length rows)) s rows [] (Nat.lt_succ_diag_r _) Hb) as (s' & Ha & Ho). exists s'. split.
  - change (Some (s', inl rows, [])) with (Some (s', @inl (list value) cursor_error ([] ++ rows), @nil value)). rewrite <- Ha. cbn [all]. by rewrite E.
  - unfold session. rewrite Hl in Ho. by cbn [c_log new_cursor app] in Ho.
Qed.

(** ** Loops that are left early *)

Lemma closing_over {A} log (s : cursor) rows (got : A) e : over log s -> closing opts name serve rows s got e = Some (s, (got, e), rows).
Proof. intros (H1 & _). unfold closing, close. by rewrite H1. Qed.
Lemma closing_between {A} s rows (got : A) : between s ->
  exists s', closing opts name serve rows s got None = Some (s', (got, None), rows)
    /\ over (c_log s ++ [Query (close_sql name); Query (js "commit"); Release]) s'.
Proof.
  intros (H1 & H2 & H3 & H4 & H5). unfold closing, close. rewrite H1. cbn [clearTimers with_idle with_deadline with_state c_err c_lease]. rewrite H2, H3.
  rewrite bool_decide_true by done. cbn [andb Cursor.query]. unfold call_fuel. cbn [finish row_server resume Cursor.query returned].
  unfold release, clearTimers. cbn. rewrite H3. eexists. split; [reflexivity|]. unfold over. cbn. by rewrite <- !app_assoc.
Qed.
Lemma iterate_open n : forall m s rows acc, (length rows < n)%nat -> between s ->
  exists s' r, iterate opts name serve (S n) (S m) rows s acc = Some (s', (acc ++ take (S m) rows, None), r)
    /\ over (c_log s ++ repeat (Query (fetch_sql opts name)) (Nat.min (fetches (length rows)) (S (m / Z.to_nat size)))
             ++ [Query (close_sql name); Query (js "commit"); Release]) s'.
Proof.
  induction n as [|n IH]; intros m s rows acc Hn Hb; [lia|]. pose proof fetch_size_pos as Hp. set (z := Z.to_nat size) in *.
  change (iterate opts name serve (S (S n)) (S m) rows s acc) with
    (match call_next opts name serve rows s with
     | Some (s, Return None, w) => closing opts name serve w s acc None
     | Some (s, Return (Some b), w) => if (S m <=? length b)%nat then closing opts name serve w s (acc ++ take (S m) b) None
                                       else iterate opts name serve (S n) (S m - length b) w s (acc ++ b)
     | Some (s, Reject e, w) => closing opts name serve w s acc (Some e) | _ => None end).
  destruct (decide (z <= length rows)%nat) as [Hl|Hl].
  - destruct (next_full s rows Hb Hl) as (s1 & -> & Hb1 & Hg). fold z. rewrite length_take, Nat.min_l by done.
    destruct (Nat.leb_spec (S m) z) as [Hm|Hm].
    + destruct (closing_between s1 (drop z rows) (acc ++ take (S m) (take z rows)) Hb1) as (s2 & -> & Ho). rewrite take_take, Nat.min_l by lia.
      do 2 eexists. split; [reflexivity|]. rewrite Hg, <- app_assoc in Ho. rewrite Nat.div_small by lia. unfold fetches. rewrite Nat.min_r by lia. exact Ho.
    + destruct (IH (m - z)%nat s1 (drop z rows) (acc ++ take z rows)) as (s2 & r & E & Ho); [rewrite length_drop; lia|done|].
      replace (S m - z)%nat with (S (m - z)) by lia. rewrite E. exists s2, r. split.
      * rewrite <- app_assoc. do 3 f_equal. rewrite <- (take_drop z rows) at 3. rewrite take_app_ge by (rewrite length_take; lia).
        rewrite length_take, Nat.min_l by done. by replace (S m - z)%nat with (S (m - z)) by lia.
      * rewrite Hg, length_drop, <- app_assoc in Ho. unfold fetches in *. fold z in Ho |- *.
        replace (length rows / z)%nat with (S ((length rows - z) / z)).
        2:{ replace (length rows) with ((length rows - z) + 1 * z)%nat at 2 by lia. rewrite Nat.div_add by lia. lia. }
        replace (m / z)%nat with (S ((m - z) / z)); [exact Ho|].
        replace m with ((m - z) + 1 * z)%nat at 2 by lia. rewrite Nat.div_add by lia. lia.
  - assert (length rows < z)%nat as Hs by lia. destruct (next_last s rows Hb Hs) as (s1 & -> & Ho). unfold fetches. rewrite (Nat.div_small (length rows)) by done.
    rewrite Nat.min_l by lia. destruct rows as [|x rows].
    + rewrite (closing_over _ s1 [] acc None Ho). exists s1, []. by rewrite app_nil_r.
    + destruct (Nat.leb_spec (S m) (length (x :: rows))) as [Hm|Hm].
      * rewrite (closing_over _ s1 [] _ None Ho). by exists s1, [].
      * destruct Ho as (O1 & O2 & O3). replace (S m - length (x :: rows))%nat with (S (m - length (x :: rows))) by lia. cbn [iterate].
        unfold call_next, next. rewrite O2, O1. cbn [finish_each]. unfold call_fuel. cbn [finish].
        rewrite (closing_over _ s1 [] _ None (conj O1 (conj O2 O3))).
        exists s1, []. split; [|by split]. by rewrite take_ge by lia.
Qed.
(** C7: A loop over the rows that the consumer leaves after [m] of them has got the first [m] rows, in order, with no
    more fetches than they take; whether it is left early or runs out, the transaction is committed, the connection given
    back once, and the cursor closed with its timers off. *)
Theorem iterated_exact m rows : (0 < m)%nat ->
  exists s' r, iterate opts name serve (S (S (length rows))) m rows new_cursor [] = Some (s', (take m rows, None), r)
    /\ over (Acquire :: map Query (opening_sql opts name)
             ++ repeat (Query (fetch_sql opts name)) (Nat.min (fetches (length rows)) (S ((m - 1) / Z.to_nat size)))
             ++ [Query (close_sql name); Query (js "commit"); Release]) s'.
Proof.
  intros Hm. destruct m as [|m]; [lia|]. destruct (next_first new_cursor rows eq_refl eq_refl eq_refl) as (s & E & Hb & Hl).
  destruct (iterate_open (S (length rows)) m s rows [] (Nat.lt_succ_diag_r _) Hb) as (s' & r & Ha & Ho). exists s', r. split.
  - rewrite <- (app_nil_l (take (S m) rows)), <- Ha. cbn [iterate]. by rewrite E.
  - rewrite Hl in Ho. cbn [c_log new_cursor app] in Ho. by replace (S m - 1)%nat with m by lia.
Qed.

Lemma batches_open n : forall m s rows acc, (length rows < n)%nat -> between s ->
  exists s' bs r, batches opts name serve (S n) (S m) rows s acc = Some (s', (acc ++ bs, None), r)
    /\ concat bs = take (S m * Z.to_nat size) rows /\ Forall (fun b => b <> [] /\ (length b <= Z.to_nat size)%nat) bs
    /\ over (c_log s ++ repeat (Query (fetch_sql opts name)) (Nat.min (fetches (length rows)) (S m))
             ++ [Query (close_sql name); Query (js "commit"); Release]) s'.
Proof.
  induction n as [|n IH]; intros m s rows acc Hn Hb; [lia|]. pose proof fetch_size_pos as Hp. set (z := Z.to_nat size) in *.
  change (batches opts name serve (S (S n)) (S m) rows s acc) with
    (match call_next opts name serve rows s with
     | Some (s, Return None, w) => closing opts name serve w s acc None
     | Some (s, Return (Some b), w) => if (S m <=? 1)%nat then closing opts name serve w s (acc ++ [b]) None
                                       else batches opts name serve (S n) (S m - 1) w s (acc ++ [b])
     | Some (s, Reject e, w) => closing opts name serve w s acc (Some e) | _ => None end).
  destruct (decide (z <= length rows)%nat) as [Hl|Hl].
  - destruct (next_full s rows Hb Hl) as (s1 & -> & Hb1 & Hg). fold z.
    assert (take z rows <> [] /\ (length (take z rows) <= z)%nat) as Hz.
    { rewrite length_take. split; [|lia]. intros E%(f_equal length). rewrite length_take in E. cbn in E. lia. }
    destruct m as [|m].
    + destruct (closing_between s1 (drop z rows) (acc ++ [take z rows]) Hb1) as (s2 & E & Ho). change (1 <=? 1)%nat with true. cbv iota. rewrite E.
      exists s2, [take z rows]. eexists. split; [reflexivity|]. rewrite Hg, <- app_assoc in Ho. unfold fetches. rewrite Nat.min_r by lia.
      split; [cbn [concat]; rewrite app_nil_r; f_equal; lia|]. split; [by apply Forall_singleton|exact Ho].
    + change (S (S m) <=? 1)%nat with false. cbv iota. replace (S (S m) - 1)%nat with (S m) by lia.
      destruct (IH m s1 (drop z rows) (acc ++ [take z rows])) as (s2 & bs & r & -> & Hc & Hf & Ho); [rewrite length_drop; lia|done|].
      exists s2, (take z rows :: bs), r. rewrite <- app_assoc. split; [done|]. split.
      * cbn [concat]. rewrite Hc. change (S (S m) * z)%nat with (z + S m * z)%nat. rewrite <- (take_drop z rows) at 3.
        rewrite take_app_ge by (rewrite length_take; lia). rewrite length_take, Nat.min_l by done. do 2 f_equal. lia.
      * split; [by apply Forall_cons|]. rewrite Hg, length_drop, <- app_assoc in Ho. unfold fetches in *. fold z in Ho |- *.
        replace (length rows / z)%nat with (S ((length rows - z) / z)); [exact Ho|].
        replace (length rows) with ((length rows - z) + 1 * z)%nat at 2 by lia. rewrite Nat.div_add by lia. lia.
  - assert (length rows < z)%nat as Hs by lia. destruct (next_last s rows Hb Hs) as (s1 & -> & Ho). unfold fetches. rewrite (Nat.div_small (length rows)) by done.
    rewrite Nat.min_l by lia. destruct rows as [|x rows].
    + rewrite (closing_over _ s1 [] acc None Ho). exists s1, [], []. by rewrite app_nil_r, take_nil.
    + exists s1, [x :: rows], []. rewrite take_ge by nia. split; [|split; [by rewrite <- (app_nil_r (x :: rows)) at 2|]; split; [apply Forall_singleton; split; [done|lia]|done]].
      destruct m as [|m].
      * change (1 <=? 1)%nat with true. cbv iota. by rewrite (closing_over _ s1 [] _ None Ho).
      * change (S (S m) <=? 1)%nat with false. cbv iota. destruct Ho as (O1 & O2 & O3). cbn [batches].
        unfold call_next, next. rewrite O2, O1. cbn [finish_each]. unfold call_fuel. cbn [finish].
        by rewrite (closing_over _ s1 [] _ None (conj O1 (conj O2 O3))).
Qed.
(** The same of a loop over the batches: the consumer has got the rows of its [m] batches, each of at most fetchSize rows
    and none empty. *)
Theorem batched_exact m rows : (0 < m)%nat ->
  exists s' bs r, batches opts name serve (S (S (length rows))) m rows new_cursor [] = Some (s', (bs, None), r)
    /\ concat bs = take (m * Z.to_nat size) rows /\ Forall (fun b => b <> [] /\ (length b <= Z.to_nat size)%nat) bs
    /\ over (Acquire :: map Query (opening_sql opts name)
             ++ repeat (Query (fetch_sql opts name)) (Nat.min (fetches (length rows)) m)
             ++ [Query (close_sql name); Query (js "commit"); Release]) s'.
Proof.
  intros Hm. destruct m as [|m]; [lia|]. destruct (next_first new_cursor rows eq_refl eq_refl eq_refl) as (s & E & Hb & Hl).
  destruct (batches_open (S (length rows)) m s rows [] (Nat.lt_succ_diag_r _) Hb) as (s' & bs & r & Ha & Hc & Hf & Ho). exists s', bs, r. split.
  - rewrite <- (app_nil_l bs), <- Ha. cbn [batches]. by rewrite E.
  - rewrite Hl in Ho. by cbn [c_log new_cursor app] in Ho.
Qed.
End All.

(** ** Interleavings in which the cursor does not keep its promise *)

Definition plain : CursorOptions := mkCursorOptions (js "select 1") [] None None false None None.
Definition limited : CursorOptions := mkCursorOptions (js "select 1") [] None None false None (Some 1000).
Definition opened_by (t : nat) : list event := [Resume t (Fine []); Resume t (Fine []); Resume t (Fine []); Resume t (Fine [])].

(** close() while open() waits for the connection: the connection comes, and is never given back. *)
Example close_while_acquiring :
  let m := run plain (js "c") ([CallOpen; CallClose] ++ opened_by 0) start_machine in
  threads m = [Return None; Return None] /\ c_state (shared m) = CDone /\ c_lease (shared m) = true /\ releases (c_log (shared m)) = 0%nat.
Proof. by vm_compute. Qed.
(** A FETCH that the server refuses: the connection is ended, not rolled back. *)
Example failed_fetch_ends :
  let m := run plain (js "c") ([CallNext] ++ opened_by 0 ++ [Resume 1 (Fine []); Resume 1 (Bad (Refused 7)); Resume 1 (Fine [])]) start_machine in
  threads m = [Return None; Reject (Refused 7)] /\ List.last (removelast (c_log (shared m))) Acquire = EndConn.
Proof. by vm_compute. Qed.
(** The deadline passes while a FETCH is under way: two cleanups end the connection, and the call does not reject with the timeout. *)
Example deadline_mid_fetch :
  let m := run limited (js "c") ([CallNext] ++ opened_by 0 ++ [Resume 1 (Fine []); Deadline; Resume 1 (Bad (Refused 7)); Resume 2 (Fine []); Resume 1 (Fine [])]) start_machine in
  threads m = [Return None; Reject NoLease; Return None] /\ c_err (shared m) = Some (ExceededMax 1000).
Proof. by vm_compute. Qed.
(** Two calls of next() at once: the idle timer of the first is not cleared by the next call, and aborts the cursor in use. *)
Example overlapping_idle :
  let rows := repeat VNull (Z.to_nat 1) in
  let one := mkCursorOptions (js "select 1") [] (Some 1) None false None None in
  let m := run one (js "c") ([CallNext; CallNext] ++ opened_by 0 ++ [Resume 1 (Fine []); Resume 2 (Fine []); Resume 1 (Fine rows); Resume 2 (Fine rows);
    CallNext; Resume 3 (Fine []); StrayTimer]) start_machine in
  c_err (shared m) = Some (IdleFor 300000) /\ List.last (c_log (shared m)) Acquire = EndConn.
Proof. by vm_compute. Qed.

Lemma iterated_exact_witness :
  let two := mkCursorOptions (js "select 1") [] (Some 2) None false None None in
  let rows := (fun n => VNum (of_Z n)) <$> [1; 2; 3; 4; 5] in
  exists s' r, iterate two (js "c") (row_server 2) 7 3 rows new_cursor [] = Some (s', (take 3 rows, None), r)
    /\ c_state s' = CDone /\ c_lease s' = false.
Proof.
  intros two rows. destruct (iterated_exact two (js "c") 3 rows) as (s' & r & E & H1 & _ & H3 & _); [lia|]. exists s', r. split; [exact E|]. by split.
Defined.
