(* ===== verification/Streams.v ===== *)
(** * The iterators of stream() and copyTo() (src/connection.ts)

    What the connection does with the task behind an iterator is in Connection.v; here is the iterator itself:
    the buffer between the rows that arrive and the calls of next(), and the pausing of the socket. *)

From S2P Require Import Prelude Utf8 Text Buf.

(** What happens to an iterator: an arrival (with whether the connection has a socket), the end or the failure of
    its task, and the consumer's calls ([return_] with whether a transaction is open). *)
Inductive event {A E : Type} := Arrive (a : A) (socket : bool) | End_ | Fail_ (e : E) | Next | Return_ (inTransaction : bool).
Arguments event : clear implicits.
(** What it does: settle a call of next() or return(), pause or resume the socket, cancel the task. *)
Inductive effect {A E : Type} := Yield (a : A) | Over | Raise (e : E) | PauseSocket | ResumeSocket | CancelTask.
Arguments effect : clear implicits.

(** An Error or null, as a condition. *)
Definition truthy {A} (o : option A) : bool := match o with Some _ => true | None => false end.

Module Rows.
Section Stream.
Context {A E : Type} (HWM : Z).
Record stream := mkStream { buf : list A; waiting : bool; done : bool; err : option E; paused : bool; cancelled : bool }.
Definition init (err : option E) : stream := mkStream [] false false err false false.
Definition set_buf b s := mkStream b (waiting s) (done s) (err s) (paused s) (cancelled s).
Definition set_waiting b s := mkStream (buf s) b (done s) (err s) (paused s) (cancelled s).
Definition set_done b s := mkStream (buf s) (waiting s) b (err s) (paused s) (cancelled s).
Definition set_err e s := mkStream (buf s) (waiting s) (done s) e (paused s) (cancelled s).
Definition set_paused b s := mkStream (buf s) (waiting s) (done s) (err s) b (cancelled s).
Definition set_cancelled b s := mkStream (buf s) (waiting s) (done s) (err s) (paused s) b.

Definition onRow (row : A) (socket : bool) (s : stream) : stream * list (effect A E) :=
  let s := set_buf (buf s ++ [row]) s in
  if waiting s then match buf s with v :: b => (set_waiting false (set_buf b s), [Yield v]) | [] => (s, []) end
  else if (HWM <? Z.of_nat (length (buf s))) && socket && negb (paused s) then (set_paused true s, [PauseSocket]) else (s, []).
(** handle() passes no row on once the task is cancelled or settled. *)
Definition arrive (row : A) (socket : bool) (s : stream) : stream * list (effect A E) :=
  if cancelled s || done s || truthy (err s) then (s, []) else onRow row socket s.
Definition streamEnd (s : stream) : stream * list (effect A E) :=
  let s := set_done true s in if waiting s then (set_waiting false s, [Over]) else (s, []).
Definition streamError (e : E) (s : stream) : stream * list (effect A E) :=
  let s := set_err (Some e) s in if waiting s then (set_waiting false s, [Raise e]) else (s, []).
(** A second call while one waits replaces its resolver. *)
Definition next (s : stream) : stream * list (effect A E) :=
  match buf s with
  | v :: b =>
    let s := set_buf b s in
    if paused s && (2 * Z.of_nat (length b) <? HWM) then (set_paused false s, [ResumeSocket; Yield v]) else (s, [Yield v])
  | [] => match err s with Some e => (s, [Raise e]) | None => if done s then (s, [Over]) else (set_waiting true s, []) end
  end.
Definition return_ (inTransaction : bool) (s : stream) : stream * list (effect A E) :=
  let s := set_cancelled true s in
  let cancel := if negb (done s) && negb (truthy (err s)) && negb inTransaction then [CancelTask] else [] in
  if paused s then (set_paused false s, cancel ++ [ResumeSocket; Over]) else (s, cancel ++ [Over]).

Definition step (e : event A E) (s : stream) : stream * list (effect A E) :=
  match e with
  | Arrive a socket => arrive a socket s
  | End_ => streamEnd s
  | Fail_ e => streamError e s
  | Next => next s
  | Return_ t => return_ t s
  end.
Definition run (es : list (event A E)) (s : stream) : stream * list (effect A E) :=
  foldl (fun r e => let '(s, l) := step e r.1 in (s, r.2 ++ l)) (s, []) es.
End Stream.
Arguments stream : clear implicits.
End Rows.

Module Copy.
Section Stream.
Context {E : Type} (HWM : Z).
(** [result]: the promise of the iterator: pending, the tag, or the error. *)
Record stream := mkStream { chunks : list bytes; buffered : Z; waiting : bool; done : bool; err : option E; paused : bool;
  cancelled : bool; result : option (unit + E) }.
Definition init (err : option E) : stream := mkStream [] 0 false false err false false (inr <$> err).
Definition set_chunks c n s := mkStream c n (waiting s) (done s) (err s) (paused s) (cancelled s) (result s).
Definition set_waiting b s := mkStream (chunks s) (buffered s) b (done s) (err s) (paused s) (cancelled s) (result s).
Definition set_done b s := mkStream (chunks s) (buffered s) (waiting s) b (err s) (paused s) (cancelled s) (result s).
Definition set_err e s := mkStream (chunks s) (buffered s) (waiting s) (done s) e (paused s) (cancelled s) (result s).
Definition set_paused b s := mkStream (chunks s) (buffered s) (waiting s) (done s) (err s) b (cancelled s) (result s).
Definition set_cancelled b s := mkStream (chunks s) (buffered s) (waiting s) (done s) (err s) (paused s) b (result s).
(** A promise keeps its first settlement. *)
Definition settle r s := mkStream (chunks s) (buffered s) (waiting s) (done s) (err s) (paused s) (cancelled s) (match result s with None => Some r | x => x end).

Definition resume (s : stream) : stream * list (effect bytes E) := if paused s then (set_paused false s, [ResumeSocket]) else (s, []).
Definition drain (s : stream) : stream * list (effect bytes E) :=
  let v := match chunks s with [c] => c | cs => concat cs end in
  let '(s, l) := resume (set_chunks [] 0 s) in (s, l ++ [Yield v]).
Definition onCopyData (chunk : bytes) (socket : bool) (s : stream) : stream * list (effect bytes E) :=
  if waiting s then (set_waiting false s, [Yield chunk])
  else
    let s := set_chunks (chunks s ++ [chunk]) (buffered s + blen chunk) s in
    if (HWM <? buffered s) && negb (paused s) && socket then (set_paused true s, [PauseSocket]) else (s, []).
(** handle() passes on no CopyData of a task that is cancelled or settled. *)
Definition arrive (chunk : bytes) (socket : bool) (s : stream) : stream * list (effect bytes E) :=
  if cancelled s || done s || truthy (err s) then (s, []) else onCopyData chunk socket s.
Definition streamEnd (s : stream) : stream * list (effect bytes E) :=
  let s := settle (inl tt) (set_done true s) in if waiting s then (set_waiting false s, [Over]) else (s, []).
Definition streamError (e : E) (s : stream) : stream * list (effect bytes E) :=
  let s := settle (inr e) (set_err (Some e) s) in if waiting s then (set_waiting false s, [Raise e]) else (s, []).
Definition next (s : stream) : stream * list (effect bytes E) :=
  match chunks s with
  | _ :: _ => drain s
  | [] => match err s with Some e => (s, [Raise e]) | None => if done s then (s, [Over]) else (set_waiting true s, []) end
  end.
Definition return_ (inTransaction : bool) (s : stream) : stream * list (effect bytes E) :=
  let isRunning := negb (done s) && negb (truthy (err s)) in
  let '(s, l) := resume (set_chunks [] 0 (set_cancelled true s)) in
  (set_done true s, l ++ (if isRunning && negb inTransaction then [CancelTask] else []) ++ [Over]).

Definition step (e : event bytes E) (s : stream) : stream * list (effect bytes E) :=
  match e with
  | Arrive c socket => arrive c socket s
  | End_ => streamEnd s
  | Fail_ e => streamError e s
  | Next => next s
  | Return_ t => return_ t s
  end.
Definition run (es : list (event bytes E)) (s : stream) : stream * list (effect bytes E) :=
  foldl (fun r e => let '(s, l) := step e r.1 in (s, r.2 ++ l)) (s, []) es.
End Stream.
Arguments stream : clear implicits.
End Copy.
