(* ===== verification/StreamsProofs.v ===== *)
(** * What the iterators of stream() and copyTo() deliver

    Everything that arrives is delivered, in order and once, and a consumer that waits never waits on a socket
    that its own iterator has paused. *)

From S2P Require Import Prelude Utf8 Text Buf Streams.

Section Events.
Context {A E : Type}.
Implicit Types es : list (event A E).
(** What arrives before the end, the failure or return(). *)
Fixpoint accepted es : list A :=
  match es with
  | [] | End_ :: _ | Fail_ _ :: _ | Return_ _ :: _ => []
  | Arrive a _ :: es => a :: accepted es
  | Next :: es => accepted es
  end.
Definition closing (e : event A E) : bool := match e with End_ | Fail_ _ | Return_ _ => true | _ => false end.
Definition returning (e : event A E) : bool := match e with Return_ _ => true | _ => false end.
Lemma accepted_snoc es e :
  accepted (es ++ [e]) = accepted es ++ match e with Arrive a _ => if existsb closing es then [] else [a] | _ => [] end.
Proof. induction es as [|x es IH]; [by destruct e|]. destruct x; cbn; rewrite ?IH; try done; by destruct e. Qed.
Lemma existsb_snoc (f : event A E -> bool) es e : existsb f (es ++ [e]) = existsb f es || f e.
Proof. rewrite existsb_app. cbn. by rewrite orb_false_r. Qed.

Lemma returning_closing es : existsb closing es = false -> existsb returning es = false.
Proof. induction es as [|x es IH]; [done|]. by destruct x. Qed.

Definition yields (l : list (effect A E)) : list A := l ≫= (fun x => match x with Yield a => [a] | _ => [] end).
Definition final (x : effect A E) : bool := match x with Over | Raise _ => true | _ => false end.
(** No row follows an end or an error. *)
Fixpoint last_word (l : list (effect A E)) : bool :=
  match l with [] => true | x :: l => (negb (final x) || bool_decide (length (yields l) = 0%nat)) && last_word l end.
Lemma yields_app l1 l2 : yields (l1 ++ l2) = yields l1 ++ yields l2.
Proof. apply bind_app. Qed.
Lemma last_word_app l1 l2 : last_word l1 -> last_word l2 -> (existsb final l1 -> yields l2 = []) -> last_word (l1 ++ l2).
Proof.
  induction l1 as [|x l1 IH]; [done|]. cbn [last_word app existsb]. intros H1 H2 H3. apply andb_prop_elim in H1 as [H1 H1'].
  apply andb_prop_intro. split; [|apply IH; [done|done|]; intros Hf; apply H3; by destruct (final x)].
  destruct (final x); [|done]. cbn in H1 |- *. apply bool_decide_unpack in H1. apply bool_decide_pack. by rewrite yields_app, length_app, H1, H3.
Qed.
End Events.

Module RowsProofs.
Import Rows.
Section Proofs.
Context {A E : Type} (HWM : Z) (HWM_pos : 1 <= HWM).
Implicit Types s : stream A E.

Definition Inv (es : list (event A E)) (r : stream A E * list (effect A E)) : Prop :=
  let '(s, l) := r in
  yields l ++ buf s = accepted es
  /\ existsb closing es = cancelled s || done s || truthy (err s)
  /\ (waiting s -> buf s = [] /\ done s = false /\ err s = None)
  /\ (paused s -> HWM <= 2 * Z.of_nat (length (buf s)))
  /\ (existsb returning es = cancelled s).
Lemma Inv_snoc es e s l : Inv es (s, l) -> Inv (es ++ [e]) (let '(s', l') := step HWM e s in (s', l ++ l')).
Proof.
  intros (I1 & I2 & I3 & I4 & I5). assert (forall s' l', (yields l ++ yields l') ++ buf s' = accepted (es ++ [e]) ->
    existsb closing es || closing e = cancelled s' || done s' || truthy (err s') ->
    (waiting s' -> buf s' = [] /\ done s' = false /\ err s' = None) -> (paused s' -> HWM <= 2 * Z.of_nat (length (buf s'))) ->
    existsb returning es || returning e = cancelled s' -> Inv (es ++ [e]) (s', l ++ l')) as G.
  { intros s' l' H1 H2 H3 H4 H5. unfold Inv. rewrite yields_app, !existsb_snoc. done. }
  rewrite accepted_snoc, I2, I5, <- I1 in G. revert G. generalize (Inv (es ++ [e])). intros P G. clear I1 I2 I5. destruct s as [b w d er p c]. cbn in *.
  destruct e as [a k| |e| |t]; cbn [step closing returning] in *; rewrite ?orb_false_r, ?orb_true_r in G.
  - unfold arrive. cbn. destruct (c || d || _) eqn:Eg; [apply G; cbn; rewrite ?app_nil_r; auto|].
    unfold onRow. cbn. destruct w.
    + destruct (I3 I) as (-> & -> & ->). cbn. apply G; cbn; rewrite ?app_nil_r; auto; (done || (intros Hp; specialize (I4 Hp); cbn in I4; lia)).
    + destruct ((HWM <? _) && k && negb p) eqn:Ep; (apply G; cbn; rewrite ?app_nil_r, ?app_assoc; auto; try done).
      * intros _. rewrite length_app. cbn. apply andb_prop in Ep as [Ep _]. apply andb_prop in Ep as [Ep _]. apply Z.ltb_lt in Ep. rewrite length_app in Ep. cbn in Ep. lia.
      * intros Hp. specialize (I4 Hp). rewrite length_app. lia.
  - unfold streamEnd. cbn. destruct w; (apply G; cbn; rewrite ?app_nil_r, ?orb_true_r; auto; done).
  - unfold streamError. cbn. destruct w; (apply G; cbn; rewrite ?app_nil_r, ?orb_true_r; auto; done).
  - unfold next. cbn. destruct b as [|v b].
    + destruct er; [|destruct d]; (apply G; cbn; rewrite ?app_nil_r; auto; done).
    + destruct (p && _) eqn:Ep; (apply G; cbn; rewrite ?app_nil_r, <- ?app_assoc; auto; try done).
      * intros Hw. by destruct (I3 Hw).
      * intros Hw. by destruct (I3 Hw).
      * intros Hp. destruct p; [|done]. cbn in Ep. apply Z.ltb_ge in Ep. lia.
  - unfold return_. cbn. destruct p; (apply G; cbn; rewrite ?yields_app, ?app_nil_r; auto; try done);
      destruct (negb d && _ && negb t); cbn; by rewrite app_nil_r.
Qed.

Definition ended (es : list (event A E)) (r : stream A E * list (effect A E)) : Prop :=
  last_word r.2 /\ (existsb final r.2 -> buf r.1 = [] /\ existsb closing es).
Lemma ended_snoc es e s l : existsb returning (es ++ [e]) = false -> Inv es (s, l) -> ended es (s, l) ->
  ended (es ++ [e]) (let '(s', l') := step HWM e s in (s', l ++ l')).
Proof.
  intros Hr (_ & I2 & I3 & _ & I5) [Q1 Q2]. rewrite existsb_snoc in Hr. apply orb_false_elim in Hr as [Hr He]. cbn [fst snd] in *.
  assert (forall s' l', last_word l' -> (existsb final l -> yields l' = [] /\ buf s' = []) -> (existsb final l' -> buf s' = [] /\ existsb closing es || closing e) ->
    ended (es ++ [e]) (s', l ++ l')) as G.
  { intros s' l' H1 H2 H3. split; cbn [fst snd]; [apply last_word_app; [done|done|]; intros Hf; by apply H2|]. rewrite existsb_app, existsb_snoc.
    destruct (existsb final l) eqn:Ef; cbn; [|auto]. intros _. split; [by apply H2|]. destruct (Q2 I) as [_ Hc]. by destruct (existsb closing es). }
  revert G. generalize (ended (es ++ [e])). intros P G. rewrite I2 in G, Q2. clear I2 I5. destruct s as [b w d er p c]. cbn in *.
  destruct e as [a k| |e| |t]; cbn [step closing returning] in *; try done; rewrite ?orb_false_r, ?orb_true_r in G.
  - unfold arrive. cbn. destruct (c || d || _) eqn:Eg; [apply G; [done|intros Hf; by split; [|apply Q2]|done]|].
    assert (existsb final l -> False) as Hn by (intros Hf; by destruct (Q2 Hf)).
    unfold onRow. cbn. destruct w; [destruct (I3 I) as (-> & _); apply G; cbn; try done; intros Hf; by destruct (Hn Hf)|].
    destruct (_ && _); apply G; cbn; try done; intros Hf; by destruct (Hn Hf).
  - unfold streamEnd. cbn. destruct w; apply G; cbn; try done; intros Hf; try (split; [done|]); try (by apply Q2); try (split; [|done]); by apply I3.
  - unfold streamError. cbn. destruct w; apply G; cbn; try done; intros Hf; try (split; [done|]); try (by apply Q2); try (split; [|done]); by apply I3.
  - unfold next. cbn. destruct b as [|v b].
    + destruct er; [|destruct d]; apply G; cbn; try done; intros _; (split; [done|]); by rewrite ?orb_true_r.
    + assert (existsb final l -> False) as Hn by (intros Hf; by destruct (Q2 Hf)).
      destruct (p && _); apply G; cbn; try done; intros Hf; by destruct (Hn Hf).
Qed.

Lemma run_snoc es e s : run HWM (es ++ [e]) s = let '(s', l) := run HWM es s in let '(s', l') := step HWM e s' in (s', l ++ l').
Proof. unfold run. rewrite foldl_app. cbn. destruct (foldl _ _ es) as [s' l]. cbn. by destruct (step HWM e s'). Qed.
Lemma Inv_rows es : Inv es (run HWM es (init None)) /\ (existsb returning es = false -> ended es (run HWM es (init None))).
Proof.
  induction es as [|e es [IH1 IH2]] using rev_ind; [by repeat split|]. rewrite run_snoc. destruct (run HWM es (init None)) as [s l] eqn:Er.
  split; [by apply Inv_snoc|]. intros Hr. pose proof Hr as Hr'. rewrite existsb_snoc in Hr'. apply orb_false_elim in Hr' as [Hr' _]. apply ended_snoc; auto.
Qed.

End Proofs.
(** With a high-water mark of 0 the socket that one row pauses is never resumed: the next call waits for ever. *)
Example zero_mark_stuck :
  @run Z Z 0 [Arrive 5 true; Next; Next] (init None) = (mkStream [] true false None true false, [PauseSocket; Yield 5]).
Proof. by vm_compute. Qed.
(** Two calls of next() before a row: the row settles the second, and nothing ever settles the first. *)
Example overlapping_next_lost :
  @run Z Z 200 [Next; Next; Arrive 5 true; End_] (init None) = (mkStream [] false true None false false, [Yield 5]).
Proof. by vm_compute. Qed.
End RowsProofs.

Module CopyProofs.
Import Copy.
Section Proofs.
Context {E : Type} (HWM : Z).
Implicit Types s : stream E.

Definition Inv (es : list (event bytes E)) (r : stream E * list (effect bytes E)) : Prop :=
  let '(s, l) := r in
  (exists dropped, concat (yields l) ++ concat (chunks s) ++ dropped = concat (accepted es) /\ (existsb returning es = false -> dropped = []))
  /\ existsb closing es = cancelled s || done s || truthy (err s)
  /\ (waiting s -> chunks s = [] /\ paused s = false)
  /\ (paused s -> chunks s <> [])
  /\ buffered s = blen (concat (chunks s))
  /\ (result s = None -> existsb (fun e => closing e && negb (returning e)) es = false).
Lemma concat_drain (cs : list bytes) : match cs with [c] => c | _ => concat cs end = concat cs.
Proof. destruct cs as [|c [|c' cs]]; [done| |done]. cbn [concat]. by rewrite app_nil_r. Qed.
Lemma copy_Inv_snoc es e s l : Inv es (s, l) -> Inv (es ++ [e]) (let '(s', l') := step HWM e s in (s', l ++ l')).
Proof.
  intros ((dr & I1 & ID) & I2 & I3 & I4 & I5 & I6). pose proof (returning_closing es) as Hrc. rewrite I2 in Hrc.
  assert (forall s' l' dr', (concat (yields l) ++ concat (yields l')) ++ concat (chunks s') ++ dr' = concat (accepted (es ++ [e])) ->
    (existsb returning es || returning e = false -> dr' = []) ->
    existsb closing es || closing e = cancelled s' || done s' || truthy (err s') ->
    (waiting s' -> chunks s' = [] /\ paused s' = false) -> (paused s' -> chunks s' <> []) -> buffered s' = blen (concat (chunks s')) ->
    (result s' = None -> existsb (fun e => closing e && negb (returning e)) es || (closing e && negb (returning e)) = false) -> Inv (es ++ [e]) (s', l ++ l')) as G.
  { intros s' l' dr' H1 H2 H3 H4 H5 H6 H7. unfold Inv. rewrite yields_app, concat_app, !existsb_snoc. split; [by exists dr'|done]. }
  rewrite accepted_snoc, concat_app, <- I1, I2 in G. revert G. generalize (Inv (es ++ [e])). intros P G. clear I1 I2.
  destruct s as [b n w d er p c r]. cbn in *.
  destruct e as [a k| |e| |t]; cbn [step closing returning] in *; rewrite ?orb_false_r, ?orb_true_r in G.
  - unfold arrive. cbn. destruct (c || d || _) eqn:Eg; [apply (G _ _ dr); cbn; rewrite ?app_nil_r; auto|].
    rewrite (ID (Hrc eq_refl)), !app_nil_r in G. unfold onCopyData. cbn. destruct w.
    + destruct (I3 I) as [-> ->]. apply (G _ _ []); cbn; rewrite ?app_nil_r; auto.
    + destruct ((HWM <? _) && _ && k) eqn:Ep; (apply (G _ _ []); cbn; rewrite ?app_nil_r, ?concat_app; cbn; rewrite ?app_nil_r, ?app_assoc; auto; try done);
        try (rewrite blen_app; lia); intros _; by destruct b.
  - unfold streamEnd. cbn. destruct w; (apply (G _ _ dr); cbn; rewrite ?app_nil_r, ?orb_true_r; auto; by destruct r).
  - unfold streamError. cbn. destruct w; (apply (G _ _ dr); cbn; rewrite ?app_nil_r, ?orb_true_r; auto; by destruct r).
  - unfold next. cbn. destruct b as [|v b].
    + destruct er; [|destruct d]; (apply (G _ _ dr); cbn; rewrite ?app_nil_r; auto).
      intros _. split; [done|]. destruct p; [|done]. by destruct (I4 I).
    + assert (w -> False) as Hw by (intros Hw; by destruct (I3 Hw)).
      unfold drain, resume. cbn. destruct p; cbn; apply (G _ _ dr); cbn; rewrite ?app_nil_r, <- ?app_assoc; auto; destruct b; cbn; by rewrite <- ?app_assoc.
  - unfold return_, resume. cbn. destruct p; (apply (G _ _ (concat b ++ dr)); cbn; rewrite ?yields_app, ?app_nil_r; auto; try done);
      destruct (negb d && _ && negb t); cbn; by rewrite ?app_nil_r.
Qed.
Lemma copy_run_snoc es e s : run HWM (es ++ [e]) s = let '(s', l) := run HWM es s in let '(s', l') := step HWM e s' in (s', l ++ l').
Proof. unfold run. rewrite foldl_app. cbn. destruct (foldl _ _ es) as [s' l]. cbn. by destruct (step HWM e s'). Qed.
Lemma Inv_copy es : Inv es (run HWM es (init None)).
Proof.
  induction es as [|e es IH] using rev_ind; [repeat split; try done; by exists []|]. rewrite copy_run_snoc. destruct (run HWM es (init None)) as [s l] eqn:Er.
  by apply copy_Inv_snoc.
Qed.
(** Whatever the timing, copyTo() hands over the bytes of the COPY in order, without loss unless return() is called
    (which drops what is buffered); a call of next() that waits does so on a socket that was not paused; its byte
    count is exact; and its result is settled as soon as the COPY has ended or failed. *)
Theorem copy_delivered es s l : run HWM es (init None) = (s, l) ->
  (existsb returning es = false -> concat (yields l) ++ concat (chunks s) = concat (accepted es))
  /\ concat (yields l) `prefix_of` concat (accepted es)
  /\ (waiting s -> chunks s = [] /\ paused s = false)
  /\ buffered s = blen (concat (chunks s))
  /\ (existsb (fun e => closing e && negb (returning e)) es -> is_Some (result s)).
Proof.
  intros Hrun. pose proof (Inv_copy es) as Hi. rewrite Hrun in Hi. destruct Hi as ((dr & I1 & ID) & _ & I3 & _ & I5 & I6).
  split; [intros Hr; rewrite <- I1, (ID Hr); by rewrite app_nil_r|]. split; [rewrite <- I1; by apply prefix_app_r|]. split; [done|]. split; [done|].
  destruct (result s); [by eexists|]. by rewrite I6.
Qed.
End Proofs.
End CopyProofs.
