(* ===== verification/PoolQueries.v ===== *)
(** * Queries of a pool (src/pool.ts, PoolQuery, batch, pipeline and begin)

    A PoolQuery runs once: its promise is kept and given again. batch() runs queries inside the transaction of
    [Bulk.runTx], pipeline() without one, on one checked-out connection (Pool.v is about checking out and in). *)

From S2P Require Import Prelude Utf8 Text Buf Num Dates Value Json JsonBig Protocol Faults Encode Decode Spec Bulk BulkProofs.

Record PoolQuery := mkPoolQuery { q_id : nat; q_statement : Statement }.

Section Queries.
Context {T E : Type} `{Session T E}.
(** The promises of the queries that have run. *)
Definition promises : Type := gmap nat (failure (E := E) + QueryResult).
#[local] Instance with_promises : Session (T * promises) E := {|
  exec c t := let '(t', r) := exec c t.1 in ((t', t.2), r);
  inTransaction t := inTransaction t.1 |}.
Abbreviation proc := (Bulk.proc (T := T * promises) (E := E)).

Definition toSQL (q : PoolQuery) : Statement := q_statement q.
(** this.promise ??= conn.query(...); execute() is the same on a connection of its own. *)
Definition runOn (q : PoolQuery) : proc QueryResult := fun w =>
  match w.1.2 !! q_id q with
  | Some r => (w, r)
  | None => let '(w, r) := submit (Query (q_statement q)) w in ((w.1.1, <[q_id q := r]> w.1.2, w.2), r)
  end.
(** queries.map((q) => q.runOn(tx)): all are submitted, whatever becomes of the others. *)
Fixpoint run_each (qs : list PoolQuery) : proc (list (failure (E := E) + QueryResult)) :=
  match qs with
  | [] => mret []
  | q :: qs => r ← attempt (runOn q); rs ← run_each qs; mret (r :: rs)
  end.
(** Promise.all: the first to reject; those that had rejected before, before all others. *)
Definition rejected (r : failure (E := E) + QueryResult) : option (failure (E := E)) := match r with inl e => Some e | inr _ => None end.
Definition first_rejection (old : promises) (qs : list PoolQuery) (rs : list (failure (E := E) + QueryResult)) : option (failure (E := E)) :=
  match omap (fun q => old !! q_id q ≫= rejected) qs with
  | e :: _ => Some e
  | [] => head (omap rejected rs)
  end.
Definition values (rs : list (failure (E := E) + QueryResult)) : list QueryResult := omap (fun r => match r with inr q => Some q | inl _ => None end) rs.
Definition all_of (qs : list PoolQuery) : proc (list QueryResult) := fun w =>
  (rs ← run_each qs; match first_rejection w.1.2 qs rs with Some e => raise e | None => mret (values rs) end) w.
Definition batch (qs : list PoolQuery) : proc (list QueryResult) := runTx None (all_of qs).
End Queries.
Arguments promises : clear implicits.

(** ** What they promise *)

Section Facts.
Context {T E D : Type} `{Transactional T E D}.
#[local] Existing Instance with_promises.
#[local] Instance promises_transactional : Transactional (T * promises E) E D.
Proof.
  refine {| view t := view t.1; apply := apply; plain := plain |}.
  - intros [t m]. cbn. rewrite in_tx. by destruct (view t).
  - intros c [t m] R. cbn in *. pose proof (exec_answered c t R) as A. by destruct (exec c t).
Defined.
Implicit Types w : World (T := T * promises E).
Abbreviation pdata := (data (T := T * promises E) (E := E) (D := D)).

Lemma runOn_kept q w : let '(w', r) := runOn q w in w'.1.2 !! q_id q = Some r.
Proof. unfold runOn. destruct (w.1.2 !! q_id q) eqn:Eq; [done|]. destruct (submit _ w) as [w' r]. cbn [fst snd]. exact (lookup_insert_eq _ _ _). Qed.
(** A query runs once: running it again sends nothing and gives the same result. *)
Lemma runOn_once q w : let '(w', r) := runOn q w in runOn q w' = (w', r).
Proof. pose proof (runOn_kept q w) as K. destruct (runOn q w) as [w' r]. unfold runOn. by rewrite K. Qed.

Lemma scoped_runOn q : pdata (Query (q_statement q)) -> scoped (runOn q).
Proof.
  intros Hd w. unfold runOn. destruct (w.1.2 !! q_id q); [apply within_refl|]. pose proof (scoped_submit _ Hd w) as S.
  by destruct (submit _ w) as [w' r].
Qed.
Definition stmts (qs : list PoolQuery) : list Command := (fun q => Query (q_statement q)) <$> qs.
Lemma scoped_run_each qs : Forall pdata (stmts qs) -> scoped (run_each qs).
Proof.
  induction qs as [|q qs IH]; intros Hd; [apply scoped_ret|]. apply Forall_cons in Hd as [Hd Hds].
  apply scoped_bind; [by apply scoped_attempt, scoped_runOn|]. intros r. apply scoped_bind; [by apply IH|]. intros rs. apply scoped_ret.
Qed.
Lemma scoped_all_of qs : Forall pdata (stmts qs) -> scoped (all_of qs).
Proof.
  intros Hd w. refine (scoped_bind _ _ (scoped_run_each qs Hd) _ w). intros rs. destruct (first_rejection _ _ _); [apply scoped_raise|apply scoped_ret].
Qed.

(** *** Queries that have not run *)

Definition fresh (qs : list PoolQuery) (m : promises E) : Prop := NoDup (q_id <$> qs) /\ Forall (fun q => m !! q_id q = None) qs.
Lemma runOn_fresh q w : w.1.2 !! q_id q = None ->
  runOn q w = let '(w', r) := submit (Query (q_statement q)) w in ((w'.1.1, <[q_id q := r]> w'.1.2, w'.2), r).
Proof. unfold runOn. by intros ->. Qed.
Lemma submit_promises c w : (submit c w).1.1.2 = w.1.2.
Proof. unfold submit. cbn. by destruct (exec c w.1.1). Qed.
Lemma fresh_cons q qs m r : fresh (q :: qs) m -> fresh qs (<[q_id q := r]> m).
Proof.
  intros [H1 H2]. apply NoDup_cons in H1 as [H1 H1']. apply Forall_cons in H2 as [_ H2]. split; [done|].
  apply Forall_forall. intros q' Hq. rewrite Forall_forall in H2. rewrite <- (H2 q' Hq). apply (lookup_insert_ne (M := gmap nat)).
  intros Hn. apply H1. change (q_id q ∈ q_id <$> qs). apply list_elem_of_fmap. by exists q'.
Qed.
Lemma run_each_cons q qs w : run_each (q :: qs) w =
  let '(w1, r) := runOn q w in let '(w2, rs) := run_each qs w1 in (w2, match rs with inr rs => inr (r :: rs) | inl e => inl e end).
Proof. cbn [run_each]. unfold mbind, proc_bind, attempt, mret, proc_ret. destruct (runOn q w) as [w1 r]. by destruct (run_each qs w1) as [w2 [e|rs]]. Qed.
Lemma run_each_total qs w : exists w' rs, run_each qs w = (w', inr rs).
Proof.
  revert w. induction qs as [|q qs IH]; intros w; [by exists w, []|]. rewrite run_each_cons. destruct (runOn q w) as [w1 r].
  destruct (IH w1) as (w' & rs & ->). by exists w', (r :: rs).
Qed.
Lemma run_each_open qs : forall w b x s, Forall pdata (stmts qs) -> fresh qs w.1.2 -> vw w = Open b x s ->
  exists w' rs, run_each qs w = (w', inr rs) /\
  match head (omap rejected rs) with
  | None => exists x', applies (stmts qs) x = inr (x', values rs) /\ vw w' = Open b x' s
  | Some _ => vw w' = Lost b \/ vw w' = Broken b s
  end.
Proof.
  induction qs as [|q qs IH]; intros w b x s Hd Hf Ew; [exists w, []; split; [done|]; by exists x|]. apply Forall_cons in Hd as [Hd Hds].
  rewrite run_each_cons, runOn_fresh by (destruct Hf as [_ Hf]; by apply Forall_cons in Hf as [Hf _]).
  pose proof (submit_promises (Query (q_statement q)) w) as Hm.
  destruct (submit_answered (Query (q_statement q)) w _ Ew) as (r & A & R & _); [by rewrite Hd|]. rewrite Hd in A.
  destruct (submit _ w) as [w1 r1]. cbn [fst snd] in *. set (w2 := (w1.1.1, <[q_id q := r1]> w1.1.2, w1.2)).
  assert (fresh qs w2.1.2) as Hf2 by (cbn [w2 fst snd]; rewrite Hm; by apply fresh_cons). assert (vw w2 = vw w1) as Ev by done.
  pose proof (scoped_run_each qs Hds w2) as Sc. rewrite Ev in Sc.
  clear Hm Ew Hf. revert A Sc Ev. clearbody w2. generalize (vw w1). intros v1 A Sc Ev.
  destruct (run_each_total qs w2) as (w3 & rs3 & E3).
  inversion A; simplify_eq.
  - destruct (IH w2 b w' s Hds Hf2) as (w4 & rs & E4 & HI); [congruence|]. rewrite E4. exists w4, (inr q0 :: rs). split; [done|].
    change (match head (omap rejected rs) with
      | None => exists x', applies (Query (q_statement q) :: stmts qs) x = inr (x', q0 :: values rs) /\ vw w4 = Open b x' s
      | Some _ => vw w4 = Lost b \/ vw w4 = Broken b s end).
    cbn [applies]. match goal with Ea : _ = inr (w', q0) |- _ => cbn [apply promises_transactional] in Ea |- *; rewrite Ea end.
    destruct (head (omap rejected rs)); [done|]. destruct HI as (x' & -> & ->). by exists x'.
  - rewrite E3 in Sc |- *. exists w3, (inl (mkFailure (FromQuery e) None) :: rs3). split; [done|]. cbn.
    match goal with V : Broken b s = _ |- _ => rewrite <- V in Sc end. cbn in Sc. by destruct Sc; [right|left].
  - rewrite E3 in Sc |- *. match goal with V : Lost b = _ |- _ => rewrite <- V in Sc | V : Lost _ = _ |- _ => rewrite <- V in Sc end. exists w3, (inl (mkFailure (FromQuery e) None) :: rs3). split; [done|]. cbn. cbn in Sc. by left.
Qed.
Lemma fresh_rejection m qs rs : fresh qs m -> first_rejection m qs rs = head (omap rejected rs).
Proof.
  intros [_ Hf]. unfold first_rejection. assert (omap (fun q => m !! q_id q ≫= rejected) qs = []) as ->; [|done].
  induction Hf as [|q qs Hq _ IH]; [done|]. cbn. by rewrite Hq.
Qed.
Lemma all_of_open qs w b x s : Forall pdata (stmts qs) -> fresh qs w.1.2 -> vw w = Open b x s ->
  match all_of qs w with
  | (w', inr rs) => exists x', applies (stmts qs) x = inr (x', rs) /\ vw w' = Open b x' s
  | (w', inl _) => vw w' = Lost b \/ vw w' = Broken b s
  end.
Proof.
  intros Hd Hf Ew. destruct (run_each_open qs w b x s Hd Hf Ew) as (w' & rs & Er & HI). unfold all_of. unfold mbind, proc_bind. rewrite Er.
  rewrite fresh_rejection by done. by destruct (head (omap rejected rs)).
Qed.

(** C9: A batch of queries that have not run yet is one transaction: it resolves with the results of the
    statements, applied in order and committed, or rejects with nothing committed - or with everything, when only
    the answer to COMMIT was lost. *)
Theorem batch_all_or_nothing qs w d : Forall pdata (stmts qs) -> fresh qs w.1.2 -> vw w = Idle d ->
  let '(w', r) := batch qs w in
  match r with
  | inr rs => exists x, applies (stmts qs) d = inr (x, rs) /\ vw w' = Idle x
  | inl _ => vw w' = Idle d \/ vw w' = Lost d \/ exists x rs, applies (stmts qs) d = inr (x, rs) /\ vw w' = Lost x
  end.
Proof.
  intros Hd Hf Ew. unfold batch, runTx, open_tx. unfold mbind at 1, proc_bind at 1. rewrite in_tx. pose proof Ew as Ew'. unfold vw in Ew'. rewrite Ew'.
  unfold mbind, proc_bind. pose proof (submit_promises (text (beginClause None)) w) as Hm.
  destruct (submit_answered (text (beginClause None)) w _ Ew) as (r & A & R & _); [by rewrite begin_control|]. rewrite begin_control in A.
  destruct (submit _ w) as [w1 r1]. cbn [fst snd] in *. subst r1.
  assert (forall v, vw w1 = v -> answered apply CBegin (text (beginClause None)) (Idle d) v r -> match r with inr _ => v = Open d d [] | inl _ => v = Idle d \/ v = Lost d end) as G
    by (intros v _ A'; inversion A'; simplify_eq; cbn; auto).
  specialize (G _ eq_refl A). destruct r as [e|q]; [destruct G as [->| ->]; auto|].
  pose proof (commit_phase (all_of qs) w1 d d (scoped_all_of qs Hd) G) as P. rewrite <- Hm in Hf. pose proof (all_of_open qs w1 d d [] Hd Hf G) as Q.
  destruct (keep_or_undo _ _ _ w1) as [w' [e|rs]]; destruct (all_of qs w1) as [w2 r2]; cbn [fst snd] in *.
  - destruct P as [->|[->|(x & E1 & ->)]]; auto. destruct r2 as [?|rs]; [destruct Q as [Q|Q]; by rewrite Q in E1|].
    destruct Q as (x' & Ha & Q). rewrite Q in E1. injection E1 as <-. right. right. by exists x', rs.
  - destruct P as [-> P]. destruct Q as (x & Ha & Q). rewrite Q in P. by exists x.
Qed.
End Facts.

(** ** On the server of BulkProofs *)

#[local] Existing Instances with_promises promises_transactional.
Definition insert_one (i : nat) (v : value) : PoolQuery :=
  mkPoolQuery i (mkStatement (js "insert into t") [VArr [v]] None (Some [1007])).
Definition good : PoolQuery := insert_one 0 (VNum (of_Z 1)).
Definition also : PoolQuery := insert_one 1 (VNum (of_Z 2)).
Definition bad : PoolQuery := insert_one 2 VNull.
Definition pool_world : World (T := View (D := list (list value)) * promises jstr) := ((Idle [], ∅), demo_client).

Lemma batch_all_or_nothing_witness :
  (batch [good; also] pool_world).1.1.1 = Idle [[VNum (of_Z 1)]; [VNum (of_Z 2)]] /\
  let '(w', r) := batch [good; also] pool_world in
  match r with
  | inr rs => exists x, applies (stmts [good; also]) [] = inr (x, rs) /\ vw w' = Idle x
  | inl _ => vw w' = Idle [] \/ vw w' = Lost [] \/ exists x rs, applies (stmts [good; also]) [] = inr (x, rs) /\ vw w' = Lost x
  end.
Proof.
  split; [vm_compute; reflexivity|].
  apply (batch_all_or_nothing [good; also] pool_world []); [repeat constructor|split; [apply (bool_decide_unpack _); vm_compute; exact I|repeat constructor]|reflexivity].
Defined.
(** A query whose batch was rolled back keeps its result: run again, it resolves with a row count and inserts nothing. *)
Example rolled_back_resolves :
  let '(w1, r1) := batch [good; bad] pool_world in
  let '(w2, r2) := batch [good] w1 in
  w1.1.1 = Idle [] /\ w2.1.1 = Idle [] /\ r1 = inl (mkFailure (FromQuery (js "23502")) None)
  /\ r2 = inr [mkResult [] [] (Some 1) (Some (js "INSERT"))].
Proof. by vm_compute. Qed.
