(* ===== verification/MiniBuffer.v ===== *)
(** * The Buffer of runtimes without one (src/buffer-polyfill.ts)

    MiniBuffer is a Uint8Array with the methods of Buffer that the HTTP entry needs. Where it agrees with the
    Buffer of Node, which the rest of the development assumes (Buf.v), and where it does not. *)

From S2P Require Import Prelude Utf8 Text Buf Num NumText Dates Value Json JsonBig Protocol Parse Faults Encode Decode.

Inductive encoding := Utf8 | Hex | Latin1.

(** parseInt(s, 16) of two characters: white space, a sign and 0x are skipped, and it stops at the first that is
    not a digit; NaN is stored as 0. *)
Definition parse_digit (c : Z) : Z := default 0 (hex_val c).
Definition parseInt2 (a b : Z) : Z :=
  if StrWhiteSpace a then parse_digit b
  else if a =? 43 then parse_digit b
  else if a =? 45 then - parse_digit b
  else match hex_val a, hex_val b with
       | Some x, Some y => 16 * x + y
       | Some x, None => x
       | None, _ => 0
       end.
Fixpoint hex_pairs (s : jstr) : bytes :=
  match s with a :: b :: s => parseInt2 a b mod 256 :: hex_pairs s | _ => [] end.
Definition from_string (value : jstr) (e : encoding) : bytes :=
  match e with Hex => hex_pairs value | Latin1 => latin1 value | Utf8 => utf8 value end.
(** new Uint8Array(buffer, byteOffset, length): a view, or RangeError. *)
Definition from_view (buffer : bytes) (a : Z) (b : option Z) : res bytes :=
  let n := default (blen buffer - a) b in
  if (0 <=? a) && (0 <=? n) && (a + n <=? blen buffer) then Ok (take (Z.to_nat n) (drop (Z.to_nat a) buffer)) else Throw RangeError.
Definition alloc (size : nat) : bytes := replicate size 0.
Definition byteLength (s : jstr) (e : encoding) : Z :=
  match e with Hex => blen s / 2 | Latin1 => blen s | Utf8 => blen (utf8 s) end.

(** out.set(b, o), where there is room *)
Definition set_ (out : bytes) (o : nat) (b : bytes) : bytes := list_inserts o b out.
Fixpoint concat_loop (list : list bytes) (len o : nat) (out : bytes) : bytes :=
  match list with
  | [] => out
  | b :: list => if (len <? o + length b)%nat then set_ out o (take (len - o) b) else concat_loop list len (o + length b) (set_ out o b)
  end.
Definition total (list : list bytes) : nat := foldl (fun n b => n + length b)%nat 0%nat list.
Definition concat_ (list : list bytes) (totalLength : option nat) : bytes :=
  let len := match totalLength with Some n => n | None => total list end in concat_loop list len 0 (alloc len).
(** for (i < min) the first difference decides, then the lengths *)
Fixpoint compare (a b : bytes) : Z :=
  match a, b with
  | x :: a, y :: b => if negb (x =? y) then (if x <? y then -1 else 1) else compare a b
  | [], [] => 0
  | [], _ => -1
  | _, [] => 1
  end.

(** DataView.getInt32 and the like, and the setters, which take their value modulo the width. *)
Definition get_be (n : nat) (signed : bool) (b : bytes) (o : Z) : res Z :=
  if (0 <=? o) && (o + Z.of_nat n <=? blen b)
  then let v := unbe (take n (drop (Z.to_nat o) b)) in Ok (if signed then to_signed (8 * Z.of_nat n) v else v)
  else Throw RangeError.
Definition set_be (n : nat) (v o : Z) (b : bytes) : res (bytes * Z) :=
  if (0 <=? o) && (o + Z.of_nat n <=? blen b) then Ok (list_inserts (Z.to_nat o) (be n v) b, o + Z.of_nat n) else Throw RangeError.
(** this[o] = v & 0xff: outside the bytes nothing happens. *)
Definition writeUInt8 (v o : Z) (b : bytes) : bytes * Z := (if 0 <=? o then <[Z.to_nat o := v mod 256]> b else b, o + 1).

Definition copy (source target : bytes) (targetStart sourceStart sourceEnd : Z) : res (bytes * Z) :=
  let slice := subarray source sourceStart sourceEnd in
  if (0 <=? targetStart) && (targetStart + blen slice <=? blen target)
  then Ok (list_inserts (Z.to_nat targetStart) slice target, blen slice) else Throw RangeError.
(** new TextDecoder(): a byte order mark at the start is dropped. *)
Definition dec (b : bytes) : jstr := if bool_decide (take 3 b = [239; 187; 191]) then utf8_decode (drop 3 b) else utf8_decode b.
Definition toString (e : encoding) (b : bytes) (start stop : Z) : jstr :=
  let sub := subarray b start stop in
  match e with Hex => hex sub | Latin1 => sub | Utf8 => dec sub end.

(** ** Where it agrees with Buffer *)

Lemma get_be_Buffer n b o : get_be n false b o = readUIntBE n b o /\ get_be n true b o = readIntBE n b o.
Proof. unfold get_be, readIntBE, readUIntBE, window. by destruct (_ && _). Qed.

(** A setter writes what the checked one of Buffer writes, for the values that Buffer accepts. *)
Lemma set_be_Buffer n lo hi v o b : (forall x, int_be n lo hi v = Ok x -> set_be n v o b =
  if (0 <=? o) && (o + blen x <=? blen b) then Ok (list_inserts (Z.to_nat o) x b, o + blen x) else Throw RangeError).
Proof. intros x. unfold int_be. destruct (_ && _); [|done]. intros [= <-]. by rewrite blen_be. Qed.
(** What is written is read back. *)
Lemma set_get n v o b b' o' : (0 < n)%nat -> - 2 ^ (8 * Z.of_nat n - 1) <= v < 2 ^ (8 * Z.of_nat n - 1) ->
  set_be n v o b = Ok (b', o') -> get_be n true b' o = Ok v /\ o' = o + Z.of_nat n /\ length b' = length b.
Proof.
  intros Hn Hv. unfold set_be. destruct (_ && _) eqn:E; [|done]. b2p_all. intros [= <- <-].
  assert (length (be n v) = n) as Hl by apply length_be. assert (blen b = Z.of_nat (length b)) as Hb by done.
  assert (list_inserts (Z.to_nat o) (be n v) b = take (Z.to_nat o) b ++ be n v ++ drop (Z.to_nat o + n) b) as Ei.
  { rewrite inserts_app by lia. by rewrite Hl. }
  rewrite Ei. split; [|split; [done|rewrite <- Ei; by rewrite length_inserts]].
  rewrite (proj2 (get_be_Buffer n _ o)). assert (o = blen (take (Z.to_nat o) b)) as Eo by (unfold blen; rewrite length_take; lia).
  pose proof (readIntBE_app n (take (Z.to_nat o) b) v (drop (Z.to_nat o + n) b) Hn Hv) as R. by rewrite <- Eo in R.
Qed.

Lemma hex_val_digit x : 0 <= x < 16 -> hex_val (hex_digit x) = Some x.
Proof.
  intros Hx. assert (x = 0 \/ x = 1 \/ x = 2 \/ x = 3 \/ x = 4 \/ x = 5 \/ x = 6 \/ x = 7 \/ x = 8 \/ x = 9 \/ x = 10 \/ x = 11 \/ x = 12 \/ x = 13 \/ x = 14 \/ x = 15) as H by lia.
  by repeat (destruct H as [->|H]; [done|]); subst.
Qed.
Lemma hex_val_cases c x : hex_val c = Some x -> StrWhiteSpace c = false /\ c <> 43 /\ c <> 45 /\ 0 <= x < 16.
Proof.
  unfold hex_val, NumText.is_digit, StrWhiteSpace, between. intros Hc.
  assert ((48 <= c <= 57 \/ 97 <= c <= 102 \/ 65 <= c <= 70) /\ 0 <= x < 16) as [Hr Hx].
  { destruct (_ && _) eqn:E1 in Hc; [|destruct (_ && _) eqn:E2 in Hc; [|destruct (_ && _) eqn:E3 in Hc; [|done]]]; b2p_all; injection Hc as <-; lia. }
  split; [|lia]. apply orb_false_intro; [apply orb_false_intro|]; [apply andb_false_iff; rewrite !Z.leb_gt; lia..|].
  apply bool_decide_eq_false. intros Hi. set_unfold in Hi. lia.
Qed.
(** On the texts of bytes, in either case, both parsers of hexadecimals agree. *)
Lemma hex_pairs_from_hex s : (length s mod 2 = 0)%nat -> Forall (fun c => is_Some (hex_val c)) s -> hex_pairs s = from_hex s.
Proof.
  assert (forall n s, (length s < n)%nat -> (length s mod 2 = 0)%nat -> Forall (fun c => is_Some (hex_val c)) s -> hex_pairs s = from_hex s) as G; [|apply (G (S (length s)) s); lia].
  clear s. induction n as [|n IH]; [lia|]. intros [|a [|b s]] Hn Hl Hs; [done|discriminate Hl|]. apply Forall_cons in Hs as [[x Hx] Hs]. apply Forall_cons in Hs as [[y Hy] Hs].
  cbn [hex_pairs from_hex]. rewrite Hx, Hy. destruct (hex_val_cases a x Hx) as (Wa & P1 & P2 & Bx). destruct (hex_val_cases b y Hy) as (_ & _ & _ & By).
  f_equal.
  - unfold parseInt2. rewrite Wa, (proj2 (Z.eqb_neq _ _) P1), (proj2 (Z.eqb_neq _ _) P2), Hx, Hy. rewrite Z.mod_small by lia. lia.
  - apply IH; [cbn in Hn; lia| |done]. replace (length (a :: b :: s)) with (length s + 1 * 2)%nat in Hl by (cbn; lia). by rewrite Nat.Div0.mod_add in Hl.
Qed.
Lemma hex_roundtrip b : bytes_ok b -> from_string (hex b) Hex = b.
Proof.
  intros Hb. cbn [from_string]. induction Hb as [|x b Hx _ IH]; [done|]. unfold hex in *. cbn [fmap list_fmap concat app hex_pairs]. fold (hex b).
  change (concat ((fun x => [hex_digit (x / 16); hex_digit (x mod 16)]) <$> b)) with (hex b) in *. rewrite IH. f_equal. unfold parseInt2.
  unfold byte_ok in Hx. assert (0 <= x / 16 < 16) as H1 by (split; [apply Z.div_pos; lia|apply Z.div_lt_upper_bound; lia]). pose proof (Z.mod_pos_bound x 16 ltac:(lia)) as H2.
  destruct (hex_val_cases _ _ (hex_val_digit _ H1)) as (W & P1 & P2 & _). rewrite W, (proj2 (Z.eqb_neq _ _) P1), (proj2 (Z.eqb_neq _ _) P2), !hex_val_digit by done.
  rewrite <- Z_div_mod_eq_full. apply Z.mod_small. lia.
Qed.

(** *** concat *)

Lemma concat_loop_spec list : forall len pre, (length pre <= len)%nat ->
  concat_loop list len (length pre) (pre ++ replicate (len - length pre) 0) = take len (pre ++ concat list ++ replicate len 0).
Proof.
  induction list as [|b list IH]; intros len pre Hl; cbn [concat_loop concat app].
  - rewrite take_app_ge by done. f_equal. by rewrite take_replicate, Nat.min_l by lia.
  - unfold set_. destruct (Nat.ltb_spec len (length pre + length b)).
    + rewrite inserts_app by (rewrite length_take, length_app, length_replicate; lia). rewrite take_app_length.
      rewrite drop_ge by (rewrite length_take, length_app, length_replicate; lia). rewrite app_nil_r, take_app_ge by done. f_equal.
      rewrite <- app_assoc, take_app_le by lia. done.
    + rewrite inserts_app by (rewrite length_app, length_replicate; lia). rewrite take_app_length, drop_app_ge by lia.
      replace (length pre + length b - length pre)%nat with (length b) by lia. rewrite drop_replicate, (app_assoc pre b), <- (length_app pre b).
      replace (len - length pre - length b)%nat with (len - length (pre ++ b))%nat by (rewrite length_app; lia).
      rewrite IH by (rewrite length_app; lia). by rewrite <- !app_assoc.
Qed.
Lemma total_spec list : total list = length (concat list).
Proof.
  unfold total. assert (forall k, foldl (fun n b => n + length b)%nat k list = (k + length (concat list))%nat) as G; [|apply G].
  induction list as [|b list IH]; intros k; [cbn; lia|]. cbn [foldl concat]. rewrite IH, length_app. lia.
Qed.
(** With a length the result is cut or padded with zeros to it. *)
Lemma concat_exact list n : concat_ list None = concat list /\ concat_ list (Some n) = take n (concat list ++ replicate n 0).
Proof.
  assert (forall n, concat_ list (Some n) = take n (concat list ++ replicate n 0)) as G.
  { intros k. unfold concat_, alloc. pose proof (concat_loop_spec list k [] (Nat.le_0_l _)) as E. cbn [length app] in E. by rewrite Nat.sub_0_r in E. }
  split; [|done]. change (concat_ list None) with (concat_ list (Some (total list))). rewrite G, total_spec. apply take_app_length.
Qed.

(** *** compare: a total order, that of the bytes. *)

Lemma compare_refl a : compare a a = 0.
Proof. induction a as [|x a IH]; [done|]. cbn. by rewrite Z.eqb_refl. Qed.
Lemma compare_eq a b : compare a b = 0 <-> a = b.
Proof.
  split; [|intros ->; apply compare_refl]. revert b. induction a as [|x a IH]; intros [|y b]; cbn; try done.
  destruct (Z.eqb_spec x y) as [->|]; cbn; [intros E; f_equal; auto|by destruct (x <? y)].
Qed.
Lemma compare_opp a b : compare b a = - compare a b.
Proof.
  revert b. induction a as [|x a IH]; intros [|y b]; cbn; try done. rewrite (Z.eqb_sym y x). destruct (Z.eqb_spec x y); cbn; [apply IH|].
  destruct (Z.ltb_spec x y), (Z.ltb_spec y x); lia.
Qed.
Lemma compare_trans a b c : compare a b <= 0 -> compare b c <= 0 -> compare a c <= 0.
Proof.
  revert b c. induction a as [|x a IH]; intros [|y b] [|z c]; cbn; try lia.
  destruct (Z.eqb_spec x y), (Z.eqb_spec y z), (Z.eqb_spec x z), (Z.ltb_spec x y), (Z.ltb_spec y z), (Z.ltb_spec x z); cbn; try lia; apply IH.
Qed.

(** *** Texts *)

(** Every text without a byte order mark at its start survives; Latin-1 and hexadecimals do for all bytes. *)
Lemma dec_no_mark b : take 3 b <> [239; 187; 191] -> dec b = utf8_decode b.
Proof. intros Hb. unfold dec. by rewrite bool_decide_eq_false_2. Qed.
Lemma toString_from e s : match e with
  | Utf8 => usv s = true /\ take 3 (utf8 s) <> [239; 187; 191]
  | Latin1 => bytes_ok s
  | Hex => exists b, bytes_ok b /\ s = hex b end ->
  toString e (from_string s e) 0 (blen (from_string s e)) = s.
Proof.
  unfold toString. assert (forall b, subarray b 0 (blen b) = b) as Hs by (intros b; rewrite subarray_to_end; [done|pose proof (blen_nonneg b); lia]).
  rewrite Hs. destruct e; cbn [from_string].
  - intros [Hu Hm]. rewrite dec_no_mark by done. by apply utf8_roundtrip.
  - intros (b & Hb & ->). f_equal. by apply hex_roundtrip.
  - intros Hb. unfold latin1. induction Hb as [|c s Hc _ IH]; [done|]. cbn. rewrite IH. f_equal. apply Z.mod_small. exact Hc.
Qed.

(** ** Where it does not *)

(** A text that starts with U+FEFF loses it; Buffer keeps it. *)
Example mark_dropped : toString Utf8 (utf8 [65279; 97]) 0 4 = [97] /\ utf8_decode (utf8 [65279; 97]) = [65279; 97].
Proof. by vm_compute. Qed.
(** Buffer stops at the first pair that is no hexadecimal; MiniBuffer goes on with what parseInt makes of it. *)
Example bad_hex : from_string (js "zz-1") Hex = [0; 255] /\ from_hex (js "zz-1") = [].
Proof. by vm_compute. Qed.
(** Buffer refuses a number that does not fit; MiniBuffer wraps it around. *)
Example wraps : set_be 2 65536 0 [1; 1] = Ok ([0; 0], 2) /\ uint16_be 65536 = Throw RangeError.
Proof. by vm_compute. Qed.
