(* ===== verification/Settings.v ===== *)
(** * The settings of a connection (src/connection.ts and src/replication.ts, the constructors)

    What the constructors make of a configuration object, of the connection string in it and of the environment.
    A setting that is absent is undefined; [||] takes the next value for every falsy one, [??] only for null and
    undefined. The environment, the WHATWG URL and the presence of eval are the platform's. *)

From S2P Require Import Prelude Utf8 Text Buf Num Dates Value NumText Faults Json ExtTypes JsonSpec ArrayText Temporal Decode Url UrlProofs.

(** [a || b], [a ?? b] *)
Definition or_ (a b : value) : value := if truthy a then a else b.
Definition nor (a b : value) : value := if nullish a then b else a.
Definition is_true (v : value) : bool := match v with VBool true => true | _ => false end.
Definition is_false (v : value) : bool := match v with VBool false => true | _ => false end.
(** typeof v === 'object', for a truthy [v] *)
Definition is_object (v : value) : bool := match v with VObj _ | VArr _ | VBuf _ | VDate _ => true | _ => false end.
(** v.k, undefined on a value without properties of its own *)
Definition field (k : string) (v : value) : value := match v with VObj o => own k o | _ => VUndef end.
Definition str_is (s : string) (v : value) : bool := match v with VStr x => bool_decide (x = js s) | _ => false end.
Definition number (z : Z) : value := VNum (of_Z z).

Section Settings.
Context (URL : jstr -> option Url) (env : string -> option jstr).

Definition env_ (k : string) : value := match env k with Some s => VStr s | None => VUndef end.
(** Number(process.env.PGPORT) || 5432 *)
Definition env_port : value := or_ (VNum (match env "PGPORT" with Some s => ToNumber s | None => NaN end)) (number 5432).
Definition defaultUser : value := or_ (env_ "USER") (or_ (env_ "USERNAME") (or_ (env_ "LOGNAME") (VStr (js "postgres")))).
Definition transactionPoolerDetected (host : jstr) (port : value) : bool :=
  includes host (js "-pooler.")
  || (includes host (js "pooler.supabase.com") || match port with VNum x => bool_decide (int_of x = Some 6543) | _ => false end)
  || (truthy (env_ "VERCEL") || truthy (env_ "VERCEL_ENV")).

(** ** What both constructors read *)

Definition needs_tls : exn := Error (js "minipg: channel_binding=require needs TLS " ++ [8212]
  ++ js " the binding is a property of the TLS channel. Enable `ssl`, or use `channel_binding=prefer` to connect unbound.").
Definition no_tls (c : obj) : bool := negb (truthy (own "ssl" c)) || str_is "disable" (own "ssl" c).
Definition check_binding (c : obj) : res unit :=
  if str_is "require" (own "channelBinding" c) && negb (truthy (own "socket" c)) && no_tls c then Throw needs_tls else Ok tt.
Definition check_options (v : value) : res value :=
  match v with
  | VStr s => if existsb (Z.eqb 0) s then Throw (Error (js "minipg: startup parameter options contains NUL byte (0x00)")) else Ok v
  | _ => Ok v
  end.
Definition ssl_setting (c : obj) : value := if no_tls c then VBool false else own "ssl" c.
Definition host_of (c : obj) : value := or_ (own "host" c) (or_ (env_ "PGHOST") (VStr (js "localhost"))).
Definition port_of (c : obj) : value := or_ (own "port" c) env_port.
Definition password_of (c : obj) : value := nor (own "password" c) (nor (env_ "PGPASSWORD") (VStr [])).
Definition database_of (c : obj) (user : value) : value := or_ (own "database" c) (or_ (env_ "PGDATABASE") user).

(** ** Connection *)

Definition DEFAULT_PIPELINE_DEPTH : Z := 100.
(** Math.max(1, x) *)
Definition at_least_1 (x : num) : num :=
  match x with
  | NaN => NaN
  | Inf false => x
  | Inf true => of_Z 1
  | Fin s m e => let '(p, q) := scale m 1 e in if negb s && (q <=? p) then x else of_Z 1
  end.
Definition pipeline_depth (p : value) (pooled : bool) : value :=
  if is_false p then number 1
  else if is_true p then number DEFAULT_PIPELINE_DEPTH
  else if nullish p then number (if pooled then 1 else DEFAULT_PIPELINE_DEPTH)
  else match nor (field "depth" p) (number DEFAULT_PIPELINE_DEPTH) with VNum x => VNum (at_least_1 x) | _ => VNum NaN end.
Definition pipeline_flush (p : value) : value := or_ (if is_object p then field "flush" p else VUndef) (VStr (js "microtask")).
Record Reconnect := mkReconnect { rc_enabled : bool; rc_base : value; rc_max : value; rc_maxRetries : value }.
Definition reconnect_of (rc : value) : Reconnect :=
  let o := if is_object rc then rc else VUndef in
  mkReconnect (is_true rc || is_object rc) (nor (field "baseMs" o) (number 100)) (nor (field "maxMs" o) (number 5000))
              (nor (field "maxRetries" o) VNull).
(** Whether a type keeps its binary format on reuse: not when config.types has a decoder for it. *)
Definition reuse_binary (types : value) (oid : Z) : bool :=
  BINARY_FAST oid && negb (match types with VObj o => bool_decide (is_Some (get_key (show_Z oid) o)) | _ => false end).

Record Settings := mkSettings {
  s_host : value; s_port : value; s_user : value; s_password : value; s_database : value; s_ssl : value;
  s_applicationName : value; s_connectTimeout : value; s_options : value; s_channelBinding : value;
  s_prepare : value; s_binaryParams : value; s_pipelineDepth : value; s_pipelineFlush : value; s_temporal : value;
  s_reuseBinary : Z -> bool; s_reconnect : Reconnect; s_path : value; s_isBehindPooler : value; s_jitEncode : bool }.

Definition credentials_in_host : exn := Error (js "minipg: the host contains " ++ [34; 64; 34] ++ js ", so it looks like a connection URL or includes credentials. Pass a connection URL as `url`, and credentials as `user` and `password`.").
(** A value without the method .includes() *)
Definition no_includes : exn := TypeError (js "host.includes is not a function").
Definition jit_encode (mode : value) (hasEval : bool) : res bool :=
  let mode := nor mode (VStr (js "auto")) in
  if str_is "jit" mode && negb hasEval
  then Throw (Error (js "minipg: encode:'jit' needs eval (new Function), which this runtime disallows " ++ [8212] ++ js " use encode:'interpreted' or 'auto'"))
  else Ok (if str_is "interpreted" mode then false else if str_is "jit" mode then true else hasEval).
Definition connection_settings (hasEval : bool) (config : obj) : res Settings :=
  c ← resolveUrl URL config;
  _ ← check_binding c;
  let user := or_ (own "user" c) (or_ (env_ "PGUSER") defaultUser) in
  host ← (match host_of c with
          | VStr h => if existsb (Z.eqb 64) h then Throw credentials_in_host else Ok h
          | _ => Throw no_includes
          end);
  let port := port_of c in
  let pooled := nor (own "pooler" c) (VBool (transactionPoolerDetected host port)) in
  options ← check_options (own "options" c);
  jit ← jit_encode (own "encode" c) hasEval;
  Ok (mkSettings (VStr host) port user (password_of c) (database_of c user) (ssl_setting c)
        (or_ (own "applicationName" c) (VStr (js "minipg"))) (nor (own "connectTimeout" c) (number 30000)) options (own "channelBinding" c)
        (nor (own "prepare" c) (VBool (negb (truthy pooled)))) (nor (own "binaryParams" c) (VBool true))
        (pipeline_depth (own "pipeline" c) (truthy pooled)) (pipeline_flush (own "pipeline" c)) (nor (own "temporal" c) (VStr (js "date")))
        (reuse_binary (own "types" c)) (reconnect_of (own "reconnect" c)) (own "path" c) pooled jit).

(** ** ReplicationConnection *)

Definition replication_settings (config : obj) : res Settings :=
  c ← resolveUrl URL config;
  _ ← check_binding c;
  let user := or_ (own "user" c) (or_ (env_ "PGUSER") (or_ (env_ "USER") (or_ (env_ "USERNAME") (VStr (js "postgres"))))) in
  options ← check_options (own "options" c);
  Ok (mkSettings (host_of c) (port_of c) user (password_of c) (database_of c user) (ssl_setting c)
        (or_ (own "applicationName" c) (VStr (js "minipg-replication"))) (nor (own "connectTimeout" c) (number 30000)) options (own "channelBinding" c)
        (VBool false) (VBool false) (number 1) (VStr (js "sync")) (VStr (js "date")) (fun _ => false)
        (mkReconnect false (number 0) (number 0) (number 0)) (own "path" c) VUndef false).
End Settings.

(** ** What the constructors guarantee *)

Section Proofs.
Context (URL : jstr -> option Url) (env : string -> option jstr).

Lemma resolved_explicit config c k :
  NoDup config.*1 -> resolveUrl URL config = Ok c -> js k <> js "url" -> own k config <> VUndef -> own k c = own k config.
Proof.
  intros Hn Hc Hk Hv. unfold resolveUrl in Hc. destruct (url_of config) as [url|]; [|by injection Hc as <-].
  apply bind_res_Ok_inv in Hc as (o & _ & [= <-]). rewrite own_explicit by done. unfold setting. by destruct (own k config).
Qed.
Lemma or_truthy a b : truthy a = true -> or_ a b = a.
Proof. unfold or_. by intros ->. Qed.
Lemma nor_defined a b : nullish a = false -> nor a b = a.
Proof. unfold nor. by intros ->. Qed.
Lemma truthy_defined v : truthy v = true -> v <> VUndef.
Proof. by intros H ->. Qed.
Lemma defined_not_undef v : nullish v = false -> v <> VUndef.
Proof. by intros H ->. Qed.
Lemma check_options_ok v w : check_options v = Ok w -> w = v /\ forall s, v = VStr s -> 0 ∉ s.
Proof.
  unfold check_options. destruct v as [| | | | |x| | | | |]; try (intros [= <-]; by split).
  destruct (existsb (Z.eqb 0) x) eqn:E; [discriminate|]. intros [= <-]. split; [done|]. intros s [= <-] Hin.
  apply not_true_iff_false in E. apply E, existsb_exists. exists 0. split; [by apply list_elem_of_In|done].
Qed.
Lemma check_binding_ok c : check_binding c = Ok tt ->
  own "channelBinding" c = VStr (js "require") -> truthy (own "socket" c) = true \/ no_tls c = false.
Proof.
  unfold check_binding. intros H E. rewrite E in H. cbn [str_is] in H. rewrite bool_decide_true in H by done.
  destruct (truthy (own "socket" c)); [by left|]. destruct (no_tls c); [discriminate|by right].
Qed.
Lemma no_tls_ssl c : no_tls c = false -> truthy (ssl_setting c) = true /\ ssl_setting c = own "ssl" c.
Proof.
  intros E. unfold ssl_setting. rewrite E. unfold no_tls in E. apply orb_false_iff in E as [E _]. by apply negb_false_iff in E.
Qed.

(** What both constructors promise of the settings they return. *)
Definition settings_sound (config c : obj) (s : Settings) : Prop :=
  (forall k v, (k, v) ∈ [("user"%string, s_user s); ("database"%string, s_database s); ("applicationName"%string, s_applicationName s)] ->
     truthy (own k config) = true -> v = own k config)
  /\ (nullish (own "password" config) = false -> s_password s = own "password" config)
  /\ (nullish (own "connectTimeout" config) = false -> s_connectTimeout s = own "connectTimeout" config)
  /\ (s_channelBinding s = VStr (js "require") -> truthy (own "socket" c) = true \/ truthy (s_ssl s) = true)
  /\ (forall o, s_options s = VStr o -> 0 ∉ o).

(** The goal says that a setting of the configuration is kept. *)
Ltac explicit_setting :=
  match goal with Hn : NoDup (fmap fst ?config), Hc : resolveUrl _ ?config = Ok ?c |- context [own ?k ?config] =>
    let H := fresh in intros H;
    rewrite <- (resolved_explicit config c k Hn Hc) by first [done | by apply truthy_defined | by apply defined_not_undef];
    rewrite <- (resolved_explicit config c k Hn Hc) in H by first [done | by apply truthy_defined | by apply defined_not_undef];
    unfold password_of, database_of; first [by apply or_truthy | by apply nor_defined]
  end.

Lemma connection_settings_inv hasEval config s : connection_settings URL env hasEval config = Ok s ->
  exists c h o j, resolveUrl URL config = Ok c /\ check_binding c = Ok tt /\ host_of env c = VStr h /\ 64 ∉ h /\ check_options (own "options" c) = Ok o
    /\ s_host s = VStr h
    /\ let pooled := nor (own "pooler" c) (VBool (transactionPoolerDetected env h (port_of env c))) in
       let user := or_ (own "user" c) (or_ (env_ env "PGUSER") (defaultUser env)) in
       s = mkSettings (VStr h) (port_of env c) user (password_of env c) (database_of env c user) (ssl_setting c)
        (or_ (own "applicationName" c) (VStr (js "minipg"))) (nor (own "connectTimeout" c) (number 30000)) o (own "channelBinding" c)
        (nor (own "prepare" c) (VBool (negb (truthy pooled)))) (nor (own "binaryParams" c) (VBool true))
        (pipeline_depth (own "pipeline" c) (truthy pooled)) (pipeline_flush (own "pipeline" c)) (nor (own "temporal" c) (VStr (js "date")))
        (reuse_binary (own "types" c)) (reconnect_of (own "reconnect" c)) (own "path" c) pooled j.
Proof.
  intros H. unfold connection_settings in H.
  apply bind_res_Ok_inv in H as (c & Hc & H). apply bind_res_Ok_inv in H as ([] & Hb & H).
  apply bind_res_Ok_inv in H as (h & Hh & H). apply bind_res_Ok_inv in H as (o & Ho & H). apply bind_res_Ok_inv in H as (j & _ & [= <-]).
  destruct (host_of env c) as [| | | | |x| | | | |] eqn:Eh; try discriminate. destruct (existsb (Z.eqb 64) x) eqn:E; [discriminate|]. injection Hh as ->.
  exists c, h, o, j. repeat (split; [done|]). split; [|done]. intros Hin. apply not_true_iff_false in E. apply E, existsb_exists.
  exists 64. split; [by apply list_elem_of_In|done].
Qed.

(** The settings of a connection: what the caller gives is kept, over the connection string and the environment; a
    required channel binding has a TLS channel or a socket of the caller's; the host carries no credentials; and behind
    a transaction pooler nothing is prepared or pipelined unless the caller says so. *)
Theorem connection_settings_sound hasEval config s : NoDup config.*1 -> connection_settings URL env hasEval config = Ok s ->
  exists c, resolveUrl URL config = Ok c /\ settings_sound config c s
    /\ (exists h, s_host s = VStr h /\ 64 ∉ h)
    /\ (truthy (own "host" config) = true -> s_host s = own "host" config)
    /\ (nullish (own "prepare" config) = false -> s_prepare s = own "prepare" config)
    /\ (truthy (s_isBehindPooler s) = true ->
          (nullish (own "prepare" c) = true -> s_prepare s = VBool false)
          /\ (nullish (own "pipeline" c) = true -> s_pipelineDepth s = number 1)).
Proof.
  intros Hn H. apply connection_settings_inv in H as (c & h & o & j & Hc & Hb & Hh & Hat & Ho & Hsh & Hs). rewrite Hs. clear Hs Hsh.
  apply check_options_ok in Ho as [-> Ho]. exists c. split; [done|]. split; [|split; [|split; [|split]]].
  - unfold settings_sound. cbn. repeat split.
    + intros k v Hin. rewrite !elem_of_cons in Hin. destruct Hin as [[= -> ->]|[[= -> ->]|[[= -> ->]|Hin]]]; [explicit_setting..|by apply elem_of_nil in Hin].
    + explicit_setting.
    + explicit_setting.
    + intros E. destruct (check_binding_ok _ Hb E) as [Hk|Hk]; [by left|right; by apply no_tls_ssl].
    + done.
  - by exists h.
  - cbn. intros E. rewrite <- Hh. unfold host_of. revert E. explicit_setting.
  - cbn. explicit_setting.
  - cbn. intros ->. split; intros E; unfold nor, pipeline_depth; [by rewrite E|].
    destruct (own "pipeline" c); try done.
Qed.
(** The settings of a replication connection. *)
Theorem replication_settings_sound config s : NoDup config.*1 -> replication_settings URL env config = Ok s ->
  exists c, resolveUrl URL config = Ok c /\ settings_sound config c s.
Proof.
  intros Hn H. unfold replication_settings in H. apply bind_res_Ok_inv in H as (c & Hc & H). apply bind_res_Ok_inv in H as ([] & Hb & H).
  apply bind_res_Ok_inv in H as (o & Ho & [= <-]). apply check_options_ok in Ho as [-> Ho]. exists c. split; [done|].
  unfold settings_sound. cbn. repeat split.
  - intros k v Hin. rewrite !elem_of_cons in Hin. destruct Hin as [[= -> ->]|[[= -> ->]|[[= -> ->]|Hin]]]; [explicit_setting..|by apply elem_of_nil in Hin].
  - explicit_setting.
  - explicit_setting.
  - intros E. destruct (check_binding_ok _ Hb E) as [Hk|Hk]; [by left|right; by apply no_tls_ssl].
  - done.
Qed.
End Proofs.

(** ** Where the two constructors differ *)

Definition with_credentials : obj := [(js "host", VStr (js "u:secret@db"))].
Definition no_env : string -> option jstr := fun _ => None.
(** A host with credentials in it is refused by one constructor and dialled, and so repeated in the DNS error, by the other. *)
Example credentials_dialled :
  is_ok (connection_settings (fun _ => None) no_env true with_credentials) = false
  /\ (s_host <$> replication_settings (fun _ => None) no_env with_credentials) = Ok (VStr (js "u:secret@db")).
Proof. by vm_compute. Qed.
(** With only LOGNAME set, one connects as that user and the other as postgres. *)
Example users_differ :
  let env := fun k => if bool_decide (k = "LOGNAME"%string) then Some (js "ann") else None in
  (s_user <$> connection_settings (fun _ => None) env true []) = Ok (VStr (js "ann"))
  /\ (s_user <$> replication_settings (fun _ => None) env []) = Ok (VStr (js "postgres")).
Proof. by vm_compute. Qed.
Lemma connection_settings_sound_witness :
  let URL := fun _ : jstr => Some (mkUrl (js "postgres:") (js "u") (js "p") (js "ep-1-pooler.neon.tech") [] (js "/d") []) in
  let config := [(js "url", VStr (js "x")); (js "user", VStr (js "me"))] in
  exists s c, connection_settings URL no_env true config = Ok s /\ resolveUrl URL config = Ok c
    /\ s_user s = VStr (js "me") /\ s_prepare s = VBool false /\ s_pipelineDepth s = number 1.
Proof.
  intros URL config. destruct (connection_settings URL no_env true config) as [s| |] eqn:E; try (exfalso; revert E; vm_compute; discriminate).
  destruct (connection_settings_sound URL no_env true config s) as (c & Hc & _ & _ & _ & _ & Hp); [|exact E|].
  - apply NoDup_cons. split; [apply not_elem_of_cons; split; [done|apply not_elem_of_nil]|apply NoDup_singleton].
  - exists s, c. split; [done|]. split; [exact Hc|]. revert E Hc Hp. vm_compute. intros [= <-] [= <-] Hp. split; [done|]. split; [by apply Hp|by apply Hp].
Defined.
