(* ===== verification/Sockets.v ===== *)
(** * Transports made of web streams and web sockets (src/webstream.ts, src/neon-ws.ts)

    The SSLRequest exchange, the pump that turns a readable web stream into the Duplex of the connection, and the
    Duplex and the connect promise over a WebSocket. What the other side does is the argument: answers of a
    reader, events of a socket. *)

From S2P Require Import Prelude Utf8 Text Buf Num Dates Value Protocol Url Settings.

(** ** negotiateSslRequest *)

(** reader.read(): a chunk, or the end. *)
Inductive read_result := Value (b : bytes) | Ended | ReadFailed (message : jstr).
Inductive ssl_error := ClosedDuring | Refused | Unexpected (b : Z) | DataAfter | Transport (message : jstr).
(** Object.assign(..., { fatal: true }): not to be retried. *)
Definition fatal (e : ssl_error) : bool := match e with Refused | Unexpected _ => true | _ => false end.
(** What is written, and the outcome; both locks are released in any case. *)
Definition negotiateSslRequest (written : option jstr) (answer : read_result) : list (res bytes) * (ssl_error + unit) :=
  let outcome :=
    match written with
    | Some m => inl (Transport m)
    | None =>
      match answer with
      | ReadFailed m => inl (Transport m)
      | Ended | Value [] => inl ClosedDuring
      | Value (b :: rest) =>
        if b =? 78 then inl Refused
        else if negb (b =? 83) then inl (Unexpected b)
        else match rest with [] => inr tt | _ => inl DataAfter end
      end
    end in
  ([W.sslRequest], outcome).
(** sendCancelRequest: reads until the server closes; [answers] is what reader.read() gives. *)
Fixpoint until_done (answers : list read_result) : option (jstr + unit) :=
  match answers with
  | [] => None
  | Ended :: _ => Some (inr tt)
  | ReadFailed m :: _ => Some (inl m)
  | Value _ :: answers => until_done answers
  end.
Definition sendCancelRequest (pid secret : Z) (written : option jstr) (answers : list read_result) : list (res bytes) * option (jstr + unit) :=
  ([W.cancelRequest pid secret], match written with Some m => Some (inl m) | None => until_done answers end).

(** ** duplexFromWeb *)

Module Pump.
(** [reading]: the calls of reader.read() that have not been answered. *)
Record duplex := mkDuplex { pumping : bool; reading : nat; pushed : list bytes; ended : nat; destroyed : option jstr; cancels : nat; aborts : nat }.
Definition init : duplex := mkDuplex false 0 [] 0 None 0 0.
Definition set_pumping b s := mkDuplex b (reading s) (pushed s) (ended s) (destroyed s) (cancels s) (aborts s).
Definition set_reading n s := mkDuplex (pumping s) n (pushed s) (ended s) (destroyed s) (cancels s) (aborts s).
Definition push b s := mkDuplex (pumping s) (reading s) (pushed s ++ [b]) (ended s) (destroyed s) (cancels s) (aborts s).
Definition push_null s := mkDuplex (pumping s) (reading s) (pushed s) (S (ended s)) (destroyed s) (cancels s) (aborts s).
(** destroy() of a stream acts once: reader.cancel(), writer.abort(). *)
Definition destroy (e : jstr) s :=
  match destroyed s with
  | None => mkDuplex (pumping s) (reading s) (pushed s) (ended s) (Some e) (S (cancels s)) (S (aborts s))
  | Some _ => s
  end.
(** [Read]: the stream wants data. [Answer]: an answer to a read, with whether the stream wants more after it. *)
Inductive event := Read | Answer (r : read_result) (more : bool) | Destroy (e : jstr).
Definition read (s : duplex) : duplex := if pumping s then s else set_reading (S (reading s)) (set_pumping true s).
Definition answer (r : read_result) (more : bool) (s : duplex) : duplex :=
  match reading s with
  | O => s
  | S n =>
    let s := set_reading n s in
    let again := set_reading (S n) in
    match r with
    | Ended => push_null (set_pumping false s)
    | Value [] => again s
    | Value b => let s := push b s in if more then again s else set_pumping false s
    | ReadFailed e => destroy e (set_pumping false s)
    end
  end.
Definition step (e : event) (s : duplex) : duplex :=
  match e with Read => read s | Answer r more => answer r more s | Destroy e => destroy e s end.
Definition run (es : list event) (s : duplex) : duplex := foldl (fun s e => step e s) s es.
End Pump.

(** ** WebSocket *)

Module WebSocket.
(** The payload of a frame, and what an error event carries. *)
Inductive frame := Binary (b : bytes) | Text (s : jstr).
Definition toBuffer (f : frame) : bytes := match f with Binary b => b | Text s => utf8 s end.
Record ErrorEvent := mkErrorEvent { e_error : option jstr; e_message : option jstr }.
(** e?.error ?? message, as the text of the cause *)
Definition wsErrorCause (e : ErrorEvent) : option jstr := match e_error e with Some m => Some m | None => e_message e end.
Definition withCause (msg : jstr) (cause : option jstr) : jstr :=
  match cause with Some (_ :: _ as t) => msg ++ js ": " ++ t | _ => msg end.

(** The address that neonSocket dials. [wsProxy]: the option, a function of host and port; [env]: the environment. *)
Section Address.
Context (URL : jstr -> option Url) (env : string -> option jstr) (wsProxy : option (value -> value -> jstr)).
Definition proxy_of (host port : value) : jstr :=
  match wsProxy with Some f => f host port | None => match host with VStr h => h ++ js "/v2" | _ => js "/v2" end end.
Definition ws_url (config : obj) : res jstr :=
  c ← resolveUrl URL config;
  let host := nor (own "host" c) (nor (env_ env "PGHOST") (VStr (js "localhost"))) in
  let port := nor (own "port" c) (env_port env) in
  let secure := nor (own "secure" config) (VBool true) in
  Ok ((if truthy secure then js "wss" else js "ws") ++ js "://" ++ proxy_of host port).
End Address.

Inductive settlement := Resolved | Rejected (message : jstr).
(** [errors]: what the stream's 'error' listeners are given. [owned]: somebody listens (the connection does, once
    it has the stream). [closes]: the calls of ws.close(). *)
Record socket := mkSocket { promise : option settlement; settlements : nat; pushed : list bytes; eof : bool;
  destroyed : bool; errors : list jstr; owned : bool; closes : nat }.
Definition init : socket := mkSocket None 0 [] false false [] false 0.
Definition settle (r : settlement) (s : socket) : socket :=
  match promise s with
  | Some _ => s
  | None => mkSocket (Some r) (S (settlements s)) (pushed s) (eof s) (destroyed s) (errors s) (owned s) (closes s)
  end.
Definition push (b : bytes) (s : socket) : socket :=
  mkSocket (promise s) (settlements s) (pushed s ++ [b]) (eof s) (destroyed s) (errors s) (owned s) (closes s).
Definition push_null (s : socket) : socket :=
  mkSocket (promise s) (settlements s) (pushed s) true (destroyed s) (errors s) (owned s) (closes s).
Definition own (s : socket) : socket :=
  mkSocket (promise s) (settlements s) (pushed s) (eof s) (destroyed s) (errors s) true (closes s).
Definition destroy (e : option jstr) (s : socket) : socket :=
  if destroyed s then s
  else mkSocket (promise s) (settlements s) (pushed s) (eof s) true (errors s ++ match e with Some m => [m] | None => [] end) (owned s) (S (closes s)).

Section Socket.
Context (url : jstr).
Inductive event :=
| Open | Message (f : frame) | Error (e : ErrorEvent) | Close (code : option Z) (reason : option jstr)
(** the connection attaches its listeners, or ends the stream *)
| Attach | End_.
Definition socket_error (e : ErrorEvent) : jstr := withCause (js "minipg/neon-ws: websocket error") (wsErrorCause e).
Definition open_failed (e : ErrorEvent) : jstr := withCause (js "minipg/neon-ws: failed to open WebSocket to " ++ url) (wsErrorCause e).
Definition closed_early (code : option Z) (reason : option jstr) : jstr :=
  js "minipg/neon-ws: WebSocket to " ++ url ++ js " closed before opening (code " ++
  match code with Some c => show_Z c | None => js "unknown" end ++
  match reason with Some (_ :: _ as r) => js ": " ++ r | _ => [] end ++ js ")".
(** The listeners of duplexFromWebSocket, which run before those of neonSocket. *)
Definition duplex_event (e : event) (s : socket) : socket :=
  match e with
  | Message f => if destroyed s then s else push (toBuffer f) s
  | Close _ _ => push_null s
  | Error e => if destroyed s then s else if owned s then destroy (Some (socket_error e)) s else destroy None s
  | Attach => match promise s with Some Resolved => own s | _ => s end
  | End_ => destroy None s
  | Open => s
  end.
Definition connect_event (e : event) (s : socket) : socket :=
  match e with
  | Open => settle Resolved s
  | Error e => settle (Rejected (open_failed e)) s
  | Close code reason => settle (Rejected (closed_early code reason)) s
  | _ => s
  end.
Definition step (e : event) (s : socket) : socket := connect_event e (duplex_event e s).
Definition run (es : list event) (s : socket) : socket := foldl (fun s e => step e s) s es.
End Socket.
End WebSocket.

(** ** What they guarantee *)

(** The upgrade goes on only after the single byte S: everything else is refused, and a server that answers in
    plain text is not asked again. *)
Lemma ssl_upgrades written answer : (negotiateSslRequest written answer).2 = inr tt <-> written = None /\ answer = Value [83].
Proof.
  split; [|by intros [-> ->]]. unfold negotiateSslRequest. cbn [snd]. destruct written; [done|]. destruct answer as [[|b rest]| |]; try done.
  destruct (Z.eqb_spec b 78); [done|]. destruct (Z.eqb_spec b 83) as [->|]; [|done]. by destruct rest.
Qed.

Section PumpFacts.
Import Pump.
Definition chunk_of (e : event) : list bytes := match e with Answer (Value (x :: b)) _ => [x :: b] | _ => [] end.
(** Answers come to outstanding reads. *)
Fixpoint answered_reads (es : list event) (s : duplex) : bool :=
  match es with
  | [] => true
  | e :: es => match e with Answer _ _ => (1 <=? reading s)%nat | _ => true end && answered_reads es (step e s)
  end.
Definition one_reader (s : duplex) : Prop := reading s = (if pumping s then 1 else 0)%nat /\ (cancels s <= 1)%nat /\ (cancels s = 1%nat -> is_Some (destroyed s)).
Lemma one_reader_step e s : one_reader s -> one_reader (step e s).
Proof.
  intros (H1 & H2 & H3). destruct e as [|r more|e]; cbn [step].
  - unfold read. destruct (pumping s) eqn:E; [by split; [rewrite E|]|]. split; [cbn; lia|done].
  - unfold answer. destruct (reading s) as [|n] eqn:E; [by split; [rewrite E|]|]. destruct (pumping s) eqn:Ep; [|lia]. assert (n = 0%nat) as -> by lia.
    destruct r as [[|x b]| |m]; [by split; [cbn; rewrite Ep|]|destruct more; (split; [cbn; by rewrite ?Ep|done])|by split|].
    unfold destroy. cbn. destruct (destroyed s) eqn:Ed; (split; [done|]); cbn; [split; [done|by rewrite Ed]|split; [|by eexists]].
    destruct (cancels s) as [|[|k]]; try lia. by destruct (H3 eq_refl).
  - unfold destroy. destruct (destroyed s) eqn:Ed; [by split; [|split; [|rewrite Ed]]|]. split; [done|]. cbn. split; [|by eexists].
    destruct (cancels s) as [|[|k]]; try lia. by destruct (H3 eq_refl).
Qed.
Lemma pushed_step e s : match e with Answer _ _ => (1 <=? reading s)%nat | _ => true end -> pushed (step e s) = pushed s ++ chunk_of e.
Proof.
  destruct e as [|r more|e]; cbn [step chunk_of]; intros H.
  - unfold read. rewrite app_nil_r. by destruct (pumping s).
  - unfold answer. destruct (reading s) as [|n]; [done|]. destruct r as [[|x b]| |m]; try (by rewrite app_nil_r); [by destruct more|].
    rewrite app_nil_r. unfold destroy. by destruct (destroyed _).
  - rewrite app_nil_r. unfold destroy. by destruct (destroyed s).
Qed.
(** However reads, chunks, pauses and failures interleave, the pump has one read outstanding while it runs and none
    while it pauses, so the stream is given the chunks in the order they were read, none twice and none lost; the
    reader is cancelled at most once. *)
Lemma pump_in_order es s : one_reader s -> answered_reads es s -> one_reader (run es s) /\ pushed (run es s) = pushed s ++ es ≫= chunk_of.
Proof.
  revert s. induction es as [|e es IH]; intros s Hs Ha; [by rewrite app_nil_r|]. cbn [answered_reads] in Ha. apply andb_prop_elim in Ha as [H1 H2].
  destruct (IH (step e s) (one_reader_step e s Hs) H2) as [I1 I2]. split; [done|]. change (run (e :: es) s) with (run es (step e s)).
  rewrite I2, pushed_step by done. by rewrite <- app_assoc.
Qed.
End PumpFacts.

Section WebSocketFacts.
Import WebSocket.
Context (url : jstr).
(** The first of open, error and close decides. *)
Fixpoint first_settlement (es : list event) : option settlement :=
  match es with
  | [] => None
  | Open :: _ => Some Resolved
  | Error e :: _ => Some (Rejected (open_failed url e))
  | Close c r :: _ => Some (Rejected (closed_early url c r))
  | _ :: es => first_settlement es
  end.
Definition Good (s : socket) : Prop :=
  settlements s = (match promise s with None => 0 | Some _ => 1 end)%nat /\ (errors s <> [] -> owned s = true) /\ (owned s = true -> promise s = Some Resolved)
  /\ closes s = (if destroyed s then 1 else 0)%nat.
Lemma socket_settle_good r s : Good s -> Good (settle r s).
Proof. intros (H1 & H2 & H3 & H4). unfold settle. destruct (promise s) eqn:E; [by unfold Good; rewrite E|]. split; [cbn; lia|]. split; [done|]. split; [|done]. cbn. intros K. by apply H3 in K. Qed.
Lemma destroy_good e s : (is_Some e -> owned s = true) -> Good s -> Good (destroy e s).
Proof.
  intros He (H1 & H2 & H3 & H4). unfold destroy. destruct (destroyed s) eqn:E; [by unfold Good; rewrite E|]. split; [done|]. split; [|split; [done|cbn; lia]].
  cbn. destruct e; [intros _; apply He; by eexists|]. by rewrite app_nil_r.
Qed.
Lemma socket_step_good e s : Good s -> Good (step url e s).
Proof.
  intros Hs. unfold step. destruct e as [|f|e|c r| |]; cbn [duplex_event connect_event]; try (by apply socket_settle_good); try (by apply destroy_good; [intros []|]).
  - by destruct (destroyed s).
  - apply socket_settle_good. destruct (destroyed s); [done|]. destruct (owned s) eqn:E; by apply destroy_good; [rewrite ?E; intros []|].
  - pose proof Hs as (H1 & H2 & H3 & H4). destruct (promise s) as [[|]|] eqn:E; try done. split; [cbn; by rewrite E|]. split; [done|]. split; [done|]. done.
Qed.
Lemma promise_step e s : promise (step url e s) = match promise s with Some r => Some r | None => first_settlement [e] end.
Proof.
  assert (forall e s, promise (destroy e s) = promise s) as Hd by (intros x t; unfold destroy; by destruct (destroyed t)).
  assert (forall r s, promise (settle r s) = match promise s with Some r => Some r | None => Some r end) as Hst by (intros x t; unfold settle; by destruct (promise t) eqn:?).
  unfold step. destruct e as [|f|e|c r| |]; cbn [duplex_event connect_event first_settlement]; rewrite ?Hst, ?Hd; try done.
  - destruct (destroyed s); cbn; by destruct (promise s).
  - destruct (destroyed s); [done|]. destruct (owned s); by rewrite Hd.
  - destruct (promise s) as [[|]|] eqn:E; cbn; by rewrite ?E.
  - by destruct (promise s).
Qed.
Lemma first_settlement_cons e es : first_settlement (e :: es) = match first_settlement [e] with Some r => Some r | None => first_settlement es end.
Proof. by destruct e. Qed.
(** The promise of a connection is settled once, by the first of open, error and close, whichever comes; an error
    event is raised on the stream only when the connection listens to it, so none goes unhandled; and the
    WebSocket is closed when the stream is destroyed. *)
Lemma connect_settles es s : Good s -> Good (run url es s) /\ promise (run url es s) = match promise s with Some r => Some r | None => first_settlement es end.
Proof.
  revert s. induction es as [|e es IH]; intros s Hs; [split; [done|]; cbn; by destruct (promise s)|].
  destruct (IH (step url e s) (socket_step_good e s Hs)) as [I1 I2]. split; [done|]. change (run url (e :: es) s) with (run url es (step url e s)).
  rewrite I2, promise_step, (first_settlement_cons e es). by destruct (promise s), (first_settlement [e]).
Qed.
Lemma init_good : Good init.
Proof. by repeat split. Qed.
End WebSocketFacts.
(** Neon's per-endpoint proxy, for the host of its connection string. *)
Example neon_address :
  WebSocket.ws_url (fun _ => Some (mkUrl (js "postgres:") (js "u") (js "p") (js "ep-1.neon.tech") [] (js "/d") [])) (fun _ => None) None
    [(js "url", VStr (js "x"))] = Ok (js "wss://ep-1.neon.tech/v2").
Proof. vm_compute. reflexivity. Qed.
