(* ===== verification/EffectClient.v ===== *)
(** * The client for Effect (src/effect/MinipgClient.ts)

    The parts that are the driver's own: the transaction settings, the classification of failures, what COMMIT
    means, and the acquisition of a connection by a fiber that may be interrupted. Effect itself (fibers, scopes,
    layers, the statement compiler) is a library. *)

From S2P Require Import Prelude Utf8 Text Buf Errors Faults.

(** ** setTransaction *)

Record TransactionOptions := mkTransactionOptions { isolation : option jstr; readOnly : option bool; deferrable : option bool }.
Definition ISOLATION_LEVELS : list jstr := js <$> ["serializable"; "repeatable read"; "read committed"; "read uncommitted"]%string.
Definition unknown_level (i : jstr) : jstr :=
  js "MinipgClient: the isolation level " ++ [34] ++ i ++ [34] ++ js " is unknown. Use serializable, repeatable read, read committed or read uncommitted.".
Fixpoint spaced (l : list jstr) : jstr := match l with [] => [] | [x] => x | x :: l => x ++ 32 :: spaced l end.
Definition setTransaction (o : TransactionOptions) : res (option jstr) :=
  i ← match isolation o with
      | None => Ok []
      | Some i => if bool_decide (i ∈ ISOLATION_LEVELS) then Ok [js "isolation level " ++ i] else Throw (Error (unknown_level i))
      end;
  let parts := i ++ match readOnly o with Some b => [if b : bool then js "read only" else js "read write"] | None => [] end
                 ++ match deferrable o with Some b => [if b : bool then js "deferrable" else js "not deferrable"] | None => [] end in
  Ok (match parts with [] => None | _ => Some (js "set transaction " ++ spaced parts) end).

(** ** toSqlError *)

(** A PgError with its fields; another Error; anything else, with its String(). *)
Inductive cause := FromServer (fields : PgErrorFields) | OtherError (message : jstr) | NotAnError (text : jstr).
Inductive reason :=
| ConnectionError | AuthenticationError | AuthorizationError | SqlSyntaxError | UniqueViolation (constraint : jstr) | ConstraintError
| DeadlockError | SerializationError | LockTimeoutError | StatementTimeoutError | UnknownError.
Record SqlError := mkSqlError { r_reason : reason; r_cause : cause; r_message : jstr; r_operation : jstr }.
Definition message_of (c : cause) : jstr :=
  match c with FromServer f => default (js "PostgreSQL error") (f !! js "message") | OtherError m => m | NotAnError t => t end.
Fixpoint contains (sub s : jstr) : bool := prefix_of sub s || match s with [] => false | _ :: t => contains sub t end.
Definition one_statement : jstr :=
  js "SQL with several statements is not supported: minipg sends each query as one statement. Run the statements one by one.".
Definition classifySqlState (code constraint : option jstr) : reason :=
  match code with
  | None => UnknownError
  | Some c =>
    let eq s := bool_decide (c = js s) in
    if prefix_of (js "08") c then ConnectionError
    else if prefix_of (js "28") c then AuthenticationError
    else if eq "42501"%string then AuthorizationError
    else if prefix_of (js "42") c then SqlSyntaxError
    else if eq "23505"%string then
      UniqueViolation (match constraint with Some n => match trim n with [] => js "unknown" | t => t end | None => js "unknown" end)
    else if prefix_of (js "23") c then ConstraintError
    else if eq "40P01"%string then DeadlockError
    else if eq "40001"%string then SerializationError
    else if eq "55P03"%string then LockTimeoutError
    else if eq "57014"%string then StatementTimeoutError
    else UnknownError
  end.
(** [ready]: whether the connection, if the failure comes from one, is in the state 'ready'. *)
Definition toSqlError (c : cause) (operation : jstr) (ready : option bool) : SqlError :=
  let isConnectionLost := match ready with Some false => true | _ => false end in
  let message := message_of c in
  match c with
  | FromServer f =>
    if negb isConnectionLost then
      if bool_decide (f !! js "code" = Some (js "42601")) && contains (js "multiple commands") message
      then mkSqlError SqlSyntaxError c one_statement operation
      else mkSqlError (classifySqlState (f !! js "code") (f !! js "constraint")) c message operation
    else mkSqlError ConnectionError c message operation
  | _ => mkSqlError (if isConnectionLost || bool_decide (ready = None) then ConnectionError else UnknownError) c message operation
  end.
(** COMMIT is answered with the tag ROLLBACK when the transaction was aborted. *)
Definition rolled_back : SqlError := mkSqlError UnknownError (OtherError (js "COMMIT rolled back an aborted transaction"))
  (js "MinipgClient: COMMIT rolled back the transaction, because a statement in it failed earlier. Find that statement, fix it, and run the transaction again.")
  (js "commit").
Definition commit {R} (command : R -> option jstr) (answer : SqlError + R) : SqlError + unit :=
  match answer with
  | inl e => inl e
  | inr r => if bool_decide (command r = Some (js "ROLLBACK")) then inl rolled_back else inr tt
  end.

(** ** poolConnection *)

(** The fiber waits for pool.acquire(), has been resumed with the connection, holds it (a finalizer of its scope
    releases it), or is done. [late]: it was interrupted while it waited. *)
Inductive phase := Waiting | Resumed | Held | Over.
Record fiber := mkFiber { at_ : phase; late : bool; arrived : nat; released : nat }.
Definition start : fiber := mkFiber Waiting false 0 0.
(** pool.acquire() resolves (once) or rejects; the fiber is interrupted; it goes on; its scope closes. *)
Inductive event := Arrives | Rejects | Interrupt | Continue | Close.
Definition step (e : event) (f : fiber) : fiber :=
  match e, at_ f with
  | Arrives, Waiting => if (arrived f =? 0)%nat then mkFiber Resumed false 1 (released f) else f
  | Arrives, Over => if late f && (arrived f =? 0)%nat then mkFiber Over true 1 (S (released f)) else f
  | Rejects, Waiting => mkFiber Over false (arrived f) (released f)
  | Interrupt, Waiting => mkFiber Over true (arrived f) (released f)
  | Interrupt, Resumed => mkFiber Over false (arrived f) (S (released f))
  | Continue, Resumed => mkFiber Held false (arrived f) (released f)
  | Close, Held => mkFiber Over false (arrived f) (S (released f))
  | _, _ => f
  end.
Definition run (es : list event) (f : fiber) : fiber := foldl (fun f e => step e f) f es.

(** ** What they guarantee *)

(** A failure that leaves the connection closed is a ConnectionError, whatever the server said. *)
Lemma lost_is_connection_error c operation : r_reason (toSqlError c operation (Some false)) = ConnectionError.
Proof. by destruct c. Qed.
(** The clause is one of those PostgreSQL reads, with its settings in the order isolation, access, deferrable. *)
Lemma setTransaction_reads o s : setTransaction o = Ok (Some s) -> exists parts, parts <> [] /\ s = js "set transaction " ++ spaced parts /\
  Forall (fun p => p ∈ (app (js "isolation level ") <$> ISOLATION_LEVELS) ++ (js <$> ["read only"; "read write"; "deferrable"; "not deferrable"]%string)) parts.
Proof.
  unfold setTransaction. intros Hs. assert (forall i, match isolation o with
      | None => Ok [] | Some i => if bool_decide (i ∈ ISOLATION_LEVELS) then Ok [js "isolation level " ++ i] else Throw (Error (unknown_level i)) end = Ok i ->
    Forall (fun p => p ∈ (app (js "isolation level ") <$> ISOLATION_LEVELS) ++ (js <$> ["read only"; "read write"; "deferrable"; "not deferrable"]%string)) i) as Hi.
  { intros i. destruct (isolation o) as [l|]; [|intros [= <-]; constructor]. destruct (bool_decide_reflect (l ∈ ISOLATION_LEVELS)); [|done].
    intros [= <-]. constructor; [|constructor]. apply elem_of_app. left. apply list_elem_of_fmap. by exists l. }
  destruct (match isolation o with None => _ | Some i => _ end) as [i| |]; [|done..]. specialize (Hi i eq_refl). cbn [mbind res_bind] in Hs.
  destruct (i ++ _) as [|p parts] eqn:E; [done|]. injection Hs as <-. exists (p :: parts). split; [done|]. split; [done|]. rewrite <- E.
  apply Forall_app. split; [exact Hi|]. apply Forall_app. split; [destruct (readOnly o) as [[]|]|destruct (deferrable o) as [[]|]]; repeat constructor;
    apply elem_of_app; right; apply (bool_decide_unpack _); by vm_compute.
Qed.
Lemma balanced_step e f : (arrived f <= 1)%nat /\ (arrived f = released f + match at_ f with Resumed | Held => 1 | _ => 0 end)%nat /\ (at_ f = Waiting -> arrived f = 0%nat) ->
  let f := step e f in (arrived f <= 1)%nat /\ (arrived f = released f + match at_ f with Resumed | Held => 1 | _ => 0 end)%nat /\ (at_ f = Waiting -> arrived f = 0%nat).
Proof.
  intros (H1 & H2 & H3). destruct f as [p l a r]. cbn in *.
  assert (forall n m, (n <= 1)%nat -> (n = m)%nat -> (n <= 1)%nat /\ n = m /\ (Over = Waiting -> n = 0%nat)) as G by (intros; split; [done|by split]).
  destruct e, p; cbn; auto; try (by apply G; lia); try (split; [lia|]; split; [lia|done]).
  - destruct (Nat.eqb_spec a 0); cbn; [split; [lia|]; split; [lia|done]|auto].
  - destruct (l && _) eqn:E; cbn; [|by auto]. apply andb_prop in E as [_ E]. apply Nat.eqb_eq in E. apply G; lia.
Qed.
(** Whenever the fiber is interrupted, the connection it was to get is given back exactly once, even when it
    arrives after the interruption; until then the fiber has it. *)
Lemma acquire_balanced es : let f := run es start in
  arrived f = (released f + match at_ f with Resumed | Held => 1 | _ => 0 end)%nat /\ (released f <= 1)%nat.
Proof.
  assert (forall f, ((arrived f <= 1)%nat /\ (arrived f = released f + match at_ f with Resumed | Held => 1 | _ => 0 end)%nat /\ (at_ f = Waiting -> arrived f = 0%nat)) ->
    let f := run es f in (arrived f <= 1)%nat /\ (arrived f = released f + match at_ f with Resumed | Held => 1 | _ => 0 end)%nat) as G.
  { induction es as [|e es IH]; intros f Hf; [split; apply Hf|]. apply (IH (step e f)). by apply balanced_step. }
  destruct (G start) as [H1 H2]; [repeat split; cbn; lia|]. cbv zeta in *. split; [exact H2|lia].
Qed.
