(* ===== verification/NodeTransport.v ===== *)
(** * The TCP and TLS transport of Node (src/transport-node.ts)

    The TLS options of an sslmode, and the connect promise of nodeTransport as a state machine over the events of
    its sockets. *)

From S2P Require Import Prelude Utf8 Text Buf Protocol.

(** ** tlsOptions *)

Inductive Ssl := SslTrue | Require | VerifyCa | VerifyFull
| SslObject (servername : option (option jstr)) (rejectUnauthorized : option bool) (checkServerIdentity : bool).
(** How the host name of the certificate is checked: the default of tls against the servername, not at all, by a
    function of the caller, or against the IP address connected to. *)
Inductive identity := ByServername | NotChecked | ByCaller | ByAddress.
#[global] Instance identity_eq : EqDecision identity. Proof. solve_decision. Defined.
Record TlsOptions := mkTlsOptions { servername : option jstr; rejectUnauthorized : bool; checkIdentity : identity }.
(** [isIP]: net.isIP(host) *)
Definition tlsOptions (isIP : jstr -> bool) (ssl : Ssl) (host : jstr) : TlsOptions :=
  let name := if isIP host then None else Some host in
  let o :=
    match ssl with
    | SslTrue | Require => mkTlsOptions name false ByServername
    | VerifyCa => mkTlsOptions name true NotChecked
    | VerifyFull => mkTlsOptions name true ByServername
    | SslObject n r c => mkTlsOptions (default name n) (default true r) (if c then ByCaller else ByServername)
    end in
  let named := match servername o with Some (_ :: _) => true | _ => false end in
  if rejectUnauthorized o && isIP host && negb named && bool_decide (checkIdentity o = ByServername)
  then mkTlsOptions (servername o) (rejectUnauthorized o) ByAddress else o.

(** ** nodeTransport *)

Inductive settlement := Plain | Secure | Aborted | Failed (message : jstr) (fatal : bool).
(** [tls]: the TLS socket, once there is one, and whether it is destroyed. The phase: before 'connect'; after the SSLRequest; in the handshake; nothing more is listened to. *)
Inductive phase := Connecting | Asked | Handshake | Idle.
Record transport := mkTransport { at_ : phase; promise : option settlement; sent : list (res bytes); sock_destroyed : bool; tls : option bool }.
Definition start : transport := mkTransport Connecting None [] false None.
(** The first settlement of a promise stands. *)
Definition settle (r : settlement) (s : transport) : transport :=
  mkTransport (at_ s) (match promise s with None => Some r | p => p end) (sent s) (sock_destroyed s) (tls s).
Definition goto (p : phase) (s : transport) : transport := mkTransport p (promise s) (sent s) (sock_destroyed s) (tls s).
(** 'connect'; the first 'data' (its bytes) and whether tls.connect() throws on the options; the handshake is done;
    'error' of a socket; the signal aborts. *)
Inductive event := Connected | Data (b : bytes) (malformed : option jstr) | Handshaken | SocketError (m : jstr) | Abort.
Section Transport.
(** [ssl]: cfg.ssl is set; [path]: cfg.path is. *)
Context (ssl path : bool).
Definition step (e : event) (s : transport) : transport :=
  match e, at_ s with
  | Connected, Connecting =>
    if negb ssl || path then settle Plain (goto Idle s)
    else mkTransport Asked (promise s) (sent s ++ [W.sslRequest]) (sock_destroyed s) (tls s)
  | Data b malformed, Asked =>
    let c := nth 0 b 0 in
    if c =? 83 then
      match malformed with
      | None => mkTransport Handshake (promise s) (sent s) (sock_destroyed s) (Some false)
      | Some m => settle (Failed m true) (mkTransport Idle (promise s) (sent s) true (tls s))
      end
    else if c =? 78 then settle (Failed (js "server does not support TLS") true) (goto Idle s)
    else settle (Failed (js "unexpected SSL response byte: " ++ [c]) true) (goto Idle s)
  | Handshaken, Handshake => settle Secure (goto Idle s)
  | SocketError m, _ => settle (Failed m false) s
  | Abort, _ => settle Aborted (mkTransport (at_ s) (promise s) (sent s) true ((fun _ => true) <$> tls s))
  | _, _ => s
  end.
Definition run (es : list event) (s : transport) : transport := foldl (fun s e => step e s) s es.

Definition good (s : transport) : Prop :=
  promise s <> Some Plain /\ (promise s = Some Secure -> sent s = [W.sslRequest])
  /\ match at_ s with Connecting => sent s = [] | Asked | Handshake => sent s = [W.sslRequest] | Idle => True end.
Lemma settle_good r s : r <> Plain -> (r = Secure -> sent s = [W.sslRequest]) -> good s -> good (settle r s).
Proof.
  intros Hp Hs (H1 & H2 & H3). unfold good, settle. cbn. destruct (promise s); [done|]. split; [congruence|]. split; [|done]. intros [= ->]. auto.
Qed.
Lemma moved_good p d t s : match p with Connecting => sent s = [] | Asked | Handshake => sent s = [W.sslRequest] | Idle => True end ->
  good s -> good (mkTransport p (promise s) (sent s) d t).
Proof. intros Hp (H1 & H2 & _). by split. Qed.
Lemma good_step e s : ssl = true -> path = false -> good s -> good (step e s).
Proof.
  intros Hssl Hpath Hs. pose proof Hs as (H1 & H2 & H3). unfold step. rewrite Hssl, Hpath. cbn [negb orb].
  destruct e as [|b m| |m|]; destruct (at_ s) eqn:Ea; try exact Hs; try (by apply settle_good).
  - rewrite H3. split; [done|]. split; [|done]. done.
  - destruct (_ =? 83); [destruct m as [m|]|destruct (_ =? 78)].
    1,3,4: apply settle_good; [done|done|by apply moved_good].
    by apply moved_good.
Qed.
(** There is no downgrade: when TLS is asked for (and not over a unix socket) the promise never resolves with the
    plain socket, whatever the server answers and however events are ordered, and what was written in the clear
    before it resolves with the TLS socket is the SSLRequest alone. *)
Lemma no_downgrade es : ssl = true -> path = false ->
  promise (run es start) <> Some Plain /\ (promise (run es start) = Some Secure -> sent (run es start) = [W.sslRequest]).
Proof.
  intros Hs Hp. assert (good (run es start)) as (H1 & H2 & _); [|done].
  assert (good start) as H0 by done. revert H0. generalize start. induction es as [|e es IH]; intros s H0; [done|]. apply IH. by apply good_step.
Qed.
End Transport.
(** Certificates are checked unless sslmode asks for encryption only, or the caller's options say otherwise. *)
Lemma verified isIP ssl host : match ssl with VerifyCa | VerifyFull => True | SslObject _ r _ => r <> Some false | _ => False end ->
  rejectUnauthorized (tlsOptions isIP ssl host) = true.
Proof. unfold tlsOptions. intros Hs. by destruct ssl as [| | | |n [[]|] c]; cbn; destruct (isIP host); cbn; repeat case_match. Qed.

(** ** nodeCancel *)

(** A release of Bun that fires 'close' on a local end(): below 1.4. [version]: its first two numbers, by parseInt. *)
Definition bunClosesOnLocalEnd (version : option (option Z * option Z)) : bool :=
  match version with
  | Some (major, minor) =>
    match major with
    | Some m => (m <? 1) || ((m =? 1) && match minor with Some n => n <? 4 | None => false end)
    | None => false
    end
  | None => false
  end.

Module Cancel.
(** Before 'connect'; after the SSLRequest; in the handshake; the request is sent (or could not be). *)
Inductive phase := Dialing | Asked | Handshake | Sent.
(** [in_tls]: what was written through the TLS socket; [halves]: the calls of end(). *)
Record cancel := mkCancel { at_ : phase; outcome : option (jstr + unit); in_clear : list (res bytes); in_tls : list (res bytes); halves : nat; destroyed : bool }.
Definition start : cancel := mkCancel Dialing None [] [] 0 false.
Definition settle (r : jstr + unit) (s : cancel) : cancel :=
  mkCancel (at_ s) (match outcome s with None => Some r | o => o end) (in_clear s) (in_tls s) (halves s) (destroyed s).
(** 'connect'; the first 'data'; the handshake is done; 'error' of either socket; 'close' of the plain one; its timeout. *)
Inductive event := Connected | Data (b : bytes) | Handshaken | SocketError (m : jstr) | Closed | TimedOut.
Section Cancel.
Context (ssl path skip_end : bool) (request : res bytes).
Definition half : nat := if skip_end then 0 else 1.
Definition send_plain (s : cancel) : cancel := mkCancel Sent (outcome s) (in_clear s ++ [request]) (in_tls s) (halves s + half) (destroyed s).
Definition send_tls (s : cancel) : cancel := mkCancel Sent (outcome s) (in_clear s) (in_tls s ++ [request]) (halves s + half) (destroyed s).
Definition step (e : event) (s : cancel) : cancel :=
  match e, at_ s with
  | Connected, Dialing =>
    if negb ssl || path then send_plain s
    else mkCancel Asked (outcome s) (in_clear s ++ [W.sslRequest]) (in_tls s) (halves s) (destroyed s)
  | Data b, Asked => if nth 0 b 0 =? 83 then mkCancel Handshake (outcome s) (in_clear s) (in_tls s) (halves s) (destroyed s) else send_plain s
  | Handshaken, Handshake => send_tls s
  | SocketError m, _ => settle (inl m) s
  | Closed, _ => settle (inr tt) s
  | TimedOut, _ => settle (inl (js "cancel request timed out")) (mkCancel (at_ s) (outcome s) (in_clear s) (in_tls s) (halves s) true)
  | _, _ => s
  end.
Definition run (es : list event) (s : cancel) : cancel := foldl (fun s e => step e s) s es.

(** The first of an error, a timeout and the close. *)
Fixpoint first_end (es : list event) : option (jstr + unit) :=
  match es with
  | [] => None
  | SocketError m :: _ => Some (inl m)
  | Closed :: _ => Some (inr tt)
  | TimedOut :: _ => Some (inl (js "cancel request timed out"))
  | _ :: es => first_end es
  end.
(** What is on the wire in each phase: the request goes out once, in the clear when TLS is not asked for or was declined. *)
Definition on_wire (s : cancel) : Prop :=
  match at_ s with
  | Dialing => in_clear s = [] /\ in_tls s = [] /\ halves s = 0%nat
  | Asked | Handshake => in_clear s = [W.sslRequest] /\ in_tls s = [] /\ halves s = 0%nat
  | Sent => halves s = half /\
    ((ssl = false \/ path = true) /\ in_clear s = [request] /\ in_tls s = []
     \/ in_clear s = [W.sslRequest; request] /\ in_tls s = []
     \/ in_clear s = [W.sslRequest] /\ in_tls s = [request])
  end.
Lemma on_wire_step e s : on_wire s -> on_wire (step e s).
Proof.
  intros Hs. unfold step. destruct e as [|b| |m| |]; destruct (at_ s) eqn:E; try exact Hs;
    unfold on_wire in *; rewrite E in Hs; try exact Hs; destruct Hs as (H1 & H2 & H3).
  - destruct (negb ssl || path) eqn:Ep; cbn; rewrite H1, H2, H3; [|done]. split; [done|]. left. split; [|done]. destruct ssl, path; auto.
  - destruct (_ =? 83); cbn; rewrite H1, H2, H3; [done|]. split; [done|]. right. by left.
  - cbn. rewrite H1, H2, H3. split; [done|]. right. by right.
Qed.
Lemma outcome_step e s : outcome (step e s) = match outcome s with Some r => Some r | None => first_end [e] end.
Proof.
  unfold step, send_plain, send_tls. destruct e; destruct (at_ s); cbn; try destruct (_ || path); try destruct (_ =? 83); cbn; by destruct (outcome s).
Qed.
Lemma first_end_cons e es : first_end (e :: es) = match first_end [e] with Some r => Some r | None => first_end es end.
Proof. by destruct e. Qed.
(** The promise is settled once: it resolves when the server closes the connection, which it does after it has signalled,
    unless an error or the timeout came first. *)
Lemma cancel_settles es s : outcome (run es s) = match outcome s with Some r => Some r | None => first_end es end.
Proof.
  revert s. induction es as [|e es IH]; intros s; [cbn; by destruct (outcome s)|]. change (run (e :: es) s) with (run es (step e s)).
  rewrite IH, outcome_step, (first_end_cons e es). by destruct (outcome s), (first_end [e]).
Qed.
(** Whatever happens, the cancel request is sent at most once. *)
Lemma cancel_on_wire es : on_wire (run es start).
Proof.
  assert (on_wire start) as H0 by done. revert H0. generalize start. induction es as [|e es IH]; intros s H0; [done|]. by apply IH, on_wire_step.
Qed.
End Cancel.
End Cancel.
